(* ===== verification/_CoqProject ===== *)
-Q . S2P
Prelude.v
GoStd.v
Types.v
Costs.v
Queue.v
Kube.v
AgentTypes.v
Dag.v
Context.v
Template.v
RunState.v
RunProps.v
Validate.v
Policy.v
PolicyProps.v
PolicyController.v
PolicyNamespace.v
Registry.v
RegistryController.v
Routing.v
Dispatch.v
Collect.v
AgentRun.v
Admission.v
DispatchProps.v
CollectProps.v
Search.v
SearchProps.v
SearchRun.v
SearchInv.v
RunController.v
RunControllerProps.v
PipelineProps.v
Breaker.v
Sandbox.v
Runtime.v
Config.v
Guards.v
Gateway.v
Advisor.v
Loop.v
Runner.v
RunnerProps.v
Notify.v
NotifyProps.v
NotifyController.v
BudgetController.v
Webhooks.v
WebhookProps.v
Event.v
EventProps.v
Trigger.v
TriggerProps.v
Api.v
Team.v
TeamProps.v
TeamWiring.v
Wire.v
ConfigWire.v
AgentEnv.v
AgentEnvProps.v
EnvWire.v
PodConfig.v
PodLoads.v
AgentController.v
AgentPlan.v
AgentControllerProps.v
AgentStops.v
AgentNetwork.v
AgentPods.v
AgentSample.v
RedisQueue.v
RedisProps.v
Worker.v
RedisStores.v
RedisStoreProps.v
McpGateway.v
McpGatewayProps.v
AuditTrail.v
