(* ===== verification/Prelude.v ===== *)
(** * kubeswarm: a verification development

    kubeswarm (src/) is a Kubernetes operator that runs LLM agents.  A SwarmRun is a task for
    a team of agents: a pipeline of steps with dependencies, a routed task, a dynamic run of
    an entry role, a tree search, or a single agent.  The run controller drives a run through
    its phases by reconciling it again and again: each call reads the stored object, collects
    results from task queues, submits what has become ready and writes the status back.  Around
    it stand the policy engine (what an agent may do), the registry (which agent offers a
    capability), the router (an LLM chooses a capability) and the cost accounting (spend,
    budgets).  Triggers create runs (on a schedule, by a webhook, when a team completes), teams
    make agents for their roles, and notifications tell what became of a run.  The agent
    controller turns an agent into a deployment, whose environment carries the configuration of the
    agent; in its pods a worker takes tasks from a queue on Redis and lets an LLM call tools, under
    guards that limit what a task may do, and puts the result where the run controller reads it.
    This library models that logic as executable functions, translated from the Go source, and
    proves what makes it correct; where the code falls short of its own comments a theorem says
    exactly how.

    ** How Go is modelled

    An [int64] or [int32] is a [Z] with [wrap64], [wrap32] where overflow can matter; a struct
    is a record, a string enumeration an inductive type, a pointer an [option], a map a [gmap]
    (the order of a [range] is an argument, constrained by [range_order]).  A Go [(T, error)]
    is a [result].  A panic or a nil dereference is a value of the result type ([None],
    [Crash], [Panicked], [ApplyPanic]), never a default.  Slices of pointers into a shared
    array are positions into a list; the search tree models the array itself where the code
    relies on it.  The clock, the API server's answers, the queues and the LLM calls are
    arguments.  encoding/json, regexp, text/template, net/url, sort, math/rand, strings case
    mapping, float formatting and apimachinery's conditions are type classes, with their
    documented laws as separate classes that only the theorems that need them assume; each file
    ends with concrete instances and closed witnesses.

    ** The files, in order

    - Prelude: results, machine integers, record update, tactics, list lemmas.
    - GoStd: the parts of Go's standard library the source calls (strings, path.Match, strconv,
      sort, time's calendar, IEEE floats, decoded JSON values), and the type classes.
    - Types, AgentTypes, Kube: the API objects of api/v1alpha1 and the Kubernetes machinery.
    - Costs (pkg/costs): prices, spend log, in-memory store, budget policies, reconnection.
    - Queue (pkg/agent/queue, pkg/agent/errors, pkg/registry): results, structured errors.
    - Dag, Context, Template, RunState (pkg/flow): the pipeline graph, context policies, template
      data, the run state machine; RunProps holds the theorems on loops, JSON and counters.
    - Validate (pkg/flow/validate.go): validation of step outputs.
    - Policy, PolicyProps, PolicyController, PolicyNamespace (internal/controller/swarmpolicy_*.go,
      the admission webhook): merging policies, compliance, limits, enforcement, and the label and
      the clean-up of a namespace.
    - Registry, RegistryController, Routing (internal/registry, swarmregistry_controller.go,
      internal/routing): the capability index.  Routing is written against the interface
      [CapabilityIndex], whose laws the registry discharges.
    - Dispatch, DispatchProps, Collect, CollectProps, AgentRun, Admission, RunController,
      RunControllerProps, PipelineProps (internal/controller/swarmrun_controller.go): the
      reconciliation of a run, from the object stored before to the object stored after.
    - Search, SearchProps, SearchRun, SearchInv (internal/controller/swarmrun_search.go): the
      search tree, the planner's actions, beam pruning, and the search reconciler.
    - Breaker (pkg/agent/circuit), Sandbox (runner/sandbox.go), Guards (runner/dedup.go,
      tool_deny.go, modelmap.go, pkg/agent/budget, pkg/agent/redact), Config (pkg/agent/config):
      the guards and the configuration of the agent runtime.
    - Runtime: the world the runtime acts in.  The classes [World], [WorldLaws] and [QueueLaws]
      say what tools and queues may do to it (time never runs backwards, a wait takes time), and
      the polling of queues (collect_results, spawn_and_collect) is proved against them.
    - Gateway, Advisor, Loop, Runner, RunnerProps (pkg/agent/runner): the gateway and advisor
      tools, compression and memory, and the task itself.  The provider is any finite program of
      tool calls ([agent_loop]); [run_loop] interprets it over the state of the runner, and
      RunnerProps composes the parts' theorems.

    - Notify, NotifyProps, NotifyController (internal/controller/notify.go,
      swarmnotify_controller.go): the limiter, what is sent, deliveries with retries that interleave,
      and the acceptance of policies.  BudgetController (swarmbudget_controller.go): the status of
      budgets and their alerts.
    - Webhooks, WebhookProps (internal/webhook): the admission of agents and teams.
    - Event, EventProps (swarmevent_controller.go), Trigger, TriggerProps
      (trigger_webhook_server.go): schedules, firing, the HTTP server of triggers and its streams.
    - Api: a state monad for reconcilers, whose calls to the API server are numbered and may fail.
      Team, TeamProps, TeamWiring (swarmteam_controller.go) and the agent controller are written in
      it.
    - Wire: encoding/json of structs by the tags of their fields.  ConfigWire
      (pkg/agent/config/config.go) decodes what the runtime reads; AgentEnv, AgentEnvProps, EnvWire
      (swarmagent_controller.go, reasoning_cascade.go) build and encode what the operator writes;
      PodConfig and PodLoads compose the two sides.
    - AgentController (swarmagent_controller.go, swarmagent_advisor.go, swarmagent_gateway.go,
      keda.go): the reconciliation of an agent.  AgentPlan states what it should amount to and proves
      the refinement; AgentControllerProps, AgentStops, AgentNetwork and AgentPods draw on it;
      AgentSample is an agent at work.
    - RedisQueue, RedisProps (runtime/pkg/queue/redis/queue.go): the task queue as
      commands to a server, which is the class [RedisApi] with laws on a view of its streams.
      RedisStores, RedisStoreProps (runtime/pkg/budget/redisstore,
      runtime/pkg/costs/redisstore): the token budget and the spend history on sorted sets.
    - Worker (runtime/cmd/kubeswarm-runtime/main.go): one task from the queue to its
      settlement, with its artifacts and charges, and how many run at a time.
    - McpGateway, McpGatewayProps (internal/mcpgateway): agents as tools of the
      MCP protocol.  AuditTrail (pkg/audit): redaction, truncation and the emitter.

    ** What the theorems show

    - Runs: the phase only moves forward and terminal runs are left alone; a run left Running
      is looked at again; an error leaves the stored status untouched; one pass submits only
      steps whose dependencies are done, in order, within the token limit; what a queue answers for a
      task reaches the step in flight that waits for it, if the status tells it from the others, and no
      other; a step succeeds exactly when its output is accepted; over any passes of the pipeline
      reconciler retries and loops are bounded; success means that every step of the pipeline is done;
      a validated pipeline always has a step that can go on.
    - Graphs: cycle detection terminates and is exact, whatever the order of the map.
    - Search: the tree stays well-formed and bounded under any planner; validated actions are
      safe and refine a reference semantics on lists, with the exceptions that come from a slice that
      grows while pointers into it are kept.
    - Policies: an agent complies with the merge exactly when it complies with every policy
      (the exceptions are stated), and the merge does not depend on the order.
    - Registry and routing: lookups answer offering agents; the index offers under a
      registry what the agents it lists declare; routing is correct on every branch.
    - Costs and admission: the store refines the log of entries; verdicts of budgets; inputs.
    - Agent runtime: a task always ends, with the state of the runner well-formed; denied tools
      are not executed, the recall of a stored result apart; the breaker follows the history of
      outcomes, protects during its cooldown and lets one probe more than its limit through;
      sandboxed results come back unchanged; chains of dispatches between gateways are bounded by the
      depth limit when the tasks of a runner do not overlap; advisor calls are bounded; a
      configuration that loads is within its ranges.
    - Policies at work: a reconciliation reports the compliance of every agent of a batch; after
      the last policy nothing of it is left.
    - Notifications: the limiter refines the log of what was sent; status updates of one policy
      serialise.  Budgets: the status is the verdict of the policy, and alerts follow its changes.
    - Triggers: only authorised requests fire; each fire answers an activation of its own, when every
      pass reads what was stored last; tokens are streamed in order.  Webhooks: when they admit, warn and deny; advisors have no cycles.
    - Teams: delegation chains are bounded, retention keeps the newest runs, replicas are within
      their bounds, the steps of a role go to the queue that the agent of the role reads, and
      reconciling the roles settles when they have agents of their own.
    - Agents: a reconciliation with every call answered leaves exactly the planned objects, and a
      second one changes none of them; when nobody else supplies the variables of the operator, a pod
      loads exactly the configuration its agent describes, or does not start when that is incomplete or
      out of range; an agent past its daily limit is stopped whatever fails; a strict network policy
      admits the addresses it names, an IPv6 one with everything that shares its first 32 bits.
    - The queue: whatever submitters, workers and controllers do, a submitted task is queued, held or
      has a result under the id its submitter was given, as long as the operations that settle tasks
      succeed, no entry has more retries before it than are allowed, and what a worker acknowledges is
      read back; a worker makes one call that settles a task.  The budget refines the log of the day,
      in which a task recorded twice with the same tokens counts once; the spend history is complete up
      to its limit; both hold under any interleaving of reads and writes.
    - The MCP gateway: calls return, only exposed tools of ready agents are called, sessions are
      bounded and open while they are registered.  Audit: redaction hides exactly what matches,
      events are accounted for.
    - Defects: theorems of kind error exhibit behaviour that a comment or a document of the
      repository contradicts, by general statement or on a concrete state.

    ** Fuel

    Recursion that is not structural takes fuel with a proof that it suffices: the depth-first
    search gets one unit per vertex (Dag), the path to the root one per node (Search: a
    well-formed tree has smaller parent ids), glob matching one per byte (GoStd).  The polling
    loops of the runtime get one unit for every second (collect_results, dispatch) or half second
    (advisors) of their timeout and a few more: each pass waits at least that long, so the
    deadline passes before the fuel does ([collected_returns], [run_dispatch_returns],
    [callAdvisor_returns]).  Where the code selects between a tick and the deadline, the choice is
    an argument that may prefer the tick only finitely often ([fair]).  A call through the MCP
    gateway gets one unit per half second of the agent's timeout and three more
    ([tools_call_returns]).  The search for the last activation of a schedule steps from one
    activation to the next, which are whole seconds, over a day: [cron_fuel] is a day of seconds and
    two more.  SCAN of a namespace's keys (RedisStores) takes fuel without such a bound, because the
    server decides how often it answers with another cursor.  No theorem says only "if it
    returns".

    ** Not modelled

    Events of the recorder, logs, traces and metrics, which no decision reads.  The error value
    a search reconciliation returns (only what it stores).  Concurrent tool calls of one task
    and concurrent tasks of one runner run in some sequence here; a worker sees the run of a task
    from outside.  Of Kubernetes objects only the fields that the controllers write or read, without
    owner references and the defaults the API server fills in; the cache of parsed templates is
    left out, since parsing is a function.  The memory and settings controllers, the informer of the
    cost ConfigMap, the MCP client, the providers of models, the gRPC plug-ins, the vector stores,
    the artifact stores, the sinks of audit records and the commands' wiring are calls to external
    services or bookkeeping around Kubernetes objects; deepcopy and protobuf code is generated. *)
From Stdlib Require Import ZArith Lia Ascii.
From stdpp Require Import base tactics option list numbers strings gmap sorting.

(** ** Results: Go's [(T, error)] pairs, with the error as a value *)
Inductive result (E A : Type) : Type :=
| Ok (a : A)
| Err (e : E).
Arguments Ok {E A} a.
Arguments Err {E A} e.

Definition result_bind {E A B} (r : result E A) (k : A → result E B) : result E B :=
  match r with Ok a => k a | Err e => Err e end.

Definition is_Ok {E A} (r : result E A) : bool :=
  match r with Ok _ => true | Err _ => false end.

Declare Scope go_scope.
Delimit Scope go_scope with go.
Notation "x <-? e ; k" := (result_bind e (λ x, k))
  (at level 100, e at next level, right associativity) : go_scope.
Open Scope go_scope.
Open Scope Z_scope.

(** ** Machine integers: two's complement of width [w], kept as [Z] *)
Definition wrap (w : Z) (z : Z) : Z := (z + 2 ^ (w - 1)) mod 2 ^ w - 2 ^ (w - 1).
Abbreviation wrap64 := (wrap 64).
Abbreviation wrap32 := (wrap 32).
Definition min_int (w : Z) : Z := - 2 ^ (w - 1).
Definition max_int (w : Z) : Z := 2 ^ (w - 1) - 1.
Definition in_width (w : Z) (z : Z) : Prop := min_int w ≤ z ≤ max_int w.
Definition in_width_b (w : Z) (z : Z) : bool := (min_int w <=? z) && (z <=? max_int w).

(** ** Functional record update.
    [r <| f := v |>] is the Go assignment [r.f = v] on a value.  A record type
    registers its eta expansion once; the setter of each projection is then found
    by abstracting that projection in the expansion. *)
Class Settable (R : Type) := record_eta : R → R.
Class Setter {R E : Type} (proj : R → E) := set_field : (E → E) → R → R.
Arguments set_field {R E} proj {_} _ _.

Ltac derive_setter R proj :=
  let inst := constr:(_ : Settable R) in
  let e := eval hnf in inst in
  let p := eval pattern proj in e in
  lazymatch p with
  | ?F _ => let s := eval cbv beta in (fun f r => F (fun x => f (proj x)) r) in exact s
  end.

#[export] Hint Extern 1 (@Setter ?R _ ?proj) => derive_setter R proj : typeclass_instances.

Notation "r <| p := v |>" := (set_field p (λ _, v) r)
  (at level 1, left associativity, p at level 11, format "r  <| p  :=  v |>") : go_scope.
Notation "r <| p ::= f |>" := (set_field p f r)
  (at level 1, left associativity, p at level 11, format "r  <| p  ::=  f |>") : go_scope.

(** ** Tactics of the development *)

(** Split the first [if] or [match] of the goal on its scrutinee. *)
Ltac split_match :=
  match goal with
  | |- context [if ?b then _ else _] => destruct b eqn:?
  | |- context [match ?x with _ => _ end] => destruct x eqn:?
  end.

(** Split the first [if] or [match] found in a hypothesis. *)
Ltac split_match_hyp :=
  match goal with
  | H : context [if ?b then _ else _] |- _ => destruct b eqn:?
  | H : context [match ?x with _ => _ end] |- _ => destruct x eqn:?
  end.

(** Turn boolean comparisons of the code into propositions. *)
Ltac to_prop :=
  repeat match goal with
  | H : negb _ = true |- _ => apply negb_true_iff in H
  | H : negb _ = false |- _ => apply negb_false_iff in H
  | H : _ && _ = true |- _ => apply andb_true_iff in H as [? ?]
  | H : _ || _ = false |- _ => apply orb_false_iff in H as [? ?]
  | H : (_ <? _) = true |- _ => apply Z.ltb_lt in H
  | H : (_ <? _) = false |- _ => apply Z.ltb_ge in H
  | H : (_ <=? _) = true |- _ => apply Z.leb_le in H
  | H : (_ <=? _) = false |- _ => apply Z.leb_gt in H
  | H : (_ =? _) = true |- _ => apply Z.eqb_eq in H
  | H : (_ =? _) = false |- _ => apply Z.eqb_neq in H
  | H : (_ >? _) = true |- _ => apply Z.gtb_lt in H
  | H : (_ >? _) = false |- _ => rewrite Z.gtb_ltb, Z.ltb_ge in H
  | H : bool_decide _ = true |- _ => apply bool_decide_eq_true in H
  | H : bool_decide _ = false |- _ => apply bool_decide_eq_false in H
  end.

(** A number is within its width. *)
Ltac fits := try lia; unfold in_width, min_int, max_int; lia.

Create HintDb go discriminated.

(** ** Lemmas on machine integers *)
Lemma wrap_id w z : 0 < w → in_width w z → wrap w z = z.
Proof.
  intros Hw [H1 H2]. unfold wrap, min_int, max_int in *.
  assert (2 ^ w = 2 * 2 ^ (w - 1)) as E.
  { rewrite <- Z.pow_succ_r by lia. f_equal. lia. }
  rewrite Z.mod_small; lia.
Qed.

Lemma wrap_range w z : 0 < w → in_width w (wrap w z).
Proof.
  intros Hw. unfold wrap, in_width, min_int, max_int.
  assert (2 ^ w = 2 * 2 ^ (w - 1)) as E.
  { rewrite <- Z.pow_succ_r by lia. f_equal. lia. }
  assert (0 < 2 ^ w) by (apply Z.pow_pos_nonneg; lia).
  pose proof (Z.mod_pos_bound (z + 2 ^ (w - 1)) (2 ^ w)). lia.
Qed.

Lemma in_width_b_true w z : in_width_b w z = true ↔ in_width w z.
Proof. unfold in_width_b, in_width. rewrite andb_true_iff, !Z.leb_le. done. Qed.

Lemma wrap_add_l w a b : wrap w (wrap w a + b) = wrap w (a + b).
Proof.
  unfold wrap. f_equal.
  replace ((a + 2 ^ (w - 1)) mod 2 ^ w - 2 ^ (w - 1) + b + 2 ^ (w - 1)) with ((a + 2 ^ (w - 1)) mod 2 ^ w + b) by lia.
  destruct (decide (2 ^ w = 0)) as [E|]; [by rewrite E, !Zmod_0_r; lia|].
  rewrite Z.add_mod_idemp_l by done. f_equal. lia.
Qed.
Lemma wrap_add_r w a b : wrap w (a + wrap w b) = wrap w (a + b).
Proof. by rewrite Z.add_comm, wrap_add_l, Z.add_comm. Qed.

#[export] Hint Resolve wrap_id wrap_range : go.
