(* ===== verification/GoStd.v ===== *)
(** * GoStd: the part of the Go standard library the modelled code calls.

    Strings are byte sequences ([String.string]); the functions below follow the
    documented behaviour of packages strings, strconv, path, slices, sort and time.  Case mapping ([ToLower], [ToUpper]) is the ASCII one: bytes outside ASCII
    are kept, which is exact for the ASCII keywords and identifiers the callers
    compare with.  [Quote] is exact on strings whose non-ASCII runes are printable.
    In [path.Match] a wildcard or class consumes one byte.  Values of type [any]
    are JSON-like trees, and float64 is the binary64 format of [SpecFloat].  Instants are
    nanoseconds since the epoch, with the calendar functions of package time in UTC.
    math/rand, encoding/json, regexp, text/template and the decimal conversion of floats are
    interfaces: the operations the code calls, with no assumption on them. *)
From Stdlib Require Import ZArith Lia Ascii SpecFloat.
From stdpp Require Import base tactics option list strings pretty sorting gmap.
From S2P Require Import Prelude.

(** ** package strings *)
Fixpoint str_take (n : nat) (s : string) : string :=
  match n, s with
  | S n', String c s' => String c (str_take n' s')
  | _, _ => ""
  end.

Fixpoint str_drop (n : nat) (s : string) : string :=
  match n, s with
  | S n', String _ s' => str_drop n' s'
  | _, _ => s
  end.

Definition str_len (s : string) : Z := Z.of_nat (String.length s).

Definition HasPrefix (s pre : string) : bool := String.prefix pre s.

Definition HasSuffix (s suf : string) : bool :=
  (String.length suf <=? String.length s)%nat &&
  String.eqb (str_drop (String.length s - String.length suf) s) suf.

Definition str_index (s sub : string) : option nat := String.index 0 sub s.
Definition str_contains (s sub : string) : bool :=
  match str_index s sub with Some _ => true | None => false end.

(** [strings.LastIndex] of a one-byte separator. *)
Fixpoint last_index_byte (s : string) (c : ascii) : option nat :=
  match s with
  | "" => None
  | String d s' =>
      match last_index_byte s' c with
      | Some n => Some (S n)
      | None => if Ascii.eqb d c then Some 0%nat else None
      end
  end.

Fixpoint index_byte (s : string) (c : ascii) : option nat :=
  match s with
  | "" => None
  | String d s' =>
      if Ascii.eqb d c then Some 0%nat else S <$> index_byte s' c
  end.

Fixpoint str_map (f : ascii → ascii) (s : string) : string :=
  match s with "" => "" | String c s' => String (f c) (str_map f s') end.

Definition byte_lower (c : ascii) : ascii :=
  let n := N_of_ascii c in
  if ((65 <=? n) && (n <=? 90))%N then ascii_of_N (n + 32) else c.
Definition byte_upper (c : ascii) : ascii :=
  let n := N_of_ascii c in
  if ((97 <=? n) && (n <=? 122))%N then ascii_of_N (n - 32) else c.
Definition ToLower : string → string := str_map byte_lower.
Definition ToUpper : string → string := str_map byte_upper.

Definition str_of_bytes (l : list N) : string :=
  foldr (λ n s, String (ascii_of_N n) s) "" l.

(** The UTF-8 encodings of the runes [unicode.IsSpace] accepts. *)
Definition space_runes : list string := str_of_bytes <$>
  [[9]; [10]; [11]; [12]; [13]; [32]; [194;133]; [194;160]; [225;154;128];
   [226;128;128]; [226;128;129]; [226;128;130]; [226;128;131]; [226;128;132];
   [226;128;133]; [226;128;134]; [226;128;135]; [226;128;136]; [226;128;137];
   [226;128;138]; [226;128;168]; [226;128;169]; [226;128;175]; [226;129;159];
   [227;128;128]]%N.

Fixpoint strip_left (set : list string) (fuel : nat) (s : string) : string :=
  match fuel with
  | O => s
  | S fuel' =>
      match List.find (HasPrefix s) set with
      | Some r => strip_left set fuel' (str_drop (String.length r) s)
      | None => s
      end
  end.

Fixpoint strip_right (set : list string) (fuel : nat) (s : string) : string :=
  match fuel with
  | O => s
  | S fuel' =>
      match List.find (HasSuffix s) set with
      | Some r => strip_right set fuel' (str_take (String.length s - String.length r) s)
      | None => s
      end
  end.

(** Every pass removes at least one byte, so the length is enough fuel. *)
Definition TrimLeft (s : string) (cutset : list string) : string :=
  strip_left cutset (String.length s) s.
Definition TrimSpace (s : string) : string :=
  let l := strip_left space_runes (String.length s) s in
  strip_right space_runes (String.length l) l.

(** [strings.Split] on a one-byte separator. *)
Fixpoint split_byte (c : ascii) (s : string) : list string :=
  match s with
  | "" => [""]
  | String d s' =>
      if Ascii.eqb d c then "" :: split_byte c s'
      else match split_byte c s' with
           | [] => [String d ""]
           | x :: xs => String d x :: xs
           end
  end.

Definition str_join (sep : string) (l : list string) : string :=
  match l with
  | [] => ""
  | x :: xs => foldl (λ acc y, acc +:+ sep +:+ y) x xs
  end.

Definition newline : ascii := "010"%char.
Definition nl : string := String newline "".
Definition dquote : ascii := "034"%char.
Definition dq : string := String dquote "".

(** ** package strconv and the fmt verbs *)
Definition itoa (z : Z) : string := pretty z.

Definition hex_digit (n : N) : ascii :=
  if (n <? 10)%N then ascii_of_N (48 + n) else ascii_of_N (87 + n).

Definition quote_byte (c : ascii) : string :=
  let n := N_of_ascii c in
  let esc c := String "\" (String c "") in
  if (n =? 34)%N then esc dquote
  else if (n =? 92)%N then esc "\"%char
  else if (n =? 7)%N then esc "a"%char
  else if (n =? 8)%N then esc "b"%char
  else if (n =? 12)%N then esc "f"%char
  else if (n =? 10)%N then esc "n"%char
  else if (n =? 13)%N then esc "r"%char
  else if (n =? 9)%N then esc "t"%char
  else if (n =? 11)%N then esc "v"%char
  else if ((n <? 32) || (n =? 127))%N then
    String "\" (String "x" (String (hex_digit (n / 16)) (String (hex_digit (n mod 16)) "")))
  else String c "".

Fixpoint quote_bytes (s : string) : string :=
  match s with "" => "" | String c s' => quote_byte c +:+ quote_bytes s' end.
(** The verb [%q]. *)
Definition Quote (s : string) : string := dq +:+ quote_bytes s +:+ dq.

(** [strconv.ParseInt(s, 10, 64)] as used with the error dropped: the value, with the
    saturation at the bounds of int64, and 0 on a syntax error. *)
Fixpoint digits_value (s : string) (acc : Z) : option Z :=
  match s with
  | "" => Some acc
  | String c s' =>
      let n := Z.of_N (N_of_ascii c) in
      if (48 <=? n) && (n <=? 57) then digits_value s' (acc * 10 + (n - 48)) else None
  end.

Definition ParseInt64 (s : string) : Z :=
  let body neg t :=
    match t with
    | "" => 0
    | _ => match digits_value t 0 with
           | None => 0
           | Some v => if neg : bool then Z.max (min_int 64) (- v) else Z.min (max_int 64) v
           end
    end in
  match s with
  | String "+" t => body false t
  | String "-" t => body true t
  | t => body false t
  end.

(** ** package path: Match *)
Inductive glob_item :=
| GStar
| GAny
| GByte (c : ascii)
| GClass (negated : bool) (ranges : list (ascii * ascii)).

Definition slash : ascii := "/"%char.

(** One bound of a range, possibly escaped; [None] is ErrBadPattern. *)
Definition glob_esc (p : string) : option (ascii * string) :=
  match p with
  | "" => None
  | String "\" "" => None
  | String "\" (String c "") => None
  | String "\" (String c p') => Some (c, p')
  | String c p' =>
      if Ascii.eqb c "-" || Ascii.eqb c "]" then None
      else match p' with "" => None | _ => Some (c, p') end
  end.

(** The ranges of a class up to its closing bracket. *)
Fixpoint glob_ranges (fuel : nat) (acc : list (ascii * ascii)) (p : string)
    : option (list (ascii * ascii) * string) :=
  match fuel with
  | O => None
  | S fuel' =>
      match p, acc with
      | String "]" p', _ :: _ => Some (acc, p')
      | _, _ =>
          match glob_esc p with
          | None => None
          | Some (lo, String "-" p1) =>
              match glob_esc p1 with
              | None => None
              | Some (hi, p2) => glob_ranges fuel' ((lo, hi) :: acc) p2
              end
          | Some (lo, p1) => glob_ranges fuel' ((lo, lo) :: acc) p1
          end
      end
  end.

Fixpoint glob_parse (fuel : nat) (p : string) : option (list glob_item) :=
  match fuel with
  | O => match p with "" => Some [] | _ => None end
  | S fuel' =>
      match p with
      | "" => Some []
      | String "*" p' => cons GStar <$> glob_parse fuel' p'
      | String "?" p' => cons GAny <$> glob_parse fuel' p'
      | String "\" "" => None
      | String "\" (String c p') => cons (GByte c) <$> glob_parse fuel' p'
      | String "[" p' =>
          let '(neg, p1) := match p' with
            | String "^" q => (true, q) | q => (false, q) end in
          match glob_ranges (String.length p1) [] p1 with
          | None => None
          | Some (rs, p2) => cons (GClass neg rs) <$> glob_parse fuel' p2
          end
      | String c p' => cons (GByte c) <$> glob_parse fuel' p'
      end
  end.

Definition in_ranges (rs : list (ascii * ascii)) (c : ascii) : bool :=
  existsb (λ r, (N_of_ascii r.1 <=? N_of_ascii c)%N && (N_of_ascii c <=? N_of_ascii r.2)%N) rs.

(** A star spans any bytes but slashes. *)
Fixpoint star_match (k : string → bool) (s : string) : bool :=
  k s || match s with
         | "" => false
         | String c s' => if Ascii.eqb c slash then false else star_match k s'
         end.

Fixpoint glob_items_match (items : list glob_item) (s : string) : bool :=
  match items with
  | [] => String.eqb s ""
  | GStar :: rest => star_match (glob_items_match rest) s
  | GAny :: rest =>
      match s with
      | String c s' => negb (Ascii.eqb c slash) && glob_items_match rest s'
      | "" => false
      end
  | GByte b :: rest =>
      match s with
      | String c s' => Ascii.eqb b c && glob_items_match rest s'
      | "" => false
      end
  | GClass neg rs :: rest =>
      match s with
      | String c s' => negb (Bool.eqb (in_ranges rs c) neg) && glob_items_match rest s'
      | "" => false
      end
  end.

(** [None] is ErrBadPattern. *)
Definition path_Match (pattern name : string) : option bool :=
  match glob_parse (String.length pattern) pattern with
  | Some items => Some (glob_items_match items name)
  | None => None
  end.

(** ** package slices and sort *)
Definition str_le (a b : string) : Prop := String.leb a b = true.
#[export] Instance str_le_dec a b : Decision (str_le a b).
Proof. unfold str_le. apply _. Defined.

(** [slices.Sort] and [sort.Strings] on strings: byte-wise order. *)
Definition sort_strings (l : list string) : list string := merge_sort str_le l.

(** [sort.Slice] is not stable: its result on a given slice is some permutation
    ordered by [less].  The code that calls it receives the sorting function. *)
Class SliceSort (A : Type) := sort_slice : (A → A → bool) → list A → list A.
Class SliceSortLaws {A} (less : A → A → bool) (S : SliceSort A) : Prop := {
  sort_slice_perm : ∀ l, sort_slice less l ≡ₚ l;
  sort_slice_sorted : ∀ l, Sorted (λ a b, less b a = false) (sort_slice less l) }.

(** An order in which a Go [range] over the map may visit its keys. *)
Definition range_order {V} (m : gmap string V) (order : list string) : Prop :=
  NoDup order ∧ ∀ k, k ∈ order ↔ is_Some (m !! k).

Definition keys_of {V} (m : gmap string V) : list string := (map_to_list m).*1.

(** [math/rand.Intn]. *)
Class RandApi := rand_Intn : Z → Z.
Class RandLaws (R : RandApi) : Prop := rand_Intn_range : ∀ n, 0 < n → 0 ≤ rand_Intn n < n.

(** [sort.Search(n, f)]: the binary search on [0, n). *)
Fixpoint search_loop (fuel : nat) (f : Z → bool) (i j : Z) : Z :=
  match fuel with
  | O => i
  | S fuel' =>
      if i <? j then
        let h := (i + j) / 2 in
        if f h then search_loop fuel' f i h else search_loop fuel' f (h + 1) j
      else i
  end.
Definition sort_Search (n : Z) (f : Z → bool) : Z := search_loop (S (Z.to_nat n)) f 0 n.

(** ** package time: UTC times as nanoseconds since the Unix epoch *)
Definition second : Z := 1000000000.
Definition nanosecond_day : Z := 86400 * 1000000000.

(** The zero [time.Time], year 1. *)
Definition zero_time : Z := -62135596800 * 1000000000.

(** [t.Sub(u)], which saturates at the bounds of a 64-bit duration. *)
Definition time_Sub (t u : Z) : Z := Z.max (min_int 64) (Z.min (max_int 64) (t - u)).

(** [time.Duration(n) * time.Second], an int64 product. *)
Definition duration_seconds (n : Z) : Z := wrap64 (n * second).
Definition day_number (t : Z) : Z := t / nanosecond_day.

(** [t.Truncate(24 * time.Hour)]. *)
Definition truncate_day (t : Z) : Z := day_number t * nanosecond_day.

(** [t.Weekday()]: 0 is Sunday; the epoch was a Thursday. *)
Definition weekday (t : Z) : Z := (day_number t + 4) mod 7.

(** The day of the year of a day number, in the calendar whose year starts on March 1st
    (so that the leap day is the last day), and from it the day of the month, as the
    proleptic Gregorian calendar has it. *)
Definition day_of_era (d : Z) : Z := (d + 719468) mod 146097.
Definition year_of_era (doe : Z) : Z :=
  (doe - doe / 1460 + doe / 36524 - doe / 146096) / 365.
Definition day_of_year (doe : Z) : Z :=
  let yoe := year_of_era doe in doe - (365 * yoe + yoe / 4 - yoe / 100).
Definition day_of_month (d : Z) : Z :=
  let doy := day_of_year (day_of_era d) in
  let mp := (5 * doy + 2) / 153 in
  doy - (153 * mp + 2) / 5 + 1.

(** [time.Date(t.Year(), t.Month(), 1, 0, 0, 0, 0, time.UTC)]. *)
Definition month_start (t : Z) : Z :=
  (day_number t - (day_of_month (day_number t) - 1)) * nanosecond_day.

(** ** float64 *)
Abbreviation f64 := spec_float.
Definition f64_of_Z (z : Z) : f64 := binary_normalize 53 1024 z 0 false.
Definition f64_add : f64 → f64 → f64 := SFadd 53 1024.
Definition f64_mul : f64 → f64 → f64 := SFmul 53 1024.
Definition f64_div : f64 → f64 → f64 := SFdiv 53 1024.
Definition f64_ltb (a b : f64) : bool := SFltb a b.
Definition f64_leb (a b : f64) : bool := SFleb a b.
Definition f64_eqb (a b : f64) : bool := SFeqb a b.
Definition f64_zero : f64 := S754_zero false.
(** The literal [n / d] of a decimal constant: the correctly rounded quotient. *)
Definition f64_lit (n d : Z) : f64 := f64_div (f64_of_Z n) (f64_of_Z d).

(** ** Values of type [any] *)
Inductive any :=
| ANil
| AString (s : string)
| AFloat (f : f64)
| ABool (b : bool)
| AList (l : list any)
| AMap (m : list (string * any)).

Fixpoint amap_get (m : list (string * any)) (k : string) : option any :=
  match m with
  | [] => None
  | (k', v) :: rest => if decide (k = k') then Some v else amap_get rest k
  end.

(** ** Interfaces of the packages whose algorithms are not modelled *)
Class JsonApi := {
  json_Unmarshal : string → result string any;
  json_Marshal : any → result string string;
  (** The error of unmarshalling this value into a [map[string]any]. *)
  json_type_error : any → string }.

Class RegexpApi := {
  Regexp : Type;
  regexp_Compile : string → result string Regexp;
  MatchString : Regexp → string → bool;
  FindStringSubmatch : Regexp → string → list string }.

Class TemplateApi := {
  Template : Type;
  template_Parse : string → result string Template;
  template_Execute : Template → any → result string string }.

(** Unicode upper-casing of a whole string. *)
Class CaseApi := strings_ToUpper : string → string.

Fixpoint is_ascii (s : string) : bool :=
  match s with "" => true | String c s' => (N_of_ascii c <? 128)%N && is_ascii s' end.

(** Documented behaviour: on ASCII text only the letters a to z change; the letter
    U+0250 (bytes C9 90) becomes U+2C6F (bytes E2 B1 AF), rune by rune. *)
Class CaseLaws (C : CaseApi) : Prop := {
  upper_ascii : ∀ s, is_ascii s = true → strings_ToUpper s = ToUpper s;
  upper_turned_a : ∀ s, is_ascii s = true →
    strings_ToUpper (str_of_bytes [201; 144]%N +:+ s) =
    str_of_bytes [226; 177; 175]%N +:+ ToUpper s }.

(** [strings.EqualFold]: equality under Unicode case folding. *)
Class FoldApi := strings_EqualFold : string → string → bool.

Class FloatText := {
  ParseFloat : string → option f64;
  FormatFloat : f64 → string;
  (** [fmt.Sprintf] with the verb [%.nf]. *)
  FormatFixed : nat → f64 → string;
  (** [int64(f)], whose value outside the range of int64 depends on the machine. *)
  f64_to_int64 : f64 → Z }.

(** ** Lemmas: strings *)
Lemma str_cons_app c s t : String c s +:+ t = String c (s +:+ t).
Proof. reflexivity. Qed.

Lemma str_app_assoc a b c : (a +:+ b) +:+ c = a +:+ (b +:+ c).
Proof. induction a as [|x a IH]; [done|]. rewrite !str_cons_app. by rewrite IH. Qed.

Lemma str_take_drop n s : str_take n s +:+ str_drop n s = s.
Proof.
  revert n. induction s as [|c s IH]; intros [|n]; [done..|]. simpl.
  rewrite str_cons_app. by rewrite IH.
Qed.

Lemma str_take_length n s : (n ≤ String.length s)%nat → String.length (str_take n s) = n.
Proof. revert n. induction s as [|c s IH]; intros [|n]; simpl; intros; try lia. f_equal. apply IH. lia. Qed.

Lemma str_take_ge n s : (String.length s ≤ n)%nat → str_take n s = s.
Proof. revert n. induction s as [|c s IH]; intros [|n]; simpl; intros; try lia; [done..|]. f_equal. apply IH. lia. Qed.

Lemma str_app_length a b : String.length (a +:+ b) = (String.length a + String.length b)%nat.
Proof. induction a as [|c a IH]; [done|]. rewrite str_cons_app. simpl. by rewrite IH. Qed.

Lemma HasPrefix_app p s : HasPrefix (p +:+ s) p = true.
Proof.
  unfold HasPrefix. induction p as [|c p IH]; [by destruct s|].
  rewrite str_cons_app. simpl. by destruct (Ascii.ascii_dec c c).
Qed.

Lemma HasPrefix_spec s p : HasPrefix s p = true ↔ ∃ t, s = p +:+ t.
Proof.
  split; [|by intros [t ->]; apply HasPrefix_app].
  unfold HasPrefix. revert s. induction p as [|c p IH]; intros s; [by exists s|].
  destruct s as [|d s]; simpl; [done|].
  destruct (Ascii.ascii_dec c d) as [->|]; [|done].
  intros [t ->]%IH. by exists t.
Qed.

(** [t] occurs verbatim in [s]. *)
Definition infix_of (t s : string) : Prop := ∃ a b, s = a +:+ t +:+ b.

Lemma str_app_empty_r s : s +:+ "" = s.
Proof. induction s as [|c s IH]; [done|]. rewrite str_cons_app. by rewrite IH. Qed.

#[export] Instance infix_of_preorder : PreOrder infix_of.
Proof.
  split.
  - intros s. exists "", "". by rewrite str_app_empty_r.
  - intros x y z (a & b & ->) (c & d & ->). exists (c +:+ a), (b +:+ d).
    by rewrite !str_app_assoc.
Qed.

Lemma infix_of_drop n s : infix_of (str_drop n s) s.
Proof. exists (str_take n s), "". by rewrite str_app_empty_r, str_take_drop. Qed.

Lemma infix_of_take n s : infix_of (str_take n s) s.
Proof. exists "", (str_drop n s). by rewrite str_take_drop. Qed.

Lemma strip_left_infix set fuel s : infix_of (strip_left set fuel s) s.
Proof.
  revert s. induction fuel as [|fuel IH]; intros s; simpl; [done|].
  destruct (List.find _ _) as [r|]; [|done]. etrans; [apply IH|apply infix_of_drop].
Qed.

Lemma strip_right_infix set fuel s : infix_of (strip_right set fuel s) s.
Proof.
  revert s. induction fuel as [|fuel IH]; intros s; simpl; [done|].
  destruct (List.find _ _) as [r|]; [|done]. etrans; [apply IH|apply infix_of_take].
Qed.

Lemma TrimSpace_infix s : infix_of (TrimSpace s) s.
Proof. unfold TrimSpace. etrans; [apply strip_right_infix|apply strip_left_infix]. Qed.

#[export] Hint Resolve infix_of_drop infix_of_take TrimSpace_infix : go.

(** ** Lemmas: the order on strings *)
Lemma byte_compare_trans a b c x :
  Ascii.compare a b = x → Ascii.compare b c = x → Ascii.compare a c = x.
Proof.
  unfold Ascii.compare. destruct x; intros H1 H2.
  - apply N.compare_eq_iff in H1, H2. apply N.compare_eq_iff. congruence.
  - rewrite N.compare_lt_iff in *. lia.
  - rewrite N.compare_gt_iff in *. lia.
Qed.

Lemma byte_compare_eq a b : Ascii.compare a b = Eq → a = b.
Proof. apply Ascii.compare_eq_iff. Qed.

#[export] Instance str_le_trans : Transitive str_le.
Proof.
  intros a. unfold str_le, String.leb. induction a as [|x a IH]; intros [|y b] [|z c]; simpl; try done.
  destruct (Ascii.compare x y) eqn:E1; [|destruct (Ascii.compare y z) eqn:E2|done].
  - apply byte_compare_eq in E1 as ->. destruct (Ascii.compare y z) eqn:E2; [|done..].
    apply IH.
  - apply byte_compare_eq in E2 as ->. by rewrite E1.
  - by rewrite (byte_compare_trans _ _ _ _ E1 E2).
  - done.
Qed.

#[export] Instance str_le_total : Total str_le.
Proof. intros a b. apply String.leb_total. Qed.

#[export] Instance str_le_antisym : AntiSymm eq str_le.
Proof. intros a b. apply String.leb_antisym. Qed.

Lemma sort_strings_perm l : sort_strings l ≡ₚ l.
Proof. apply merge_sort_Permutation. Qed.

Lemma sort_strings_sorted l : Sorted str_le (sort_strings l).
Proof. apply Sorted_merge_sort, _. Qed.

Lemma sort_strings_elem l x : x ∈ sort_strings l ↔ x ∈ l.
Proof. by rewrite sort_strings_perm. Qed.

(** Sorting forgets the order the elements came in. *)
Lemma sort_strings_unique l1 l2 : l1 ≡ₚ l2 → sort_strings l1 = sort_strings l2.
Proof.
  intros H. apply (Sorted_unique str_le); [apply sort_strings_sorted..|].
  by rewrite !sort_strings_perm.
Qed.

#[export] Instance sort_strings_proper : Proper ((≡ₚ) ==> (=)) sort_strings.
Proof. intros l1 l2. apply sort_strings_unique. Qed.

(** ** Lemmas: binary search *)
Definition step_at (n : Z) (f : Z → bool) (k : Z) : Prop :=
  0 ≤ k ≤ n ∧ (∀ i, 0 ≤ i < k → f i = false) ∧ (∀ i, k ≤ i < n → f i = true).

Lemma search_loop_spec fuel n f k i j :
  step_at n f k → 0 ≤ i ≤ k → k ≤ j ≤ n → j - i < Z.of_nat fuel →
  search_loop fuel f i j = k.
Proof.
  intros (Hk & Hlo & Hhi). revert i j. induction fuel as [|fuel IH]; intros i j Hi Hj Hf.
  { lia. }
  simpl. destruct (Z.ltb_spec i j) as [Hij|Hij]; [|lia].
  assert (i ≤ (i + j) / 2 < j) as Hh.
  { split; [apply Z.div_le_lower_bound|apply Z.div_lt_upper_bound]; lia. }
  destruct (f ((i + j) / 2)) eqn:E.
  - assert (k ≤ (i + j) / 2).
    { destruct (Z_lt_le_dec ((i + j) / 2) k) as [Hlt|]; [|done].
      rewrite Hlo in E by lia. done. }
    apply IH; lia.
  - assert ((i + j) / 2 < k).
    { destruct (Z_lt_le_dec ((i + j) / 2) k) as [|Hge]; [done|].
      rewrite Hhi in E by lia. done. }
    apply IH; lia.
Qed.

(** On a predicate that switches once from false to true, [sort.Search] finds the switch. *)
Lemma sort_Search_spec n f k : step_at n f k → sort_Search n f = k.
Proof.
  intros H. destruct H as (Hk & Hlo & Hhi). unfold sort_Search.
  eapply search_loop_spec; [by split| | |]; lia.
Qed.

(** ** Lemmas: map ranges and unstable sorts *)
Lemma range_order_keys {V} (m : gmap string V) : range_order m (keys_of m).
Proof.
  split; [apply NoDup_fst_map_to_list|]. intros k. unfold keys_of. rewrite list_elem_of_fmap. split.
  - intros ([k' v] & -> & Hin). apply elem_of_map_to_list in Hin. by exists v.
  - intros [v Hv]. exists (k, v). split; [done|]. by apply elem_of_map_to_list.
Qed.

Lemma range_order_perm {V} (m : gmap string V) o1 o2 :
  range_order m o1 → range_order m o2 → o1 ≡ₚ o2.
Proof.
  intros [N1 H1] [N2 H2]. apply NoDup_Permutation; [done..|]. intros k. by rewrite H1, H2.
Qed.

Definition not_less {A} (less : A → A → bool) (a b : A) : Prop := less b a = false.
#[export] Instance not_less_dec {A} (less : A → A → bool) : RelDecision (not_less less).
Proof. intros a b. unfold not_less. apply _. Defined.

(** A [sort.Slice]: merge sort satisfies its laws for every total order. *)
Definition merge_sort_by {A} : SliceSort A := λ less l, merge_sort (not_less less) l.

Lemma merge_sort_by_laws {A} (less : A → A → bool) :
  Total (not_less less) → SliceSortLaws less merge_sort_by.
Proof.
  intros HT. split; intros l; unfold sort_slice, merge_sort_by; [apply merge_sort_Permutation|].
  exact (Sorted_merge_sort (not_less less) l).
Qed.

(** Sorting by an injective key leaves no freedom: two sorts of the same elements agree. *)
Definition str_ltb (a b : string) : bool := negb (String.leb b a).
Definition key_less {A} (key : A → string) (a b : A) : bool := str_ltb (key a) (key b).

Lemma not_less_key {A} (key : A → string) a b :
  not_less (key_less key) a b ↔ str_le (key a) (key b).
Proof. unfold not_less, key_less, str_ltb, str_le. by destruct (String.leb _ _). Qed.

#[export] Instance key_less_trans {A} (key : A → string) : Transitive (not_less (key_less key)).
Proof. intros a b c. rewrite !not_less_key. apply str_le_trans. Qed.

Lemma NoDup_key_inj {A} (key : A → string) l a b :
  NoDup (key <$> l) → a ∈ l → b ∈ l → key a = key b → a = b.
Proof.
  intros Hnd (i & Hi)%list_elem_of_lookup_1 (j & Hj)%list_elem_of_lookup_1 E.
  assert (i = j) as <-; [|congruence].
  apply (NoDup_lookup _ _ _ (key a) Hnd); rewrite list_lookup_fmap; [by rewrite Hi|].
  by rewrite Hj, E.
Qed.

Lemma key_less_total {A} (key : A → string) : Total (not_less (key_less key)).
Proof. intros a b. rewrite !not_less_key. apply str_le_total. Qed.

Lemma sort_slice_unique {A} (key : A → string) (S1 S2 : SliceSort A)
    {L1 : SliceSortLaws (key_less key) S1} {L2 : SliceSortLaws (key_less key) S2} l1 l2 :
  l1 ≡ₚ l2 → NoDup (key <$> l1) →
  @sort_slice _ S1 (key_less key) l1 = @sort_slice _ S2 (key_less key) l2.
Proof.
  intros Hp Hnd.
  apply (Sorted_unique_strong (not_less (key_less key))).
  - intros a b Ha Hb Hab Hba.
    rewrite not_less_key in Hab. rewrite not_less_key in Hba.
    rewrite (sort_slice_perm (SliceSortLaws := L1)) in Ha.
    rewrite (sort_slice_perm (SliceSortLaws := L2)), <- Hp in Hb.
    apply (NoDup_key_inj key l1); [done..|]. by apply (anti_symm str_le).
  - apply (sort_slice_sorted (SliceSortLaws := L1)).
  - apply (sort_slice_sorted (SliceSortLaws := L2)).
  - by rewrite (sort_slice_perm (SliceSortLaws := L1)), (sort_slice_perm (SliceSortLaws := L2)).
Qed.

#[export] Hint Resolve str_take_drop sort_strings_perm sort_strings_sorted : go.

(** ** Lemmas: the calendar *)
(** The days before the year [y] of an era. *)
Definition year_start (y : Z) : Z := 365 * y + y / 4 - y / 100 + y / 400.

Lemma year_of_era_range x : 0 ≤ x < 146097 → 0 ≤ year_of_era x ≤ 399.
Proof. unfold year_of_era. intros H. Z.to_euclidean_division_equations; lia. Qed.

Lemma year_of_era_step x :
  0 < x < 146097 → year_of_era (x - 1) = year_of_era x ∨ year_of_era (x - 1) = year_of_era x - 1.
Proof. unfold year_of_era. intros H. Z.to_euclidean_division_equations; lia. Qed.

Lemma year_of_era_spec x :
  0 ≤ x < 146097 → year_start (year_of_era x) ≤ x < year_start (year_of_era x + 1).
Proof. unfold year_of_era, year_start. intros H. Z.to_euclidean_division_equations; lia. Qed.

Lemma day_of_year_eq x : 0 ≤ x < 146097 → day_of_year x = x - year_start (year_of_era x).
Proof.
  intros H. pose proof (year_of_era_range x H) as Hy. unfold day_of_year, year_start.
  rewrite (Z.div_small _ 400) by lia. lia.
Qed.

Lemma day_of_year_range x : 0 ≤ x < 146097 → 0 ≤ day_of_year x ≤ 365.
Proof.
  intros H. pose proof (year_of_era_spec x H). rewrite day_of_year_eq by done.
  unfold year_start in *. Z.to_euclidean_division_equations; lia.
Qed.

Lemma day_of_year_back x :
  0 < x < 146097 → day_of_year x = 0 ∨ day_of_year (x - 1) = day_of_year x - 1.
Proof.
  intros H. rewrite !day_of_year_eq by lia.
  pose proof (year_of_era_spec x ltac:(lia)). pose proof (year_of_era_spec (x - 1) ltac:(lia)).
  destruct (year_of_era_step x H) as [E|E]; rewrite E in *; [right; lia|left].
  replace (year_of_era x - 1 + 1) with (year_of_era x) in * by lia. lia.
Qed.

Lemma day_of_era_range d : 0 ≤ day_of_era d < 146097.
Proof. apply Z.mod_pos_bound. lia. Qed.

Lemma day_of_era_back d : day_of_era d ≠ 0 → day_of_era (d - 1) = day_of_era d - 1.
Proof. unfold day_of_era. intros H. Z.to_euclidean_division_equations; lia. Qed.

Lemma day_of_month_range d : 1 ≤ day_of_month d ≤ 31.
Proof.
  unfold day_of_month. pose proof (day_of_year_range _ (day_of_era_range d)) as H.
  set (doy := day_of_year _) in *. clearbody doy. Z.to_euclidean_division_equations; lia.
Qed.

(** The days of the year before the month [m], counted from March. *)
Definition month_first (m : Z) : Z := (153 * m + 2) / 5.

Lemma month_of_year_spec y :
  month_first ((5 * y + 2) / 153) ≤ y < month_first ((5 * y + 2) / 153 + 1).
Proof. unfold month_first. Z.to_euclidean_division_equations; lia. Qed.

Lemma month_of_year_step y :
  (5 * (y - 1) + 2) / 153 = (5 * y + 2) / 153 ∨ (5 * (y - 1) + 2) / 153 = (5 * y + 2) / 153 - 1.
Proof. Z.to_euclidean_division_equations; lia. Qed.

(** The day before a day that is not the first of its month. *)
Lemma day_of_month_back d : 1 < day_of_month d → day_of_month (d - 1) = day_of_month d - 1.
Proof.
  unfold day_of_month. pose proof (day_of_era_range d) as Hd. intros H.
  destruct (Z.eq_dec (day_of_era d) 0) as [E|Hne].
  { rewrite E in H. vm_compute in H. discriminate H. }
  rewrite (day_of_era_back d Hne). destruct (day_of_year_back (day_of_era d)) as [E|Hy]; [lia| |].
  { rewrite E in H. vm_compute in H. discriminate H. }
  rewrite Hy. set (y := day_of_year (day_of_era d)) in *. clearbody y. clear Hy Hd Hne.
  pose proof (month_of_year_spec y). pose proof (month_of_year_spec (y - 1)).
  fold (month_first ((5 * y + 2) / 153)) in *. fold (month_first ((5 * (y - 1) + 2) / 153)).
  destruct (month_of_year_step y) as [E|E]; rewrite E in *; [lia|].
  rewrite Z.sub_add in *. lia.
Qed.

Lemma day_of_month_first d : day_of_month (d - (day_of_month d - 1)) = 1.
Proof.
  assert (∀ n : nat, Z.of_nat n < day_of_month d → day_of_month (d - Z.of_nat n) = day_of_month d - Z.of_nat n) as H.
  { induction n as [|n IH]; intros Hn; [by rewrite !Z.sub_0_r|].
    rewrite Nat2Z.inj_succ in *.
    replace (d - (Z.succ (Z.of_nat n))) with (d - Z.of_nat n - 1) by lia.
    rewrite day_of_month_back; rewrite IH; lia. }
  pose proof (day_of_month_range d).
  replace (day_of_month d - 1) with (Z.of_nat (Z.to_nat (day_of_month d - 1))) by lia.
  rewrite H; lia.
Qed.

(** ** Lemmas: decimal digits *)
Definition is_digit (c : ascii) : Prop := (48 ≤ N_of_ascii c ≤ 57)%N.

(** A property of strings that holds of the decimal digits and is closed under adding a
    digit in front holds of a printed number. *)
Lemma pretty_N_ind (P : string → Prop) (n : N) :
  (∀ m s, (m < 10)%N → P s ∨ s = "" → P (String (pretty_N_char m) s)) → P (pretty n).
Proof.
  intros Hstep. unfold pretty, pretty_N. case_decide as Hn; [apply (Hstep 0%N); [lia|by right]|].
  assert (H : ∀ s, P s ∨ s = "" ∧ (0 < n)%N → P (pretty_N_go n s)); [|apply H; right; split; [done|lia]].
  clear Hn. induction (N.lt_wf_0 n) as [x _ IH]; intros s Hs.
  destruct (decide (x = 0)%N) as [->|Hx]; [rewrite pretty_N_go_0; destruct Hs as [?|[_ ?]]; [done|lia]|].
  rewrite pretty_N_go_step by lia. apply IH; [apply N.div_lt; lia|].
  left. apply Hstep; [by apply N.mod_lt|]. destruct Hs as [?|[? _]]; auto.
Qed.

Lemma pretty_N_char_code m : (m < 10)%N → N_of_ascii (pretty_N_char m) = (48 + m)%N.
Proof.
  intros H. assert (m ∈ [0; 1; 2; 3; 4; 5; 6; 7; 8; 9]%N) as Hm.
  { rewrite !elem_of_cons. lia. }
  repeat (apply elem_of_cons in Hm as [->|Hm]; [done|]). by apply elem_of_nil in Hm.
Qed.

Lemma pretty_N_char_digit m : (m < 10)%N → is_digit (pretty_N_char m).
Proof. intros H. unfold is_digit. rewrite pretty_N_char_code by done. lia. Qed.

Lemma digits_value_app s t acc :
  digits_value (s +:+ t) acc = match digits_value s acc with
                               | Some v => digits_value t v | None => None end.
Proof.
  revert acc. induction s as [|c s IH]; intros acc; [done|].
  rewrite str_cons_app. cbn [digits_value]. case_match; [apply IH|done].
Qed.

Lemma digits_value_pretty_go n s acc :
  digits_value (pretty_N_go n s) acc =
  digits_value (pretty_N_go n "") acc ≫= digits_value s.
Proof.
  revert s acc. induction (N.lt_wf_0 n) as [x _ IH]; intros s acc.
  destruct (decide (x = 0)%N) as [->|Hx]; [by rewrite ?pretty_N_go_0|].
  rewrite !(pretty_N_go_step x) by lia. set (c := pretty_N_char _).
  rewrite (IH (x `div` 10)%N ltac:(apply N.div_lt; lia) (String c s)).
  rewrite (IH (x `div` 10)%N ltac:(apply N.div_lt; lia) (String c "")).
  destruct (digits_value (pretty_N_go _ "") acc) as [v|]; simpl; [|done]. by case_match.
Qed.

Lemma digits_value_pretty n : digits_value (pretty (n : N)) 0 = Some (Z.of_N n).
Proof.
  unfold pretty, pretty_N. case_decide as Hn; [by subst|]. clear Hn.
  induction (N.lt_wf_0 n) as [x _ IH].
  destruct (decide (x = 0)%N) as [->|Hx]; [by rewrite ?pretty_N_go_0|].
  rewrite pretty_N_go_step by lia. rewrite digits_value_pretty_go, IH by (apply N.div_lt; lia).
  cbn [mbind option_bind digits_value].
  rewrite pretty_N_char_code by by apply N.mod_lt.
  pose proof (N.mod_lt x 10 ltac:(done)). set (m := (x `mod` 10)%N) in *.
  case_match eqn:E; [|exfalso; apply andb_false_iff in E as [E|E]; apply Z.leb_gt in E; lia].
  f_equal. pose proof (N.div_mod x 10 ltac:(done)). lia.
Qed.

Lemma pretty_N_head n : ∃ c s, pretty (n : N) = String c s ∧ is_digit c.
Proof.
  apply (pretty_N_ind (λ t, ∃ c s, t = String c s ∧ is_digit c)).
  intros m s Hm _. eauto using pretty_N_char_digit.
Qed.

(** What [Itoa] prints, [ParseInt] reads back. *)
Lemma ParseInt64_itoa z : in_width 64 z → ParseInt64 (itoa z) = z.
Proof.
  intros [H1 H2]. unfold itoa, pretty, pretty_Z. destruct z as [|p|p]; [done| |].
  - destruct (pretty_N_head (Npos p)) as (c & s & E & Hc).
    assert (ParseInt64 (String c s) = match digits_value (String c s) 0 with
              None => 0 | Some v => Z.min (max_int 64) v end) as E'.
    { unfold is_digit in Hc. unfold ParseInt64. 
      destruct (decide (c = "+"%char)) as [->|Hp]; [by destruct Hc as [[] _]|].
      destruct (decide (c = "-"%char)) as [->|Hm]; [by destruct Hc as [[] _]|].
      destruct c as [[] [] [] [] [] [] [] []]; done. }
    change (pretty p) with (pretty (Npos p)). rewrite E, E', <- E, digits_value_pretty. lia.
  - destruct (pretty_N_head (Npos p)) as (c & s & E & _).
    change (pretty p) with (pretty (Npos p)). rewrite E.
    change ("-" +:+ String c s) with (String "-" (String c s)).
    unfold ParseInt64. rewrite <- E, digits_value_pretty.
    change (min_int 64) with (-9223372036854775808) in *. lia.
Qed.

Fixpoint str_all (f : ascii → bool) (s : string) : bool :=
  match s with "" => true | String c s' => f c && str_all f s' end.

Lemma itoa_all f z :
  (∀ c, is_digit c → f c = true) → f "-"%char = true → str_all f (itoa z) = true.
Proof.
  intros Hd Hm.
  assert (Hp : ∀ n : N, str_all f (pretty n) = true).
  { intros n. apply (pretty_N_ind (λ s, str_all f s = true)). intros m s Hlt Hs. simpl.
    rewrite Hd by by apply pretty_N_char_digit. by destruct Hs as [->| ->]. }
  destruct z as [|p|p]; [apply (Hp 0%N)|apply (Hp (Npos p))|].
  unfold itoa, pretty, pretty_Z. simpl. rewrite Hm. apply (Hp (Npos p)).
Qed.

Lemma last_index_byte_none s c :
  str_all (λ d, negb (Ascii.eqb d c)) s = true → last_index_byte s c = None.
Proof.
  induction s as [|d s IH]; [done|]. simpl. intros [Hd Hs]%andb_true_iff.
  rewrite (IH Hs). by destruct (Ascii.eqb d c).
Qed.

(** ** Concrete instances, for evaluating the model on examples.
    A toy JSON (balanced outer braces), template language (the text itself), regexp
    language (literal substrings) and decimal conversion (integers only). *)
Definition toy_json : JsonApi := {|
  json_Unmarshal s := if HasPrefix s "{" && HasSuffix s "}" then Ok (AMap []) else Err "syntax";
  json_Marshal _ := Ok "{}";
  json_type_error _ := "type mismatch" |}.

Definition toy_regexp : RegexpApi := {|
  Regexp := string;
  regexp_Compile p := if HasPrefix p "(" then Err "missing )" else Ok p;
  MatchString re s := str_contains s re;
  FindStringSubmatch re s := if str_contains s re then [re] else [] |}.

Definition toy_template : TemplateApi := {|
  Template := string;
  template_Parse s := if HasPrefix s "{{" then Err "unclosed action" else Ok s;
  template_Execute t _ := Ok t |}.

Definition toy_float : FloatText := {|
  ParseFloat s := Some (f64_of_Z (ParseInt64 s));
  FormatFloat _ := "0";
  FormatFixed _ _ := "0.0";
  f64_to_int64 _ := 0 |}.

Definition toy_case : CaseApi := λ s,
  if HasPrefix s (str_of_bytes [201; 144]%N)
  then str_of_bytes [226; 177; 175]%N +:+ ToUpper (str_drop 2 s) else ToUpper s.

Lemma toy_case_laws : CaseLaws toy_case.
Proof.
  split; intros s Hs; unfold strings_ToUpper, toy_case.
  - destruct s as [|c s]; [done|]. simpl in Hs. destruct (HasPrefix _ _) eqn:E; [|done].
    apply HasPrefix_spec in E as [t E]. simpl in E. injection E as -> _. done.
  - by rewrite HasPrefix_app.
Defined.
