(* ===== verification/Types.v ===== *)
(** * Types: the API objects of api/v1alpha1 that the modelled components share.

    String enumerations become inductive types; [...Unset] is the Go zero value [""]
    (an API object whose field was never written).  Pointers become [option], maps
    [gmap], [metav1.Time] the number of nanoseconds since the Unix epoch.  Fields
    that no modelled operation reads or writes and whose types belong to the
    Kubernetes API (environment sources, pod resources, raw extensions) are left
    out; everything else keeps its Go name, prefixed by its type where two
    structures use the same one. *)
From Stdlib Require Import ZArith.
From stdpp Require Import base strings gmap.
From S2P Require Import Prelude.

(** ** api/v1alpha1/shared_types.go *)
Record TokenUsage := mkTokenUsage {
  InputTokens : Z;
  OutputTokens : Z;
  ThinkingTokens : Z;
  TotalTokens : Z;
  usage_Model : string }.

Inductive PipelineStepPhase :=
| StepUnset | StepPending | StepWarmingUp | StepRunning | StepValidating
| StepSucceeded | StepFailed | StepSkipped.

Record LoopSpec := mkLoopSpec {
  Condition : string;
  MaxIterations : Z }.

Record ContextCompressConfig := mkContextCompressConfig {
  TargetTokens : Z;
  compress_Model : string;
  compress_Prompt : string }.

Record StepContextPolicy := mkStepContextPolicy {
  Strategy : string;
  Compress : option ContextCompressConfig;
  ExtractPath : string }.

Record PipelineStepStatus := mkPipelineStepStatus {
  step_Name : string;
  step_Phase : PipelineStepPhase;
  step_TaskID : string;
  step_Output : string;
  step_RawOutput : string;
  step_CompressionTokens : Z;
  step_OutputJSON : string;
  step_StartTime : option Z;
  step_CompletionTime : option Z;
  step_Message : string;
  step_Iterations : Z;
  step_TokenUsage : option TokenUsage;
  step_CostUSD : string;
  step_ValidationAttempts : Z;
  step_ValidationMessage : string;
  step_Artifacts : gmap string string;
  step_ErrorCode : string;
  step_ErrorSuggestion : string;
  step_ResolvedAgent : string;
  step_SelectedCapability : string;
  step_RoutingReason : string }.

#[export] Instance eta_PipelineStepStatus : Settable PipelineStepStatus := λ s,
  mkPipelineStepStatus (step_Name s) (step_Phase s) (step_TaskID s) (step_Output s)
    (step_RawOutput s) (step_CompressionTokens s) (step_OutputJSON s) (step_StartTime s)
    (step_CompletionTime s) (step_Message s) (step_Iterations s) (step_TokenUsage s)
    (step_CostUSD s) (step_ValidationAttempts s) (step_ValidationMessage s)
    (step_Artifacts s) (step_ErrorCode s) (step_ErrorSuggestion s) (step_ResolvedAgent s)
    (step_SelectedCapability s) (step_RoutingReason s).

(** The zero [PipelineStepStatus] with a name and a phase, as the composite literals
    of the source build it. *)
Definition new_step (name : string) (phase : PipelineStepPhase) : PipelineStepStatus :=
  mkPipelineStepStatus name phase "" "" "" 0 "" None None "" 0 None "" 0 "" ∅ "" "" "" "" "".

(** ** api/v1alpha1/swarmteam_types.go: the pipeline, routing and search specs *)
Inductive OnFailureAction := OnFailureUnset | OnFailureFail | OnFailureRetry.

Record StepValidation := mkStepValidation {
  Contains : string;
  Schema : string;
  Semantic : string;
  SemanticModel : string;
  OnFailure : OnFailureAction;
  MaxRetries : Z;
  RejectPatterns : list string }.

Record SwarmTeamRoutingSpec := mkSwarmTeamRoutingSpec {
  routing_RegistryRef : option string;
  routing_Model : string;
  routing_SystemPrompt : string;
  routing_Fallback : string }.

Inductive RegistryLookupStrategy :=
| StrategyUnset | StrategyLeastBusy | StrategyRoundRobin | StrategyRandom.

Record RegistryLookupSpec := mkRegistryLookupSpec {
  lookup_Capability : string;
  lookup_Tags : list string;
  lookup_Strategy : RegistryLookupStrategy;
  lookup_RegistryRef : option string;
  lookup_Fallback : string }.

Record ArtifactSpec := mkArtifactSpec {
  artifact_Name : string;
  artifact_Description : string;
  artifact_ContentType : string }.

Record SwarmTeamPipelineStep := mkSwarmTeamPipelineStep {
  Role : string;
  Inputs : gmap string string;
  DependsOn : list string;
  If : string;
  Loop : option LoopSpec;
  OutputSchema : string;
  Validate : option StepValidation;
  OutputArtifacts : list ArtifactSpec;
  InputArtifacts : gmap string string;
  RegistryLookup : option RegistryLookupSpec;
  ContextPolicy : option StepContextPolicy;
  step_MaxOutputBytes : Z }.

(** A step that only names its role and its dependencies. *)
Definition plain_step (role : string) (deps : list string) : SwarmTeamPipelineStep :=
  mkSwarmTeamPipelineStep role ∅ deps "" None "" None [] ∅ None None 0.

Inductive SearchStrategy := SearchStrategyBFS | SearchStrategyBeamSearch.

Inductive SearchNodePhase :=
| NodePending | NodeRunning | NodeScored | NodePruned | NodeEvalFailed | NodeSolution.

Inductive SearchTerminationReason :=
| MinScoreReached | MaxDepthReached | MaxNodesReached | MaxIterationsReached
| BudgetExhausted | PlannerConverged | PlannerFailure | SearchCancelled.

Record SwarmTeamSearchSpec := mkSwarmTeamSearchSpec {
  search_Strategy : SearchStrategy;
  PlannerRole : string;
  ExecutorRole : string;
  EvaluatorRole : option string;
  InitialPrompt : string;
  MinScorePercent : option Z;
  MaxDepth : Z;
  MaxNodes : Z;
  MaxOutputBytes : option Z;
  search_MaxIterations : Z;
  MaxParallel : Z;
  BeamWidth : Z;
  MaxPlannerRetries : Z;
  MaxEvaluatorRetries : Z;
  StagnationThreshold : Z;
  PlannerTimeoutSeconds : option Z }.

(** ** api/v1alpha1/search_types.go *)
Record SearchAction := mkSearchAction {
  Action : string;
  ParentNode : option Z;
  action_Node : option Z;
  action_Task : option string;
  action_ScoreMillis : option Z;
  action_Reason : option string }.

Record SearchNodeStatus := mkSearchNodeStatus {
  node_ID : Z;
  node_ParentID : option Z;
  node_Depth : Z;
  node_Task : string;
  node_Output : string;
  node_ScoreMillis : option Z;
  node_ScoreReasoning : string;
  node_Phase : SearchNodePhase;
  node_TaskID : string;
  node_TokenUsage : option TokenUsage }.

#[export] Instance eta_SearchNodeStatus : Settable SearchNodeStatus := λ n,
  mkSearchNodeStatus (node_ID n) (node_ParentID n) (node_Depth n) (node_Task n)
    (node_Output n) (node_ScoreMillis n) (node_ScoreReasoning n) (node_Phase n)
    (node_TaskID n) (node_TokenUsage n).

Record SearchTreeStatus := mkSearchTreeStatus {
  Nodes : list SearchNodeStatus;
  tree_Iterations : Z;
  SolutionNodeID : option Z;
  TerminationReason : option SearchTerminationReason;
  LastPlannerIteration : option Z }.

#[export] Instance eta_SearchTreeStatus : Settable SearchTreeStatus := λ t,
  mkSearchTreeStatus (Nodes t) (tree_Iterations t) (SolutionNodeID t)
    (TerminationReason t) (LastPlannerIteration t).

(** ** api/v1alpha1/swarmrun_types.go *)
Inductive SwarmRunPhase := RunUnset | RunPending | RunRunning | RunSucceeded | RunFailed.
Inductive SwarmTeamPhase :=
| TeamUnset | TeamPending | TeamReady | TeamRunning | TeamSucceeded | TeamFailed.

(** ** api/v1alpha1/swarmagent_types.go: what the roles of teams and agents have in common *)

(** The key of a Secret or ConfigMap. *)
Record KeySelector := mkKeySelector { selector_Name : string; selector_Key : string }.

Record SystemPromptSource := mkSystemPromptSource {
  ConfigMapKeyRef : option KeySelector;
  prompt_SecretKeyRef : option KeySelector }.

Record AgentPrompt := mkAgentPrompt { prompt_Inline : string; prompt_From : option SystemPromptSource }.

Inductive ToolTrustLevel := TrustUnset | ToolTrustInternal | ToolTrustExternal | ToolTrustSandbox.

Record CircuitBreakerSpec := mkCircuitBreakerSpec {
  FailureThreshold : Z;
  CooldownSeconds : Z;
  HalfOpenMaxCalls : Z }.

Record GuardrailLimits := mkGuardrailLimits {
  TokensPerCall : Z;
  ConcurrentTasks : Z;
  limits_TimeoutSeconds : Z;
  DailyTokens : Z;
  Retries : Z;
  agent_MaxThinkingTokensPerCall : option Z;
  agent_MaxAnswerTokensPerCall : option Z;
  limits_CircuitBreaker : option CircuitBreakerSpec }.

(** The key with the bearer token, or the Secret with the client certificate. *)
Record MCPServerAuth := mkMCPServerAuth {
  auth_Bearer : option KeySelector;
  auth_MTLS : option string }.

Record MCPHeader := mkMCPHeader {
  header_Name : string;
  header_Value : string;
  header_SecretKeyRef : option KeySelector }.

Record MCPDiscoveryConfig := mkMCPDiscoveryConfig {
  discovery_Dynamic : bool;
  discovery_PollIntervalSeconds : Z }.

Record MCPToolSpec := mkMCPToolSpec {
  mcptool_Name : string;
  mcptool_URL : string;
  mcptool_Auth : option MCPServerAuth;
  mcptool_CapabilityRef : string;
  mcptool_Trust : ToolTrustLevel;
  mcptool_Instructions : string;
  mcptool_Headers : list MCPHeader;
  mcptool_Discovery : option MCPDiscoveryConfig }.

(** The schema is a raw extension: the text of a JSON value. *)
Record WebhookToolSpec := mkWebhookToolSpec {
  hooktool_Name : string;
  hooktool_URL : string;
  hooktool_Method : string;
  hooktool_Description : string;
  hooktool_Trust : ToolTrustLevel;
  hooktool_Schema : option string }.

Record AgentTools := mkAgentTools {
  tools_MCP : list MCPToolSpec;
  tools_Webhooks : list WebhookToolSpec }.

Record SwarmAgentAutoscaling := mkSwarmAgentAutoscaling {
  MinReplicas : option Z;
  MaxReplicas : option Z;
  TargetPendingTasks : option Z }.

Record CompressionSpec := mkCompressionSpec {
  compression_ThresholdPercent : Z;
  compression_PreserveRecentTurns : Z;
  compression_Model : string;
  compression_TimeoutSeconds : Z;
  compression_ContextWindow : Z;
  compression_Instructions : string }.

Record AgentLoopMemory := mkAgentLoopMemory {
  memory_Ref : option string;
  memory_Store : bool;
  memory_Retrieve : bool;
  memory_TopK : Z;
  memory_MinSimilarityPercent : Z;
  memory_SummaryTokens : Z;
  memory_MaxTokens : Z }.

Record SandboxSpec := mkSandboxSpec {
  sandbox_ThresholdBytes : Z;
  sandbox_PreviewBytes : Z;
  sandbox_MaxTotalBytes : Z }.

Record AgentLoopPolicy := mkAgentLoopPolicy {
  loop_Dedup : bool;
  loop_Compression : option CompressionSpec;
  loop_Memory : option AgentLoopMemory;
  loop_Sandbox : option SandboxSpec }.

Inductive ArtifactFormat :=
| ArtifactFormatUnset | ArtifactFormatText | ArtifactFormatJSON | ArtifactFormatMarkdown | ArtifactFormatYAML.

Record AgentArtifactsConfig := mkAgentArtifactsConfig {
  artifacts_SaveOutput : bool;
  artifacts_Format : ArtifactFormat }.

(** Amounts of resources by their names; a nil list is [None]. *)
Record ResourceRequirements := mkResourceRequirements {
  resource_Requests : option (gmap string string);
  resource_Limits : option (gmap string string) }.

Record AgentRuntime := mkAgentRuntime {
  Replicas : option Z;
  runtime_Autoscaling : option SwarmAgentAutoscaling;
  runtime_Resources : option ResourceRequirements;
  runtime_Loop : option AgentLoopPolicy;
  runtime_Artifacts : option AgentArtifactsConfig;
  ImagePullSecrets : list string;
  DrainTimeoutSeconds : option Z }.

Definition no_runtime : AgentRuntime := mkAgentRuntime None None None None None [] None.

Record PluginEndpoint := mkPluginEndpoint {
  plugin_Address : string;
  plugin_TLSSecretRef : option string }.

Record AgentPlugins := mkAgentPlugins {
  plugins_LLM : option PluginEndpoint;
  plugins_Queue : option PluginEndpoint }.

(** ** api/v1alpha1/swarmteam_types.go: the roles, storage and scaling of a team *)
Record SwarmTeamRole := mkSwarmTeamRole {
  role_Name : string;
  role_SwarmAgent : string;
  role_SwarmTeam : string;
  role_Model : string;
  role_Prompt : option AgentPrompt;
  role_CanDelegate : list string;
  role_Tools : option AgentTools;
  role_Runtime : option AgentRuntime;
  role_Limits : option GuardrailLimits;
  role_Settings : list string;
  role_EnvFrom : list string;
  role_Plugins : option AgentPlugins }.

(** A role that only has a name. *)
Definition plain_role (name : string) : SwarmTeamRole :=
  mkSwarmTeamRole name "" "" "" None [] None None None [] [] None.

Inductive ArtifactStoreType := ArtifactStoreLocal | ArtifactStoreS3 | ArtifactStoreOther.

Record ArtifactStoreLocalSpec := mkArtifactStoreLocalSpec { local_Path : string; ClaimName : string }.

Record ArtifactStoreS3Spec := mkArtifactStoreS3Spec {
  Bucket : string;
  Region : string;
  Prefix : string;
  Endpoint : string;
  CredentialsSecret : option string }.

Record ArtifactStoreSpec := mkArtifactStoreSpec {
  store_Type : ArtifactStoreType;
  store_Local : option ArtifactStoreLocalSpec;
  store_S3 : option ArtifactStoreS3Spec }.

Record SwarmTeamScaleToZero := mkSwarmTeamScaleToZero {
  scaleToZero_Enabled : bool;
  AfterSeconds : option Z }.

Record SwarmTeamAutoscaling := mkSwarmTeamAutoscaling {
  autoscaling_Enabled : bool;
  ScaleToZero : option SwarmTeamScaleToZero }.

Record SwarmRunSpec := mkSwarmRunSpec {
  TeamRef : string;
  Agent : string;
  Prompt : string;
  TeamGeneration : Z;
  Input : gmap string string;
  Entry : string;
  Pipeline : list SwarmTeamPipelineStep;
  DefaultContextPolicy : option StepContextPolicy;
  Roles : list SwarmTeamRole;
  spec_Output : string;
  Routing : option SwarmTeamRoutingSpec;
  Search : option SwarmTeamSearchSpec;
  TimeoutSeconds : Z;
  MaxTokens : Z }.

(** The parent team: its spec as the runs copy it, and its input parameters. *)
Record SwarmTeamInputSpec := mkSwarmTeamInputSpec {
  input_Name : string;
  input_Type : string;
  input_Description : string;
  Required : bool;
  Default : string }.

Record SwarmTeamSpec := mkSwarmTeamSpec {
  team_Entry : string;
  team_Output : string;
  team_Inputs : list SwarmTeamInputSpec;
  team_DefaultContextPolicy : option StepContextPolicy;
  team_Roles : list SwarmTeamRole;
  team_Pipeline : list SwarmTeamPipelineStep;
  team_Routing : option SwarmTeamRoutingSpec;
  team_Search : option SwarmTeamSearchSpec;
  team_TimeoutSeconds : Z;
  team_MaxTokens : Z;
  team_NotifyRef : option string;
  team_Input : gmap string string;
  team_BudgetRef : option string;
  team_RegistryRef : string;
  team_ArtifactStore : option ArtifactStoreSpec;
  team_Autoscaling : option SwarmTeamAutoscaling;
  SuccessfulRunsHistoryLimit : option Z;
  FailedRunsHistoryLimit : option Z;
  RunRetainFor : option Z }.

(** [metav1.Condition] and its status. *)
Inductive ConditionStatus := ConditionTrue | ConditionFalse | ConditionUnknown.

Record StatusCondition := mkCondition {
  cond_Type : string;
  cond_Status : ConditionStatus;
  cond_ObservedGeneration : Z;
  cond_Reason : string;
  cond_Message : string }.

Record SwarmTeamRoleStatus := mkSwarmTeamRoleStatus {
  rolestatus_Name : string;
  rolestatus_ReadyReplicas : Z;
  rolestatus_DesiredReplicas : Z;
  ManagedSwarmAgent : string }.

Record SwarmTeamStatus := mkSwarmTeamStatus {
  team_Phase : SwarmTeamPhase;
  team_RoleStatuses : list SwarmTeamRoleStatus;
  EntryRole : string;
  LastRunName : string;
  LastRunPhase : SwarmRunPhase;
  ScaledToZero : bool;
  LastActiveTime : option Z;
  team_ObservedGeneration : Z;
  team_Conditions : list StatusCondition }.

#[export] Instance eta_SwarmTeamStatus : Settable SwarmTeamStatus := λ s,
  mkSwarmTeamStatus (team_Phase s) (team_RoleStatuses s) (EntryRole s) (LastRunName s)
    (LastRunPhase s) (ScaledToZero s) (LastActiveTime s) (team_ObservedGeneration s)
    (team_Conditions s).

Definition new_team_status : SwarmTeamStatus :=
  mkSwarmTeamStatus TeamUnset [] "" "" RunUnset false None 0 [].

Record SwarmTeam := mkSwarmTeam {
  team_Name : string;
  team_Namespace : string;
  team_UID : string;
  team_Deleting : bool;
  team_Generation : Z;
  team_Spec : SwarmTeamSpec;
  team_Status : SwarmTeamStatus }.

#[export] Instance eta_SwarmTeam : Settable SwarmTeam := λ t,
  mkSwarmTeam (team_Name t) (team_Namespace t) (team_UID t) (team_Deleting t) (team_Generation t)
    (team_Spec t) (team_Status t).

(** A new team with these roles and steps, and nothing else. *)
Definition plain_team (roles : list SwarmTeamRole) (steps : list SwarmTeamPipelineStep) : SwarmTeam :=
  mkSwarmTeam "team" "ns" "uid" false 1
    (mkSwarmTeamSpec "" "" [] None roles steps None None 0 0 None ∅ None "" None None None None None)
    new_team_status.

(** ** api/v1alpha1/swarmbudget_types.go

    The selector's label match is left out: no code reads it. *)
Record SwarmBudgetSelector := mkSwarmBudgetSelector {
  selector_Namespace : string;
  selector_Team : string }.

Record SwarmBudgetSpec := mkSwarmBudgetSpec {
  budget_Selector : SwarmBudgetSelector;
  budget_Period : string;
  budget_Limit : string;
  budget_Currency : string;
  budget_WarnAt : Z;
  budget_HardStop : bool;
  budget_NotifyRef : option string }.

(** The API and the costs package spell the statuses alike; the code converts between them. *)
Inductive BudgetStatus := BudgetUnset | BudgetOK | BudgetWarning | BudgetExceeded.

Record SwarmBudgetStatus := mkSwarmBudgetStatus {
  budget_Phase : BudgetStatus;
  budget_SpentUSD : string;
  budget_PctUsed : string;
  PeriodStart : option Z;
  budget_LastUpdated : option Z;
  budget_ObservedGeneration : Z;
  budget_Conditions : list StatusCondition }.

Record SwarmBudget := mkSwarmBudget {
  budget_Name : string;
  budget_Namespace : string;
  budget_Generation : Z;
  budget_Spec : SwarmBudgetSpec;
  budget_Status : SwarmBudgetStatus }.

#[export] Instance eta_SwarmBudget : Settable SwarmBudget := λ b,
  mkSwarmBudget (budget_Name b) (budget_Namespace b) (budget_Generation b) (budget_Spec b)
    (budget_Status b).

Record SwarmRunStatus := mkSwarmRunStatus {
  Phase : SwarmRunPhase;
  Steps : list PipelineStepStatus;
  status_Output : string;
  StartTime : option Z;
  CompletionTime : option Z;
  TotalTokenUsage : option TokenUsage;
  TotalCostUSD : string;
  SearchTree : option SearchTreeStatus;
  ObservedGeneration : Z;
  Conditions : list StatusCondition }.

#[export] Instance eta_SwarmRunStatus : Settable SwarmRunStatus := λ s,
  mkSwarmRunStatus (Phase s) (Steps s) (status_Output s) (StartTime s) (CompletionTime s)
    (TotalTokenUsage s) (TotalCostUSD s) (SearchTree s) (ObservedGeneration s)
    (Conditions s).

Record SwarmRun := mkSwarmRun {
  run_Name : string;
  run_Namespace : string;
  Generation : Z;
  Spec : SwarmRunSpec;
  Status : SwarmRunStatus }.

#[export] Instance eta_SwarmRunSpec : Settable SwarmRunSpec := λ s,
  mkSwarmRunSpec (TeamRef s) (Agent s) (Prompt s) (TeamGeneration s) (Input s) (Entry s)
    (Pipeline s) (DefaultContextPolicy s) (Roles s) (spec_Output s) (Routing s) (Search s)
    (TimeoutSeconds s) (MaxTokens s).

#[export] Instance eta_SwarmRun : Settable SwarmRun := λ r,
  mkSwarmRun (run_Name r) (run_Namespace r) (Generation r) (Spec r) (Status r).

(** ** Decidable equality *)
#[export] Instance BudgetStatus_eq_dec : EqDecision BudgetStatus.
Proof. solve_decision. Defined.
#[export] Instance TokenUsage_eq_dec : EqDecision TokenUsage.
Proof. solve_decision. Defined.
#[export] Instance PipelineStepPhase_eq_dec : EqDecision PipelineStepPhase.
Proof. solve_decision. Defined.
#[export] Instance PipelineStepStatus_eq_dec : EqDecision PipelineStepStatus.
Proof. solve_decision. Defined.
#[export] Instance SearchNodePhase_eq_dec : EqDecision SearchNodePhase.
Proof. solve_decision. Defined.
#[export] Instance SearchTerminationReason_eq_dec : EqDecision SearchTerminationReason.
Proof. solve_decision. Defined.
#[export] Instance SearchStrategy_eq_dec : EqDecision SearchStrategy.
Proof. solve_decision. Defined.
#[export] Instance SwarmRunPhase_eq_dec : EqDecision SwarmRunPhase.
Proof. solve_decision. Defined.
#[export] Instance OnFailureAction_eq_dec : EqDecision OnFailureAction.
Proof. solve_decision. Defined.
#[export] Instance ConditionStatus_eq_dec : EqDecision ConditionStatus.
Proof. solve_decision. Defined.
#[export] Instance RegistryLookupStrategy_eq_dec : EqDecision RegistryLookupStrategy.
Proof. solve_decision. Defined.
#[export] Instance StatusCondition_eq_dec : EqDecision StatusCondition.
Proof. solve_decision. Defined.
#[export] Instance SearchNodeStatus_eq_dec : EqDecision SearchNodeStatus.
Proof. solve_decision. Defined.
