(* ===== verification/Costs.v ===== *)
(** * Costs: prices, spend history and budgets (pkg/costs, pkg/costs/memstore).

    The static price table and its longest-prefix lookup; the in-memory spend store, a
    slice sorted by time and searched by bisection; the budget policy and its guard
    against an unavailable store; the state machine that reconnects to a store.  Costs
    are float64 values, summed in the order of the entries; times are nanoseconds. *)
From Stdlib Require Import ZArith Lia Ascii SpecFloat.
From stdpp Require Import base tactics option list strings gmap sorting.
From S2P Require Import Prelude GoStd Types.

(** ** Prices (static.go) *)
Record pricingEntry := mkPricing { prefix : string; inputPerM : f64; outputPerM : f64 }.

Definition price (p : string) (inputMillis outputMillis : Z) : pricingEntry :=
  mkPricing p (f64_lit inputMillis 1000) (f64_lit outputMillis 1000).

Definition staticPricingTable : list pricingEntry := [
  price "claude-opus-4" 15000 75000; price "claude-sonnet-4" 3000 15000;
  price "claude-haiku-4" 800 4000; price "claude-3-opus" 15000 75000;
  price "claude-3-5-sonnet" 3000 15000; price "claude-3-sonnet" 3000 15000;
  price "claude-3-haiku" 250 1250; price "gpt-4o-mini" 150 600; price "gpt-4o" 2500 10000;
  price "o3-mini" 1100 4400; price "o3" 10000 40000; price "o1-mini" 1100 4400;
  price "o1" 15000 60000; price "gpt-4-turbo" 10000 30000; price "gpt-4" 30000 60000;
  price "gpt-3.5-turbo" 500 1500; price "gemini-2.5-pro" 1250 10000;
  price "gemini-2.5-flash" 150 600; price "gemini-2.0-flash" 100 400;
  price "gemini-1.5-pro" 3500 10500; price "gemini-1.5-flash" 75 300;
  price "qwen" 0 0; price "llama" 0 0; price "mistral" 0 0; price "phi" 0 0;
  price "deepseek" 0 0].

(** One iteration: [best] and [bestLen], which starts at -1. *)
Definition better_prefix {T} (key : T → string) (lower : string) (acc : option T * Z) (e : T)
    : option T * Z :=
  if HasPrefix lower (key e) && (str_len (key e) >? acc.2)
  then (Some e, str_len (key e)) else acc.

Definition longestPrefixMatch {T} (model : string) (entries : list T) (key : T → string)
    : option T :=
  (foldl (better_prefix key (ToLower model)) (None, -1) entries).1.

Definition lookupPricing (model : string) : pricingEntry :=
  default (mkPricing "" f64_zero f64_zero) (longestPrefixMatch model staticPricingTable prefix).

Definition per_million (tokens : Z) (perM : f64) : f64 :=
  f64_mul (f64_div (f64_of_Z tokens) (f64_of_Z 1000000)) perM.

Definition Cost (model : string) (inputTokens outputTokens thinkingTokens : Z) : f64 :=
  let e := lookupPricing model in
  f64_add (per_million inputTokens (inputPerM e))
          (per_million (wrap64 (outputTokens + thinkingTokens)) (outputPerM e)).

(** ** Spend history (spend.go, memstore/spend.go) *)
Record SpendEntry := mkSpendEntry {
  Timestamp : Z;
  entry_Namespace : string;
  entry_Team : string;
  RunName : string;
  StepName : string;
  entry_Model : string;
  entry_InputTokens : Z;
  entry_OutputTokens : Z;
  CostUSD : f64 }.

Record SpendScope := mkSpendScope {
  scope_Namespace : string;
  scope_Team : string;
  scope_Model : string }.

Inductive Period := PeriodDay | PeriodWeek | PeriodMonth.

(** [costs.Period] of a string: only these three name a period; the switches of the
    package send every other text to their default, the day. *)
Definition period_of (s : string) : Period :=
  if String.eqb s "week" then PeriodWeek
  else if String.eqb s "month" then PeriodMonth
  else PeriodDay.

Definition TruncateToPeriod (t : Z) (p : Period) : Z :=
  match p with
  | PeriodWeek =>
      let t := truncate_day t in
      let wd := weekday t in
      let wd := if wd =? 0 then 7 else wd in
      t - (wd - 1) * nanosecond_day
  | PeriodMonth => month_start t
  | PeriodDay => truncate_day t
  end.

Definition PeriodWindowStart (now : Z) (p : Period) : Z :=
  match p with
  | PeriodWeek => TruncateToPeriod now PeriodWeek
  | PeriodMonth => TruncateToPeriod now PeriodMonth
  | PeriodDay => TruncateToPeriod now PeriodDay
  end.

Record MemSpendStore := mkMemSpendStore { entries : list SpendEntry; writes : Z }.

Definition maxRetentionAge : Z := 31 * 24 * 3600 * 1000000000.
Definition evictEveryN : Z := 500.

(** The first index whose entry is not before [since]. *)
Definition search_since (es : list SpendEntry) (since : Z) : Z :=
  sort_Search (Z.of_nat (length es))
    (λ i, match es !! Z.to_nat i with Some e => negb (Timestamp e <? since) | None => true end).

Definition evictLocked (now : Z) (m : MemSpendStore) : MemSpendStore :=
  let idx := search_since (entries m) (now - maxRetentionAge) in
  if idx >? 0 then mkMemSpendStore (drop (Z.to_nat idx) (entries m)) (writes m) else m.

Definition Record_ (now : Z) (m : MemSpendStore) (entry : SpendEntry) : MemSpendStore :=
  let m := mkMemSpendStore (entries m ++ [entry]) (wrap64 (writes m + 1)) in
  if Z.rem (writes m) evictEveryN =? 0 then evictLocked now m else m.

Record RollupEntry := mkRollupEntry {
  Date : Z;
  roll_Namespace : string;
  roll_Team : string;
  roll_Model : string;
  TotalCostUSD_ : f64;
  roll_InputTokens : Z;
  roll_OutputTokens : Z;
  RunCount : Z }.

Definition roll_key : Type := Z * string * string * string.

Section store.
Context {foldApi : FoldApi} {sortRollup : SliceSort RollupEntry}.

Definition matchesScope (e : SpendEntry) (scope : SpendScope) : bool :=
  negb (negb (String.eqb (scope_Namespace scope) "") &&
        negb (String.eqb (entry_Namespace e) (scope_Namespace scope))) &&
  negb (negb (String.eqb (scope_Team scope) "") &&
        negb (String.eqb (entry_Team e) (scope_Team scope))) &&
  negb (negb (String.eqb (scope_Model scope) "") &&
        negb (strings_EqualFold (entry_Model e) (scope_Model scope))).

(** [iterSince]: the entries [fn] is called on. *)
Definition iterSince (m : MemSpendStore) (since : Z) : list SpendEntry :=
  drop (Z.to_nat (search_since (entries m) since)) (entries m).

Definition Total (m : MemSpendStore) (scope : SpendScope) (since : Z) : f64 :=
  foldl (λ total e, if matchesScope e scope then f64_add total (CostUSD e) else total)
    f64_zero (iterSince m since).

Definition key_of (period : Period) (e : SpendEntry) : roll_key :=
  (TruncateToPeriod (Timestamp e) period, entry_Namespace e, entry_Team e, entry_Model e).

Definition empty_bucket (k : roll_key) : RollupEntry :=
  let '(date, ns, team, model) := k in mkRollupEntry date ns team model f64_zero 0 0 0.

Definition roll_add (e : SpendEntry) (b : RollupEntry) : RollupEntry :=
  mkRollupEntry (Date b) (roll_Namespace b) (roll_Team b) (roll_Model b)
    (f64_add (TotalCostUSD_ b) (CostUSD e))
    (wrap64 (roll_InputTokens b + entry_InputTokens e))
    (wrap64 (roll_OutputTokens b + entry_OutputTokens e))
    (wrap64 (RunCount b + 1)).

Definition roll_step (scope : SpendScope) (period : Period)
    (buckets : gmap roll_key RollupEntry) (e : SpendEntry) : gmap roll_key RollupEntry :=
  if matchesScope e scope then
    let k := key_of period e in
    <[k := roll_add e (default (empty_bucket k) (buckets !! k))]> buckets
  else buckets.

Definition rollup_buckets (m : MemSpendStore) (scope : SpendScope) (period : Period) (since : Z)
    : gmap roll_key RollupEntry :=
  foldl (roll_step scope period) ∅ (iterSince m since).

Definition roll_key_of (b : RollupEntry) : roll_key :=
  (Date b, roll_Namespace b, roll_Team b, roll_Model b).

Definition roll_less (a b : RollupEntry) : bool :=
  if negb (Date a =? Date b) then Date a <? Date b
  else if negb (String.eqb (roll_Namespace a) (roll_Namespace b)) then str_ltb (roll_Namespace a) (roll_Namespace b)
  else if negb (String.eqb (roll_Team a) (roll_Team b)) then str_ltb (roll_Team a) (roll_Team b)
  else str_ltb (roll_Model a) (roll_Model b).

(** [order]: the order in which the buckets are ranged over. *)
Definition Rollup (m : MemSpendStore) (scope : SpendScope) (period : Period) (since : Z)
    (order : list roll_key) : list RollupEntry :=
  let buckets := rollup_buckets m scope period since in
  sort_slice roll_less (omap (λ k, buckets !! k) order).
End store.

(** ** Budgets (budget.go, hardstop.go) *)
Record BudgetDecision := mkBudgetDecision {
  decision_Status : BudgetStatus;
  SpentUSD : f64;
  LimitUSD : f64;
  PctUsed : f64;
  decision_Message : string }.

Record BudgetInput := mkBudgetInput {
  input_Namespace : string;
  input_Team : string;
  input_Period : Period;
  Limit : f64;
  WarnAt : Z;
  HardStop : bool }.

(** The part of a SpendStore the policies call. *)
Definition store_total : Type := SpendScope → Z → result string f64.

Section budget.
Context {floatText : FloatText}.

Definition money_message (verdict : string) (spent limit pct : f64) : string :=
  "budget " +:+ verdict +:+ ": spent $" +:+ FormatFixed 4 spent +:+ " of $" +:+
  FormatFixed 2 limit +:+ " limit (" +:+ FormatFixed 1 pct +:+ "%)".

Definition StandardBudgetPolicy_Evaluate (now : Z) (input : BudgetInput) (total : store_total)
    : result string BudgetDecision :=
  match total (mkSpendScope (input_Namespace input) (input_Team input) "")
              (PeriodWindowStart now (input_Period input)) with
  | Err e => Err ("budget policy: querying spend total: " +:+ e)
  | Ok spent =>
      let limit := Limit input in
      let pct := if f64_ltb f64_zero limit then f64_mul (f64_div spent limit) (f64_of_Z 100)
                 else f64_zero in
      let decide_ status verdict :=
        Ok (mkBudgetDecision status spent limit pct (money_message verdict spent limit pct)) in
      if f64_ltb f64_zero limit && f64_leb limit spent then decide_ BudgetExceeded "exceeded"
      else if (WarnAt input >? 0) && f64_leb (f64_of_Z (WarnAt input)) pct
      then decide_ BudgetWarning "warning"
      else decide_ BudgetOK "OK"
  end.

(** [inner] is the guarded policy, [healthy] the answer of the health check. *)
Definition HardStopPolicy_Evaluate (healthy : bool)
    (inner : BudgetInput → store_total → result string BudgetDecision)
    (input : BudgetInput) (total : store_total) : result string BudgetDecision :=
  if healthy then inner input total
  else if HardStop input then
    Ok (mkBudgetDecision BudgetExceeded f64_zero f64_zero f64_zero
          "spend store unavailable, hard stop enforced")
  else
    Ok (mkBudgetDecision BudgetOK f64_zero f64_zero f64_zero
          "spend store unavailable, fail-open: budget enforcement paused").
End budget.

(** ** Reconnection (resilient.go) *)
Record resilientConfig := mkResilientConfig { retryInterval : Z; maxRetryInterval : Z }.

Inductive resilient_state :=
| Connected
| Retrying (interval : Z)
| Closed.

Definition NewResilientSpendStore (cfg : resilientConfig) (factory_ok : bool) : resilient_state :=
  if factory_ok then Connected else Retrying (retryInterval cfg).

Definition IsHealthy (s : resilient_state) : bool :=
  match s with Connected => true | _ => false end.

(** One iteration of [retryLoop]: the stop channel, or an attempt after [interval]. *)
Definition retry_step (cfg : resilientConfig) (stop factory_ok : bool) (s : resilient_state)
    : resilient_state :=
  match s with
  | Retrying interval =>
      if stop then Closed
      else if factory_ok then Connected
      else
        let interval := wrap64 (interval * 2) in
        Retrying (if interval >? maxRetryInterval cfg then maxRetryInterval cfg else interval)
  | s => s
  end.

(** ** Properties: prices *)
Section prefix.
Context {T : Type} (key : T → string) (model : string).

Definition matches_prefix (e : T) : Prop := HasPrefix (ToLower model) (key e) = true.

Lemma better_prefix_fold entries acc :
  (∀ e, acc.1 = Some e → matches_prefix e ∧ acc.2 = str_len (key e)) →
  (acc.1 = None → acc.2 = -1) →
  let acc' := foldl (better_prefix key (ToLower model)) acc entries in
  (∀ e, acc'.1 = Some e → matches_prefix e ∧ acc'.2 = str_len (key e) ∧
     (acc.1 = Some e ∨ e ∈ entries)) ∧
  (acc'.1 = None → acc'.2 = -1) ∧ acc.2 ≤ acc'.2 ∧
  ∀ e, e ∈ entries → matches_prefix e → str_len (key e) ≤ acc'.2.
Proof.
  revert acc. induction entries as [|x l IH]; intros acc Hs Hn; simpl.
  { split_and!; [naive_solver|done|lia|]. intros e He. by apply not_elem_of_nil in He. }
  destruct (HasPrefix (ToLower model) (key x)) eqn:Ex.
  - assert (better_prefix key (ToLower model) acc x =
      if str_len (key x) >? acc.2 then (Some x, str_len (key x)) else acc) as ->
      by (unfold better_prefix; by rewrite Ex).
    destruct (Z.gtb_spec (str_len (key x)) acc.2).
    + destruct (IH (Some x, str_len (key x))) as (H1 & H2 & H3 & H4);
        [naive_solver|done|]. simpl in *.
      split_and!; [|done|lia|].
      * intros e He. destruct (H1 e He) as (? & ? & [[= ->]|?]); split_and!; try done; right; [by left|by right].
      * intros e [->|He]%elem_of_cons Hm; [lia|auto].
    + destruct (IH acc Hs Hn) as (H1 & H2 & H3 & H4). split_and!; [|done|lia|].
      * intros e He. destruct (H1 e He) as (? & ? & [?|?]); split_and!; auto. right. by right.
      * intros e [->|He]%elem_of_cons Hm; [lia|auto].
  - assert (better_prefix key (ToLower model) acc x = acc) as ->
      by (unfold better_prefix; by rewrite Ex).
    destruct (IH acc Hs Hn) as (H1 & H2 & H3 & H4). split_and!; [|done|lia|].
    + intros e He. destruct (H1 e He) as (? & ? & [?|?]); split_and!; auto. right. by right.
    + intros e [->|He]%elem_of_cons Hm; [|auto]. unfold matches_prefix in Hm. congruence.
Qed.

Lemma longestPrefixMatch_best entries :
  match longestPrefixMatch model entries key with
  | Some e => e ∈ entries ∧ matches_prefix e ∧
      ∀ e', e' ∈ entries → matches_prefix e' → str_len (key e') ≤ str_len (key e)
  | None => ∀ e, e ∈ entries → ¬ matches_prefix e
  end.
Proof.
  unfold longestPrefixMatch.
  destruct (better_prefix_fold entries (None, -1)) as (H1 & H2 & _ & H4); [done|done|].
  destruct (foldl _ _ _) as [[e|] n]; simpl in *.
  - destruct (H1 e eq_refl) as (Hm & -> & [?|He]); [done|]. auto.
  - intros e He Hm. specialize (H4 e He Hm). rewrite H2 in H4 by done. unfold str_len in H4. lia.
Qed.
End prefix.

Lemma prefix_length_eq s p q :
  HasPrefix s p = true → HasPrefix s q = true → str_len p = str_len q → p = q.
Proof.
  intros [t ->]%HasPrefix_spec [u E]%HasPrefix_spec Hl. unfold str_len in Hl.
  revert q E Hl. induction p as [|c p IH]; intros [|d q]; simpl; intros E Hl; try lia; [done|].
  injection E as -> E. f_equal. apply IH; [done|lia].
Qed.

(** the price of a model is the one of the longest prefix of its lower-cased name in
    the table, whatever the order of the table as long as no prefix is listed twice; a
    model without a prefix is free. *)
Theorem longestPrefixMatch_correct {T} (key : T → string) model entries entries' :
  (match longestPrefixMatch model entries key with
   | Some e => e ∈ entries ∧ matches_prefix key model e ∧
       ∀ e', e' ∈ entries → matches_prefix key model e' → str_len (key e') ≤ str_len (key e)
   | None => ∀ e, e ∈ entries → ¬ matches_prefix key model e
   end) ∧
  (NoDup (key <$> entries) → entries ≡ₚ entries' →
   longestPrefixMatch model entries key = longestPrefixMatch model entries' key).
Proof.
  split; [apply longestPrefixMatch_best|]. intros Hnd Hp.
  pose proof (longestPrefixMatch_best key model entries) as H1.
  pose proof (longestPrefixMatch_best key model entries') as H2.
  assert (∀ x, x ∈ entries' ↔ x ∈ entries) as Hel by (intros x; by rewrite Hp).
  destruct (longestPrefixMatch model entries key) as [e|],
    (longestPrefixMatch model entries' key) as [e'|]; [| | |done].
  2: { destruct H1 as (He & Hm & _). by destruct (H2 e (proj2 (Hel e) He)). }
  2: { destruct H2 as (He & Hm & _). by destruct (H1 e' (proj1 (Hel e') He)). }
  destruct H1 as (He & Hm & Hb), H2 as (He' & Hm' & Hb'). apply Hel in He'. f_equal.
  apply (NoDup_key_inj key entries); [done..|].
  apply (prefix_length_eq (ToLower model)); [done..|].
  apply Z.le_antisymm; [apply Hb'|apply Hb]; [by apply Hel|done..].
Qed.

(** ** Properties: periods *)
Lemma truncate_day_bounds t : truncate_day t ≤ t < truncate_day t + nanosecond_day.
Proof.
  unfold truncate_day, day_number, nanosecond_day.
  pose proof (Z.mod_pos_bound t (86400 * 1000000000) ltac:(lia)).
  pose proof (Z.div_mod t (86400 * 1000000000) ltac:(lia)). lia.
Qed.

Lemma day_number_mul d : day_number (d * nanosecond_day) = d.
Proof. apply Z.div_mul. done. Qed.

Lemma truncate_day_mul d : truncate_day (d * nanosecond_day) = d * nanosecond_day.
Proof. unfold truncate_day. by rewrite day_number_mul. Qed.

(** The number of days between the start of a window and the day it contains. *)
Definition window_days (t : Z) (p : Period) : Z :=
  match p with
  | PeriodDay => 0
  | PeriodWeek => (if weekday t =? 0 then 7 else weekday t) - 1
  | PeriodMonth => day_of_month (day_number t) - 1
  end.

Lemma TruncateToPeriod_days t p :
  TruncateToPeriod t p = (day_number t - window_days t p) * nanosecond_day ∧
  0 ≤ window_days t p < 31.
Proof.
  destruct p; simpl.
  - unfold truncate_day. lia.
  - assert (weekday (truncate_day t) = weekday t) as ->
      by (unfold weekday, truncate_day; by rewrite day_number_mul).
    unfold truncate_day. assert (0 ≤ weekday t < 7) by (apply Z.mod_pos_bound; lia).
    destruct (Z.eqb_spec (weekday t) 0); lia.
  - unfold month_start. pose proof (day_of_month_range (day_number t)). lia.
Qed.

Lemma TruncateToPeriod_bounds t p :
  TruncateToPeriod t p ≤ t < TruncateToPeriod t p + 31 * nanosecond_day.
Proof.
  destruct (TruncateToPeriod_days t p) as [-> Hw].
  pose proof (truncate_day_bounds t) as Hb. unfold truncate_day in Hb. nia.
Qed.

(** a window starts at a midnight at most 30 days before the day it contains, on a
    Monday for a week and on the first for a month, and truncating its start again
    changes nothing. *)
Theorem TruncateToPeriod_spec t p :
  let start := TruncateToPeriod t p in
  start ≤ t < start + 31 * nanosecond_day ∧
  truncate_day start = start ∧
  TruncateToPeriod start p = start ∧
  match p with
  | PeriodDay => True
  | PeriodWeek => weekday start = 1
  | PeriodMonth => day_of_month (day_number start) = 1
  end.
Proof.
  intros start. subst start. split; [apply TruncateToPeriod_bounds|].
  destruct (TruncateToPeriod_days t p) as [-> Hw].
  assert (window_days ((day_number t - window_days t p) * nanosecond_day) p = 0 ∧
    match p with
    | PeriodDay => True
    | PeriodWeek => weekday ((day_number t - window_days t p) * nanosecond_day) = 1
    | PeriodMonth => day_of_month (day_number ((day_number t - window_days t p) * nanosecond_day)) = 1
    end) as [E Hp].
  { destruct p; simpl in *; unfold weekday in *; rewrite ?day_number_mul; [done| |].
    - assert (((day_number t - ((if (day_number t + 4) mod 7 =? 0 then 7 else
        (day_number t + 4) mod 7) - 1) + 4) mod 7) = 1) as ->; [|done].
      destruct (Z.eqb_spec ((day_number t + 4) mod 7) 0); Z.to_euclidean_division_equations; lia.
    - rewrite day_of_month_first. done. }
  split_and!; [by rewrite truncate_day_mul| |exact Hp].
  destruct (TruncateToPeriod_days ((day_number t - window_days t p) * nanosecond_day) p) as [-> _].
  rewrite E, day_number_mul. lia.
Qed.

(** ** Properties: the store against the log of everything recorded *)
Definition earlier (a b : SpendEntry) : Prop := Timestamp a ≤ Timestamp b.

#[export] Instance earlier_trans : Transitive earlier.
Proof. intros a b c. unfold earlier. lia. Qed.

(** The entries of a log in a window. *)
Definition since_filter (since : Z) (log : list SpendEntry) : list SpendEntry :=
  List.filter (λ e, since <=? Timestamp e) log.

Lemma since_filter_none since l :
  Forall (λ e, Timestamp e < since) l → since_filter since l = [].
Proof.
  induction 1 as [|e l He _ IH]; [done|]. simpl. by rewrite (proj2 (Z.leb_gt _ _) He).
Qed.

Lemma since_filter_all since l :
  Forall (λ e, since ≤ Timestamp e) l → since_filter since l = l.
Proof.
  induction 1 as [|e l He _ IH]; [done|]. simpl. by rewrite (proj2 (Z.leb_le _ _) He), IH.
Qed.

Lemma since_filter_app since l1 l2 :
  since_filter since (l1 ++ l2) = since_filter since l1 ++ since_filter since l2.
Proof. apply List.filter_app. Qed.

(** In a sorted slice the window is a suffix, and the bisection finds where it starts. *)
Lemma sorted_split since l :
  StronglySorted earlier l →
  ∃ old new, l = old ++ new ∧ Forall (λ e, Timestamp e < since) old ∧
             Forall (λ e, since ≤ Timestamp e) new.
Proof.
  induction 1 as [|e l _ IH Hall]; [by exists [], []|].
  destruct (Z.le_gt_cases since (Timestamp e)) as [Hle|Hgt].
  - exists [], (e :: l). split_and!; [done|constructor|]. constructor; [done|].
    eapply Forall_impl; [exact Hall|]. unfold earlier. intros x Hx. simpl in *. lia.
  - destruct IH as (old & new & -> & Ho & Hn). exists (e :: old), new.
    split_and!; [done| |done]. by constructor.
Qed.

Lemma search_since_split since old new :
  Forall (λ e, Timestamp e < since) old → Forall (λ e, since ≤ Timestamp e) new →
  search_since (old ++ new) since = Z.of_nat (length old).
Proof.
  intros Ho Hn. apply sort_Search_spec. rewrite length_app. unfold step_at.
  split_and!; [lia|lia| |].
  - intros i Hi. rewrite lookup_app_l by lia.
    destruct (lookup_lt_is_Some_2 old (Z.to_nat i)) as [e He]; [lia|]. rewrite He.
    rewrite Forall_lookup in Ho. specialize (Ho _ _ He). simpl in Ho.
    by rewrite (proj2 (Z.ltb_lt _ _) Ho).
  - intros i Hi. rewrite lookup_app_r by lia.
    destruct (new !! _) as [e|] eqn:He; [|done].
    rewrite Forall_lookup in Hn. specialize (Hn _ _ He). simpl in Hn.
    by rewrite (proj2 (Z.ltb_ge _ _) Hn).
Qed.

Lemma drop_search since l :
  StronglySorted earlier l → drop (Z.to_nat (search_since l since)) l = since_filter since l.
Proof.
  intros Hs. destruct (sorted_split since l Hs) as (old & new & -> & Ho & Hn).
  rewrite (search_since_split _ _ _ Ho Hn), Nat2Z.id, drop_app_length, since_filter_app.
  by rewrite since_filter_none, since_filter_all.
Qed.

Lemma since_filter_filter s1 s2 l :
  s1 ≤ s2 → since_filter s2 (since_filter s1 l) = since_filter s2 l.
Proof.
  intros Hs. induction l as [|e l IH]; [done|]. simpl.
  destruct (Z.leb_spec s1 (Timestamp e)); simpl; rewrite IH; [done|].
  destruct (Z.leb_spec s2 (Timestamp e)); [lia|done].
Qed.

Lemma filter_sorted (p : SpendEntry → bool) l :
  StronglySorted earlier l → StronglySorted earlier (List.filter p l).
Proof.
  induction 1 as [|e l _ IH Hall]; simpl; [constructor|].
  destruct (p e); [|done]. constructor; [done|]. rewrite Forall_forall in Hall |- *.
  intros x Hx. apply Hall. rewrite list_elem_of_In, List.filter_In in Hx. apply list_elem_of_In. tauto.
Qed.

(** Eviction drops entries no window within the retention age can see. *)
Lemma evictLocked_spec now m :
  StronglySorted earlier (entries m) →
  entries (evictLocked now m) = since_filter (now - maxRetentionAge) (entries m).
Proof.
  intros Hs. rewrite <- (drop_search _ _ Hs). unfold evictLocked.
  destruct (Z.gtb_spec (search_since (entries m) (now - maxRetentionAge)) 0); [done|].
  replace (Z.to_nat _) with 0%nat by lia. done.
Qed.

(** The store after a sequence of calls of [Record], each at its own instant. *)
Definition replay (m : MemSpendStore) (calls : list (Z * SpendEntry)) : MemSpendStore :=
  foldl (λ m c, Record_ c.1 m c.2) m calls.

Lemma replay_spec now calls m since :
  Forall (λ c, c.1 ≤ now) calls → now - maxRetentionAge ≤ since →
  StronglySorted earlier (entries m ++ calls.*2) →
  StronglySorted earlier (entries (replay m calls)) ∧
  since_filter since (entries (replay m calls)) = since_filter since (entries m ++ calls.*2).
Proof.
  intros Hnow Hs. revert m. induction calls as [|[t e] calls IH]; intros m Hsort.
  { simpl in *. by rewrite app_nil_r in *. }
  apply Forall_cons in Hnow as [Ht Hnow]. simpl in Ht. specialize (IH Hnow).
  change (replay m ((t, e) :: calls)) with (replay (Record_ t m e) calls).
  change (((t, e) :: calls).*2) with (e :: calls.*2) in *.
  assert (entries m ++ e :: calls.*2 = (entries m ++ [e]) ++ calls.*2) as E by (by rewrite <- app_assoc).
  assert (StronglySorted earlier (entries m ++ [e])) as Hm.
  { rewrite E in Hsort. by apply StronglySorted_app_1_l in Hsort. }
  unfold Record_. set (m1 := mkMemSpendStore (entries m ++ [e]) (wrap64 (writes m + 1))).
  destruct (Z.rem (writes m1) evictEveryN =? 0).
  - pose proof (evictLocked_spec t m1 Hm) as Hev. destruct (IH (evictLocked t m1)) as [H1 H2].
    + rewrite Hev. rewrite E in Hsort. unfold m1. simpl. clear IH Hev E Hm m1.
      rewrite StronglySorted_app in Hsort |- *. destruct Hsort as (Hx & Hl & Hr).
      split_and!; [|by apply filter_sorted|done].
      intros x y Hxi Hy. apply Hx; [|done]. unfold since_filter in Hxi.
      rewrite list_elem_of_In, List.filter_In in Hxi. apply list_elem_of_In. tauto.
    + split; [done|]. rewrite H2, Hev, E, since_filter_app, (since_filter_app since (entries m ++ [e])).
      f_equal.
      apply since_filter_filter. lia.
  - destruct (IH m1) as [H1 H2]; [by rewrite E in Hsort|]. split; [done|].
    rewrite H2. unfold m1. simpl. by rewrite E.
Qed.

Section store_props.
Context {foldApi : FoldApi} {floatText : FloatText}.

(** The spend of a scope over a list of entries, in order. *)
Definition log_total (log : list SpendEntry) (scope : SpendScope) : f64 :=
  foldl (λ total e, if matchesScope e scope then f64_add total (CostUSD e) else total)
    f64_zero log.

Definition empty_store : MemSpendStore := mkMemSpendStore [] 0.

(** the store refines the log of everything ever recorded: when the entries were
    recorded in the order of their times, the total of any window that starts within the
    retention age is the total of that window of the whole log, whatever was evicted. *)
Theorem Total_refines_log now calls scope since :
  StronglySorted earlier calls.*2 → Forall (λ c, c.1 ≤ now) calls →
  now - maxRetentionAge ≤ since →
  Total (replay empty_store calls) scope since = log_total (since_filter since calls.*2) scope.
Proof.
  intros Hs Hn Hr. destruct (replay_spec now calls empty_store since Hn Hr Hs) as [H1 H2].
  unfold Total, iterSince. by rewrite (drop_search _ _ H1), H2.
Qed.
End store_props.

(** ** Properties: budgets *)
Section budget_props.
Context {foldApi : FoldApi} {floatText : FloatText}.

(** The store as the policies see it. *)
Definition store_of (m : MemSpendStore) : store_total := λ scope since, Ok (Total m scope since).

Lemma window_retained now p : now - maxRetentionAge ≤ PeriodWindowStart now p.
Proof.
  assert (PeriodWindowStart now p = TruncateToPeriod now p) as -> by (by destruct p).
  pose proof (TruncateToPeriod_bounds now p). unfold maxRetentionAge, nanosecond_day in *. lia.
Qed.

Lemma Evaluate_log now calls input :
  StronglySorted earlier calls.*2 → Forall (λ c, c.1 ≤ now) calls →
  let window := since_filter (PeriodWindowStart now (input_Period input)) calls.*2 in
  let spent := log_total window (mkSpendScope (input_Namespace input) (input_Team input) "") in
  let over := f64_ltb f64_zero (Limit input) && f64_leb (Limit input) spent in
  let near pct := (WarnAt input >? 0) && f64_leb (f64_of_Z (WarnAt input)) pct in
  ∃ d, StandardBudgetPolicy_Evaluate now input (store_of (replay empty_store calls)) = Ok d ∧
    SpentUSD d = spent ∧ LimitUSD d = Limit input ∧
    decision_Status d = (if over then BudgetExceeded
                         else if near (PctUsed d) then BudgetWarning else BudgetOK).
Proof.
  intros Hs Hn window spent over near. unfold StandardBudgetPolicy_Evaluate, store_of.
  destruct (replay_spec now calls empty_store _ Hn (window_retained now (input_Period input)) Hs)
    as [H1 H2].
  unfold Total, iterSince. rewrite (drop_search _ _ H1), H2. simpl.
  fold (log_total (since_filter (PeriodWindowStart now (input_Period input)) calls.*2)
    (mkSpendScope (input_Namespace input) (input_Team input) "")). fold window. fold spent.
  fold over. set (pct := if f64_ltb _ _ then _ else f64_zero). fold (near pct).
  destruct over; [by eexists|].
  destruct (near pct) eqn:E; eexists; (split; [reflexivity|]); simpl; by rewrite E.
Qed.

(** against the in-memory store the standard policy judges the whole log: the spend it
    reports is the spend of the scope in the current window of everything recorded, the
    budget is exceeded exactly when the limit is positive and reached, and it warns
    exactly when it is not exceeded and the percentage reaches the threshold. *)
Theorem StandardBudgetPolicy_verdict now calls input :
  StronglySorted earlier calls.*2 → Forall (λ c, c.1 ≤ now) calls →
  let window := since_filter (PeriodWindowStart now (input_Period input)) calls.*2 in
  let spent := log_total window (mkSpendScope (input_Namespace input) (input_Team input) "") in
  ∃ d, StandardBudgetPolicy_Evaluate now input (store_of (replay empty_store calls)) = Ok d ∧
    SpentUSD d = spent ∧
    (decision_Status d = BudgetExceeded ↔
       f64_ltb f64_zero (Limit input) = true ∧ f64_leb (Limit input) spent = true) ∧
    (decision_Status d = BudgetWarning ↔
       decision_Status d ≠ BudgetExceeded ∧ 0 < WarnAt input ∧
       f64_leb (f64_of_Z (WarnAt input)) (PctUsed d) = true).
Proof.
  intros Hs Hn window spent. destruct (Evaluate_log now calls input Hs Hn) as (d & Hd & Hsp & _ & Hst).
  exists d. split_and!; [done..| |]; rewrite Hst; clear Hst Hd;
    fold window in Hsp |- *; fold spent.
  - rewrite <- andb_true_iff. destruct (_ && _); [done|]. by destruct (_ && _).
  - destruct (_ && f64_leb (Limit input) spent); [naive_solver|].
    rewrite <- Z.gtb_lt, <- (andb_true_iff (WarnAt input >? 0)). destruct (_ && _); naive_solver.
Qed.

(** a budget whose period is one of the three texts the API admits (daily, weekly,
    monthly) is always judged on the current day: whatever was spent before midnight does
    not count, so a monthly limit that was exceeded yesterday is not exceeded today. *)
Theorem api_period_is_daily now calls input period :
  period ∈ ["daily"; "weekly"; "monthly"] → input_Period input = period_of period →
  StronglySorted earlier calls.*2 → Forall (λ c, c.1 ≤ now) calls →
  Forall (λ e, Timestamp e < truncate_day now) calls.*2 →
  ∃ d, StandardBudgetPolicy_Evaluate now input (store_of (replay empty_store calls)) = Ok d ∧
       SpentUSD d = f64_zero ∧ decision_Status d ≠ BudgetExceeded.
Proof.
  intros Hp Hi Hs Hn Hold. destruct (Evaluate_log now calls input Hs Hn) as (d & Hd & Hsp & _ & Hst).
  assert (PeriodWindowStart now (input_Period input) = truncate_day now) as Hw.
  { rewrite Hi. rewrite !elem_of_cons, elem_of_nil in Hp. by destruct Hp as [->|[->|[->|[]]]]. }
  rewrite Hw, (since_filter_none _ _ Hold) in Hsp, Hst. simpl in Hsp, Hst.
  exists d. split_and!; [done..|]. rewrite Hst. unfold log_total. simpl.
  assert (f64_ltb f64_zero (Limit input) && f64_leb (Limit input) f64_zero = false) as ->.
  { unfold f64_ltb, f64_leb, SFltb, SFleb, f64_zero. destruct (Limit input) as [[]|[]| |[]]; done. }
  match goal with |- (if ?b then _ else _) ≠ _ => by destruct b end.
Qed.
End budget_props.

(** ** Properties: roll-ups *)
Section rollup_props.
Context {foldApi : FoldApi} {sortRollup : SliceSort RollupEntry}
        {RL : SliceSortLaws roll_less sortRollup}.

Definition bucket_log (scope : SpendScope) (period : Period) (k : roll_key)
    (log : list SpendEntry) : list SpendEntry :=
  List.filter (λ e, matchesScope e scope && bool_decide (key_of period e = k)) log.

(** The bucket of a key: the entries of the log with that key, added in order. *)
Definition bucket_value (scope : SpendScope) (period : Period) (k : roll_key)
    (log : list SpendEntry) : option RollupEntry :=
  match bucket_log scope period k log with
  | [] => None
  | l => Some (foldl (λ b e, roll_add e b) (empty_bucket k) l)
  end.

Lemma roll_fold_lookup scope period k log :
  foldl (roll_step scope period) ∅ log !! k = bucket_value scope period k log.
Proof.
  induction log as [|e log IH] using rev_ind; [done|].
  rewrite foldl_app. simpl. unfold bucket_value, bucket_log in *. rewrite List.filter_app. simpl.
  unfold roll_step at 1. destruct (matchesScope e scope); simpl; [|by rewrite app_nil_r].
  case_bool_decide as Hk; simpl.
  - subst k. rewrite lookup_insert_eq, IH. destruct (List.filter _ log) as [|x l]; [done|].
    simpl. by rewrite foldl_app.
  - rewrite lookup_insert_ne by done. by rewrite app_nil_r.
Qed.

Lemma roll_add_fold_key b l :
  roll_key_of (foldl (λ b e, roll_add e b) b l) = roll_key_of b.
Proof. revert b. induction l as [|e l IH]; intros b; [done|]. simpl. by rewrite IH. Qed.

Lemma bucket_value_key scope period k log b :
  bucket_value scope period k log = Some b → roll_key_of b = k.
Proof.
  unfold bucket_value. destruct (bucket_log _ _ _ _); [done|]. intros [= <-].
  rewrite roll_add_fold_key. by destruct k as [[[? ?] ?] ?].
Qed.

(** a roll-up has one entry for each date, namespace, team and model with spending in
    the window, whatever the order of the map range, and that entry adds up exactly the
    recorded spending with that key. *)
Theorem Rollup_correct m scope period since order :
  StronglySorted earlier (entries m) → NoDup order →
  (∀ k, k ∈ order ↔ is_Some (rollup_buckets m scope period since !! k)) →
  NoDup (roll_key_of <$> Rollup m scope period since order) ∧
  ∀ b, b ∈ Rollup m scope period since order ↔
       ∃ k, bucket_value scope period k (since_filter since (entries m)) = Some b.
Proof.
  intros Hs Hnd Ho. unfold Rollup.
  assert (∀ k, rollup_buckets m scope period since !! k =
    bucket_value scope period k (since_filter since (entries m))) as Hk.
  { intros k. unfold rollup_buckets, iterSince. by rewrite (drop_search _ _ Hs), roll_fold_lookup. }
  split.
  - rewrite (sort_slice_perm (SliceSortLaws := RL)). clear Ho.
    assert (∀ l, roll_key_of <$> omap (λ k, rollup_buckets m scope period since !! k) l `sublist_of` l) as Hsub.
    { induction l as [|k l IH]; [constructor|]. simpl.
      destruct (rollup_buckets m scope period since !! k) as [b|] eqn:E; simpl; [|by constructor].
      rewrite Hk in E. rewrite (bucket_value_key _ _ _ _ _ E). by constructor. }
    by eapply sublist_NoDup.
  - intros b. rewrite (sort_slice_perm (SliceSortLaws := RL)), list_elem_of_omap.
    setoid_rewrite Hk. split; [naive_solver|]. intros [k E]. exists k. split; [|done].
    apply Ho. rewrite Hk. eauto.
Qed.
End rollup_props.

(** ** Properties: reconnection *)
Fixpoint failures (cfg : resilientConfig) (n : nat) (s : resilient_state) : resilient_state :=
  match n with O => s | S n' => failures cfg n' (retry_step cfg false false s) end.

(** the reconnection backs off exponentially and never beyond its maximum: after [n]
    failures of a store that was not available at first the next attempt comes after the
    doubled interval or the maximum, the store stays unhealthy, and the first success
    makes it healthy for good. *)
Theorem retry_backoff cfg n :
  0 < retryInterval cfg ≤ maxRetryInterval cfg → 2 * maxRetryInterval cfg ≤ max_int 64 →
  let s := failures cfg n (NewResilientSpendStore cfg false) in
  s = Retrying (Z.min (retryInterval cfg * 2 ^ Z.of_nat n) (maxRetryInterval cfg)) ∧
  IsHealthy s = false ∧ IsHealthy (retry_step cfg false true s) = true ∧
  ∀ stop ok, retry_step cfg stop ok (retry_step cfg false true s) = Connected.
Proof.
  intros Hi Hm s.
  assert (∀ k i, 0 < i ≤ maxRetryInterval cfg →
    failures cfg k (Retrying i) = Retrying (Z.min (i * 2 ^ Z.of_nat k) (maxRetryInterval cfg))) as H.
  { induction k as [|k IH]; intros i Hk; [simpl; f_equal; lia|]. simpl.
    rewrite wrap_id; [|lia|unfold in_width, min_int in *; lia].
    assert (0 < 2 ^ Z.of_nat k) by (apply Z.pow_pos_nonneg; lia).
    rewrite Nat2Z.inj_succ, Z.pow_succ_r by lia.
    destruct (Z.gtb_spec (i * 2) (maxRetryInterval cfg)); rewrite IH by lia; f_equal; nia. }
  subst s. unfold NewResilientSpendStore. rewrite H by lia. done.
Qed.

(** ** Witnesses *)
Definition toy_fold : FoldApi := String.eqb.

Definition spent_at (t dollars : Z) : SpendEntry :=
  mkSpendEntry t "ns" "team" "run" "step" "gpt-4o" 10 5 (f64_of_Z dollars).

(** October 4th 2024, just after midnight, and one entry of the day before. *)
Definition sample_now : Z := 20000 * nanosecond_day + 7.
Definition yesterday : list (Z * SpendEntry) :=
  [(19999 * nanosecond_day + 1, spent_at (19999 * nanosecond_day) 100)].
Definition both_days : list (Z * SpendEntry) :=
  yesterday ++ [(20000 * nanosecond_day + 5, spent_at (20000 * nanosecond_day) 3)].

Definition budget_of (p : Period) : BudgetInput :=
  mkBudgetInput "ns" "team" p (f64_of_Z 10) 80 true.

Lemma both_days_sorted : StronglySorted earlier both_days.*2.
Proof.
  unfold both_days, yesterday. simpl. apply SSorted_cons; [apply SSorted_cons; constructor|].
  repeat constructor. unfold earlier. simpl. unfold nanosecond_day. lia.
Qed.

Lemma yesterday_sorted : StronglySorted earlier yesterday.*2.
Proof. apply SSorted_cons; constructor. Qed.

Lemma Total_refines_log_witness :
  @Total toy_fold (replay empty_store both_days) (mkSpendScope "ns" "" "") (truncate_day sample_now) =
  f64_of_Z 3.
Proof.
  rewrite (@Total_refines_log toy_fold sample_now both_days);
    [vm_compute; reflexivity|exact both_days_sorted| |].
  - repeat constructor; simpl; unfold sample_now, nanosecond_day; lia.
  - unfold maxRetentionAge, truncate_day, day_number, sample_now, nanosecond_day. vm_compute. discriminate.
Defined.

Lemma yesterday_before : Forall (λ c : Z * SpendEntry, c.1 ≤ sample_now) yesterday.
Proof. repeat constructor; simpl; unfold sample_now, nanosecond_day; lia. Qed.

Lemma StandardBudgetPolicy_verdict_witness :
  ∃ d, @StandardBudgetPolicy_Evaluate toy_float sample_now (budget_of PeriodMonth)
         (@store_of toy_fold (replay empty_store yesterday)) = Ok d ∧
       decision_Status d = BudgetExceeded.
Proof.
  destruct (@StandardBudgetPolicy_verdict toy_fold toy_float sample_now yesterday
    (budget_of PeriodMonth) yesterday_sorted yesterday_before) as (d & Hd & _ & Hex & _).
  exists d. split; [exact Hd|]. apply Hex. split; vm_compute; reflexivity.
Defined.

Lemma api_period_is_daily_witness :
  ∃ d, @StandardBudgetPolicy_Evaluate toy_float sample_now (budget_of (period_of "monthly"))
         (@store_of toy_fold (replay empty_store yesterday)) = Ok d ∧
       SpentUSD d = f64_zero ∧ decision_Status d ≠ BudgetExceeded.
Proof.
  apply (@api_period_is_daily toy_fold toy_float sample_now yesterday _ "monthly");
    [right; right; left|reflexivity|exact yesterday_sorted|exact yesterday_before|].
  repeat constructor.
Defined.

#[export] Instance roll_less_total : base.Total (not_less roll_less).
Proof.
  intros a b. unfold not_less, roll_less, str_ltb.
  rewrite (Z.eqb_sym (Date b)), (String.eqb_sym (roll_Namespace b)), (String.eqb_sym (roll_Team b)).
  destruct (Z.eqb_spec (Date a) (Date b)); simpl; [|rewrite !Z.ltb_ge; lia].
  destruct (String.eqb (roll_Namespace a) _); simpl.
  - destruct (String.eqb (roll_Team a) _); simpl;
      rewrite !negb_false_iff; apply str_le_total.
  - rewrite !negb_false_iff. apply str_le_total.
Qed.

Definition rollup_order : list roll_key :=
  [(19999 * nanosecond_day, "ns", "team", "gpt-4o"); (20000 * nanosecond_day, "ns", "team", "gpt-4o")].

Lemma Rollup_correct_witness :
  ∃ b, b ∈ @Rollup toy_fold merge_sort_by (replay empty_store both_days) (mkSpendScope "" "" "")
             PeriodDay 0 rollup_order ∧ RunCount b = 1 ∧ TotalCostUSD_ b = f64_of_Z 100.
Proof.
  destruct (@Rollup_correct toy_fold merge_sort_by (merge_sort_by_laws _ roll_less_total)
    (replay empty_store both_days) (mkSpendScope "" "" "") PeriodDay 0 rollup_order) as [_ H].
  - vm_compute. repeat constructor; discriminate.
  - apply (bool_decide_unpack _). vm_compute. reflexivity.
  - intros k. split.
    + unfold rollup_order. rewrite !elem_of_cons, elem_of_nil.
      intros [->|[->|[]]]; vm_compute; eauto.
    + intros [b Hb]. apply elem_of_map_to_list in Hb.
      match type of Hb with _ ∈ ?l => let l' := eval vm_compute in l in change l with l' in Hb end.
      rewrite !elem_of_cons, elem_of_nil in Hb. unfold rollup_order. rewrite !elem_of_cons.
      destruct Hb as [E|[E|[]]]; injection E as -> _; first [left; reflexivity | right; left; reflexivity].
  - eexists. split; [apply H; exists (19999 * nanosecond_day, "ns", "team", "gpt-4o"); vm_compute; reflexivity|].
    split; reflexivity.
Defined.

Lemma retry_backoff_witness :
  failures (mkResilientConfig 1 30) 7 (NewResilientSpendStore (mkResilientConfig 1 30) false) =
  Retrying 30.
Proof.
  rewrite (proj1 (retry_backoff (mkResilientConfig 1 30) 7 ltac:(simpl; lia)
    ltac:(unfold max_int; simpl; lia))). reflexivity.
Defined.
