(* ===== verification/Queue.v ===== *)
(** * Queue: tasks, agent errors and backends
    (pkg/agent/queue/queue.go, pkg/agent/errors/errors.go, pkg/registry/registry.go).

    What the controllers exchange with the agents: the results of the tasks and the
    textual form of the structured errors, and the registry the queue backends are
    looked up in.  The queues themselves (Redis, in memory) are interfaces. *)
From Stdlib Require Import ZArith Lia Ascii.
From stdpp Require Import base tactics option list strings gmap sorting.
From S2P Require Import Prelude GoStd Types.

(** ** Results *)
Record TaskResult := mkTaskResult {
  res_TaskID : string;
  res_Output : string;
  res_Error : string;
  res_Usage : TokenUsage;
  res_Artifacts : gmap string string }.

Definition PermanentFailure : string := "permanent failure".

Definition IsPermanentFailure (reason : string) : bool :=
  HasPrefix reason PermanentFailure ||
  existsb (str_contains reason) [" 400 "; " 401 "; " 403 "; " 404 "; " 422 "].

(** ** Agent errors *)
Definition defaultSuggestions : gmap string string := list_to_map [
  ("LLMTimeout", "Increase spec.guardrails.limits.timeoutSeconds or check provider status");
  ("LLMAuthFailed", "Verify spec.apiKeyRef points to a valid Secret with the correct key");
  ("LLMRateLimited", "Reduce concurrentTasks or add a rate-limit delay");
  ("LLMContextExceeded", "Reduce prompt size or increase tokensPerCall");
  ("LLMProviderError", "Check provider status page; the error may be transient");
  ("ToolTimeout", "Increase tool timeout or check MCP server health");
  ("ToolNotFound", "Check that the MCP server is running and the tool name matches");
  ("ToolExecutionFailed", "Check MCP server logs for the root cause");
  ("ToolInvalidArgs", "Verify the tool's input schema matches the arguments the model sent");
  ("ToolDenied", "Check SwarmPolicy tool deny configuration");
  ("MemoryUnavailable", "Check vector store connectivity and credentials");
  ("MemoryQueryFailed", "Check vector store logs; the query may be malformed");
  ("QueueFull", "Increase queue capacity or reduce task submission rate");
  ("QueueTimeout", "Check Redis connectivity and queue health");
  ("ConfigInvalid", "Check agent environment variables and SwarmAgent spec");
  ("ConfigMissing", "Ensure required environment variables are set by the operator")].

Definition SuggestionForCode (code : string) : string := default "" (defaultSuggestions !! code).

Record AgentError := mkAgentError {
  Code : string;
  Component : string;
  err_Message : string;
  Suggestion : string }.

Definition Error (e : AgentError) : string := "[" +:+ Code e +:+ "] " +:+ err_Message e.

Definition NewAgentError (component code msg : string) : AgentError :=
  mkAgentError code component msg (SuggestionForCode code).

(** [parseAgentErrorFields] of swarmrun_controller.go: the code and the suggestion. *)
Definition parseAgentErrorFields (errMsg : string) : string * string :=
  if negb (HasPrefix errMsg "[") then ("", "")
  else
    match index_byte errMsg "]" with
    | None => ("", "")
    | Some stop =>
        if (stop <? 2)%nat then ("", "")
        else let code := str_take (stop - 1) (str_drop 1 errMsg) in (code, SuggestionForCode code)
    end.

(** ** The factory registry *)
Section registry.
Context {F : Type}.

Definition Register (backends : gmap string F) (key : string) (f : F) : gmap string F :=
  <[key := f]> backends.
Definition Lookup (backends : gmap string F) (key : string) : option F := backends !! key.
Definition Keys (backends : gmap string F) : list string := sort_strings (keys_of backends).
End registry.

Definition Detect (url : string) : string :=
  if HasPrefix url "redis" then "redis"
  else if HasPrefix url "nats" then "nats"
  else if HasPrefix url "memory" then "memory"
  else "redis".

(** A queue factory, for the outcome of opening the queue of a URL. *)
Definition NewQueue {Q} (factories : gmap string (string → Z → result string Q)) (url : string)
    (maxRetries : Z) : result string Q :=
  let name := Detect url in
  match Lookup factories name with
  | None => Err (Error (NewAgentError "queue" "ConfigInvalid"
              ("unknown task queue backend " +:+ Quote name +:+ "; available: " +:+
               str_join ", " (Keys factories))))
  | Some f => f url maxRetries
  end.

(** ** Properties *)
Lemma index_byte_app s t c :
  index_byte s c = None → index_byte (s +:+ String c t) c = Some (String.length s).
Proof.
  induction s as [|d s IH]; simpl; intros H; [by rewrite Ascii.eqb_refl|].
  destruct (Ascii.eqb d c); [done|]. destruct (index_byte s c); [done|]. by rewrite IH.
Qed.

Lemma str_take_app s t : str_take (String.length s) (s +:+ t) = s.
Proof. induction s as [|c s IH]; simpl; [by destruct t|]. by rewrite IH. Qed.

(** the text of an agent error carries its code and its suggestion through the queue:
    parsing what [Error] prints gives back both, for every code that is not empty and
    does not contain the closing bracket, as all declared codes are. *)
Theorem parseAgentErrorFields_Error component code msg :
  code ≠ "" → index_byte code "]" = None →
  let e := NewAgentError component code msg in
  parseAgentErrorFields (Error e) = (Code e, Suggestion e).
Proof.
  intros Hne Hb e.
  assert (Error e = String "[" (code +:+ String "]" (" " +:+ msg))) as -> by reflexivity.
  unfold parseAgentErrorFields.
  pose proof (HasPrefix_app "[" (code +:+ String "]" (" " +:+ msg))) as Hp.
  change ("[" +:+ ?s) with (String "[" s) in Hp. rewrite Hp. cbn [negb].
  change (index_byte (String "[" ?s) "]") with (S <$> index_byte s "]").
  rewrite (index_byte_app code _ _ Hb). destruct code as [|c code]; [done|]. simpl.
  by rewrite str_take_app.
Qed.

Lemma parseAgentErrorFields_Error_witness :
  parseAgentErrorFields "[ToolDenied] no" =
  ("ToolDenied", "Check SwarmPolicy tool deny configuration").
Proof. apply (parseAgentErrorFields_Error "tool" "ToolDenied" "no"); done. Defined.

Lemma declared_codes :
  Forall (λ code, code ≠ "" ∧ index_byte code "]" = None) (keys_of defaultSuggestions).
Proof. apply (bool_decide_unpack _). vm_compute. reflexivity. Qed.
