(* ===== verification/Kube.v ===== *)
(** * Kube: the Kubernetes API machinery the controllers call.

    Status conditions as an interface with its documented law, and a reference
    implementation on association lists that satisfies it. *)
From Stdlib Require Import ZArith Lia.
From stdpp Require Import base tactics option list strings gmap.
From S2P Require Import Prelude Types.

(** ** Reads of the API server *)
Inductive get_result (A : Type) := Found (x : A) | NotFound | GetFailed (e : string).
Arguments Found {A} _. Arguments NotFound {A}. Arguments GetFailed {A} _.

(** [net/url]: the URL with one query parameter set; [None] when it does not parse. *)
Class UrlApi := url_set_query : string → string → string → option string.

(** ** k8s.io/apimachinery/pkg/api/meta *)
Class ConditionApi := {
  SetStatusCondition : list StatusCondition → StatusCondition → list StatusCondition;
  RemoveStatusCondition : list StatusCondition → string → list StatusCondition;
  FindStatusCondition : list StatusCondition → string → option StatusCondition }.

(** Documented behaviour: the condition of that type takes the given status, reason,
    message and generation, or is removed; conditions of other types are untouched. *)
Class ConditionLaws (C : ConditionApi) : Prop := {
  set_condition_find : ∀ l c,
    FindStatusCondition (SetStatusCondition l c) (cond_Type c) = Some c;
  set_condition_other : ∀ l c t, t ≠ cond_Type c →
    FindStatusCondition (SetStatusCondition l c) t = FindStatusCondition l t;
  remove_condition_find : ∀ l t, FindStatusCondition (RemoveStatusCondition l t) t = None;
  remove_condition_other : ∀ l t u, u ≠ t →
    FindStatusCondition (RemoveStatusCondition l t) u = FindStatusCondition l u }.

(** ** internal/controller/helpers.go *)
Definition setCondition {conditionApi : ConditionApi} (conditions : list StatusCondition) (generation : Z)
    (condType : string) (status : ConditionStatus) (reason message : string)
    : list StatusCondition :=
  let condType := if decide (condType = "") then "Ready" else condType in
  SetStatusCondition conditions (mkCondition condType status generation reason message).

Lemma setCondition_ready `{!ConditionLaws conditionApi} l generation status reason message :
  FindStatusCondition (setCondition (conditionApi := conditionApi) l generation "" status reason message) "Ready"
  = Some (mkCondition "Ready" status generation reason message).
Proof. apply (set_condition_find l (mkCondition "Ready" status generation reason message)). Qed.

Definition appendStreamParam {urlApi : UrlApi} (baseURL streamName : string) : string :=
  default baseURL (url_set_query baseURL "stream" streamName).

Definition AnnotationTeamQueueURL := "kubeswarm/team-queue-url".
Definition LabelTeam := "kubeswarm/team".

(** ** Runs as objects of the API server: with metadata *)
Record OwnerReference := mkOwnerReference {
  owner_Kind : string;
  owner_Name : string;
  owner_UID : string;
  owner_Controller : bool }.

Record RunResource := mkRunResource {
  object_Run : SwarmRun;
  object_Labels : gmap string string;
  object_Annotations : gmap string string;
  object_Created : Z;
  object_Owners : list OwnerReference }.

Definition object_Name (o : RunResource) : string := run_Name (object_Run o).

(** [client.MatchingLabels] with one label. *)
Definition has_label (key value : string) (o : RunResource) : bool :=
  bool_decide (object_Labels o !! key = Some value).

(** The most recently created run; of runs created at the same time, the first. *)
Definition newer (latest : option RunResource) (run : RunResource) : option RunResource :=
  match latest with
  | Some l => if object_Created l <? object_Created run then Some run else latest
  | None => Some run
  end.

Definition latestRunFromList (runs : list RunResource) : option RunResource := foldl newer None runs.

Lemma newer_max runs acc :
  match foldl newer acc runs with
  | None => acc = None ∧ runs = []
  | Some l => (acc = Some l ∨ l ∈ runs) ∧
              (∀ a, acc = Some a → object_Created a ≤ object_Created l) ∧
              ∀ r, r ∈ runs → object_Created r ≤ object_Created l
  end.
Proof.
  revert acc. induction runs as [|r runs IH]; intros acc; simpl.
  { destruct acc as [a|]; [|done]. split; [by left|]. split; [intros ? [= <-]; lia|].
    intros r Hr. by apply not_elem_of_nil in Hr. }
  specialize (IH (newer acc r)). destruct (foldl newer (newer acc r) runs) as [l|].
  - destruct IH as (Hl & Hacc & Hr). unfold newer in *.
    destruct acc as [a|]; [destruct (Z.ltb_spec (object_Created a) (object_Created r))|];
      (split; [|split]).
    all: try (destruct Hl as [[= <-]|Hl]; [by (left + (right; left))|by right; right]).
    all: try (intros ? [= <-]).
    all: try (intros x [->|Hx]%elem_of_cons; [|by apply Hr]).
    all: specialize (Hacc _ eq_refl); lia || done.
  - destruct IH as [E _]. unfold newer in E. destruct acc; [by case_match|done].
Qed.

(** The run it returns is one of the list, and none was created later. *)
Lemma latestRunFromList_spec runs :
  match latestRunFromList runs with
  | None => runs = []
  | Some l => l ∈ runs ∧ ∀ r, r ∈ runs → object_Created r ≤ object_Created l
  end.
Proof.
  unfold latestRunFromList. pose proof (newer_max runs None) as H.
  destruct (foldl newer None runs) as [l|]; [|tauto].
  destruct H as ([|Hl] & _ & Hr); [done|auto].
Qed.

(** ** A reference condition list: one entry per type, replaced in place *)
Fixpoint put_condition (l : list StatusCondition) (c : StatusCondition)
    : list StatusCondition :=
  match l with
  | [] => [c]
  | d :: rest => if decide (cond_Type d = cond_Type c) then c :: rest
                 else d :: put_condition rest c
  end.

Fixpoint get_condition (l : list StatusCondition) (t : string) : option StatusCondition :=
  match l with
  | [] => None
  | d :: rest => if decide (cond_Type d = t) then Some d else get_condition rest t
  end.

Definition drop_condition (l : list StatusCondition) (t : string) : list StatusCondition :=
  filter (λ c, cond_Type c ≠ t) l.

Definition list_conditions : ConditionApi :=
  {| SetStatusCondition := put_condition; RemoveStatusCondition := drop_condition;
     FindStatusCondition := get_condition |}.

Lemma list_conditions_laws : ConditionLaws list_conditions.
Proof.
  split; simpl.
  - intros l c. induction l as [|d l IH]; simpl; repeat (case_decide; simpl); done.
  - intros l c t Ht. induction l as [|d l IH]; simpl; repeat (case_decide; simpl); congruence.
  - intros l t. unfold drop_condition. induction l as [|d l IH]; [done|]. rewrite filter_cons.
    repeat (case_decide; simpl); congruence.
  - intros l t u Hu. unfold drop_condition. induction l as [|d l IH]; [done|]. rewrite filter_cons.
    repeat (case_decide; simpl); congruence.
Defined.

(** A reference URL builder. *)
Definition toy_url : UrlApi := λ base key value, Some (base +:+ "?" +:+ key +:+ "=" +:+ value).
