(* ===== verification/AgentTypes.v ===== *)
(** * AgentTypes: agents and policies (api/v1alpha1/swarmagent_types.go, swarmpolicy_types.go,
    swarmregistry_types.go).

    The fields of the SwarmAgent, SwarmPolicy and SwarmRegistry objects that the policy engine, the
    registry and the admission webhook read or write.  String enumerations have a
    [...Unset] constructor for the Go zero value. *)
From Stdlib Require Import ZArith.
From stdpp Require Import base tactics option list strings gmap.
From S2P Require Import Prelude Types.

(** ** swarmagent_types.go *)
Record ToolPermissions := mkToolPermissions {
  perm_Allow : list string;
  perm_Deny : list string;
  (** [trust.default]; [None] when there is no trust policy. *)
  perm_Trust : option ToolTrustLevel }.

Record AgentGuardrails := mkAgentGuardrails {
  guard_Tools : option ToolPermissions;
  guard_BudgetRef : option string;
  guard_Limits : option GuardrailLimits }.

Inductive AuditLogMode := AuditLogModeUnset | AuditLogModeOff | AuditLogModeActions | AuditLogModeVerbose.

Record AuditLogConfig := mkAuditLogConfig { audit_Mode : AuditLogMode; audit_Redact : list string }.

Inductive HealthCheckType := HealthCheckUnset | HealthCheckSemantic | HealthCheckPing.

Record AgentHealthCheck := mkAgentHealthCheck {
  health_Type : HealthCheckType;
  health_Prompt : string;
  health_NotifyRef : option string }.

Record LogRedactionPolicy := mkLogRedactionPolicy { redaction_Secrets : bool; redaction_PII : bool }.

Inductive LogLevel := LogLevelUnset | LogLevelDebug | LogLevelInfo | LogLevelWarn | LogLevelError.

Record AgentLogging := mkAgentLogging {
  logging_Level : LogLevel;
  logging_ToolCalls : bool;
  logging_LLMTurns : bool;
  logging_Redaction : option LogRedactionPolicy }.

Record AgentObservability := mkAgentObservability {
  AuditLog : option AuditLogConfig;
  obs_NotifyRef : option string;
  obs_HealthCheck : option AgentHealthCheck;
  obs_Logging : option AgentLogging }.

Record AgentCapability := mkAgentCapability {
  cap_Name : string;
  cap_Description : string;
  cap_Tags : list string;
  ExposeMCP : bool }.

Inductive NetworkPolicyMode :=
| NetworkPolicyModeUnset | NetworkPolicyModeDefault | NetworkPolicyModeStrict | NetworkPolicyModeDisabled.

(** The sources of the environment are Secrets or ConfigMaps, by their names. *)
Record AgentInfrastructure := mkAgentInfrastructure {
  infra_RegistryRef : option string;
  infra_EnvFrom : list string;
  infra_Plugins : option AgentPlugins;
  infra_NetworkPolicy : NetworkPolicyMode;
  infra_APIKeyRef : option KeySelector }.

Inductive AgentConnectionRole :=
| ConnectionRoleUnset | AgentConnectionRoleTool | AgentConnectionRoleAdvisor.

Record ContextPropagationConfig := mkContextPropagationConfig {
  propagation_ToolName : string;
  propagation_RecentMessages : Z;
  propagation_MaxCallsPerTask : Z;
  propagation_TimeoutSeconds : Z;
  propagation_MaxAdvisorTokensPerTask : Z;
  propagation_MaxContextBytes : Z;
  propagation_ExcludeSystemPrompt : bool }.

Record AgentConnection := mkAgentConnection {
  conn_Name : string;
  conn_AgentRef : option string;
  conn_CapabilityRef : option string;
  conn_Role : AgentConnectionRole;
  conn_ContextPropagation : option ContextPropagationConfig;
  conn_Trust : ToolTrustLevel;
  conn_Instructions : string }.

Inductive GatewayDispatchMode := DispatchModeUnset | GatewayDispatchEnabled | GatewayDispatchDisabled.

Inductive GatewayFallbackMode :=
| FallbackModeUnset | GatewayFallbackFail | GatewayFallbackAnswerDirectly | GatewayFallbackAgent.

Record GatewayFallback := mkGatewayFallback {
  fallback_Mode : GatewayFallbackMode;
  fallback_AgentRef : option string }.

Record GatewayConfig := mkGatewayConfig {
  gateway_FilterByTags : list string;
  gateway_AllowedTargets : list string;
  gateway_AllowGatewayTargets : bool;
  gateway_RegistryRef : string;
  gateway_DispatchMode : GatewayDispatchMode;
  gateway_DispatchTimeoutSeconds : Z;
  gateway_MaxDispatchDepth : Z;
  gateway_MaxResultsPerSearch : Z;
  gateway_MaxDispatchCalls : Z;
  gateway_MaxSearchCalls : Z;
  gateway_Fallback : option GatewayFallback }.

(** ** reasoning_types.go

    [ReasoningDefaults], the shape of the settings, has the same fields. *)
Inductive ReasoningMode := ReasoningModeUnset | ReasoningDisabled | ReasoningAuto | ReasoningExplicit.
Inductive ReasoningEffort :=
| ReasoningEffortUnset | ReasoningEffortLow | ReasoningEffortMedium | ReasoningEffortHigh.

Record ReasoningConfig := mkReasoningConfig {
  reasoning_Mode : ReasoningMode;
  reasoning_Effort : ReasoningEffort;
  reasoning_BudgetTokens : option Z }.

Record SwarmAgentSpec := mkSwarmAgentSpec {
  agent_Model : string;
  Capabilities : list AgentCapability;
  Guardrails : option AgentGuardrails;
  Observability : option AgentObservability;
  Infrastructure : option AgentInfrastructure;
  aspec_Prompt : option AgentPrompt;
  aspec_Settings : list string;
  aspec_Runtime : AgentRuntime;
  aspec_Tools : option AgentTools;
  aspec_Agents : list AgentConnection;
  aspec_Gateway : option GatewayConfig;
  aspec_Reasoning : option ReasoningConfig }.

Record SwarmAgentMCPStatus := mkSwarmAgentMCPStatus {
  mcpstatus_Name : string;
  mcpstatus_URL : string;
  mcpstatus_Healthy : option bool;
  mcpstatus_Message : string;
  mcpstatus_LastCheck : option Z;
  mcpstatus_AuthType : string;
  mcpstatus_Trust : ToolTrustLevel }.

Record AdvisorConnectionStatus := mkAdvisorConnectionStatus {
  advisor_Name : string;
  advisor_Ready : bool;
  advisor_ToolInjected : bool;
  advisor_ToolName : string;
  advisor_LastTransitionTime : Z }.

Record ToolAgentConnectionStatus := mkToolAgentConnectionStatus {
  toolagent_Name : string;
  toolagent_Ready : bool;
  toolagent_Trust : ToolTrustLevel;
  toolagent_LastTransitionTime : Z }.

Record GatewayStatus := mkGatewayStatus {
  RoutableCapabilities : Z;
  TotalMatchingCapabilities : Z;
  LastCapabilitySync : option Z }.

Record SwarmAgentStatus := mkSwarmAgentStatus {
  agent_Conditions : list StatusCondition;
  ReadyReplicas : Z;
  agent_DesiredReplicas : option Z;
  DailyTokenUsage : option TokenUsage;
  agent_Replicas : Z;
  agent_ObservedGeneration : Z;
  DedupEnabled : bool;
  ToolConnections : list SwarmAgentMCPStatus;
  SystemPromptHash : string;
  ExposedMCPCapabilities : list string;
  ToolAgentConnections : list ToolAgentConnectionStatus;
  AdvisorConnections : list AdvisorConnectionStatus;
  AppliedSettings : list string;
  AppliedFragmentCount : Z;
  agent_GatewayStatus : option GatewayStatus }.

#[export] Instance eta_SwarmAgentStatus : Settable SwarmAgentStatus := λ s,
  mkSwarmAgentStatus (agent_Conditions s) (ReadyReplicas s) (agent_DesiredReplicas s) (DailyTokenUsage s)
    (agent_Replicas s) (agent_ObservedGeneration s) (DedupEnabled s) (ToolConnections s)
    (SystemPromptHash s) (ExposedMCPCapabilities s) (ToolAgentConnections s) (AdvisorConnections s)
    (AppliedSettings s) (AppliedFragmentCount s) (agent_GatewayStatus s).

(** A status with so many ready replicas, and nothing else. *)
Definition ready_status (ready : Z) : SwarmAgentStatus :=
  mkSwarmAgentStatus [] ready None None 0 0 false [] "" [] [] [] [] 0 None.

Record SwarmAgent := mkSwarmAgent {
  agent_Name : string;
  agent_Namespace : string;
  agent_Generation : Z;
  agent_Labels : gmap string string;
  agent_Annotations : gmap string string;
  agent_Spec : SwarmAgentSpec;
  agent_Status : SwarmAgentStatus }.

#[export] Instance eta_SwarmAgent : Settable SwarmAgent := λ a,
  mkSwarmAgent (agent_Name a) (agent_Namespace a) (agent_Generation a) (agent_Labels a)
    (agent_Annotations a) (agent_Spec a) (agent_Status a).

(** ** swarmsettings_types.go

    The audit configuration is left out: no code reads it. *)
Inductive MemoryBackend :=
| MemoryBackendUnset | MemoryBackendInContext | MemoryBackendVectorStore | MemoryBackendRedis.

Record PromptFragment := mkPromptFragment {
  fragment_Name : string;
  fragment_Text : string;
  fragment_Position : string }.

Record PromptFragments := mkPromptFragments { Persona : string; OutputRules : string }.

Record SwarmSettingsSecurity := mkSwarmSettingsSecurity {
  MCPAllowlist : list string;
  RequireMCPAuth : bool }.

Record SwarmSettings := mkSwarmSettings {
  settings_Name : string;
  settings_Security : option SwarmSettingsSecurity;
  Temperature : string;
  OutputFormat : string;
  settings_MemoryBackend : MemoryBackend;
  settings_Fragments : list PromptFragment;
  settings_PromptFragments : option PromptFragments;
  settings_Reasoning : option ReasoningConfig }.

(** Settings that only carry a security policy. *)
Definition security_settings (sec : SwarmSettingsSecurity) : SwarmSettings :=
  mkSwarmSettings "settings" (Some sec) "" "" MemoryBackendUnset [] None None.

(** ** swarmmemory_types.go *)
Record RedisMemoryConfig := mkRedisMemoryConfig {
  redis_SecretRef : string;
  redis_TTLSeconds : Z;
  MaxEntries : Z }.

Inductive VectorStoreProvider :=
| VectorStoreProviderUnset | VectorStoreProviderQdrant | VectorStoreProviderPgvector.

Record VectorStoreMemoryConfig := mkVectorStoreMemoryConfig {
  vs_Provider : VectorStoreProvider;
  vs_Endpoint : string;
  vs_Collection : string;
  vs_SecretRef : option string;
  vs_TTLSeconds : Z }.

Record EmbeddingConfig := mkEmbeddingConfig { emb_Model : string; emb_Provider : string }.

Record SwarmMemory := mkSwarmMemory {
  memory_Name : string;
  Backend : MemoryBackend;
  memory_Redis : option RedisMemoryConfig;
  memory_VectorStore : option VectorStoreMemoryConfig;
  memory_Embedding : option EmbeddingConfig }.

(** ** swarmpolicy_types.go *)
Inductive PolicyEnforcementMode :=
| EnforcementUnset | PolicyEnforcementAudit | PolicyEnforcementWarn | PolicyEnforcementEnforce.

Inductive PolicyOutputLevel :=
| OutputLevelUnset | PolicyOutputLevelNone | PolicyOutputLevelPattern
| PolicyOutputLevelSchema | PolicyOutputLevelSemantic.

Record PolicyLimits := mkPolicyLimits {
  MaxDailyTokens : option Z;
  MaxTokensPerCall : option Z;
  MaxTimeoutSeconds : option Z;
  MinTimeoutSeconds : option Z;
  MaxConcurrentTasks : option Z;
  MaxThinkingTokensPerCall : option Z;
  MaxAnswerTokensPerCall : option Z }.

#[export] Instance eta_PolicyLimits : Settable PolicyLimits := λ l,
  mkPolicyLimits (MaxDailyTokens l) (MaxTokensPerCall l) (MaxTimeoutSeconds l)
    (MinTimeoutSeconds l) (MaxConcurrentTasks l) (MaxThinkingTokensPerCall l)
    (MaxAnswerTokensPerCall l).

Record PolicyTools := mkPolicyTools {
  Deny : list string;
  tools_ForceTrustLevel : option ToolTrustLevel }.

Record PolicyOutput := mkPolicyOutput {
  output_MinValidation : PolicyOutputLevel;
  output_DenyPatterns : list string }.

Record PolicyModels := mkPolicyModels {
  Allowed : list string;
  Denied : list string }.

Record PolicyRequirements := mkPolicyRequirements {
  BudgetRef : bool;
  Audit : bool;
  AllowList : bool }.

Record SwarmPolicySpec := mkSwarmPolicySpec {
  spec_EnforcementMode : PolicyEnforcementMode;
  spec_Limits : option PolicyLimits;
  spec_Tools : option PolicyTools;
  spec_PolicyOutput : option PolicyOutput;
  spec_Models : option PolicyModels;
  spec_Requirements : PolicyRequirements }.

Record PolicyViolation := mkPolicyViolation {
  Constraint : string;
  PolicyName : string;
  violation_Message : string }.

Record EffectivePolicySpec := mkEffectivePolicySpec {
  Limits : option PolicyLimits;
  ToolDeny : list string;
  ForceTrustLevel : option ToolTrustLevel;
  MinValidation : PolicyOutputLevel;
  DenyPatterns : list string;
  Models : option PolicyModels;
  Requirements : PolicyRequirements;
  EnforcementMode : PolicyEnforcementMode }.

#[export] Instance eta_EffectivePolicySpec : Settable EffectivePolicySpec := λ e,
  mkEffectivePolicySpec (Limits e) (ToolDeny e) (ForceTrustLevel e) (MinValidation e)
    (DenyPatterns e) (Models e) (Requirements e) (EnforcementMode e).

Record SwarmPolicyStatus := mkSwarmPolicyStatus {
  AgentCount : Z;
  CompliantCount : Z;
  EffectivePolicy : option EffectivePolicySpec;
  policy_ObservedGeneration : Z;
  policy_Conditions : list StatusCondition }.

#[export] Instance eta_SwarmPolicyStatus : Settable SwarmPolicyStatus := λ s,
  mkSwarmPolicyStatus (AgentCount s) (CompliantCount s) (EffectivePolicy s)
    (policy_ObservedGeneration s) (policy_Conditions s).

Record SwarmPolicy := mkSwarmPolicy {
  policy_Name : string;
  policy_Generation : Z;
  policy_Spec : SwarmPolicySpec;
  policy_Status : SwarmPolicyStatus }.

#[export] Instance eta_SwarmPolicy : Settable SwarmPolicy := λ p,
  mkSwarmPolicy (policy_Name p) (policy_Generation p) (policy_Spec p) (policy_Status p).

(** ** swarmregistry_types.go *)
Inductive RegistryScope := ScopeUnset | RegistryScopeNamespace | RegistryScopeCluster.

Record MCPBinding := mkMCPBinding { CapabilityID : string; binding_URL : string }.

Record SwarmRegistrySpec := mkSwarmRegistrySpec {
  Scope : RegistryScope;
  registry_MaxDepth : Z;
  MCPBindings : list MCPBinding }.

Record IndexedCapability := mkIndexedCapability {
  ID : string;
  Description : string;
  Agents : list string;
  Tags : list string }.

Record AgentFleetEntry := mkAgentFleetEntry {
  fleet_Name : string;
  fleet_Model : string;
  fleet_ReadyReplicas : Z;
  fleet_DailyTokens : Z;
  fleet_Capabilities : list string }.

Record SwarmRegistryStatus := mkSwarmRegistryStatus {
  IndexedAgents : Z;
  Fleet : list AgentFleetEntry;
  LastRebuild : option Z;
  registry_Capabilities : list IndexedCapability;
  registry_ObservedGeneration : Z;
  registry_Conditions : list StatusCondition }.

#[export] Instance eta_SwarmRegistryStatus : Settable SwarmRegistryStatus := λ s,
  mkSwarmRegistryStatus (IndexedAgents s) (Fleet s) (LastRebuild s) (registry_Capabilities s)
    (registry_ObservedGeneration s) (registry_Conditions s).

Record SwarmRegistry := mkSwarmRegistry {
  registry_Name : string;
  registry_Namespace : string;
  registry_Generation : Z;
  registry_DeletionTimestamp : option Z;
  registry_Spec : SwarmRegistrySpec;
  registry_Status : SwarmRegistryStatus }.

#[export] Instance eta_SwarmRegistry : Settable SwarmRegistry := λ r,
  mkSwarmRegistry (registry_Name r) (registry_Namespace r) (registry_Generation r)
    (registry_DeletionTimestamp r) (registry_Spec r) (registry_Status r).

(** ** Decidable equality *)
#[export] Instance RegistryScope_eq_dec : EqDecision RegistryScope.
Proof. solve_decision. Defined.
#[export] Instance IndexedCapability_eq_dec : EqDecision IndexedCapability.
Proof. solve_decision. Defined.
#[export] Instance AgentFleetEntry_eq_dec : EqDecision AgentFleetEntry.
Proof. solve_decision. Defined.
#[export] Instance ToolTrustLevel_eq_dec : EqDecision ToolTrustLevel.
Proof. solve_decision. Defined.
#[export] Instance PolicyEnforcementMode_eq_dec : EqDecision PolicyEnforcementMode.
Proof. solve_decision. Defined.
#[export] Instance PolicyOutputLevel_eq_dec : EqDecision PolicyOutputLevel.
Proof. solve_decision. Defined.
#[export] Instance AuditLogMode_eq_dec : EqDecision AuditLogMode.
Proof. solve_decision. Defined.
#[export] Instance PolicyLimits_eq_dec : EqDecision PolicyLimits.
Proof. solve_decision. Defined.
#[export] Instance PolicyModels_eq_dec : EqDecision PolicyModels.
Proof. solve_decision. Defined.
#[export] Instance PolicyRequirements_eq_dec : EqDecision PolicyRequirements.
Proof. solve_decision. Defined.
#[export] Instance EffectivePolicySpec_eq_dec : EqDecision EffectivePolicySpec.
Proof. solve_decision. Defined.
#[export] Instance SwarmPolicyStatus_eq_dec : EqDecision SwarmPolicyStatus.
Proof. solve_decision. Defined.
#[export] Instance PolicyViolation_eq_dec : EqDecision PolicyViolation.
Proof. solve_decision. Defined.
#[export] Instance KeySelector_eq_dec : EqDecision KeySelector.
Proof. solve_decision. Defined.
#[export] Instance SystemPromptSource_eq_dec : EqDecision SystemPromptSource.
Proof. solve_decision. Defined.
#[export] Instance AgentPrompt_eq_dec : EqDecision AgentPrompt.
Proof. solve_decision. Defined.
#[export] Instance CircuitBreakerSpec_eq_dec : EqDecision CircuitBreakerSpec.
Proof. solve_decision. Defined.
#[export] Instance GuardrailLimits_eq_dec : EqDecision GuardrailLimits.
Proof. solve_decision. Defined.
#[export] Instance MCPServerAuth_eq_dec : EqDecision MCPServerAuth.
Proof. solve_decision. Defined.
#[export] Instance MCPHeader_eq_dec : EqDecision MCPHeader.
Proof. solve_decision. Defined.
#[export] Instance MCPDiscoveryConfig_eq_dec : EqDecision MCPDiscoveryConfig.
Proof. solve_decision. Defined.
#[export] Instance MCPToolSpec_eq_dec : EqDecision MCPToolSpec.
Proof. solve_decision. Defined.
#[export] Instance WebhookToolSpec_eq_dec : EqDecision WebhookToolSpec.
Proof. solve_decision. Defined.
#[export] Instance AgentTools_eq_dec : EqDecision AgentTools.
Proof. solve_decision. Defined.
#[export] Instance SwarmAgentAutoscaling_eq_dec : EqDecision SwarmAgentAutoscaling.
Proof. solve_decision. Defined.
#[export] Instance CompressionSpec_eq_dec : EqDecision CompressionSpec.
Proof. solve_decision. Defined.
#[export] Instance AgentLoopMemory_eq_dec : EqDecision AgentLoopMemory.
Proof. solve_decision. Defined.
#[export] Instance SandboxSpec_eq_dec : EqDecision SandboxSpec.
Proof. solve_decision. Defined.
#[export] Instance AgentLoopPolicy_eq_dec : EqDecision AgentLoopPolicy.
Proof. solve_decision. Defined.
#[export] Instance ArtifactFormat_eq_dec : EqDecision ArtifactFormat.
Proof. solve_decision. Defined.
#[export] Instance AgentArtifactsConfig_eq_dec : EqDecision AgentArtifactsConfig.
Proof. solve_decision. Defined.
#[export] Instance ResourceRequirements_eq_dec : EqDecision ResourceRequirements.
Proof. solve_decision. Defined.
#[export] Instance AgentRuntime_eq_dec : EqDecision AgentRuntime.
Proof. solve_decision. Defined.
#[export] Instance PluginEndpoint_eq_dec : EqDecision PluginEndpoint.
Proof. solve_decision. Defined.
#[export] Instance AgentPlugins_eq_dec : EqDecision AgentPlugins.
Proof. solve_decision. Defined.
#[export] Instance ToolPermissions_eq_dec : EqDecision ToolPermissions.
Proof. solve_decision. Defined.
#[export] Instance AgentGuardrails_eq_dec : EqDecision AgentGuardrails.
Proof. solve_decision. Defined.
#[export] Instance AuditLogConfig_eq_dec : EqDecision AuditLogConfig.
Proof. solve_decision. Defined.
#[export] Instance HealthCheckType_eq_dec : EqDecision HealthCheckType.
Proof. solve_decision. Defined.
#[export] Instance AgentHealthCheck_eq_dec : EqDecision AgentHealthCheck.
Proof. solve_decision. Defined.
#[export] Instance LogRedactionPolicy_eq_dec : EqDecision LogRedactionPolicy.
Proof. solve_decision. Defined.
#[export] Instance LogLevel_eq_dec : EqDecision LogLevel.
Proof. solve_decision. Defined.
#[export] Instance AgentLogging_eq_dec : EqDecision AgentLogging.
Proof. solve_decision. Defined.
#[export] Instance AgentObservability_eq_dec : EqDecision AgentObservability.
Proof. solve_decision. Defined.
#[export] Instance AgentCapability_eq_dec : EqDecision AgentCapability.
Proof. solve_decision. Defined.
#[export] Instance NetworkPolicyMode_eq_dec : EqDecision NetworkPolicyMode.
Proof. solve_decision. Defined.
#[export] Instance AgentInfrastructure_eq_dec : EqDecision AgentInfrastructure.
Proof. solve_decision. Defined.
#[export] Instance AgentConnectionRole_eq_dec : EqDecision AgentConnectionRole.
Proof. solve_decision. Defined.
#[export] Instance ContextPropagationConfig_eq_dec : EqDecision ContextPropagationConfig.
Proof. solve_decision. Defined.
#[export] Instance AgentConnection_eq_dec : EqDecision AgentConnection.
Proof. solve_decision. Defined.
#[export] Instance GatewayDispatchMode_eq_dec : EqDecision GatewayDispatchMode.
Proof. solve_decision. Defined.
#[export] Instance GatewayFallbackMode_eq_dec : EqDecision GatewayFallbackMode.
Proof. solve_decision. Defined.
#[export] Instance GatewayFallback_eq_dec : EqDecision GatewayFallback.
Proof. solve_decision. Defined.
#[export] Instance GatewayConfig_eq_dec : EqDecision GatewayConfig.
Proof. solve_decision. Defined.
#[export] Instance ReasoningMode_eq_dec : EqDecision ReasoningMode.
Proof. solve_decision. Defined.
#[export] Instance ReasoningEffort_eq_dec : EqDecision ReasoningEffort.
Proof. solve_decision. Defined.
#[export] Instance ReasoningConfig_eq_dec : EqDecision ReasoningConfig.
Proof. solve_decision. Defined.
#[export] Instance MemoryBackend_eq_dec : EqDecision MemoryBackend.
Proof. solve_decision. Defined.
#[export] Instance VectorStoreProvider_eq_dec : EqDecision VectorStoreProvider.
Proof. solve_decision. Defined.
#[export] Instance SwarmAgentSpec_eq_dec : EqDecision SwarmAgentSpec.
Proof. solve_decision. Defined.
