(* ===== verification/Dag.v ===== *)
(** * Dag: dependency graphs of pipelines (pkg/flow/dag.go).

    Cycle detection by three-colour depth-first search, pipeline validation, the
    name-to-status index, dependency satisfaction and context-policy resolution.
    The Go code ranges over a map in [DetectCycle]; the iteration order is the
    argument [order], and the theorems hold for every order of the keys. *)
From Stdlib Require Import ZArith Lia.
From stdpp Require Import base tactics strings list gmap sets relations.
From S2P Require Import Prelude GoStd Types.

(** ** Phases *)
Definition IsTerminalTeamPhase (phase : SwarmTeamPhase) : bool :=
  match phase with TeamSucceeded | TeamFailed => true | _ => false end.

Definition IsTerminalRunPhase (phase : SwarmRunPhase) : bool :=
  match phase with RunSucceeded | RunFailed => true | _ => false end.

(** ** The name-to-status index.
    The Go map holds pointers into [f.Status.Steps]; here it holds the position, so
    that a write through the map is a write at that position. *)
Fixpoint build_status_from (i : nat) (steps : list PipelineStepStatus)
    (m : gmap string nat) : gmap string nat :=
  match steps with
  | [] => m
  | s :: rest => build_status_from (S i) rest (<[step_Name s := i]> m)
  end.

Definition BuildRunStatusByName (f : SwarmRun) : gmap string nat :=
  build_status_from 0 (Steps (Status f)) ∅.

(** Dereference of an entry of the index. *)
Definition status_at (steps : list PipelineStepStatus) (m : gmap string nat)
    (name : string) : option PipelineStepStatus :=
  match m !! name with Some i => steps !! i | None => None end.

Definition step_done (st : PipelineStepStatus) : bool :=
  match step_Phase st with StepSucceeded | StepSkipped => true | _ => false end.

Fixpoint DepsSucceeded (deps : list string) (steps : list PipelineStepStatus)
    (statusByName : gmap string nat) : bool :=
  match deps with
  | [] => true
  | dep :: rest =>
      match status_at steps statusByName dep with
      | None => false
      | Some st => if step_done st then DepsSucceeded rest steps statusByName else false
      end
  end.

(** ** Adjacency and context policies *)
Fixpoint build_adjacency_from (prev : option string) (consumerRole : string)
    (pipeline : list SwarmTeamPipelineStep) : gset string :=
  match pipeline with
  | [] => ∅
  | step :: rest =>
      if decide (Role step = consumerRole) then
        match DependsOn step with
        | [] => match prev with Some p => {[ p ]} | None => ∅ end
        | deps => list_to_set deps
        end
      else build_adjacency_from (Some (Role step)) consumerRole rest
  end.

Definition BuildAdjacencySet (consumerRole : string)
    (pipeline : list SwarmTeamPipelineStep) : gset string :=
  build_adjacency_from None consumerRole pipeline.

(** The first step of a role, the one a [for ... break] loop finds. *)
Fixpoint find_step (role : string) (pipeline : list SwarmTeamPipelineStep)
    : option SwarmTeamPipelineStep :=
  match pipeline with
  | [] => None
  | step :: rest => if decide (Role step = role) then Some step else find_step role rest
  end.

Definition ResolveContextPolicy (producerRole consumerRole : string)
    (pipeline : list SwarmTeamPipelineStep) (defaultPolicy : option StepContextPolicy)
    : option StepContextPolicy :=
  match (match find_step producerRole pipeline with
         | Some step => ContextPolicy step
         | None => None end) with
  | Some p => Some p
  | None =>
      if decide (producerRole ∈ BuildAdjacencySet consumerRole pipeline)
      then None
      else defaultPolicy
  end.

(** ** Cycle detection *)
Inductive dag_error :=
| UnknownDependency (step dep : string)
| CycleDetected (name dep : string).

Inductive color := White | Gray | Black.
#[export] Instance color_eq_dec : EqDecision color.
Proof. solve_decision. Defined.

Abbreviation adjacency := (gmap string (list string)).
Abbreviation colors := (gmap string color).

Definition deps_of (adj : adjacency) (name : string) : list string :=
  default [] (adj !! name).
Definition color_of (col : colors) (name : string) : color :=
  default White (col !! name).

(** The outcome of a visit: the colour map as the closure leaves it, an error, or
    fuel exhausted (excluded by [DetectCycle_total]). *)
Inductive dfs_out :=
| Done (col : colors)
| Cycle (e : dag_error)
| OutOfFuel.

(** The loop over [adj[name]]; [rec] is the recursive call of the closure. *)
Fixpoint visit_deps (rec : string → colors → dfs_out) (name : string)
    (deps : list string) (col : colors) : dfs_out :=
  match deps with
  | [] => Done col
  | dep :: rest =>
      match color_of col dep with
      | Gray => Cycle (CycleDetected name dep)
      | White =>
          match rec dep col with
          | Done col' => visit_deps rec name rest col'
          | r => r
          end
      | Black => visit_deps rec name rest col
      end
  end.

Fixpoint dfs (adj : adjacency) (fuel : nat) (name : string) (col : colors) : dfs_out :=
  match fuel with
  | O => OutOfFuel
  | S fuel' =>
      match visit_deps (dfs adj fuel') name (deps_of adj name) (<[name := Gray]> col) with
      | Done col' => Done (<[name := Black]> col')
      | r => r
      end
  end.

(** The loop over the keys of [adj], in the order [order]. *)
Fixpoint detect_from (adj : adjacency) (fuel : nat) (order : list string)
    (col : colors) : dfs_out :=
  match order with
  | [] => Done col
  | name :: rest =>
      match color_of col name with
      | White =>
          match dfs adj fuel name col with
          | Done col' => detect_from adj fuel rest col'
          | r => r
          end
      | _ => detect_from adj fuel rest col
      end
  end.

(** Every name the search can meet. *)
Definition graph_nodes (adj : adjacency) : gset string :=
  dom adj ∪ list_to_set (concat ((map_to_list adj).*2)).

Definition dfs_fuel (adj : adjacency) : nat := S (size (graph_nodes adj)).

Definition DetectCycle (adj : adjacency) (order : list string) : option (result dag_error ()) :=
  match detect_from adj (dfs_fuel adj) order ∅ with
  | Done _ => Some (Ok ())
  | Cycle e => Some (Err e)
  | OutOfFuel => None
  end.

(** ** Pipeline validation *)
Definition pipeline_names (pipeline : list SwarmTeamPipelineStep) : gset string :=
  list_to_set (Role <$> pipeline).

Fixpoint first_unknown (names : gset string) (role : string) (deps : list string)
    : option dag_error :=
  match deps with
  | [] => None
  | dep :: rest =>
      if decide (dep ∈ names) then first_unknown names role rest
      else Some (UnknownDependency role dep)
  end.

Fixpoint first_unknown_step (names : gset string) (pipeline : list SwarmTeamPipelineStep)
    : option dag_error :=
  match pipeline with
  | [] => None
  | step :: rest =>
      match first_unknown names (Role step) (DependsOn step) with
      | Some e => Some e
      | None => first_unknown_step names rest
      end
  end.

(** [adj[step.Role] = step.DependsOn]: the last step of a role wins. *)
Definition pipeline_adj (pipeline : list SwarmTeamPipelineStep) : adjacency :=
  foldl (λ adj step, <[Role step := DependsOn step]> adj) ∅ pipeline.

Definition validatePipelineDAG (pipeline : list SwarmTeamPipelineStep)
    (order : list string) : option (result dag_error ()) :=
  match first_unknown_step (pipeline_names pipeline) pipeline with
  | Some e => Some (Err e)
  | None => DetectCycle (pipeline_adj pipeline) order
  end.

Definition ValidateRunDAG (f : SwarmRun) := validatePipelineDAG (Pipeline (Spec f)).

(** ** Specification vocabulary *)
Definition edge (adj : adjacency) (n d : string) : Prop := d ∈ deps_of adj n.
Definition acyclic (adj : adjacency) : Prop := ∀ n, ¬ tc (edge adj) n n.
(** No infinite chain of dependencies starts at [n]. *)
Definition grounded (adj : adjacency) (n : string) : Prop := Acc (λ d m, edge adj m d) n.
Definition deps_known (pipeline : list SwarmTeamPipelineStep) : Prop :=
  ∀ step dep, step ∈ pipeline → dep ∈ DependsOn step → dep ∈ Role <$> pipeline.

(** ** Colours *)
Lemma color_of_insert_eq col n c : color_of (<[n := c]> col) n = c.
Proof. unfold color_of. by rewrite lookup_insert_eq. Qed.

Lemma color_of_insert_ne col n m c : n ≠ m → color_of (<[n := c]> col) m = color_of col m.
Proof. intros H. unfold color_of. by rewrite lookup_insert_ne. Qed.

Lemma color_of_insert col n m c :
  color_of (<[n := c]> col) m = if decide (n = m) then c else color_of col m.
Proof.
  case_decide; subst; [apply color_of_insert_eq | by apply color_of_insert_ne].
Qed.

(** What a completed visit of white [n] guarantees. *)
Record visited (adj : adjacency) (col col' : colors) : Prop := {
  visited_keep : ∀ x, color_of col x ≠ White → color_of col' x = color_of col x;
  visited_gray : ∀ x, color_of col' x = Gray → color_of col x = Gray;
  visited_black : (∀ x, color_of col x = Black → grounded adj x) →
                  ∀ x, color_of col' x = Black → grounded adj x }.

Lemma visited_refl adj col : visited adj col col.
Proof. by constructor. Qed.

Lemma visited_trans adj c1 c2 c3 :
  visited adj c1 c2 → visited adj c2 c3 → visited adj c1 c3.
Proof.
  intros [k1 g1 b1] [k2 g2 b2]. constructor; [|auto..].
  intros x Hx. rewrite k2 by (rewrite k1; done). auto.
Qed.

#[export] Hint Resolve visited_refl visited_trans : go.

(** The contract of the recursive call, under which the loop is verified. *)
Definition rec_spec (adj : adjacency) (rec : string → colors → dfs_out) : Prop :=
  ∀ n col col', color_of col n = White → rec n col = Done col' →
    visited adj col col' ∧ color_of col' n = Black.

Lemma visit_deps_done adj rec name deps col col' :
  rec_spec adj rec → visit_deps rec name deps col = Done col' →
  visited adj col col' ∧ ∀ d, d ∈ deps → color_of col' d = Black.
Proof.
  intros Hrec. revert col. induction deps as [|d ds IH]; intros col H; simpl in H.
  - simplify_eq. split; [auto with go | set_solver].
  - destruct (color_of col d) eqn:Hd; try discriminate.
    + destruct (rec d col) as [c1| |] eqn:Hr; try discriminate.
      destruct (Hrec _ _ _ Hd Hr) as [V1 B1]. destruct (IH _ H) as [V2 B2].
      split; [eauto with go|]. intros x [->|Hx]%elem_of_cons; [|auto].
      rewrite (visited_keep _ _ _ V2); [done | congruence].
    + destruct (IH _ H) as [V2 B2]. split; [done|].
      intros x [->|Hx]%elem_of_cons; [|auto].
      rewrite (visited_keep _ _ _ V2); [done | congruence].
Qed.

Lemma dfs_done adj fuel : rec_spec adj (dfs adj fuel).
Proof.
  induction fuel as [|fuel IH]; intros n col col' Hw H; simpl in H; [discriminate|].
  destruct (visit_deps _ _ _ _) as [c2| |] eqn:Hv; try discriminate. simplify_eq.
  destruct (visit_deps_done _ _ _ _ _ _ IH Hv) as [[K G B] D].
  split; [constructor|by rewrite color_of_insert_eq].
  - intros x Hx. assert (n ≠ x) by congruence.
    rewrite color_of_insert_ne, K; rewrite ?color_of_insert_ne; done.
  - intros x. rewrite color_of_insert. case_decide; [done|]. intros Hx.
    specialize (G x Hx). by rewrite color_of_insert_ne in G.
  - intros Hb. assert (∀ x, color_of c2 x = Black → grounded adj x) as Hc2.
    { apply B. intros x. rewrite color_of_insert. case_decide; [done|auto]. }
    intros x. rewrite color_of_insert. case_decide; subst; [|auto].
    intros _. constructor. intros d Hd. apply Hc2, D, Hd.
Qed.

Lemma detect_done adj fuel order col col' :
  detect_from adj fuel order col = Done col' →
  (∀ x, color_of col x ≠ Gray) →
  visited adj col col' ∧ ∀ n, n ∈ order → color_of col' n = Black.
Proof.
  revert col. induction order as [|n ns IH]; intros col H Hg; simpl in H.
  - simplify_eq. split; [auto with go | set_solver].
  - destruct (color_of col n) eqn:Hn.
    + destruct (dfs adj fuel n col) as [c1| |] eqn:Hd; try discriminate.
      destruct (dfs_done _ _ _ _ _ Hn Hd) as [V1 B1].
      destruct (IH _ H) as [V2 B2].
      { intros x Hx. by apply (Hg x), (visited_gray _ _ _ V1). }
      split; [eauto with go|]. intros x [->|Hx]%elem_of_cons; [|auto].
      rewrite (visited_keep _ _ _ V2); [done | congruence].
    + by destruct (Hg n).
    + destruct (IH _ H Hg) as [V2 B2]. split; [done|].
      intros x [->|Hx]%elem_of_cons; [|auto].
      rewrite (visited_keep _ _ _ V2); [done | congruence].
Qed.

(** ** A reported cycle is a cycle *)
Definition real_cycle (adj : adjacency) (e : dag_error) : Prop :=
  match e with
  | CycleDetected n d => edge adj n d ∧ rtc (edge adj) d n
  | UnknownDependency _ _ => False
  end.

Definition grays_reach (adj : adjacency) (col : colors) (n : string) : Prop :=
  ∀ g, color_of col g = Gray → rtc (edge adj) g n.

Lemma visit_deps_cycle adj rec name deps col e :
  rec_spec adj rec →
  (∀ n c, color_of c n = White → grays_reach adj c n → rec n c = Cycle e → real_cycle adj e) →
  (∀ d, d ∈ deps → edge adj name d) →
  grays_reach adj col name →
  visit_deps rec name deps col = Cycle e → real_cycle adj e.
Proof.
  intros Hdone Hrec. revert col. induction deps as [|d ds IH]; intros col He Hg H; simpl in H.
  { discriminate. }
  assert (edge adj name d) as Hed by set_solver.
  destruct (color_of col d) eqn:Hd.
  - destruct (rec d col) as [c1|e1|] eqn:Hr; try discriminate.
    + destruct (Hdone _ _ _ Hd Hr) as [V1 _]. apply (IH c1); [set_solver| |done].
      intros g Hgr. apply Hg, (visited_gray _ _ _ V1), Hgr.
    + simplify_eq. apply (Hrec d col); [done| |done].
      intros g Hgr. eapply rtc_r; eauto.
  - simplify_eq. split; [done|]. by apply Hg.
  - apply (IH col); [set_solver|done|done].
Qed.

Lemma dfs_cycle adj fuel n col e :
  color_of col n = White → grays_reach adj col n →
  dfs adj fuel n col = Cycle e → real_cycle adj e.
Proof.
  revert n col. induction fuel as [|fuel IH]; intros n col Hw Hg H; simpl in H; [done|].
  destruct (visit_deps _ _ _ _) as [c2|e2|] eqn:Hv; try discriminate. simplify_eq.
  eapply visit_deps_cycle; [apply dfs_done|apply IH| | |apply Hv]; [done|].
  intros g. rewrite color_of_insert. case_decide; subst; [by constructor|auto].
Qed.

Lemma detect_cycle_real adj fuel order col e :
  (∀ x, color_of col x ≠ Gray) →
  detect_from adj fuel order col = Cycle e → real_cycle adj e.
Proof.
  revert col. induction order as [|n ns IH]; intros col Hg H; simpl in H; [done|].
  destruct (color_of col n) eqn:Hn; [|by destruct (Hg n)|by apply (IH col)].
  destruct (dfs adj fuel n col) as [c1|e1|] eqn:Hd; try discriminate.
  - apply (IH c1); [|done]. destruct (dfs_done _ _ _ _ _ Hn Hd) as [V _].
    intros x Hx. by apply (Hg x), (visited_gray _ _ _ V).
  - simplify_eq. eapply dfs_cycle; [done| |done]. intros g Hgr. by destruct (Hg g).
Qed.

(** ** Fuel: the white nodes of the graph decrease along the recursion *)
Definition whites (U : gset string) (col : colors) : gset string :=
  filter (λ n, color_of col n = White) U.

Lemma whites_visited adj U c1 c2 : visited adj c1 c2 → whites U c2 ⊆ whites U c1.
Proof.
  intros V x. unfold whites. rewrite !elem_of_filter. intros [Hx HU]. split; [|done].
  destruct (decide (color_of c1 x = White)) as [|Hne]; [done|].
  rewrite (visited_keep _ _ _ V x Hne) in Hx. congruence.
Qed.

Lemma whites_gray U col n :
  n ∈ U → color_of col n = White →
  (size (whites U (<[n := Gray]> col)) < size (whites U col))%nat.
Proof.
  intros HU Hw. apply subset_size. unfold whites. split.
  - intros x. rewrite !elem_of_filter, color_of_insert. case_decide; [|done].
    by intros [? _].
  - intros H. specialize (H n). rewrite !elem_of_filter, color_of_insert_eq in H.
    by destruct (H (conj Hw HU)).
Qed.

Lemma visit_deps_fuel adj (U : gset string) rec k name deps col :
  rec_spec adj rec →
  (∀ n c, n ∈ U → color_of c n = White → (size (whites U c) < k)%nat → rec n c ≠ OutOfFuel) →
  (∀ d, d ∈ deps → d ∈ U) → (size (whites U col) < k)%nat →
  visit_deps rec name deps col ≠ OutOfFuel.
Proof.
  intros Hdone Hrec. revert col. induction deps as [|d ds IH]; intros col HU Hk; simpl; [done|].
  destruct (color_of col d) eqn:Hd; [|done|apply IH; set_solver].
  destruct (rec d col) as [c1| |] eqn:Hr; [|done|].
  - destruct (Hdone _ _ _ Hd Hr) as [V _]. apply IH; [set_solver|].
    pose proof (subseteq_size _ _ (whites_visited adj U _ _ V)). lia.
  - destruct (Hrec d col); [set_solver|done|lia|done].
Qed.

Lemma dfs_enough adj (U : gset string) fuel n col :
  (∀ n d, edge adj n d → d ∈ U) →
  n ∈ U → color_of col n = White → (size (whites U col) < fuel)%nat →
  dfs adj fuel n col ≠ OutOfFuel.
Proof.
  intros HU. revert n col. induction fuel as [|fuel IH]; intros n col Hn Hw Hf; [lia|].
  simpl. destruct (visit_deps _ _ _ _) as [c2| |] eqn:Hv; [done|done|].
  exfalso. eapply (visit_deps_fuel adj U _ fuel); [apply dfs_done|apply IH| | |apply Hv].
  - intros d Hd. by apply (HU n).
  - pose proof (whites_gray U col n Hn Hw). lia.
Qed.

Lemma detect_enough adj (U : gset string) fuel order col :
  (∀ n d, edge adj n d → d ∈ U) → (∀ n, n ∈ order → n ∈ U) →
  (size U < fuel)%nat → detect_from adj fuel order col ≠ OutOfFuel.
Proof.
  intros HU. revert col. induction order as [|n ns IH]; intros col Ho Hf; simpl; [done|].
  assert (∀ c, detect_from adj fuel ns c ≠ OutOfFuel) as IHns.
  { intros c. apply IH; [set_solver|done]. }
  destruct (color_of col n) eqn:Hn; [|apply IHns..].
  destruct (dfs adj fuel n col) as [c1| |] eqn:Hd; [apply IHns|done|].
  exfalso. apply (dfs_enough adj U fuel n col); [done|set_solver|done| |done].
  assert (whites U col ⊆ U) as Hs by (unfold whites; set_solver).
  pose proof (subseteq_size _ _ Hs). lia.
Qed.

Lemma graph_nodes_key adj n : is_Some (adj !! n) → n ∈ graph_nodes adj.
Proof. intros H. unfold graph_nodes. apply elem_of_union_l, elem_of_dom, H. Qed.

Lemma graph_nodes_dep adj n d : edge adj n d → d ∈ graph_nodes adj.
Proof.
  unfold edge, deps_of, graph_nodes. intros H. apply elem_of_union_r, elem_of_list_to_set.
  destruct (adj !! n) as [ds|] eqn:E; [|set_solver].
  apply list_elem_of_In, in_concat. exists ds. split.
  - apply list_elem_of_In, list_elem_of_fmap. exists (n, ds).
    split; [done|]. by apply elem_of_map_to_list.
  - by apply list_elem_of_In.
Qed.

(** ** Acyclicity *)
Lemma grounded_no_cycle adj n : grounded adj n → ¬ tc (edge adj) n n.
Proof.
  induction 1 as [n _ IH]. intros Hc. inversion Hc as [? ? E|? d ? E T]; subst.
  - by apply (IH n).
  - apply (IH d E). eapply tc_rtc_r; [exact T|]. by apply rtc_once.
Qed.

Lemma real_cycle_not_acyclic adj e : real_cycle adj e → ¬ acyclic adj.
Proof.
  destruct e as [|n d]; simpl; [done|]. intros [He Hr] Hac.
  apply (Hac n). eapply tc_rtc_r; [apply tc_once, He|done].
Qed.

Lemma grounded_of_detect adj fuel order col :
  detect_from adj fuel order ∅ = Done col → range_order adj order →
  ∀ n, grounded adj n.
Proof.
  intros H [_ Ho] n. destruct (detect_done _ _ _ _ _ H) as [V B]; [by intros x|].
  assert (∀ x, color_of col x = Black → grounded adj x) as Hb
    by (apply (visited_black _ _ _ V); by intros x).
  destruct (adj !! n) eqn:E; [apply Hb, B, Ho; eauto|].
  constructor. unfold edge, deps_of. rewrite E. set_solver.
Qed.

(** The verdict of the search, with the termination argument discharged. *)
Lemma DetectCycle_cases adj order :
  range_order adj order →
  (DetectCycle adj order = Some (Ok ()) ∧ ∀ n, grounded adj n) ∨
  (∃ e, DetectCycle adj order = Some (Err e) ∧ real_cycle adj e).
Proof.
  intros Ho. unfold DetectCycle.
  destruct (detect_from adj (dfs_fuel adj) order ∅) as [col|e|] eqn:H.
  - left. split; [done|]. by eapply grounded_of_detect.
  - right. exists e. split; [done|]. eapply detect_cycle_real; [|apply H]. by intros x.
  - exfalso. revert H. apply (detect_enough adj (graph_nodes adj)).
    + intros n d. apply graph_nodes_dep.
    + intros n Hn. apply graph_nodes_key, Ho, Hn.
    + unfold dfs_fuel. lia.
Qed.

(** ** The properties of the component *)

(** C30: [DetectCycle] terminates and decides acyclicity: for every order in which the
    map may be ranged over, it returns nil exactly when no step can reach itself, and
    otherwise the error it reports names an edge that closes a real cycle. *)
Theorem DetectCycle_correct (adj : gmap string (list string)) (order : list string) :
  range_order adj order →
  (DetectCycle adj order = Some (Ok ()) ↔ acyclic adj) ∧
  (DetectCycle adj order ≠ Some (Ok ()) →
     ∃ n d, DetectCycle adj order = Some (Err (CycleDetected n d)) ∧
            edge adj n d ∧ rtc (edge adj) d n).
Proof.
  intros Ho. destruct (DetectCycle_cases adj order Ho) as [[E G]|(e & E & R)]; rewrite E.
  - split; [|done]. split; [|done]. intros _ n. apply grounded_no_cycle, G.
  - split; [split; [done|]|].
    + intros Hac. by destruct (real_cycle_not_acyclic _ _ R).
    + intros _. destruct e as [|n d]; [done|]. destruct R. eauto.
Qed.

(** ** Lemmas on validation *)
Lemma first_unknown_None names role deps :
  first_unknown names role deps = None ↔ ∀ d, d ∈ deps → d ∈ names.
Proof.
  induction deps as [|d ds IH]; simpl; [set_solver|].
  case_decide; [rewrite IH|]; set_solver.
Qed.

Lemma first_unknown_Some names role deps e :
  first_unknown names role deps = Some e →
  ∃ d, e = UnknownDependency role d ∧ d ∈ deps ∧ d ∉ names.
Proof.
  induction deps as [|d ds IH]; simpl; [done|].
  case_decide.
  - intros (x & -> & ? & ?)%IH. exists x. set_solver.
  - intros [= <-]. exists d. set_solver.
Qed.

Lemma first_unknown_step_None names pipeline :
  first_unknown_step names pipeline = None ↔
  ∀ s d, s ∈ pipeline → d ∈ DependsOn s → d ∈ names.
Proof.
  induction pipeline as [|s rest IH]; simpl; [set_solver|].
  destruct (first_unknown _ _ _) as [e|] eqn:E.
  - split; [done|]. intros H1. apply first_unknown_Some in E as (d & -> & Hd & Hn).
    destruct Hn. apply (H1 s); [left|done].
  - rewrite IH. rewrite first_unknown_None in E. split.
    + intros H1 s' d [->|Hs]%elem_of_cons; [apply E|by apply (H1 s')].
    + intros H1 s' d Hs. apply (H1 s'). by right.
Qed.

Lemma first_unknown_step_Some names pipeline e :
  first_unknown_step names pipeline = Some e →
  ∃ s d, e = UnknownDependency (Role s) d ∧ s ∈ pipeline ∧ d ∈ DependsOn s ∧ d ∉ names.
Proof.
  induction pipeline as [|s rest IH]; simpl; [done|].
  destruct (first_unknown _ _ _) as [e'|] eqn:E.
  - intros [= ->]. apply first_unknown_Some in E as (d & -> & ? & ?).
    exists s, d. set_solver.
  - intros (s' & d & -> & ? & ? & ?)%IH. exists s', d. set_solver.
Qed.

Lemma elem_of_pipeline_names pipeline n :
  n ∈ pipeline_names pipeline ↔ n ∈ Role <$> pipeline.
Proof. unfold pipeline_names. by rewrite elem_of_list_to_set. Qed.

Lemma first_unknown_step_known pipeline :
  first_unknown_step (pipeline_names pipeline) pipeline = None ↔ deps_known pipeline.
Proof.
  rewrite first_unknown_step_None. unfold deps_known.
  by setoid_rewrite elem_of_pipeline_names.
Qed.

(** The map holds the dependencies of some step of the role, also when several steps have it. *)
Lemma pipeline_adj_from (adj : adjacency) pipeline n :
  n ∈ (Role <$> pipeline) →
  ∃ s, s ∈ pipeline ∧ Role s = n ∧
    foldl (λ (a : adjacency) step, <[Role step := DependsOn step]> a) adj pipeline !! n = Some (DependsOn s).
Proof.
  assert (∀ l (a : adjacency), n ∉ (Role <$> l) →
    foldl (λ (a : adjacency) step, <[Role step := DependsOn step]> a) a l !! n = a !! n) as Hother.
  { induction l as [|x l IH]; intros a Hn; simpl; [done|].
    rewrite IH by set_solver. apply lookup_insert_ne. set_solver. }
  revert adj. induction pipeline as [|x l IH]; intros adj; simpl; [set_solver|].
  intros Hn. destruct (decide (n ∈ (Role <$> l))) as [Hl|Hl].
  - destruct (IH (<[Role x := DependsOn x]> adj) Hl) as (s & ? & ? & ?). exists s. set_solver.
  - exists x. rewrite Hother by done. assert (n = Role x) as -> by set_solver.
    rewrite lookup_insert_eq. set_solver.
Qed.

Lemma pipeline_adj_lookup pipeline s :
  s ∈ pipeline → ∃ s', s' ∈ pipeline ∧ Role s' = Role s ∧ pipeline_adj pipeline !! Role s = Some (DependsOn s').
Proof. intros Hs. apply pipeline_adj_from. by apply list_elem_of_fmap_2. Qed.

Lemma validate_Ok pipeline order :
  range_order (pipeline_adj pipeline) order →
  validatePipelineDAG pipeline order = Some (Ok ()) →
  deps_known pipeline ∧ ∀ n, grounded (pipeline_adj pipeline) n.
Proof.
  unfold validatePipelineDAG. intros Ho.
  destruct (first_unknown_step _ _) eqn:E; [done|]. intros H1.
  split; [by apply first_unknown_step_known|].
  destruct (DetectCycle_cases _ _ Ho) as [[_ G]|(e & E' & _)]; [done|congruence].
Qed.

(** pipeline validation always returns, and accepts exactly the pipelines whose
    dependencies all name a step and whose dependency graph is acyclic; a rejected
    pipeline is reported with a dependency that is really missing or with an edge of
    a real cycle. *)
Theorem validatePipelineDAG_correct (pipeline : list SwarmTeamPipelineStep)
    (order : list string) :
  range_order (pipeline_adj pipeline) order →
  (validatePipelineDAG pipeline order = Some (Ok ()) ↔
     deps_known pipeline ∧ acyclic (pipeline_adj pipeline)) ∧
  (∀ e, validatePipelineDAG pipeline order = Some (Err e) →
     match e with
     | UnknownDependency r d =>
         (∃ s, s ∈ pipeline ∧ Role s = r ∧ d ∈ DependsOn s) ∧ d ∉ Role <$> pipeline
     | CycleDetected n d =>
         edge (pipeline_adj pipeline) n d ∧ rtc (edge (pipeline_adj pipeline)) d n
     end) ∧
  validatePipelineDAG pipeline order ≠ None.
Proof.
  intros Ho. pose proof (first_unknown_step_known pipeline) as K. unfold validatePipelineDAG.
  destruct (first_unknown_step _ _) as [e|] eqn:E.
  - apply first_unknown_step_Some in E as (s & d & -> & Hs & Hd & Hn).
    split; [|split; [|done]].
    + split; [done|]. intros [Hk _]. destruct K as [_ K]. by specialize (K Hk).
    + intros e [= <-]. rewrite <- elem_of_pipeline_names. eauto.
  - destruct (DetectCycle_cases _ _ Ho) as [[E' G]|(e & E' & R)]; rewrite E'.
    + split; [|split; done]. split; [|done]. intros _. split; [by apply K|].
      intros n. apply grounded_no_cycle, G.
    + split; [|split; [|done]].
      * split; [done|]. intros [_ A]. by destruct (real_cycle_not_acyclic _ _ R).
      * intros e' [= <-]. by destruct e.
Qed.

(** ** Lemmas on the status index *)
Lemma build_status_from_spec i steps m name :
  (∀ j st, steps !! j = Some st → step_Name st = name →
     (∀ k st', (j < k)%nat → steps !! k = Some st' → step_Name st' ≠ name) →
     build_status_from i steps m !! name = Some (i + j)%nat) ∧
  ((∀ j st, steps !! j = Some st → step_Name st ≠ name) →
     build_status_from i steps m !! name = m !! name).
Proof.
  revert i m. induction steps as [|s rest IH]; intros i m; simpl; [by split|].
  split.
  - intros [|j] st Hj Hn Hlast; simplify_eq/=.
    + rewrite (proj2 (IH (S i) _)).
      * rewrite lookup_insert_eq. f_equal. lia.
      * intros k st' Hk. apply (Hlast (S k) st'); [lia|done].
    + rewrite (proj1 (IH (S i) _) j st Hj eq_refl); [f_equal; lia|].
      intros k st' Hk Hl. apply (Hlast (S k) st'); [lia|done].
  - intros Hno. rewrite (proj2 (IH (S i) _)).
    + apply lookup_insert_ne, (Hno 0%nat s eq_refl).
    + intros j st Hj. apply (Hno (S j) st Hj).
Qed.

(** [st] is the step the index maps [name] to: the last one of that name. *)
Definition last_named (steps : list PipelineStepStatus) (name : string)
    (st : PipelineStepStatus) : Prop :=
  ∃ j, steps !! j = Some st ∧ step_Name st = name ∧
       ∀ k st', (j < k)%nat → steps !! k = Some st' → step_Name st' ≠ name.

Lemma last_named_dec steps name :
  (∃ st, last_named steps name st) ∨ (∀ j st, steps !! j = Some st → step_Name st ≠ name).
Proof.
  induction steps as [|s rest [(st & j & Hj & Hn & Hl)|Hno]].
  - right. by intros j st.
  - left. exists st, (S j). split; [done|]. split; [done|].
    intros [|k] st' Hk; [lia|]. apply Hl. lia.
  - destruct (decide (step_Name s = name)) as [Hs|Hs].
    + left. exists s, 0%nat. split; [done|]. split; [done|].
      intros [|k] st' Hk; [lia|]. apply Hno.
    + right. intros [|j] st; simpl; [by intros [= <-]|apply Hno].
Qed.

Lemma status_at_last f name st :
  status_at (Steps (Status f)) (BuildRunStatusByName f) name = Some st ↔
  last_named (Steps (Status f)) name st.
Proof.
  unfold status_at, BuildRunStatusByName. set (steps := Steps (Status f)).
  destruct (last_named_dec steps name) as [(st' & j & Hj & Hn & Hl)|Hno].
  - rewrite (proj1 (build_status_from_spec 0 steps ∅ name) j st' Hj Hn Hl). simpl.
    split; [intros; exists j; simplify_eq; done|].
    intros (k & Hk & Hkn & Hkl). destruct (decide (j = k)) as [->|Hjk]; [done|].
    destruct (decide (j < k)%nat); [by destruct (Hl k st)|].
    by destruct (Hkl j st'); [lia|..].
  - rewrite (proj2 (build_status_from_spec 0 steps ∅ name) Hno), lookup_empty.
    split; [done|]. intros (j & Hj & Hn & _). by destruct (Hno j st).
Qed.

Lemma DepsSucceeded_true deps steps m :
  DepsSucceeded deps steps m = true ↔
  ∀ d, d ∈ deps → ∃ st, status_at steps m d = Some st ∧ step_done st = true.
Proof.
  induction deps as [|d ds IH]; simpl; [set_solver|].
  destruct (status_at steps m d) as [st|] eqn:E; [destruct (step_done st) eqn:D|].
  - rewrite IH. split; [|set_solver].
    intros H1 x [->|Hx]%elem_of_cons; [eauto|by apply H1].
  - split; [done|]. intros H1. destruct (H1 d) as (? & ? & ?); [left|congruence].
  - split; [done|]. intros H1. destruct (H1 d) as (? & ? & ?); [left|congruence].
Qed.

(** a dependency list is satisfied exactly when the last recorded status of every
    dependency is Succeeded or Skipped; a dependency with no status blocks the step. *)
Theorem DepsSucceeded_spec (f : SwarmRun) (deps : list string) :
  DepsSucceeded deps (Steps (Status f)) (BuildRunStatusByName f) = true ↔
  ∀ d, d ∈ deps → ∃ st, last_named (Steps (Status f)) d st ∧
    (step_Phase st = StepSucceeded ∨ step_Phase st = StepSkipped).
Proof.
  rewrite DepsSucceeded_true. setoid_rewrite status_at_last.
  split; intros H1 d Hd; destruct (H1 d Hd) as (st & Hl & Hs); exists st;
    (split; [done|]); unfold step_done in *.
  - destruct (step_Phase st); auto; done.
  - by destruct Hs as [-> | ->].
Qed.

(** The done test of one step, and the readiness test the scheduler applies to it. *)
Definition step_finished (f : SwarmRun) (s : SwarmTeamPipelineStep) : bool :=
  DepsSucceeded [Role s] (Steps (Status f)) (BuildRunStatusByName f).
Definition step_ready (f : SwarmRun) (s : SwarmTeamPipelineStep) : bool :=
  DepsSucceeded (DependsOn s) (Steps (Status f)) (BuildRunStatusByName f).

Lemma unready_has_unfinished_dep f s :
  deps_known (Pipeline (Spec f)) → s ∈ Pipeline (Spec f) → step_ready f s = false →
  ∃ s', s' ∈ Pipeline (Spec f) ∧ Role s' ∈ DependsOn s ∧ step_finished f s' = false.
Proof.
  intros Hk Hs R.
  assert (Exists (λ d, DepsSucceeded [d] (Steps (Status f)) (BuildRunStatusByName f) ≠ true)
    (DependsOn s)) as (d & Hin & Hf)%Exists_exists.
  { apply not_Forall_Exists; [intros d; apply _|]. rewrite Forall_forall. intros Hall.
    apply not_true_iff_false in R. apply R, DepsSucceeded_true. intros d Hd.
    specialize (Hall d Hd). rewrite DepsSucceeded_true in Hall. apply Hall. left. }
  destruct (list_elem_of_fmap_1 _ _ _ (Hk _ _ Hs Hin)) as (s1 & -> & Hs1).
  exists s1. split; [done|]. split; [done|]. by apply not_true_iff_false.
Qed.

(** C26: no deadlock in a validated pipeline: while some step is not done, there is a
    step that is not done and whose dependencies are all satisfied, so it can be
    submitted.  The pipeline may have several steps of one role: they share a status. *)
Theorem validated_pipeline_progress (f : SwarmRun) (order : list string) :
  range_order (pipeline_adj (Pipeline (Spec f))) order →
  ValidateRunDAG f order = Some (Ok ()) →
  (∃ s, s ∈ Pipeline (Spec f) ∧ step_finished f s = false) →
  ∃ s, s ∈ Pipeline (Spec f) ∧ step_finished f s = false ∧ step_ready f s = true.
Proof.
  intros Ho Hv (s & Hs & Hd). destruct (validate_Ok _ _ Ho Hv) as [Hk Hg].
  remember (Role s) as n eqn:Hn. revert s Hs Hd Hn.
  induction (Hg n) as [n _ IH]. intros s Hs Hd ->.
  destruct (pipeline_adj_lookup _ _ Hs) as (s0 & Hs0 & Hr & Hadj).
  assert (step_finished f s0 = false) as Hd0 by (unfold step_finished in *; by rewrite Hr).
  destruct (step_ready f s0) eqn:R; [eauto|].
  destruct (unready_has_unfinished_dep f s0 Hk Hs0 R) as (s1 & Hs1 & Hin & Hf).
  apply (IH (Role s1)) with s1; [|done..].
  unfold edge, deps_of. by rewrite Hadj.
Qed.

(** ** Witnesses *)
Lemma DetectCycle_correct_witness :
  acyclic {[ "a" := ["b"; "c"]; "b" := ["c"] ]} ∧
  ¬ acyclic {[ "a" := ["b"]; "b" := ["c"]; "c" := ["a"] ]}.
Proof.
  split.
  - apply (DetectCycle_correct _ _ (range_order_keys _)). vm_compute. reflexivity.
  - intros H. apply (DetectCycle_correct _ _ (range_order_keys _)) in H.
    vm_compute in H. discriminate.
Defined.

Definition sample_pipeline : list SwarmTeamPipelineStep :=
  [plain_step "a" []; plain_step "b" ["a"]; plain_step "c" ["a"; "b"]].

Lemma validatePipelineDAG_correct_witness :
  deps_known sample_pipeline ∧ acyclic (pipeline_adj sample_pipeline).
Proof.
  apply (validatePipelineDAG_correct sample_pipeline _ (range_order_keys _)).
  vm_compute. reflexivity.
Defined.

Definition sample_run (steps : list PipelineStepStatus) : SwarmRun :=
  mkSwarmRun "r" "ns" 1
    (mkSwarmRunSpec "team" "" "" 0 ∅ "" sample_pipeline None [] "" None None 60 1000)
    (mkSwarmRunStatus RunRunning steps "" (Some 0%Z) None None "" None 0 []).

Lemma validated_pipeline_progress_witness :
  ∃ s, s ∈ sample_pipeline ∧
    step_finished (sample_run [new_step "a" StepSucceeded; new_step "b" StepPending]) s = false ∧
    step_ready (sample_run [new_step "a" StepSucceeded; new_step "b" StepPending]) s = true.
Proof.
  apply (validated_pipeline_progress
    (sample_run [new_step "a" StepSucceeded; new_step "b" StepPending])
    (keys_of (pipeline_adj sample_pipeline))).
  - apply range_order_keys.
  - vm_compute. reflexivity.
  - exists (plain_step "c" ["a"; "b"]). split; [|vm_compute; reflexivity].
    apply list_elem_of_In. simpl. auto.
Defined.
