(* ===== verification/Context.v ===== *)
(** * Context: context policies of step outputs (pkg/flow/step.go, second half).

    What becomes of a step's output before downstream steps see it: verbatim,
    dropped, extracted by a JSON key path or a regexp, or compressed by an LLM call.
    The regexp cache is modelled with its state in [getOrCompileRegexp]; the other
    functions compile directly, which [getOrCompileRegexp_transparent] justifies. *)
From Stdlib Require Import ZArith Lia Ascii.
From stdpp Require Import base tactics option list strings gmap.
From S2P Require Import Prelude GoStd Types.

(** ** Compression prompt *)
Definition DefaultCompressionPrompt : string :=
"You are a pipeline context compressor. Your only job is to distil the following step output into a compact, factually accurate summary that preserves the key findings, decisions, and data a downstream agent will need.

Rules:
- Do not add interpretation or opinion.
- Do not include tool call traces, intermediate reasoning, or retry attempts.
- Preserve specific values: numbers, names, URLs, identifiers, code snippets.
- Output plain text. No headers. No bullet lists unless the original used them.".

Definition ContextStrategyFull := "full".
Definition ContextStrategyCompress := "compress".
Definition ContextStrategyExtract := "extract".
Definition ContextStrategyNone := "none".

Definition buildCompressionPrompt (rawOutput : string)
    (cfg : option ContextCompressConfig) : string :=
  let systemHint :=
    match cfg with
    | Some c => if decide (compress_Prompt c = "") then DefaultCompressionPrompt
                else compress_Prompt c
    | None => DefaultCompressionPrompt
    end in
  let targetLine :=
    match cfg with
    | Some c => if TargetTokens c >? 0 then
        nl +:+ "- Stay within approximately " +:+ itoa (TargetTokens c) +:+ " tokens."
      else ""
    | None => ""
    end in
  systemHint +:+ targetLine +:+ nl +:+ nl +:+ "Step output to compress:" +:+ nl +:+ rawOutput.

(** [(len(s) + 3) / 4] on int; the length of a string is below 2^63 - 3. *)
Definition approximateTokens (s : string) : Z := (str_len s + 3) / 4.

Record ApplyContextPolicyResult := mkPolicyResult {
  Output : string;
  RawOutput : string;
  NeedsCompression : bool;
  CompressionModel : string;
  CompressionPrompt : string }.

Definition plain_result (out : string) : ApplyContextPolicyResult :=
  mkPolicyResult out "" false "" "".

(** A value read from Redis. *)
Inductive redis_value := RInt64 (z : Z) | RString (s : string) | ROther.

Definition ToInt64 (v : redis_value) : Z :=
  match v with
  | RInt64 z => z
  | RString s => ParseInt64 s
  | ROther => 0
  end.

Definition ApplyCompressionResult (st : PipelineStepStatus) (compressed : string)
    : PipelineStepStatus :=
  st <| step_Output := compressed |>
     <| step_CompressionTokens := approximateTokens compressed |>.

Section context.
Context {jsonApi : JsonApi} {regexpApi : RegexpApi} {floatText : FloatText}.

(** ** Extraction *)
Definition json_leaf (cur : any) : option string :=
  match cur with
  | AString s => Some s
  | AFloat f =>
      if f64_eqb f (f64_of_Z (f64_to_int64 f)) then Some (itoa (f64_to_int64 f))
      else Some (FormatFloat f)
  | ABool b => Some (if b then "true" else "false")
  | ANil => Some "null"
  | v => match json_Marshal v with Ok b => Some b | Err _ => None end
  end.

Fixpoint json_walk (keys : list string) (cur : any) : option any :=
  match keys with
  | [] => Some cur
  | key :: rest =>
      match cur with
      | AMap m =>
          match amap_get m key with
          | Some v => json_walk rest v
          | None => None
          end
      | _ => None
      end
  end.

Definition jsonGet (jsonStr path : string) : option string :=
  match json_Unmarshal jsonStr with
  | Err _ => None
  | Ok raw =>
      match json_walk (split_byte "." path) raw with
      | Some cur => json_leaf cur
      | None => None
      end
  end.

(** The cache of compiled patterns, a [sync.Map] in the source. *)
Definition getOrCompileRegexp (cache : gmap string Regexp) (pattern : string)
    : result string Regexp * gmap string Regexp :=
  match cache !! pattern with
  | Some re => (Ok re, cache)
  | None =>
      match regexp_Compile pattern with
      | Err e => (Err e, cache)
      | Ok re => (Ok re, <[pattern := re]> cache)
      end
  end.

Definition applyExtract (output path : string) : string :=
  let trimmed := TrimSpace output in
  let via_json :=
    if HasPrefix trimmed "{" || HasPrefix trimmed "[" then jsonGet trimmed path else None in
  match via_json with
  | Some v => v
  | None =>
      match regexp_Compile path with
      | Err _ => output
      | Ok re =>
          match FindStringSubmatch re output with
          | [] => output
          | [whole] => whole
          | _ :: group :: _ => group
          end
      end
  end.

Definition ApplyContextPolicy (rawOutput : string) (policy : option StepContextPolicy)
    (pipelineDefaultModel : string) : ApplyContextPolicyResult :=
  match policy with
  | None => plain_result rawOutput
  | Some p =>
      if decide (Strategy p = "" ∨ Strategy p = ContextStrategyFull) then plain_result rawOutput
      else if decide (Strategy p = ContextStrategyNone) then
        mkPolicyResult "" rawOutput false "" ""
      else if decide (Strategy p = ContextStrategyExtract) then
        if decide (ExtractPath p = "") then plain_result rawOutput
        else mkPolicyResult (applyExtract rawOutput (ExtractPath p)) rawOutput false "" ""
      else if decide (Strategy p = ContextStrategyCompress) then
        if decide (rawOutput = "") then plain_result rawOutput
        else
          let model :=
            match Compress p with
            | Some c => if decide (compress_Model c = "") then pipelineDefaultModel
                        else compress_Model c
            | None => pipelineDefaultModel
            end in
          mkPolicyResult rawOutput rawOutput true model
            (buildCompressionPrompt rawOutput (Compress p))
      else plain_result rawOutput
  end.

(** [applyPolicyToOutput] of template.go, which completes the compression call. *)
Definition applyPolicyToOutput (output : string) (policy : option StepContextPolicy)
    (compressFn : option (string → string → result string string)) (defaultModel : string)
    : string :=
  match policy with
  | None => output
  | Some p =>
      if decide (Strategy p = "" ∨ Strategy p = ContextStrategyFull) then output
      else
        let r := ApplyContextPolicy output policy defaultModel in
        if NeedsCompression r then
          match compressFn with
          | None => output
          | Some fn =>
              match fn (CompressionModel r) (CompressionPrompt r) with
              | Ok compressed => compressed
              | Err _ => output
              end
          end
        else Output r
  end.

(** ** Specification vocabulary *)
(** Every cached entry is what compiling its key gives. *)
Definition cache_coherent (cache : gmap string Regexp) : Prop :=
  ∀ p re, cache !! p = Some re → regexp_Compile p = Ok re.

(** A sequence of lookups through the cache, as the process makes them. *)
Fixpoint compile_all (cache : gmap string Regexp) (patterns : list string)
    : list (result string Regexp) * gmap string Regexp :=
  match patterns with
  | [] => ([], cache)
  | p :: rest =>
      let '(r, cache1) := getOrCompileRegexp cache p in
      let '(rs, cache2) := compile_all cache1 rest in
      (r :: rs, cache2)
  end.

(** ** Theorems *)
Lemma getOrCompileRegexp_coherent cache p :
  cache_coherent cache →
  (getOrCompileRegexp cache p).1 = regexp_Compile p ∧
  cache_coherent (getOrCompileRegexp cache p).2.
Proof.
  intros Hc. unfold getOrCompileRegexp. destruct (cache !! p) as [re|] eqn:E.
  - simpl. split; [symmetry; by apply Hc|done].
  - destruct (regexp_Compile p) as [re|e] eqn:C; simpl; [|done].
    split; [done|]. intros q re'. rewrite lookup_insert. case_decide; subst; [|apply Hc].
    by intros [= <-].
Qed.

(** the regexp cache is invisible: any sequence of lookups that starts from the
    empty cache gives the results compiling each pattern afresh would give. *)
Theorem getOrCompileRegexp_transparent (patterns : list string) :
  (compile_all ∅ patterns).1 = regexp_Compile <$> patterns.
Proof.
  assert (∀ cache, cache_coherent cache →
    (compile_all cache patterns).1 = regexp_Compile <$> patterns) as H.
  { induction patterns as [|p ps IH]; intros cache Hc; [done|]. simpl.
    destruct (getOrCompileRegexp_coherent cache p Hc) as [H1 H2].
    destruct (getOrCompileRegexp cache p) as [r c1]. simpl in *. subst r.
    specialize (IH c1 H2). destruct (compile_all c1 ps) as [rs c2]. simpl in *.
    by rewrite IH. }
  apply H. intros p re. by rewrite lookup_empty.
Qed.

(** no strategy loses a step's output: the result either carries the output
    unchanged or keeps the original in [RawOutput]; and a compression call is
    requested exactly for a non-empty output under strategy compress, with the output
    left in place until the call returns. *)
Theorem ApplyContextPolicy_preserves (raw : string) (policy : option StepContextPolicy)
    (model : string) :
  let r := ApplyContextPolicy raw policy model in
  (Output r = raw ∨ RawOutput r = raw) ∧
  (NeedsCompression r = true ↔
     raw ≠ "" ∧ ∃ p, policy = Some p ∧ Strategy p = ContextStrategyCompress) ∧
  (NeedsCompression r = true → Output r = raw ∧ RawOutput r = raw ∧
     ∃ hint, CompressionPrompt r = hint +:+ raw).
Proof.
  intros r. subst r. unfold ApplyContextPolicy, plain_result.
  destruct policy as [p|]; simpl; [|naive_solver].
  destruct (decide (Strategy p = "" ∨ _)) as [Hf|Hf]; simpl.
  { split; [by left|]. split; [|done]. split; [done|].
    intros (_ & p' & [= <-] & Hs). rewrite Hs in Hf. by destruct Hf. }
  destruct (decide (Strategy p = ContextStrategyNone)) as [Hn|Hn]; simpl.
  { split; [by right|]. split; [|done]. split; [done|].
    intros (_ & p' & [= <-] & Hs). by rewrite Hs in Hn. }
  destruct (decide (Strategy p = ContextStrategyExtract)) as [He|He].
  { destruct (decide _); simpl; (split; [by (left + right)|]); (split; [|done]);
      (split; [done|]); intros (_ & p' & [= <-] & Hs); by rewrite Hs in He. }
  destruct (decide (Strategy p = ContextStrategyCompress)) as [Hc|Hc].
  - destruct (decide (raw = "")) as [->|Hr]; simpl; [naive_solver|].
    split; [by left|]. split; [naive_solver|]. intros _. split; [done|]. split; [done|].
    unfold buildCompressionPrompt. eexists. rewrite <- !str_app_assoc. reflexivity.
  - simpl. split; [by left|]. split; [|done]. naive_solver.
Qed.

End context.
