(* ===== verification/RunState.v ===== *)
(** * RunState: the run state machine (pkg/flow/phase.go and the first half of step.go).

    Initialisation of the step statuses, JSON outputs, loops, the timeout and token
    budget checks, and the transition to a terminal phase.  The clock is an argument
    ([metav1.Now()] at each call); the status-condition API of apimachinery is an
    interface with its documented law. *)
From Stdlib Require Import ZArith Lia Ascii.
From stdpp Require Import base tactics option list strings gmap.
From S2P Require Import Prelude GoStd Types Kube Dag Context Template.

Definition ConditionReady := "Ready".
Definition ConditionBudgetExceeded := "BudgetExceeded".

(** Writes below [f.Status], written as the Go assignments. *)
Definition set_status (f : SwarmRun) (s : SwarmRunStatus) : SwarmRun := f <| Status := s |>.
Definition set_phase (f : SwarmRun) (p : SwarmRunPhase) : SwarmRun :=
  set_status f ((Status f) <| Phase := p |>).
Definition set_completion (f : SwarmRun) (t : Z) : SwarmRun :=
  set_status f ((Status f) <| CompletionTime := Some t |>).
Definition set_steps (f : SwarmRun) (l : list PipelineStepStatus) : SwarmRun :=
  set_status f ((Status f) <| Steps := l |>).
Definition set_output (f : SwarmRun) (o : string) : SwarmRun :=
  set_status f ((Status f) <| status_Output := o |>).

Definition step_pending_or_running (st : PipelineStepStatus) : bool :=
  match step_Phase st with StepRunning | StepPending => true | _ => false end.

(** The loop of [SumRunStepTokens] over the token counts. *)
Definition sum_tokens (steps : list PipelineStepStatus) : Z * Z * Z :=
  foldl (λ '(i, o, t) st,
    match step_TokenUsage st with
    | Some u => (wrap64 (i + InputTokens u), wrap64 (o + OutputTokens u),
                 wrap64 (t + ThinkingTokens u))
    | None => (i, o, t)
    end) (0, 0, 0) steps.

(** [failed, allDone] after the loop of [UpdateRunPipelinePhase]. *)
Definition scan_phases (steps : list PipelineStepStatus) : bool * bool :=
  foldl (λ '(failed, allDone) st,
    match step_Phase st with
    | StepFailed => (true, allDone)
    | StepSucceeded | StepSkipped => (failed, allDone)
    | _ => (failed, false)
    end) (false, true) steps.

Definition IsDynamicMode (f : SwarmRun) : bool :=
  negb (String.eqb (TeamRef (Spec f)) "") && negb (String.eqb (Entry (Spec f)) "") &&
  match Pipeline (Spec f) with [] => true | _ => false end &&
  match Routing (Spec f) with None => true | Some _ => false end.

Definition loop_max (l : LoopSpec) : Z :=
  if MaxIterations l <=? 0 then 10 else MaxIterations l.

(** The reset of a step that loops again. *)
Definition restart_step (st : PipelineStepStatus) (maxIter : Z) : PipelineStepStatus :=
  let st := st <| step_Iterations ::= λ n, wrap64 (n + 1) |> in
  st <| step_Phase := StepPending |> <| step_TaskID := "" |> <| step_Output := "" |>
     <| step_OutputJSON := "" |> <| step_StartTime := None |> <| step_CompletionTime := None |>
     <| step_Message := "loop iteration " +:+ itoa (step_Iterations st) +:+ "/" +:+ itoa maxIter |>.

Section run.
Context {jsonApi : JsonApi} {templateApi : TemplateApi} {floatText : FloatText}
        {conditionApi : ConditionApi}.

Definition SetRunCondition (f : SwarmRun) (status : ConditionStatus) (reason message : string)
    : SwarmRun :=
  set_status f ((Status f) <| Conditions := SetStatusCondition (Conditions (Status f))
    (mkCondition ConditionReady status (Generation f) reason message) |>).

(** ** Initialisation (step.go) *)
Definition start_run (now : Z) (f : SwarmRun) : SwarmRun :=
  set_status f ((Status f) <| Phase := RunRunning |> <| StartTime := Some now |>).

Definition InitializeRunSteps (now : Z) (f : SwarmRun) : SwarmRun :=
  if decide (Phase (Status f) ≠ RunUnset) then f
  else
    let f := start_run now f in
    let f := set_steps f ((λ step, new_step (Role step) StepPending) <$> Pipeline (Spec f)) in
    SetRunCondition f ConditionTrue "Validated" "Pipeline DAG is valid; execution started".

Definition InitializeDynamicStep (now : Z) (f : SwarmRun) : SwarmRun :=
  if decide (Phase (Status f) ≠ RunUnset) then f
  else
    let f := start_run now f in
    let f := set_steps f [new_step "entry" StepPending] in
    SetRunCondition f ConditionTrue "Validated" "Dynamic mode; dispatching to entry role".

Definition InitializeRouteStep (now : Z) (f : SwarmRun) : SwarmRun :=
  if decide (Phase (Status f) ≠ RunUnset) then f
  else
    let f := start_run now f in
    let f := set_steps f [new_step "route" StepPending] in
    SetRunCondition f ConditionTrue "Validated" "Routed mode; awaiting dispatch to registry".

(** ** JSON outputs (step.go) *)
Definition valid_json (s : string) : bool := is_Ok (json_Unmarshal s).

Definition fence : string := "```".

(** The candidate that the first line opening an object or an array delimits. *)
Definition json_candidate (s line : string) : string :=
  match str_index s line with
  | None => ""
  | Some start =>
      let tail := str_drop start s in
      let candidate :=
        match str_index tail (nl +:+ fence) with
        | None => TrimSpace tail
        | Some stop => TrimSpace (str_take stop tail)
        end in
      if valid_json candidate then candidate else ""
  end.

Fixpoint scan_lines (s : string) (lines : list string) : string :=
  match lines with
  | [] => ""
  | line :: rest =>
      let line := TrimSpace line in
      if HasPrefix line fence then scan_lines s rest
      else if HasPrefix line "{" || HasPrefix line "[" then json_candidate s line
      else scan_lines s rest
  end.

Definition ExtractJSON (s : string) : string :=
  let s := TrimSpace s in
  if decide (s = "") then ""
  else if valid_json s then s
  else scan_lines s (split_byte newline s).

(** Names whose step declares an output schema. *)
Definition schema_names (pipeline : list SwarmTeamPipelineStep) : list string :=
  Role <$> filter (λ step, OutputSchema step ≠ "") pipeline.

Definition parse_step_json (st : PipelineStepStatus) : PipelineStepStatus :=
  if decide (step_Phase st ≠ StepSucceeded ∨ step_Output st = "" ∨ step_OutputJSON st ≠ "")
  then st
  else
    let raw := ExtractJSON (step_Output st) in
    if decide (raw = "") then st
    else if valid_json raw then st <| step_OutputJSON := raw |> else st.

(** One iteration of the range over [statusByName]. *)
Definition parse_named (pipeline : list SwarmTeamPipelineStep) (statusByName : gmap string nat)
    (steps : list PipelineStepStatus) (name : string) : list PipelineStepStatus :=
  if decide (name ∈ schema_names pipeline) then
    match statusByName !! name with
    | Some i => alter parse_step_json i steps
    | None => steps
    end
  else steps.

(** [order]: the order in which the map is ranged over. *)
Definition ParseRunOutputJSON (f : SwarmRun) (statusByName : gmap string nat)
    (order : list string) : SwarmRun :=
  set_steps f (foldl (parse_named (Pipeline (Spec f)) statusByName)
                 (Steps (Status f)) order).

(** ** Loops (step.go) *)
Definition loop_step (templateData : any) (statusByName : gmap string nat)
    (steps : list PipelineStepStatus) (step : SwarmTeamPipelineStep)
    : list PipelineStepStatus :=
  match Loop step with
  | None => steps
  | Some loop =>
      match statusByName !! Role step with
      | None => steps
      | Some i =>
          match steps !! i with
          | None => steps
          | Some st =>
              if decide (step_Phase st ≠ StepSucceeded) then steps
              else
                let maxIter := loop_max loop in
                if step_Iterations st >=? maxIter then steps
                else
                  match ResolveTemplate (Condition loop) templateData with
                  | Err _ => steps
                  | Ok condResult =>
                      if IsTruthy condResult then <[i := restart_step st maxIter]> steps
                      else steps
                  end
          end
      end
  end.

Definition EvaluateRunLoops (f : SwarmRun) (statusByName : gmap string nat)
    (templateData : any) : SwarmRun :=
  set_steps f (foldl (loop_step templateData statusByName) (Steps (Status f))
                 (Pipeline (Spec f))).

(** ** Totals, timeout and phase (phase.go) *)
Definition sum_cost (steps : list PipelineStepStatus) : f64 :=
  foldl (λ total st,
    if decide (step_CostUSD st = "") then total
    else match ParseFloat (step_CostUSD st) with
         | Some v => f64_add total v
         | None => total
         end) f64_zero steps.

Definition SumRunStepTokens (f : SwarmRun) : Z * SwarmRun :=
  let '(totalIn, totalOut, totalThinking) := sum_tokens (Steps (Status f)) in
  let totalCost := sum_cost (Steps (Status f)) in
  let f :=
    if (totalIn >? 0) || (totalOut >? 0) then
      set_status f ((Status f) <| TotalTokenUsage := Some (mkTokenUsage totalIn totalOut
        totalThinking (wrap64 (wrap64 (totalIn + totalOut) + totalThinking)) "") |>)
    else f in
  let f :=
    if f64_ltb f64_zero totalCost then
      set_status f ((Status f) <| TotalCostUSD := FormatFloat totalCost |>)
    else f in
  (wrap64 (totalIn + totalOut), f).

Definition timeout_message (f : SwarmRun) : string :=
  "pipeline exceeded timeout of " +:+ itoa (TimeoutSeconds (Spec f)) +:+ "s".

Definition fail_step (msg : string) (st : PipelineStepStatus) : PipelineStepStatus :=
  if step_pending_or_running st
  then st <| step_Phase := StepFailed |> <| step_Message := msg |> else st.

Definition EnforceRunTimeout (f : SwarmRun) (now : Z) : bool * SwarmRun :=
  match StartTime (Status f) with
  | None => (false, f)
  | Some start =>
      if TimeoutSeconds (Spec f) <=? 0 then (false, f)
      else
        let deadline := start + duration_seconds (TimeoutSeconds (Spec f)) in
        if negb (deadline <? now) then (false, f)
        else
          let msg := timeout_message f in
          let f := set_steps f (fail_step msg <$> Steps (Status f)) in
          let f := set_completion (set_phase f RunFailed) now in
          (true, SetRunCondition f ConditionFalse "TimedOut" msg)
  end.

Definition UpdateRunPipelinePhase (now : Z) (f : SwarmRun) (templateData : any) : SwarmRun :=
  let '(timedOut, f) := EnforceRunTimeout f now in
  if timedOut then f
  else
    let '(totalTokens, f) := SumRunStepTokens f in
    if (MaxTokens (Spec f) >? 0) && (totalTokens >? MaxTokens (Spec f)) then
      let f := set_completion (set_phase f RunFailed) now in
      SetRunCondition f ConditionFalse ConditionBudgetExceeded
        ("token budget of " +:+ itoa (MaxTokens (Spec f)) +:+ " exceeded: used " +:+
         itoa totalTokens)
    else
      match Steps (Status f) with
      | [] => f
      | _ =>
          let '(failed, allDone) := scan_phases (Steps (Status f)) in
          if failed then
            let f := set_completion (set_phase f RunFailed) now in
            SetRunCondition f ConditionFalse "StepFailed" "one or more steps failed"
          else if allDone then
            let f := set_completion (set_phase f RunSucceeded) now in
            let f :=
              if decide (spec_Output (Spec f) = "") then f
              else match ResolveTemplate (spec_Output (Spec f)) templateData with
                   | Ok out => set_output f out
                   | Err _ => set_output f ""
                   end in
            SetRunCondition f ConditionTrue "Succeeded" "all steps completed successfully"
          else f
      end.
End run.

(** ** Specification vocabulary *)
Definition timed_out (f : SwarmRun) (now : Z) : Prop :=
  0 < TimeoutSeconds (Spec f) ∧
  ∃ start, StartTime (Status f) = Some start ∧
           start + duration_seconds (TimeoutSeconds (Spec f)) < now.

(** The Ready condition of a run reports its phase. *)
Definition ready_reports `{!ConditionApi} (f : SwarmRun) (status : ConditionStatus) : Prop :=
  ∃ c, FindStatusCondition (Conditions (Status f)) ConditionReady = Some c ∧
       cond_Status c = status ∧ cond_ObservedGeneration c = Generation f.

Definition usage_of (st : PipelineStepStatus) : Z * Z * Z :=
  match step_TokenUsage st with
  | Some u => (InputTokens u, OutputTokens u, ThinkingTokens u)
  | None => (0, 0, 0)
  end.
Definition sum_by (g : PipelineStepStatus → Z) (steps : list PipelineStepStatus) : Z :=
  foldr (λ st acc, g st + acc) 0 steps.
Definition total_in := sum_by (λ st, (usage_of st).1.1).
Definition total_out := sum_by (λ st, (usage_of st).1.2).
Definition total_thinking := sum_by (λ st, (usage_of st).2).

(** The steps used more input and output tokens than the budget allows (an [int64] sum).  Thinking
    tokens are not part of it. *)
Definition over_budget (f : SwarmRun) : Prop :=
  0 < MaxTokens (Spec f) ∧
  MaxTokens (Spec f) < wrap64 (total_in (Steps (Status f)) + total_out (Steps (Status f))).

Definition usage_nonneg (steps : list PipelineStepStatus) : Prop :=
  ∀ st, st ∈ steps → 0 ≤ (usage_of st).1.1 ∧ 0 ≤ (usage_of st).1.2 ∧ 0 ≤ (usage_of st).2.

(** ** Lemmas: setters *)
Section run_lemmas.
Context {jsonApi : JsonApi} {templateApi : TemplateApi} {floatText : FloatText}
        {conditionApi : ConditionApi}.

Lemma SetRunCondition_status f s r m :
  Phase (Status (SetRunCondition f s r m)) = Phase (Status f) ∧
  Steps (Status (SetRunCondition f s r m)) = Steps (Status f) ∧
  CompletionTime (Status (SetRunCondition f s r m)) = CompletionTime (Status f) ∧
  Spec (SetRunCondition f s r m) = Spec f.
Proof. done. Qed.

Lemma SetRunCondition_ready {L : ConditionLaws conditionApi} f s r m :
  ready_reports (SetRunCondition f s r m) s.
Proof.
  unfold ready_reports, SetRunCondition, set_status. simpl.
  eexists. split; [apply (set_condition_find _ (mkCondition ConditionReady _ _ _ _))|done].
Qed.

(** ** Lemmas: timeout *)
Lemma EnforceRunTimeout_true f now :
  (EnforceRunTimeout f now).1 = true ↔ timed_out f now.
Proof.
  unfold EnforceRunTimeout, timed_out. destruct (StartTime (Status f)) as [start|].
  2: { split; [done|]. by intros (_ & ? & ? & _). }
  destruct (Z.leb_spec (TimeoutSeconds (Spec f)) 0); simpl.
  { split; [done|]. intros [? _]. lia. }
  destruct (Z.ltb_spec (start + duration_seconds (TimeoutSeconds (Spec f))) now); simpl.
  - split; [|done]. intros _. split; [lia|]. eauto.
  - split; [done|]. intros (_ & s & [= <-] & ?). lia.
Qed.

Lemma EnforceRunTimeout_false f now :
  (EnforceRunTimeout f now).1 = false → (EnforceRunTimeout f now).2 = f.
Proof. unfold EnforceRunTimeout. by repeat split_match. Qed.

Lemma EnforceRunTimeout_effect f now :
  (EnforceRunTimeout f now).1 = true →
  (EnforceRunTimeout f now).2 =
    SetRunCondition (set_completion (set_phase
      (set_steps f (fail_step (timeout_message f) <$> Steps (Status f))) RunFailed) now)
      ConditionFalse "TimedOut" (timeout_message f).
Proof. unfold EnforceRunTimeout. by repeat split_match. Qed.

(** the run timeout fires exactly when the configured number of seconds has elapsed
    since the start; it then fails the run, leaves no step Pending or Running, touches no
    other step, and reports it in the Ready condition.  When it does not fire nothing
    changes. *)
Theorem EnforceRunTimeout_spec {L : ConditionLaws conditionApi} (f : SwarmRun) (now : Z) :
  TimeoutSeconds (Spec f) ≤ 9223372036 →
  let '(fired, f') := EnforceRunTimeout f now in
  (fired = true ↔ 0 < TimeoutSeconds (Spec f) ∧
     ∃ start, StartTime (Status f) = Some start ∧
              start + TimeoutSeconds (Spec f) * second < now) ∧
  (fired = false → f' = f) ∧
  (fired = true →
     Phase (Status f') = RunFailed ∧ CompletionTime (Status f') = Some now ∧
     length (Steps (Status f')) = length (Steps (Status f)) ∧
     (∀ st', st' ∈ Steps (Status f') → step_pending_or_running st' = false) ∧
     (∀ i st, Steps (Status f) !! i = Some st → step_pending_or_running st = false →
        Steps (Status f') !! i = Some st) ∧
     ready_reports f' ConditionFalse).
Proof.
  intros HT. pose proof (EnforceRunTimeout_true f now) as Ht.
  pose proof (EnforceRunTimeout_false f now) as Hf.
  pose proof (EnforceRunTimeout_effect f now) as He.
  destruct (EnforceRunTimeout f now) as [fired f']. simpl in *.
  split; [|split; [done|]].
  - rewrite Ht. unfold timed_out.
    assert (0 < TimeoutSeconds (Spec f) →
      duration_seconds (TimeoutSeconds (Spec f)) = TimeoutSeconds (Spec f) * second) as E.
    { intros Hp. apply wrap_id; [lia|]. unfold in_width, min_int, max_int, second. lia. }
    split; intros [Hp (start & Hs & Hlt)]; rewrite E in *; eauto.
  - intros Hfire. rewrite (He Hfire). unfold SetRunCondition at 1 2 3 4 5.
    split; [done|]. split; [done|]. split; [apply length_fmap|]. split; [|split].
    + intros st' Hin. apply list_elem_of_fmap in Hin as (st & -> & _).
      unfold fail_step. by destruct (step_pending_or_running st) eqn:E.
    + intros i st Hi Hp. simpl. rewrite list_lookup_fmap, Hi. simpl.
      unfold fail_step. by rewrite Hp.
    + apply SetRunCondition_ready.
Qed.

(** [time.Duration(timeoutSeconds) * time.Second] overflows int64 beyond
    9223372036 seconds: a run with a larger timeout is failed as soon as it starts. *)
Theorem timeout_overflow_fires_at_start (f : SwarmRun) (start : Z) :
  TimeoutSeconds (Spec f) = 9223372037 → StartTime (Status f) = Some start →
  (EnforceRunTimeout f start).1 = true.
Proof.
  intros HT Hs. apply EnforceRunTimeout_true. split; [lia|]. exists start. split; [done|].
  rewrite HT. change (duration_seconds 9223372037) with (-9223372036709551616). lia.
Qed.

(** ** Lemmas: phases and totals *)
Lemma scan_phases_from steps failed allDone :
  foldl (λ '(failed, allDone) st,
    match step_Phase st with
    | StepFailed => (true, allDone)
    | StepSucceeded | StepSkipped => (failed, allDone)
    | _ => (failed, false)
    end) (failed, allDone) steps =
  (failed || existsb (λ st, bool_decide (step_Phase st = StepFailed)) steps,
   allDone && forallb (λ st, step_done st || bool_decide (step_Phase st = StepFailed)) steps).
Proof.
  revert failed allDone. induction steps as [|st steps IH]; intros failed allDone; simpl.
  { by rewrite orb_false_r, andb_true_r. }
  unfold step_done. destruct (step_Phase st); simpl; rewrite IH; simpl; f_equal;
    destruct failed, allDone; done.
Qed.

Lemma scan_phases_spec steps :
  ((scan_phases steps).1 = true ↔ ∃ st, st ∈ steps ∧ step_Phase st = StepFailed) ∧
  ((scan_phases steps).1 = false → (scan_phases steps).2 = true ↔
     ∀ st, st ∈ steps → step_done st = true).
Proof.
  unfold scan_phases. rewrite scan_phases_from. simpl.
  assert (existsb (λ st, bool_decide (step_Phase st = StepFailed)) steps = true ↔
    ∃ st, st ∈ steps ∧ step_Phase st = StepFailed) as He.
  { rewrite existsb_exists. setoid_rewrite <- list_elem_of_In.
    by setoid_rewrite bool_decide_eq_true. }
  split; [done|]. intros Hnf. rewrite forallb_forall. setoid_rewrite <- list_elem_of_In.
  split; intros Ha st Hin; specialize (Ha st Hin).
  - apply orb_true_iff in Ha as [|Hf]; [done|]. apply bool_decide_eq_true in Hf.
    apply not_true_iff_false in Hnf. destruct Hnf. apply He. eauto.
  - by rewrite Ha.
Qed.

Lemma SumRunStepTokens_frame f :
  let f' := (SumRunStepTokens f).2 in
  Phase (Status f') = Phase (Status f) ∧ Steps (Status f') = Steps (Status f) ∧
  Spec f' = Spec f ∧ Generation f' = Generation f ∧
  CompletionTime (Status f') = CompletionTime (Status f).
Proof.
  unfold SumRunStepTokens. destruct (sum_tokens _) as [[i o] t]. simpl.
  by repeat case_match.
Qed.

Lemma sum_tokens_wraps steps i o t i' o' t' :
  foldl (λ '(i, o, t) st,
    match step_TokenUsage st with
    | Some u => (wrap64 (i + InputTokens u), wrap64 (o + OutputTokens u), wrap64 (t + ThinkingTokens u))
    | None => (i, o, t)
    end) (i, o, t) steps = (i', o', t') →
  wrap64 (i' + o') = wrap64 (i + o + (total_in steps + total_out steps)).
Proof.
  revert i o t. induction steps as [|st steps IH]; intros i o t.
  { intros [= <- <- <-]. f_equal. unfold total_in, total_out, sum_by. simpl. lia. }
  simpl. intros H. unfold total_in, total_out. simpl. fold total_in total_out.
  change (sum_by (λ st, (usage_of st).1.1) steps) with (total_in steps).
  change (sum_by (λ st, (usage_of st).1.2) steps) with (total_out steps).
  unfold usage_of. destruct (step_TokenUsage st) as [u|]; apply IH in H; rewrite H; simpl.
  - rewrite <- Z.add_assoc, wrap_add_l, Z.add_comm, <- Z.add_assoc, wrap_add_l. f_equal; lia.
  - f_equal; lia.
Qed.

Lemma SumRunStepTokens_returned f :
  (SumRunStepTokens f).1 = wrap64 (total_in (Steps (Status f)) + total_out (Steps (Status f))).
Proof.
  unfold SumRunStepTokens. destruct (sum_tokens _) as [[i o] t] eqn:E. simpl.
  exact (sum_tokens_wraps _ _ _ _ _ _ _ E).
Qed.

Lemma over_budget_test f :
  (MaxTokens (Spec f) >? 0) && ((SumRunStepTokens f).1 >? MaxTokens (Spec f)) = true ↔
  over_budget f.
Proof. unfold over_budget. rewrite SumRunStepTokens_returned, andb_true_iff, !Z.gtb_lt. lia. Qed.

(** The final assignments of the success branch. *)
Lemma succeed_output f data :
  let f' := match ResolveTemplate (spec_Output (Spec f)) data with
            | Ok out => set_output f out
            | Err _ => set_output f ""
            end in
  let f2 := if decide (spec_Output (Spec f) = "") then f else f' in
  Phase (Status f2) = Phase (Status f) ∧ CompletionTime (Status f2) = CompletionTime (Status f).
Proof. simpl. repeat case_match; done. Qed.

(** What [UpdateRunPipelinePhase] leaves in a run, by cause. *)
Definition verdict (f f' : SwarmRun) (now : Z) (p : SwarmRunPhase) (c : ConditionStatus) : Prop :=
  Phase (Status f') = p ∧ CompletionTime (Status f') = Some now ∧ ready_reports f' c.

Lemma UpdateRunPipelinePhase_cases {L : ConditionLaws conditionApi} f now data :
  let f' := UpdateRunPipelinePhase now f data in
  (timed_out f now ∨ over_budget f ∨ (∃ st, st ∈ Steps (Status f) ∧ step_Phase st = StepFailed)) ∧
    verdict f f' now RunFailed ConditionFalse ∨
  (¬ timed_out f now ∧ ¬ over_budget f ∧ Steps (Status f) ≠ [] ∧
     ∀ st, st ∈ Steps (Status f) → step_done st = true) ∧
    verdict f f' now RunSucceeded ConditionTrue ∨
  (¬ timed_out f now ∧ ¬ over_budget f ∧
     (∀ st, st ∈ Steps (Status f) → step_Phase st ≠ StepFailed) ∧
     (Steps (Status f) = [] ∨ ∃ st, st ∈ Steps (Status f) ∧ step_done st = false)) ∧
    Phase (Status f') = Phase (Status f) ∧ CompletionTime (Status f') = CompletionTime (Status f).
Proof.
  intros f'. subst f'. unfold UpdateRunPipelinePhase, verdict.
  pose proof (EnforceRunTimeout_true f now) as Ht.
  destruct (EnforceRunTimeout f now) as [fired ft] eqn:E. simpl in Ht. destruct fired.
  { left. split; [left; by apply Ht|].
    pose proof (EnforceRunTimeout_effect f now) as He. rewrite E in He. simpl in He.
    rewrite (He eq_refl). split; [done|]. split; [done|]. apply SetRunCondition_ready. }
  assert (¬ timed_out f now) as Hnt by (rewrite <- Ht; done). clear Ht.
  pose proof (EnforceRunTimeout_false f now) as He. rewrite E in He. simpl in He.
  rewrite (He eq_refl). clear He E ft.
  pose proof (SumRunStepTokens_frame f) as (Hph & Hst & Hsp & Hg & Hct).
  pose proof (over_budget_test f) as Hb.
  destruct (SumRunStepTokens f) as [tokens fs]. simpl in *. rewrite Hsp.
  destruct (_ && _) eqn:EB.
  { left. split; [right; left; by apply Hb|].
    split; [done|]. split; [done|]. apply SetRunCondition_ready. }
  assert (¬ over_budget f) as Hnb by (rewrite <- Hb; done). clear Hb EB.
  rewrite Hst. pose proof (scan_phases_spec (Steps (Status f))) as [Hs1 Hs2].
  destruct (Steps (Status f)) as [|s0 rest] eqn:ES.
  { right; right. rewrite Hph, Hct. split; [|done].
    split; [done|]. split; [done|]. split; [set_solver|by left]. }
  assert (Steps (Status f) ≠ []) as Hne by congruence. rewrite <- ES in *. clear ES.
  destruct (scan_phases (Steps (Status f))) as [failed allDone]. simpl in *.
  destruct failed.
  { left. split; [right; right; by apply Hs1|]. split; [done|]. split; [done|].
    apply SetRunCondition_ready. }
  specialize (Hs2 eq_refl). destruct allDone.
  - right; left. split; [|split; [|split; [|apply SetRunCondition_ready]]].
    + split; [done|]. split; [done|]. split; [done|by apply Hs2].
    + simpl. repeat case_match; done.
    + simpl. repeat case_match; done.
  - right; right. rewrite Hph, Hct. split; [|done].
    split; [done|]. split; [done|]. split; [naive_solver|]. right.
    assert (Exists (λ st, step_done st ≠ true) (Steps (Status f))) as Hex.
    { apply not_Forall_Exists; [intros st; apply _|]. rewrite Forall_forall.
      intros Hall. by apply Hs2 in Hall. }
    apply Exists_exists in Hex as (st & Hin & Hd). exists st.
    split; [done|]. by apply not_true_iff_false.
Qed.

(** C25: the verdict on a running pipeline, on every branch: it succeeds exactly when it is
    within its timeout and token budget and all its (at least one) steps are Succeeded or
    Skipped; it fails exactly when it timed out, overran its budget or has a failed step;
    otherwise it keeps running.  The budget is one of input and output tokens: thinking tokens
    are not counted.  A terminal verdict always comes with a completion time
    and a Ready condition that is True exactly on success. *)
Theorem UpdateRunPipelinePhase_verdict {L : ConditionLaws conditionApi}
    (f : SwarmRun) (now : Z) (data : any) :
  Phase (Status f) = RunRunning →
  let f' := UpdateRunPipelinePhase now f data in
  (Phase (Status f') = RunSucceeded ↔
     ¬ timed_out f now ∧ ¬ over_budget f ∧ Steps (Status f) ≠ [] ∧
     ∀ st, st ∈ Steps (Status f) → step_done st = true) ∧
  (Phase (Status f') = RunFailed ↔
     timed_out f now ∨ over_budget f ∨
     ∃ st, st ∈ Steps (Status f) ∧ step_Phase st = StepFailed) ∧
  (IsTerminalRunPhase (Phase (Status f')) = false → Phase (Status f') = RunRunning) ∧
  (IsTerminalRunPhase (Phase (Status f')) = true →
     CompletionTime (Status f') = Some now ∧
     ready_reports f' (if decide (Phase (Status f') = RunSucceeded)
                       then ConditionTrue else ConditionFalse)).
Proof.
  intros Hrun f'.
  assert (∀ st, step_done st = true → step_Phase st ≠ StepFailed) as Hdf.
  { intros st. unfold step_done. by destruct (step_Phase st). }
  destruct (UpdateRunPipelinePhase_cases f now data) as
    [[Hwhy (Hp & Hc & Hr)]|[[(Ht & Hb & Hne & Hall) (Hp & Hc & Hr)]
    |[(Ht & Hb & Hnf & Hnd) [Hp Hc]]]]; fold f' in Hp, Hc |- *.
  - fold f' in Hr. rewrite Hp. simpl. split; [split; [done|]|].
    { intros (Ht & Hb & _ & Hall). destruct Hwhy as [|[|(st & Hin & Hf)]]; [done..|].
      by destruct (Hdf st (Hall st Hin)). }
    split; [done|]. split; [done|]. auto.
  - fold f' in Hr. rewrite Hp. simpl. split; [done|]. split; [split; [done|]|].
    { intros [|[|(st & Hin & Hf)]]; [done..|]. by destruct (Hdf st (Hall st Hin)). }
    split; [done|]. auto.
  - rewrite Hp, Hrun. simpl. split; [split; [done|]|].
    { intros (_ & _ & Hne & Hall). destruct Hnd as [|(st & Hin & Hd)]; [done|].
      rewrite (Hall st Hin) in Hd. done. }
    split; [split; [done|]|done].
    intros [|[|(st & Hin & Hf)]]; [done..|]. by destruct (Hnf st Hin).
Qed.

(** ** Lemmas: token sums *)
Lemma sum_by_nonneg g steps : (∀ st, st ∈ steps → 0 ≤ g st) → 0 ≤ sum_by g steps.
Proof.
  induction steps as [|st steps IH]; intros H; [done|].
  change (0 ≤ g st + sum_by g steps). pose proof (H st ltac:(left)).
  assert (0 ≤ sum_by g steps) by (apply IH; intros; apply H; by right). lia.
Qed.

Lemma wrap64_small z : 0 ≤ z < 2 ^ 63 → wrap64 z = z.
Proof. intros H. apply wrap_id; [lia|]. unfold in_width, min_int, max_int. lia. Qed.

Lemma sum_tokens_exact steps i o t :
  usage_nonneg steps → 0 ≤ i → 0 ≤ o → 0 ≤ t →
  i + total_in steps < 2 ^ 63 → o + total_out steps < 2 ^ 63 →
  t + total_thinking steps < 2 ^ 63 →
  foldl (λ '(i, o, t) st,
    match step_TokenUsage st with
    | Some u => (wrap64 (i + InputTokens u), wrap64 (o + OutputTokens u),
                 wrap64 (t + ThinkingTokens u))
    | None => (i, o, t)
    end) (i, o, t) steps =
  (i + total_in steps, o + total_out steps, t + total_thinking steps).
Proof.
  revert i o t. induction steps as [|st steps IH]; intros i o t Hn Hi Ho Ht Bi Bo Bt.
  { unfold total_in, total_out, total_thinking, sum_by. simpl. f_equal; [f_equal|]; lia. }
  assert (usage_nonneg steps) as Hn' by (intros s Hs; apply Hn; by right).
  destruct (Hn st ltac:(left)) as (G1 & G2 & G3).
  assert (0 ≤ total_in steps ∧ 0 ≤ total_out steps ∧ 0 ≤ total_thinking steps) as (P1 & P2 & P3).
  { split; [|split]; apply sum_by_nonneg; intros s Hs; apply Hn'; done. }
  unfold total_in, total_out, total_thinking in Bi, Bo, Bt |- *. simpl in *.
  fold (total_in steps) (total_out steps) (total_thinking steps).
  change (sum_by (λ st, (usage_of st).1.1) steps) with (total_in steps) in *.
  change (sum_by (λ st, (usage_of st).1.2) steps) with (total_out steps) in *.
  change (sum_by (λ st, (usage_of st).2) steps) with (total_thinking steps) in *.
  unfold usage_of in *. destruct (step_TokenUsage st) as [u|]; simpl in *.
  - rewrite !wrap64_small by lia. rewrite IH by (done || lia). f_equal; [f_equal|]; lia.
  - by rewrite IH by (done || lia).
Qed.

(** token totals: as long as the true sums fit int64, the recorded usage is the exact
    per-kind sum with [TotalTokens] adding all three kinds, while the number returned for
    the budget check leaves the thinking tokens out. *)
Theorem SumRunStepTokens_spec (f : SwarmRun) :
  let steps := Steps (Status f) in
  usage_nonneg steps →
  total_in steps + total_out steps + total_thinking steps < 2 ^ 63 →
  0 < total_in steps + total_out steps →
  (SumRunStepTokens f).1 = total_in steps + total_out steps ∧
  TotalTokenUsage (Status (SumRunStepTokens f).2) =
    Some (mkTokenUsage (total_in steps) (total_out steps) (total_thinking steps)
      (total_in steps + total_out steps + total_thinking steps) "").
Proof.
  intros steps Hn Hlt Hpos.
  assert (0 ≤ total_in steps ∧ 0 ≤ total_out steps ∧ 0 ≤ total_thinking steps) as (P1 & P2 & P3).
  { split; [|split]; apply sum_by_nonneg; intros s Hs; apply Hn; done. }
  unfold SumRunStepTokens, sum_tokens. fold steps.
  rewrite sum_tokens_exact by (done || lia). rewrite !Z.add_0_l.
  assert ((total_in steps >? 0) || (total_out steps >? 0) = true) as ->.
  { apply orb_true_iff. rewrite !Z.gtb_lt. lia. }
  rewrite !wrap64_small by lia. simpl. split; [done|]. by case_match.
Qed.

(** the token budget does not see reasoning: a run whose recorded total usage is over
    [maxTokens] because of thinking tokens is not over budget and can still succeed. *)
Theorem token_budget_ignores_thinking {L : ConditionLaws conditionApi} (data : any) :
  ∃ f, Phase (Status f) = RunRunning ∧
    let f' := UpdateRunPipelinePhase 1 f data in
    Phase (Status f') = RunSucceeded ∧
    ∃ u, TotalTokenUsage (Status f') = Some u ∧ MaxTokens (Spec f) < TotalTokens u.
Proof.
  pose (st := (new_step "a" StepSucceeded)
    <| step_TokenUsage := Some (mkTokenUsage 10 10 1000 1020 "") |>).
  pose (f := set_steps (sample_run []) [st]). exists f. split; [done|].
  change (UpdateRunPipelinePhase 1 f data) with
    (SetRunCondition (set_completion (set_phase (set_status f
       ((Status f) <| TotalTokenUsage := Some (mkTokenUsage 10 10 1000 1020 "") |>))
       RunSucceeded) 1) ConditionTrue "Succeeded" "all steps completed successfully").
  split; [done|]. eexists. split; [reflexivity|]. simpl. lia.
Qed.
End run_lemmas.
