(* ===== verification/RunProps.v ===== *)
(** * RunProps: initialisation, structured outputs and loops of a run.

    Properties of the definitions of RunState: the step statuses a run starts with,
    JSON extraction, and what an evaluation of the loops does to the counters; the bound over whole
    reconciliations is in PipelineProps. *)
From Stdlib Require Import ZArith Lia Ascii.
From stdpp Require Import base tactics option list strings gmap.
From S2P Require Import Prelude GoStd Types Kube Dag Context Template RunState.

Section init.
Context {jsonApi : JsonApi} {templateApi : TemplateApi} {floatText : FloatText}
        {conditionApi : ConditionApi}.

(** a fresh run starts Running with one Pending step status per pipeline step, in
    pipeline order and under the step's role; an initialised run is left alone, so
    repeating the call changes nothing. *)
Theorem InitializeRunSteps_spec (f : SwarmRun) (now later : Z) :
  let f' := InitializeRunSteps now f in
  (Phase (Status f) ≠ RunUnset → f' = f) ∧
  (Phase (Status f) = RunUnset →
     Phase (Status f') = RunRunning ∧ StartTime (Status f') = Some now ∧
     step_Name <$> Steps (Status f') = Role <$> Pipeline (Spec f) ∧
     (∀ st, st ∈ Steps (Status f') → st = new_step (step_Name st) StepPending)) ∧
  InitializeRunSteps later f' = f'.
Proof.
  intros f'.
  assert (Phase (Status f) ≠ RunUnset → f' = f) as H1.
  { intros Hp. subst f'. unfold InitializeRunSteps. by rewrite decide_True. }
  assert (Phase (Status f') ≠ RunUnset → InitializeRunSteps later f' = f') as H2.
  { intros Hp. unfold InitializeRunSteps. by rewrite decide_True. }
  destruct (decide (Phase (Status f) ≠ RunUnset)) as [Hp|Hp].
  { split; [done|]. split; [done|]. apply H2. by rewrite (H1 Hp). }
  assert (f' = SetRunCondition (set_steps (start_run now f)
    ((λ step, new_step (Role step) StepPending) <$> Pipeline (Spec f)))
    ConditionTrue "Validated" "Pipeline DAG is valid; execution started") as E.
  { subst f'. unfold InitializeRunSteps. by rewrite decide_False. }
  clearbody f'. subst f'. split; [done|]. split; [|by apply H2].
  intros _. split; [done|]. split; [done|]. simpl. split.
  - by rewrite <- list_fmap_compose.
  - intros st (s & -> & _)%list_elem_of_fmap. done.
Qed.
End init.

(** ** JSON outputs *)
Section json.
Context {jsonApi : JsonApi}.

Lemma json_candidate_valid s line :
  json_candidate s line = "" ∨
  (valid_json (json_candidate s line) = true ∧ infix_of (json_candidate s line) s).
Proof.
  unfold json_candidate. destruct (str_index s line) as [start|]; [|by left].
  set (tail := str_drop start s). cbv zeta.
  set (c := match str_index tail (nl +:+ fence) with
            | Some stop => TrimSpace (str_take stop tail) | None => TrimSpace tail end).
  assert (infix_of c s) as Hc.
  { subst c. etrans; [|apply (infix_of_drop start)]. fold tail.
    destruct (str_index tail _) as [stop|]; [|apply TrimSpace_infix].
    etrans; [apply TrimSpace_infix|apply infix_of_take]. }
  clearbody c. destruct (valid_json c) eqn:V; auto.
Qed.

Lemma scan_lines_valid s lines :
  scan_lines s lines = "" ∨
  (valid_json (scan_lines s lines) = true ∧ infix_of (scan_lines s lines) s).
Proof.
  induction lines as [|line rest IH]; simpl; [by left|].
  repeat case_match; auto using json_candidate_valid.
Qed.

(** what [ExtractJSON] returns is either nothing or a valid JSON document that
    occurs verbatim in the given text, and a text that is itself valid JSON (up to the
    surrounding spaces) is returned whole. *)
Theorem ExtractJSON_valid (s : string) :
  (ExtractJSON s = "" ∨ (valid_json (ExtractJSON s) = true ∧ infix_of (ExtractJSON s) s)) ∧
  (valid_json (TrimSpace s) = true → ExtractJSON s = TrimSpace s).
Proof.
  unfold ExtractJSON. case_decide as He; [split; [by left|by intros]|].
  case_match eqn:V; [split; [right|done]|split; [|done]].
  - split; [done|apply TrimSpace_infix].
  - destruct (scan_lines_valid (TrimSpace s) (split_byte newline (TrimSpace s)))
      as [|[H1 H2]]; [by left|right].
    split; [done|]. etrans; [exact H2|apply TrimSpace_infix].
Qed.

Lemma parse_step_json_idemp st : parse_step_json (parse_step_json st) = parse_step_json st.
Proof.
  unfold parse_step_json at 2 3.
  case_decide as H1; [unfold parse_step_json; by rewrite decide_True|].
  case_decide as H2; [unfold parse_step_json; rewrite decide_False by done; by rewrite decide_True|].
  case_match eqn:V; unfold parse_step_json.
  - rewrite decide_True; [done|]. right; right. done.
  - rewrite decide_False by done. rewrite decide_False by done. by rewrite V.
Qed.

(** The status at position [i] is indexed under a name that declares a schema. *)
Definition has_schema (pipeline : list SwarmTeamPipelineStep) (m : gmap string nat)
    (i : nat) (name : string) : Prop :=
  name ∈ schema_names pipeline ∧ m !! name = Some i.
#[export] Instance has_schema_dec pipeline m i name : Decision (has_schema pipeline m i name).
Proof. unfold has_schema. apply _. Defined.

Lemma parse_named_lookup pipeline m (steps : list PipelineStepStatus) name i :
  parse_named pipeline m steps name !! i =
  (if decide (has_schema pipeline m i name) then parse_step_json else id) <$> steps !! i.
Proof.
  unfold parse_named. case_decide as Hn.
  - destruct (decide (m !! name = Some i)) as [Hi|Hi].
    + rewrite decide_True by done. rewrite Hi. apply list_lookup_alter_eq.
    + rewrite decide_False by (by intros []). rewrite option_fmap_id.
      destruct (m !! name) as [n|]; [|done]. by apply list_lookup_alter_ne; intros ->.
  - rewrite decide_False by (by intros []). by rewrite option_fmap_id.
Qed.

Lemma parse_fold_lookup pipeline m order (steps : list PipelineStepStatus) i :
  foldl (parse_named pipeline m) steps order !! i =
  (if decide (Exists (has_schema pipeline m i) order) then parse_step_json else id)
    <$> steps !! i.
Proof.
  revert steps. induction order as [|name rest IH]; intros steps.
  { rewrite decide_False by (by inversion 1). by rewrite option_fmap_id. }
  change (foldl (parse_named pipeline m) steps (name :: rest))
    with (foldl (parse_named pipeline m) (parse_named pipeline m steps name) rest).
  rewrite IH, parse_named_lookup, <- option_fmap_compose. apply option_fmap_ext.
  intros st. unfold compose. clear IH.
  destruct (decide (has_schema pipeline m i name)) as [H1|H1].
  - rewrite (decide_True (P := Exists _ (_ :: _))) by (by apply Exists_cons_hd).
    case_decide; [apply parse_step_json_idemp|done].
  - destruct (decide (Exists _ rest)) as [H2|H2].
    + by rewrite decide_True by (by apply Exists_cons_tl).
    + rewrite decide_False; [done|]. by rewrite Exists_cons; intros [|].
Qed.

(** whatever order the index is ranged over, [ParseRunOutputJSON] treats exactly the
    indexed statuses of the steps that declare an output schema, each on its own, and it
    only ever stores valid JSON found in the step's output. *)
Theorem ParseRunOutputJSON_spec (f : SwarmRun) (m : gmap string nat) (order : list string) :
  range_order m order →
  (∀ i, Steps (Status (ParseRunOutputJSON f m order)) !! i =
     (if decide (Exists (has_schema (Pipeline (Spec f)) m i) (keys_of m))
      then parse_step_json else id) <$> Steps (Status f) !! i) ∧
  (∀ st, let st' := parse_step_json st in
     st' = st <| step_OutputJSON := step_OutputJSON st' |> ∧
     (step_OutputJSON st' = step_OutputJSON st ∨
      step_Phase st = StepSucceeded ∧ step_OutputJSON st = "" ∧
      valid_json (step_OutputJSON st') = true ∧
      infix_of (step_OutputJSON st') (step_Output st))).
Proof.
  intros [_ Hkeys]. split.
  - intros i. unfold ParseRunOutputJSON. simpl. rewrite parse_fold_lookup.
    assert (Exists (has_schema (Pipeline (Spec f)) m i) order ↔
            Exists (has_schema (Pipeline (Spec f)) m i) (keys_of m)) as E.
    { destruct (range_order_keys m) as [_ Hk]. rewrite !Exists_exists.
      unfold keys_of. by setoid_rewrite Hkeys; setoid_rewrite Hk. }
    by rewrite (decide_ext _ _ _ _ E).
  - intros st. simpl. unfold parse_step_json.
    case_decide as H1; [split; [by destruct st|by left]|].
    case_decide as H2; [split; [by destruct st|by left]|].
    case_match eqn:V; [|split; [by destruct st|by left]].
    split; [done|]. right. simpl.
    destruct (ExtractJSON_valid (step_Output st)) as [[He|[_ Hi]] _]; [done|].
    split; [|split; [|done]]; apply dec_stable; tauto.
Qed.
End json.

(** ** Loops *)
Section loops.
Context {jsonApi : JsonApi} {templateApi : TemplateApi} {floatText : FloatText}
        {conditionApi : ConditionApi}.

Definition cond_holds (loop : LoopSpec) (data : any) : bool :=
  match ResolveTemplate (Condition loop) data with Ok c => IsTruthy c | Err _ => false end.

(** What one pipeline step's loop does to its own status. *)
Definition loop_one (data : any) (step : SwarmTeamPipelineStep) (st : PipelineStepStatus)
    : PipelineStepStatus :=
  match Loop step with
  | None => st
  | Some loop =>
      if decide (step_Phase st = StepSucceeded ∧ step_Iterations st < loop_max loop ∧
                 cond_holds loop data = true)
      then restart_step st (loop_max loop) else st
  end.

Lemma loop_step_alter data m steps step :
  loop_step data m steps step =
  match m !! Role step with Some i => alter (loop_one data step) i steps | None => steps end.
Proof.
  unfold loop_step. destruct (m !! Role step) as [i|] eqn:Hm; [|by case_match].
  apply list_eq. intros j.
  assert (∀ l : list PipelineStepStatus, (∀ st, l !! i = Some st → loop_one data step st = st) →
    l !! j = alter (loop_one data step) i l !! j) as Hid.
  { intros l Hl. destruct (decide (i = j)) as [<-|]; [|by rewrite list_lookup_alter_ne].
    rewrite list_lookup_alter_eq. destruct (l !! i) as [st|] eqn:E; [|done].
    simpl. by rewrite (Hl st). }
  unfold loop_one in *. destruct (Loop step) as [loop|]; [|by apply Hid].
  destruct (steps !! i) as [st|] eqn:Hi; [|by apply Hid; congruence].
  destruct (decide (step_Phase st ≠ StepSucceeded)) as [Hp|Hp]; [apply Hid; intros st' ?; simplify_eq; apply decide_False; naive_solver|].
  apply dec_stable in Hp. rewrite Z.geb_leb. destruct (Z.leb_spec (loop_max loop) (step_Iterations st)).
  { apply Hid. intros st' ?. simplify_eq. apply decide_False. intros (_ & ? & _). lia. }
  replace (match ResolveTemplate (Condition loop) data with
           | Ok c => if IsTruthy c then <[i:=restart_step st (loop_max loop)]> steps else steps
           | Err _ => steps end)
    with (if cond_holds loop data then <[i:=restart_step st (loop_max loop)]> steps else steps)
    by (unfold cond_holds; by destruct (ResolveTemplate _ _)).
  destruct (cond_holds loop data) eqn:Hc.
  2: { apply Hid. intros st' ?. simplify_eq. apply decide_False. naive_solver. }
  destruct (decide (i = j)) as [<-|Hij].
  - rewrite list_lookup_insert_eq by (by eapply lookup_lt_Some).
    rewrite list_lookup_alter_eq, Hi. simpl. rewrite decide_True; [done|].
    done.
  - by rewrite list_lookup_insert_ne, list_lookup_alter_ne.
Qed.

Lemma alter_at_end {A} (g : A → A) pre x rest :
  alter g (length pre) (pre ++ x :: rest) = pre ++ g x :: rest.
Proof. rewrite <- (Nat.add_0_r (length pre)). by rewrite alter_app_r. Qed.

Lemma loop_fold_zip data m pipeline pre rest :
  length pipeline = length rest →
  (∀ j s, pipeline !! j = Some s → m !! Role s = Some (length pre + j)%nat) →
  foldl (loop_step data m) (pre ++ rest) pipeline =
  pre ++ zip_with (loop_one data) pipeline rest.
Proof.
  revert pre rest. induction pipeline as [|s pipeline IH]; intros pre [|st rest] Hl Hm;
    simplify_eq/=; [done|].
  rewrite loop_step_alter, (Hm 0%nat s eq_refl), Nat.add_0_r, alter_at_end.
  rewrite cons_middle, (app_assoc pre [_]), (IH (pre ++ [loop_one data s st])).
  - by rewrite <- app_assoc.
  - done.
  - intros j s' Hj. rewrite (Hm (S j) s' Hj), length_app. simpl. f_equal. lia.
Qed.

Lemma status_index f i name :
  NoDup (step_Name <$> Steps (Status f)) →
  (step_Name <$> Steps (Status f)) !! i = Some name →
  BuildRunStatusByName f !! name = Some i.
Proof.
  intros Hnd Hi. unfold BuildRunStatusByName. rewrite list_lookup_fmap in Hi.
  destruct (Steps (Status f) !! i) as [st|] eqn:E; simplify_eq/=.
  apply (proj1 (build_status_from_spec 0 _ ∅ (step_Name st)) i st E eq_refl).
  intros k st' Hk Hl Hn. assert (i = k); [|lia].
  eapply (NoDup_lookup _ i k (step_Name st) Hnd); rewrite list_lookup_fmap.
  - by rewrite E.
  - rewrite Hl. simpl. by rewrite Hn.
Qed.

(** with distinct roles, an evaluation of the loops decides each step on its own
    status: a Succeeded step with iterations left and a truthy condition is restarted
    (Pending, outputs and timestamps cleared, one more iteration), any other is kept. *)
Theorem EvaluateRunLoops_spec (f : SwarmRun) (data : any) :
  NoDup (Role <$> Pipeline (Spec f)) →
  step_Name <$> Steps (Status f) = Role <$> Pipeline (Spec f) →
  Steps (Status (EvaluateRunLoops f (BuildRunStatusByName f) data)) =
  zip_with (loop_one data) (Pipeline (Spec f)) (Steps (Status f)).
Proof.
  intros Hnd Hn. unfold EvaluateRunLoops. simpl.
  apply (loop_fold_zip data _ _ [] (Steps (Status f))).
  - by rewrite <- (length_fmap Role), <- Hn, length_fmap.
  - intros j s Hj. apply status_index; rewrite Hn; [done|]. change (length [] + j)%nat with j. rewrite list_lookup_fmap. by rewrite Hj.
Qed.

(** ** The iteration counters *)
Definition iterations_ok (pipeline : list SwarmTeamPipelineStep) (st : PipelineStepStatus) : Prop :=
  step_Iterations st = 0 ∨
  ∃ s loop, s ∈ pipeline ∧ Role s = step_Name st ∧ Loop s = Some loop ∧
            1 ≤ step_Iterations st ≤ loop_max loop.

(** [MaxIterations] is an [int]. *)
Definition loops_fit (pipeline : list SwarmTeamPipelineStep) : Prop :=
  ∀ s loop, s ∈ pipeline → Loop s = Some loop → in_width 64 (MaxIterations loop).

Lemma iterations_ok_counters pipeline st st' :
  step_Name st' = step_Name st → step_Iterations st' = step_Iterations st →
  iterations_ok pipeline st → iterations_ok pipeline st'.
Proof. unfold iterations_ok. by intros -> ->. Qed.

Lemma loop_one_ok pipeline data s st :
  loops_fit pipeline → s ∈ pipeline → Role s = step_Name st →
  iterations_ok pipeline st → iterations_ok pipeline (loop_one data s st).
Proof.
  intros Hfit Hs Hr Hok. unfold loop_one. destruct (Loop s) as [loop|] eqn:Hl; [|done].
  case_decide as Hd; [|done]. destruct Hd as (_ & Hlt & _).
  assert (0 ≤ step_Iterations st) as H0 by (destruct Hok as [->|(? & ? & _ & _ & _ & ?)]; lia).
  assert (wrap64 (step_Iterations st + 1) = step_Iterations st + 1) as E.
  { apply wrap_id; [lia|]. specialize (Hfit s loop Hs Hl). unfold in_width, min_int, max_int in *.
    unfold loop_max in Hlt. destruct (Z.leb_spec (MaxIterations loop) 0); lia. }
  right. exists s, loop. split; [done|]. split; [done|]. split; [done|].
  unfold restart_step. simpl. rewrite E. lia.
Qed.
Lemma status_index_sound f i name :
  BuildRunStatusByName f !! name = Some i →
  (step_Name <$> Steps (Status f)) !! i = Some name.
Proof.
  unfold BuildRunStatusByName. set (steps := Steps (Status f)). intros Hi.
  destruct (last_named_dec steps name) as [(st & j & Hj & Hn & Hl)|Hno].
  - rewrite (proj1 (build_status_from_spec 0 steps ∅ name) j st Hj Hn Hl) in Hi.
    simplify_eq/=. rewrite list_lookup_fmap. by rewrite Hj.
  - by rewrite (proj2 (build_status_from_spec 0 steps ∅ name) Hno), lookup_empty in Hi.
Qed.

Lemma loop_fold_ok whole data m pipeline (steps : list PipelineStepStatus) :
  loops_fit whole → (∀ s, s ∈ pipeline → s ∈ whole) →
  (∀ name i, m !! name = Some i → (step_Name <$> steps) !! i = Some name) →
  Forall (iterations_ok whole) steps →
  Forall (iterations_ok whole) (foldl (loop_step data m) steps pipeline).
Proof.
  intros Hfit. revert steps. induction pipeline as [|s pipeline IH]; intros steps Hs Hm Hok;
    [done|]. simpl.
  rewrite loop_step_alter. destruct (m !! Role s) as [i|] eqn:E; [|apply IH; set_solver].
  pose proof (Hm _ _ E) as Hn. rewrite list_lookup_fmap in Hn.
  apply IH; [set_solver| |].
  - intros name j Hj%Hm. rewrite <- Hj, !list_lookup_fmap.
    destruct (decide (i = j)) as [<-|]; [|by rewrite list_lookup_alter_ne].
    rewrite list_lookup_alter_eq. destruct (steps !! i); [|done]. simpl. f_equal.
    unfold loop_one. by repeat case_match.
  - apply Forall_alter; [done|]. intros st Hst Hok'.
    apply loop_one_ok; [done|set_solver| |done]. rewrite Hst in Hn. by simplify_eq/=.
Qed.

End loops.

(** ** Witnesses *)
Definition looping_step : SwarmTeamPipelineStep :=
  mkSwarmTeamPipelineStep "a" ∅ [] "" (Some (mkLoopSpec "true" 3)) "{}" None [] ∅ None None 0.

Definition looping_run (phase : SwarmRunPhase) (steps : list PipelineStepStatus) : SwarmRun :=
  mkSwarmRun "r" "ns" 1
    (mkSwarmRunSpec "team" "" "" 0 ∅ "" [looping_step; plain_step "b" ["a"]] None [] "" None
       None 60 1000)
    (mkSwarmRunStatus phase steps "" (Some 0%Z) None None "" None 0 []).

Definition half_done : list PipelineStepStatus :=
  [(new_step "a" StepSucceeded) <| step_Output := "{}" |>
     <| step_TokenUsage := Some (mkTokenUsage 10 5 2 17 "") |>; new_step "b" StepPending].

Lemma EnforceRunTimeout_spec_witness :
  let f := looping_run RunRunning half_done in
  Phase (Status (@EnforceRunTimeout list_conditions f (61 * second)).2) = RunFailed.
Proof.
  set (f := looping_run RunRunning half_done).
  assert (TimeoutSeconds (Spec f) ≤ 9223372036) as Ht by (apply Z.leb_le; reflexivity).
  pose proof (@EnforceRunTimeout_spec list_conditions list_conditions_laws f (61 * second) Ht) as H.
  cbv zeta. revert H.
  destruct (@EnforceRunTimeout list_conditions f (61 * second)) as [fired f'] eqn:E.
  intros (_ & _ & H). apply H. change fired with (fired, f').1. rewrite <- E.
  vm_compute. reflexivity.
Defined.

Lemma timeout_overflow_fires_at_start_witness :
  let f := (looping_run RunRunning half_done) in
  let f := f <| Spec := mkSwarmRunSpec "team" "" "" 0 ∅ "" [] None [] "" None None 9223372037 0 |> in
  (@EnforceRunTimeout list_conditions f 0).1 = true.
Proof. apply (@timeout_overflow_fires_at_start list_conditions); reflexivity. Defined.

Lemma UpdateRunPipelinePhase_verdict_witness :
  let f := looping_run RunRunning half_done in
  Phase (Status (@UpdateRunPipelinePhase toy_template toy_float list_conditions 1 f ANil))
  = RunRunning.
Proof.
  apply (@UpdateRunPipelinePhase_verdict toy_template toy_float list_conditions
    list_conditions_laws (looping_run RunRunning half_done) 1 ANil); vm_compute; reflexivity.
Defined.

Lemma SumRunStepTokens_spec_witness :
  (@SumRunStepTokens toy_float (looping_run RunRunning half_done)).1 = 15.
Proof.
  apply (@SumRunStepTokens_spec toy_float (looping_run RunRunning half_done)).
  - intros st Hin. simpl in Hin. unfold half_done in Hin.
    rewrite !elem_of_cons, elem_of_nil in Hin. destruct Hin as [->|[->|[]]]; simpl; lia.
  - vm_compute. reflexivity.
  - vm_compute. reflexivity.
Defined.

Lemma token_budget_ignores_thinking_witness :
  ∃ f, Phase (Status f) = RunRunning ∧
    let f' := @UpdateRunPipelinePhase toy_template toy_float list_conditions 1 f ANil in
    Phase (Status f') = RunSucceeded ∧
    ∃ u, TotalTokenUsage (Status f') = Some u ∧ MaxTokens (Spec f) < TotalTokens u.
Proof.
  exact (@token_budget_ignores_thinking toy_template toy_float list_conditions
    list_conditions_laws ANil).
Defined.

Lemma ParseRunOutputJSON_spec_witness :
  let f := looping_run RunRunning half_done in
  Steps (Status (@ParseRunOutputJSON toy_json f (BuildRunStatusByName f) ["a"; "b"])) !! 1%nat =
  Some (new_step "b" StepPending).
Proof.
  set (f := looping_run RunRunning half_done).
  assert (range_order (BuildRunStatusByName f) ["a"; "b"]) as Ho.
  { split; [apply (bool_decide_unpack _); vm_compute; exact I|].
    intros k. subst f. simpl. rewrite !elem_of_cons, elem_of_nil.
    unfold BuildRunStatusByName. simpl. rewrite !lookup_insert_is_Some, lookup_empty.
    split; [intros [->|[->|[]]]; naive_solver|].
    intros [->|[_ [->|[_ [? ?]]]]]; naive_solver. }
  etrans; [apply (proj1 (@ParseRunOutputJSON_spec toy_json f _ _ Ho))|].
  vm_compute. reflexivity.
Defined.

Lemma EvaluateRunLoops_spec_witness :
  let f := looping_run RunRunning half_done in
  step_Phase <$> Steps (Status (@EvaluateRunLoops toy_template f (BuildRunStatusByName f) ANil))
  = [StepPending; StepPending].
Proof.
  intros f. subst f. rewrite (@EvaluateRunLoops_spec toy_template (looping_run RunRunning half_done) ANil).
  - vm_compute. reflexivity.
  - apply (bool_decide_unpack _). vm_compute. exact I.
  - reflexivity.
Defined.
