(* ===== verification/Validate.v ===== *)
(** * Validate: validation of step outputs (pkg/flow/validate.go).

    The injection-defence gate, the contains and schema checks, and the reading of a
    semantic validator's answer.  A slice out of range panics in Go: [None]. *)
From Stdlib Require Import ZArith Lia Ascii.
From stdpp Require Import base tactics option list strings gmap.
From S2P Require Import Prelude GoStd Types.

Definition accepted : bool * string := (true, "").
Definition rejected (reason : string) : bool * string := (false, reason).

(** ** Semantic validation *)
Definition SemanticValidatorPrompt (validatorTmpl output : string) : string :=
  let q3 := dq +:+ dq +:+ dq in
  "You are a strict output validator." +:+ nl +:+ nl +:+
  "Step output:" +:+ nl +:+ q3 +:+ nl +:+ output +:+ nl +:+ q3 +:+ nl +:+ nl +:+
  "Validation criteria:" +:+ nl +:+ validatorTmpl +:+ nl +:+ nl +:+
  "Respond with exactly one word: VALID or INVALID." +:+ nl +:+
  "If INVALID, add a colon and a one-sentence reason: INVALID: <reason>".

Definition tab : string := String "009" "".

(** The reason after the keyword: trimmed, defaulted, cut at the first newline. *)
Definition invalid_reason (rest : string) : string :=
  let rest := TrimLeft rest [":"; " "; tab] in
  let rest := if decide (rest = "") then "validation failed" else rest in
  match index_byte rest newline with
  | Some n => str_take n rest
  | None => rest
  end.

Definition snippet (response : string) : string :=
  if (200 <? str_len response) then str_take 200 response +:+ "..." else response.

(** [s[i:]], which panics beyond the length. *)
Definition slice_from (s : string) (i : nat) : option string :=
  if (i <=? String.length s)%nat then Some (str_drop i s) else None.

Section validate.
Context {jsonApi : JsonApi} {regexpApi : RegexpApi} {floatText : FloatText}
        {caseApi : CaseApi}.

Definition ParseSemanticResult (response : string) : option (bool * string) :=
  let upper := strings_ToUpper response in
  if str_contains upper "VALID" && negb (str_contains upper "INVALID") then Some accepted
  else
    match str_index upper "INVALID" with
    | Some idx =>
        match slice_from response (idx + 7) with
        | None => None
        | Some rest => Some (rejected (invalid_reason rest))
        end
    | None => Some (rejected ("unexpected validator response: " +:+ snippet response))
    end.

(** ** Pattern checks *)
Definition validateContains (output pattern : string) : bool * string :=
  match regexp_Compile pattern with
  | Err e => rejected ("invalid contains pattern " +:+ Quote pattern +:+ ": " +:+ e)
  | Ok re =>
      if MatchString re output then accepted
      else rejected ("output does not match pattern " +:+ Quote pattern)
  end.

Fixpoint reject_patterns (output : string) (patterns : list string) : option (bool * string) :=
  match patterns with
  | [] => None
  | pat :: rest =>
      match regexp_Compile pat with
      | Err e => Some (rejected ("invalid rejectPattern " +:+ Quote pat +:+ ": " +:+ e))
      | Ok re =>
          if MatchString re output then
            Some (rejected ("OutputRejected: output matched injection-defence pattern " +:+ Quote pat))
          else reject_patterns output rest
      end
  end.

(** ** The JSON schema check *)
Definition is_AString (v : any) := match v with AString _ => true | _ => false end.
Definition is_AList (v : any) := match v with AList _ => true | _ => false end.
Definition is_AMap (v : any) := match v with AMap _ => true | _ => false end.
Definition is_ABool (v : any) := match v with ABool _ => true | _ => false end.
Definition is_AFloat (v : any) := match v with AFloat _ => true | _ => false end.

Definition jsonTypeMatches (v : any) (typ : string) : bool :=
  if String.eqb typ "string" then is_AString v
  else if String.eqb typ "number" then is_AFloat v
  else if String.eqb typ "integer" then
    match v with AFloat f => f64_eqb f (f64_of_Z (f64_to_int64 f)) | _ => false end
  else if String.eqb typ "boolean" then is_ABool v
  else if String.eqb typ "array" then is_AList v
  else if String.eqb typ "object" then is_AMap v
  else if String.eqb typ "null" then match v with ANil => true | _ => false end
  else true.

Definition as_map (v : any) : option (list (string * any)) :=
  match v with AMap m => Some m | _ => None end.

Fixpoint check_required (doc : option (list (string * any))) (reqList : list any)
    : option (bool * string) :=
  match reqList with
  | [] => None
  | AString fieldName :: rest =>
      match doc with
      | None => Some (rejected "output is not a JSON object but schema requires fields")
      | Some docMap =>
          match amap_get docMap fieldName with
          | None => Some (rejected ("required field " +:+ Quote fieldName +:+
                                    " is missing from output"))
          | Some _ => check_required doc rest
          end
      end
  | _ :: rest => check_required doc rest
  end.

(** The type a property definition declares, if it is a map with a string type. *)
Definition declared_type (propDef : any) : option string :=
  match as_map propDef with
  | Some m => match amap_get m "type" with Some (AString t) => Some t | _ => None end
  | None => None
  end.

Fixpoint check_properties (docMap : list (string * any)) (props : list (string * any))
    : option (bool * string) :=
  match props with
  | [] => None
  | (fieldName, propDef) :: rest =>
      match declared_type propDef, amap_get docMap fieldName with
      | Some expectedType, Some val =>
          if jsonTypeMatches val expectedType then check_properties docMap rest
          else Some (rejected ("field " +:+ Quote fieldName +:+ " has wrong type: expected "
                               +:+ expectedType))
      | _, _ => check_properties docMap rest
      end
  end.

Definition unmarshal_map (s : string) : result string (list (string * any)) :=
  match json_Unmarshal s with
  | Err e => Err e
  | Ok (AMap m) => Ok m
  | Ok ANil => Ok []
  | Ok v => Err (json_type_error v)
  end.

(** [range]: the order in which the properties map is ranged over. *)
Definition validateJSONSchema (range : list (string * any) → list (string * any))
    (output schemaStr : string) : bool * string :=
  match json_Unmarshal output with
  | Err e => rejected ("output is not valid JSON: " +:+ e)
  | Ok doc =>
      match unmarshal_map schemaStr with
      | Err e => rejected ("invalid JSON schema: " +:+ e)
      | Ok schema =>
          let required := match amap_get schema "required" with
                          | Some (AList reqList) => check_required (as_map doc) reqList
                          | _ => None end in
          let properties := match amap_get schema "properties", as_map doc with
                            | Some (AMap props), Some docMap =>
                                check_properties docMap (range props)
                            | _, _ => None end in
          match required, properties with
          | Some r, _ => r
          | None, Some r => r
          | None, None => accepted
          end
      end
  end.

Definition ValidateStepOutput (range : list (string * any) → list (string * any))
    (output : string) (v : option StepValidation) : bool * string :=
  match v with
  | None => accepted
  | Some v =>
      match reject_patterns output (RejectPatterns v) with
      | Some r => r
      | None =>
          let contains := if decide (Contains v = "") then accepted
                          else validateContains output (Contains v) in
          if negb contains.1 then rejected contains.2
          else
            let schema := if decide (Schema v = "") then accepted
                          else validateJSONSchema range output (Schema v) in
            if negb schema.1 then rejected schema.2 else accepted
      end
  end.
End validate.

(** ** Specification vocabulary *)
Section validate_spec.
Context {jsonApi : JsonApi} {regexpApi : RegexpApi} {floatText : FloatText}
        {caseApi : CaseApi}.

(** The document has every required field, and its fields have the declared types. *)
Definition conforms (doc : any) (schema : list (string * any)) : Prop :=
  (∀ reqs name, amap_get schema "required" = Some (AList reqs) → AString name ∈ reqs →
     ∃ m v, doc = AMap m ∧ amap_get m name = Some v) ∧
  (∀ props m name def t v,
     amap_get schema "properties" = Some (AMap props) → doc = AMap m →
     (name, def) ∈ props → declared_type def = Some t → amap_get m name = Some v →
     jsonTypeMatches v t = true).

Definition pattern_matches (pat output : string) : Prop :=
  ∃ re, regexp_Compile pat = Ok re ∧ MatchString re output = true.
Definition pattern_avoids (pat output : string) : Prop :=
  ∃ re, regexp_Compile pat = Ok re ∧ MatchString re output = false.

Definition passes (output : string) (v : StepValidation) : Prop :=
  (∀ pat, pat ∈ RejectPatterns v → pattern_avoids pat output) ∧
  (Contains v ≠ "" → pattern_matches (Contains v) output) ∧
  (Schema v ≠ "" → ∃ doc schema, json_Unmarshal output = Ok doc ∧
     unmarshal_map (Schema v) = Ok schema ∧ conforms doc schema).

(** ** Lemmas *)
Lemma reject_patterns_None output pats :
  reject_patterns output pats = None ↔ ∀ pat, pat ∈ pats → pattern_avoids pat output.
Proof.
  unfold pattern_avoids. induction pats as [|p ps IH]; simpl; [split; [set_solver|done]|].
  destruct (regexp_Compile p) as [re|e] eqn:C.
  - destruct (MatchString re output) eqn:M.
    + split; [done|]. intros H. destruct (H p ltac:(left)) as (re' & ? & ?). congruence.
    + rewrite IH. setoid_rewrite elem_of_cons. naive_solver.
  - split; [done|]. intros H. destruct (H p ltac:(left)) as (re' & ? & ?). congruence.
Qed.

Lemma reject_patterns_false output pats r : reject_patterns output pats = Some r → r.1 = false.
Proof.
  induction pats as [|p ps IH]; simpl; [done|]. repeat case_match; try done; by intros [= <-].
Qed.

Lemma validateContains_true output pat :
  (validateContains output pat).1 = true ↔ pattern_matches pat output.
Proof.
  unfold validateContains, pattern_matches. destruct (regexp_Compile pat) as [re|e]; simpl.
  - destruct (MatchString re output) eqn:M; simpl; naive_solver congruence.
  - naive_solver.
Qed.

Lemma check_required_None doc reqs :
  check_required doc reqs = None ↔
  ∀ name, AString name ∈ reqs → ∃ m v, doc = Some m ∧ amap_get m name = Some v.
Proof.
  induction reqs as [|r reqs IH]; simpl; [split; [set_solver|done]|].
  setoid_rewrite elem_of_cons. destruct r as [|name|?|?|?|?];
    try (rewrite IH; naive_solver).
  destruct doc as [m|]; [destruct (amap_get m name) as [v|] eqn:E|].
  - rewrite IH. split; [|naive_solver]. intros H name' [[= ->]|Hin]; eauto.
  - split; [done|]. intros H. destruct (H name) as (m' & v & [= <-] & ?); [by left|congruence].
  - split; [done|]. intros H. destruct (H name) as (m' & v & ? & ?); [by left|congruence].
Qed.

Lemma check_properties_None m props :
  check_properties m props = None ↔
  ∀ name def t v, (name, def) ∈ props → declared_type def = Some t →
    amap_get m name = Some v → jsonTypeMatches v t = true.
Proof.
  induction props as [|[name def] props IH]; simpl; [split; [set_solver|done]|].
  setoid_rewrite elem_of_cons.
  destruct (declared_type def) as [t|] eqn:D; [|rewrite IH; naive_solver congruence].
  destruct (amap_get m name) as [v|] eqn:V; [|rewrite IH; naive_solver congruence].
  destruct (jsonTypeMatches v t) eqn:T; [rewrite IH; naive_solver congruence|].
  split; [done|]. intros H. specialize (H name def t v). naive_solver congruence.
Qed.

Lemma check_required_false doc reqs r : check_required doc reqs = Some r → r.1 = false.
Proof. induction reqs as [|[] reqs IH]; simpl; repeat case_match; auto; by intros [= <-]. Qed.

Lemma check_properties_false m props r : check_properties m props = Some r → r.1 = false.
Proof. induction props as [|[] props IH]; simpl; repeat case_match; auto; by intros [= <-]. Qed.

Lemma validateJSONSchema_true range output schemaStr :
  (∀ l, range l ≡ₚ l) →
  (validateJSONSchema range output schemaStr).1 = true ↔
  ∃ doc schema, json_Unmarshal output = Ok doc ∧ unmarshal_map schemaStr = Ok schema ∧
                conforms doc schema.
Proof.
  intros Hr. unfold validateJSONSchema.
  destruct (json_Unmarshal output) as [doc|e]; simpl; [|naive_solver].
  destruct (unmarshal_map schemaStr) as [schema|e]; simpl; [|naive_solver].
  transitivity (conforms doc schema); [|naive_solver]. unfold conforms.
  set (req := match amap_get schema "required" with Some _ => _ | None => _ end).
  set (prop := match amap_get schema "properties" with Some _ => _ | None => _ end).
  assert (req = None ↔ ∀ reqs name, amap_get schema "required" = Some (AList reqs) →
    AString name ∈ reqs → ∃ m v, doc = AMap m ∧ amap_get m name = Some v) as <-.
  { subst req. destruct (amap_get schema "required") as [[| | | |reqs|]|]; try naive_solver.
    rewrite check_required_None. destruct doc; simpl; naive_solver. }
  assert (prop = None ↔ ∀ props m name def t v,
    amap_get schema "properties" = Some (AMap props) → doc = AMap m →
    (name, def) ∈ props → declared_type def = Some t → amap_get m name = Some v →
    jsonTypeMatches v t = true) as <-.
  { subst prop. destruct (amap_get schema "properties") as [[| | | | |props]|]; try naive_solver.
    destruct doc; simpl; try naive_solver. rewrite check_properties_None.
    setoid_rewrite (Hr props). naive_solver. }
  assert (∀ r, req = Some r → r.1 = false) as Hq.
  { subst req. intros r. repeat case_match; try done. apply check_required_false. }
  assert (∀ r, prop = Some r → r.1 = false) as Hp.
  { subst prop. intros r. repeat case_match; try done. apply check_properties_false. }
  clearbody req prop. destruct req as [r|]; [rewrite (Hq r); naive_solver|].
  destruct prop as [r|]; [rewrite (Hp r); naive_solver|]. naive_solver.
Qed.
End validate_spec.

(** ** Theorems *)
Section validate_theorems.
Context {jsonApi : JsonApi} {regexpApi : RegexpApi} {floatText : FloatText}
        {caseApi : CaseApi}.

(** whatever order the schema's properties are ranged over, an output is accepted
    exactly when no reject pattern matches it (and all compile), the contains pattern
    matches, and it is JSON that has the required fields with the declared types; and
    an output stopped by the injection-defence gate gets that gate's reason whatever the
    other checks say. *)
Theorem ValidateStepOutput_correct (range : list (string * any) → list (string * any))
    (output : string) (v : StepValidation) :
  (∀ l, range l ≡ₚ l) →
  ((ValidateStepOutput range output (Some v)).1 = true ↔ passes output v) ∧
  ((ValidateStepOutput range output (Some v)).1 = true →
     ValidateStepOutput range output (Some v) = accepted) ∧
  (∀ pat, pat ∈ RejectPatterns v → ¬ pattern_avoids pat output →
     ∀ contains schema range', ValidateStepOutput range output (Some v) =
       ValidateStepOutput range' output (Some (mkStepValidation contains schema (Semantic v)
         (SemanticModel v) (OnFailure v) (MaxRetries v) (RejectPatterns v)))).
Proof.
  intros Hr. unfold passes. simpl.
  pose proof (reject_patterns_None output (RejectPatterns v)) as Hn.
  pose proof (reject_patterns_false output (RejectPatterns v)) as Hf.
  destruct (reject_patterns output (RejectPatterns v)) as [r|].
  { rewrite (Hf r eq_refl). naive_solver. }
  rewrite <- Hn. split; [|split; [|naive_solver]].
  - pose proof (validateContains_true output (Contains v)) as Hc.
    pose proof (validateJSONSchema_true range output (Schema v) Hr) as Hs.
    assert ((if decide (Contains v = "") then accepted
             else validateContains output (Contains v)).1 = true ↔
            (Contains v ≠ "" → pattern_matches (Contains v) output)) as <-.
    { case_decide; [|rewrite Hc]; tauto. }
    assert ((if decide (Schema v = "") then accepted
             else validateJSONSchema range output (Schema v)).1 = true ↔
            (Schema v ≠ "" → ∃ doc schema, json_Unmarshal output = Ok doc ∧
               unmarshal_map (Schema v) = Ok schema ∧ conforms doc schema)) as <-.
    { case_decide; [|rewrite Hs]; tauto. }
    destruct (if decide (Contains v = "") then _ else _) as [[] ?];
      destruct (if decide (Schema v = "") then _ else _) as [[] ?]; simpl; tauto.
  - repeat case_match; done.
Qed.

Lemma index_zero_contains sub s : str_contains s sub = true ↔ ∃ i, str_index s sub = Some i.
Proof. unfold str_contains. destruct (str_index s sub); naive_solver. Qed.

Lemma str_map_length g s : String.length (str_map g s) = String.length s.
Proof. induction s as [|c s IH]; simpl; [done|by rewrite IH]. Qed.

(** [String.index] finds an occurrence that fits in the string. *)
Lemma str_index_bound s sub i :
  str_index s sub = Some i → (i + String.length sub ≤ String.length s)%nat.
Proof.
  unfold str_index. revert i. induction s as [|c s IH]; intros i; simpl.
  { destruct sub; [|done]. intros [= <-]. done. }
  destruct sub as [|d sub]; [intros [= <-]; simpl; lia|].
  pose proof (HasPrefix_spec (String c s) (String d sub)) as [HP _]. unfold HasPrefix in HP.
  simpl in HP. destruct (if Ascii.ascii_dec d c then _ else _).
  - intros [= <-]. destruct HP as [t Ht]; [done|]. apply (f_equal String.length) in Ht.
    rewrite str_app_length in Ht. simpl in *. lia.
  - destruct (String.index 0 (String d sub) s) as [n|]; [|done].
    intros [= <-]. specialize (IH n eq_refl). simpl in *. lia.
Qed.

(** on an ASCII answer the reading of a semantic verdict never fails: an answer is
    accepted exactly when it contains VALID and nowhere INVALID, in any letter case, and
    a refusal carries a one-line reason taken from the answer after the keyword. *)
Theorem ParseSemanticResult_ascii {L : CaseLaws caseApi} (response : string) :
  is_ascii response = true →
  ∃ ok reason, ParseSemanticResult response = Some (ok, reason) ∧
    (ok = true ↔ str_contains (ToUpper response) "VALID" = true ∧
                 str_contains (ToUpper response) "INVALID" = false) ∧
    (ok = true → reason = "") ∧
    (∀ idx, str_index (ToUpper response) "INVALID" = Some idx →
       reason = invalid_reason (str_drop (idx + 7) response)).
Proof.
  intros Ha. unfold ParseSemanticResult. rewrite (upper_ascii _ Ha).
  destruct (str_contains (ToUpper response) "INVALID") eqn:EI.
  - rewrite andb_false_r. apply index_zero_contains in EI as [idx Hidx]. rewrite Hidx.
    pose proof (str_index_bound _ _ _ Hidx) as Hb. unfold ToUpper in Hb.
    rewrite str_map_length in Hb. change (String.length "INVALID") with 7%nat in Hb.
    unfold slice_from. apply Nat.leb_le in Hb. rewrite Hb.
    do 2 eexists. split; [reflexivity|]. split; [|split; [done|]].
    + split; [done|]. by intros [_ ?].
    + by intros i [= <-].
  - assert (str_index (ToUpper response) "INVALID" = None) as EN.
    { unfold str_contains in EI. by destruct (str_index _ _). }
    rewrite EN. destruct (str_contains (ToUpper response) "VALID") eqn:EV; simpl.
    + by exists true, "".
    + do 2 eexists. split; [reflexivity|]. split; [|done]. split; [done|by intros []].
Qed.

(** the offset of the keyword is found in the upper-cased answer but used on the
    answer itself: a rune that grows when upper-cased (such as U+0250) in front of
    INVALID moves the slice past the end of the answer, and the validator panics. *)
Theorem ParseSemanticResult_panics {L : CaseLaws caseApi} :
  ParseSemanticResult (str_of_bytes [201; 144]%N +:+ "invalid") = None.
Proof.
  unfold ParseSemanticResult. rewrite (upper_turned_a "invalid" eq_refl). vm_compute. reflexivity.
Qed.
End validate_theorems.

(** ** Witnesses *)
Definition sample_validation : StepValidation :=
  mkStepValidation "ok" "{}" "" "" OnFailureFail 2 ["evil"; "worse"].

Lemma ValidateStepOutput_correct_witness :
  (@ValidateStepOutput toy_json toy_regexp toy_float id "{ok}" (Some sample_validation)).1 = true ∧
  @passes toy_json toy_regexp toy_float "{ok}" sample_validation.
Proof.
  split; [vm_compute; reflexivity|].
  apply (proj1 (@ValidateStepOutput_correct toy_json toy_regexp toy_float id "{ok}"
    sample_validation (λ l, reflexivity l))).
  vm_compute. reflexivity.
Defined.

Lemma ParseSemanticResult_ascii_witness :
  ∃ ok reason, @ParseSemanticResult toy_case "invalid: too short" = Some (ok, reason) ∧
    reason = "too short".
Proof.
  destruct (@ParseSemanticResult_ascii toy_case toy_case_laws "invalid: too short")
    as (ok & reason & H & _ & _ & Hr); [reflexivity|].
  exists ok, reason. split; [done|]. apply (Hr 0%nat). reflexivity.
Defined.

Lemma ParseSemanticResult_panics_witness :
  @ParseSemanticResult toy_case (str_of_bytes [201; 144]%N +:+ "invalid") = None.
Proof. exact (@ParseSemanticResult_panics toy_case toy_case_laws). Defined.
