(* ===== verification/Policy.v ===== *)
(** * Policy: merging policies and evaluating agents against them
    (internal/controller/swarmpolicy_merge.go, swarmpolicy_effective.go).

    The Go code collects deny lists in maps used as sets and sorts what it ranges out
    of them; here the sets are [gset]s and the sorted enumeration is [sort_strings] of
    their elements, which does not depend on the order of the range. *)
From Stdlib Require Import ZArith Lia Ascii.
From stdpp Require Import base tactics option list strings gmap sets.
From S2P Require Import Prelude GoStd Types AgentTypes.

Record PolicyConflict := mkPolicyConflict {
  Field : string;
  PolicyA : string;
  PolicyB : string;
  conflict_Message : string }.

(** ** Strictness ranks; a key that is not in the Go map ranks 0 *)
Definition trustLevelOrder (t : ToolTrustLevel) : Z :=
  match t with ToolTrustInternal => 0 | ToolTrustExternal => 1 | ToolTrustSandbox => 2 | TrustUnset => 0 end.
Definition validationLevelOrder (l : PolicyOutputLevel) : Z :=
  match l with
  | PolicyOutputLevelNone => 0 | PolicyOutputLevelPattern => 1 | PolicyOutputLevelSchema => 2
  | PolicyOutputLevelSemantic => 3 | OutputLevelUnset => 0
  end.
Definition enforcementModeOrder (m : PolicyEnforcementMode) : Z :=
  match m with
  | PolicyEnforcementAudit => 0 | PolicyEnforcementWarn => 1 | PolicyEnforcementEnforce => 2
  | EnforcementUnset => 0
  end.

(** ** Limits *)
Definition minPtr (a b : option Z) : option Z :=
  match b with
  | None => a
  | Some bv => match a with
               | None => Some bv
               | Some av => if bv <? av then Some bv else a
               end
  end.

Definition maxPtr (a b : option Z) : option Z :=
  match b with
  | None => a
  | Some bv => match a with
               | None => Some bv
               | Some av => if bv >? av then Some bv else a
               end
  end.

Definition no_limits : PolicyLimits := mkPolicyLimits None None None None None None None.

Definition mergeLimits (dst src : PolicyLimits) : PolicyLimits :=
  mkPolicyLimits
    (minPtr (MaxDailyTokens dst) (MaxDailyTokens src))
    (minPtr (MaxTokensPerCall dst) (MaxTokensPerCall src))
    (minPtr (MaxTimeoutSeconds dst) (MaxTimeoutSeconds src))
    (maxPtr (MinTimeoutSeconds dst) (MinTimeoutSeconds src))
    (minPtr (MaxConcurrentTasks dst) (MaxConcurrentTasks src))
    (minPtr (MaxThinkingTokensPerCall dst) (MaxThinkingTokensPerCall src))
    (minPtr (MaxAnswerTokensPerCall dst) (MaxAnswerTokensPerCall src)).

(** ** Allow lists *)
Record allowEntry := mkAllowEntry { entry_name : string; patterns : list string }.

(** [count[p]++] for the distinct patterns of one entry. *)
Fixpoint count_entry (seen : gset string) (pats : list string) (count : gmap string nat)
    : gmap string nat :=
  match pats with
  | [] => count
  | p :: rest =>
      if decide (p ∈ seen) then count_entry seen rest count
      else count_entry ({[ p ]} ∪ seen) rest (<[p := S (default 0%nat (count !! p))]> count)
  end.

Definition count_lists (lists : list allowEntry) : gmap string nat :=
  foldl (λ count e, count_entry ∅ (patterns e) count) ∅ lists.

Definition intersectAllowLists (lists : list allowEntry) : list string :=
  match lists with
  | [] => []
  | _ => sort_strings (fst <$> filter (λ kv, kv.2 = length lists) (map_to_list (count_lists lists)))
  end.

(** ** The merge *)
Record merge_acc := mkMergeAcc {
  effective : EffectivePolicySpec;
  toolDenySet : gset string;
  denyPatternSet : gset string;
  modelDeniedSet : gset string;
  modelAllowLists : list allowEntry }.

#[export] Instance eta_merge_acc : Settable merge_acc := λ a,
  mkMergeAcc (effective a) (toolDenySet a) (denyPatternSet a) (modelDeniedSet a)
    (modelAllowLists a).

Definition merge_init : merge_acc :=
  mkMergeAcc (mkEffectivePolicySpec None [] None PolicyOutputLevelNone [] None
    (mkPolicyRequirements false false false) PolicyEnforcementAudit) ∅ ∅ ∅ [].

Definition merge_mode (cur new : PolicyEnforcementMode) : PolicyEnforcementMode :=
  if enforcementModeOrder new >? enforcementModeOrder cur then new else cur.

Definition merge_requirements (cur new : PolicyRequirements) : PolicyRequirements :=
  mkPolicyRequirements
    (if BudgetRef new then true else BudgetRef cur)
    (if Audit new then true else Audit cur)
    (if AllowList new then true else AllowList cur).

Definition merge_limits (cur new : option PolicyLimits) : option PolicyLimits :=
  match new with
  | None => cur
  | Some src => Some (mergeLimits (default no_limits cur) src)
  end.

Definition merge_trust (cur new : option ToolTrustLevel) : option ToolTrustLevel :=
  match new with
  | None => cur
  | Some t => match cur with
              | None => Some t
              | Some c => if trustLevelOrder t >? trustLevelOrder c then Some t else Some c
              end
  end.

Definition merge_validation (cur new : PolicyOutputLevel) : PolicyOutputLevel :=
  if validationLevelOrder new >? validationLevelOrder cur then new else cur.

(** One iteration of the loop over the policies. *)
Definition merge_policy (acc : merge_acc) (pol : SwarmPolicy) : merge_acc :=
  let spec := policy_Spec pol in
  let eff := effective acc in
  let eff := eff <| EnforcementMode ::= λ m, merge_mode m (spec_EnforcementMode spec) |> in
  let eff := eff <| Requirements ::= λ r, merge_requirements r (spec_Requirements spec) |> in
  let eff := eff <| Limits ::= λ l, merge_limits l (spec_Limits spec) |> in
  let acc := acc <| effective := eff |> in
  let acc :=
    match spec_Tools spec with
    | None => acc
    | Some t =>
        acc <| toolDenySet ::= λ s, list_to_set (Deny t) ∪ s |>
            <| effective ::= λ e, e <| ForceTrustLevel ::= λ c, merge_trust c (tools_ForceTrustLevel t) |> |>
    end in
  let acc :=
    match spec_PolicyOutput spec with
    | None => acc
    | Some o =>
        acc <| effective ::= λ e, e <| MinValidation ::= λ c, merge_validation c (output_MinValidation o) |> |>
            <| denyPatternSet ::= λ s, list_to_set (output_DenyPatterns o) ∪ s |>
    end in
  match spec_Models spec with
  | None => acc
  | Some m =>
      let acc := acc <| modelDeniedSet ::= λ s, list_to_set (Denied m) ∪ s |> in
      match Allowed m with
      | [] => acc
      | pats => acc <| modelAllowLists ::= λ l, l ++ [mkAllowEntry (policy_Name pol) pats] |>
      end
  end.

Definition sorted_set (s : gset string) : list string := sort_strings (elements s).

(** The part of [MergePolicies] after the loop, up to the conflict detection. *)
Definition merge_finish (acc : merge_acc) : EffectivePolicySpec :=
  let eff := (effective acc) <| ToolDeny := sorted_set (toolDenySet acc) |>
               <| DenyPatterns := sorted_set (denyPatternSet acc) |> in
  if decide (modelAllowLists acc = [] ∧ modelDeniedSet acc = ∅) then eff
  else eff <| Models := Some (mkPolicyModels
                 (match modelAllowLists acc with [] => [] | l => intersectAllowLists l end)
                 (sorted_set (modelDeniedSet acc))) |>.

(** ** Conflicts *)
Definition find_timeout_step (st : string * string * Z * Z) (pol : SwarmPolicy)
    : string * string * Z * Z :=
  match spec_Limits (policy_Spec pol) with
  | None => st
  | Some l =>
      let '(minPol, maxPol, bestMin, bestMax) := st in
      let '(minPol, bestMin) :=
        match MinTimeoutSeconds l with
        | Some v => if String.eqb minPol "" || (v >? bestMin) then (policy_Name pol, v)
                    else (minPol, bestMin)
        | None => (minPol, bestMin)
        end in
      let '(maxPol, bestMax) :=
        match MaxTimeoutSeconds l with
        | Some v => if String.eqb maxPol "" || (v <? bestMax) then (policy_Name pol, v)
                    else (maxPol, bestMax)
        | None => (maxPol, bestMax)
        end in
      (minPol, maxPol, bestMin, bestMax)
  end.

Definition findTimeoutPolicies (policies : list SwarmPolicy) : string * string :=
  let '(minPol, maxPol, _, _) := foldl find_timeout_step ("", "", 0, 0) policies in
  (minPol, maxPol).

Definition timeout_conflict (policies : list SwarmPolicy) (eff : EffectivePolicySpec)
    : list PolicyConflict :=
  match Limits eff with
  | None => []
  | Some l =>
      match MinTimeoutSeconds l, MaxTimeoutSeconds l with
      | Some lo, Some hi =>
          if lo >? hi then
            let '(minPol, maxPol) := findTimeoutPolicies policies in
            [mkPolicyConflict "limits.timeoutSeconds" minPol maxPol
               ("merged minTimeoutSeconds (" +:+ itoa lo +:+ ") exceeds merged maxTimeoutSeconds ("
                +:+ itoa hi +:+ ")")]
          else []
      | _, _ => []
      end
  end.

Definition MergePolicies (policies : list SwarmPolicy)
    : option EffectivePolicySpec * list PolicyConflict :=
  match policies with
  | [] => (None, [])
  | _ =>
      let eff := merge_finish (foldl merge_policy merge_init policies) in
      (Some eff, timeout_conflict policies eff)
  end.

(** ** Compliance *)
Definition violation (constraint message : string) : PolicyViolation :=
  mkPolicyViolation constraint "effective" message.

Definition has_budget (agent : SwarmAgent) : bool :=
  match Guardrails (agent_Spec agent) with
  | Some g => match guard_BudgetRef g with Some _ => true | None => false end
  | None => false
  end.

Definition audit_enabled (agent : SwarmAgent) : bool :=
  match Observability (agent_Spec agent) with
  | Some o => match AuditLog o with
              | Some a => match audit_Mode a with
                          | AuditLogModeUnset | AuditLogModeOff => false | _ => true end
              | None => false
              end
  | None => false
  end.

Definition has_allow_list (agent : SwarmAgent) : bool :=
  match Guardrails (agent_Spec agent) with
  | Some g => match guard_Tools g with
              | Some t => match perm_Allow t with [] => false | _ => true end
              | None => false
              end
  | None => false
  end.

Definition checkRequirements (agent : SwarmAgent) (req : PolicyRequirements)
    : list PolicyViolation :=
  (if BudgetRef req && negb (has_budget agent) then
     [violation "requirements.budgetRef"
        "policy requires a budgetRef but agent has no guardrails.budgetRef"] else []) ++
  (if Audit req && negb (audit_enabled agent) then
     [violation "requirements.audit"
        ("policy requires audit logging but agent has no observability.auditLog or mode is "
         +:+ dq +:+ "off" +:+ dq)] else []) ++
  (if AllowList req && negb (has_allow_list agent) then
     [violation "requirements.allowList"
        "policy requires a non-empty tool allow list but agent has none"] else []).

Definition agent_limits (agent : SwarmAgent) : option GuardrailLimits :=
  match Guardrails (agent_Spec agent) with Some g => guard_Limits g | None => None end.

Definition checkLimits (agent : SwarmAgent) (limits : option PolicyLimits)
    : list PolicyViolation :=
  match limits, agent_limits agent with
  | Some l, Some a =>
      match MaxDailyTokens l with
      | Some m => if DailyTokens a >? m then
          [violation "limits.dailyTokens" ("agent dailyTokens (" +:+ itoa (DailyTokens a) +:+
             ") exceeds policy maximum (" +:+ itoa m +:+ ")")] else []
      | None => []
      end ++
      match MaxTokensPerCall l with
      | Some m => if wrap32 (TokensPerCall a) >? m then
          [violation "limits.tokensPerCall" ("agent tokensPerCall (" +:+ itoa (TokensPerCall a) +:+
             ") exceeds policy maximum (" +:+ itoa m +:+ ")")] else []
      | None => []
      end ++
      match MaxTimeoutSeconds l with
      | Some m => if wrap32 (limits_TimeoutSeconds a) >? m then
          [violation "limits.timeoutSeconds" ("agent timeoutSeconds (" +:+
             itoa (limits_TimeoutSeconds a) +:+ ") exceeds policy maximum (" +:+ itoa m +:+ ")")]
          else []
      | None => []
      end ++
      match MinTimeoutSeconds l with
      | Some m => if wrap32 (limits_TimeoutSeconds a) <? m then
          [violation "limits.timeoutSeconds" ("agent timeoutSeconds (" +:+
             itoa (limits_TimeoutSeconds a) +:+ ") is below policy minimum (" +:+ itoa m +:+ ")")]
          else []
      | None => []
      end
  | _, _ => []
  end.

Definition globMatch (pattern name : string) : bool :=
  match path_Match pattern name with Some matched => matched | None => false end.

Definition checkModels (model : string) (models : option PolicyModels) : list PolicyViolation :=
  match models with
  | None => []
  | Some m =>
      match List.find (λ pattern, globMatch pattern model) (Denied m) with
      | Some pattern => [violation "models.denied" ("agent model " +:+ Quote model +:+
                           " matches denied pattern " +:+ Quote pattern)]
      | None => []
      end ++
      match Allowed m with
      | [] => []
      | allowed =>
          if existsb (λ pattern, globMatch pattern model) allowed then []
          else [violation "models.allowed" ("agent model " +:+ Quote model +:+
                  " does not match any allowed pattern")]
      end
  end.

Definition EvaluateAgentCompliance (agent : SwarmAgent) (eff : option EffectivePolicySpec)
    : list PolicyViolation :=
  match eff with
  | None => []
  | Some e =>
      checkRequirements agent (Requirements e) ++ checkLimits agent (Limits e) ++
      checkModels (agent_Model (agent_Spec agent)) (Models e)
  end.

(** ** Effective values of a pod (swarmpolicy_effective.go) *)
Definition cap_at (v : Z) (ceiling : option Z) : Z :=
  match ceiling with Some m => if v >? m then m else v | None => v end.
Definition raise_to (v : Z) (floor : option Z) : Z :=
  match floor with Some m => if v <? m then m else v | None => v end.

Definition applyPolicyLimits (maxTokens timeoutSecs maxRetries dailyTokenLimit : Z)
    (ep : option EffectivePolicySpec) : Z * Z * Z * Z :=
  match ep with
  | None => (maxTokens, timeoutSecs, maxRetries, dailyTokenLimit)
  | Some e =>
      match Limits e with
      | None => (maxTokens, timeoutSecs, maxRetries, dailyTokenLimit)
      | Some l =>
          let maxTokens := cap_at maxTokens (MaxTokensPerCall l) in
          let timeoutSecs := cap_at timeoutSecs (MaxTimeoutSeconds l) in
          let timeoutSecs := raise_to timeoutSecs (MinTimeoutSeconds l) in
          let dailyTokenLimit :=
            match MaxDailyTokens l with
            | Some m => if (dailyTokenLimit =? 0) || (dailyTokenLimit >? m) then m
                        else dailyTokenLimit
            | None => dailyTokenLimit
            end in
          (maxTokens, timeoutSecs, maxRetries, dailyTokenLimit)
      end
  end.

Definition clampOptionalInt32 (agent policy : option Z) : option Z :=
  match policy with
  | None => agent
  | Some p => match agent with
              | None => Some p
              | Some a => if a >? p then Some p else agent
              end
  end.

Definition applyPolicyThinkingLimits (thinkingTokens answerTokens : option Z)
    (ep : option EffectivePolicySpec) : option Z * option Z :=
  match ep with
  | None => (thinkingTokens, answerTokens)
  | Some e =>
      match Limits e with
      | None => (thinkingTokens, answerTokens)
      | Some l => (clampOptionalInt32 thinkingTokens (MaxThinkingTokensPerCall l),
                   clampOptionalInt32 answerTokens (MaxAnswerTokensPerCall l))
      end
  end.

Definition trust_string (t : ToolTrustLevel) : string :=
  match t with
  | TrustUnset => "" | ToolTrustInternal => "internal" | ToolTrustExternal => "external"
  | ToolTrustSandbox => "sandbox"
  end.
