(* ===== verification/PolicyProps.v ===== *)
(** * PolicyProps: what a merged policy means.

    The merge as a fold of commuting steps, hence independent of the order in which the
    API lists the policies; compliance with the merge against compliance with each
    policy; the effective limits of a pod. *)
From Stdlib Require Import ZArith Lia Ascii.
From stdpp Require Import base tactics option list strings gmap sets sorting.
From S2P Require Import Prelude GoStd Types AgentTypes Policy.

(** ** The contributions of one policy *)
Definition pol_trust (p : SwarmPolicy) : option ToolTrustLevel :=
  match spec_Tools (policy_Spec p) with Some t => tools_ForceTrustLevel t | None => None end.
Definition pol_tool_deny (p : SwarmPolicy) : list string :=
  match spec_Tools (policy_Spec p) with Some t => Deny t | None => [] end.
Definition pol_validation (p : SwarmPolicy) : PolicyOutputLevel :=
  match spec_PolicyOutput (policy_Spec p) with
  | Some o => output_MinValidation o | None => OutputLevelUnset end.
Definition pol_deny_patterns (p : SwarmPolicy) : list string :=
  match spec_PolicyOutput (policy_Spec p) with Some o => output_DenyPatterns o | None => [] end.
Definition pol_denied (p : SwarmPolicy) : list string :=
  match spec_Models (policy_Spec p) with Some m => Denied m | None => [] end.
Definition pol_allowed (p : SwarmPolicy) : list string :=
  match spec_Models (policy_Spec p) with Some m => Allowed m | None => [] end.
Definition pol_allow (p : SwarmPolicy) : list allowEntry :=
  match pol_allowed p with [] => [] | pats => [mkAllowEntry (policy_Name p) pats] end.
Definition pol_mode (p : SwarmPolicy) := spec_EnforcementMode (policy_Spec p).
Definition pol_requirements (p : SwarmPolicy) := spec_Requirements (policy_Spec p).
Definition pol_limits (p : SwarmPolicy) := spec_Limits (policy_Spec p).

(** ** The merge, field by field *)
Lemma merge_validation_unset c : merge_validation c OutputLevelUnset = c.
Proof. by destruct c. Qed.

Lemma merge_policy_fields acc p :
  merge_policy acc p =
  mkMergeAcc
    (mkEffectivePolicySpec
       (merge_limits (Limits (effective acc)) (pol_limits p))
       (ToolDeny (effective acc))
       (merge_trust (ForceTrustLevel (effective acc)) (pol_trust p))
       (merge_validation (MinValidation (effective acc)) (pol_validation p))
       (DenyPatterns (effective acc)) (Models (effective acc))
       (merge_requirements (Requirements (effective acc)) (pol_requirements p))
       (merge_mode (EnforcementMode (effective acc)) (pol_mode p)))
    (list_to_set (pol_tool_deny p) ∪ toolDenySet acc)
    (list_to_set (pol_deny_patterns p) ∪ denyPatternSet acc)
    (list_to_set (pol_denied p) ∪ modelDeniedSet acc)
    (modelAllowLists acc ++ pol_allow p).
Proof.
  unfold merge_policy, pol_trust, pol_tool_deny, pol_validation, pol_deny_patterns,
    pol_denied, pol_allow, pol_allowed, pol_mode, pol_requirements, pol_limits.
  destruct acc as [[]]. destruct p as [name gen [mode lim tools out models req] status]. simpl.
  destruct tools as [[]|], out as [[]|], models as [[[|]]|]; simpl;
    rewrite ?merge_validation_unset, ?(left_id_L ∅ (∪)), ?(right_id_L [] (++)); reflexivity.
Qed.

Lemma merge_fold_fields acc ps :
  foldl merge_policy acc ps =
  mkMergeAcc
    (mkEffectivePolicySpec
       (foldl merge_limits (Limits (effective acc)) (pol_limits <$> ps))
       (ToolDeny (effective acc))
       (foldl merge_trust (ForceTrustLevel (effective acc)) (pol_trust <$> ps))
       (foldl merge_validation (MinValidation (effective acc)) (pol_validation <$> ps))
       (DenyPatterns (effective acc)) (Models (effective acc))
       (foldl merge_requirements (Requirements (effective acc)) (pol_requirements <$> ps))
       (foldl merge_mode (EnforcementMode (effective acc)) (pol_mode <$> ps)))
    (list_to_set (ps ≫= pol_tool_deny) ∪ toolDenySet acc)
    (list_to_set (ps ≫= pol_deny_patterns) ∪ denyPatternSet acc)
    (list_to_set (ps ≫= pol_denied) ∪ modelDeniedSet acc)
    (modelAllowLists acc ++ (ps ≫= pol_allow)).
Proof.
  revert acc. induction ps as [|p ps IH]; intros acc; csimpl.
  - rewrite !(left_id_L ∅ (∪)), (right_id_L [] (++)). by destruct acc as [[]].
  - rewrite IH, merge_policy_fields. simpl. f_equal;
      [set_solver..|by rewrite (assoc_L (++))].
Qed.

(** ** Sorted enumerations of sets *)
Lemma sorted_set_elem s x : x ∈ sorted_set s ↔ x ∈ s.
Proof. unfold sorted_set. by rewrite sort_strings_elem, elem_of_elements. Qed.

Lemma sorted_set_NoDup s : NoDup (sorted_set s).
Proof. unfold sorted_set. rewrite sort_strings_perm. apply NoDup_elements. Qed.

(** ** Allow lists *)
Definition hits (p : string) (pats : list string) : nat := if decide (p ∈ pats) then 1 else 0.

Lemma count_entry_lookup seen pats count p :
  default 0%nat (count_entry seen pats count !! p) =
  (default 0%nat (count !! p) + (if decide (p ∈ seen) then 0 else hits p pats))%nat.
Proof.
  unfold hits. revert seen count. induction pats as [|q pats IH]; intros seen count; simpl.
  { repeat case_decide; set_solver by lia. }
  destruct (decide (q ∈ seen)) as [Hq|Hq]; rewrite IH.
  - repeat case_decide; set_solver by lia.
  - destruct (decide (p = q)) as [->|Hne].
    + rewrite lookup_insert_eq. simpl. repeat case_decide; set_solver by lia.
    + rewrite lookup_insert_ne by done. repeat case_decide; set_solver by lia.
Qed.

Lemma count_entry_dom seen pats count p :
  is_Some (count !! p) → is_Some (count_entry seen pats count !! p).
Proof.
  revert seen count. induction pats as [|q pats IH]; intros seen count Hp; simpl; [done|].
  case_decide; apply IH; [done|]. apply lookup_insert_is_Some. destruct (decide (q = p)); auto.
Qed.

Lemma count_entry_dom_in seen pats count p :
  p ∈ pats → p ∉ seen → is_Some (count_entry seen pats count !! p).
Proof.
  revert seen count. induction pats as [|q pats IH]; intros seen count Hp Hs; [set_solver|].
  simpl. case_decide as Hq.
  - apply IH; [set_solver|done].
  - destruct (decide (p = q)) as [->|].
    + apply count_entry_dom. rewrite lookup_insert_eq. done.
    + apply IH; set_solver.
Qed.

Lemma count_lists_app lists e :
  count_lists (lists ++ [e]) = count_entry ∅ (patterns e) (count_lists lists).
Proof. unfold count_lists. by rewrite foldl_app. Qed.

Lemma count_lists_lookup lists p :
  default 0%nat (count_lists lists !! p) = sum_list_with (λ e, hits p (patterns e)) lists.
Proof.
  induction lists as [|e lists IH] using rev_ind; [done|].
  rewrite count_lists_app, count_entry_lookup, IH, decide_False by set_solver.
  rewrite sum_list_with_app. simpl. lia.
Qed.

Lemma sum_hits_le p lists :
  (sum_list_with (λ e, hits p (patterns e)) lists ≤ length lists)%nat.
Proof.
  induction lists as [|e lists IH]; simpl; [lia|].
  assert (hits p (patterns e) ≤ 1)%nat by (unfold hits; case_decide; lia). lia.
Qed.

Lemma hits_all p lists :
  sum_list_with (λ e, hits p (patterns e)) lists = length lists ↔
  ∀ e, e ∈ lists → p ∈ patterns e.
Proof.
  induction lists as [|e lists IH]; simpl; [set_solver|].
  pose proof (sum_hits_le p lists) as Hle. setoid_rewrite elem_of_cons.
  destruct (decide (p ∈ patterns e)) as [Hd|Hd].
  - assert (hits p (patterns e) = 1%nat) as -> by (unfold hits; by rewrite decide_True).
    split.
    + intros H e' [->|Hin]; [done|]. apply IH; [lia|done].
    + intros H. rewrite (proj2 IH); [done|]. eauto.
  - assert (hits p (patterns e) = 0%nat) as -> by (unfold hits; by rewrite decide_False).
    split; [lia|]. intros H. destruct Hd. eauto.
Qed.

(** A pattern survives the intersection exactly when every list contains it. *)
Lemma intersectAllowLists_elem lists p :
  lists ≠ [] →
  p ∈ intersectAllowLists lists ↔ ∀ e, e ∈ lists → p ∈ patterns e.
Proof.
  intros Hne. unfold intersectAllowLists. destruct lists as [|e0 rest] eqn:E; [done|].
  rewrite <- E in *. clear E rest. rewrite sort_strings_elem, list_elem_of_fmap.
  rewrite <- hits_all, <- count_lists_lookup. split.
  - intros ([k n] & -> & (Hn & Hin)%list_elem_of_filter). simpl in *.
    apply elem_of_map_to_list in Hin. by rewrite Hin.
  - intros Hc. destruct (count_lists lists !! p) as [n|] eqn:Hl; simpl in Hc.
    + exists (p, n). split; [done|]. apply list_elem_of_filter.
      split; [done|]. by apply elem_of_map_to_list.
    + destruct lists; [done|]. simpl in Hc. lia.
Qed.

Lemma intersectAllowLists_NoDup lists : NoDup (intersectAllowLists lists).
Proof.
  unfold intersectAllowLists. destruct lists; [constructor|].
  rewrite sort_strings_perm. apply NoDup_fmap_fst.
  - intros k n1 n2 [_ H1]%list_elem_of_filter [_ H2]%list_elem_of_filter.
    apply elem_of_map_to_list in H1, H2. congruence.
  - apply NoDup_filter, NoDup_map_to_list.
Qed.

Lemma intersectAllowLists_sorted lists : Sorted str_le (intersectAllowLists lists).
Proof. unfold intersectAllowLists. destruct lists; [constructor|apply sort_strings_sorted]. Qed.

#[export] Instance intersectAllowLists_proper : Proper ((≡ₚ) ==> (=)) intersectAllowLists.
Proof.
  intros l1 l2 H. destruct l1 as [|e l1]; [by apply Permutation_nil_l in H as ->|].
  assert (l2 ≠ []) as Hne by (intros ->; by apply Permutation_nil_r in H).
  apply (Sorted_unique str_le); [apply intersectAllowLists_sorted..|].
  apply NoDup_Permutation; [apply intersectAllowLists_NoDup..|]. intros p.
  rewrite !intersectAllowLists_elem by done. by setoid_rewrite H.
Qed.

(** ** The steps commute *)
(** A left fold of a step that commutes with itself forgets the order of its list. *)
Lemma foldl_perm {A B} (P : B → Prop) (f : A → B → A) :
  (∀ x a b, P a → P b → f (f x a) b = f (f x b) a) →
  ∀ l1 l2 x, l1 ≡ₚ l2 → Forall P l1 → foldl f x l1 = foldl f x l2.
Proof.
  intros Hc l1 l2 x Hp. revert x.
  induction Hp as [|a l1 l2 Hp IH|a b l|l1 l2 l3 H1 IH1 H2 IH2]; intros x Hall; simpl.
  - done.
  - apply IH. by inversion Hall.
  - inversion Hall as [|? ? Ha Hall']. inversion Hall'. by rewrite Hc.
  - rewrite IH1 by done. apply IH2. by rewrite <- H1.
Qed.

Lemma minPtr_comm x a b : minPtr (minPtr x a) b = minPtr (minPtr x b) a.
Proof.
  destruct x, a, b; simpl; try done;
    repeat (match goal with |- context [?x <? ?y] => destruct (Z.ltb_spec x y) end; simpl);
    f_equal; lia.
Qed.

Lemma maxPtr_comm x a b : maxPtr (maxPtr x a) b = maxPtr (maxPtr x b) a.
Proof.
  destruct x, a, b; simpl; rewrite ?Z.gtb_ltb; simpl; try done;
    repeat (match goal with |- context [?x >? ?y] => rewrite (Z.gtb_ltb x y) end ||
            match goal with |- context [?x <? ?y] => destruct (Z.ltb_spec x y) end; simpl);
    f_equal; lia.
Qed.

Lemma merge_limits_comm x a b : merge_limits (merge_limits x a) b = merge_limits (merge_limits x b) a.
Proof.
  destruct a, b; simpl; try done. unfold mergeLimits. simpl.
  f_equal. f_equal; apply minPtr_comm || apply maxPtr_comm.
Qed.

Lemma merge_mode_comm x a b : merge_mode (merge_mode x a) b = merge_mode (merge_mode x b) a.
Proof. by destruct x, a, b. Qed.

Lemma merge_validation_comm x a b :
  merge_validation (merge_validation x a) b = merge_validation (merge_validation x b) a.
Proof. by destruct x, a, b. Qed.

Lemma merge_requirements_comm x a b :
  merge_requirements (merge_requirements x a) b = merge_requirements (merge_requirements x b) a.
Proof. by destruct x as [[] [] []], a as [[] [] []], b as [[] [] []]. Qed.

Lemma merge_trust_comm x a b :
  a ≠ Some TrustUnset → b ≠ Some TrustUnset →
  merge_trust (merge_trust x a) b = merge_trust (merge_trust x b) a.
Proof. destruct x as [[]|], a as [[]|], b as [[]|]; intros; done. Qed.

(** ** Compliance, as documented *)
Definition at_most (v : Z) (o : option Z) : Prop := ∀ m, o = Some m → v ≤ m.
Definition at_least (v : Z) (o : option Z) : Prop := ∀ m, o = Some m → m ≤ v.

Definition requirements_ok (agent : SwarmAgent) (r : PolicyRequirements) : Prop :=
  (BudgetRef r = true → has_budget agent = true) ∧
  (Audit r = true → audit_enabled agent = true) ∧
  (AllowList r = true → has_allow_list agent = true).

Definition limits_ok (agent : SwarmAgent) (l : PolicyLimits) : Prop :=
  ∀ a, agent_limits agent = Some a →
    at_most (DailyTokens a) (MaxDailyTokens l) ∧
    at_most (wrap32 (TokensPerCall a)) (MaxTokensPerCall l) ∧
    at_most (wrap32 (limits_TimeoutSeconds a)) (MaxTimeoutSeconds l) ∧
    at_least (wrap32 (limits_TimeoutSeconds a)) (MinTimeoutSeconds l).

Definition denied_ok (agent : SwarmAgent) (denied : list string) : Prop :=
  ∀ pat, pat ∈ denied → globMatch pat (agent_Model (agent_Spec agent)) = false.

Definition allows (agent : SwarmAgent) (pat : string) : Prop :=
  globMatch pat (agent_Model (agent_Spec agent)) = true.

(** The constraints of one policy other than its allow list. *)
Definition meets_base (agent : SwarmAgent) (p : SwarmPolicy) : Prop :=
  requirements_ok agent (pol_requirements p) ∧
  (∀ l, pol_limits p = Some l → limits_ok agent l) ∧
  denied_ok agent (pol_denied p).

(** [pat] is listed by every policy that has an allow list, and there is one. *)
Definition common_pattern (ps : list SwarmPolicy) (pat : string) : Prop :=
  (∃ p, p ∈ ps ∧ pol_allowed p ≠ []) ∧
  ∀ p, p ∈ ps → pol_allowed p ≠ [] → pat ∈ pol_allowed p.

(** ** Lemmas: bounds under the merge *)
Lemma at_most_Some v m : at_most v (Some m) ↔ v ≤ m.
Proof. unfold at_most. naive_solver. Qed.
Lemma at_least_Some v m : at_least v (Some m) ↔ m ≤ v.
Proof. unfold at_least. naive_solver. Qed.
Lemma at_most_None v : at_most v None ↔ True.
Proof. unfold at_most. naive_solver. Qed.
Lemma at_least_None v : at_least v None ↔ True.
Proof. unfold at_least. naive_solver. Qed.

Lemma at_most_minPtr v a b : at_most v (minPtr a b) ↔ at_most v a ∧ at_most v b.
Proof.
  destruct a as [x|], b as [y|]; simpl; [destruct (Z.ltb_spec y x)|..];
    rewrite ?at_most_Some, ?at_most_None; lia.
Qed.

Lemma at_least_maxPtr v a b : at_least v (maxPtr a b) ↔ at_least v a ∧ at_least v b.
Proof.
  destruct a as [x|], b as [y|]; simpl; [rewrite Z.gtb_ltb; destruct (Z.ltb_spec x y)|..];
    rewrite ?at_least_Some, ?at_least_None; lia.
Qed.

Lemma limits_ok_merge agent d s : limits_ok agent (mergeLimits d s) ↔ limits_ok agent d ∧ limits_ok agent s.
Proof.
  unfold limits_ok, mergeLimits. simpl. setoid_rewrite at_most_minPtr.
  setoid_rewrite at_least_maxPtr. naive_solver.
Qed.

Definition olimits_ok (agent : SwarmAgent) (o : option PolicyLimits) : Prop :=
  ∀ l, o = Some l → limits_ok agent l.

Lemma limits_ok_none agent : limits_ok agent no_limits.
Proof. unfold limits_ok, at_most, at_least. simpl. naive_solver. Qed.

Lemma olimits_ok_merge agent x a :
  olimits_ok agent (merge_limits x a) ↔ olimits_ok agent x ∧ olimits_ok agent a.
Proof.
  unfold olimits_ok. destruct a as [s|]; simpl; [|naive_solver].
  transitivity (limits_ok agent (mergeLimits (default no_limits x) s)); [naive_solver|].
  rewrite limits_ok_merge. pose proof (limits_ok_none agent). destruct x; simpl; naive_solver.
Qed.

Lemma requirements_ok_merge agent x a :
  requirements_ok agent (merge_requirements x a) ↔ requirements_ok agent x ∧ requirements_ok agent a.
Proof.
  unfold requirements_ok. destruct x as [[] [] []], a as [[] [] []]; simpl; naive_solver.
Qed.

(** A fold whose step means a conjunction means the conjunction over the list. *)
Lemma foldl_conj {A B} (Q : A → Prop) (R : B → Prop) (f : A → B → A) :
  (∀ x b, Q (f x b) ↔ Q x ∧ R b) →
  ∀ l x, Q (foldl f x l) ↔ Q x ∧ ∀ b, b ∈ l → R b.
Proof.
  intros Hf l. induction l as [|b l IH]; intros x; simpl; [set_solver|].
  rewrite IH, Hf. setoid_rewrite elem_of_cons. naive_solver.
Qed.

(** ** Lemmas: the checks *)
Lemma app_nil_iff {A} (l1 l2 : list A) : l1 ++ l2 = [] ↔ l1 = [] ∧ l2 = [].
Proof. destruct l1; naive_solver. Qed.

Lemma checkRequirements_nil agent r : checkRequirements agent r = [] ↔ requirements_ok agent r.
Proof.
  unfold checkRequirements, requirements_ok. rewrite !app_nil_iff.
  destruct (BudgetRef r), (Audit r), (AllowList r), (has_budget agent), (audit_enabled agent),
    (has_allow_list agent); simpl; naive_solver.
Qed.

Lemma at_most_check v o c m :
  match o with Some x => if v >? x then [violation c (m x)] else [] | None => [] end = [] ↔
  at_most v o.
Proof.
  destruct o as [x|]; rewrite ?at_most_Some, ?at_most_None; [|by split].
  rewrite Z.gtb_ltb. destruct (Z.ltb_spec x v); split; intros; done || lia.
Qed.

Lemma at_least_check v o c m :
  match o with Some x => if v <? x then [violation c (m x)] else [] | None => [] end = [] ↔
  at_least v o.
Proof.
  destruct o as [x|]; rewrite ?at_least_Some, ?at_least_None; [|by split].
  destruct (Z.ltb_spec v x); split; intros; done || lia.
Qed.

Lemma checkLimits_nil agent o : checkLimits agent o = [] ↔ olimits_ok agent o.
Proof.
  unfold checkLimits, olimits_ok, limits_ok. destruct o as [l|]; [|naive_solver].
  destruct (agent_limits agent) as [a|]; [|naive_solver].
  rewrite !app_nil_iff.
  rewrite (at_most_check _ _ _ (λ m, _)), (at_most_check _ _ _ (λ m, _)),
    (at_most_check _ _ _ (λ m, _)), (at_least_check _ _ _ (λ m, _)). naive_solver.
Qed.

Lemma find_denied agent denied :
  List.find (λ pat, globMatch pat (agent_Model (agent_Spec agent))) denied = None ↔
  denied_ok agent denied.
Proof.
  unfold denied_ok. induction denied as [|p ps IH]; simpl; [set_solver|].
  setoid_rewrite elem_of_cons. destruct (globMatch p _) eqn:G; [naive_solver congruence|].
  rewrite IH. naive_solver.
Qed.

Lemma checkModels_nil agent m :
  checkModels (agent_Model (agent_Spec agent)) (Some m) = [] ↔
  denied_ok agent (Denied m) ∧ (Allowed m = [] ∨ ∃ pat, pat ∈ Allowed m ∧ allows agent pat).
Proof.
  unfold checkModels, allows. rewrite app_nil_iff, <- find_denied.
  destruct (List.find _ _) as [p|]; [naive_solver|].
  destruct (Allowed m) as [|a al]; [naive_solver|].
  destruct (existsb _ _) eqn:E.
  - apply existsb_exists in E as (pat & Hin & Hm). apply list_elem_of_In in Hin. naive_solver.
  - split; [by intros [_ ?]|]. intros [_ [?|(pat & Hin & Hm)]]; [done|].
    assert (existsb (λ pattern, globMatch pattern (agent_Model (agent_Spec agent))) (a :: al) = true)
      by (apply existsb_exists; exists pat; by rewrite <- list_elem_of_In). congruence.
Qed.

(** The constraints of a policy other than its allow list, decided by evaluating the
    policy without it. *)
Lemma meets_base_check agent p :
  checkRequirements agent (pol_requirements p) = [] → checkLimits agent (pol_limits p) = [] →
  checkModels (agent_Model (agent_Spec agent)) (Some (mkPolicyModels [] (pol_denied p))) = [] →
  meets_base agent p.
Proof.
  rewrite checkRequirements_nil, checkLimits_nil, checkModels_nil. simpl.
  unfold meets_base, olimits_ok. naive_solver.
Qed.

(** ** The whole merge *)
Definition strictest_mode (ps : list SwarmPolicy) := foldl merge_mode PolicyEnforcementAudit (pol_mode <$> ps).

Lemma merge_finish_eq ps :
  merge_finish (foldl merge_policy merge_init ps) =
  mkEffectivePolicySpec
    (foldl merge_limits None (pol_limits <$> ps))
    (sorted_set (list_to_set (ps ≫= pol_tool_deny)))
    (foldl merge_trust None (pol_trust <$> ps))
    (foldl merge_validation PolicyOutputLevelNone (pol_validation <$> ps))
    (sorted_set (list_to_set (ps ≫= pol_deny_patterns)))
    (if decide (ps ≫= pol_allow = [] ∧ (list_to_set (ps ≫= pol_denied) : gset string) = ∅) then None
     else Some (mkPolicyModels (intersectAllowLists (ps ≫= pol_allow))
                  (sorted_set (list_to_set (ps ≫= pol_denied)))))
    (foldl merge_requirements (mkPolicyRequirements false false false) (pol_requirements <$> ps))
    (strictest_mode ps).
Proof.
  rewrite merge_fold_fields. unfold merge_finish. simpl. rewrite !(right_id_L ∅ (∪)).
  case_decide; simpl; [done|]. f_equal. f_equal. f_equal. by destruct (ps ≫= pol_allow).
Qed.

Lemma elem_of_pol_allow ps e :
  e ∈ ps ≫= pol_allow ↔ ∃ p, p ∈ ps ∧ pol_allowed p ≠ [] ∧ e = mkAllowEntry (policy_Name p) (pol_allowed p).
Proof.
  rewrite list_elem_of_bind. unfold pol_allow. split.
  - intros (p & He & Hp). exists p. destruct (pol_allowed p); [set_solver|].
    apply list_elem_of_singleton in He as ->. done.
  - intros (p & Hp & Hne & ->). exists p. split; [|done].
    destruct (pol_allowed p); [done|]. by apply list_elem_of_singleton.
Qed.

Lemma intersect_common ps pat :
  pat ∈ intersectAllowLists (ps ≫= pol_allow) ↔ common_pattern ps pat.
Proof.
  unfold common_pattern. destruct (decide (ps ≫= pol_allow = [])) as [E|E].
  - rewrite E. simpl. split; [set_solver|]. intros [(p & Hp & Hne) _]. exfalso.
    assert (mkAllowEntry (policy_Name p) (pol_allowed p) ∈ ps ≫= pol_allow) as Hin
      by (apply elem_of_pol_allow; eauto). rewrite E in Hin. set_solver.
  - rewrite intersectAllowLists_elem by done. setoid_rewrite elem_of_pol_allow. split.
    + intros H. split.
      * destruct (ps ≫= pol_allow) as [|e l] eqn:El; [done|].
        assert (e ∈ ps ≫= pol_allow) as He by (rewrite El; left).
        apply elem_of_pol_allow in He as (p & ? & ? & _). eauto.
      * intros p Hp Hne. apply (H (mkAllowEntry (policy_Name p) (pol_allowed p))). eauto.
    + intros [_ H] e (p & Hp & Hne & ->). by apply H.
Qed.

Lemma denied_ok_bind agent ps :
  denied_ok agent (sorted_set (list_to_set (ps ≫= pol_denied))) ↔
  ∀ p, p ∈ ps → denied_ok agent (pol_denied p).
Proof.
  unfold denied_ok. setoid_rewrite sorted_set_elem. setoid_rewrite elem_of_list_to_set.
  setoid_rewrite list_elem_of_bind. naive_solver.
Qed.

Lemma merged_models_ok agent ps :
  checkModels (agent_Model (agent_Spec agent)) (Models (merge_finish (foldl merge_policy merge_init ps))) = [] ↔
  (∀ p, p ∈ ps → denied_ok agent (pol_denied p)) ∧
  ((∀ pat, ¬ common_pattern ps pat) ∨ ∃ pat, common_pattern ps pat ∧ allows agent pat).
Proof.
  rewrite merge_finish_eq. simpl. rewrite <- denied_ok_bind. case_decide as Hd.
  - destruct Hd as [Ha Hdn]. rewrite Hdn. simpl. split; [|done]. intros _. split.
    + unfold denied_ok. intros pat Hin. apply sorted_set_elem in Hin. set_solver.
    + left. intros pat Hc. apply intersect_common in Hc. rewrite Ha in Hc. set_solver.
  - rewrite checkModels_nil. simpl. setoid_rewrite intersect_common.
    assert (intersectAllowLists (ps ≫= pol_allow) = [] ↔ ∀ pat, ¬ common_pattern ps pat) as ->.
    { setoid_rewrite <- intersect_common. split; [intros ->; set_solver|].
      intros H. destruct (intersectAllowLists _) as [|pat l]; [done|]. destruct (H pat). left. }
    done.
Qed.

(** C7: compliance with the merged policy is compliance with every policy of the
    namespace as far as requirements, limits and denied models go; for allowed models it
    asks for a match with a pattern that all the allow lists share, and asks nothing at
    all when they share none. *)
Theorem MergePolicies_compliance (agent : SwarmAgent) (ps : list SwarmPolicy) :
  ps ≠ [] →
  EvaluateAgentCompliance agent (MergePolicies ps).1 = [] ↔
  (∀ p, p ∈ ps → meets_base agent p) ∧
  ((∀ pat, ¬ common_pattern ps pat) ∨ ∃ pat, common_pattern ps pat ∧ allows agent pat).
Proof.
  intros Hne. destruct ps as [|p0 rest] eqn:E; [done|]. rewrite <- E in *. clear Hne.
  assert ((MergePolicies ps).1 = Some (merge_finish (foldl merge_policy merge_init ps))) as ->
    by by subst ps.
  clear E p0 rest. unfold EvaluateAgentCompliance.
  rewrite !app_nil_iff, merged_models_ok, checkRequirements_nil, checkLimits_nil.
  rewrite merge_finish_eq. simpl.
  rewrite (foldl_conj (requirements_ok agent) (requirements_ok agent)) by apply requirements_ok_merge.
  rewrite (foldl_conj (olimits_ok agent) (olimits_ok agent)) by apply olimits_ok_merge.
  setoid_rewrite list_elem_of_fmap. unfold meets_base.
  assert (requirements_ok agent (mkPolicyRequirements false false false)) by done.
  assert (olimits_ok agent None) by done.
  split; [|naive_solver]. intros ([_ Hr] & [_ Hl] & Hd & Ha). split; [|done].
  intros p Hp. split; [apply Hr; eauto|]. split; [|by apply Hd].
  apply (Hl (pol_limits p)). eauto.
Qed.

(** The trust level of a policy is one of the three of the CRD's enumeration. *)
Definition valid_trust (p : SwarmPolicy) : Prop := pol_trust p ≠ Some TrustUnset.

Lemma bind_perm {A B} (g : A → list B) l1 l2 : l1 ≡ₚ l2 → l1 ≫= g ≡ₚ l2 ≫= g.
Proof. intros H. by rewrite H. Qed.

(** the effective policy does not depend on the order in which the policies of the
    namespace are listed. *)
Theorem MergePolicies_order (ps qs : list SwarmPolicy) :
  ps ≡ₚ qs → Forall valid_trust ps → (MergePolicies ps).1 = (MergePolicies qs).1.
Proof.
  intros Hp Hv. destruct ps as [|p0 rest] eqn:E; [by apply Permutation_nil_l in Hp as ->|].
  destruct qs as [|q0 rest'] eqn:E'; [by apply Permutation_nil_r in Hp|].
  assert (∀ l, l ≠ [] → (MergePolicies l).1 = Some (merge_finish (foldl merge_policy merge_init l))) as HM
    by (by intros []).
  rewrite !HM by done. rewrite <- E in *. rewrite <- E' in *.

  clear E E' p0 q0 rest rest'. f_equal. rewrite !merge_finish_eq. unfold strictest_mode. f_equal.
  all: try (apply (foldl_perm (λ _, True)); [solve [auto using merge_limits_comm, merge_validation_comm,
    merge_requirements_comm, merge_mode_comm]|by rewrite Hp|by apply Forall_true]).
  - unfold sorted_set. by rewrite Hp.
  - apply (foldl_perm (λ t, t ≠ Some TrustUnset)); [auto using merge_trust_comm|by rewrite Hp|].
    by apply Forall_fmap.
  - unfold sorted_set. by rewrite Hp.
  - rewrite (intersectAllowLists_proper _ _ (bind_perm pol_allow _ _ Hp)).
    rewrite (decide_ext _ (qs ≫= pol_allow = [] ∧ (list_to_set (qs ≫= pol_denied) : gset string) = ∅)).
    + case_decide; [done|]. unfold sorted_set. by rewrite Hp.
    + pose proof (bind_perm pol_allow _ _ Hp) as Ha.
      assert ((list_to_set (ps ≫= pol_denied) : gset string) = list_to_set (qs ≫= pol_denied))
        as -> by (by rewrite Hp).
      split; intros [H1 H2]; (split; [|done]); rewrite H1 in Ha.
      * by apply Permutation_nil_l in Ha.
      * by apply Permutation_nil_r in Ha.
Qed.

(** A mode is the strictest of a list: it is Audit or in the list, and at least as strict
    as every element. *)
Lemma strictest_mode_spec x ms :
  (foldl merge_mode x ms = x ∨ foldl merge_mode x ms ∈ ms) ∧
  enforcementModeOrder x ≤ enforcementModeOrder (foldl merge_mode x ms) ∧
  ∀ m, m ∈ ms → enforcementModeOrder m ≤ enforcementModeOrder (foldl merge_mode x ms).
Proof.
  revert x. induction ms as [|m ms IH]; intros x; simpl; [split; [by left|split; [lia|set_solver]]|].
  destruct (IH (merge_mode x m)) as (H1 & H2 & H3). setoid_rewrite elem_of_cons.
  assert ((merge_mode x m = x ∨ merge_mode x m = m) ∧
          enforcementModeOrder x ≤ enforcementModeOrder (merge_mode x m) ∧ enforcementModeOrder m ≤ enforcementModeOrder (merge_mode x m)) as (E & E1 & E2)
    by (by destruct x, m; simpl; auto with lia).
  split; [destruct H1 as [->|]; [destruct E as [->| ->]|]; auto|]. split; [lia|].
  intros m' [->|]; [lia|auto].
Qed.

Lemma strictest_validation_spec x ls :
  (foldl merge_validation x ls = x ∨ foldl merge_validation x ls ∈ ls) ∧
  validationLevelOrder x ≤ validationLevelOrder (foldl merge_validation x ls) ∧
  ∀ l, l ∈ ls → validationLevelOrder l ≤ validationLevelOrder (foldl merge_validation x ls).
Proof.
  revert x. induction ls as [|m ms IH]; intros x; simpl; [split; [by left|split; [lia|set_solver]]|].
  destruct (IH (merge_validation x m)) as (H1 & H2 & H3). setoid_rewrite elem_of_cons.
  assert ((merge_validation x m = x ∨ merge_validation x m = m) ∧
          validationLevelOrder x ≤ validationLevelOrder (merge_validation x m) ∧ validationLevelOrder m ≤ validationLevelOrder (merge_validation x m)) as (E & E1 & E2)
    by (by destruct x, m; simpl; auto with lia).
  split; [destruct H1 as [->|]; [destruct E as [->| ->]|]; auto|]. split; [lia|].
  intros m' [->|]; [lia|auto].
Qed.

(** the strictest value wins: the merged deny lists are exactly the unions of the
    policies' lists, sorted and without repetition, and the enforcement mode and the
    validation level are the strictest of the policies'. *)
Theorem MergePolicies_strictest (ps : list SwarmPolicy) (eff : EffectivePolicySpec) :
  (MergePolicies ps).1 = Some eff →
  (∀ d, d ∈ ToolDeny eff ↔ ∃ p, p ∈ ps ∧ d ∈ pol_tool_deny p) ∧
  (∀ d, d ∈ DenyPatterns eff ↔ ∃ p, p ∈ ps ∧ d ∈ pol_deny_patterns p) ∧
  NoDup (ToolDeny eff) ∧ Sorted str_le (ToolDeny eff) ∧
  (EnforcementMode eff = PolicyEnforcementAudit ∨
     ∃ p, p ∈ ps ∧ EnforcementMode eff = pol_mode p) ∧
  (MinValidation eff = PolicyOutputLevelNone ∨
     ∃ p, p ∈ ps ∧ MinValidation eff = pol_validation p) ∧
  (∀ p, p ∈ ps →
     enforcementModeOrder (pol_mode p) ≤ enforcementModeOrder (EnforcementMode eff) ∧
     validationLevelOrder (pol_validation p) ≤ validationLevelOrder (MinValidation eff)).
Proof.
  intros He. assert (eff = merge_finish (foldl merge_policy merge_init ps)) as ->
    by (destruct ps; simplify_eq/=; done).
  rewrite merge_finish_eq. simpl.
  split. { intros d. rewrite sorted_set_elem, elem_of_list_to_set, list_elem_of_bind. naive_solver. }
  split. { intros d. rewrite sorted_set_elem, elem_of_list_to_set, list_elem_of_bind. naive_solver. }
  split; [apply sorted_set_NoDup|]. split; [apply sort_strings_sorted|].
  destruct (strictest_mode_spec PolicyEnforcementAudit (pol_mode <$> ps)) as (M1 & _ & M3).
  destruct (strictest_validation_spec PolicyOutputLevelNone (pol_validation <$> ps)) as (V1 & _ & V3).
  split; [destruct M1 as [|(p & Hm & Hp)%list_elem_of_fmap_1]; [by left|eauto]|].
  split; [destruct V1 as [|(p & Hm & Hp)%list_elem_of_fmap_1]; [by left|eauto]|].
  intros p Hp. split; [apply M3|apply V3]; by apply list_elem_of_fmap_2.
Qed.

(** allow lists that share no pattern cancel each other: the merged policy allows
    any model that no policy denies, including models that every single policy with an
    allow list forbids. *)
Theorem MergePolicies_disjoint_allow (ps : list SwarmPolicy) (agent : SwarmAgent) :
  (∀ pat, ¬ common_pattern ps pat) →
  (∀ p, p ∈ ps → meets_base agent p) →
  EvaluateAgentCompliance agent (MergePolicies ps).1 = [].
Proof.
  intros Hc Hb. destruct ps as [|p0 rest] eqn:E; [done|]. rewrite <- E in *.
  assert ((MergePolicies ps).1 = Some (merge_finish (foldl merge_policy merge_init ps))) as ->
    by by subst ps.
  unfold EvaluateAgentCompliance. rewrite !app_nil_iff, merged_models_ok, checkRequirements_nil,
    checkLimits_nil, merge_finish_eq. simpl.
  rewrite (foldl_conj (requirements_ok agent) (requirements_ok agent)) by apply requirements_ok_merge.
  rewrite (foldl_conj (olimits_ok agent) (olimits_ok agent)) by apply olimits_ok_merge.
  setoid_rewrite list_elem_of_fmap. unfold meets_base in Hb.
  split; [|split; [|split; [|by left]]].
  - split; [done|]. intros r (p & -> & Hp). apply (Hb p Hp).
  - split; [done|]. intros o (p & -> & Hp). by destruct (Hb p Hp) as (_ & ? & _).
  - intros p Hp. apply (Hb p Hp).
Qed.

(** the ceilings on tokens per call and on the timeout are compared after a
    conversion to int32: an agent that asks for 2^32 tokens per call, or 2^32 + 1 seconds,
    passes any ceiling. *)
Theorem checkLimits_int32_bypass (agent : SwarmAgent) (a : GuardrailLimits) (m t : Z) :
  agent_limits agent = Some a →
  TokensPerCall a = 2 ^ 32 → limits_TimeoutSeconds a = 2 ^ 32 + 1 →
  0 < m < 2 ^ 31 → 0 < t < 2 ^ 31 →
  checkLimits agent (Some (mkPolicyLimits None (Some m) (Some t) None None None None)) = [] ∧
  m < TokensPerCall a ∧ t < limits_TimeoutSeconds a.
Proof.
  intros Ha HT HS Hm Ht. split; [|lia]. apply checkLimits_nil.
  intros ? [= <-] a' Ha'. rewrite Ha in Ha'. simplify_eq.
  simpl. rewrite HT, HS, !at_most_Some, at_most_None, at_least_None.
  change (wrap32 (2 ^ 32)) with 0. change (wrap32 (2 ^ 32 + 1)) with 1. lia.
Qed.

(** ** Lemmas: clamping *)
Lemma cap_at_min v m : cap_at v (Some m) = Z.min v m.
Proof. unfold cap_at. rewrite Z.gtb_ltb. destruct (Z.ltb_spec m v); lia. Qed.

Lemma raise_to_max v m : raise_to v (Some m) = Z.max v m.
Proof. unfold raise_to. destruct (Z.ltb_spec v m); lia. Qed.

Lemma cap_at_spec v o :
  at_most (cap_at v o) o ∧ cap_at v o ≤ v ∧ (at_most v o → cap_at v o = v) ∧
  cap_at (cap_at v o) o = cap_at v o.
Proof.
  destruct o as [m|]; [rewrite !cap_at_min, !at_most_Some|rewrite !at_most_None; simpl]; lia.
Qed.

Definition timeout_clamp (v : Z) (hi lo : option Z) : Z := raise_to (cap_at v hi) lo.

Lemma timeout_clamp_spec v hi lo :
  at_least (timeout_clamp v hi lo) lo ∧
  ((∀ l h, lo = Some l → hi = Some h → l ≤ h) → at_most (timeout_clamp v hi lo) hi) ∧
  (at_most v hi → at_least v lo → timeout_clamp v hi lo = v) ∧
  timeout_clamp (timeout_clamp v hi lo) hi lo = timeout_clamp v hi lo.
Proof.
  unfold timeout_clamp. destruct hi as [h|], lo as [l|];
    rewrite ?cap_at_min, ?raise_to_max, ?cap_at_min, ?raise_to_max, ?at_most_Some,
      ?at_least_Some, ?at_most_None, ?at_least_None; simpl;
    (split; [lia|split; [|lia]]); intros H; try (specialize (H _ _ eq_refl eq_refl)); lia.
Qed.

Definition daily_cap (v : Z) (o : option Z) : Z :=
  match o with Some m => if (v =? 0) || (v >? m) then m else v | None => v end.

Lemma daily_cap_spec v o :
  at_most (daily_cap v o) o ∧ (0 < v → at_most v o → daily_cap v o = v) ∧
  daily_cap (daily_cap v o) o = daily_cap v o.
Proof.
  unfold daily_cap. destruct o as [m|]; rewrite ?at_most_Some, ?at_most_None; [|lia].
  rewrite !Z.gtb_ltb. destruct (Z.eqb_spec v 0) as [->|]; simpl.
  { split; [lia|]. split; [lia|]. by destruct (_ || _). }
  destruct (Z.ltb_spec m v); simpl.
  { split; [lia|]. split; [lia|]. by destruct (_ || _). }
  destruct (Z.eqb_spec v 0); [lia|]. destruct (Z.ltb_spec m v); simpl; lia.
Qed.

(** the limits a pod runs with: clamping an agent's values against the effective
    policy yields values within the ceilings (and above the timeout floor, which wins
    over a contradicting ceiling), keeps values that are already within, gives a daily
    limit to an agent without one, and clamping twice is clamping once. *)
Theorem applyPolicyLimits_spec (tokens timeout retries daily : Z) (e : EffectivePolicySpec)
    (l : PolicyLimits) :
  Limits e = Some l →
  let '(tokens', timeout', retries', daily') :=
    applyPolicyLimits tokens timeout retries daily (Some e) in
  at_most tokens' (MaxTokensPerCall l) ∧ tokens' ≤ tokens ∧
  (at_most tokens (MaxTokensPerCall l) → tokens' = tokens) ∧
  at_least timeout' (MinTimeoutSeconds l) ∧
  ((∀ lo hi, MinTimeoutSeconds l = Some lo → MaxTimeoutSeconds l = Some hi → lo ≤ hi) →
     at_most timeout' (MaxTimeoutSeconds l)) ∧
  (at_most timeout (MaxTimeoutSeconds l) → at_least timeout (MinTimeoutSeconds l) →
     timeout' = timeout) ∧
  at_most daily' (MaxDailyTokens l) ∧
  (0 < daily → at_most daily (MaxDailyTokens l) → daily' = daily) ∧
  retries' = retries ∧
  applyPolicyLimits tokens' timeout' retries' daily' (Some e) = (tokens', timeout', retries', daily').
Proof.
  intros Hl. unfold applyPolicyLimits. rewrite Hl.
  pose proof (cap_at_spec tokens (MaxTokensPerCall l)) as (C1 & C2 & C3 & C4).
  pose proof (daily_cap_spec daily (MaxDailyTokens l)) as (D1 & D2 & D3).
  pose proof (timeout_clamp_spec timeout (MaxTimeoutSeconds l) (MinTimeoutSeconds l))
    as (T1 & T2 & T3 & T4).
  unfold daily_cap, timeout_clamp in *.
  repeat (split; [done|]). by rewrite C4, T4, D3.
Qed.
