(* ===== verification/PolicyController.v ===== *)
(** * PolicyController: enforcing policies (internal/controller/swarmpolicy_controller.go,
    internal/webhook/swarmagent_policy_webhook.go).

    The admission decision for an agent, and the reconciliation that writes compliance
    back to the agents.  Calls to the API server return what the arguments say: the
    decoded object, the listed policies, and whether each write succeeds. *)
From Stdlib Require Import ZArith Lia Ascii.
From stdpp Require Import base tactics option list strings gmap sets.
From S2P Require Import Prelude GoStd Types Kube AgentTypes Policy PolicyProps.

(** ** The admission webhook *)
Inductive AdmissionResponse :=
| Allowed_ (message : string) (warnings : list string)
| Denied_ (message : string)
| Errored (code : Z) (message : string).

(** Listing and merging the policies of the namespace; [inr] is an early response. *)
Definition fetchEffectivePolicyForWebhook (listed : result string (list SwarmPolicy))
    : EffectivePolicySpec + AdmissionResponse :=
  match listed with
  | Err _ => inr (Allowed_ "unable to list policies, deferring to controller" [])
  | Ok [] => inr (Allowed_ "no policies in namespace" [])
  | Ok items =>
      match (MergePolicies items).1 with
      | None => inr (Allowed_ "no effective policy" [])
      | Some eff => inl eff
      end
  end.

Definition applyEnforcementMode (mode : PolicyEnforcementMode) (msgs : list string)
    : AdmissionResponse :=
  match mode with
  | PolicyEnforcementEnforce => Denied_ (str_join "; " msgs)
  | PolicyEnforcementWarn => Allowed_ "" msgs
  | _ => Allowed_ "audit mode: violations logged" []
  end.

Definition Handle (decoded : result string SwarmAgent)
    (listed : result string (list SwarmPolicy)) : AdmissionResponse :=
  match decoded with
  | Err e => Errored 400 e
  | Ok agent =>
      match fetchEffectivePolicyForWebhook listed with
      | inr resp => resp
      | inl eff =>
          match EvaluateAgentCompliance agent (Some eff) with
          | [] => Allowed_ "agent compliant with all policies" []
          | violations =>
              applyEnforcementMode (EnforcementMode eff)
                ((λ v, "SwarmPolicy violation: " +:+ violation_Message v) <$> violations)
          end
      end
  end.

(** ** The reconciler *)
Definition ConditionEnforcing := "Enforcing".
Definition ConditionConflicting := "Conflicting".
Definition ConditionPolicyCompliant := "PolicyCompliant".
Definition LabelPolicyCompliant := "kubeswarm.io/policy-compliant".
Definition defaultPolicyBatchSize : Z := 50.

Definition policyBatchSize (configured : Z) : Z :=
  if configured >? 0 then configured else defaultPolicyBatchSize.

(** What the API server answers to the writes on an object of that name. *)
Record api_outcome := mkApiOutcome {
  status_update_ok : string → bool;
  patch_ok : string → bool }.

Definition constraint_less (a b : PolicyViolation) : bool :=
  String.ltb (Constraint a) (Constraint b).

Definition formatConflicts (conflicts : list PolicyConflict) : string :=
  str_join "; " ((λ c, Field c +:+ ": " +:+ conflict_Message c +:+ " (policies: " +:+
                       PolicyA c +:+ ", " +:+ PolicyB c +:+ ")") <$> conflicts).

(** The deep copy with contradicting timeouts cleared. *)
Definition sanitizeEffectivePolicy (ep : option EffectivePolicySpec)
    : option EffectivePolicySpec :=
  match ep with
  | None => None
  | Some e =>
      match Limits e with
      | Some l =>
          match MinTimeoutSeconds l, MaxTimeoutSeconds l with
          | Some lo, Some hi =>
              if lo >? hi then
                Some (e <| Limits := Some (l <| MinTimeoutSeconds := None |>
                                             <| MaxTimeoutSeconds := None |>) |>)
              else Some e
          | _, _ => Some e
          end
      | None => Some e
      end
  end.

Section reconcile.
Context {conditionApi : ConditionApi} {sortViolations : SliceSort PolicyViolation}.

Definition formatViolations (violations : list PolicyViolation) : string :=
  match violations with
  | [] => ""
  | _ => str_join "; " (violation_Message <$> sort_slice constraint_less violations)
  end.

(** The agent as the API server stores it afterwards, and whether the call succeeded. *)
Definition updateAgentCompliance (api : api_outcome) (agent : SwarmAgent)
    (isCompliant : bool) (violations : list PolicyViolation) : SwarmAgent * bool :=
  let desiredStatus := if isCompliant then ConditionTrue else ConditionFalse in
  let desiredReason := if isCompliant then "Compliant" else "NonCompliant" in
  let desiredMsg := if isCompliant then "Agent satisfies all policy constraints"
                    else formatViolations violations in
  let desiredLabel := if isCompliant then "true" else "false" in
  let conditionUnchanged :=
    match FindStatusCondition (agent_Conditions (agent_Status agent)) ConditionPolicyCompliant with
    | Some c => bool_decide (cond_ObservedGeneration c = agent_Generation agent ∧
                             cond_Status c = desiredStatus)
    | None => false
    end in
  let labelUnchanged :=
    bool_decide (default "" (agent_Labels agent !! LabelPolicyCompliant) = desiredLabel) in
  if conditionUnchanged && labelUnchanged then (agent, true)
  else if negb (status_update_ok api (agent_Name agent)) then (agent, false)
  else
    let agent := agent <| agent_Status ::= λ s, s <| agent_Conditions ::= λ l,
                   setCondition l (agent_Generation agent) ConditionPolicyCompliant
                     desiredStatus desiredReason desiredMsg |> |> in
    if negb labelUnchanged then
      if patch_ok api (agent_Name agent) then
        (agent <| agent_Labels ::= <[LabelPolicyCompliant := desiredLabel]> |>, true)
      else (agent, false)
    else (agent, true).

(** The loop over the agents: the stored agents, [compliantCount] and [updated]. *)
Fixpoint reconcile_agents (api : api_outcome) (batchSize : Z) (eff : option EffectivePolicySpec)
    (agents : list SwarmAgent) (compliantCount updated : Z) : list SwarmAgent * Z * Z :=
  match agents with
  | [] => ([], compliantCount, updated)
  | agent :: rest =>
      let violations := EvaluateAgentCompliance agent eff in
      let isCompliant := match violations with [] => true | _ => false end in
      let compliantCount := if isCompliant then compliantCount + 1 else compliantCount in
      if updated >=? batchSize then
        let '(rest', c, u) := reconcile_agents api batchSize eff rest compliantCount updated in
        (agent :: rest', c, u)
      else
        let '(agent', ok) := updateAgentCompliance api agent isCompliant violations in
        let updated := if ok : bool then updated + 1 else updated in
        let '(rest', c, u) := reconcile_agents api batchSize eff rest compliantCount updated in
        (agent' :: rest', c, u)
  end.

Definition updatePolicyStatus (api : api_outcome) (policy : SwarmPolicy)
    (eff : option EffectivePolicySpec) (agentCount compliantCount : Z) (hasConflicts : bool)
    (conflicts : list PolicyConflict) : SwarmPolicy * bool :=
  let gen := policy_Generation policy in
  let conds := setCondition (policy_Conditions (policy_Status policy)) gen ConditionEnforcing
    ConditionTrue "Active" ("Policy active, " +:+ itoa compliantCount +:+ "/" +:+
      itoa agentCount +:+ " agents compliant") in
  let conds :=
    if hasConflicts then
      setCondition conds gen ConditionConflicting ConditionTrue "ImpossibleConstraints"
        (formatConflicts conflicts)
    else setCondition conds gen ConditionConflicting ConditionFalse "NoConflicts"
           "No conflicting constraints detected" in
  let status := mkSwarmPolicyStatus agentCount compliantCount (sanitizeEffectivePolicy eff)
                  gen conds in
  if decide (policy_Status policy = status) then (policy, true)
  else if status_update_ok api (policy_Name policy) then
    (policy <| policy_Status := status |>, true)
  else (policy, false).

(** The stored agents and policies afterwards, and whether the namespace is requeued. *)
Definition reconcileWithPolicies (api : api_outcome) (configuredBatch : Z)
    (policies : list SwarmPolicy) (agents : list SwarmAgent)
    : list SwarmAgent * list SwarmPolicy * bool :=
  let '(eff, conflicts) := MergePolicies policies in
  let batchSize := policyBatchSize configuredBatch in
  let '(agents', compliantCount, updated) := reconcile_agents api batchSize eff agents 0 0 in
  let agentCount := Z.of_nat (length agents) in
  let hasConflicts := negb (Nat.eqb (length conflicts) 0) in
  let policies' := (λ pol, (updatePolicyStatus api pol eff agentCount compliantCount
                              hasConflicts conflicts).1) <$> policies in
  (agents', policies', (updated >=? batchSize) && (updated <? agentCount)).
End reconcile.

(** ** Specification vocabulary *)
Section reconcile_spec.
Context {conditionApi : ConditionApi} {sortViolations : SliceSort PolicyViolation}.

Definition compliant (eff : option EffectivePolicySpec) (agent : SwarmAgent) : bool :=
  match EvaluateAgentCompliance agent eff with [] => true | _ => false end.

(** The stored agent reports its compliance, in its condition and its label. *)
Definition reports_compliance (eff : option EffectivePolicySpec) (agent : SwarmAgent) : Prop :=
  agent_Labels agent !! LabelPolicyCompliant = Some (if compliant eff agent then "true" else "false") ∧
  ∃ c, FindStatusCondition (agent_Conditions (agent_Status agent)) ConditionPolicyCompliant = Some c ∧
       cond_Status c = (if compliant eff agent then ConditionTrue else ConditionFalse) ∧
       cond_ObservedGeneration c = agent_Generation agent.

Definition all_ok : api_outcome := mkApiOutcome (λ _, true) (λ _, true).

(** The namespace reconciled [n] times with all writes succeeding. *)
Fixpoint reconcile_rounds (n : nat) (batch : Z) (policies : list SwarmPolicy)
    (agents : list SwarmAgent) : list SwarmAgent * list SwarmPolicy :=
  match n with
  | O => (agents, policies)
  | S n' =>
      let '(agents', policies', _) := reconcileWithPolicies all_ok batch policies agents in
      reconcile_rounds n' batch policies' agents'
  end.

(** ** Lemmas *)
Lemma EvaluateAgentCompliance_spec_only a b eff :
  agent_Spec a = agent_Spec b → EvaluateAgentCompliance a eff = EvaluateAgentCompliance b eff.
Proof.
  intros E. unfold EvaluateAgentCompliance, checkRequirements, checkLimits, has_budget,
    audit_enabled, has_allow_list, agent_limits. by rewrite E.
Qed.

Lemma updateAgentCompliance_frame api agent ok vs :
  let a' := (updateAgentCompliance api agent ok vs).1 in
  agent_Spec a' = agent_Spec agent ∧ agent_Name a' = agent_Name agent ∧
  agent_Generation a' = agent_Generation agent.
Proof. unfold updateAgentCompliance. simpl. by repeat case_match. Qed.

Lemma updateAgentCompliance_ok {L : ConditionLaws conditionApi} api agent eff :
  (updateAgentCompliance api agent (compliant eff agent) (EvaluateAgentCompliance agent eff)).2 = true →
  reports_compliance eff
    (updateAgentCompliance api agent (compliant eff agent) (EvaluateAgentCompliance agent eff)).1.
Proof.
  intros Hok. pose proof (updateAgentCompliance_frame api agent (compliant eff agent)
    (EvaluateAgentCompliance agent eff)) as (Hs & _ & Hg).
  unfold reports_compliance. rewrite Hg.
  assert (compliant eff (updateAgentCompliance api agent (compliant eff agent)
    (EvaluateAgentCompliance agent eff)).1 = compliant eff agent) as ->
    by (unfold compliant; by rewrite (EvaluateAgentCompliance_spec_only _ _ _ Hs)).
  clear Hs Hg. unfold updateAgentCompliance in *.
  set (st := if compliant eff agent then ConditionTrue else ConditionFalse) in *.
  set (lab := if compliant eff agent then "true" else "false") in *.
  set (labelUnchanged := bool_decide (default _ (agent_Labels agent !! _) = lab)) in *.
  assert (labelUnchanged = true → agent_Labels agent !! LabelPolicyCompliant = Some lab) as Hl.
  { subst labelUnchanged. rewrite bool_decide_eq_true. intros Hd.
    destruct (agent_Labels agent !! LabelPolicyCompliant); simpl in Hd; [by subst|].
    subst lab. by destruct (compliant eff agent). }
  clearbody labelUnchanged.
  set (cu := match FindStatusCondition _ _ with Some _ => _ | None => _ end) in *.
  assert (cu = true → ∃ c,
    FindStatusCondition (agent_Conditions (agent_Status agent)) ConditionPolicyCompliant = Some c ∧
    cond_Status c = st ∧ cond_ObservedGeneration c = agent_Generation agent) as Hc.
  { subst cu. destruct (FindStatusCondition _ _) as [c|]; [|done].
    rewrite bool_decide_eq_true. intros [? ?]. eauto. }
  clearbody cu. destruct (cu && labelUnchanged) eqn:E.
  { apply andb_true_iff in E as [-> ->]. auto. }
  clear E Hc. destruct (status_update_ok _ _); [|done]. simpl in *.
  pose proof (λ r m, set_condition_find (agent_Conditions (agent_Status agent))
    (mkCondition ConditionPolicyCompliant st (agent_Generation agent) r m)) as Hf.
  simpl in Hf. unfold setCondition. rewrite decide_False by done.
  destruct labelUnchanged; simpl in *.
  - split; [auto|]. eexists. split; [apply Hf|done].
  - destruct (patch_ok _ _); [|done]. simpl. split; [by rewrite lookup_insert_eq|].
    eexists. split; [apply Hf|done].
Qed.

Lemma updateAgentCompliance_all_ok agent ok vs : (updateAgentCompliance all_ok agent ok vs).2 = true.
Proof. unfold updateAgentCompliance. simpl. by repeat case_match. Qed.

(** With all writes succeeding, the loop updates a prefix and leaves the rest alone. *)
Lemma reconcile_agents_prefix {L : ConditionLaws conditionApi} batch eff agents c u :
  0 ≤ u ≤ batch →
  let n := Z.to_nat (batch - u) in
  let '(agents', _, u') := reconcile_agents all_ok batch eff agents c u in
  length agents' = length agents ∧
  Forall (reports_compliance eff) (take n agents') ∧
  drop n agents' = drop n agents ∧
  u' = u + Z.of_nat (Nat.min n (length agents)).
Proof.
  revert c u. induction agents as [|agent rest IH]; intros c u Hu n; simpl.
  { rewrite take_nil, drop_nil, Nat.min_0_r. split; [done|]. split; [constructor|].
    split; [done|lia]. }
  set (viol := EvaluateAgentCompliance agent eff).
  set (c' := if match viol with [] => true | _ => false end then c + 1 else c).
  rewrite Z.geb_leb. destruct (Z.leb_spec batch u) as [Hge|Hlt].
  - specialize (IH c' u Hu). cbv zeta in IH.
    destruct (reconcile_agents all_ok batch eff rest c' u) as [[rest' c2] u2].
    destruct IH as (H1 & H2 & H3 & H4).
    assert (n = 0%nat) as -> by lia. replace (Z.to_nat (batch - u)) with 0%nat in * by lia.
    simpl. rewrite !drop_0 in H3. subst rest'. split; [done|]. split; [constructor|].
    split; [done|lia].
  - change (match viol with [] => true | _ => false end) with (compliant eff agent).
    pose proof (updateAgentCompliance_all_ok agent (compliant eff agent) viol) as Hok.
    pose proof (updateAgentCompliance_ok all_ok agent eff Hok) as Hrep. fold viol in Hrep.
    destruct (updateAgentCompliance all_ok agent (compliant eff agent) viol) as [agent' ok].
    simpl in Hok, Hrep. subst ok. specialize (IH c' (u + 1)). cbv zeta in IH.
    destruct (reconcile_agents all_ok batch eff rest c' (u + 1)) as [[rest' c2] u2].
    destruct IH as (H1 & H2 & H3 & H4); [lia|].
    assert (n = S (Z.to_nat (batch - (u + 1)))) as -> by lia. simpl.
    split; [by rewrite H1|]. split; [by constructor|]. split; [done|lia].
Qed.
End reconcile_spec.

(** ** Theorems *)
Definition rejects (r : AdmissionResponse) : Prop := ∃ msg, r = Denied_ msg.

Lemma MergePolicies_finish ps :
  ps ≠ [] → (MergePolicies ps).1 = Some (merge_finish (foldl merge_policy merge_init ps)).
Proof. by destruct ps. Qed.

(** an agent is rejected at admission exactly when some policy of the namespace is in
    mode Enforce and the agent violates the merged policy; it is warned about exactly when
    it violates and the strictest mode is Warn; and when the policies cannot be listed
    every agent is let in. *)
Theorem Handle_spec (agent : SwarmAgent) (ps : list SwarmPolicy) (e : string) :
  let violates := EvaluateAgentCompliance agent (MergePolicies ps).1 ≠ [] in
  let enforced := ∃ p, p ∈ ps ∧ pol_mode p = PolicyEnforcementEnforce in
  (rejects (Handle (Ok agent) (Ok ps)) ↔ enforced ∧ violates) ∧
  ((∃ msg w ws, Handle (Ok agent) (Ok ps) = Allowed_ msg (w :: ws)) ↔
     ¬ enforced ∧ (∃ p, p ∈ ps ∧ pol_mode p = PolicyEnforcementWarn) ∧ violates) ∧
  ¬ rejects (Handle (Ok agent) (Err e)).
Proof.
  intros violates enforced. split; [|split]; [| |by intros []].
  all: unfold rejects, violates, enforced, Handle, fetchEffectivePolicyForWebhook;
    destruct ps as [|p0 rest] eqn:E;
    [simpl; split; [naive_solver|set_solver]|].
  all: rewrite <- E; destruct (MergePolicies ps).1 as [eff|] eqn:Hm; [|by subst ps].
  all: assert (EnforcementMode eff = strictest_mode ps) as Hmode
    by (rewrite MergePolicies_finish in Hm by (by subst ps); simplify_eq;
        by rewrite merge_finish_eq).
  all: destruct (strictest_mode_spec PolicyEnforcementAudit (pol_mode <$> ps)) as (M1 & _ & M3).
  all: fold (strictest_mode ps) in M1, M3; rewrite <- Hmode in M1, M3.
  all: assert (∀ p, p ∈ ps → enforcementModeOrder (pol_mode p) ≤ enforcementModeOrder (EnforcementMode eff))
    as M4 by (intros p Hp; apply M3; by apply list_elem_of_fmap_2).
  all: assert (EnforcementMode eff = PolicyEnforcementAudit ∨ ∃ p, p ∈ ps ∧ pol_mode p = EnforcementMode eff)
    as M2 by (destruct M1 as [|(p & Hm' & Hp)%list_elem_of_fmap_1]; eauto).
  all: clear M1 M3 Hm Hmode E; destruct (EvaluateAgentCompliance agent (Some eff)) as [|v vs];
    [split; [naive_solver|naive_solver]|].
  - unfold applyEnforcementMode. split.
    + intros [msg Hd]. destruct (EnforcementMode eff); try done. split; [|done]. naive_solver.
    + intros [(p & Hp & Hpm) _]. specialize (M4 p Hp). rewrite Hpm in M4.
      destruct (EnforcementMode eff); simpl in M4; try lia. eauto.
  - unfold applyEnforcementMode. split.
    + intros (msg & w & ws & Hd). destruct (EnforcementMode eff) eqn:Em; try done.
      split; [|split; [naive_solver|done]]. intros (p & Hp & Hpm). specialize (M4 p Hp).
      rewrite Hpm in M4. simpl in M4. lia.
    + intros (Hne & (p & Hp & Hpm) & _). specialize (M4 p Hp). rewrite Hpm in M4.
      destruct (EnforcementMode eff) eqn:Em; simpl in M4; try lia; [eauto|].
      destruct Hne. destruct M2 as [|(q & ? & ?)]; [done|eauto].
Qed.

Section reconcile_theorems.
Context {conditionApi : ConditionApi} {sortViolations : SliceSort PolicyViolation}.

(** one reconciliation of a namespace that fits in a batch makes every stored agent
    report its compliance with the merged policy, in condition and label, and asks for no
    other round. *)
Theorem reconcile_reports {L : ConditionLaws conditionApi} (batch : Z)
    (policies : list SwarmPolicy) (agents : list SwarmAgent) :
  Z.of_nat (length agents) ≤ policyBatchSize batch →
  let '(agents', policies', requeue) := reconcileWithPolicies all_ok batch policies agents in
  length agents' = length agents ∧
  Forall (reports_compliance (MergePolicies policies).1) agents' ∧ requeue = false.
Proof.
  intros Hfit. unfold reconcileWithPolicies.
  destruct (MergePolicies policies) as [eff conflicts]. simpl.
  pose proof (reconcile_agents_prefix (policyBatchSize batch) eff agents 0 0) as H.
  destruct (reconcile_agents _ _ _ _ _ _) as [[agents' c] u].
  destruct H as (H1 & H2 & _ & H4); [lia|].
  rewrite take_ge in H2 by lia. split; [done|]. split; [done|].
  rewrite H4, Z.geb_leb. apply andb_false_iff. right. apply Z.ltb_ge. lia.
Qed.

(** the batch always starts at the first agent and counts agents whose status was
    already up to date, so in a namespace with more agents than a batch the agents beyond
    the first batch are never written, however often the namespace is requeued, and every
    round asks for another one. *)
Theorem reconcile_starves {L : ConditionLaws conditionApi} (rounds : nat) (batch : Z)
    (policies : list SwarmPolicy) (agents : list SwarmAgent) (i : nat) (a : SwarmAgent) :
  policyBatchSize batch < Z.of_nat (length agents) →
  policyBatchSize batch ≤ Z.of_nat i → agents !! i = Some a →
  (reconcile_rounds rounds batch policies agents).1 !! i = Some a ∧
  (reconcileWithPolicies all_ok batch policies agents).2 = true.
Proof.
  assert (0 < policyBatchSize batch) as Hpos.
  { unfold policyBatchSize, defaultPolicyBatchSize. destruct (Z.gtb_spec batch 0); lia. }
  assert (∀ policies agents, policyBatchSize batch < Z.of_nat (length agents) →
    let '(agents', _, requeue) := reconcileWithPolicies all_ok batch policies agents in
    length agents' = length agents ∧
    drop (Z.to_nat (policyBatchSize batch)) agents' = drop (Z.to_nat (policyBatchSize batch)) agents ∧
    requeue = true) as Hstep.
  { clear policies agents. intros policies agents Hlen. unfold reconcileWithPolicies.
    destruct (MergePolicies policies) as [eff conflicts]. simpl.
    pose proof (reconcile_agents_prefix (policyBatchSize batch) eff agents 0 0) as H.
    destruct (reconcile_agents _ _ _ _ _ _) as [[agents' c] u].
    destruct H as (H1 & _ & H3 & H4); [lia|]. rewrite Z.sub_0_r in H3, H4.
    split; [done|]. split; [done|]. rewrite H4, Z.geb_leb. apply andb_true_iff.
    rewrite Z.leb_le, Z.ltb_lt. lia. }
  intros Hlen Hi Ha. split.
  - revert policies agents Hlen Ha. induction rounds as [|n IH]; intros policies agents Hlen Ha;
      [done|]. simpl. specialize (Hstep policies agents Hlen).
    destruct (reconcileWithPolicies _ _ _ _) as [[agents' policies'] requeue].
    destruct Hstep as (H1 & H2 & _). apply IH; [lia|].
    replace i with (Z.to_nat (policyBatchSize batch) + (i - Z.to_nat (policyBatchSize batch)))%nat
      in Ha |- * by lia.
    rewrite <- lookup_drop in Ha |- *. by rewrite H2.
  - specialize (Hstep policies agents Hlen).
    destruct (reconcileWithPolicies _ _ _ _) as [[agents' policies'] requeue]. naive_solver.
Qed.
End reconcile_theorems.

(** ** Witnesses *)
Definition no_requirements := mkPolicyRequirements false false false.
Definition sample_policy (name : string) (mode : PolicyEnforcementMode) (deny allowed : list string)
    (limits : option PolicyLimits) : SwarmPolicy :=
  mkSwarmPolicy name 1
    (mkSwarmPolicySpec mode limits (Some (mkPolicyTools deny (Some ToolTrustExternal))) None
       (Some (mkPolicyModels allowed ["gpt-*"])) no_requirements)
    (mkSwarmPolicyStatus 0 0 None 0 []).

Definition sample_limits : PolicyLimits :=
  mkPolicyLimits (Some 1000) (Some 500) (Some 60) (Some 5) None None None.

Definition policy_a := sample_policy "a" PolicyEnforcementAudit ["shell/*"] ["claude-*"] (Some sample_limits).
Definition policy_b := sample_policy "b" PolicyEnforcementEnforce ["web/*"; "shell/*"] ["gemini-*"] None.

Definition sample_agent (name model : string) (limits : GuardrailLimits) : SwarmAgent :=
  mkSwarmAgent name "ns" 1 ∅ ∅
    (mkSwarmAgentSpec model [] (Some (mkAgentGuardrails None None (Some limits))) None None None [] no_runtime None [] None None)
    (ready_status 1).
Definition modest : GuardrailLimits := mkGuardrailLimits 100 1 30 500 3 None None None.
Definition huge : GuardrailLimits := mkGuardrailLimits (2 ^ 32) 1 (2 ^ 32 + 1) 500 3 None None None.

Lemma MergePolicies_compliance_witness :
  EvaluateAgentCompliance (sample_agent "x" "gpt-5" modest) (MergePolicies [policy_a]).1 ≠ [].
Proof.
  intros H. apply (MergePolicies_compliance (sample_agent "x" "gpt-5" modest) [policy_a]) in H;
    [|done]. destruct H as [H _]. destruct (H policy_a ltac:(left)) as (_ & _ & Hd).
  specialize (Hd "gpt-*" ltac:(left)). vm_compute in Hd. discriminate.
Defined.

Lemma MergePolicies_order_witness :
  (MergePolicies [policy_a; policy_b]).1 = (MergePolicies [policy_b; policy_a]).1.
Proof.
  apply (MergePolicies_order [policy_a; policy_b] [policy_b; policy_a]).
  - apply Permutation_swap.
  - repeat constructor; discriminate.
Defined.

Lemma MergePolicies_strictest_witness :
  ∃ eff, (MergePolicies [policy_a; policy_b]).1 = Some eff ∧ "web/*" ∈ ToolDeny eff.
Proof.
  eexists. split; [reflexivity|].
  apply (MergePolicies_strictest [policy_a; policy_b] _ eq_refl).
  exists policy_b. split; [right; left|left].
Defined.

Lemma MergePolicies_disjoint_allow_witness :
  EvaluateAgentCompliance (sample_agent "x" "llama-3" modest) (MergePolicies [policy_a; policy_b]).1 = [] ∧
  EvaluateAgentCompliance (sample_agent "x" "llama-3" modest) (MergePolicies [policy_a]).1 ≠ [] ∧
  EvaluateAgentCompliance (sample_agent "x" "llama-3" modest) (MergePolicies [policy_b]).1 ≠ [].
Proof.
  split; [|split; vm_compute; discriminate].
  apply (MergePolicies_disjoint_allow [policy_a; policy_b] (sample_agent "x" "llama-3" modest)).
  - intros pat [_ H].
    pose proof (H policy_a ltac:(left) ltac:(discriminate)) as Ha.
    pose proof (H policy_b ltac:(right; left) ltac:(discriminate)) as Hb.
    apply list_elem_of_singleton in Ha, Hb. congruence.
  - intros p Hp. rewrite !elem_of_cons in Hp.
    destruct Hp as [->|[->|Hp]]; [| |by apply not_elem_of_nil in Hp];
      apply meets_base_check; vm_compute; reflexivity.
Defined.

Lemma checkLimits_int32_bypass_witness :
  checkLimits (sample_agent "x" "m" huge)
    (Some (mkPolicyLimits None (Some 500) (Some 60) None None None None)) = [].
Proof.
  apply (checkLimits_int32_bypass (sample_agent "x" "m" huge) huge 500 60);
    (reflexivity || (split; reflexivity)).
Defined.

Lemma applyPolicyLimits_spec_witness :
  let '(tokens, timeout, retries, daily) :=
    applyPolicyLimits 800 2 3 0 (Some (merge_finish (foldl merge_policy merge_init [policy_a]))) in
  at_most tokens (Some 500) ∧ at_least timeout (Some 5).
Proof.
  pose proof (applyPolicyLimits_spec 800 2 3 0
    (merge_finish (foldl merge_policy merge_init [policy_a])) sample_limits eq_refl) as H.
  destruct (applyPolicyLimits _ _ _ _ _) as [[[t u] r] d].
  destruct H as (H1 & _ & _ & H2 & _). split; assumption.
Defined.

Definition keep_order : SliceSort PolicyViolation := λ _ l, l.

Lemma reconcile_reports_witness :
  let '(agents', _, requeue) := @reconcileWithPolicies list_conditions keep_order all_ok 0
    [policy_a] [sample_agent "x" "gpt-5" modest; sample_agent "y" "claude-4" modest] in
  requeue = false.
Proof.
  pose proof (@reconcile_reports list_conditions keep_order list_conditions_laws 0 [policy_a]
    [sample_agent "x" "gpt-5" modest; sample_agent "y" "claude-4" modest]) as H.
  destruct (reconcileWithPolicies _ _ _ _) as [[agents' ps'] r].
  apply H. vm_compute. discriminate.
Defined.

Lemma reconcile_starves_witness :
  (@reconcile_rounds list_conditions keep_order 7 1 [policy_b]
     [sample_agent "x" "claude-4" modest; sample_agent "y" "gpt-5" modest]).1 !! 1%nat =
  Some (sample_agent "y" "gpt-5" modest).
Proof.
  apply (@reconcile_starves list_conditions keep_order list_conditions_laws 7 1 [policy_b]
    [sample_agent "x" "claude-4" modest; sample_agent "y" "gpt-5" modest] 1
    (sample_agent "y" "gpt-5" modest)); [vm_compute; reflexivity|vm_compute; discriminate|reflexivity].
Defined.
