(* ===== verification/PolicyNamespace.v ===== *)
(** * PolicyNamespace: a namespace and its policies
    (internal/controller/swarmpolicy_controller.go).

    The whole reconciliation of a policy: what PolicyController models of the agents and the
    policies of the namespace, the label of the namespace with its cache, and the clean-up when the
    last policy is gone.  Calls to the API server may fail. *)
From Stdlib Require Import ZArith Lia.
From stdpp Require Import base tactics option list strings gmap.
From S2P Require Import Prelude GoStd Types AgentTypes Kube Policy PolicyController.

(** [label_ensured]: the namespace is in the cache of the controller. *)
Record ns_state := mkNsState {
  ns_policies : list SwarmPolicy;
  ns_agents : list SwarmAgent;
  governed_label : bool;
  label_ensured : bool }.
#[export] Instance eta_ns_state : Settable ns_state :=
  λ s, mkNsState (ns_policies s) (ns_agents s) (governed_label s) (label_ensured s).

Record ns_faults := mkNsFaults {
  list_policies_ok : bool;
  list_agents_ok : bool;
  label_patch_ok : bool;
  object_writes : api_outcome }.

Inductive policy_read := PolicyFound (deleting : bool) | PolicyMissing | PolicyUnread (e : string).

Section reconcile.
Context {conditionApi : ConditionApi} {sortViolations : SliceSort PolicyViolation}.
Variable faults : ns_faults.

Definition ensurePolicyGovernedLabel (governed : bool) (s : ns_state) : ns_state :=
  if governed
  then if label_ensured s then s
       else if label_patch_ok faults then s <| governed_label := true |> <| label_ensured := true |> else s
  else
    let s := s <| label_ensured := false |> in
    if label_patch_ok faults then s <| governed_label := false |> else s.

(** The agent as it is stored afterwards. *)
Definition removeAgentPolicyState (agent : SwarmAgent) : SwarmAgent :=
  let changed := bool_decide (is_Some (FindStatusCondition (agent_Conditions (agent_Status agent)) ConditionPolicyCompliant)) in
  if changed && negb (status_update_ok (object_writes faults) (agent_Name agent)) then agent
  else
    let agent := if changed
                 then agent <| agent_Status ::= λ s, s <| agent_Conditions ::= λ l,
                        RemoveStatusCondition l ConditionPolicyCompliant |> |>
                 else agent in
    match agent_Labels agent !! LabelPolicyCompliant with
    | Some _ => if patch_ok (object_writes faults) (agent_Name agent)
                then agent <| agent_Labels ::= delete LabelPolicyCompliant |> else agent
    | None => agent
    end.

(** An error, or whether the namespace is looked at again. *)
Definition cleanupNamespace (s : ns_state) : result string bool * ns_state :=
  let s := ensurePolicyGovernedLabel false s in
  if list_agents_ok faults
  then (Ok false, s <| ns_agents ::= fmap removeAgentPolicyState |>)
  else (Err "listing agents for cleanup", s).

Definition reconcile_listed (configuredBatch : Z) (s : ns_state) : result string bool * ns_state :=
  if list_agents_ok faults
  then
    let '(agents, policies, requeue) := reconcileWithPolicies (object_writes faults) configuredBatch (ns_policies s) (ns_agents s) in
    let s := ensurePolicyGovernedLabel true (s <| ns_agents := agents |>) in
    (Ok requeue, s <| ns_policies := policies |>)
  else (Err "listing agents", s).

Definition reconcileNamespace (configuredBatch : Z) (s : ns_state) : result string bool * ns_state :=
  if list_policies_ok faults
  then match ns_policies s with [] => cleanupNamespace s | _ => reconcile_listed configuredBatch s end
  else (Err "listing policies", s).

Definition Reconcile (read : policy_read) (configuredBatch : Z) (s : ns_state) : result string bool * ns_state :=
  match read with
  | PolicyUnread e => (Err e, s)
  | PolicyMissing => reconcileNamespace configuredBatch s
  | PolicyFound true => (Ok false, s)
  | PolicyFound false => if list_policies_ok faults then reconcile_listed configuredBatch s else (Err "listing policies", s)
  end.
End reconcile.

(** [agentToPolicy]: an agent wakes every policy of its namespace; none when the list fails. *)
Definition agentToPolicy (namespace : string) (listed : result string (list SwarmPolicy)) : list (string * string) :=
  match listed with
  | Err _ => []
  | Ok policies => (λ p, (namespace, policy_Name p)) <$> policies
  end.

(** ** Properties *)
Definition no_faults : ns_faults := mkNsFaults true true true all_ok.

Section properties.
Context {conditionApi : ConditionApi} {CL : ConditionLaws conditionApi} {sortViolations : SliceSort PolicyViolation}.

(** Nothing of a policy is left on the agent, and nothing else is touched. *)
Definition cleaned (before after : SwarmAgent) : Prop :=
  FindStatusCondition (agent_Conditions (agent_Status after)) ConditionPolicyCompliant = None ∧
  agent_Labels after = delete LabelPolicyCompliant (agent_Labels before) ∧
  agent_Spec after = agent_Spec before ∧
  ∀ t, t ≠ ConditionPolicyCompliant →
    FindStatusCondition (agent_Conditions (agent_Status after)) t = FindStatusCondition (agent_Conditions (agent_Status before)) t.

Lemma remove_cleans agent : cleaned agent (removeAgentPolicyState no_faults agent).
Proof.
  unfold removeAgentPolicyState, cleaned. simpl. rewrite andb_false_r. case_bool_decide as E; simpl.
  - destruct (agent_Labels agent !! LabelPolicyCompliant) eqn:El; simpl; (split; [apply remove_condition_find|]);
      (split; [done || by rewrite delete_id|]); (split; [done|]); intros t Ht; by apply remove_condition_other.
  - apply eq_None_not_Some in E.
    destruct (agent_Labels agent !! LabelPolicyCompliant) eqn:El; simpl; (split; [done|]);
      (split; [done || by rewrite delete_id|done]).
Qed.

(** When the last policy is gone and the calls work, nothing of it is left: neither the label of the
    namespace nor the condition or the label of any agent, of which nothing else changes. *)
Theorem last_policy_cleaned batch s : ns_policies s = [] →
  let '(r, s') := Reconcile no_faults PolicyMissing batch s in
  r = Ok false ∧ governed_label s' = false ∧ label_ensured s' = false ∧ Forall2 cleaned (ns_agents s) (ns_agents s').
Proof.
  intros E. unfold Reconcile, reconcileNamespace, cleanupNamespace. rewrite E. simpl.
  split; [done|]. split; [done|]. split; [done|]. apply Forall2_fmap_r, Forall_Forall2_diag, Forall_true. apply remove_cleans.
Qed.

(** With a policy in force the namespace is labelled, unless the controller believes that it is. *)
Theorem governed_namespace_labelled batch s :
  let '(r, s') := Reconcile no_faults (PolicyFound false) batch s in
  governed_label s' = (if label_ensured s then governed_label s else true) ∧ label_ensured s' = true.
Proof.
  unfold Reconcile, reconcile_listed. simpl. destruct (reconcileWithPolicies _ _ _ _) as [[agents policies] requeue].
  unfold ensurePolicyGovernedLabel. simpl. destruct (label_ensured s) eqn:E; simpl; by rewrite ?E.
Qed.
End properties.

(** ** Defects *)
Section defects.
Context {conditionApi : ConditionApi} {sortViolations : SliceSort PolicyViolation}.

(** The label of a namespace in the cache is not put back when it was removed, however often its
    policies are reconciled. *)
Lemma label_not_restored faults batch s : label_ensured s = true → governed_label s = false →
  list_agents_ok faults = true → list_policies_ok faults = true →
  let s' := (Reconcile faults (PolicyFound false) batch s).2 in governed_label s' = false ∧ label_ensured s' = true.
Proof.
  intros E G A P. unfold Reconcile, reconcile_listed. rewrite P, A.
  destruct (reconcileWithPolicies _ _ _ _) as [[agents policies] requeue]. unfold ensurePolicyGovernedLabel. simpl.
  by rewrite E.
Qed.

(** A clean-up whose write fails is not an error and is not tried again: the agent stays marked. *)
Lemma failed_cleanup_forgotten agent batch c :
  FindStatusCondition (agent_Conditions (agent_Status agent)) ConditionPolicyCompliant = Some c →
  Reconcile (mkNsFaults true true true (mkApiOutcome (λ _, false) (λ _, true))) PolicyMissing batch
    (mkNsState [] [agent] true true) = (Ok false, mkNsState [] [agent] false false).
Proof.
  intros E. assert (Hk : removeAgentPolicyState (mkNsFaults true true true (mkApiOutcome (λ _, false) (λ _, true))) agent = agent).
  { unfold removeAgentPolicyState. by rewrite bool_decide_eq_true_2 by (by exists c). }
  unfold Reconcile, reconcileNamespace, cleanupNamespace.
  revert Hk. generalize (removeAgentPolicyState (mkNsFaults true true true (mkApiOutcome (λ _, false) (λ _, true)))).
  intros f Hk. change ((Ok (E := string) false, mkNsState [] [f agent] false false) = (Ok false, mkNsState [] [agent] false false)).
  by rewrite Hk.
Qed.
End defects.

#[local] Existing Instances list_conditions list_conditions_laws.
#[local] Instance keep_violations : SliceSort PolicyViolation := keep_order.
Lemma last_policy_cleaned_witness :
  let agent := (sample_agent "writer" "claude-4" modest) <| agent_Labels := {[LabelPolicyCompliant := "false"]} |> in
  Forall2 cleaned [agent] (ns_agents (Reconcile no_faults PolicyMissing 0 (mkNsState [] [agent] true true)).2).
Proof.
  intros agent. apply (last_policy_cleaned 0 (mkNsState [] [agent] true true)). reflexivity.
Defined.
