(* ===== verification/Registry.v ===== *)
(** * Registry: the capability index (internal/registry/registry.go).

    The index maps the key of each SwarmRegistry to its entries.  Every operation takes
    the lock for its whole access to the map, so it is a function of the map; the order
    in which a [range] visits the keys, [sort.Slice] and [rand.Intn] are arguments.
    An index out of range panics: [Resolve] then returns [None]. *)
From Stdlib Require Import ZArith Lia Ascii.
From stdpp Require Import base tactics option list strings gmap sets sorting.
From S2P Require Import Prelude GoStd Types AgentTypes.

(** ** The index *)
Record entry := mkEntry {
  agentName : string;
  caps : list AgentCapability }.

Abbreviation buckets := (gmap string (list entry)).

Record ResolveRequest := mkResolveRequest {
  Capability : string;
  req_Tags : list string;
  req_Strategy : RegistryLookupStrategy }.

Definition entry_of (a : SwarmAgent) : option entry :=
  match Capabilities (agent_Spec a) with
  | [] => None
  | l => Some (mkEntry (agent_Name a) l)
  end.

Definition hasAllTags (agentTags required : list string) : bool :=
  forallb (λ t, bool_decide (t ∈ agentTags)) required.

Definition advertises (capID : string) (tags : list string) (e : entry) : bool :=
  existsb (λ c, String.eqb (cap_Name c) capID && hasAllTags (cap_Tags c) tags) (caps e).

(** One iteration over the entries of a bucket: [out] and [seen]. *)
Definition add_candidate (capID : string) (tags : list string)
    (st : list string * gset string) (e : entry) : list string * gset string :=
  let '(out, seen) := st in
  if decide (agentName e ∈ seen) then st
  else if advertises capID tags e then (out ++ [agentName e], {[ agentName e ]} ∪ seen)
  else st.

Definition bucket_entries (r : buckets) (order : list string) : list entry :=
  concat ((λ key, default [] (r !! key)) <$> order).

Definition candidates (r : buckets) (order : list string) (capID : string)
    (tags : list string) : list string :=
  sort_strings (foldl (add_candidate capID tags) ([], ∅) (bucket_entries r order)).1.

(** The loop over the bytes; [int] has 64 bits. *)
Fixpoint hash_bytes (h : Z) (s : string) : Z :=
  match s with
  | "" => h
  | String c s' => hash_bytes (wrap64 (wrap64 (h * 31) + Z.of_N (N_of_ascii c))) s'
  end.

Definition stableHash (s : string) : Z :=
  let h := hash_bytes 0 s in
  if h <? 0 then wrap64 (- h) else h.

(** Indexing a slice. *)
Definition index_slice {A} (l : list A) (i : Z) : option A :=
  if i <? 0 then None else l !! Z.to_nat i.

Section registry.
Context {sortEntries : SliceSort entry} {sortCaps : SliceSort IndexedCapability}
        {randApi : RandApi}.

Definition Rebuild (r : buckets) (key : string) (agents : list SwarmAgent) : buckets :=
  <[key := sort_slice (key_less agentName) (omap entry_of agents)]> r.

Definition Remove (r : buckets) (key : string) : buckets := delete key r.

Definition Resolve (r : buckets) (order : list string) (req : ResolveRequest) : option string :=
  let candidates := candidates r order (Capability req) (req_Tags req) in
  match candidates with
  | [] => Some ""
  | first :: _ =>
      let n := Z.of_nat (length candidates) in
      match req_Strategy req with
      | StrategyRandom => index_slice candidates (rand_Intn n)
      | StrategyRoundRobin => index_slice candidates (Z.rem (stableHash (Capability req)) n)
      | _ => Some first
      end
  end.

Definition AgentCount (r : buckets) (order : list string) : Z :=
  foldl (λ n key, wrap64 (n + Z.of_nat (length (default [] (r !! key))))) 0 order.

(** ** Snapshots *)
Record agg := mkAgg { agg_agents : gset string; agg_tags : gset string }.

Definition add_cap (name : string) (m : gmap string agg) (c : AgentCapability) : gmap string agg :=
  let a := default (mkAgg ∅ ∅) (m !! cap_Name c) in
  <[cap_Name c := mkAgg ({[ name ]} ∪ agg_agents a) (list_to_set (cap_Tags c) ∪ agg_tags a)]> m.

Definition add_entry (m : gmap string agg) (e : entry) : gmap string agg :=
  foldl (add_cap (agentName e)) m (caps e).

Definition aggregate (r : buckets) (order : list string) : gmap string agg :=
  foldl add_entry ∅ (bucket_entries r order).

Definition indexed (m : gmap string agg) (id : string) : IndexedCapability :=
  let a := default (mkAgg ∅ ∅) (m !! id) in
  mkIndexedCapability id "" (sort_strings (elements (agg_agents a)))
    (sort_strings (elements (agg_tags a))).

(** [ids]: the order in which the aggregates are ranged over. *)
Definition Snapshot (r : buckets) (order ids : list string) : list IndexedCapability :=
  sort_slice (key_less ID) (indexed (aggregate r order) <$> ids).
End registry.

(** ** What the index says *)
Definition declares (e : entry) (capID : string) (tags : list string) : Prop :=
  ∃ c, c ∈ caps e ∧ cap_Name c = capID ∧ ∀ t, t ∈ tags → t ∈ cap_Tags c.

Definition offers (r : buckets) (capID : string) (tags : list string) (name : string) : Prop :=
  ∃ key entries e, r !! key = Some entries ∧ e ∈ entries ∧ agentName e = name ∧
                   declares e capID tags.

Definition tagged (r : buckets) (capID t : string) : Prop :=
  ∃ key entries e c, r !! key = Some entries ∧ e ∈ entries ∧ c ∈ caps e ∧
                     cap_Name c = capID ∧ t ∈ cap_Tags c.

(** Kubernetes objects have a name. *)
Definition named (r : buckets) : Prop := ∀ capID tags, ¬ offers r capID tags "".

Lemma hasAllTags_spec have need : hasAllTags have need = true ↔ ∀ t, t ∈ need → t ∈ have.
Proof.
  unfold hasAllTags. rewrite forallb_forall. setoid_rewrite <- list_elem_of_In.
  by setoid_rewrite bool_decide_eq_true.
Qed.

Lemma advertises_spec capID tags e : advertises capID tags e = true ↔ declares e capID tags.
Proof.
  unfold advertises, declares. rewrite existsb_exists. setoid_rewrite <- list_elem_of_In.
  setoid_rewrite andb_true_iff. setoid_rewrite String.eqb_eq.
  by setoid_rewrite hasAllTags_spec.
Qed.

Lemma bucket_entries_elem r order e :
  range_order r order →
  e ∈ bucket_entries r order ↔ ∃ key entries, r !! key = Some entries ∧ e ∈ entries.
Proof.
  intros [_ Ho]. unfold bucket_entries. rewrite list_elem_of_In, in_concat.
  setoid_rewrite <- list_elem_of_In. setoid_rewrite list_elem_of_fmap. split.
  - intros (? & (key & -> & [entries Hk]%Ho) & He). rewrite Hk in He. eauto.
  - intros (key & entries & Hk & He). exists entries. split; [|done].
    exists key. rewrite Hk. split; [done|]. apply Ho. eauto.
Qed.

(** The loop of [candidates] keeps the distinct names of the advertising entries. *)
Lemma add_candidates_spec capID tags es st :
  NoDup st.1 → (∀ x, x ∈ st.2 ↔ x ∈ st.1) →
  let st' := foldl (add_candidate capID tags) st es in
  NoDup st'.1 ∧ ∀ x, x ∈ st'.1 ↔ x ∈ st.1 ∨ ∃ e, e ∈ es ∧ agentName e = x ∧ declares e capID tags.
Proof.
  revert st. induction es as [|e es IH]; intros st Hnd Hseen; simpl.
  { split; [done|]. intros x. setoid_rewrite elem_of_nil. naive_solver. }
  assert (NoDup (add_candidate capID tags st e).1 ∧
    (∀ x, x ∈ (add_candidate capID tags st e).2 ↔ x ∈ (add_candidate capID tags st e).1) ∧
    (∀ x, x ∈ (add_candidate capID tags st e).1 ↔
       x ∈ st.1 ∨ (agentName e = x ∧ declares e capID tags))) as (H1 & H2 & H3).
  { destruct st as [out seen]. simpl in *. case_decide as Hin; simpl.
    { split_and!; [done..|]. intros x. apply Hseen in Hin. naive_solver. }
    destruct (advertises capID tags e) eqn:E; simpl.
    - apply advertises_spec in E. rewrite Hseen in Hin.
      split_and!.
      + apply NoDup_app. split_and!; [done| |apply NoDup_singleton].
        intros x Hx ->%list_elem_of_singleton. done.
      + intros x. rewrite elem_of_union, elem_of_singleton, elem_of_app, list_elem_of_singleton,
          Hseen. tauto.
      + intros x. rewrite elem_of_app, list_elem_of_singleton. naive_solver.
    - split_and!; [done..|]. intros x. rewrite <- advertises_spec, E. naive_solver. }
  destruct (IH _ H1 H2) as [H4 H5]. split; [exact H4|]. intros x. rewrite H5, H3.
  setoid_rewrite elem_of_cons. naive_solver.
Qed.

Lemma candidates_elem r order capID tags x :
  range_order r order → x ∈ candidates r order capID tags ↔ offers r capID tags x.
Proof.
  intros Ho. unfold candidates. rewrite sort_strings_elem.
  destruct (add_candidates_spec capID tags (bucket_entries r order) ([], ∅)) as [_ ->];
    [constructor|set_solver|].
  unfold offers. setoid_rewrite (bucket_entries_elem _ _ _ Ho). set_solver.
Qed.

Lemma candidates_NoDup r order capID tags : NoDup (candidates r order capID tags).
Proof.
  unfold candidates. rewrite sort_strings_perm.
  apply (add_candidates_spec capID tags (bucket_entries r order) ([], ∅)); [constructor|set_solver].
Qed.

(** The order of the map range is forgotten by the final sort. *)
Lemma candidates_order r o1 o2 capID tags :
  range_order r o1 → range_order r o2 → candidates r o1 capID tags = candidates r o2 capID tags.
Proof.
  intros H1 H2. apply (Sorted_unique str_le); [apply sort_strings_sorted..|].
  apply NoDup_Permutation; [apply candidates_NoDup..|].
  intros x. by rewrite !candidates_elem.
Qed.

Lemma sorted_head_le x l y : Sorted str_le (x :: l) → y ∈ x :: l → str_le x y.
Proof.
  intros Hs. apply Sorted_StronglySorted in Hs; [|apply _]. inv Hs as [|? ? _ Hall].
  rewrite elem_of_cons. intros [->|Hin]; [by destruct (str_le_total x x)|].
  rewrite Forall_forall in Hall. auto.
Qed.

(** ** The hash *)
Lemma hash_bytes_range h s : in_width 64 h → in_width 64 (hash_bytes h s).
Proof. revert h. induction s as [|c s IH]; intros h Hh; [done|]. apply IH, wrap_range. lia. Qed.

Lemma stableHash_nonneg s : stableHash s ≠ min_int 64 → 0 ≤ stableHash s.
Proof.
  unfold stableHash. pose proof (hash_bytes_range 0 s) as Hr.
  destruct Hr as [Hlo Hhi]; [unfold in_width, min_int, max_int; lia|].
  set (h := hash_bytes 0 s) in *. clearbody h.
  destruct (Z.ltb_spec h 0) as [Hneg|]; [|done].
  intros Hne. destruct (Z.eq_dec h (min_int 64)) as [->|Hm].
  { exfalso. apply Hne. vm_compute. reflexivity. }
  rewrite wrap_id; [lia..|]. unfold in_width, min_int, max_int in *. lia.
Qed.

Lemma index_slice_lt {A} (l : list A) i :
  0 ≤ i < Z.of_nat (length l) → ∃ x, index_slice l i = Some x ∧ x ∈ l.
Proof.
  intros Hi. unfold index_slice. destruct (Z.ltb_spec i 0); [lia|].
  destruct (lookup_lt_is_Some_2 l (Z.to_nat i)) as [x Hx]; [lia|].
  exists x. split; [done|]. by apply list_elem_of_lookup_2 in Hx.
Qed.
(** ** Resolution *)
Section resolve.
Context {randApi : RandApi} {RL : RandLaws randApi}.

Lemma Resolve_candidate r order req name :
  Resolve r order req = Some name →
  (name = "" ∧ candidates r order (Capability req) (req_Tags req) = []) ∨
  name ∈ candidates r order (Capability req) (req_Tags req).
Proof.
  unfold Resolve. destruct (candidates _ _ _ _) as [|first rest]; [naive_solver|].
  intros H. right.
  assert (∀ i, index_slice (first :: rest) i = Some name → name ∈ first :: rest) as Hi.
  { intros i. unfold index_slice. destruct (i <? 0); eauto using list_elem_of_lookup_2. done. }
  destruct (req_Strategy req); eauto; simplify_eq; by left.
Qed.

Lemma Resolve_None r order req :
  Resolve r order req = None →
  req_Strategy req = StrategyRoundRobin ∧ stableHash (Capability req) = min_int 64.
Proof.
  unfold Resolve. destruct (candidates _ _ _ _) as [|first rest] eqn:E; [done|]. rewrite <- E.
  assert (0 < Z.of_nat (length (candidates r order (Capability req) (req_Tags req)))) as Hpos.
  { rewrite E. simpl. lia. }
  destruct (req_Strategy req); try done; intros H.
  - split; [done|]. destruct (Z.eq_dec (stableHash (Capability req)) (min_int 64)) as [|Hm]; [done|].
    apply stableHash_nonneg in Hm.
    edestruct @index_slice_lt as (x & Hx & _); [by apply Z.rem_bound_pos|]. congruence.
  - edestruct @index_slice_lt as (x & Hx & _); [by apply RL|]. congruence.
Qed.

Lemma Resolve_least r order req name :
  range_order r order → req_Strategy req ∈ [StrategyUnset; StrategyLeastBusy] →
  offers r (Capability req) (req_Tags req) name →
  ∃ first, Resolve r order req = Some first ∧
           offers r (Capability req) (req_Tags req) first ∧ str_le first name.
Proof.
  intros Ho Hs Hf%(candidates_elem _ _ _ _ _ Ho). unfold Resolve.
  setoid_rewrite <- (candidates_elem _ _ _ _ _ Ho).
  pose proof (sort_strings_sorted (foldl (add_candidate (Capability req) (req_Tags req)) ([], ∅)
    (bucket_entries r order)).1) as Hsort.
  change (sort_strings _) with (candidates r order (Capability req) (req_Tags req)) in Hsort.
  destruct (candidates _ _ _ _) as [|first rest]; [by apply not_elem_of_nil in Hf|].
  exists first. split_and!; [|by left|by eapply sorted_head_le].
  rewrite !elem_of_cons, elem_of_nil in Hs. destruct Hs as [->|[->|[]]]; done.
Qed.

(** whatever the order in which the buckets are ranged over, [Resolve] answers the
    empty name exactly when no indexed agent declares the capability with all the
    required tags, and any other answer is such an agent; the default strategy takes the
    first of them in byte order; the answer does not depend on the range order; and only
    the round-robin of a capability whose hash is the least int64 can panic. *)
Theorem Resolve_spec r order req :
  range_order r order → named r →
  let found := offers r (Capability req) (req_Tags req) in
  (∀ name, Resolve r order req = Some name → name ≠ "" → found name) ∧
  (Resolve r order req = Some "" ↔ ∀ name, ¬ found name) ∧
  (∀ order', range_order r order' → Resolve r order' req = Resolve r order req) ∧
  (req_Strategy req ∈ [StrategyUnset; StrategyLeastBusy] → ∀ name, found name →
     ∃ first, Resolve r order req = Some first ∧ found first ∧ str_le first name) ∧
  (Resolve r order req = None →
     req_Strategy req = StrategyRoundRobin ∧ stableHash (Capability req) = min_int 64).
Proof.
  intros Ho Hn found.
  assert (∀ x, x ∈ candidates r order (Capability req) (req_Tags req) ↔ found x) as He.
  { intros x. by apply candidates_elem. }
  split_and!.
  - intros name [[-> _]|Hc]%Resolve_candidate ?; [done|]. by apply He.
  - split.
    + intros [[_ E]|Hc]%Resolve_candidate name; [rewrite <- He, E; apply not_elem_of_nil|].
      apply He in Hc. by apply Hn in Hc.
    + intros Hno. unfold Resolve. destruct (candidates _ _ _ _) as [|x l]; [done|].
      destruct (Hno x). apply He. by left.
  - intros order' Ho'. unfold Resolve. by rewrite (candidates_order _ _ _ _ _ Ho' Ho).
  - intros Hs name Hf. by eapply Resolve_least.
  - apply Resolve_None.
Qed.
End resolve.

(** ** Updates *)
Section update.
Context {sortEntries : SliceSort entry} {SL : SliceSortLaws (key_less agentName) sortEntries}.

Definition agent_declares (a : SwarmAgent) (capID : string) (tags : list string) : Prop :=
  ∃ c, c ∈ Capabilities (agent_Spec a) ∧ cap_Name c = capID ∧ ∀ t, t ∈ tags → t ∈ cap_Tags c.

Lemma entry_of_declares a capID tags :
  agent_declares a capID tags ↔
  ∃ e, entry_of a = Some e ∧ agentName e = agent_Name a ∧ declares e capID tags.
Proof.
  unfold agent_declares, entry_of, declares.
  destruct (Capabilities (agent_Spec a)) as [|c l] eqn:E; [set_solver|].
  split; [eauto|]. intros (e & [= <-] & _ & H). done.
Qed.

Lemma rebuild_offers r key agents capID tags name :
  (offers (Rebuild r key agents) capID tags name ↔
     (∃ a, a ∈ agents ∧ agent_Name a = name ∧ agent_declares a capID tags) ∨
     offers (Remove r key) capID tags name) ∧
  (offers (Remove r key) capID tags name ↔
     ∃ key' entries e, key' ≠ key ∧ r !! key' = Some entries ∧ e ∈ entries ∧
       agentName e = name ∧ declares e capID tags).
Proof.
  unfold offers, Rebuild, Remove. split.
  - split.
    + intros (key' & entries & e & Hk & He & Hn & Hd). destruct (decide (key' = key)) as [->|Hne].
      * rewrite lookup_insert_eq in Hk. simplify_eq. left.
        rewrite (sort_slice_perm (omap entry_of agents)), list_elem_of_omap in He.
        destruct He as (a & Ha & Hea). exists a. split; [done|].
        assert (agentName e = agent_Name a) as ->.
        { unfold entry_of in Hea. destruct (Capabilities _); by simplify_eq/=. }
        split; [done|]. apply entry_of_declares. exists e. split_and!; [done| |done].
        unfold entry_of in Hea. destruct (Capabilities _); by simplify_eq/=.
      * rewrite lookup_insert_ne in Hk by done. right. exists key', entries, e.
        by rewrite lookup_delete_ne.
    + intros [(a & Ha & <- & (e & He & Hn & Hd)%entry_of_declares)|(key' & entries & e & Hk & H)].
      * exists key. eexists _, e. rewrite lookup_insert_eq. split_and!; [done| |done..].
        rewrite (sort_slice_perm (omap entry_of agents)). apply list_elem_of_omap. eauto.
      * apply lookup_delete_Some in Hk as [Hne Hk]. exists key', entries, e.
        by rewrite lookup_insert_ne.
  - setoid_rewrite lookup_delete_Some. split; intros (key' & entries & e & H);
      exists key', entries, e; naive_solver.
Qed.
End update.

(** ** Snapshots *)
Definition agents_of (m : gmap string agg) (id : string) : gset string :=
  agg_agents (default (mkAgg ∅ ∅) (m !! id)).
Definition tags_of (m : gmap string agg) (id : string) : gset string :=
  agg_tags (default (mkAgg ∅ ∅) (m !! id)).

Definition cap_pairs (es : list entry) : list (string * AgentCapability) :=
  concat ((λ e, (λ c, (agentName e, c)) <$> caps e) <$> es).

Lemma cap_pairs_elem es n c :
  (n, c) ∈ cap_pairs es ↔ ∃ e, e ∈ es ∧ agentName e = n ∧ c ∈ caps e.
Proof.
  unfold cap_pairs. rewrite list_elem_of_In, in_concat. setoid_rewrite <- list_elem_of_In.
  setoid_rewrite list_elem_of_fmap. split.
  - intros (? & (e & -> & He) & Hc). apply list_elem_of_fmap in Hc as (c' & [= -> ->] & Hc). eauto.
  - intros (e & He & <- & Hc). eexists. split; [by exists e|]. apply list_elem_of_fmap. eauto.
Qed.

Lemma aggregate_pairs es m :
  foldl add_entry m es = foldl (λ m p, add_cap p.1 m p.2) m (cap_pairs es).
Proof.
  revert m. unfold cap_pairs. induction es as [|e es IH]; intros m; [done|]. simpl.
  rewrite IH, foldl_app. f_equal. unfold add_entry. clear IH.
  revert m. induction (caps e) as [|c l IHl]; intros m; [done|]. simpl. apply IHl.
Qed.

Lemma add_cap_spec name m c id x :
  (is_Some (add_cap name m c !! id) ↔ cap_Name c = id ∨ is_Some (m !! id)) ∧
  (x ∈ agents_of (add_cap name m c) id ↔ (cap_Name c = id ∧ name = x) ∨ x ∈ agents_of m id) ∧
  (x ∈ tags_of (add_cap name m c) id ↔ (cap_Name c = id ∧ x ∈ cap_Tags c) ∨ x ∈ tags_of m id).
Proof.
  unfold agents_of, tags_of, add_cap. destruct (decide (cap_Name c = id)) as [<-|Hne].
  - rewrite lookup_insert_eq. simpl. rewrite !elem_of_union, elem_of_singleton, elem_of_list_to_set.
    split_and!; [split; eauto|naive_solver|naive_solver].
  - rewrite lookup_insert_ne by done. naive_solver.
Qed.

Lemma add_caps_spec ps m id x :
  let m' := foldl (λ m p, add_cap p.1 m p.2) m ps in
  (is_Some (m' !! id) ↔ (∃ p, p ∈ ps ∧ cap_Name p.2 = id) ∨ is_Some (m !! id)) ∧
  (x ∈ agents_of m' id ↔ (∃ p, p ∈ ps ∧ cap_Name p.2 = id ∧ p.1 = x) ∨ x ∈ agents_of m id) ∧
  (x ∈ tags_of m' id ↔ (∃ p, p ∈ ps ∧ cap_Name p.2 = id ∧ x ∈ cap_Tags p.2) ∨ x ∈ tags_of m id).
Proof.
  revert m. induction ps as [|p ps IH]; intros m; simpl.
  { setoid_rewrite elem_of_nil. naive_solver. }
  destruct (IH (add_cap p.1 m p.2)) as (-> & -> & ->).
  destruct (add_cap_spec p.1 m p.2 id x) as (-> & -> & ->).
  setoid_rewrite elem_of_cons. split_and!; split; naive_solver.
Qed.

Lemma aggregate_spec r order id x :
  range_order r order →
  (is_Some (aggregate r order !! id) ↔ ∃ name, offers r id [] name) ∧
  (x ∈ agents_of (aggregate r order) id ↔ offers r id [] x) ∧
  (x ∈ tags_of (aggregate r order) id ↔ tagged r id x).
Proof.
  intros Ho. unfold aggregate. rewrite aggregate_pairs.
  destruct (add_caps_spec (cap_pairs (bucket_entries r order)) ∅ id x) as (-> & -> & ->).
  unfold agents_of, tags_of, offers, tagged, declares. rewrite lookup_empty. simpl.
  assert (∀ (P : string → AgentCapability → Prop),
    (∃ p, p ∈ cap_pairs (bucket_entries r order) ∧ P p.1 p.2) ↔
    ∃ key entries e c, r !! key = Some entries ∧ e ∈ entries ∧ c ∈ caps e ∧ P (agentName e) c) as H.
  { intros P. split.
    - intros ([n c] & (e & (key & entries & Hk & He)%(bucket_entries_elem _ _ _ Ho) & <- & Hc)%cap_pairs_elem & HP).
      exists key, entries, e, c. done.
    - intros (key & entries & e & c & Hk & He & Hc & HP). exists (agentName e, c). split; [|done].
      apply cap_pairs_elem. exists e. split; [|done]. apply (bucket_entries_elem _ _ _ Ho). eauto. }
  rewrite (H (λ _ c, cap_Name c = id)), (H (λ n c, cap_Name c = id ∧ n = x)),
    (H (λ _ c, cap_Name c = id ∧ x ∈ cap_Tags c)).
  split_and!; split; try set_unfold; naive_solver (eauto using not_elem_of_nil).
Qed.

Lemma sort_elements_NoDup (s : gset string) : NoDup (sort_strings (elements s)).
Proof. rewrite sort_strings_perm. apply NoDup_elements. Qed.

Section snapshot.
Context {sortCaps : SliceSort IndexedCapability} {CL : SliceSortLaws (key_less ID) sortCaps}.

(** What [Snapshot] reports: its entries are sorted by identifier, without duplicates;
    there is one for each declared capability, with the sorted names of the agents that
    declare it and the sorted union of their tags. *)
Record snapshot_of (r : buckets) (snap : list IndexedCapability) : Prop := {
  snap_ids : NoDup (ID <$> snap);
  snap_sorted : Sorted str_le (ID <$> snap);
  snap_complete : ∀ id name, offers r id [] name → ∃ ic, ic ∈ snap ∧ ID ic = id;
  snap_agents : ∀ ic name, ic ∈ snap → name ∈ Agents ic ↔ offers r (ID ic) [] name;
  snap_tags : ∀ ic t, ic ∈ snap → t ∈ Tags ic ↔ tagged r (ID ic) t;
  snap_lists : ∀ ic, ic ∈ snap → Agents ic ≠ [] ∧ Description ic = "" ∧
    NoDup (Agents ic) ∧ Sorted str_le (Agents ic) ∧ NoDup (Tags ic) ∧ Sorted str_le (Tags ic) }.

Lemma Snapshot_elem r order ids ic :
  ic ∈ Snapshot r order ids ↔ ∃ id, ic = indexed (aggregate r order) id ∧ id ∈ ids.
Proof. unfold Snapshot. rewrite sort_slice_perm. apply list_elem_of_fmap. Qed.

Lemma Snapshot_ids r order ids :
  ID <$> Snapshot r order ids ≡ₚ ids.
Proof.
  unfold Snapshot. rewrite sort_slice_perm, <- list_fmap_compose.
  rewrite (list_fmap_ext _ id); [by rewrite list_fmap_id|done].
Qed.

Lemma snapshot_ok r order ids :
  range_order r order → range_order (aggregate r order) ids →
  snapshot_of r (Snapshot r order ids).
Proof.
  intros Ho [Hnd Hids]. split.
  - by rewrite Snapshot_ids.
  - pose proof (sort_slice_sorted (SliceSortLaws := CL) (indexed (aggregate r order) <$> ids)) as Hs.
    fold (Snapshot r order ids) in Hs. induction Hs as [|x l Hs IH Hd]; [constructor|].
    simpl. constructor; [exact IH|]. destruct Hd as [|y l' Hd]; constructor.
    by apply (not_less_key ID) in Hd.
  - intros id name Hf. exists (indexed (aggregate r order) id). split; [|done].
    apply Snapshot_elem. exists id. split; [done|]. apply Hids.
    apply (aggregate_spec r order id name Ho). eauto.
  - intros ic name (id & -> & _)%Snapshot_elem. simpl.
    rewrite sort_strings_elem, elem_of_elements. apply (aggregate_spec r order id name Ho).
  - intros ic t (id & -> & _)%Snapshot_elem. simpl.
    rewrite sort_strings_elem, elem_of_elements. apply (aggregate_spec r order id t Ho).
  - intros ic (id & -> & Hid)%Snapshot_elem. simpl. split.
    + apply Hids, (aggregate_spec r order id "" Ho) in Hid as [name Hf].
      apply (aggregate_spec r order id name Ho) in Hf. unfold agents_of in Hf.
      apply elem_of_elements, sort_strings_elem in Hf. intros E. rewrite E in Hf.
      by apply not_elem_of_nil in Hf.
    + split_and!; auto using sort_elements_NoDup, sort_strings_sorted.
Qed.

(** in any range order, [Snapshot] lists exactly the capabilities the index offers,
    sorted and without duplicates, each with its agents and its tags. *)
Theorem Snapshot_spec r order ids :
  range_order r order → range_order (aggregate r order) ids →
  snapshot_of r (Snapshot r order ids).
Proof. apply snapshot_ok. Qed.

(** The default strategy answers the first agent the snapshot lists. *)
Lemma Resolve_first {randApi : RandApi} r order ic snap tags strategy :
  range_order r order → snapshot_of r snap → ic ∈ snap → tags = [] →
  strategy ∈ [StrategyUnset; StrategyLeastBusy] →
  Resolve r order (mkResolveRequest (ID ic) tags strategy) = head (Agents ic).
Proof.
  intros Ho Hsnap Hic -> Hs.
  assert (candidates r order (ID ic) [] = Agents ic) as E.
  { destruct (snap_lists _ _ Hsnap ic Hic) as (_ & _ & Hnd & Hso & _).
    apply (Sorted_unique str_le); [apply sort_strings_sorted|done|].
    apply NoDup_Permutation; [apply candidates_NoDup|done|].
    intros x. by rewrite (candidates_elem _ _ _ _ _ Ho), (snap_agents _ _ Hsnap). }
  unfold Resolve. simpl. rewrite E.
  destruct (snap_lists _ _ Hsnap ic Hic) as (Hne & _). destruct (Agents ic); [done|].
  rewrite !elem_of_cons, elem_of_nil in Hs. destruct Hs as [->|[->|[]]]; done.
Qed.
End snapshot.

(** a capability whose hash is the least int64 makes round-robin index with a
    negative number, whenever the number of candidates does not divide 2^63. *)
Theorem Resolve_RoundRobin_panics {randApi : RandApi} r order req :
  req_Strategy req = StrategyRoundRobin → stableHash (Capability req) = min_int 64 →
  ¬ (Z.of_nat (length (candidates r order (Capability req) (req_Tags req))) | 2 ^ 63) →
  candidates r order (Capability req) (req_Tags req) ≠ [] →
  Resolve r order req = None.
Proof.
  intros Hs Hh Hdiv Hne. unfold Resolve. destruct (candidates _ _ _ _) as [|x l]; [done|].
  rewrite Hs, Hh. unfold index_slice. set (n := Z.of_nat (length (x :: l))) in *.
  assert (n ≠ 0) as Hn by (subst n; simpl; lia).
  change (min_int 64) with (- 2 ^ 63). rewrite Z.rem_opp_l by done.
  assert (0 ≤ Z.rem (2 ^ 63) n) as Hle by (apply Z.rem_nonneg; [done|lia]).
  assert (Z.rem (2 ^ 63) n ≠ 0) as Hz by (intros Hz; by apply Hdiv, Z.rem_divide).
  destruct (Z.ltb_spec (- Z.rem (2 ^ 63) n) 0); [done|lia].
Qed.

(** ** Witnesses *)
Definition rand_first : RandApi := λ _, 0.
Lemma rand_first_laws : RandLaws rand_first.
Proof. intros n Hn. unfold rand_Intn, rand_first. lia. Defined.

Definition offering (name cap : string) (tags : list string) : entry :=
  mkEntry name [mkAgentCapability cap "" tags false].

Definition sample_index : buckets :=
  {[ "a/default" := [offering "analyst" "kaejrqiwrrhyyss" ["eu"]; offering "writer" "write" []];
     "b/default" := [offering "broker" "kaejrqiwrrhyyss" []; offering "clerk" "kaejrqiwrrhyyss" ["eu"]] ]}.

Lemma sample_index_named : named sample_index.
Proof.
  intros capID tags (key & entries & e & Hk & He & Hn & _).
  unfold sample_index in Hk. rewrite lookup_insert_Some, lookup_singleton_Some in Hk.
  destruct Hk as [[<- <-]|(_ & <- & <-)]; rewrite !elem_of_cons, elem_of_nil in He;
    destruct He as [->|[->|[]]]; discriminate Hn.
Qed.

Lemma Resolve_spec_witness :
  let req := mkResolveRequest "kaejrqiwrrhyyss" ["eu"] StrategyLeastBusy in
  @Resolve rand_first sample_index (keys_of sample_index) req = Some "analyst" ∧
  offers sample_index "kaejrqiwrrhyyss" ["eu"] "analyst".
Proof.
  intros req.
  destruct (@Resolve_spec rand_first rand_first_laws sample_index (keys_of sample_index) req
    (range_order_keys _) sample_index_named) as (Hf & _).
  assert (@Resolve rand_first sample_index (keys_of sample_index) req = Some "analyst") as E
    by (vm_compute; reflexivity).
  split; [exact E|]. by apply (Hf "analyst" E).
Defined.

Lemma Resolve_RoundRobin_panics_witness :
  @Resolve rand_first sample_index (keys_of sample_index)
    (mkResolveRequest "kaejrqiwrrhyyss" [] StrategyRoundRobin) = None.
Proof.
  apply (@Resolve_RoundRobin_panics rand_first); [reflexivity|vm_compute; reflexivity| |].
  - replace (length _) with 3%nat by (vm_compute; reflexivity).
    intros [k Hk]. assert (Z.rem (2 ^ 63) 3 = 0) as E by (rewrite Hk; apply Z.rem_mul; lia).
    vm_compute in E. discriminate E.
  - vm_compute. discriminate.
Defined.

Lemma Snapshot_spec_witness :
  ∃ ic, ic ∈ @Snapshot merge_sort_by sample_index (keys_of sample_index)
               (keys_of (aggregate sample_index (keys_of sample_index))) ∧
    ID ic = "write" ∧ Agents ic = ["writer"].
Proof.
  destruct (@Snapshot_spec merge_sort_by (merge_sort_by_laws _ (key_less_total ID)) sample_index
    (keys_of sample_index) (keys_of (aggregate sample_index (keys_of sample_index)))
    (range_order_keys _) (range_order_keys _)) as [_ _ Hc _ _ _].
  destruct (Hc "write" "writer") as (ic & Hic & Hid).
  { exists "a/default". eexists _, (offering "writer" "write" []).
    split_and!; [reflexivity|right; left|reflexivity|].
    exists (mkAgentCapability "write" "" [] false). split_and!; [left|reflexivity|].
    intros t Ht. by apply not_elem_of_nil in Ht. }
  exists ic. split_and!; [done..|]. revert Hic Hid. vm_compute (Snapshot _ _ _).
  rewrite !elem_of_cons, elem_of_nil. by intros [->|[->|[]]].
Defined.
