(* ===== verification/RegistryController.v ===== *)
(** * RegistryController: the SwarmRegistry reconciler
    (internal/controller/swarmregistry_controller.go).

    One call of [Reconcile] as a function of what the API server holds: the index, the
    annotations of the agents and the status of the registry it leaves.  [ids1] is the
    order in which the aggregates of [buildSnapshot] are ranged over. *)
From Stdlib Require Import ZArith Lia Ascii.
From stdpp Require Import base tactics option list strings gmap sets sorting.
From S2P Require Import Prelude GoStd Types Kube AgentTypes Registry.

Definition ConditionReady := "Ready".

(** ** Snapshots of the agents of one registry *)
Record snap_agg := mkSnapAgg {
  snap_description : string;
  snap_agent_set : gset string;
  snap_tag_set : gset string }.

Definition snap_add (name : string) (m : gmap string snap_agg) (c : AgentCapability)
    : gmap string snap_agg :=
  let a := default (mkSnapAgg "" ∅ ∅) (m !! cap_Name c) in
  <[cap_Name c := mkSnapAgg
      (if decide (snap_description a = "" ∧ cap_Description c ≠ "") then cap_Description c
       else snap_description a)
      ({[ name ]} ∪ snap_agent_set a) (list_to_set (cap_Tags c) ∪ snap_tag_set a)]> m.

Definition snap_aggregate (agents : list SwarmAgent) : gmap string snap_agg :=
  foldl (λ m a, foldl (snap_add (agent_Name a)) m (Capabilities (agent_Spec a))) ∅ agents.

Definition snap_entry (m : gmap string snap_agg) (id : string) : IndexedCapability :=
  let a := default (mkSnapAgg "" ∅ ∅) (m !! id) in
  mkIndexedCapability id (snap_description a) (sort_strings (elements (snap_agent_set a)))
    (sort_strings (elements (snap_tag_set a))).

Definition fleet_entry (a : SwarmAgent) : AgentFleetEntry :=
  mkAgentFleetEntry (agent_Name a) (agent_Model (agent_Spec a)) (ReadyReplicas (agent_Status a))
    (match DailyTokenUsage (agent_Status a) with Some u => TotalTokens u | None => 0 end)
    (sort_strings (cap_Name <$> Capabilities (agent_Spec a))).

Definition capabilitiesEqual (a b : list IndexedCapability) : bool := bool_decide (a = b).
Definition fleetEqual (a b : list AgentFleetEntry) : bool := bool_decide (a = b).

(** ** What the reconciler sees and leaves *)
Record registry_env := mkRegistryEnv {
  renv_now : Z;
  list_ok : bool;
  patch_annotation_ok : SwarmAgent → bool;
  status_ok : bool;
  TaskQueueURL : string;
  AgentTaskQueueURL : string }.

Record registry_world := mkRegistryWorld {
  index : buckets;
  cluster : list SwarmAgent;
  stored : get_result SwarmRegistry }.

Definition in_scope (scope : RegistryScope) (ns : string) (a : SwarmAgent) : bool :=
  match scope with
  | RegistryScopeCluster => true
  | _ => String.eqb (agent_Namespace a) ns
  end.

Definition registers (reg : SwarmRegistry) (a : SwarmAgent) : bool :=
  match Infrastructure (agent_Spec a) with
  | Some i => match infra_RegistryRef i with
              | Some name => String.eqb name (registry_Name reg)
              | None => false
              end
  | None => false
  end.

Definition has_capabilities (a : SwarmAgent) : bool :=
  match Capabilities (agent_Spec a) with [] => false | _ => true end.

Definition agentStreamBase (env : registry_env) : string :=
  if decide (AgentTaskQueueURL env = "") then TaskQueueURL env else AgentTaskQueueURL env.

Section reconcile.
Context {conditionApi : ConditionApi} {urlApi : UrlApi} {sortEntries : SliceSort entry}
        {sortCaps : SliceSort IndexedCapability} {sortFleet : SliceSort AgentFleetEntry}.

Definition buildSnapshot (agents : list SwarmAgent) (ids : list string)
    : list IndexedCapability :=
  sort_slice (key_less ID) (snap_entry (snap_aggregate agents) <$> ids).

Definition buildFleet (agents : list SwarmAgent) : list AgentFleetEntry :=
  sort_slice (key_less fleet_Name) (fleet_entry <$> agents).

(** One iteration of the annotation loop, on the stored agent. *)
Definition annotate (env : registry_env) (streamBase : string) (a : SwarmAgent) : SwarmAgent :=
  let current := default "" (agent_Annotations a !! AnnotationTeamQueueURL) in
  if decide (current ≠ "") then a
  else
    let streamURL := appendStreamParam streamBase (agent_Namespace a +:+ "." +:+ agent_Name a) in
    if decide (current = streamURL) then a
    else if patch_annotation_ok env a
    then a <| agent_Annotations ::= <[AnnotationTeamQueueURL := streamURL]> |>
    else a.

Definition annotate_agents (env : registry_env) (sel : SwarmAgent → bool)
    (agents : list SwarmAgent) : list SwarmAgent :=
  let streamBase := agentStreamBase env in
  if decide (streamBase = "") then agents
  else (λ a, if sel a then annotate env streamBase a else a) <$> agents.

Definition contentChanged (status : SwarmRegistryStatus) (generation : Z)
    (capable : list SwarmAgent) (capSnap : list IndexedCapability)
    (fleetSnap : list AgentFleetEntry) : bool :=
  negb (IndexedAgents status =? Z.of_nat (length capable)) ||
  negb (registry_ObservedGeneration status =? generation) ||
  negb (capabilitiesEqual (registry_Capabilities status) capSnap) ||
  negb (fleetEqual (Fleet status) fleetSnap) ||
  match FindStatusCondition (registry_Conditions status) ConditionReady with
  | None => true | Some _ => false end.

Definition rebuilt (now generation : Z) (capable : list SwarmAgent)
    (capSnap : list IndexedCapability) (fleetSnap : list AgentFleetEntry)
    (status : SwarmRegistryStatus) : SwarmRegistryStatus :=
  status <| IndexedAgents := Z.of_nat (length capable) |>
         <| LastRebuild := Some now |>
         <| registry_Capabilities := capSnap |>
         <| Fleet := fleetSnap |>
         <| registry_ObservedGeneration := generation |>
         <| registry_Conditions ::= λ l, setCondition l generation "" ConditionTrue "IndexReady"
              "capability index rebuilt successfully" |>.

Definition registry_key (ns name : string) : string := ns +:+ "/" +:+ name.

(** The world afterwards, and whether the call returns an error. *)
Definition Reconcile (env : registry_env) (ids : list string) (ns name : string)
    (w : registry_world) : registry_world * bool :=
  match stored w with
  | NotFound => (w, false)
  | GetFailed _ => (w, true)
  | Found reg =>
      let key := registry_key ns name in
      if decide (registry_DeletionTimestamp reg ≠ None) then
        (mkRegistryWorld (Remove (index w) key) (cluster w) (stored w), false)
      else if negb (list_ok env) then (w, true)
      else
        let listed := List.filter (in_scope (Scope (registry_Spec reg)) ns) (cluster w) in
        let registered := List.filter (registers reg) listed in
        let capable := List.filter has_capabilities registered in
        let idx := Rebuild (index w) key capable in
        let cluster' := annotate_agents env
          (λ a, in_scope (Scope (registry_Spec reg)) ns a && registers reg a) (cluster w) in
        let capSnap := buildSnapshot capable ids in
        let fleetSnap := buildFleet registered in
        let status := registry_Status reg in
        if negb (contentChanged status (registry_Generation reg) capable capSnap fleetSnap) then
          (mkRegistryWorld idx cluster' (stored w), false)
        else
          let reg' := reg <| registry_Status := rebuilt (renv_now env) (registry_Generation reg)
                               capable capSnap fleetSnap status |> in
          if status_ok env then (mkRegistryWorld idx cluster' (Found reg'), false)
          else (mkRegistryWorld idx cluster' (stored w), true)
  end.
End reconcile.

(** ** Properties *)
Section properties.
Context {conditionApi : ConditionApi} {L : ConditionLaws conditionApi} {urlApi : UrlApi}
        {sortEntries : SliceSort entry} {SL : SliceSortLaws (key_less agentName) sortEntries}
        {sortCaps : SliceSort IndexedCapability} {CL : SliceSortLaws (key_less ID) sortCaps}
        {sortFleet : SliceSort AgentFleetEntry} {FL : SliceSortLaws (key_less fleet_Name) sortFleet}.

(** The agents a registry indexes. *)
Definition belongs (reg : SwarmRegistry) (ns : string) (a : SwarmAgent) : bool :=
  in_scope (Scope (registry_Spec reg)) ns a && registers reg a.

Definition members (reg : SwarmRegistry) (ns : string) (agents : list SwarmAgent)
    : list SwarmAgent :=
  List.filter (registers reg) (List.filter (in_scope (Scope (registry_Spec reg)) ns) agents).

Lemma filter_elem {A} (p : A → bool) l x : x ∈ List.filter p l ↔ p x = true ∧ x ∈ l.
Proof. rewrite !list_elem_of_In, List.filter_In. tauto. Qed.

Lemma members_elem reg ns agents a :
  a ∈ members reg ns agents ↔ a ∈ agents ∧ belongs reg ns a = true.
Proof. unfold members, belongs. rewrite !filter_elem, andb_true_iff. tauto. Qed.

Lemma Reconcile_live env ids ns name w reg :
  stored w = Found reg → registry_DeletionTimestamp reg = None → list_ok env = true →
  index (Reconcile env ids ns name w).1 =
    Rebuild (index w) (registry_key ns name)
      (List.filter has_capabilities (members reg ns (cluster w))) ∧
  cluster (Reconcile env ids ns name w).1 = annotate_agents env (belongs reg ns) (cluster w).
Proof.
  intros Hs Hd Hl. unfold Reconcile. rewrite Hs, Hd. simpl. rewrite Hl. simpl.
  fold (members reg ns (cluster w)). by repeat (case_match; simpl).
Qed.

Lemma reconcile_offers env ids ns name w reg capID tags agent :
  stored w = Found reg → registry_DeletionTimestamp reg = None → list_ok env = true →
  offers (index (Reconcile env ids ns name w).1) capID tags agent ↔
    (∃ a, a ∈ cluster w ∧ belongs reg ns a = true ∧ agent_Name a = agent ∧
          agent_declares a capID tags) ∨
    offers (Remove (index w) (registry_key ns name)) capID tags agent.
Proof.
  intros Hs Hd Hl. destruct (Reconcile_live env ids ns name w reg Hs Hd Hl) as [-> _].
  destruct (rebuild_offers (index w) (registry_key ns name)
    (List.filter has_capabilities (members reg ns (cluster w))) capID tags agent) as [-> _].
  setoid_rewrite filter_elem. setoid_rewrite members_elem.
  split; (intros [(a & H)|H]; [left|by right]); exists a; [tauto|].
  destruct H as (Ha & Hb & Hn & Hc).
  assert (has_capabilities a = true); [|tauto].
  destruct Hc as (c & Hc & _). unfold has_capabilities.
  destruct (Capabilities (agent_Spec a)); [by apply not_elem_of_nil in Hc|done].
Qed.

(** What the bucket of one registry offers. *)
Definition bucket_offers (r : buckets) (key capID : string) (tags : list string) (name : string) : Prop :=
  ∃ entries e, r !! key = Some entries ∧ e ∈ entries ∧ agentName e = name ∧ declares e capID tags.

(** The agent is in the scope of the registry and refers to it. *)
Definition refers_to (reg : SwarmRegistry) (ns : string) (a : SwarmAgent) : Prop :=
  (Scope (registry_Spec reg) = RegistryScopeCluster ∨ agent_Namespace a = ns) ∧
  ∃ i, Infrastructure (agent_Spec a) = Some i ∧ infra_RegistryRef i = Some (registry_Name reg).

Lemma belongs_refers reg ns a : belongs reg ns a = true ↔ refers_to reg ns a.
Proof.
  unfold belongs, refers_to, in_scope, registers. rewrite andb_true_iff.
  assert (match Infrastructure (agent_Spec a) with
          | Some i => match infra_RegistryRef i with Some name => String.eqb name (registry_Name reg) | None => false end
          | None => false end = true ↔
          ∃ i, Infrastructure (agent_Spec a) = Some i ∧ infra_RegistryRef i = Some (registry_Name reg)) as ->.
  { destruct (Infrastructure _) as [i|]; [|naive_solver]. destruct (infra_RegistryRef i) as [r|] eqn:E.
    - rewrite String.eqb_eq. naive_solver.
    - naive_solver. }
  destruct (Scope (registry_Spec reg)); rewrite ?String.eqb_eq; naive_solver.
Qed.

Lemma rebuild_bucket r key agents capID tags name :
  bucket_offers (Rebuild r key agents) key capID tags name ↔
    ∃ a, a ∈ agents ∧ agent_Name a = name ∧ agent_declares a capID tags.
Proof.
  trans (offers (Rebuild ∅ key agents) capID tags name).
  - unfold bucket_offers, offers, Rebuild. rewrite lookup_insert_eq. split.
    + intros (l & e & H). exists key, l, e. by rewrite lookup_insert_eq.
    + intros (k & l & e & [[<- <-]|[_ H]]%lookup_insert_Some & ?); [eauto|by rewrite lookup_empty in H].
  - rewrite (proj1 (rebuild_offers ∅ key agents capID tags name)). split; [intros [H|H]; [done|]|by left].
    destruct H as (k & l & e & H & _). unfold Remove in H. by rewrite delete_empty, lookup_empty in H.
Qed.

(** C31: reconciling a registry rebuilds its own bucket of the index and no other.  Afterwards the
    bucket offers exactly the capabilities of the agents in the scope of the registry that refer to
    it; it is gone when the registry is being deleted; and it is left as it was when the registry is
    not found (any more) or a read fails. *)
Theorem Reconcile_index env ids ns name w :
  let before := index w in
  let after := index (Reconcile env ids ns name w).1 in
  let key := registry_key ns name in
  (∀ k, k ≠ key → after !! k = before !! k) ∧
  match stored w with
  | Found reg =>
      if decide (registry_DeletionTimestamp reg ≠ None) then after !! key = None
      else if list_ok env then
        ∀ capID tags agent, bucket_offers after key capID tags agent ↔
          ∃ a, a ∈ cluster w ∧ refers_to reg ns a ∧ agent_Name a = agent ∧
               ∃ c, c ∈ Capabilities (agent_Spec a) ∧ cap_Name c = capID ∧ ∀ t, t ∈ tags → t ∈ cap_Tags c
      else after !! key = before !! key
  | _ => after !! key = before !! key
  end.
Proof.
  intros before after key. unfold after, before. destruct (stored w) as [reg| |e] eqn:Hs;
    [|unfold Reconcile; by rewrite Hs..].
  case_decide as Hd; [|destruct (list_ok env) eqn:Hl].
  - unfold Reconcile. rewrite Hs, decide_True by done. simpl. unfold Remove. split; [|apply lookup_delete_eq].
    intros k Hk. by apply lookup_delete_ne.
  - destruct (Reconcile_live env ids ns name w reg Hs Hd Hl) as [-> _]. split.
    + intros k Hk. by apply lookup_insert_ne.
    + intros capID tags agent. unfold key. rewrite rebuild_bucket. setoid_rewrite filter_elem. setoid_rewrite members_elem.
      setoid_rewrite belongs_refers. split.
      * intros (a & (_ & Ha & Hr) & Hn & Hc). eauto.
      * intros (a & Ha & Hr & Hn & c & Hc & Hcn). exists a. split; [|by split; [|exists c]]. split; [|done].
        unfold has_capabilities. destruct (Capabilities (agent_Spec a)); [by apply not_elem_of_nil in Hc|done].
  - unfold Reconcile. rewrite Hs, Hd. simpl. by rewrite Hl.
Qed.

(** the index outlives the registry: nothing makes the API server keep a deleted
    registry until the reconciler has seen its deletion, so every later call finds no
    object, and the agents of the deleted registry are still offered and resolved. *)
Theorem deleted_registry_leaks {randApi : RandApi} env ids ns name w reg agent cap order n :
  stored w = Found reg → registry_DeletionTimestamp reg = None → list_ok env = true →
  agent ∈ cluster w → belongs reg ns agent = true → agent_declares agent cap [] →
  named (index (Reconcile env ids ns name w).1) →
  let deleted := mkRegistryWorld (index (Reconcile env ids ns name w).1) [] NotFound in
  let later := Nat.iter n (λ w, (Reconcile env ids ns name w).1) deleted in
  range_order (index later) order →
  ∃ found, Resolve (index later) order (mkResolveRequest cap [] StrategyLeastBusy) = Some found ∧
           found ≠ "" ∧ str_le found (agent_Name agent).
Proof.
  intros Hs Hd Hl Hin Hb Hc Hn deleted later Ho.
  assert (later = deleted) as Hlater.
  { subst later. clear Ho. induction n as [|n IH]; [done|]. simpl. by rewrite IH. }
  rewrite Hlater in *. clear Hlater later.
  assert (offers (index deleted) cap [] (agent_Name agent)) as Hoff.
  { apply (reconcile_offers env ids ns name w reg); [done..|]. left. by exists agent. }
  destruct (Resolve_least (index deleted) order (mkResolveRequest cap [] StrategyLeastBusy)
    (agent_Name agent)) as (found & Hf & Hoff' & Hle); [done|right; left|done|].
  exists found. split_and!; [done| |done]. intros ->. by apply Hn in Hoff'.
Qed.

(** ** No status write without a change *)
Lemma annotate_same env base a :
  agent_Name (annotate env base a) = agent_Name a ∧
  agent_Namespace (annotate env base a) = agent_Namespace a ∧
  agent_Spec (annotate env base a) = agent_Spec a ∧
  agent_Status (annotate env base a) = agent_Status a.
Proof. unfold annotate. by repeat case_decide; try case_match. Qed.
End properties.

(** ** No status write without a change *)
(** What the snapshot and the fleet read of an agent. *)
Definition same_view (a b : SwarmAgent) : Prop :=
  agent_Name b = agent_Name a ∧ agent_Namespace b = agent_Namespace a ∧
  agent_Spec b = agent_Spec a ∧ agent_Status b = agent_Status a.

Lemma annotate_view {urlApi : UrlApi} env base a : same_view a (annotate env base a).
Proof. unfold annotate. by repeat case_match. Qed.

Lemma annotate_agents_view {urlApi : UrlApi} env sel agents :
  Forall2 same_view agents (annotate_agents env sel agents).
Proof.
  unfold annotate_agents. case_decide; [by apply Forall_Forall2_diag, Forall_true|].
  apply Forall2_fmap_r, Forall_Forall2_diag, Forall_true. intros a. simpl.
  destruct (sel a); [apply annotate_view|done].
Qed.

Lemma filter_view p l l' :
  (∀ a b, same_view a b → p b = p a) → Forall2 same_view l l' →
  Forall2 same_view (List.filter p l) (List.filter p l').
Proof.
  intros Hp Hv. induction Hv as [|a b l l' Hab Hv IH]; [constructor|]. simpl.
  rewrite (Hp a b Hab). destruct (p a); [by constructor|done].
Qed.

Lemma members_view reg ns l l' :
  Forall2 same_view l l' → Forall2 same_view (members reg ns l) (members reg ns l').
Proof.
  intros H. unfold members. repeat apply filter_view; try done; intros a b (Hn & Hns & Hs & _);
    unfold registers, in_scope; by rewrite ?Hs, ?Hns.
Qed.

Lemma filter_perm {A} (p : A → bool) l l' : l ≡ₚ l' → List.filter p l ≡ₚ List.filter p l'.
Proof.
  induction 1 as [|x l l' _ IH|x y l|l1 l2 l3 _ IH1 _ IH2]; simpl; [done| | |by etrans].
  - destruct (p x); [by constructor|done].
  - destruct (p x), (p y); [constructor|done..].
Qed.

(** The pairs an agent list contributes to the snapshot. *)
Definition agent_pairs (agents : list SwarmAgent) : list (string * AgentCapability) :=
  agents ≫= λ a, (λ c, (agent_Name a, c)) <$> Capabilities (agent_Spec a).

Lemma agent_pairs_view l l' : Forall2 same_view l l' → agent_pairs l' = agent_pairs l.
Proof.
  unfold agent_pairs. induction 1 as [|a b l l' (Hn & _ & Hs & _) _ IH]; [done|].
  rewrite !bind_cons. by rewrite Hn, Hs, IH.
Qed.

Lemma agent_pairs_perm l l' : l ≡ₚ l' → agent_pairs l ≡ₚ agent_pairs l'.
Proof. intros H. unfold agent_pairs. by rewrite H. Qed.

Lemma snap_aggregate_pairs agents m :
  foldl (λ m a, foldl (snap_add (agent_Name a)) m (Capabilities (agent_Spec a))) m agents =
  foldl (λ m p, snap_add p.1 m p.2) m (agent_pairs agents).
Proof.
  revert m. unfold agent_pairs. induction agents as [|a l IH]; intros m; [done|].
  rewrite bind_cons, foldl_app. simpl. rewrite IH. f_equal. clear IH.
  revert m. induction (Capabilities (agent_Spec a)) as [|c cs IHc]; intros m; [done|]. apply IHc.
Qed.

(** Without the descriptions, the aggregates are those of the index. *)
Definition forget (a : snap_agg) : agg := mkAgg (snap_agent_set a) (snap_tag_set a).

Lemma snap_forget ps m :
  forget <$> foldl (λ m p, snap_add p.1 m p.2) m ps =
  foldl (λ m p, add_cap p.1 m p.2) (forget <$> m) ps.
Proof.
  revert m. induction ps as [|p ps IH]; intros m; [done|]. simpl. rewrite IH. f_equal.
  unfold snap_add, add_cap. rewrite fmap_insert, lookup_fmap.
  by destruct (m !! cap_Name p.2).
Qed.

Definition description_of (m : gmap string snap_agg) (id : string) : string :=
  snap_description (default (mkSnapAgg "" ∅ ∅) (m !! id)).

(** The agents agree on the description of each capability. *)
Definition descriptions_agree (ps : list (string * AgentCapability)) : Prop :=
  ∀ p q, p ∈ ps → q ∈ ps → cap_Name p.2 = cap_Name q.2 →
    cap_Description p.2 ≠ "" → cap_Description q.2 ≠ "" →
    cap_Description p.2 = cap_Description q.2.

Lemma snap_description_spec ps m id d :
  d ≠ "" → (∀ p, p ∈ ps → cap_Name p.2 = id → cap_Description p.2 ∈ [""; d]) →
  description_of m id ∈ [""; d] →
  description_of (foldl (λ m p, snap_add p.1 m p.2) m ps) id = d ↔
  description_of m id = d ∨ ∃ p, p ∈ ps ∧ cap_Name p.2 = id ∧ cap_Description p.2 = d.
Proof.
  intros Hd. revert m. induction ps as [|p ps IH]; intros m Hps Hm; simpl.
  { setoid_rewrite elem_of_nil. naive_solver. }
  assert (description_of (snap_add p.1 m p.2) id =
    if decide (cap_Name p.2 = id ∧ description_of m id = "" ∧ cap_Description p.2 ≠ "")
    then cap_Description p.2 else description_of m id) as E.
  { unfold description_of, snap_add. destruct (decide (cap_Name p.2 = id)) as [<-|Hne].
    - rewrite lookup_insert_eq. simpl. by repeat case_decide; naive_solver.
    - rewrite lookup_insert_ne by done. rewrite decide_False by naive_solver. done. }
  assert (∀ x, x ∈ [""; d] ↔ x = "" ∨ x = d) as H2.
  { intros x. rewrite !elem_of_cons, elem_of_nil. tauto. }
  rewrite H2 in Hm. setoid_rewrite H2 in Hps. setoid_rewrite H2 in IH.
  pose proof (Hps p (list_elem_of_here _ _)) as Hp.
  rewrite IH; [|intros q Hq; apply Hps; by right|rewrite E; case_decide; naive_solver].
  rewrite E. setoid_rewrite elem_of_cons. case_decide; naive_solver.
Qed.

Lemma snap_lookup_forget m id :
  snap_agent_set (default (mkSnapAgg "" ∅ ∅) (m !! id)) = agents_of (forget <$> m) id ∧
  snap_tag_set (default (mkSnapAgg "" ∅ ∅) (m !! id)) = tags_of (forget <$> m) id.
Proof. unfold agents_of, tags_of. rewrite lookup_fmap. by destruct (m !! id). Qed.

Lemma snap_description_same ps1 ps2 id :
  ps1 ≡ₚ ps2 → descriptions_agree ps1 →
  description_of (foldl (λ m p, snap_add p.1 m p.2) ∅ ps1) id =
  description_of (foldl (λ m p, snap_add p.1 m p.2) ∅ ps2) id.
Proof.
  intros Hp Hag.
  assert (∀ d, d ≠ "" → (∀ p, p ∈ ps1 → cap_Name p.2 = id → cap_Description p.2 ∈ [""; d]) →
    (description_of (foldl (λ m p, snap_add p.1 m p.2) ∅ ps1) id = d ↔
       ∃ p, p ∈ ps1 ∧ cap_Name p.2 = id ∧ cap_Description p.2 = d) ∧
    (description_of (foldl (λ m p, snap_add p.1 m p.2) ∅ ps2) id = d ↔
       ∃ p, p ∈ ps1 ∧ cap_Name p.2 = id ∧ cap_Description p.2 = d)) as Hspec.
  { intros d Hd Hall.
    assert (description_of ∅ id = "") as E0 by (unfold description_of; by rewrite lookup_empty).
    split; (rewrite snap_description_spec; [|done| |rewrite E0; by left]);
      rewrite ?E0; [naive_solver|done| |]; setoid_rewrite <- Hp; [naive_solver|done]. }
  destruct (decide (Exists (λ p : string * AgentCapability,
    cap_Name p.2 = id ∧ cap_Description p.2 ≠ "") ps1)) as [Hex|Hno].
  - apply Exists_exists in Hex as (p & Hin & <- & Hd).
    destruct (Hspec (cap_Description p.2) Hd) as [H1 H2].
    { intros q Hq Hn. rewrite !elem_of_cons. destruct (decide (cap_Description q.2 = "")); [by left|].
      right. left. symmetry. by apply Hag. }
    rewrite (proj2 H1), (proj2 H2) by eauto. done.
  - assert (∀ p, p ∈ ps1 → cap_Name p.2 = id → cap_Description p.2 = "") as Hall.
    { intros p Hin Hn. destruct (decide (cap_Description p.2 = "")); [done|].
      destruct Hno. apply Exists_exists. eauto. }
    assert (∀ x, x ≠ "" → ¬ ∃ p, p ∈ ps1 ∧ cap_Name p.2 = id ∧ cap_Description p.2 = x) as Hnx.
    { intros x Hx (p & Hin & Hn & E). apply Hx. rewrite <- E. by apply Hall. }
    assert (∀ x, x ≠ "" → ∀ p, p ∈ ps1 → cap_Name p.2 = id → cap_Description p.2 ∈ [""; x]) as Hm.
    { intros x _ p Hin Hn. rewrite (Hall p Hin Hn). by left. }
    trans ""; [|symmetry]; apply dec_stable; intros Hx;
      destruct (Hspec _ Hx (Hm _ Hx)) as [H1 H2]; apply (Hnx _ Hx); [by apply H1|by apply H2].
Qed.

Lemma snap_entry_same l1 l2 id :
  agent_pairs l1 ≡ₚ agent_pairs l2 → descriptions_agree (agent_pairs l1) →
  (is_Some (snap_aggregate l1 !! id) ↔ is_Some (snap_aggregate l2 !! id)) ∧
  snap_entry (snap_aggregate l1) id = snap_entry (snap_aggregate l2) id.
Proof.
  intros Hp Hag. unfold snap_aggregate. rewrite !snap_aggregate_pairs.
  pose proof (snap_description_same _ _ id Hp Hag) as Hd.
  set (m1 := foldl _ ∅ (agent_pairs l1)) in *. set (m2 := foldl _ ∅ (agent_pairs l2)) in *.
  assert (∀ x, let f m := forget <$> m in
    (is_Some (f m1 !! id) ↔ is_Some (f m2 !! id)) ∧
    (x ∈ agents_of (f m1) id ↔ x ∈ agents_of (f m2) id) ∧
    (x ∈ tags_of (f m1) id ↔ x ∈ tags_of (f m2) id)) as H.
  { intros x f. subst f m1 m2. simpl. rewrite !snap_forget, fmap_empty.
    destruct (add_caps_spec (agent_pairs l1) ∅ id x) as (-> & -> & ->).
    destruct (add_caps_spec (agent_pairs l2) ∅ id x) as (-> & -> & ->).
    by setoid_rewrite Hp. }
  split; [destruct (H "") as [Hs _]; simpl in Hs; by rewrite !lookup_fmap, !fmap_is_Some in Hs|].
  unfold snap_entry. fold (description_of m1 id). fold (description_of m2 id). rewrite Hd.
  destruct (snap_lookup_forget m1 id) as [-> ->], (snap_lookup_forget m2 id) as [-> ->].
  f_equal; f_equal; f_equal; apply set_eq; intros x; apply (H x).
Qed.

Section settles.
Context {conditionApi : ConditionApi} {L : ConditionLaws conditionApi} {urlApi : UrlApi}
        {sortEntries : SliceSort entry} {SL : SliceSortLaws (key_less agentName) sortEntries}
        {sortCaps : SliceSort IndexedCapability} {CL : SliceSortLaws (key_less ID) sortCaps}
        {sortFleet : SliceSort AgentFleetEntry} {FL : SliceSortLaws (key_less fleet_Name) sortFleet}.

Lemma buildSnapshot_same l1 l2 ids1 ids2 :
  agent_pairs l1 ≡ₚ agent_pairs l2 → descriptions_agree (agent_pairs l1) →
  range_order (snap_aggregate l1) ids1 → range_order (snap_aggregate l2) ids2 →
  buildSnapshot l1 ids1 = buildSnapshot l2 ids2.
Proof.
  intros Hp Hag H1 [N2 H2]. unfold buildSnapshot.
  assert (ids1 ≡ₚ ids2) as Hids.
  { apply (range_order_perm (snap_aggregate l1)); [done|]. split; [done|]. intros id.
    rewrite H2. symmetry. by apply snap_entry_same. }
  rewrite (list_fmap_ext (snap_entry (snap_aggregate l1)) (snap_entry (snap_aggregate l2)) ids1)
    by (intros; by apply snap_entry_same).
  apply sort_slice_unique; [done..|by rewrite Hids|].
  rewrite <- list_fmap_compose, (list_fmap_ext _ id); [by rewrite list_fmap_id; apply H1|done].
Qed.

Lemma buildFleet_same l1 l' l2 :
  Forall2 same_view l1 l' → l' ≡ₚ l2 → NoDup (agent_Name <$> l1) → buildFleet l1 = buildFleet l2.
Proof.
  intros Hv Hp Hnd. unfold buildFleet.
  assert (fleet_entry <$> l' = fleet_entry <$> l1) as E.
  { clear Hp Hnd. induction Hv as [|a b l l' (Hn & _ & Hs & Ht) _ IH]; [done|].
    rewrite !fmap_cons, IH. f_equal. unfold fleet_entry. by rewrite Hn, Hs, Ht. }
  apply sort_slice_unique; [done..|by rewrite <- E, Hp|].
  by rewrite <- list_fmap_compose.
Qed.

Lemma rebuilt_settled now gen capable snap fleet status capable' :
  length capable' = length capable →
  contentChanged (rebuilt now gen capable snap fleet status) gen capable' snap fleet = false.
Proof.
  intros Hlen. unfold contentChanged, capabilitiesEqual, fleetEqual. simpl.
  rewrite Hlen, !Z.eqb_refl, !bool_decide_true by done. simpl.
  unfold setCondition. rewrite decide_True by done.
  pose proof (set_condition_find (registry_Conditions status)
    (mkCondition "Ready" ConditionTrue gen "IndexReady" "capability index rebuilt successfully")) as E.
  change (cond_Type _) with ConditionReady in E. by rewrite E.
Qed.

Lemma Reconcile_status env ids ns name w reg :
  stored w = Found reg → registry_DeletionTimestamp reg = None → list_ok env = true →
  let registered := members reg ns (cluster w) in
  let capable := List.filter has_capabilities registered in
  let snap := buildSnapshot capable ids in
  let fleet := buildFleet registered in
  stored (Reconcile env ids ns name w).1 =
    if contentChanged (registry_Status reg) (registry_Generation reg) capable snap fleet &&
       status_ok env
    then Found (reg <| registry_Status := rebuilt (renv_now env) (registry_Generation reg)
                         capable snap fleet (registry_Status reg) |>)
    else Found reg.
Proof.
  intros Hs Hd Hl. unfold Reconcile. rewrite Hs, Hd. simpl. rewrite Hl. simpl.
  fold (members reg ns (cluster w)).
  destruct (contentChanged _ _ _ _ _); simpl; [|done]. by destruct (status_ok env).
Qed.

(** once the status has been written, a reconciliation that finds the same agents, in
    any order and whatever the order of its map ranges, writes nothing, provided the
    agents have different names and agree on the description of each capability. *)
Theorem Reconcile_settles env env' ids ids' ns name w w2 reg :
  stored w = Found reg → registry_DeletionTimestamp reg = None →
  list_ok env = true → list_ok env' = true → status_ok env = true →
  let capable w := List.filter has_capabilities (members reg ns (cluster w)) in
  range_order (snap_aggregate (capable w)) ids →
  range_order (snap_aggregate (capable w2)) ids' →
  NoDup (agent_Name <$> members reg ns (cluster w)) →
  descriptions_agree (agent_pairs (capable w)) →
  stored w2 = stored (Reconcile env ids ns name w).1 →
  cluster (Reconcile env ids ns name w).1 ≡ₚ cluster w2 →
  stored (Reconcile env' ids' ns name w2).1 = stored w2.
Proof.
  intros Hs Hd Hl Hl' Hst capable Ho Ho' Hnd Hag Hstored Hcl.
  destruct (Reconcile_live env ids ns name w reg Hs Hd Hl) as [_ Ec]. rewrite Ec in Hcl. clear Ec.
  pose proof (members_view reg ns _ _ (annotate_agents_view env (belongs reg ns) (cluster w))) as Hv.
  assert (members reg ns (annotate_agents env (belongs reg ns) (cluster w)) ≡ₚ
    members reg ns (cluster w2)) as Hm by (unfold members; by repeat apply filter_perm).
  pose proof (buildFleet_same _ _ _ Hv Hm Hnd) as Hf.
  assert (∀ a b, same_view a b → has_capabilities b = has_capabilities a) as Hc
    by (intros a b (_ & _ & E & _); unfold has_capabilities; by rewrite E).
  pose proof (filter_view _ _ _ Hc Hv) as Hvc. pose proof (filter_perm has_capabilities _ _ Hm) as Hmc.
  assert (agent_pairs (capable w) ≡ₚ agent_pairs (capable w2)) as Hp.
  { subst capable. simpl. by rewrite <- (agent_pairs_view _ _ Hvc), (agent_pairs_perm _ _ Hmc). }
  pose proof (buildSnapshot_same _ _ _ _ Hp Hag Ho Ho') as Hsn.
  assert (length (capable w2) = length (capable w)) as Hlen.
  { subst capable. simpl. by rewrite <- Hmc, (Forall2_length _ _ _ Hvc). }
  rewrite (Reconcile_status _ _ _ _ _ _ Hs Hd Hl), Hst, andb_true_r in Hstored. fold (capable w) in Hstored.
  destruct (contentChanged _ _ _ _ _) eqn:Ech.
  - rewrite (Reconcile_status env' ids' ns name w2 _ Hstored Hd Hl').
    change (members (set_field _ _ reg)) with (members reg). simpl.
    fold (capable w2). rewrite <- Hf, <- Hsn, rebuilt_settled by done. by rewrite Hstored.
  - rewrite (Reconcile_status env' ids' ns name w2 _ Hstored Hd Hl').
    fold (capable w2). rewrite <- Hf, <- Hsn.
    assert (contentChanged (registry_Status reg) (registry_Generation reg) (capable w2)
      (buildSnapshot (capable w) ids) (buildFleet (members reg ns (cluster w))) = false) as ->
      by (unfold contentChanged in *; by rewrite Hlen).
    by rewrite Hstored.
Qed.
End settles.

(** ** Witnesses *)
Definition indexed_agent (name cap : string) : SwarmAgent :=
  mkSwarmAgent name "ns" 1 ∅ ∅
    (mkSwarmAgentSpec "gpt-5" [mkAgentCapability cap "does it" ["eu"] false] None None
       (Some (mkAgentInfrastructure (Some "default") [] None NetworkPolicyModeUnset None)) None [] no_runtime None [] None None)
    (ready_status 1).

Definition sample_registry : SwarmRegistry :=
  mkSwarmRegistry "default" "ns" 1 None (mkSwarmRegistrySpec RegistryScopeNamespace 3 [])
    (mkSwarmRegistryStatus 0 [] None [] 0 []).

Definition sample_world : registry_world :=
  mkRegistryWorld ∅ [indexed_agent "writer" "write"; indexed_agent "analyst" "analyse"]
    (Found sample_registry).

Definition sample_renv : registry_env :=
  mkRegistryEnv 7 true (λ _, true) true "redis://q" "".

Definition sample_ids : list string := ["write"; "analyse"].

Definition reconcile_sample (ids : list string) (w : registry_world) : registry_world :=
  (@Reconcile list_conditions toy_url merge_sort_by merge_sort_by merge_sort_by
     sample_renv ids "ns" "default" w).1.

Lemma sample_ids_order w :
  snap_aggregate (List.filter has_capabilities (members sample_registry "ns" (cluster w))) =
  snap_aggregate (cluster sample_world) →
  range_order (snap_aggregate (List.filter has_capabilities
    (members sample_registry "ns" (cluster w)))) sample_ids.
Proof.
  intros ->. split; [by apply (bool_decide_unpack _); vm_compute|].
  intros k. unfold snap_aggregate, sample_ids. simpl. unfold snap_add. simpl.
  rewrite !elem_of_cons, elem_of_nil. split.
  - intros [->|[->|[]]]; vm_compute; eauto.
  - intros [v Hv]. rewrite !lookup_insert_Some, lookup_empty in Hv. naive_solver.
Qed.

Lemma Reconcile_index_witness :
  bucket_offers (index (reconcile_sample sample_ids sample_world)) "ns/default" "write" ["eu"] "writer".
Proof.
  apply (@Reconcile_index list_conditions toy_url merge_sort_by
    (merge_sort_by_laws _ (key_less_total _)) merge_sort_by merge_sort_by
    sample_renv sample_ids "ns" "default" sample_world).
  exists (indexed_agent "writer" "write"). split; [left|]. split; [split; [by right|by eexists]|].
  split; [reflexivity|]. eexists. split; [left|]. split; [reflexivity|]. done.
Defined.

Definition reconciled : registry_world := reconcile_sample sample_ids sample_world.

Lemma reconciled_named : named (index reconciled).
Proof.
  intros capID tags (key & entries & e & Hk & He & Hn & _).
  assert (index reconciled = {[ "ns/default" := [mkEntry "analyst" [mkAgentCapability "analyse" "does it" ["eu"] false];
     mkEntry "writer" [mkAgentCapability "write" "does it" ["eu"] false]] ]}) as E
    by (vm_compute; reflexivity).
  rewrite E, lookup_singleton_Some in Hk. destruct Hk as [_ <-].
  rewrite !elem_of_cons, elem_of_nil in He. by destruct He as [->|[->|[]]].
Qed.

Lemma deleted_registry_leaks_witness :
  let later := Nat.iter 3 (reconcile_sample sample_ids)
    (mkRegistryWorld (index reconciled) [] NotFound) in
  ∃ found, @Resolve rand_first (index later) (keys_of (index later))
    (mkResolveRequest "write" [] StrategyLeastBusy) = Some found ∧ found ≠ "" ∧ str_le found "writer".
Proof.
  apply (@deleted_registry_leaks list_conditions toy_url merge_sort_by
    (merge_sort_by_laws _ (key_less_total _)) merge_sort_by merge_sort_by rand_first
    sample_renv sample_ids "ns" "default" sample_world sample_registry (indexed_agent "writer" "write"));
    [reflexivity..|left|reflexivity| |exact reconciled_named|apply range_order_keys].
  eexists. split; [left|]. split; [reflexivity|]. intros t Ht. by apply not_elem_of_nil in Ht.
Defined.

(** The cluster is listed in another order the second time. *)
Lemma Reconcile_settles_witness :
  stored (reconcile_sample sample_ids
    (mkRegistryWorld (index reconciled) (reverse (cluster reconciled)) (stored reconciled))) =
  stored reconciled.
Proof.
  apply (@Reconcile_settles list_conditions list_conditions_laws toy_url merge_sort_by
    merge_sort_by (merge_sort_by_laws _ (key_less_total _)) merge_sort_by
    (merge_sort_by_laws _ (key_less_total _)) sample_renv sample_renv sample_ids sample_ids
    "ns" "default" sample_world
    (mkRegistryWorld (index reconciled) (reverse (cluster reconciled)) (stored reconciled))
    sample_registry); try reflexivity.
  - apply sample_ids_order. vm_compute. reflexivity.
  - apply sample_ids_order. vm_compute. reflexivity.
  - apply (bool_decide_unpack _). vm_compute. reflexivity.
  - intros [n p] [m q] Hp Hq. simpl. intros _ _ _.
    match type of Hp with _ ∈ ?l => let l' := eval vm_compute in l in change l with l' in Hp, Hq end.
    rewrite !elem_of_cons, elem_of_nil in Hp, Hq.
    destruct Hp as [[= -> ->]|[[= -> ->]|[]]], Hq as [[= -> ->]|[[= -> ->]|[]]]; reflexivity.
  - symmetry. apply reverse_Permutation.
Defined.
