(* ===== verification/Routing.v ===== *)
(** * Routing: LLM-driven dispatch (internal/routing/router.go).

    [Route] is written against [CapabilityIndex], what it calls of the registry; the laws
    of that interface are what its theorem needs, and the registry discharges them.
    text/template (with the function [join]), encoding/json and the LLM call are
    interfaces; [None] is a panic. *)
From Stdlib Require Import ZArith Ascii.
From stdpp Require Import base tactics option list strings gmap sets.
From S2P Require Import Prelude GoStd Types AgentTypes Context Template Registry.

(** ** The interface of the index *)
Class CapabilityIndex (I : Type) := {
  idx_Snapshot : I → list IndexedCapability;
  idx_Resolve : I → ResolveRequest → option string }.

(** The default lookup of a listed capability answers the first agent listed with it, and
    an unlisted capability has no agent. *)
Class CapabilityIndexLaws (I : Type) `{CapabilityIndex I} (wf : I → Prop) : Prop := {
  resolve_listed : ∀ i ic, wf i → ic ∈ idx_Snapshot i →
    ∃ a, head (Agents ic) = Some a ∧ a ≠ "" ∧
         idx_Resolve i (mkResolveRequest (ID ic) [] StrategyLeastBusy) = Some a;
  resolve_unlisted : ∀ i capID, wf i → capID ∉ ID <$> idx_Snapshot i →
    idx_Resolve i (mkResolveRequest capID [] StrategyLeastBusy) = Some "" }.

Record Result := mkResult {
  AgentName : string;
  result_Capability : string;
  Reason : string }.

(** [json.Unmarshal] into the struct of [parseRouterResponse]: capability and reason. *)
Class RouterJson := unmarshal_route : string → result string (string * string).

Definition defaultRouterSystemPrompt : string :=
  "You are a task router. Select the most appropriate agent for the given task.

Available capabilities:
{{ range .Capabilities }}- id: {{ .ID }}
  description: {{ .Description }}
  tags: [{{ join .Tags " +:+ dq +:+ ", " +:+ dq +:+ " }}]
{{ end }}
Task input:
{{ .Input }}

Respond with a JSON object only - no markdown, no explanation outside the JSON:
{" +:+ dq +:+ "capability" +:+ dq +:+ ": " +:+ dq +:+ "<selected capability ID>" +:+ dq +:+ ", "
  +:+ dq +:+ "reason" +:+ dq +:+ ": " +:+ dq +:+ "<one sentence explanation>" +:+ dq +:+ "}

If no capability is a good fit, respond with:
{" +:+ dq +:+ "capability" +:+ dq +:+ ": " +:+ dq +:+ dq +:+ ", " +:+ dq +:+ "reason" +:+ dq +:+
  ": " +:+ dq +:+ "<why no match>" +:+ dq +:+ "}".

Definition any_of_capability (ic : IndexedCapability) : any :=
  AMap [("ID", AString (ID ic)); ("Description", AString (Description ic));
        ("Agents", AList (AString <$> Agents ic)); ("Tags", AList (AString <$> Tags ic))].

Section route.
Context {jsonApi : JsonApi} {templateApi : TemplateApi} {routerJson : RouterJson}.

Definition buildRouterPrompt (customPrompt : string) (caps : list IndexedCapability)
    (input : gmap string string) : result string string :=
  let tmplStr := if decide (customPrompt = "") then defaultRouterSystemPrompt else customPrompt in
  let inputBytes := match json_Marshal (any_of_strings input) with Ok s => s | Err _ => "" end in
  match template_Parse tmplStr with
  | Err e => Err ("parsing router prompt template: " +:+ e)
  | Ok tmpl =>
      match template_Execute tmpl (AMap [("Capabilities", AList (any_of_capability <$> caps));
                                         ("Input", AString inputBytes)]) with
      | Err e => Err ("executing router prompt template: " +:+ e)
      | Ok s => Ok s
      end
  end.

(** The text from the first opening brace to the last closing brace. *)
Definition router_json_span (response : string) : option string :=
  match index_byte response "{", last_index_byte response "}" with
  | Some start, Some stop =>
      if (stop <=? start)%nat then None else Some (str_take (S stop - start) (str_drop start response))
  | _, _ => None
  end.

Definition parseRouterResponse (response : string) : result string (string * string) :=
  match router_json_span response with
  | None => Err ("no JSON object found in router response: " +:+ Quote response)
  | Some raw =>
      match unmarshal_route raw with
      | Err e => Err ("parsing router JSON " +:+ Quote raw +:+ ": " +:+ e)
      | Ok (capability, reason) => Ok (TrimSpace capability, reason)
      end
  end.

(** The index is not locked while the LLM answers: [reg'] is its value when the answer
    is resolved. *)
Definition Route {I} `{CapabilityIndex I} (reg reg' : I) (routingCfg : option SwarmTeamRoutingSpec)
    (input : gmap string string) (llmFn : string → string → result string string)
    : option (result string Result) :=
  match routingCfg with
  | None => Some (Err "routing config is nil")
  | Some cfg =>
      let fallback := routing_Fallback cfg in
      if decide (routing_Model cfg = "") then Some (Err "spec.routing.model is required")
      else
        match idx_Snapshot reg with
        | [] => Some (if decide (fallback = "")
                      then Err "registry has no indexed capabilities and no fallback is configured"
                      else Ok (mkResult fallback "" "no capabilities indexed in registry"))
        | caps =>
            match buildRouterPrompt (routing_SystemPrompt cfg) caps input with
            | Err e => Some (Err ("building router prompt: " +:+ e))
            | Ok prompt =>
                match llmFn (routing_Model cfg) prompt with
                | Err e => Some (Err ("router LLM call failed: " +:+ e))
                | Ok response =>
                    match parseRouterResponse response with
                    | Err e => Some (Err ("parsing router response: " +:+ e))
                    | Ok (capID, reason) =>
                        if decide (capID = "") then
                          Some (if decide (fallback = "")
                                then Err ("router selected no capability and no fallback is configured: " +:+ reason)
                                else Ok (mkResult fallback "" reason))
                        else
                          match idx_Resolve reg' (mkResolveRequest capID [] StrategyLeastBusy) with
                          | None => None
                          | Some agent =>
                              if decide (agent = "") then
                                Some (if decide (fallback = "")
                                      then Err ("capability " +:+ Quote capID +:+
                                                " matched but no agent is indexed in the registry")
                                      else Ok (mkResult fallback capID reason))
                              else Some (Ok (mkResult agent capID reason))
                          end
                    end
                end
            end
        end
  end.
End route.

(** ** What a routing decision means *)
Section properties.
Context {jsonApi : JsonApi} {templateApi : TemplateApi} {routerJson : RouterJson}
        {I : Type} `{CI : CapabilityIndex I} {wf : I → Prop} {CL : CapabilityIndexLaws I wf}.

(** The capability and the reason the LLM answered, if the call got that far. *)
Definition llm_choice (reg : I) (cfg : SwarmTeamRoutingSpec) (input : gmap string string)
    (llmFn : string → string → result string string) : result string (string * string) :=
  prompt <-? buildRouterPrompt (routing_SystemPrompt cfg) (idx_Snapshot reg) input;
  response <-? llmFn (routing_Model cfg) prompt;
  parseRouterResponse response.

(** The agent a decision ends at: the first agent the index lists for the chosen
    capability, or the fallback. *)
Definition decided (reg' : I) (cfg : SwarmTeamRoutingSpec) (capID reason : string)
    (res : Result) : Prop :=
  result_Capability res = capID ∧ Reason res = reason ∧ AgentName res ≠ "" ∧
  ((∃ ic, ic ∈ idx_Snapshot reg' ∧ ID ic = capID ∧ head (Agents ic) = Some (AgentName res)) ∨
   (capID = "" ∨ capID ∉ ID <$> idx_Snapshot reg') ∧ AgentName res = routing_Fallback cfg).

Lemma resolve_cases reg' capID :
  wf reg' →
  (∃ ic a, ic ∈ idx_Snapshot reg' ∧ ID ic = capID ∧ head (Agents ic) = Some a ∧ a ≠ "" ∧
     idx_Resolve reg' (mkResolveRequest capID [] StrategyLeastBusy) = Some a) ∨
  (capID ∉ ID <$> idx_Snapshot reg' ∧
     idx_Resolve reg' (mkResolveRequest capID [] StrategyLeastBusy) = Some "").
Proof.
  intros Hwf. destruct (decide (capID ∈ ID <$> idx_Snapshot reg')) as [Hin|Hin].
  - apply list_elem_of_fmap in Hin as (ic & -> & Hic).
    destruct (resolve_listed reg' ic Hwf Hic) as (a & ? & ? & ?). left. by exists ic, a.
  - right. split; [done|]. by apply (resolve_unlisted (wf := wf)).
Qed.

(** a routing decision never panics.  It succeeds with the first agent indexed for the
    capability the LLM chose, or with the configured fallback when there is no such
    agent; without a fallback that is an error, and so is, fallback or not, a prompt, a
    call or an answer that fails. *)
Theorem Route_correct reg reg' cfg input llmFn :
  wf reg' → routing_Model cfg ≠ "" → idx_Snapshot reg ≠ [] →
  ∃ out, Route reg reg' (Some cfg) input llmFn = Some out ∧
    match llm_choice reg cfg input llmFn with
    | Err _ => ∃ e, out = Err e
    | Ok (capID, reason) =>
        match out with
        | Ok res => decided reg' cfg capID reason res
        | Err _ => routing_Fallback cfg = "" ∧ (capID = "" ∨ capID ∉ ID <$> idx_Snapshot reg')
        end
    end.
Proof.
  intros Hwf Hm Hne. unfold Route, llm_choice. rewrite decide_False by done.
  destruct (idx_Snapshot reg) as [|c l]; [done|].
  destruct (buildRouterPrompt _ _ _) as [prompt|e]; simpl; [|eauto].
  destruct (llmFn _ _) as [response|e]; simpl; [|eauto].
  destruct (parseRouterResponse response) as [[capID reason]|e]; [|eauto].
  destruct (decide (capID = "")) as [->|Hcap].
  { case_decide; (eexists; split; [reflexivity|]); simpl; [by split; [|left]|].
    split_and!; [done..|]. right. auto. }
  destruct (resolve_cases reg' capID Hwf) as [(ic & a & Hic & Hid & Hh & Ha & ->)|[Hno ->]].
  - rewrite decide_False by done. eexists. split; [reflexivity|].
    split_and!; [done..|]. left. eauto.
  - rewrite decide_True by done.
    case_decide; (eexists; split; [reflexivity|]); simpl; [by split; [|right]|].
    split_and!; [done..|]. right. auto.
Qed.

(** a fallback does not cover a router that fails: when the LLM call fails or its
    answer holds no JSON object the routing is an error, although the configuration
    promises the fallback whenever the router fails to select an agent. *)
Theorem Route_fallback_ignored reg reg' cfg input llmFn prompt response :
  routing_Model cfg ≠ "" → idx_Snapshot reg ≠ [] →
  buildRouterPrompt (routing_SystemPrompt cfg) (idx_Snapshot reg) input = Ok prompt →
  llmFn (routing_Model cfg) prompt = Ok response →
  index_byte response "{" = None →
  ∃ e, Route reg reg' (Some cfg) input llmFn = Some (Err e).
Proof.
  intros Hm Hne Hp Hr Hj. unfold Route. rewrite decide_False by done.
  destruct (idx_Snapshot reg) as [|c l]; [done|]. rewrite Hp, Hr.
  unfold parseRouterResponse, router_json_span. rewrite Hj. eauto.
Qed.
End properties.

(** ** The registry is such an index *)
Record ranged_index := mkRangedIndex {
  ri_buckets : buckets;
  ri_order : list string;
  ri_ids : list string }.

Definition ranged (i : ranged_index) : Prop :=
  range_order (ri_buckets i) (ri_order i) ∧
  range_order (aggregate (ri_buckets i) (ri_order i)) (ri_ids i) ∧ named (ri_buckets i).

#[export] Instance registry_index {randApi : RandApi} {sortCaps : SliceSort IndexedCapability} :
    CapabilityIndex ranged_index := {|
  idx_Snapshot i := Snapshot (ri_buckets i) (ri_order i) (ri_ids i);
  idx_Resolve i req := Resolve (ri_buckets i) (ri_order i) req |}.

#[export] Instance registry_index_laws {randApi : RandApi}
    {sortCaps : SliceSort IndexedCapability} {CL : SliceSortLaws (key_less ID) sortCaps} :
  CapabilityIndexLaws ranged_index ranged.
Proof.
  split; simpl.
  - intros i ic (Ho & Hids & Hn) Hic. pose proof (snapshot_ok _ _ _ Ho Hids) as Hs.
    destruct (snap_lists _ _ Hs ic Hic) as (Hne & _).
    destruct (Agents ic) as [|a l] eqn:E; [done|]. exists a. split_and!; [done| |].
    + intros ->. apply (Hn (ID ic) []), (snap_agents _ _ Hs _ _ Hic). rewrite E. by left.
    + rewrite (Resolve_first _ _ _ _ _ _ Ho Hs Hic) by (done || (right; left)). by rewrite E.
  - intros i capID (Ho & Hids & Hn) Hno. pose proof (snapshot_ok _ _ _ Ho Hids) as Hs.
    unfold Resolve. simpl. destruct (candidates _ _ _ _) as [|x l] eqn:E; [done|].
    destruct Hno. assert (offers (ri_buckets i) capID [] x) as Hx.
    { apply (candidates_elem _ _ _ _ _ Ho). rewrite E. by left. }
    destruct (snap_complete _ _ Hs _ _ Hx) as (ic & Hic & <-). apply list_elem_of_fmap. eauto.
Qed.

(** ** Witnesses *)
Definition toy_router : RouterJson := λ _, Ok (" write ", "it writes").

Definition sample_ranged : ranged_index :=
  mkRangedIndex sample_index (keys_of sample_index)
    (keys_of (aggregate sample_index (keys_of sample_index))).

Lemma sample_ranged_ok : ranged sample_ranged.
Proof. split_and!; [apply range_order_keys..|exact sample_index_named]. Qed.

Definition sample_routing : SwarmTeamRoutingSpec := mkSwarmTeamRoutingSpec None "haiku" "" "helper".

Lemma Route_correct_witness :
  ∃ res, @Route toy_json toy_template toy_router _ (@registry_index rand_first merge_sort_by)
           sample_ranged sample_ranged (Some sample_routing) ∅ (λ _ _, Ok "{}") = Some (Ok res) ∧
         AgentName res = "writer".
Proof.
  destruct (@Route_correct toy_json toy_template toy_router _
    (@registry_index rand_first merge_sort_by) ranged
    (@registry_index_laws rand_first merge_sort_by (merge_sort_by_laws _ (key_less_total ID)))
    sample_ranged sample_ranged sample_routing ∅ (λ _ _, Ok "{}")) as (out & Hout & H).
  - exact sample_ranged_ok.
  - done.
  - vm_compute. discriminate.
  - assert (out = Ok (mkResult "writer" "write" "it writes")) as ->.
    { vm_compute in Hout. by injection Hout. }
    eexists. split; [exact Hout|reflexivity].
Defined.

Lemma Route_fallback_ignored_witness :
  ∃ e, @Route toy_json toy_template toy_router _ (@registry_index rand_first merge_sort_by)
         sample_ranged sample_ranged (Some sample_routing) ∅ (λ _ _, Ok "the writer") = Some (Err e).
Proof.
  eapply (@Route_fallback_ignored toy_json toy_template toy_router _
    (@registry_index rand_first merge_sort_by)); [done|vm_compute; discriminate|reflexivity..].
Defined.
