(* ===== verification/Dispatch.v ===== *)
(** * Dispatch: submitting the steps of a run
    (internal/controller/swarmrun_controller.go: submitPendingSteps, submitRoutedStep and
    the lookups they make).

    What one reconciliation sees of its surroundings is a record, [run_env].  The queues
    answer each submission as a function of everything submitted before, so that task IDs
    and failures are arbitrary.  The statuses are threaded as the list that the index
    [statusByName] points into.  Events, logs, traces and audit records are left out. *)
From Stdlib Require Import ZArith Lia Ascii.
From stdpp Require Import base tactics option list strings gmap.
From S2P Require Import Prelude GoStd Types Queue Kube AgentTypes Dag Context Template RunState.
From S2P Require Import Registry Routing.

(** ** The surroundings of a reconciliation *)
Record submission := mkSubmission {
  sub_queue : string;
  sub_prompt : string;
  sub_meta : list (string * string) }.

Record run_env := mkRunEnv {
  run_now : Z;
  get_agent : string → string → get_result SwarmAgent;
  get_registry : string → string → get_result SwarmRegistry;
  list_registries : string → result string (list SwarmRegistry);
  env_TaskQueueURL : string;
  env_AgentTaskQueueURL : string;
  queue_factories : gmap string (string → Z → result string ());
  queue_submit : list submission → submission → result string string;
  queue_results : string → list string → result string (list TaskResult);
  (** [r.Registry] at the start of the call and when the router has answered. *)
  capability_index : option ranged_index;
  capability_index_later : ranged_index;
  RouterFn : option (string → string → result string string);
  SemanticValidateFn : option (string → string → result string string);
  env_CompressFn : option (string → string → result string string);
  CostProvider : string → Z → Z → Z → f64;
  (** The orders in which the maps are ranged over. *)
  input_order : SwarmTeamPipelineStep → list (string * string);
  status_order : list string;
  queue_order : list string;
  schema_range : list (string * any) → list (string * any);
  has_spend_store : bool }.

(** ** Roles, models, queues *)
Definition resolveRoleAgentName (teamRef : string) (role : SwarmTeamRole) : string :=
  if decide (role_SwarmAgent role = "") then teamRef +:+ "-" +:+ role_Name role
  else role_SwarmAgent role.

Record role_maps := mkRoleMaps {
  roleAgentMap : gmap string string;
  roleModelMap : gmap string string }.

Definition buildRoleMaps (run : SwarmRun) : role_maps :=
  foldl (λ m role,
    mkRoleMaps (<[role_Name role := resolveRoleAgentName (TeamRef (Spec run)) role]> (roleAgentMap m))
      (if decide (role_Model role = "") then roleModelMap m
       else <[role_Name role := role_Model role]> (roleModelMap m)))
    (mkRoleMaps ∅ ∅) (Roles (Spec run)).

Definition resolveRoleAgent (run : SwarmRun) (roleName : string) (maps : role_maps) : string :=
  default (TeamRef (Spec run) +:+ "-" +:+ roleName) (roleAgentMap maps !! roleName).

Definition resolveStepModel (env : run_env) (run : SwarmRun) (roleName : string)
    (maps : role_maps) : string :=
  match roleModelMap maps !! roleName with
  | Some model => model
  | None =>
      match get_agent env (run_Namespace run) (resolveRoleAgent run roleName maps) with
      | Found agent => agent_Model (agent_Spec agent)
      | _ => ""
      end
  end.

(** Whether the agent is ready, and the error of the lookup. *)
Definition agentHasReadyReplicas (env : run_env) (namespace agentName : string)
    : bool * option string :=
  match get_agent env namespace agentName with
  | NotFound => (true, None)
  | GetFailed e => (true, Some e)
  | Found agent => (ReadyReplicas (agent_Status agent) >? 0, None)
  end.

(** The condition under which a step waits for the pods of its agent. *)
Definition must_warm_up (env : run_env) (namespace agentName : string) : bool :=
  match agentHasReadyReplicas env namespace agentName with
  | (ready, None) => negb ready
  | (_, Some _) => false
  end.

Definition base_queue_url (env : run_env) : string :=
  if decide (env_AgentTaskQueueURL env = "") then env_TaskQueueURL env
  else env_AgentTaskQueueURL env.

Section queues.
Context {urlApi : UrlApi}.

Definition computeAgentQueueURL (env : run_env) (namespace agentName : string) : string :=
  if decide (base_queue_url env = "") then ""
  else appendStreamParam (base_queue_url env) (namespace +:+ "." +:+ agentName).

Definition computeRoleQueueURL (env : run_env) (namespace teamName roleName : string) : string :=
  if decide (base_queue_url env = "") then ""
  else appendStreamParam (base_queue_url env) (namespace +:+ "." +:+ teamName +:+ "." +:+ roleName).

Definition agentQueueURL (env : run_env) (namespace agentName : string) : result string string :=
  if decide (agentName = "") then Ok ""
  else
    match get_agent env namespace agentName with
    | NotFound => Ok ""
    | GetFailed e => Err e
    | Found agent =>
        match agent_Annotations agent !! AnnotationTeamQueueURL with
        | Some url => if decide (url = "") then Ok (computeAgentQueueURL env namespace agentName)
                      else Ok url
        | None => Ok (computeAgentQueueURL env namespace agentName)
        end
    end.

(** The URL of the opened queue; the empty URL is the shared queue. *)
Definition openQueueURL (env : run_env) (queueURL : string) : result string string :=
  if decide (queueURL = "") then Ok ""
  else
    match NewQueue (queue_factories env) queueURL 3 with
    | Err e => Err ("opening queue " +:+ Quote queueURL +:+ ": " +:+ e)
    | Ok _ => Ok queueURL
    end.

Definition resolveStepQueue (env : run_env) (namespace teamName agentName roleName : string)
    : result string string :=
  url <-? agentQueueURL env namespace agentName;
  openQueueURL env (if decide (url = "") then computeRoleQueueURL env namespace teamName roleName
                    else url).
End queues.

(** ** Token accounting *)
Definition sumRunTokens (steps : list PipelineStepStatus) : Z :=
  foldl (λ total st, match step_TokenUsage st with
                     | Some u => wrap64 (total + TotalTokens u)
                     | None => total
                     end) 0 steps.

(** ** Registry lookups *)
Definition findRegistry (env : run_env) (namespace : string) (ref : option string)
    (cache : gmap string (option SwarmRegistry))
    : option SwarmRegistry * gmap string (option SwarmRegistry) :=
  let name := default "" ref in
  let cacheKey := namespace +:+ "/" +:+ name in
  match cache !! cacheKey with
  | Some cached => (cached, cache)
  | None =>
      let found :=
        if decide (name = "") then
          match list_registries env namespace with
          | Ok (reg :: _) => Some reg
          | _ => None
          end
        else match get_registry env namespace name with
             | Found reg => Some reg
             | _ => None
             end in
      (found, <[cacheKey := found]> cache)
  end.

(** A step that failed before anything was submitted for it. *)
Definition fail_with (now : Z) (msg : string) (st : PipelineStepStatus) : PipelineStepStatus :=
  st <| step_Phase := StepFailed |> <| step_CompletionTime := Some now |> <| step_Message := msg |>.

Inductive agent_choice :=
| Chosen (agentName : string) (resolvedByRegistry : bool)
| LookupFailed (msg : string)
| LookupPanicked.

Definition delegation_depth (steps : list PipelineStepStatus) : Z :=
  foldl (λ d st, if decide (step_ResolvedAgent st = "") then d else wrap64 (d + 1)) 0 steps.

(** [fmt] of a string slice with the verb [%v]. *)
Definition show_tags (tags : list string) : string := "[" +:+ str_join " " tags +:+ "]".

Definition resolveAgentForStep {randApi : RandApi} (env : run_env) (run : SwarmRun)
    (steps : list PipelineStepStatus) (step : SwarmTeamPipelineStep) (maps : role_maps)
    (cache : gmap string (option SwarmRegistry))
    : agent_choice * gmap string (option SwarmRegistry) :=
  match (match find_step (Role step) (Pipeline (Spec run)) with
         | Some s => RegistryLookup s | None => None end) with
  | None => (Chosen (resolveRoleAgent run (Role step) maps) false, cache)
  | Some lookup =>
      let '(reg, cache) := findRegistry env (run_Namespace run) (lookup_RegistryRef lookup) cache in
      let maxDepth := match reg with Some r => registry_MaxDepth (registry_Spec r) | None => 0 end in
      let depth := delegation_depth steps in
      if (maxDepth >? 0) && (depth >=? maxDepth) then
        (LookupFailed ("MaxDelegationDepthExceeded: delegation depth " +:+ itoa depth +:+
                       " exceeds maxDepth " +:+ itoa maxDepth), cache)
      else
        match capability_index env with
        | None => (LookupFailed "RegistryLookupFailed: no Registry configured in operator", cache)
        | Some idx =>
            let strategy := if decide (lookup_Strategy lookup = StrategyUnset) then StrategyLeastBusy
                            else lookup_Strategy lookup in
            match Resolve (ri_buckets idx) (ri_order idx)
                    (mkResolveRequest (lookup_Capability lookup) (lookup_Tags lookup) strategy) with
            | None => (LookupPanicked, cache)
            | Some agentName =>
                if decide (agentName = "") then
                  if decide (lookup_Fallback lookup = "") then
                    (LookupFailed ("RegistryLookupFailed: no agent found for capability " +:+
                       Quote (lookup_Capability lookup) +:+ " with tags " +:+
                       show_tags (lookup_Tags lookup)), cache)
                  else (Chosen (lookup_Fallback lookup) true, cache)
                else (Chosen agentName true, cache)
            end
        end
  end.

(** ** The loop of [submitPendingSteps] *)
Record submit_state := mkSubmitState {
  sub_steps : list PipelineStepStatus;
  sub_log : list submission;
  sub_cache : gmap string (option SwarmRegistry) }.

#[export] Instance eta_submit_state : Settable submit_state := λ s,
  mkSubmitState (sub_steps s) (sub_log s) (sub_cache s).

(** Continue with the next step, return an error, or panic. *)
Inductive step_out :=
| Next (s : submit_state)
| Stop (s : submit_state) (e : string)
| Panicked.

Definition put_step (i : nat) (st : PipelineStepStatus) (s : submit_state) : submit_state :=
  s <| sub_steps ::= <[i := st]> |>.

(** A Running step without a task is taken back to Pending. *)
Definition recover_step (st : PipelineStepStatus) : PipelineStepStatus :=
  if decide (step_Phase st = StepRunning ∧ step_TaskID st = "")
  then st <| step_Phase := StepPending |> <| step_StartTime := None |> else st.

Definition waits (st : PipelineStepStatus) : bool :=
  match step_Phase st with StepPending | StepWarmingUp => true | _ => false end.

Definition skip_step (now : Z) (st : PipelineStepStatus) : PipelineStepStatus :=
  st <| step_Phase := StepSkipped |> <| step_CompletionTime := Some now |>
     <| step_Message := "skipped: if condition evaluated to false" |>.

Definition start_step (now : Z) (taskID : string) (st : PipelineStepStatus) : PipelineStepStatus :=
  st <| step_Phase := StepRunning |> <| step_TaskID := taskID |> <| step_StartTime := Some now |>.

Definition warm_step (agentName : string) (st : PipelineStepStatus) : PipelineStepStatus :=
  st <| step_Phase := StepWarmingUp |>
     <| step_Message := "waiting for agent " +:+ Quote agentName +:+ " pods to become ready" |>.

Section submit.
Context {jsonApi : JsonApi} {templateApi : TemplateApi} {regexpApi : RegexpApi}
        {floatText : FloatText} {urlApi : UrlApi} {randApi : RandApi}.
Variables (env : run_env) (run : SwarmRun) (statusByName : gmap string nat)
          (templateData : list (string * any)) (maps : role_maps).

(** The template data of one consumer; [None] is a panic. *)
Definition consumer_data (steps : list PipelineStepStatus) (step : SwarmTeamPipelineStep)
    : option (list (string * any)) :=
  match DefaultContextPolicy (Spec run) with
  | None => Some templateData
  | Some p =>
      ApplyDefaultContextPolicy (mkContextPolicyParams templateData (Role step)
        (Pipeline (Spec run)) (Some p) steps statusByName
        (Some (λ model prompt, match env_CompressFn env with
                               | None => Err "CompressFn not configured"
                               | Some f => f model prompt
                               end))
        (resolveStepModel env run (Role step) maps))
  end.

(** From the readiness gate on, for a step whose agent is known. *)
Definition launch_step (i : nat) (st : PipelineStepStatus) (agentName : string)
    (step : SwarmTeamPipelineStep) (prompt : string) (s : submit_state) : step_out :=
  if must_warm_up env (run_Namespace run) agentName then Next (put_step i (warm_step agentName st) s)
  else
    let st := if decide (step_Phase st = StepWarmingUp) then st <| step_Message := "" |> else st in
    let s := put_step i st s in
    let used := sumRunTokens (sub_steps s) in
    if (MaxTokens (Spec run) >? 0) && (used >=? MaxTokens (Spec run)) then
      Next (put_step i (fail_with (run_now env) ("MaxTokensExceeded: cumulative tokens " +:+
        itoa used +:+ " reached run limit " +:+ itoa (MaxTokens (Spec run))) st) s)
    else
      match resolveStepQueue env (run_Namespace run) (TeamRef (Spec run)) agentName (Role step) with
      | Err e => Stop s ("resolving queue for step " +:+ Quote (Role step) +:+ ": " +:+ e)
      | Ok url =>
          let sub := mkSubmission url prompt
                       [("run_name", run_Name run); ("step_name", Role step)] in
          match queue_submit env (sub_log s) sub with
          | Err e => Stop s ("submitting task for step " +:+ Quote (Role step) +:+ ": " +:+ e)
          | Ok taskID =>
              Next ((put_step i (start_step (run_now env) taskID st) s) <| sub_log ::= λ l, l ++ [sub] |>)
          end
      end.

(** From the resolution of the agent on. *)
Definition dispatch_step (i : nat) (st : PipelineStepStatus) (step : SwarmTeamPipelineStep)
    (prompt : string) (s : submit_state) : step_out :=
  if decide (step_ResolvedAgent st = "") then
    let '(choice, cache) := resolveAgentForStep env run (sub_steps s) step maps (sub_cache s) in
    let s := s <| sub_cache := cache |> in
    match choice with
    | LookupPanicked => Panicked
    | LookupFailed msg => Next (put_step i (fail_with (run_now env) msg st) s)
    | Chosen agentName byRegistry =>
        let st := if byRegistry then st <| step_ResolvedAgent := agentName |> else st in
        launch_step i st agentName step prompt (put_step i st s)
    end
  else launch_step i st (step_ResolvedAgent st) step prompt s.

Definition submit_step (s : submit_state) (step : SwarmTeamPipelineStep) : step_out :=
  match statusByName !! Role step with
  | None => Next s
  | Some i =>
      match sub_steps s !! i with
      | None => Next s
      | Some st =>
          let st := recover_step st in
          let s := put_step i st s in
          if negb (waits st) then Next s
          else if negb (DepsSucceeded (DependsOn step) (sub_steps s) statusByName) then Next s
          else
            match consumer_data (sub_steps s) step with
            | None => Panicked
            | Some data =>
                let holds :=
                  if decide (If step ≠ "" ∧ step_Phase st = StepPending) then
                    match ResolveTemplate (If step) (AMap data) with
                    | Ok r => IsTruthy r
                    | Err _ => false
                    end
                  else true in
                if negb holds then Next (put_step i (skip_step (run_now env) st) s)
                else
                  match ResolveTeamPrompt step (input_order env step) (AMap data) with
                  | Err e => Next (put_step i (fail_with (run_now env)
                                                 ("input template error: " +:+ e) st) s)
                  | Ok prompt => dispatch_step i st step prompt s
                  end
            end
      end
  end.

Fixpoint submit_steps (s : submit_state) (pipeline : list SwarmTeamPipelineStep) : step_out :=
  match pipeline with
  | [] => Next s
  | step :: rest =>
      match submit_step s step with
      | Next s => submit_steps s rest
      | out => out
      end
  end.

Definition submitPendingSteps (steps : list PipelineStepStatus) (log : list submission) : step_out :=
  submit_steps (mkSubmitState steps log ∅) (Pipeline (Spec run)).
End submit.

(** ** The routed step *)
Section routed.
Context {jsonApi : JsonApi} {urlApi : UrlApi} {routerJson : RouterJson} {randApi : RandApi}
        {sortCaps : SliceSort IndexedCapability} (routerTemplate : TemplateApi).

(** The statuses as they are left and the submissions; [None] is a panic. *)
Definition submitRoutedStep (env : run_env) (run : SwarmRun) (statusByName : gmap string nat)
    (steps : list PipelineStepStatus) (log : list submission)
    : option (list PipelineStepStatus * list submission * option string) :=
  match statusByName !! "route" with
  | None => Some (steps, log, None)
  | Some i =>
      match steps !! i with
      | None => Some (steps, log, None)
      | Some st =>
          let failed msg := Some (<[i := fail_with (run_now env) msg st]> steps, log, None) in
          if decide (step_Phase st ≠ StepPending) then Some (steps, log, None)
          else
            match RouterFn env, capability_index env with
            | None, _ => failed "RoutingFailed: RouterFn not configured in operator"
            | Some _, None => failed "RoutingFailed: Registry not configured in operator"
            | Some llm, Some idx =>
                match @Route jsonApi routerTemplate _ _ _ idx (capability_index_later env)
                        (Routing (Spec run)) (Input (Spec run)) llm with
                | None => None
                | Some (Err e) => failed ("RoutingFailed: " +:+ e)
                | Some (Ok res) =>
                    let st := st <| step_ResolvedAgent := AgentName res |>
                                 <| step_SelectedCapability := result_Capability res |>
                                 <| step_RoutingReason := Reason res |> in
                    let steps := <[i := st]> steps in
                    let prompt := match json_Marshal (any_of_strings (Input (Spec run))) with
                                  | Ok s => s | Err _ => "" end in
                    match resolveStepQueue env (run_Namespace run) (TeamRef (Spec run))
                            (AgentName res) "route" with
                    | Err e => Some (steps, log, Some ("resolving queue for routed step: " +:+ e))
                    | Ok url =>
                        let sub := mkSubmission url prompt
                                     [("capability", result_Capability res);
                                      ("routing_reason", Reason res)] in
                        match queue_submit env log sub with
                        | Err e => Some (steps, log, Some ("submitting routed task: " +:+ e))
                        | Ok taskID =>
                            Some (<[i := start_step (run_now env) taskID st]> steps, log ++ [sub], None)
                        end
                    end
                end
            end
      end
  end.
End routed.
