(* ===== verification/Collect.v ===== *)
(** * Collect: the results of the steps
    (internal/controller/swarmrun_controller.go: collectResults, runStepValidation,
    applyValidationFailure, applyStepContextPolicy, applyTokenUsage, recordStepSpend).

    The steps in flight are grouped by queue; each result is written to its step after
    validation and context compression.  The entries recorded in the spend store are
    returned with the statuses. *)
From Stdlib Require Import ZArith Lia Ascii.
From stdpp Require Import base tactics option list strings gmap.
From S2P Require Import Prelude GoStd Types Costs Queue Kube AgentTypes Dag Context Template.
From S2P Require Import RunState Validate Registry Routing Dispatch.

(** ** Small steps *)
Definition truncateOutput (output : string) (maxBytes : Z) : string :=
  if (maxBytes <=? 0) || (str_len output <=? maxBytes) then output
  else str_take (Z.to_nat maxBytes) output +:+ " [truncated]".

Definition applyValidationFailure (now : Z) (v : StepValidation) (reason : string)
    (st : PipelineStepStatus) : PipelineStepStatus :=
  let st := st <| step_ValidationAttempts ::= λ n, wrap64 (n + 1) |>
               <| step_ValidationMessage := reason |> in
  if bool_decide (OnFailure v = OnFailureRetry) && (step_ValidationAttempts st <? MaxRetries v) then
    st <| step_Phase := StepPending |> <| step_Output := "" |> <| step_OutputJSON := "" |>
       <| step_TaskID := "" |> <| step_TokenUsage := None |> <| step_CompletionTime := None |>
  else
    st <| step_Phase := StepFailed |> <| step_CompletionTime := Some now |>
       <| step_Message := "validation failed: " +:+ reason |>.

Definition failed_result (now : Z) (res : TaskResult) (st : PipelineStepStatus)
    : PipelineStepStatus :=
  let '(code, suggestion) := parseAgentErrorFields (res_Error res) in
  st <| step_Phase := StepFailed |> <| step_CompletionTime := Some now |>
     <| step_Message := res_Error res |>
     <| step_ErrorCode := code |> <| step_ErrorSuggestion := suggestion |>.

(** The output and artifacts of a result, before validation. *)
Definition take_output (res : TaskResult) (maxBytes : Z) (st : PipelineStepStatus)
    : PipelineStepStatus :=
  let st := st <| step_Output := truncateOutput (res_Output res) maxBytes |> in
  if decide (size (res_Artifacts res) = 0%nat) then st
  else st <| step_Artifacts := res_Artifacts res |>.

Inductive validation_out :=
| ValidationPassed
| ValidationFailed (reason : string)
| ValidationPanicked.

Inductive result_out :=
| Written (st : PipelineStepStatus) (spends : list SpendEntry)
| WritePanicked.

(** The settings of the steps by role; the last step of a role wins. *)
Definition by_role {A} (f : SwarmTeamPipelineStep → option A)
    (pipeline : list SwarmTeamPipelineStep) : gmap string A :=
  foldl (λ m s, match f s with Some v => <[Role s := v]> m | None => m end) ∅ pipeline.

Record queue_group := mkQueueGroup {
  taskIDs : list string;
  group_waiting : gmap string nat }.

Section collect.
Context {jsonApi : JsonApi} {regexpApi : RegexpApi} {floatText : FloatText}
        {caseApi : CaseApi} {urlApi : UrlApi}.
Variables (env : run_env) (run : SwarmRun) (maps : role_maps).

(** ** Spend *)
Definition recordStepSpend (st : PipelineStepStatus) (model : string) (usage : TokenUsage)
    : list SpendEntry :=
  if negb (has_spend_store env) then []
  else if bool_decide (step_CostUSD st = "" ∨ step_CostUSD st = "0") &&
          (InputTokens usage =? 0) && (OutputTokens usage =? 0) then []
  else [mkSpendEntry (run_now env) (run_Namespace run) (TeamRef (Spec run)) (run_Name run)
          (step_Name st) model (InputTokens usage) (OutputTokens usage)
          (default f64_zero (ParseFloat (step_CostUSD st)))].

Definition applyTokenUsage (st : PipelineStepStatus) (model : string) (usage : TokenUsage)
    : PipelineStepStatus * list SpendEntry :=
  if (InputTokens usage =? 0) && (OutputTokens usage =? 0) && (ThinkingTokens usage =? 0)
  then (st, [])
  else
    let st := st <| step_TokenUsage := Some (mkTokenUsage (InputTokens usage) (OutputTokens usage)
                      (ThinkingTokens usage)
                      (wrap64 (wrap64 (InputTokens usage + OutputTokens usage) +
                               ThinkingTokens usage)) "") |> in
    let st := if decide (model = "") then st
              else st <| step_CostUSD := FormatFixed 6 (CostProvider env model (InputTokens usage)
                           (OutputTokens usage) (ThinkingTokens usage)) |> in
    (st, recordStepSpend st model usage).

(** ** Validation *)
Definition runStepValidation (st : PipelineStepStatus) (v : option StepValidation)
    : validation_out :=
  match v with
  | None => ValidationPassed
  | Some v' =>
      let '(passed, reason) := ValidateStepOutput (schema_range env) (step_Output st) v in
      if negb passed then ValidationFailed reason
      else
        match SemanticValidateFn env with
        | None => ValidationPassed
        | Some validate =>
            let semModel := if decide (SemanticModel v' = "")
                            then resolveStepModel env run (step_Name st) maps
                            else SemanticModel v' in
            if decide (Semantic v' = "" ∨ semModel = "") then ValidationPassed
            else
              match validate semModel (SemanticValidatorPrompt (Semantic v') (step_Output st)) with
              | Err e => ValidationFailed ("semantic validator error: " +:+ e)
              | Ok response =>
                  match ParseSemanticResult response with
                  | None => ValidationPanicked
                  | Some (true, _) => ValidationPassed
                  | Some (false, semReason) => ValidationFailed semReason
                  end
              end
        end
  end.

(** ** Context policy *)
Definition applyStepContextPolicy (st : PipelineStepStatus) (policy : option StepContextPolicy)
    : PipelineStepStatus :=
  match policy with
  | None => st
  | Some _ =>
      let result := ApplyContextPolicy (step_Output st) policy
                      (resolveStepModel env run (step_Name st) maps) in
      if negb (NeedsCompression result) then
        st <| step_Output := Output result |> <| step_RawOutput := RawOutput result |>
      else
        match env_CompressFn env with
        | None => st
        | Some compress =>
            match compress (CompressionModel result) (CompressionPrompt result) with
            | Err _ => st
            | Ok compressed =>
                (ApplyCompressionResult st compressed) <| step_RawOutput := RawOutput result |>
            end
        end
  end.

(** ** One result *)
Definition write_result (res : TaskResult) (st : PipelineStepStatus) : result_out :=
  if decide (res_Error res ≠ "") then Written (failed_result (run_now env) res st) []
  else
    let pipeline := Pipeline (Spec run) in
    let maxBytes := default 0 (by_role (λ s, Some (step_MaxOutputBytes s)) pipeline !! step_Name st) in
    let st := take_output res maxBytes st in
    let '(st, spends) := applyTokenUsage st (resolveStepModel env run (step_Name st) maps)
                           (res_Usage res) in
    let v := by_role Validate pipeline !! step_Name st in
    match runStepValidation st v with
    | ValidationPanicked => WritePanicked
    | ValidationFailed reason =>
        Written (match v with
                 | Some v => applyValidationFailure (run_now env) v reason st
                 | None => st
                 end) spends
    | ValidationPassed =>
        let st := applyStepContextPolicy st (by_role ContextPolicy pipeline !! step_Name st) in
        Written (st <| step_Phase := StepSucceeded |> <| step_CompletionTime := Some (run_now env) |>)
          spends
    end.

(** ** Grouping by queue *)
Definition in_flight (st : PipelineStepStatus) : bool :=
  bool_decide (step_Phase st = StepRunning ∧ step_TaskID st ≠ "").

Definition cachedAgentQueueURL (namespace agentName : string) (cache : gmap string string)
    : result string (string * gmap string string) :=
  let key := namespace +:+ "/" +:+ agentName in
  match cache !! key with
  | Some url => Ok (url, cache)
  | None => url <-? agentQueueURL env namespace agentName; Ok (url, <[key := url]> cache)
  end.

Definition add_waiting (taskID : string) (i : nat) (g : queue_group) : queue_group :=
  mkQueueGroup (taskIDs g ++ [taskID]) (<[taskID := i]> (group_waiting g)).

Fixpoint group_steps (steps : list PipelineStepStatus) (statusByName : gmap string nat)
    (order : list string) (byQueue : gmap string queue_group) (cache : gmap string string)
    : result string (gmap string queue_group) :=
  match order with
  | [] => Ok byQueue
  | name :: rest =>
      match statusByName !! name with
      | None => group_steps steps statusByName rest byQueue cache
      | Some i =>
          match steps !! i with
          | None => group_steps steps statusByName rest byQueue cache
          | Some st =>
              if negb (in_flight st) then group_steps steps statusByName rest byQueue cache
              else
                let agentName := if decide (step_ResolvedAgent st = "")
                                 then resolveRoleAgent run (step_Name st) maps
                                 else step_ResolvedAgent st in
                res <-? cachedAgentQueueURL (run_Namespace run) agentName cache;
                let '(url, cache) := res in
                let url := if decide (url = "")
                           then computeRoleQueueURL env (run_Namespace run) (TeamRef (Spec run)) (step_Name st)
                           else url in
                let g := default (mkQueueGroup [] ∅) (byQueue !! url) in
                group_steps steps statusByName rest (<[url := add_waiting (step_TaskID st) i g]> byQueue) cache
          end
      end
  end.

(** ** The loops over the queues and their results *)
Inductive collect_out :=
| Collected (steps : list PipelineStepStatus) (spends : list SpendEntry)
| CollectFailed (spends : list SpendEntry) (e : string)
| CollectPanicked.

Fixpoint write_group (g : queue_group) (results : list TaskResult)
    (steps : list PipelineStepStatus) (spends : list SpendEntry) : collect_out :=
  match results with
  | [] => Collected steps spends
  | res :: rest =>
      match group_waiting g !! res_TaskID res with
      | None => write_group g rest steps spends
      | Some i =>
          match steps !! i with
          | None => write_group g rest steps spends
          | Some st =>
              match write_result res st with
              | WritePanicked => CollectPanicked
              | Written st' new => write_group g rest (<[i := st']> steps) (spends ++ new)
              end
          end
      end
  end.

Fixpoint poll_queues (byQueue : gmap string queue_group) (order : list string)
    (steps : list PipelineStepStatus) (spends : list SpendEntry) : collect_out :=
  match order with
  | [] => Collected steps spends
  | queueURL :: rest =>
      match byQueue !! queueURL with
      | None => poll_queues byQueue rest steps spends
      | Some g =>
          match openQueueURL env queueURL with
          | Err e => CollectFailed spends ("opening queue " +:+ Quote queueURL +:+
                                           " for result collection: " +:+ e)
          | Ok _ =>
              match queue_results env queueURL (taskIDs g) with
              | Err e => CollectFailed spends e
              | Ok results =>
                  match write_group g results steps spends with
                  | Collected steps spends => poll_queues byQueue rest steps spends
                  | out => out
                  end
              end
          end
      end
  end.

Definition collectResults (steps : list PipelineStepStatus) (statusByName : gmap string nat)
    : collect_out :=
  match group_steps steps statusByName (status_order env) ∅ ∅ with
  | Err e => CollectFailed [] e
  | Ok byQueue => poll_queues byQueue (queue_order env) steps []
  end.
End collect.
