(* ===== verification/AgentRun.v ===== *)
(** * AgentRun: runs of a single synthetic step
    (internal/controller/swarmrun_controller.go: reconcileAgentRun, reconcileDynamicRun and
    the functions they call, and cancelRunTasks).

    An agent run sends its prompt to one agent; a dynamic run sends it to the agent of the
    entry role of a team.  Both keep one step in the status.  The body of a reconciliation
    is a value of [pass]: what it hands to the final status update, or how it ends
    before. *)
From Stdlib Require Import ZArith Lia Ascii.
From stdpp Require Import base tactics option list strings gmap.
From S2P Require Import Prelude GoStd Types Costs Queue Kube AgentTypes Dag Context Template.
From S2P Require Import RunState Validate Registry Routing Dispatch Collect.

(** What a reconciliation did outside of the run object. *)
Record effects := mkEffects {
  eff_submitted : list submission;
  eff_spends : list SpendEntry;
  eff_cancelled : list (string * list string);
  eff_notified : bool }.

#[export] Instance eta_effects : Settable effects := λ e,
  mkEffects (eff_submitted e) (eff_spends e) (eff_cancelled e) (eff_notified e).

Definition no_effects : effects := mkEffects [] [] [] false.

Inductive pass :=
| Update (run : SwarmRun) (eff : effects)
| Return (err : string) (eff : effects)
| Crash.

(** ** Cancelling the tasks of a run *)
Definition cancellable (st : PipelineStepStatus) : bool :=
  negb (String.eqb (step_TaskID st) "") &&
  match step_Phase st with StepRunning | StepPending | StepWarmingUp => true | _ => false end.

Definition set_observed_generation (run : SwarmRun) : SwarmRun :=
  set_status run ((Status run) <| ObservedGeneration := Generation run |>).

Section single.
Context {jsonApi : JsonApi} {templateApi : TemplateApi} {regexpApi : RegexpApi}
        {floatText : FloatText} {caseApi : CaseApi} {urlApi : UrlApi}
        {conditionApi : ConditionApi}.
Variable env : run_env.

Definition cancel_agent (run : SwarmRun) (st : PipelineStepStatus) : string :=
  if decide (step_ResolvedAgent st = "") then
    if decide (Agent (Spec run) = "") then resolveRoleAgent run (step_Name st) (buildRoleMaps run)
    else Agent (Spec run)
  else step_ResolvedAgent st.

(** The queue of one step, with the cache of the queue URLs. *)
Definition cancel_url (run : SwarmRun) (st : PipelineStepStatus) (urlCache : gmap string string)
    : string * gmap string string :=
  let '(url, urlCache) :=
    match cachedAgentQueueURL env (run_Namespace run) (cancel_agent run st) urlCache with
    | Ok (url, urlCache) => (url, urlCache)
    | Err _ => ("", urlCache)
    end in
  if decide (url = "" ∧ Agent (Spec run) = "")
  then (computeRoleQueueURL env (run_Namespace run) (TeamRef (Spec run)) (step_Name st), urlCache)
  else (url, urlCache).

Fixpoint cancel_groups (run : SwarmRun) (steps : list PipelineStepStatus)
    (byQueue : gmap string (list string)) (urlCache : gmap string string)
    : gmap string (list string) :=
  match steps with
  | [] => byQueue
  | st :: rest =>
      if negb (cancellable st) then cancel_groups run rest byQueue urlCache
      else
        let '(url, urlCache) := cancel_url run st urlCache in
        if decide (url = "") then cancel_groups run rest byQueue urlCache
        else cancel_groups run rest
               (<[url := default [] (byQueue !! url) ++ [step_TaskID st]]> byQueue) urlCache
  end.

(** The cancellations asked for, by queue; a queue that cannot be opened is skipped. *)
Definition cancelRunTasks (run : SwarmRun) : list (string * list string) :=
  let byQueue := cancel_groups run (Steps (Status run)) ∅ ∅ in
  omap (λ url, match byQueue !! url, openQueueURL env url with
               | Some ids, Ok _ => Some (url, ids)
               | _, _ => None
               end) (queue_order env).

(** ** The step of an agent run *)
(** Submit the prompt: the step, the submissions and the error. *)
Definition submitAgentStep (run : SwarmRun) (st : PipelineStepStatus) (log : list submission)
    : PipelineStepStatus * list submission * option string :=
  if must_warm_up env (run_Namespace run) (Agent (Spec run))
  then (warm_step (Agent (Spec run)) st, log, None)
  else
    let st := st <| step_Phase := StepPending |> <| step_Message := "" |> in
    match agentQueueURL env (run_Namespace run) (Agent (Spec run)) with
    | Err e => (st, log, Some ("reading agent queue URL: " +:+ e))
    | Ok queueURL =>
        match openQueueURL env queueURL with
        | Err e => (st, log, Some ("opening agent queue: " +:+ e))
        | Ok url =>
            let sub := mkSubmission url (Prompt (Spec run)) [("run", run_Name run)] in
            match queue_submit env log sub with
            | Err e => (st, log, Some ("submitting agent task: " +:+ e))
            | Ok taskID =>
                ((start_step (run_now env) taskID st) <| step_ResolvedAgent := Agent (Spec run) |>,
                 log ++ [sub], None)
            end
        end
    end.

Definition applyAgentResult (run : SwarmRun) (model : string)
    (acc : PipelineStepStatus * list SpendEntry) (res : TaskResult)
    : PipelineStepStatus * list SpendEntry :=
  let '(st, spends) := acc in
  if decide (res_Error res ≠ "") then (failed_result (run_now env) res st, spends)
  else
    let st := st <| step_Output := res_Output res |> in
    let st := if decide (size (res_Artifacts res) = 0%nat) then st
              else st <| step_Artifacts := res_Artifacts res |> in
    let st := st <| step_Phase := StepSucceeded |> <| step_CompletionTime := Some (run_now env) |> in
    let '(st, new) := applyTokenUsage env run st model (res_Usage res) in
    (st, spends ++ new).

(** The results of the task, once they are polled from the queue at [url]. *)
Definition poll_step (run : SwarmRun) (agentName url : string) (st : PipelineStepStatus)
    : PipelineStepStatus * list SpendEntry :=
  match queue_results env url [step_TaskID st] with
  | Err _ => (st, [])
  | Ok results =>
      let model := match get_agent env (run_Namespace run) agentName with
                   | Found agent => agent_Model (agent_Spec agent)
                   | _ => ""
                   end in
      foldl (applyAgentResult run model) (st, []) results
  end.

Definition collectAgentResult (run : SwarmRun) (st : PipelineStepStatus)
    : result string (PipelineStepStatus * list SpendEntry) :=
  match agentQueueURL env (run_Namespace run) (Agent (Spec run)) with
  | Err e => Err ("reading agent queue URL for result: " +:+ e)
  | Ok queueURL =>
      match openQueueURL env queueURL with
      | Err e => Err ("opening agent queue for result: " +:+ e)
      | Ok url => Ok (poll_step run (Agent (Spec run)) url st)
      end
  end.

(** ** The step of a dynamic run *)
Definition dynamic_prompt (run : SwarmRun) : string :=
  if decide (Prompt (Spec run) = "" ∧ size (Input (Spec run)) ≠ 0%nat) then
    match json_Marshal (any_of_strings (Input (Spec run))) with Ok s => s | Err _ => "" end
  else Prompt (Spec run).

Definition submitDynamicEntryStep (run : SwarmRun) (st : PipelineStepStatus) (agentName : string)
    (log : list submission) : PipelineStepStatus * list submission * option string :=
  if must_warm_up env (run_Namespace run) agentName then (warm_step agentName st, log, None)
  else
    let st := st <| step_Phase := StepPending |> <| step_Message := "" |> in
    match resolveStepQueue env (run_Namespace run) (TeamRef (Spec run)) agentName (Entry (Spec run)) with
    | Err e => (st, log, Some ("resolving queue for dynamic entry role: " +:+ e))
    | Ok url =>
        let sub := mkSubmission url (dynamic_prompt run)
          [("run_name", run_Name run); ("role", Entry (Spec run)); ("mode", "dynamic")] in
        match queue_submit env log sub with
        | Err e => (st, log, Some ("submitting dynamic entry task: " +:+ e))
        | Ok taskID => (start_step (run_now env) taskID st, log ++ [sub], None)
        end
    end.

Definition collectDynamicResult (run : SwarmRun) (st : PipelineStepStatus) (agentName : string)
    : result string (PipelineStepStatus * list SpendEntry) :=
  match agentQueueURL env (run_Namespace run) agentName with
  | Err e => Err ("reading agent queue URL for dynamic result: " +:+ e)
  | Ok queueURL =>
      let queueURL := if decide (queueURL = "")
                      then computeRoleQueueURL env (run_Namespace run) (TeamRef (Spec run)) (Entry (Spec run))
                      else queueURL in
      match openQueueURL env queueURL with
      | Err e => Err ("opening queue for dynamic result: " +:+ e)
      | Ok url => Ok (poll_step run agentName url st)
      end
  end.

(** ** The phase of the run *)
Definition finalize_single (okMessage failReason : string) (run : SwarmRun) (st : PipelineStepStatus)
    : SwarmRun :=
  match step_Phase st with
  | StepSucceeded =>
      let run := set_completion (set_output (set_phase run RunSucceeded) (step_Output st)) (run_now env) in
      let run := match step_TokenUsage st with
                 | Some u => set_status run ((Status run) <| TotalTokenUsage := Some u |>
                                                          <| TotalCostUSD := step_CostUSD st |>)
                 | None => run
                 end in
      SetRunCondition run ConditionTrue "Succeeded" okMessage
  | StepFailed =>
      SetRunCondition (set_completion (set_phase run RunFailed) (run_now env))
        ConditionFalse failReason (step_Message st)
  | _ => run
  end.

Definition finalizeAgentRun : SwarmRun → PipelineStepStatus → SwarmRun :=
  finalize_single "agent run completed successfully" "AgentFailed".

Definition finalizeDynamicRun : SwarmRun → PipelineStepStatus → SwarmRun :=
  finalize_single "dynamic run completed successfully" "EntryFailed".

(** ** The reconcilers *)
Variable has_notifier : bool.

(** The branch of a run that has just timed out. *)
Definition timed_out_run (run : SwarmRun) : SwarmRun * effects :=
  let run := SetRunCondition run ConditionFalse "Timeout"
    ("run exceeded timeout of " +:+ itoa (TimeoutSeconds (Spec run)) +:+ "s") in
  (run, mkEffects [] [] (cancelRunTasks run) has_notifier).

(** Submit or poll, by the phase of the step. *)
Definition drive_step (submit : PipelineStepStatus → PipelineStepStatus * list submission * option string)
    (poll : PipelineStepStatus → result string (PipelineStepStatus * list SpendEntry))
    (st : PipelineStepStatus) : PipelineStepStatus * effects * option string :=
  match step_Phase st with
  | StepPending | StepWarmingUp =>
      let '(st, log, err) := submit st in (st, no_effects <| eff_submitted := log |>, err)
  | StepRunning =>
      match poll st with
      | Err e => (st, no_effects, Some e)
      | Ok (st, spends) => (st, no_effects <| eff_spends := spends |>, None)
      end
  | _ => (st, no_effects, None)
  end.

(** From the step as it is driven to the status that is written. *)
Definition finish_single (finalize : SwarmRun → PipelineStepStatus → SwarmRun) (run : SwarmRun)
    (out : PipelineStepStatus * effects * option string) : pass :=
  let '(st, eff, err) := out in
  match err with
  | Some e => Return e eff
  | None =>
      let run := finalize (set_steps run (<[0%nat := st]> (Steps (Status run)))) st in
      Update (set_observed_generation run)
        (eff <| eff_notified := has_notifier && IsTerminalRunPhase (Phase (Status run)) |>)
  end.

Definition driveAgentStep (run : SwarmRun) : PipelineStepStatus → PipelineStepStatus * effects * option string :=
  drive_step (λ st, submitAgentStep run st []) (collectAgentResult run).

Definition start_agent_run (run : SwarmRun) : SwarmRun :=
  let run := match Steps (Status run) with
             | [] => set_steps run [new_step "agent" StepPending]
             | _ => run
             end in
  if decide (Phase (Status run) = RunUnset ∨ Phase (Status run) = RunPending)
  then start_run (run_now env) run else run.

Definition reconcileAgentRun (run : SwarmRun) : pass :=
  let run := start_agent_run run in
  let '(fired, run) := EnforceRunTimeout run (run_now env) in
  if fired then
    let '(run, eff) := timed_out_run run in Update (set_observed_generation run) eff
  else
    match Steps (Status run) with
    | [] => Crash
    | st :: _ => finish_single finalizeAgentRun run (driveAgentStep run st)
    end.

Definition drive_entry (run : SwarmRun) (agentName : string)
    : PipelineStepStatus → PipelineStepStatus * effects * option string :=
  drive_step (λ st, submitDynamicEntryStep run st agentName [])
    (λ st, collectDynamicResult run st agentName).

Definition reconcileDynamicRun (run : SwarmRun) : pass :=
  let run := InitializeDynamicStep (run_now env) run in
  match Steps (Status run) with
  | [] => Crash
  | st :: rest =>
      let agentName := resolveRoleAgent run (Entry (Spec run)) (buildRoleMaps run) in
      let run := set_steps run (st <| step_ResolvedAgent := agentName |> :: rest) in
      let '(fired, run) := EnforceRunTimeout run (run_now env) in
      if fired then
        let '(run, eff) := timed_out_run run in Update (set_observed_generation run) eff
      else
        match Steps (Status run) with
        | [] => Crash
        | st :: _ => finish_single finalizeDynamicRun run (drive_entry run agentName st)
        end
  end.
End single.
