(* ===== verification/Admission.v ===== *)
(** * Admission: the checks before a run starts
    (internal/controller/swarmrun_controller.go: validateAndDefaultInputs, checkBudgets,
    budgetMatchesRun).

    The budget policy and the spend store are arguments: any policy of Costs (the standard
    one, or the one that guards it with the health of the store) can be given.  A list of
    budgets that cannot be read, like a budget that cannot be parsed or evaluated, does not
    block the run. *)
From Stdlib Require Import ZArith Lia Ascii.
From stdpp Require Import base tactics option list strings gmap.
From S2P Require Import Prelude GoStd Types Costs Kube.

(** ** Inputs *)
Fixpoint default_inputs (params : list SwarmTeamInputSpec) (input : gmap string string)
    : result string (gmap string string) :=
  match params with
  | [] => Ok input
  | param :: rest =>
      match input !! input_Name param with
      | Some _ => default_inputs rest input
      | None =>
          if Required param
          then Err ("required input parameter " +:+ Quote (input_Name param) +:+ " is missing")
          else if decide (Default param = "") then default_inputs rest input
          else default_inputs rest (<[input_Name param := Default param]> input)
      end
  end.

(** The input of the run, as it is left in memory. *)
Definition validateAndDefaultInputs (get_team : string → string → get_result SwarmTeam)
    (run : SwarmRun) : result string (gmap string string) :=
  let input := Input (Spec run) in
  if decide (TeamRef (Spec run) = "") then Ok input
  else
    match get_team (run_Namespace run) (TeamRef (Spec run)) with
    | NotFound => Ok input
    | GetFailed e => Err ("fetching parent SwarmTeam " +:+ Quote (TeamRef (Spec run)) +:+ ": " +:+ e)
    | Found team => default_inputs (team_Inputs (team_Spec team)) input
    end.

(** ** Budgets *)
Definition budgetMatchesRun (b : SwarmBudget) (run : SwarmRun) : bool :=
  let sel := budget_Selector (budget_Spec b) in
  if decide (selector_Namespace sel ≠ "" ∧ selector_Namespace sel ≠ run_Namespace run) then false
  else if decide (selector_Team sel ≠ "" ∧ selector_Team sel ≠ TeamRef (Spec run)) then false
  else true.

Definition budget_policy : Type := BudgetInput → store_total → result string BudgetDecision.

Section budgets.
Context {floatText : FloatText}.
Variables (policy : option budget_policy) (now : Z) (store : option store_total).

Definition used_policy : budget_policy := default (StandardBudgetPolicy_Evaluate now) policy.

Definition budget_input (run : SwarmRun) (b : SwarmBudget) (limit : f64) : BudgetInput :=
  mkBudgetInput (run_Namespace run) (TeamRef (Spec run)) (period_of (budget_Period (budget_Spec b)))
    limit (budget_WarnAt (budget_Spec b)) false.

(** The message with which one budget blocks the run. *)
Definition budget_blocks (total : store_total) (run : SwarmRun) (b : SwarmBudget) : option string :=
  if negb (budgetMatchesRun b run) then None
  else if negb (budget_HardStop (budget_Spec b)) then None
  else
    match ParseFloat (budget_Limit (budget_Spec b)) with
    | None => None
    | Some limit =>
        match used_policy (budget_input run b limit) total with
        | Err _ => None
        | Ok d =>
            match decision_Status d with
            | BudgetExceeded =>
                Some ("budget " +:+ Quote (budget_Name b) +:+ " exceeded: " +:+ decision_Message d)
            | _ => None
            end
        end
    end.

Fixpoint first_block (total : store_total) (run : SwarmRun) (budgets : list SwarmBudget)
    : option string :=
  match budgets with
  | [] => None
  | b :: rest => match budget_blocks total run b with
                 | Some msg => Some msg
                 | None => first_block total run rest
                 end
  end.

(** The message when the run is blocked. *)
Definition checkBudgets (list_budgets : string → result string (list SwarmBudget)) (run : SwarmRun)
    : option string :=
  match store with
  | None => None
  | Some total =>
      match list_budgets (run_Namespace run) with
      | Err _ => None
      | Ok budgets => first_block total run budgets
      end
  end.
End budgets.

(** ** Inputs: lemmas and the specification *)
(** A parameter that neither the run nor an earlier default provides. *)
Definition missing (input : gmap string string) (param : SwarmTeamInputSpec) : Prop :=
  Required param = true ∧ input !! input_Name param = None.

Lemma default_inputs_frame params input out n v :
  default_inputs params input = Ok out → input !! n = Some v → out !! n = Some v.
Proof.
  revert input. induction params as [|p rest IH]; simpl; intros input H Hn; [congruence|].
  destruct (input !! input_Name p) as [w|] eqn:E; [by eapply IH|].
  destruct (Required p); [done|]. case_decide; [by eapply IH|].
  eapply IH; [done|]. rewrite lookup_insert_ne; [done|congruence].
Qed.

Lemma default_inputs_new params input out n v :
  default_inputs params input = Ok out → input !! n = None → out !! n = Some v →
  ∃ p, p ∈ params ∧ input_Name p = n ∧ Required p = false ∧ Default p = v ∧ v ≠ "".
Proof.
  revert input. induction params as [|p rest IH]; simpl; intros input H Hn Hv; [congruence|].
  destruct (input !! input_Name p) as [w|] eqn:E.
  { destruct (IH _ H Hn Hv) as (q & ? & ?). exists q. set_solver. }
  destruct (Required p) eqn:ER; [done|]. case_decide.
  { destruct (IH _ H Hn Hv) as (q & ? & ?). exists q. set_solver. }
  destruct (decide (input_Name p = n)) as [En|Hne].
  - subst n. pose proof (default_inputs_frame _ _ _ _ _ H (lookup_insert_eq _ _ _)) as Hd.
    rewrite Hv in Hd. simplify_eq. exists p. set_solver.
  - destruct (IH _ H ltac:(by rewrite lookup_insert_ne) Hv) as (q & ? & ?). exists q. set_solver.
Qed.

Lemma default_inputs_ok params input :
  NoDup (input_Name <$> params) →
  is_Ok (default_inputs params input) = true ↔ ∀ p, p ∈ params → ¬ missing input p.
Proof.
  revert input. induction params as [|p rest IH]; simpl; intros input Hnd; [set_solver|].
  apply NoDup_cons in Hnd as [Hp Hnd].
  assert (∀ v q, q ∈ rest → missing (<[input_Name p := v]> input) q ↔ missing input q) as Hins.
  { intros v q Hq. unfold missing. rewrite lookup_insert_ne; [done|]. intros E. apply Hp.
    rewrite E. by apply list_elem_of_fmap_2. }
  unfold missing at 1. destruct (input !! input_Name p) as [w|] eqn:E.
  - rewrite IH by done. split; intros H q Hq; [|by apply H; right].
    apply elem_of_cons in Hq as [->|Hq]; [intros [_ ?]; congruence|by apply H].
  - destruct (Required p) eqn:ER.
    { split; [done|]. intros H. exfalso. apply (H p); [by left|done]. }
    assert ((∀ q, q ∈ rest → ¬ missing input q) ↔ ∀ q, q ∈ p :: rest → ¬ missing input q) as Hr.
    { split; intros H q Hq; [|by apply H; right].
      apply elem_of_cons in Hq as [->|Hq]; [intros [? _]; congruence|by apply H]. }
    case_decide; rewrite IH by done; [done|]. rewrite <- Hr.
    split; intros Hall q Hq; [rewrite <- (Hins (Default p)); auto|rewrite Hins; auto].
Qed.

Lemma default_inputs_default params input out p :
  NoDup (input_Name <$> params) → default_inputs params input = Ok out →
  p ∈ params → input !! input_Name p = None → Default p ≠ "" →
  out !! input_Name p = Some (Default p).
Proof.
  revert input. induction params as [|q rest IH]; simpl; intros input Hnd E Hp Hn Hd; [set_solver|].
  apply NoDup_cons in Hnd as [Hq Hnd]. apply elem_of_cons in Hp as [->|Hp].
  { rewrite Hn in E. destruct (Required q); [done|]. rewrite decide_False in E by done.
    by apply (default_inputs_frame _ _ _ _ _ E (lookup_insert_eq _ _ _)). }
  destruct (input !! input_Name q); [by eapply IH|]. destruct (Required q); [done|].
  case_decide; [by eapply IH|]. eapply IH; [done..| |done].
  rewrite lookup_insert_ne; [done|]. intros E'. apply Hq. rewrite E'. by apply list_elem_of_fmap_2.
Qed.

(** inputs: against a team with distinct parameter names the check fails exactly when a
    required parameter is absent; otherwise the values the run provides are kept, every
    optional parameter with a default gets it, and nothing else is added. *)
Theorem validateAndDefaultInputs_spec (get_team : string → string → get_result SwarmTeam)
    (run : SwarmRun) (team : SwarmTeam) :
  TeamRef (Spec run) ≠ "" →
  get_team (run_Namespace run) (TeamRef (Spec run)) = Found team →
  NoDup (input_Name <$> team_Inputs (team_Spec team)) →
  let params := team_Inputs (team_Spec team) in
  let input := Input (Spec run) in
  match validateAndDefaultInputs get_team run with
  | Err _ => ∃ p, p ∈ params ∧ missing input p
  | Ok out =>
      (∀ p, p ∈ params → ¬ missing input p) ∧
      (∀ n v, input !! n = Some v → out !! n = Some v) ∧
      (∀ p, p ∈ params → input !! input_Name p = None → Default p ≠ "" →
         out !! input_Name p = Some (Default p)) ∧
      (∀ n v, input !! n = None → out !! n = Some v →
         ∃ p, p ∈ params ∧ input_Name p = n ∧ Default p = v)
  end.
Proof.
  intros Hteam Hget Hnd params input. unfold validateAndDefaultInputs.
  rewrite decide_False, Hget by done. fold params input.
  pose proof (default_inputs_ok params input Hnd) as Hok.
  destruct (default_inputs params input) as [out|e] eqn:E; simpl in Hok.
  - split; [by apply Hok|]. split; [intros n v; by apply (default_inputs_frame params)|].
    split; [intros p; by apply (default_inputs_default params)|].
    intros n v Hn Hv. destruct (default_inputs_new _ _ _ _ _ E Hn Hv) as (p & ? & ? & ? & ? & ?). eauto.
  - destruct (decide (Exists (missing input) params)) as [He|He].
    { by apply Exists_exists in He. }
    exfalso. assert (false = true) as ?; [|done]. apply Hok. intros p Hin Hm.
    apply He, Exists_exists. eauto.
Qed.

(** ** Budgets: lemmas and the specification *)
Section budget_lemmas.
Context {floatText : FloatText}.

Lemma first_block_Some policy now total run budgets :
  is_Some (first_block policy now total run budgets) ↔
  ∃ b, b ∈ budgets ∧ is_Some (budget_blocks policy now total run b).
Proof.
  induction budgets as [|b rest IH]; simpl.
  { split; [by intros [? ?]|]. intros (b & Hb & _). set_solver. }
  destruct (budget_blocks policy now total run b) as [msg|] eqn:E.
  - split; [|done]. intros _. exists b. split; [by left|by rewrite E].
  - rewrite IH. split; intros (c & Hc & Hs); exists c.
    + split; [by right|done].
    + apply elem_of_cons in Hc as [->|Hc]; [rewrite E in Hs; by destruct Hs|done].
Qed.

Lemma budget_matches b run :
  budgetMatchesRun b run = true ↔
  (let sel := budget_Selector (budget_Spec b) in
   (selector_Namespace sel = "" ∨ selector_Namespace sel = run_Namespace run) ∧
   (selector_Team sel = "" ∨ selector_Team sel = TeamRef (Spec run))).
Proof.
  unfold budgetMatchesRun. simpl.
  destruct (decide (selector_Namespace (budget_Selector (budget_Spec b)) = "")),
    (decide (selector_Namespace (budget_Selector (budget_Spec b)) = run_Namespace run)),
    (decide (selector_Team (budget_Selector (budget_Spec b)) = "")),
    (decide (selector_Team (budget_Selector (budget_Spec b)) = TeamRef (Spec run)));
    repeat case_decide; naive_solver.
Qed.

Lemma standard_exceeded now total input :
  (∃ d, StandardBudgetPolicy_Evaluate now input total = Ok d ∧ decision_Status d = BudgetExceeded) ↔
  ∃ spent, total (mkSpendScope (input_Namespace input) (input_Team input) "")
             (PeriodWindowStart now (input_Period input)) = Ok spent ∧
    f64_ltb f64_zero (Limit input) = true ∧ f64_leb (Limit input) spent = true.
Proof.
  unfold StandardBudgetPolicy_Evaluate. destruct (total _ _) as [spent|e].
  2: { split; intros (? & ? & ?); done. }
  split.
  - intros (d & Hd & Hs). exists spent. split; [done|].
    destruct (f64_ltb f64_zero (Limit input)), (f64_leb (Limit input) spent); simpl in *;
      repeat case_match; simplify_eq/=; done.
  - intros (spent' & [= <-] & H1 & H2). rewrite H1, H2. simpl. eauto.
Qed.

(** budgets: with the standard policy a run is held back exactly when one of the listed
    budgets selects its namespace and team, is a hard stop, has a positive limit that can be
    read, and the spend of the run's own team in the budget's period has reached it. *)
Theorem checkBudgets_verdict (now : Z) (total : store_total)
    (list_budgets : string → result string (list SwarmBudget)) (run : SwarmRun)
    (budgets : list SwarmBudget) :
  list_budgets (run_Namespace run) = Ok budgets →
  is_Some (checkBudgets None now (Some total) list_budgets run) ↔
  ∃ b limit spent, b ∈ budgets ∧
    (let sel := budget_Selector (budget_Spec b) in
     (selector_Namespace sel = "" ∨ selector_Namespace sel = run_Namespace run) ∧
     (selector_Team sel = "" ∨ selector_Team sel = TeamRef (Spec run))) ∧
    budget_HardStop (budget_Spec b) = true ∧
    ParseFloat (budget_Limit (budget_Spec b)) = Some limit ∧
    total (mkSpendScope (run_Namespace run) (TeamRef (Spec run)) "")
      (PeriodWindowStart now (period_of (budget_Period (budget_Spec b)))) = Ok spent ∧
    f64_ltb f64_zero limit = true ∧ f64_leb limit spent = true.
Proof.
  intros Hl. unfold checkBudgets. rewrite Hl, first_block_Some. split.
  - intros (b & Hb & Hs). revert Hs. unfold budget_blocks, used_policy.
    destruct (budgetMatchesRun b run) eqn:Em; simpl; [|by intros [? ?]].
    destruct (budget_HardStop (budget_Spec b)) eqn:Eh; simpl; [|by intros [? ?]].
    destruct (ParseFloat _) as [limit|] eqn:Ep; [|by intros [? ?]].
    destruct (StandardBudgetPolicy_Evaluate _ _ _) as [d|] eqn:Ed; [|by intros [? ?]].
    intros Hs. assert (decision_Status d = BudgetExceeded) as Hd
      by (destruct (decision_Status d); [by destruct Hs..|done]).
    destruct (proj1 (standard_exceeded _ _ _) (ex_intro _ d (conj Ed Hd))) as (spent & ? & ? & ?).
    exists b, limit, spent. apply budget_matches in Em. done.
  - intros (b & limit & spent & Hb & Hm & Hh & Hp & Ht & H1 & H2). exists b. split; [done|].
    apply budget_matches in Hm. unfold budget_blocks, used_policy. rewrite Hm, Hh, Hp. simpl.
    destruct (proj2 (standard_exceeded now total (budget_input run b limit))) as (d & -> & ->);
      [by exists spent|done].
Qed.

(** the hard stop fails open: behind the guard that watches the health of the spend store,
    no budget ever holds a run back while the store is unavailable, because the check does not
    tell the guard that the budget is a hard stop. *)
Theorem checkBudgets_fails_open (inner : budget_policy) (now : Z) (store : option store_total)
    (list_budgets : string → result string (list SwarmBudget)) (run : SwarmRun) :
  checkBudgets (Some (HardStopPolicy_Evaluate false inner)) now store list_budgets run = None.
Proof.
  unfold checkBudgets. destruct store as [total|]; [|done].
  destruct (list_budgets _) as [budgets|]; [|done].
  apply eq_None_not_Some. rewrite first_block_Some. intros (b & _ & Hs). revert Hs.
  unfold budget_blocks, used_policy. simpl.
  repeat case_match; simplify_eq/=; try by intros [? ?].
Qed.
End budget_lemmas.

(** ** Witnesses *)
Definition admitted_run : SwarmRun :=
  mkSwarmRun "r" "ns" 1
    (mkSwarmRunSpec "team" "" "" 0 {["topic" := "go"]} "" [plain_step "a" []] None [] "" None None 60 1000)
    (mkSwarmRunStatus RunUnset [] "" None None None "" None 0 []).

Definition two_params : list SwarmTeamInputSpec :=
  [mkSwarmTeamInputSpec "topic" "string" "" true ""; mkSwarmTeamInputSpec "lang" "string" "" false "en"].

Definition team_with (params : list SwarmTeamInputSpec) : SwarmTeam :=
  mkSwarmTeam "team" "ns" "uid" false 1
    (mkSwarmTeamSpec "" "" params None [] [plain_step "a" []] None None 0 0 None ∅ None "" None None
       None None None) new_team_status.

Lemma validateAndDefaultInputs_spec_witness :
  ∃ out, validateAndDefaultInputs (λ _ _, Found (team_with two_params)) admitted_run = Ok out ∧
    out !! "topic" = Some "go" ∧ out !! "lang" = Some "en".
Proof.
  assert (NoDup (input_Name <$> team_Inputs (team_Spec (team_with two_params)))) as Hnd.
  { apply (bool_decide_unpack _). vm_compute. exact I. }
  pose proof (validateAndDefaultInputs_spec (λ _ _, Found (team_with two_params)) admitted_run
    (team_with two_params) ltac:(discriminate) eq_refl Hnd) as H.
  cbv zeta in H. destruct (validateAndDefaultInputs _ _) as [out|e] eqn:E.
  2: { vm_compute in E. discriminate. }
  destruct H as (_ & Hk & Hd & _). exists out. split; [done|]. split.
  - apply Hk. reflexivity.
  - apply (Hd (mkSwarmTeamInputSpec "lang" "string" "" false "en")); [|reflexivity|discriminate].
    right. left.
Defined.

Definition hard_budget : SwarmBudget :=
  mkSwarmBudget "b" "ns" 1
    (mkSwarmBudgetSpec (mkSwarmBudgetSelector "ns" "") "daily" "10" "USD" 80 true None)
    (mkSwarmBudgetStatus BudgetUnset "" "" None None 0 []).

Lemma checkBudgets_verdict_witness :
  is_Some (@checkBudgets toy_float None 0 (Some (λ _ _, Ok (f64_of_Z 100))) (λ _, Ok [hard_budget]) admitted_run).
Proof.
  apply (@checkBudgets_verdict toy_float 0 (λ _ _, Ok (f64_of_Z 100)) (λ _, Ok [hard_budget])
    admitted_run [hard_budget] eq_refl).
  exists hard_budget, (f64_of_Z (ParseInt64 "10")), (f64_of_Z 100).
  split; [by left|]. split; [split; [by right|by left]|].
  repeat (split; [reflexivity|]). vm_compute. reflexivity.
Defined.
