(* ===== verification/DispatchProps.v ===== *)
(** * DispatchProps: the steps a reconciliation submits

    One step of the loop of [submitPendingSteps] moves at most one status, and the whole
    loop is described by the moves it makes: a step is submitted only when everything it
    depends on is done and the tokens of the run are below its limit. *)
From Stdlib Require Import ZArith Lia Ascii.
From stdpp Require Import base tactics option list strings gmap.
From S2P Require Import Prelude GoStd Types Queue Kube AgentTypes Dag Context Template RunState.
From S2P Require Import Registry Routing Dispatch.

(** ** Vocabulary *)
(** The state an iteration leaves, unless it panics. *)
Definition state_of (out : step_out) : option submit_state :=
  match out with Next s | Stop s _ => Some s | Panicked => None end.

(** A status the loop may touch: waiting, or Running without a task. *)
Definition dispatchable (st : PipelineStepStatus) : bool := waits (recover_step st).

(** The part of a status the loop never changes. *)
Definition same_identity (st st' : PipelineStepStatus) : Prop :=
  step_Name st' = step_Name st ∧ step_TokenUsage st' = step_TokenUsage st ∧
  step_Output st' = step_Output st ∧ step_Iterations st' = step_Iterations st.

Definition within_tokens (run : SwarmRun) (steps : list PipelineStepStatus) : Prop :=
  0 < MaxTokens (Spec run) → sumRunTokens steps < MaxTokens (Spec run).

Definition task_of (run : SwarmRun) (step : SwarmTeamPipelineStep) (sub : submission) : Prop :=
  sub_meta sub = [("run_name", run_Name run); ("step_name", Role step)].

(** What one iteration does. *)
Inductive step_move (run : SwarmRun) (m : gmap string nat) (step : SwarmTeamPipelineStep)
    : submit_state → submit_state → Prop :=
| move_none s s' :
    sub_steps s' = sub_steps s → sub_log s' = sub_log s → step_move run m step s s'
| move_wait s s' i st st' :
    m !! Role step = Some i → sub_steps s !! i = Some st → dispatchable st = true →
    sub_steps s' = <[i := st']> (sub_steps s) → sub_log s' = sub_log s →
    same_identity st st' → step_Phase st' ≠ StepRunning → step_move run m step s s'
| move_submit s s' i st st' sub :
    m !! Role step = Some i → sub_steps s !! i = Some st → dispatchable st = true →
    sub_steps s' = <[i := st']> (sub_steps s) → sub_log s' = sub_log s ++ [sub] →
    same_identity st st' → step_Phase st' = StepRunning →
    task_of run step sub → DepsSucceeded (DependsOn step) (sub_steps s) m = true →
    within_tokens run (sub_steps s) → step_move run m step s s'.

(** ** Lemmas: statuses *)
Lemma same_identity_refl st : same_identity st st.
Proof. done. Qed.

Lemma same_identity_trans st1 st2 st3 :
  same_identity st1 st2 → same_identity st2 st3 → same_identity st1 st3.
Proof. unfold same_identity. naive_solver congruence. Qed.

#[export] Hint Resolve same_identity_refl : go.

Lemma recover_identity st : same_identity st (recover_step st).
Proof. unfold recover_step. by case_decide. Qed.

Lemma recover_frame st : dispatchable st = false → recover_step st = st.
Proof.
  unfold dispatchable, recover_step, waits. case_decide; [done|]. done.
Qed.

Lemma dispatchable_not_done st : dispatchable st = true → step_done st = false.
Proof.
  unfold dispatchable, recover_step, waits, step_done. case_decide as Hd; simpl.
  - by destruct Hd as [-> _].
  - by destruct (step_Phase st).
Qed.

Lemma waits_not_running st : waits st = true → step_Phase st ≠ StepRunning.
Proof. unfold waits. by destruct (step_Phase st). Qed.

Lemma waits_not_done st : waits st = true → step_done st = false.
Proof. unfold waits, step_done. by destruct (step_Phase st). Qed.

(** ** Lemmas: sums and dependencies *)
Lemma sumRunTokens_usage l l' :
  step_TokenUsage <$> l = step_TokenUsage <$> l' → sumRunTokens l = sumRunTokens l'.
Proof.
  unfold sumRunTokens. generalize 0. revert l'.
  induction l as [|st l IH]; intros [|st' l'] acc E; simplify_eq/=; [done|].
  rewrite <- (IH l') by done. by match goal with H : step_TokenUsage _ = _ |- _ => rewrite H end.
Qed.

Lemma insert_usage (l : list PipelineStepStatus) i st st' :
  l !! i = Some st → same_identity st st' →
  step_TokenUsage <$> <[i := st']> l = step_TokenUsage <$> l.
Proof.
  intros Hl (_ & E & _). rewrite list_fmap_insert, E. apply list_insert_id.
  by rewrite list_lookup_fmap, Hl.
Qed.

Lemma DepsSucceeded_mono deps (l l' : list PipelineStepStatus) m :
  (∀ j st, l !! j = Some st → step_done st = true → l' !! j = Some st) →
  DepsSucceeded deps l m = true → DepsSucceeded deps l' m = true.
Proof.
  intros Hl. rewrite !DepsSucceeded_true. intros H dep Hd.
  destruct (H dep Hd) as (st & Hs & Hst). exists st. split; [|done].
  unfold status_at in *. destruct (m !! dep); [by apply Hl|done].
Qed.

Section moves.
Context {jsonApi : JsonApi} {templateApi : TemplateApi} {regexpApi : RegexpApi}
        {floatText : FloatText} {urlApi : UrlApi} {randApi : RandApi}.
Variables (env : run_env) (run : SwarmRun) (m : gmap string nat)
          (templateData : list (string * any)) (maps : role_maps).

(** What launching a waiting step leaves at its position. *)
Definition launched (i : nat) (st : PipelineStepStatus) (step : SwarmTeamPipelineStep)
    (s s' : submit_state) : Prop :=
  ∃ st', sub_steps s' = <[i := st']> (sub_steps s) ∧ same_identity st st' ∧
    (step_Phase st' ≠ StepRunning ∧ sub_log s' = sub_log s ∨
     step_Phase st' = StepRunning ∧ within_tokens run (<[i := st]> (sub_steps s)) ∧
     ∃ sub, sub_log s' = sub_log s ++ [sub] ∧ task_of run step sub).

Lemma launch_step_moves i st agentName step prompt s s' :
  waits st = true →
  state_of (launch_step env run i st agentName step prompt s) = Some s' → launched i st step s s'.
Proof.
  intros Hw. unfold launch_step.
  set (st1 := if decide (step_Phase st = StepWarmingUp) then st <| step_Message := "" |> else st).
  assert (same_identity st st1 ∧ step_Phase st1 = step_Phase st) as [Hi Hp]
    by (subst st1; by case_decide).
  assert (step_Phase st1 ≠ StepRunning) as Hr by (rewrite Hp; by apply waits_not_running).
  destruct (must_warm_up _ _ _); [intros [= <-]; eexists; split; [done|]; split; [done|by left]|].
  destruct (_ && _) eqn:Eb.
  { intros [= <-]. exists (fail_with (run_now env) ("MaxTokensExceeded: cumulative tokens " +:+
        itoa (sumRunTokens (sub_steps (put_step i st1 s))) +:+ " reached run limit " +:+
        itoa (MaxTokens (Spec run))) st1). simpl.
    rewrite list_insert_insert_eq. split; [done|]. split; [done|by left]. }
  destruct (resolveStepQueue _ _ _ _ _) as [url|e].
  2: { intros [= <-]. exists st1. split; [done|]. split; [done|by left]. }
  destruct (queue_submit _ _ _) as [taskID|e].
  2: { intros [= <-]. exists st1. split; [done|]. split; [done|by left]. }
  intros [= <-]. exists (start_step (run_now env) taskID st1). simpl.
  rewrite list_insert_insert_eq. split; [done|]. split; [done|]. right. split; [done|].
  split; [|by eexists].
  intros Hm. apply andb_false_iff in Eb as [Eb|Eb]; rewrite Z.gtb_ltb in Eb || rewrite Z.geb_leb in Eb.
  { apply Z.ltb_ge in Eb. lia. }
  apply Z.leb_gt in Eb. simpl in Eb.
  rewrite (sumRunTokens_usage _ (<[i := st1]> (sub_steps s))); [done|].
  rewrite !list_fmap_insert. by destruct Hi as (_ & -> & _).
Qed.

Lemma dispatch_step_moves i st step prompt s s' :
  waits st = true →
  state_of (dispatch_step env run maps i st step prompt s) = Some s' → launched i st step s s'.
Proof.
  intros Hw. unfold dispatch_step. case_decide; [|by apply launch_step_moves].
  destruct (resolveAgentForStep _ _ _ _ _ _) as [choice cache].
  destruct choice as [agentName byReg|msg|]; simpl; [|intros [= <-]|done].
  - intros HL. apply launch_step_moves in HL as (st' & H1 & H2 & H3); [|by destruct byReg].
    exists st'. simpl in *. rewrite list_insert_insert_eq in H1. split; [done|].
    split; [eapply same_identity_trans; [|done]; by destruct byReg|].
    destruct H3 as [?|(? & Ht & ?)]; [by left|right]. split; [done|]. split; [|done].
    rewrite list_insert_insert_eq in Ht. intros Hm.
    rewrite (sumRunTokens_usage _ (<[i := if byReg then st <| step_ResolvedAgent := agentName |> else st]>
      (sub_steps s))); [by apply Ht|]. rewrite !list_fmap_insert. by destruct byReg.
  - exists (fail_with (run_now env) msg st). split; [done|]. split; [done|by left].
Qed.

Lemma submit_step_moves step s s' :
  state_of (submit_step env run m templateData maps s step) = Some s' → step_move run m step s s'.
Proof.
  unfold submit_step. destruct (m !! Role step) as [i|] eqn:Hi; [|intros [= <-]; by apply move_none].
  destruct (sub_steps s !! i) as [st|] eqn:Hs; [|intros [= <-]; by apply move_none].
  fold (dispatchable st). destruct (dispatchable st) eqn:Hd; simpl.
  2: { intros [= <-]. apply move_none; [|done]. simpl. by rewrite recover_frame, list_insert_id. }
  pose proof (recover_identity st) as Hid. pose proof (waits_not_running _ Hd) as Hr.
  assert (∀ st', same_identity (recover_step st) st' → step_Phase st' ≠ StepRunning →
    Some (put_step i st' (put_step i (recover_step st) s)) = Some s' → step_move run m step s s') as Hwait.
  { intros st' H1 H2 [= <-]. apply (move_wait _ _ _ _ _ i st st'); simpl; try done.
    - by rewrite list_insert_insert_eq.
    - by eapply same_identity_trans. }
  destruct (DepsSucceeded _ _ _) eqn:Hdeps; simpl.
  2: { intros [= <-]. by apply (move_wait _ _ _ _ _ i st (recover_step st)). }
  destruct (consumer_data _ _ _ _ _ _ _) as [data|]; [|done].
  destruct (negb _); [by apply Hwait|].
  destruct (ResolveTeamPrompt _ _ _) as [prompt|e]; [|by apply Hwait].
  intros HD. apply dispatch_step_moves in HD as (st' & H1 & H2 & H3); [|done]. simpl in *.
  rewrite list_insert_insert_eq in H1.
  pose proof (same_identity_trans _ _ _ Hid H2) as H2'.
  destruct H3 as [[H3 H4]|(H3 & H4 & sub & H5 & H6)].
  { by apply (move_wait _ _ _ _ _ i st st'). }
  apply (move_submit _ _ _ _ _ i st st' sub); try done.
  - eapply DepsSucceeded_mono; [|exact Hdeps]. intros j sj Hj Hdone.
    destruct (decide (i = j)) as [<-|Hne]; [|by rewrite list_lookup_insert_ne in Hj].
    apply list_lookup_insert_Some in Hj as [(_ & <- & _)|[? _]]; [|done].
    by rewrite waits_not_done in Hdone.
  - intros Hm. specialize (H4 Hm). rewrite list_insert_insert_eq in H4.
    rewrite (sumRunTokens_usage _ (<[i := recover_step st]> (sub_steps s))); [done|].
    symmetry. by apply (insert_usage _ _ st).
Qed.
End moves.

(** ** Lemmas: sequences of moves *)
Definition task_meta (run : SwarmRun) (step : SwarmTeamPipelineStep) : list (string * string) :=
  [("run_name", run_Name run); ("step_name", Role step)].

(** A move of one of the steps of the pipeline. *)
Definition some_move (run : SwarmRun) (m : gmap string nat) (s s' : submit_state) : Prop :=
  ∃ step, step ∈ Pipeline (Spec run) ∧ step_move run m step s s'.

(** Why a step of the pipeline may be submitted. *)
Definition may_submit (run : SwarmRun) (m : gmap string nat) (before after : list PipelineStepStatus)
    (step : SwarmTeamPipelineStep) : Prop :=
  step ∈ Pipeline (Spec run) ∧ DepsSucceeded (DependsOn step) after m = true ∧
  within_tokens run before.

(** One status before and after, given the submissions made. *)
Definition status_moved (run : SwarmRun) (m : gmap string nat) (before after : list PipelineStepStatus)
    (log : list submission) (i : nat) (st st' : PipelineStepStatus) : Prop :=
  same_identity st st' ∧ (dispatchable st = false → st' = st) ∧
  (step_Phase st' = StepRunning → st' = st ∨
     ∃ step sub, m !! Role step = Some i ∧ sub ∈ log ∧ task_of run step sub ∧
       may_submit run m before after step).

Section traces.
Variables (run : SwarmRun) (m : gmap string nat).

(** The position a move changes, if any. *)
Lemma step_move_at step s s' :
  step_move run m step s s' →
  sub_steps s' = sub_steps s ∨
  ∃ i st st', sub_steps s !! i = Some st ∧ dispatchable st = true ∧
    sub_steps s' = <[i := st']> (sub_steps s) ∧ same_identity st st'.
Proof. destruct 1; [by left|right; naive_solver..]. Qed.

Lemma step_move_done step s s' j st :
  step_move run m step s s' → sub_steps s !! j = Some st → step_done st = true →
  sub_steps s' !! j = Some st.
Proof.
  intros [->|(i & sti & st' & Hi & Hd & -> & _)]%step_move_at Hj Hst; [done|].
  rewrite list_lookup_insert_ne; [done|]. intros ->. simplify_eq.
  by rewrite dispatchable_not_done in Hst.
Qed.

Lemma step_move_usage step s s' :
  step_move run m step s s' → sumRunTokens (sub_steps s') = sumRunTokens (sub_steps s).
Proof.
  intros [->|(i & sti & st' & Hi & _ & -> & Hid)]%step_move_at; [done|].
  apply sumRunTokens_usage. by apply (insert_usage _ _ sti).
Qed.

Lemma moves_usage s s' :
  rtc (some_move run m) s s' → sumRunTokens (sub_steps s') = sumRunTokens (sub_steps s).
Proof.
  induction 1 as [|s1 s2 s3 (step & _ & Hm) _ IH]; [done|].
  by rewrite IH, (step_move_usage step s1).
Qed.

Lemma may_submit_later before step s s' s0 :
  step_move run m s0 s s' → may_submit run m before (sub_steps s) step →
  may_submit run m before (sub_steps s') step.
Proof.
  intros Hm (H1 & H2 & H3). split; [done|]. split; [|done].
  eapply DepsSucceeded_mono; [|exact H2]. intros j st. by apply (step_move_done s0).
Qed.

Lemma may_submit_now s0 step s s' i st st' sub :
  rtc (some_move run m) s0 s → step ∈ Pipeline (Spec run) →
  m !! Role step = Some i → sub_steps s !! i = Some st → dispatchable st = true →
  sub_steps s' = <[i := st']> (sub_steps s) → sub_log s' = sub_log s ++ [sub] →
  same_identity st st' → step_Phase st' = StepRunning →
  task_of run step sub → DepsSucceeded (DependsOn step) (sub_steps s) m = true →
  within_tokens run (sub_steps s) → may_submit run m (sub_steps s0) (sub_steps s') step.
Proof.
  intros Hr Hin H1 H2 H3 H4 H5 H6 H7 H8 H9 H10. split; [done|]. split.
  - eapply DepsSucceeded_mono; [|exact H9]. intros j stj.
    apply (step_move_done step). by apply (move_submit _ _ _ _ _ i st st' sub).
  - intros Hm. specialize (H10 Hm). by rewrite (moves_usage s0 s) in H10.
Qed.

Lemma moves_log s s' :
  rtc (some_move run m) s s' →
  ∃ new, sub_log s' = sub_log s ++ new ∧
    ∀ sub, sub ∈ new → ∃ step, task_of run step sub ∧
      may_submit run m (sub_steps s) (sub_steps s') step.
Proof.
  revert s'. refine (rtc_ind_r _ s _ _).
  { exists []. rewrite app_nil_r. set_solver. }
  intros s1 s2 Hr (step & Hin & Hm) (new & Hlog & Hall).
  assert (∀ sub, sub ∈ new → ∃ step, task_of run step sub ∧
    may_submit run m (sub_steps s) (sub_steps s2) step) as Hall'.
  { intros sub Hs. destruct (Hall sub Hs) as (t & Ht & Hmay). exists t. split; [done|].
    by apply (may_submit_later _ _ s1 _ step). }
  pose proof Hm as Hm'. destruct Hm' as [? ? _ E|? ? ? ? ? _ _ _ _ E _ _|s1 s2 i st st' sub].
  1-2: by exists new; rewrite E.
  exists (new ++ [sub]). match goal with E : sub_log s2 = _ |- _ => rewrite E, Hlog end.
  split; [by rewrite app_assoc|]. intros sub'. rewrite elem_of_app, list_elem_of_singleton.
  intros [Hs| ->]; [by apply Hall'|]. exists step. split; [done|].
  by apply (may_submit_now s step s1 s2 i st st' sub).
Qed.

Lemma status_moved_refl before after log i st : status_moved run m before after log i st st.
Proof. split; [done|]. split; [done|by left]. Qed.

(** A status moved earlier is still accounted for after one more move. *)
Lemma status_moved_later before step s s' i st st' :
  step_move run m step s s' →
  status_moved run m before (sub_steps s) (sub_log s) i st st' →
  status_moved run m before (sub_steps s') (sub_log s') i st st'.
Proof.
  intros Hm (H1 & H2 & H3). split; [done|]. split; [done|]. intros Hr.
  destruct (H3 Hr) as [?|(t & sub & ? & ? & ? & ?)]; [by left|right].
  exists t, sub. split; [done|]. split; [|split; [done|by apply (may_submit_later _ _ s _ step)]].
  assert (∃ new, sub_log s' = sub_log s ++ new) as (new & ->); [|set_solver].
  destruct Hm; [exists []; by rewrite app_nil_r|exists []; by rewrite app_nil_r|by eexists].
Qed.

Lemma moves_status s s' i st' :
  rtc (some_move run m) s s' → sub_steps s' !! i = Some st' →
  ∃ st, sub_steps s !! i = Some st ∧
    status_moved run m (sub_steps s) (sub_steps s') (sub_log s') i st st'.
Proof.
  intros H. revert s' H i st'. refine (rtc_ind_r _ s _ _).
  { intros i st' Hi. exists st'. split; [done|apply status_moved_refl]. }
  intros s1 s2 Hr (step & Hin & Hm) IH i st' Hi.
  destruct (decide (sub_steps s1 !! i = Some st')) as [Hsame|Hdiff].
  { destruct (IH i st' Hsame) as (st & Hst & Hmv). exists st. split; [done|].
    by apply (status_moved_later _ step s1). }
  pose proof Hm as Hm'. destruct Hm' as [? ? E|? ? k sk sk' Hk1 Hk2 Hk3 E E' Hid Hp
    |s1 s2 k sk sk' sub Hk1 Hk2 Hk3 E E' Hid Hp Ht Hdeps Htok].
  { congruence. }
  all: rewrite E in Hi; destruct (decide (k = i)) as [->|];
    [|rewrite list_lookup_insert_ne in Hi by done; congruence];
    apply list_lookup_insert_Some in Hi as [(_ & <- & _)|[? _]]; [|done];
    destruct (IH i sk Hk2) as (st & Hst & H1 & H2 & _); exists st; split; [done|];
    (split; [by eapply same_identity_trans|]); (split; [intros Hf; rewrite (H2 Hf) in Hk3; congruence|]).
  - done.
  - intros _. right. exists step, sub. split; [done|]. split; [rewrite E'; set_solver|].
    split; [done|]. by apply (may_submit_now s step s1 s2 i sk sk' sub).
Qed.
End traces.

Section submit_theorems.
Context {jsonApi : JsonApi} {templateApi : TemplateApi} {regexpApi : RegexpApi}
        {floatText : FloatText} {urlApi : UrlApi} {randApi : RandApi}.

Lemma submit_steps_moves (env : run_env) (run : SwarmRun) (m : gmap string nat)
    (data : list (string * any)) (maps : role_maps) pipeline s s' :
  pipeline ⊆ Pipeline (Spec run) →
  state_of (submit_steps env run m data maps s pipeline) = Some s' → rtc (some_move run m) s s'.
Proof.
  revert s. induction pipeline as [|step rest IH]; intros s Hsub; simpl; [by intros [= <-]|].
  assert (∀ s1, step_move run m step s s1 → some_move run m s s1) as Hone
    by (intros s1 H1; exists step; set_solver).
  destruct (submit_step env run m data maps s step) as [s1|s1 e|] eqn:E; [| |done].
  - intros Hs. eapply rtc_l; [|eapply IH; [set_solver|done]].
    apply Hone. by apply (submit_step_moves env run m data maps); rewrite E.
  - intros [= <-]. apply rtc_once, Hone. by apply (submit_step_moves env run m data maps); rewrite E.
Qed.

(** The submissions of one pass name the steps in the order of the pipeline. *)
Lemma submit_steps_order (env : run_env) (run : SwarmRun) (m : gmap string nat)
    (data : list (string * any)) (maps : role_maps) pipeline s s' :
  state_of (submit_steps env run m data maps s pipeline) = Some s' →
  ∃ new, sub_log s' = sub_log s ++ new ∧
    sublist (sub_meta <$> new) (task_meta run <$> pipeline).
Proof.
  revert s. induction pipeline as [|step rest IH]; intros s; simpl.
  { intros [= <-]. exists []. by rewrite app_nil_r. }
  assert (∀ s1, step_move run m step s s1 → ∃ new, sub_log s1 = sub_log s ++ new ∧
    (new = [] ∨ ∃ sub, new = [sub] ∧ sub_meta sub = task_meta run step)) as Hone.
  { intros s1 Hm. inversion Hm as [? ? _ E|? ? ? ? ? _ _ _ _ E _ _|? ? ? ? ? sub _ _ _ _ E _ _ Ht _ _]; subst.
    1-2: exists []; rewrite app_nil_r; by auto.
    exists [sub]. split; [done|]. right. by exists sub. }
  destruct (submit_step env run m data maps s step) as [s1|s1 e|] eqn:E; [| |done]; intros Hs;
    destruct (Hone s1) as (n1 & E1 & H1); try by apply (submit_step_moves env run m data maps); rewrite E.
  - destruct (IH s1 Hs) as (n2 & E2 & H2). exists (n1 ++ n2). rewrite E2, E1, app_assoc.
    split; [done|]. destruct H1 as [->|(sub & -> & Hsub)]; simpl; [by apply sublist_cons|].
    rewrite Hsub. by apply sublist_skip.
  - simpl in Hs. injection Hs as <-. exists n1. split; [done|].
    destruct H1 as [->|(sub & -> & Hsub)]; simpl; [apply sublist_nil_l|].
    rewrite Hsub. apply sublist_skip, sublist_nil_l.
Qed.

(** C2: dispatch: whichever way one pass over the pipeline ends, the tasks it has submitted
    belong to distinct occurrences of pipeline steps in pipeline order; each of them belongs
    to a step whose dependencies are all Succeeded or Skipped, while the tokens used by the
    run are below its limit.  A status is touched only if it was waiting (or Running without
    a task), keeps its output, tokens and loop count, and is Running afterwards only if it
    was before or a task has been submitted for its step. *)
Theorem submitPendingSteps_sound (env : run_env) (run : SwarmRun) (m : gmap string nat)
    (data : list (string * any)) (maps : role_maps) (steps : list PipelineStepStatus)
    (log : list submission) (s : submit_state) :
  state_of (submitPendingSteps env run m data maps steps log) = Some s →
  (∃ new, sub_log s = log ++ new ∧
     sublist (sub_meta <$> new) (task_meta run <$> Pipeline (Spec run)) ∧
     ∀ sub, sub ∈ new → ∃ step, task_of run step sub ∧
       may_submit run m steps (sub_steps s) step) ∧
  ∀ i st', sub_steps s !! i = Some st' →
    ∃ st, steps !! i = Some st ∧ status_moved run m steps (sub_steps s) (sub_log s) i st st'.
Proof.
  unfold submitPendingSteps. intros Hs.
  pose proof (submit_steps_moves env run m data maps _ _ _ ltac:(done) Hs) as Hr.
  destruct (submit_steps_order env run m data maps _ _ _ Hs) as (n1 & E1 & H1).
  destruct (moves_log run m _ _ Hr) as (n2 & E2 & H2). simpl in *.
  assert (n1 = n2) as -> by (rewrite E1 in E2; by apply app_inv_head in E2).
  split; [by exists n2|]. intros i st' Hi. by apply (moves_status run m _ s i st' Hr).
Qed.
End submit_theorems.

(** ** Witness *)
Definition calm_env : run_env :=
  mkRunEnv 1 (λ _ _, NotFound) (λ _ _, NotFound) (λ _, Ok []) "" "" ∅
    (λ log _, Ok ("task-" +:+ itoa (Z.of_nat (length log)))) (λ _ _, Ok [])
    None (mkRangedIndex ∅ [] []) None None None (λ _ _ _ _, f64_zero) (λ _, [])
    ["a"; "b"] [] (λ l, l) false.

(** A step that has ended, one that waits for it, and one that must still wait. *)
Definition staged_run : SwarmRun :=
  mkSwarmRun "r" "ns" 1
    (mkSwarmRunSpec "team" "" "" 0 ∅ "" [plain_step "a" []; plain_step "b" ["a"]; plain_step "c" ["b"]]
       None [] "" None None 60 1000)
    (mkSwarmRunStatus RunRunning
       [new_step "a" StepSucceeded; new_step "b" StepPending; new_step "c" StepPending]
       "" (Some 0) None None "" None 0 []).

Lemma submitPendingSteps_sound_witness :
  ∃ s sub, state_of (@submitPendingSteps toy_json toy_template toy_regexp toy_float toy_url rand_first
      calm_env staged_run (BuildRunStatusByName staged_run) [] (buildRoleMaps staged_run)
      (Steps (Status staged_run)) []) = Some s ∧
    sub_log s = [sub] ∧ sub_meta sub = task_meta staged_run (plain_step "b" ["a"]) ∧
    ∃ step, task_of staged_run step sub ∧
      may_submit staged_run (BuildRunStatusByName staged_run) (Steps (Status staged_run)) (sub_steps s) step.
Proof.
  destruct (state_of (@submitPendingSteps toy_json toy_template toy_regexp toy_float toy_url rand_first
      calm_env staged_run (BuildRunStatusByName staged_run) [] (buildRoleMaps staged_run)
      (Steps (Status staged_run)) [])) as [s|] eqn:E; [|vm_compute in E; discriminate].
  destruct (@submitPendingSteps_sound toy_json toy_template toy_regexp toy_float toy_url rand_first
      calm_env staged_run (BuildRunStatusByName staged_run) [] (buildRoleMaps staged_run)
      (Steps (Status staged_run)) [] s E) as [(new & Hlog & _ & Hall) _].
  destruct new as [|sub [|]]; simpl in Hlog.
  - vm_compute in E. injection E as <-. discriminate.
  - exists s, sub. split; [reflexivity|]. split; [exact Hlog|]. split; [|apply (Hall sub); left].
    vm_compute in E. injection E as <-. simpl in Hlog. injection Hlog as <-. reflexivity.
  - vm_compute in E. injection E as <-. discriminate.
Defined.
