(* ===== verification/CollectProps.v ===== *)
(** * CollectProps: what a reconciliation writes into the steps it has results for

    What a queue answers for a task reaches the step in flight that waits for it, when the status
    tells it from the others, and no other; it is accepted only after validation; a rejected output is retried a bounded number of times. *)
From Stdlib Require Import ZArith Lia Ascii.
From stdpp Require Import base tactics option list strings gmap relations.
From S2P Require Import Prelude GoStd Types Costs Queue Kube AgentTypes Dag Context Template.
From S2P Require Import RunState Validate Registry RegistryController Routing Dispatch Collect.

(** ** Verdicts *)
Section verdicts.
Context {jsonApi : JsonApi} {regexpApi : RegexpApi} {floatText : FloatText}
        {caseApi : CaseApi} {urlApi : UrlApi}.
Variables (env : run_env) (run : SwarmRun) (maps : role_maps).

Definition semantic_model (name : string) (v : StepValidation) : string :=
  if decide (SemanticModel v = "") then resolveStepModel env run name maps else SemanticModel v.

(** The output passes the deterministic checks and, where a semantic check is configured
    and a model known, the model's verdict. *)
Definition accepted_output (name output : string) (v : StepValidation) : Prop :=
  (ValidateStepOutput (schema_range env) output (Some v)).1 = true ∧
  ∀ validate, SemanticValidateFn env = Some validate → Semantic v ≠ "" →
    semantic_model name v ≠ "" →
    ∃ response reason,
      validate (semantic_model name v) (SemanticValidatorPrompt (Semantic v) output) = Ok response ∧
      ParseSemanticResult response = Some (true, reason).

Lemma runStepValidation_passed st v :
  runStepValidation env run maps st (Some v) = ValidationPassed ↔
  accepted_output (step_Name st) (step_Output st) v.
Proof.
  unfold runStepValidation, accepted_output. fold (semantic_model (step_Name st) v).
  destruct (ValidateStepOutput _ _ _) as [[] reason]; simpl; [|naive_solver].
  destruct (SemanticValidateFn env) as [validate|]; [|naive_solver].
  case_decide as Hd; [split; [|done]; naive_solver|].
  apply Decidable.not_or in Hd as [Hs Hm].
  destruct (validate _ _) as [response|e] eqn:E.
  - destruct (ParseSemanticResult response) as [[[] r]|] eqn:P; naive_solver congruence.
  - split; [done|]. intros [_ H]. destruct (H validate eq_refl Hs Hm) as (? & ? & ? & _). congruence.
Qed.

Lemma applyTokenUsage_frame st model usage :
  let st' := (applyTokenUsage env run st model usage).1 in
  step_Name st' = step_Name st ∧ step_Output st' = step_Output st ∧
  step_ValidationAttempts st' = step_ValidationAttempts st.
Proof. unfold applyTokenUsage. simpl. repeat case_match; done. Qed.

Lemma take_output_frame res maxBytes st :
  let st' := take_output res maxBytes st in
  step_Name st' = step_Name st ∧ step_Output st' = truncateOutput (res_Output res) maxBytes ∧
  step_ValidationAttempts st' = step_ValidationAttempts st.
Proof. unfold take_output. simpl. case_decide; done. Qed.

(** What a rejection leaves in a step. *)
Definition rejected_step (v : StepValidation) (st st' : PipelineStepStatus) : Prop :=
  step_ValidationAttempts st' = wrap64 (step_ValidationAttempts st + 1) ∧
  (if decide (OnFailure v = OnFailureRetry ∧ step_ValidationAttempts st' < MaxRetries v)
   then step_Phase st' = StepPending ∧ step_TaskID st' = "" ∧ step_Output st' = "" ∧
        step_OutputJSON st' = "" ∧ step_TokenUsage st' = None
   else step_Phase st' = StepFailed).

Lemma applyValidationFailure_rejects now v reason st :
  rejected_step v st (applyValidationFailure now v reason st).
Proof.
  unfold rejected_step, applyValidationFailure. simpl.
  destruct (bool_decide (OnFailure v = OnFailureRetry)) eqn:Eo; simpl;
    [destruct (Z.ltb_spec (wrap64 (step_ValidationAttempts st + 1)) (MaxRetries v))|]; simpl.
  - split; [done|]. apply bool_decide_eq_true in Eo. by rewrite decide_True.
  - split; [done|]. rewrite decide_False; [done|]. intros [_ ?]. lia.
  - split; [done|]. apply bool_decide_eq_false in Eo. rewrite decide_False; [done|]. by intros [? _].
Qed.

(** The byte limit and the validation of a step, by its role. *)
Definition output_of (res : TaskResult) (name : string) : string :=
  truncateOutput (res_Output res)
    (default 0 (by_role (λ s, Some (step_MaxOutputBytes s)) (Pipeline (Spec run)) !! name)).

Definition validation_of (name : string) : option StepValidation :=
  by_role Validate (Pipeline (Spec run)) !! name.

(** acceptance: a step whose agent answered without an error succeeds exactly when its
    (truncated) output passes the validation of its role, deterministic and semantic;
    otherwise the rejection is counted, and the step goes back to Pending without task,
    output and tokens if its policy is to retry and the count is below the maximum, and
    fails if not. *)
Theorem write_result_verdict (res : TaskResult) (st st' : PipelineStepStatus)
    (spends : list SpendEntry) :
  res_Error res = "" →
  write_result env run maps res st = Written st' spends →
  (step_Phase st' = StepSucceeded ↔
     ∀ v, validation_of (step_Name st) = Some v →
       accepted_output (step_Name st) (output_of res (step_Name st)) v) ∧
  (step_Phase st' ≠ StepSucceeded →
     ∃ v, validation_of (step_Name st) = Some v ∧ rejected_step v st st').
Proof.
  intros He. unfold write_result. rewrite decide_False by (intros Hne; by apply Hne).
  set (maxBytes := default 0 _).
  pose proof (take_output_frame res maxBytes st) as (Hn1 & Ho1 & Ha1).
  set (st1 := take_output res maxBytes st) in *.
  set (model := resolveStepModel _ _ _ _).
  pose proof (applyTokenUsage_frame st1 model (res_Usage res)) as (Hn2 & Ho2 & Ha2).
  destruct (applyTokenUsage _ _ st1 model _) as [st2 new] eqn:Et. simpl in *.
  rewrite Hn2, Hn1. fold (validation_of (step_Name st)).
  assert (step_Output st2 = output_of res (step_Name st)) as Ho.
  { rewrite Ho2, Ho1. unfold output_of, maxBytes. done. }
  destruct (validation_of (step_Name st)) as [v|].
  2: { simpl. intros [= <- <-]. split; [by split|]. intros Hns. by destruct Hns. }
  pose proof (runStepValidation_passed st2 v) as Hp. rewrite Hn2, Hn1, Ho in Hp.
  destruct (runStepValidation _ _ _ _ _) as [|reason|].
  - intros [= <- <-]. simpl. split; [|done]. split; [|done]. intros _ w [= <-]. by apply Hp.
  - intros [= <- <-].
    pose proof (applyValidationFailure_rejects (run_now env) v reason st2) as [Hatt Hph].
    assert (step_Phase (applyValidationFailure (run_now env) v reason st2) ≠ StepSucceeded) as Hns.
    { intros E. rewrite E in Hph. case_decide; [by destruct Hph|done]. }
    split; [|intros _; exists v; split; [done|]; split; [congruence|done]].
    split; [done|]. intros H. specialize (H v eq_refl). apply Hp in H. done.
  - done.
Qed.
End verdicts.

(** ** Delivery *)
Section delivery.
Context {jsonApi : JsonApi} {regexpApi : RegexpApi} {floatText : FloatText}
        {caseApi : CaseApi} {urlApi : UrlApi}.
Variables (env : run_env) (run : SwarmRun) (maps : role_maps).

(** Writing a result keeps the name and the loop counter of a step. *)
Definition same_step (st st' : PipelineStepStatus) : Prop :=
  step_Name st' = step_Name st ∧ step_Iterations st' = step_Iterations st.

Lemma write_result_frame res st st' spends :
  write_result env run maps res st = Written st' spends → same_step st st'.
Proof.
  assert (Ht : ∀ n st, same_step st (take_output res n st)) by (intros; unfold take_output; by case_decide).
  assert (Hu : ∀ model st, same_step st (applyTokenUsage env run st model (res_Usage res)).1)
    by (intros; unfold applyTokenUsage; repeat case_match; done).
  assert (Hc : ∀ st p, same_step st (applyStepContextPolicy env run maps st p))
    by (intros; unfold applyStepContextPolicy; repeat case_match; done).
  assert (Hf : ∀ v reason st, same_step st (applyValidationFailure (run_now env) v reason st))
    by (intros; unfold applyValidationFailure; case_match; done).
  unfold write_result. case_decide.
  { intros [= <- _]. unfold failed_result. by destruct (parseAgentErrorFields _). }
  set (maxBytes := default 0 _). specialize (Ht maxBytes st).
  set (st1 := take_output res maxBytes st) in *. set (model := resolveStepModel _ _ _ _).
  specialize (Hu model st1). destruct (applyTokenUsage _ _ st1 _ _) as [st2 new].
  unfold same_step in *. simpl in Hu. destruct Ht, Hu.
  destruct (runStepValidation _ _ _ _ _) as [|reason|]; intros [= <- _]; simpl.
  - rewrite (proj1 (Hc _ _)), (proj2 (Hc _ _)). split; congruence.
  - destruct (by_role Validate _ !! _) as [v|]; [|split; congruence]. destruct (Hf v reason st2). split; congruence.
Qed.

(** Results written to a status, one after the other. *)
Inductive written : list TaskResult → PipelineStepStatus → PipelineStepStatus → Prop :=
| written_none st : written [] st st
| written_one res l st st1 st2 spends :
    write_result env run maps res st = Written st1 spends → written l st1 st2 → written (res :: l) st st2.

Lemma written_app l1 l2 st st1 st2 : written l1 st st1 → written l2 st1 st2 → written (l1 ++ l2) st st2.
Proof. induction 1; intros; [done|]. simpl. econstructor; eauto. Qed.

(** The results among [results] that the group writes to step [i]. *)
Definition answers_to (g : queue_group) (i : nat) (results : list TaskResult) : list TaskResult :=
  filter (λ r, group_waiting g !! res_TaskID r = Some i) results.

Lemma write_group_writes g results cur spends cur' spends' :
  write_group env run maps g results cur spends = Collected cur' spends' →
  length cur' = length cur ∧
  ∀ i st, cur !! i = Some st → ∃ st', cur' !! i = Some st' ∧ written (answers_to g i results) st st'.
Proof.
  revert cur spends. induction results as [|res rest IH]; simpl; intros cur spends H.
  { injection H as <- _. split; [done|]. intros i st Hi. exists st. split; [done|constructor]. }
  assert (Skip : ∀ (P : nat → Prop), (∀ i, P i → group_waiting g !! res_TaskID res ≠ Some i) →
    ∀ i, P i → answers_to g i (res :: rest) = answers_to g i rest).
  { intros P HP i Hi. unfold answers_to. rewrite filter_cons_False; [done|]. by apply HP. }
  destruct (group_waiting g !! res_TaskID res) as [k|] eqn:Ek.
  2: { destruct (IH _ _ H) as [Hl Hw]. split; [done|]. intros i st Hi. rewrite (Skip (λ _, True)) by done. by apply Hw. }
  destruct (cur !! k) as [sk|] eqn:Ec.
  2: { destruct (IH _ _ H) as [Hl Hw]. split; [done|]. intros i st Hi.
       rewrite (Skip (λ i, i ≠ k)); [by apply Hw| |]; congruence. }
  destruct (write_result env run maps res sk) as [s1 new|] eqn:Ew; [|done].
  destruct (IH _ _ H) as [Hl Hw]. split; [by rewrite Hl, length_insert|]. intros i st Hi.
  destruct (decide (i = k)) as [->|Hne].
  - simplify_eq. destruct (Hw k s1) as (st' & Hs & Hr).
    { apply list_lookup_insert_eq. by eapply lookup_lt_Some. }
    exists st'. split; [done|]. unfold answers_to in *. rewrite filter_cons_True by done. by econstructor.
  - destruct (Hw i st) as (st' & Hs & Hr); [by rewrite list_lookup_insert_ne by done|].
    exists st'. split; [done|]. rewrite (Skip (λ i, i ≠ k)); [done| |done]. congruence.
Qed.

(** What the queue at [url] answers to step [i]. *)
Definition answers_at (byQueue : gmap string queue_group) (i : nat) (url : string) : list TaskResult :=
  match byQueue !! url with
  | Some g => match queue_results env url (taskIDs g) with Ok results => answers_to g i results | Err _ => [] end
  | None => []
  end.

Lemma poll_queues_writes byQueue order cur spends cur' spends' :
  poll_queues env run maps byQueue order cur spends = Collected cur' spends' →
  length cur' = length cur ∧
  (∀ i st, cur !! i = Some st →
     ∃ st', cur' !! i = Some st' ∧ written (concat (answers_at byQueue i <$> order)) st st') ∧
  ∀ url g, url ∈ order → byQueue !! url = Some g →
    is_Ok (openQueueURL env url) = true ∧ ∃ results, queue_results env url (taskIDs g) = Ok results.
Proof.
  revert cur spends. induction order as [|url rest IH]; simpl; intros cur spends H.
  { injection H as <- _. split; [done|]. split; [|set_solver]. intros i st Hi. exists st. split; [done|constructor]. }
  unfold answers_at at 1. destruct (byQueue !! url) as [g|] eqn:Eg.
  2: { destruct (IH _ _ H) as (Hl & Hw & Ha). split; [done|]. split; [done|].
       intros x g' [->|Hx]%elem_of_cons Hg; [congruence|by apply Ha]. }
  destruct (openQueueURL env url) as [u|e] eqn:Eo; [|done].
  destruct (queue_results env url (taskIDs g)) as [results|e] eqn:Er; [|done].
  destruct (write_group env run maps g results cur spends) as [c s| |] eqn:Ew; [|done..].
  destruct (write_group_writes _ _ _ _ _ _ Ew) as [Hl1 Hw1]. destruct (IH _ _ H) as (Hl & Hw & Ha).
  split; [congruence|]. split.
  - intros i st Hi. destruct (Hw1 i st Hi) as (s1 & Hs1 & W1). destruct (Hw i s1 Hs1) as (s2 & Hs2 & W2).
    exists s2. split; [done|]. by eapply written_app.
  - intros x g' [->|Hx]%elem_of_cons Hg; [|by apply Ha]. simplify_eq. rewrite Eo. eauto.
Qed.

(** *** Grouping *)
(** The agent of a step, and the URL of the queue on which its result is looked for. *)
Definition polled_agent (st : PipelineStepStatus) : string :=
  if decide (step_ResolvedAgent st = "") then resolveRoleAgent run (step_Name st) maps else step_ResolvedAgent st.

Definition step_url (st : PipelineStepStatus) : result string string :=
  url <-? agentQueueURL env (run_Namespace run) (polled_agent st);
  Ok (if decide (url = "") then computeRoleQueueURL env (run_Namespace run) (TeamRef (Spec run)) (step_Name st) else url).

Lemma resolveStepQueue_url st url u :
  step_url st = Ok url → openQueueURL env url = Ok u →
  u = url ∧ resolveStepQueue env (run_Namespace run) (TeamRef (Spec run)) (polled_agent st) (step_Name st) = Ok url.
Proof.
  unfold step_url, resolveStepQueue. destruct (agentQueueURL _ _ _) as [v|e]; simpl; [|done]. intros [= ->] Ho.
  rewrite Ho. revert Ho. unfold openQueueURL. case_decide; [by intros [= <-]; subst|]. case_match; [|done].
  by intros [= <-].
Qed.

Definition cache_ok (cache : gmap string string) : Prop :=
  ∀ agent url, cache !! (run_Namespace run +:+ "/" +:+ agent) = Some url →
    agentQueueURL env (run_Namespace run) agent = Ok url.

Lemma cached_ok agent cache url cache' : cache_ok cache →
  cachedAgentQueueURL env (run_Namespace run) agent cache = Ok (url, cache') →
  agentQueueURL env (run_Namespace run) agent = Ok url ∧ cache_ok cache'.
Proof.
  unfold cachedAgentQueueURL. intros Hc. case_match eqn:E; [intros [= <- <-]; auto|].
  destruct (agentQueueURL _ _ agent) as [u|e] eqn:Ea; [|done]. intros [= <- <-]. split; [done|].
  intros a v [[Hk <-]|[_ Hv]]%lookup_insert_Some; [|by apply Hc]. do 2 apply (inj (String.append _)) in Hk. by subst.
Qed.

(** A group of a queue waits for tasks of steps in flight that belong there. *)
Definition grouped (steps : list PipelineStepStatus) (byQueue : gmap string queue_group) : Prop :=
  ∀ url g id i, byQueue !! url = Some g → group_waiting g !! id = Some i →
    ∃ st, steps !! i = Some st ∧ in_flight st = true ∧ step_TaskID st = id ∧ step_url st = Ok url.

(** A step's task is asked for on the queue of the step. *)
Definition asked (byQueue : gmap string queue_group) (st : PipelineStepStatus) : Prop :=
  ∃ url g, step_url st = Ok url ∧ byQueue !! url = Some g ∧ step_TaskID st ∈ taskIDs g ∧
    is_Some (group_waiting g !! step_TaskID st).

Lemma asked_add byQueue url id i st :
  asked byQueue st → asked (<[url := add_waiting id i (default (mkQueueGroup [] ∅) (byQueue !! url))]> byQueue) st.
Proof.
  intros (u & g & Hu & Hg & Ht & Hw). destruct (decide (u = url)) as [->|Hne].
  - exists url, (add_waiting id i g). rewrite Hg, lookup_insert_eq. split_and!; [done..|set_solver|].
    simpl. destruct (decide (id = step_TaskID st)) as [->|]; [by rewrite lookup_insert_eq|by rewrite lookup_insert_ne].
  - exists u, g. by rewrite lookup_insert_ne.
Qed.

Lemma group_steps_grouped steps m order byQueue cache out :
  group_steps env run maps steps m order byQueue cache = Ok out → grouped steps byQueue → cache_ok cache →
  grouped steps out ∧ (∀ st, asked byQueue st → asked out st) ∧
  ∀ name i st, name ∈ order → m !! name = Some i → steps !! i = Some st → in_flight st = true → asked out st.
Proof.
  revert byQueue cache. induction order as [|name rest IH]; simpl; intros byQueue cache H Hg Hc.
  { injection H as <-. split; [done|]. split; [done|]. set_solver. }
  assert (Skip : group_steps env run maps steps m rest byQueue cache = Ok out →
    (∀ i st, m !! name = Some i → steps !! i = Some st → in_flight st = true → False) →
    grouped steps out ∧ (∀ st, asked byQueue st → asked out st) ∧
    ∀ n i st, n ∈ name :: rest → m !! n = Some i → steps !! i = Some st → in_flight st = true → asked out st).
  { intros H' Hno. destruct (IH _ _ H' Hg Hc) as (G & A & B). split; [done|]. split; [done|].
    intros n i st [->|Hn]%elem_of_cons; [|by apply B]. intros. by destruct (Hno i st). }
  destruct (m !! name) as [i|] eqn:Em; [|by apply Skip].
  destruct (steps !! i) as [st|] eqn:Ei; [|apply Skip; [done|]; congruence].
  destruct (in_flight st) eqn:Ef; simpl in H; [|apply Skip; [done|]; congruence]. clear Skip.
  fold (polled_agent st) in H. destruct (cachedAgentQueueURL _ _ _ _) as [[v cache']|] eqn:Ec; simpl in H; [|done].
  destruct (cached_ok _ _ _ _ Hc Ec) as [Ev Hc'].
  set (url := if decide (v = "") then _ else v) in H.
  assert (Hurl : step_url st = Ok url) by (unfold step_url; by rewrite Ev).
  destruct (IH _ _ H) as (G & A & B); [|done|].
  - intros u g id j [[<- <-]|[_ Hg']]%lookup_insert_Some; [|by apply (Hg u g)].
    simpl. intros [[<- <-]|[_ Hw]]%lookup_insert_Some; [by exists st|].
    destruct (byQueue !! url) as [g|] eqn:Eg; simpl in Hw; [by apply (Hg url g)|by rewrite lookup_empty in Hw].
  - split; [done|]. split; [intros s Hs; by apply A, asked_add|].
    intros n j s [->|Hn]%elem_of_cons; [|by apply B]. intros Hj Hs _. simplify_eq. apply A.
    eexists url, _. split; [done|]. rewrite lookup_insert_eq. split; [done|]. simpl. split; [set_solver|].
    rewrite lookup_insert_eq. done.
Qed.

(** *** The property *)
(** The orders of the environment are those in which Go ranges over the status index and the
    queues of the steps in flight. *)
Definition orders_fit (steps : list PipelineStepStatus) (m : gmap string nat) : Prop :=
  range_order m (status_order env) ∧ NoDup (queue_order env) ∧
  ∀ st url, st ∈ steps → in_flight st = true → step_url st = Ok url → url ∈ queue_order env.

(** What the last of the answers makes of the step. *)
Definition settled_by (res : TaskResult) (st st' : PipelineStepStatus) : Prop :=
  step_Phase st' ≠ StepRunning ∧
  (res_Error res ≠ "" → step_Phase st' = StepFailed ∧ step_Message st' = res_Error res) ∧
  (res_Error res = "" →
     (step_Phase st' = StepSucceeded ↔
        ∀ v, validation_of run (step_Name st) = Some v →
          accepted_output env run maps (step_Name st) (output_of run res (step_Name st)) v)).

Lemma write_result_settles res st st' spends :
  write_result env run maps res st = Written st' spends → settled_by res st st'.
Proof.
  intros H. destruct (decide (res_Error res = "")) as [He|He].
  - pose proof (write_result_verdict env run maps _ _ _ _ He H) as [Hs Hr]. split; [|by split].
    intros Ep. destruct Hr as (v & _ & _ & Hd); [congruence|]. case_decide; [destruct Hd|]; congruence.
  - unfold write_result in H. rewrite decide_True in H by done. unfold failed_result in H.
    destruct (parseAgentErrorFields _). injection H as <- _. by split.
Qed.

Lemma written_frame l st st' : written l st st' → same_step st st'.
Proof.
  induction 1 as [|res l a b c sp Hw _ IH]; [done|]. destruct (write_result_frame _ _ _ _ Hw), IH. split; congruence.
Qed.

Lemma written_settles l res st st' : written (l ++ [res]) st st' → settled_by res st st'.
Proof.
  revert st. induction l as [|r l IH]; intros st; simpl; inversion_clear 1 as [|? ? ? s1 ? ? Hw Hl].
  - inversion Hl; subst. by eapply write_result_settles.
  - apply IH in Hl. unfold settled_by in *. destruct (write_result_frame _ _ _ _ Hw) as [E _]. by rewrite E in Hl.
Qed.

Lemma concat_none {A} (f : string → list A) order : (∀ u, u ∈ order → f u = []) → concat (f <$> order) = [].
Proof. induction order as [|u order IH]; intros Hf; [done|]. rewrite fmap_cons. cbn. rewrite Hf by set_solver. apply IH. set_solver. Qed.

Lemma concat_single {A} (f : string → list A) url order : NoDup order → url ∈ order →
  (∀ u, u ∈ order → u ≠ url → f u = []) → concat (f <$> order) = f url.
Proof.
  induction order as [|u order IH]; [set_solver|]. intros [Hu Hn]%NoDup_cons Hin Hf. rewrite fmap_cons. cbn [concat].
  destruct (decide (u = url)) as [->|Hne].
  - rewrite concat_none; [by rewrite app_nil_r|]. intros x Hx. apply Hf; set_solver.
  - rewrite (Hf u) by set_solver. apply IH; set_solver.
Qed.

(** C27: delivery: whatever the queues answer (duplicates, foreign task IDs, any order), a collection
    that ends leaves the steps that are not in flight as they were.  A step in flight that the
    status index names, and whose task no other step waits for, is asked for on the queue to which
    the dispatcher submits the steps of its agent and role; the answers to its task, and nothing
    else, are written to it, in order.  If there are any it is no longer running: the last of them
    decides whether it failed, with the error of the agent, or succeeded, which it does exactly
    when its output is accepted.  If there are none it is left as it was. *)
Theorem collectResults_delivers (steps : list PipelineStepStatus) (m : gmap string nat)
    (steps' : list PipelineStepStatus) (spends : list SpendEntry) :
  orders_fit steps m → collectResults env run maps steps m = Collected steps' spends →
  length steps' = length steps ∧
  ∀ i st, steps !! i = Some st → ∃ st', steps' !! i = Some st' ∧
    (in_flight st = false → st' = st) ∧
    (in_flight st = true → m !! step_Name st = Some i →
     (∀ j s, steps !! j = Some s → in_flight s = true → step_TaskID s = step_TaskID st → j = i) →
     ∃ url ids answers,
       resolveStepQueue env (run_Namespace run) (TeamRef (Spec run)) (polled_agent st) (step_Name st) = Ok url ∧
       step_TaskID st ∈ ids ∧ queue_results env url ids = Ok answers ∧
       let mine := filter (λ r, res_TaskID r = step_TaskID st) answers in
       written mine st st' ∧
       match last mine with
       | Some res => settled_by res st st'
       | None => st' = st
       end).
Proof.
  intros (Hm & Hq & Hqs). unfold collectResults.
  destruct (group_steps _ _ _ _ _ _ _ _) as [byQueue|e] eqn:E; [|done]. intros H.
  apply poll_queues_writes in H as (Hl & Hw & Ha).
  destruct (group_steps_grouped _ _ _ _ _ _ E) as (Hg & _ & Hask);
    [intros ?? ??; by rewrite lookup_empty|intros ??; by rewrite lookup_empty|].
  split; [done|]. intros i st Hi. destruct (Hw i st Hi) as (st' & Hi' & W). exists st'. split; [done|]. clear Hw.
  assert (Hfrom : ∀ url g id, byQueue !! url = Some g → group_waiting g !! id = Some i →
    in_flight st = true ∧ step_TaskID st = id ∧ step_url st = Ok url).
  { intros url g id Hbg Hwt. destruct (Hg _ _ _ _ Hbg Hwt) as (s & ? & ? & ? & ?). by simplify_eq. }
  assert (Hnone : ∀ u, (step_url st = Ok u → in_flight st = true → False) → answers_at byQueue i u = []).
  { intros u Hu. unfold answers_at. destruct (byQueue !! u) as [g|] eqn:Eg; [|done].
    destruct (queue_results _ _ _) as [rs|]; [|done]. unfold answers_to.
    induction rs as [|r rs IH]; [done|]. rewrite filter_cons_False; [exact IH|].
    intros Hr. destruct (Hfrom _ _ _ Eg Hr) as (? & _ & ?). by apply Hu. }
  split; [intros Hf|intros Hf Him Hsole].
  - rewrite concat_none in W; [by inversion W|]. intros u _. apply Hnone. congruence.
  - destruct (Hask (step_Name st) i st) as (url & g & Hu & Hbg & Hid & Hwt); [|done..|].
    { apply Hm. by eexists. }
    assert (Hin : url ∈ queue_order env) by (by eapply Hqs; [eapply list_elem_of_lookup_2| |]).
    destruct (Ha _ _ Hin Hbg) as [Ho (answers & Hans)]. destruct (openQueueURL env url) as [u|] eqn:Eo; [|done].
    destruct (resolveStepQueue_url _ _ _ Hu Eo) as [-> Hres]. exists url, (taskIDs g), answers.
    split; [done|]. split; [done|]. split; [done|].
    rewrite (concat_single _ url) in W; [|done|done|].
    2: { intros u _ Hne. apply Hnone. intros; congruence. }
    assert (answers_at byQueue i url = filter (λ r, res_TaskID r = step_TaskID st) answers) as Emine.
    { unfold answers_at, answers_to. rewrite Hbg, Hans. apply list_filter_iff. intros r. split.
      - intros Hr. by destruct (Hfrom _ _ _ Hbg Hr) as (_ & -> & _).
      - intros ->. destruct Hwt as [j Hj]. rewrite Hj. f_equal. destruct (Hg _ _ _ _ Hbg Hj) as (s & ? & ? & ? & _). eauto. }
    rewrite Emine in W. split; [done|]. destruct (last _) as [res|] eqn:El.
    + apply last_Some in El as [l El]. rewrite El in W. by eapply written_settles.
    + apply last_None in El. rewrite El in W. by inversion W.
Qed.
End delivery.

(** ** Retries *)
(** A task submitted for a step and its output rejected. *)
Definition rejected_attempt (v : StepValidation) (now : Z) (taskID reason : string)
    (usage : TokenUsage) (st : PipelineStepStatus) : PipelineStepStatus :=
  applyValidationFailure now v reason
    ((start_step now taskID st) <| step_TokenUsage := Some usage |>).

Definition reject_all (v : StepValidation) (attempts : list (Z * string * string * TokenUsage))
    (st : PipelineStepStatus) : PipelineStepStatus :=
  foldl (λ st '(now, taskID, reason, usage), rejected_attempt v now taskID reason usage st) st attempts.

(** retries: a fresh step whose outputs are all rejected is submitted at most
    [maxRetries] times under the Retry policy and once otherwise: after the k-th rejection it
    is Pending again exactly if k is below the maximum and has failed if not.  The tokens of
    the rejected attempts are not kept: they never count against the budget of the run. *)
Theorem validation_retries_bounded (v : StepValidation)
    (attempts : list (Z * string * string * TokenUsage)) (name : string) :
  attempts ≠ [] → Z.of_nat (length attempts) < 2 ^ 63 →
  let st := reject_all v attempts (new_step name StepPending) in
  step_ValidationAttempts st = Z.of_nat (length attempts) ∧
  (if decide (OnFailure v = OnFailureRetry ∧ Z.of_nat (length attempts) < MaxRetries v)
   then step_Phase st = StepPending ∧ step_TaskID st = "" ∧ sumRunTokens [st] = 0
   else step_Phase st = StepFailed).
Proof.
  intros Hne Hlt st. subst st.
  induction attempts as [|[[[now taskID] reason] usage] l IH] using rev_ind; [done|].
  unfold reject_all in *. rewrite foldl_app. simpl. rewrite length_app in *. simpl in *.
  set (st := foldl _ _ l) in *.
  assert (step_ValidationAttempts st = Z.of_nat (length l)) as Ha.
  { destruct l; [done|]. apply IH; [done|]. simpl in *. lia. }
  clear IH.
  pose proof (applyValidationFailure_rejects now v reason
    ((start_step now taskID st) <| step_TokenUsage := Some usage |>)) as [H1 H2].
  fold (rejected_attempt v now taskID reason usage st) in H1, H2. simpl in H1.
  rewrite Ha, wrap_id in H1 by (try (unfold in_width, min_int, max_int); lia).
  rewrite H1 in *. split; [lia|].
  replace (Z.of_nat (length l + 1)) with (Z.of_nat (length l) + 1) by lia.
  case_decide; [|done]. destruct H2 as (? & ? & _ & _ & Hu). split; [done|]. split; [done|].
  unfold sumRunTokens. simpl. by rewrite Hu.
Qed.

(** ** Witnesses *)
(** One queue that answers every task, and one unknown task, with the given output. *)
Definition answering_env (output : string) : run_env :=
  mkRunEnv 1 (λ _ _, NotFound) (λ _ _, NotFound) (λ _, Ok []) "" "" ∅ (λ _ _, Ok "task")
    (λ _ ids, Ok ((λ id, mkTaskResult id output "" (mkTokenUsage 1 1 0 2 "") ∅) <$> (ids ++ ["other"])))
    None (mkRangedIndex ∅ [] []) None None None (λ _ _ _ _, f64_zero) (λ _, [])
    ["a"; "b"] [""] (λ l, l) false.

Definition no_secret : StepValidation := mkStepValidation "" "" "" "" OnFailureRetry 2 ["secret"].

Definition checked_step : SwarmTeamPipelineStep :=
  mkSwarmTeamPipelineStep "a" ∅ [] "" None "" (Some no_secret) [] ∅ None None 0.

Definition waiting_steps : list PipelineStepStatus :=
  [start_step 0 "task-a" (new_step "a" StepPending); new_step "b" StepPending].

Definition checked_run : SwarmRun :=
  mkSwarmRun "r" "ns" 1
    (mkSwarmRunSpec "team" "" "" 0 ∅ "" [checked_step; plain_step "b" ["a"]] None [] "" None None 60 1000)
    (mkSwarmRunStatus RunRunning waiting_steps "" (Some 0) None None "" None 0 []).

Definition toy_write := @write_result toy_json toy_regexp toy_float toy_case.
Definition toy_collect := @collectResults toy_json toy_regexp toy_float toy_case toy_url.

Lemma waiting_orders : @orders_fit toy_url (answering_env "fine") checked_run (buildRoleMaps checked_run)
  waiting_steps (BuildRunStatusByName checked_run).
Proof.
  split; [|split; [apply (bool_decide_unpack _); vm_compute; exact I|]].
  - split; [apply (bool_decide_unpack _); vm_compute; exact I|]. intros k. split.
    + intros [->|[->|[]%not_elem_of_nil]%elem_of_cons]%elem_of_cons; vm_compute; by eexists.
    + intros [i H]. change (BuildRunStatusByName checked_run) with
        (<["b" := 1%nat]> (<["a" := 0%nat]> (∅ : gmap string nat))) in H.
      apply lookup_insert_Some in H as [[<- _]|[_ H]]; [set_solver|].
      apply lookup_insert_Some in H as [[<- _]|[_ H]]; [set_solver|]. by rewrite lookup_empty in H.
  - intros st url _ _. unfold step_url, agentQueueURL. case_decide; [|simpl]; intros [= <-]; vm_compute; set_solver.
Qed.

Lemma collectResults_delivers_witness :
  ∃ steps' spends, toy_collect (answering_env "fine") checked_run (buildRoleMaps checked_run)
      waiting_steps (BuildRunStatusByName checked_run) = Collected steps' spends ∧
    step_Phase <$> steps' = [StepSucceeded; StepPending] ∧
    length steps' = 2%nat ∧ steps' !! 1%nat = Some (new_step "b" StepPending).
Proof.
  destruct (toy_collect (answering_env "fine") checked_run (buildRoleMaps checked_run)
      waiting_steps (BuildRunStatusByName checked_run)) as [steps' spends| |] eqn:E;
    [|vm_compute in E; discriminate..].
  exists steps', spends. split; [reflexivity|].
  destruct (@collectResults_delivers toy_json toy_regexp toy_float toy_case toy_url _ _ _ _ _ _ _ waiting_orders E)
    as [Hl Hd].
  split; [vm_compute in E; injection E as <- <-; reflexivity|]. split; [exact Hl|].
  destruct (Hd 1%nat _ eq_refl) as (st' & Hs & Hsame & _). by rewrite Hs, Hsame.
Defined.

Lemma write_result_verdict_witness :
  ∃ st' spends, toy_write (answering_env "") checked_run (buildRoleMaps checked_run)
      (mkTaskResult "task-a" "secret" "" (mkTokenUsage 1 1 0 2 "") ∅)
      (start_step 0 "task-a" (new_step "a" StepPending)) = Written st' spends ∧
    ∃ v, validation_of checked_run "a" = Some v ∧
      rejected_step v (start_step 0 "task-a" (new_step "a" StepPending)) st'.
Proof.
  destruct (toy_write (answering_env "") checked_run (buildRoleMaps checked_run)
      (mkTaskResult "task-a" "secret" "" (mkTokenUsage 1 1 0 2 "") ∅)
      (start_step 0 "task-a" (new_step "a" StepPending))) as [st' spends|] eqn:E;
    [|vm_compute in E; discriminate].
  exists st', spends. split; [reflexivity|].
  destruct (@write_result_verdict toy_json toy_regexp toy_float toy_case (answering_env "") checked_run
    (buildRoleMaps checked_run) (mkTaskResult "task-a" "secret" "" (mkTokenUsage 1 1 0 2 "") ∅)
    (start_step 0 "task-a" (new_step "a" StepPending)) st' spends eq_refl E) as [_ H]. apply H.
  vm_compute in E. injection E as <- <-. discriminate.
Defined.

Lemma validation_retries_bounded_witness :
  let rejection := (5, "task", "no", mkTokenUsage 10 10 0 20 "") in
  step_Phase (reject_all no_secret [rejection] (new_step "a" StepPending)) = StepPending ∧
  step_Phase (reject_all no_secret [rejection; rejection] (new_step "a" StepPending)) = StepFailed.
Proof.
  intros rejection. split.
  - apply (validation_retries_bounded no_secret [rejection] "a"); [discriminate|reflexivity].
  - apply (validation_retries_bounded no_secret [rejection; rejection] "a"); [discriminate|reflexivity].
Defined.
