(* ===== verification/Search.v ===== *)
(** * Search: tree search runs (internal/controller/swarmrun_search.go).

    The tree operations and the reconciler of a search-mode run.  [applySearchActions]
    keeps pointers into the node slice while appending to it, so the slice is modelled
    with its backing arrays: a pointer names an array and an index, an append beyond the
    capacity moves the slice to a fresh array, and a write through an older pointer does
    not reach it.  The growth of a slice is an argument, as the Go specification leaves
    it open. *)
From Stdlib Require Import ZArith Lia Ascii.
From stdpp Require Import base tactics option list strings gmap sets.
From S2P Require Import Prelude GoStd Types Kube Dag Template RunState.

Definition maxNodesCap : Z := 200.
Definition defaultBeamWidth : Z := 3.
Definition actionExpand := "expand".
Definition actionPrune := "prune".
Definition actionConverge := "converge".

Definition new_node (id : Z) (parent : option Z) (depth : Z) (task : string) (score : option Z)
    : SearchNodeStatus :=
  mkSearchNodeStatus id parent depth task "" score "" NodePending "" None.

Definition initSearchTree (rootPrompt : string) : SearchTreeStatus :=
  mkSearchTreeStatus [new_node 0 None 0 rootPrompt None] 0 None None None.

(** ** The planner's view *)
Record frontierContextNode := mkContextNode {
  ctx_ID : Z;
  ctx_ParentID : option Z;
  ctx_Depth : Z;
  ctx_Task : string;
  ctx_ScoreMillis : option Z;
  ctx_Phase : SearchNodePhase }.

Record frontierEntry := mkFrontierEntry {
  entry_Node : frontierContextNode;
  PathFromRoot : list frontierContextNode }.

Record frontierContext := mkFrontierContext {
  Iteration : Z;
  ctx_Strategy : SearchStrategy;
  BestScoreMillis : option Z;
  Scored : list frontierContextNode;
  Frontier : list frontierEntry;
  EvalFailed : list frontierContextNode }.

Definition toContextNode (n : SearchNodeStatus) : frontierContextNode :=
  mkContextNode (node_ID n) (node_ParentID n) (node_Depth n) (node_Task n) (node_ScoreMillis n)
    (node_Phase n).

(** A map from node IDs to positions; for repeated IDs the last one wins. *)
Fixpoint index_nodes (i : nat) (nodes : list SearchNodeStatus) (m : gmap Z nat) : gmap Z nat :=
  match nodes with
  | [] => m
  | n :: rest => index_nodes (S i) rest (<[node_ID n := i]> m)
  end.

Definition node_at (nodes : list SearchNodeStatus) (m : gmap Z nat) (id : Z)
    : option SearchNodeStatus :=
  match m !! id with Some i => nodes !! i | None => None end.

(** The loop of [buildPathFromRoot]; [None] when the fuel runs out, which a
    well-formed tree excludes ([buildPathFromRoot_total]). *)
Fixpoint path_loop (fuel : nat) (nodes : list SearchNodeStatus) (nodeByID : gmap Z nat)
    (current : option Z) (path : list frontierContextNode) : option (list frontierContextNode) :=
  match current with
  | None => Some path
  | Some id =>
      match node_at nodes nodeByID id with
      | None => Some path
      | Some parent =>
          match fuel with
          | O => None
          | S fuel' => path_loop fuel' nodes nodeByID (node_ParentID parent)
                         (path ++ [toContextNode parent])
          end
      end
  end.

Definition buildPathFromRoot (nodes : list SearchNodeStatus) (nodeByID : gmap Z nat)
    (n : SearchNodeStatus) : option (list frontierContextNode) :=
  reverse <$> path_loop (length nodes) nodes nodeByID (node_ParentID n) [].

Definition best_score (nodes : list SearchNodeStatus) : option Z :=
  foldl (λ best n,
    match node_ScoreMillis n with
    | None => best
    | Some s => match best with
                | None => Some s
                | Some b => if s >? b then Some s else best
                end
    end) None nodes.

(** One iteration of the classification of the nodes. *)
Definition classify (nodes : list SearchNodeStatus) (nodeByID : gmap Z nat)
    (fc : option (list frontierContextNode * list frontierEntry * list frontierContextNode))
    (n : SearchNodeStatus) :=
  match fc with
  | None => None
  | Some (scored, frontier, failed) =>
      match node_Phase n with
      | NodeScored => Some (scored ++ [toContextNode n], frontier, failed)
      | NodeEvalFailed => Some (scored, frontier, failed ++ [toContextNode n])
      | NodePending =>
          match buildPathFromRoot nodes nodeByID n with
          | None => None
          | Some path => Some (scored, frontier ++ [mkFrontierEntry (toContextNode n) path], failed)
          end
      | _ => Some (scored, frontier, failed)
      end
  end.

Definition buildFrontierContext (tree : SearchTreeStatus) (search : SwarmTeamSearchSpec)
    : option frontierContext :=
  let nodeByID := index_nodes 0 (Nodes tree) ∅ in
  match foldl (classify (Nodes tree) nodeByID) (Some ([], [], [])) (Nodes tree) with
  | None => None
  | Some (scored, frontier, failed) =>
      Some (mkFrontierContext (tree_Iterations tree) (search_Strategy search)
              (best_score (Nodes tree)) scored frontier failed)
  end.

(** ** Validation of the planner's actions *)
Definition act_err (i : nat) (msg : string) : string :=
  "action[" +:+ itoa (Z.of_nat i) +:+ "]: " +:+ msg.

Definition validate_action (known : Z → bool) (hasEvaluator : bool) (i : nat) (a : SearchAction)
    : list string :=
  let score_errs kind := if negb hasEvaluator && negb (bool_decide (is_Some (action_ScoreMillis a)))
    then [act_err i (kind +:+ " requires scoreMillis when no evaluator is configured")] else [] in
  let node_errs kind :=
    match action_Node a with
    | None => [act_err i (kind +:+ " requires node")]
    | Some id => if known id then [] else [act_err i (kind +:+ " node " +:+ itoa id +:+ " not found")]
    end in
  if String.eqb (Action a) actionExpand then
    match ParentNode a with
    | None => [act_err i "expand requires parentNode"]
    | Some p => if known p then [] else [act_err i ("expand parentNode " +:+ itoa p +:+ " not found")]
    end ++
    match action_Task a with
    | Some (String _ _) => []
    | _ => [act_err i "expand requires non-empty task"]
    end ++ score_errs "expand"
  else if String.eqb (Action a) actionPrune then node_errs "prune"
  else if String.eqb (Action a) actionConverge then node_errs "converge" ++ score_errs "converge"
  else [act_err i ("unknown action " +:+ Quote (Action a))].

Fixpoint validate_from (known : Z → bool) (hasEvaluator : bool) (i : nat)
    (actions : list SearchAction) : list string :=
  match actions with
  | [] => []
  | a :: rest => validate_action known hasEvaluator i a ++ validate_from known hasEvaluator (S i) rest
  end.

Definition validateSearchActions (actions : list SearchAction) (tree : SearchTreeStatus)
    (hasEvaluator : bool) : list string :=
  validate_from (λ id, bool_decide (id ∈ node_ID <$> Nodes tree)) hasEvaluator 0 actions.

(** ** The node slice and its backing arrays *)
Definition node_ptr : Type := nat * nat.

Record node_heap := mkNodeHeap {
  arrays : list (list SearchNodeStatus);  (* oldest first; the slice is the last one *)
  slice_cap : nat }.

Definition cur_gen (h : node_heap) : nat := pred (length (arrays h)).
Definition slice (h : node_heap) : list SearchNodeStatus := default [] (arrays h !! cur_gen h).

Definition load (h : node_heap) (p : node_ptr) : option SearchNodeStatus :=
  match arrays h !! p.1 with Some a => a !! p.2 | None => None end.
Definition store (h : node_heap) (p : node_ptr) (f : SearchNodeStatus → SearchNodeStatus)
    : node_heap :=
  mkNodeHeap (alter (alter f p.2) p.1 (arrays h)) (slice_cap h).

(** [append]: in place below the capacity, into a fresh array otherwise. *)
Definition append_node (growslice : nat → nat) (h : node_heap) (n : SearchNodeStatus)
    : node_heap :=
  let nodes := slice h in
  if (length nodes <? slice_cap h)%nat then
    mkNodeHeap (<[cur_gen h := nodes ++ [n]]> (arrays h)) (slice_cap h)
  else mkNodeHeap (arrays h ++ [nodes ++ [n]]) (growslice (length nodes)).

(** ** Applying the planner's actions *)
(** A dereference of a nil field panics; otherwise the tree as it is left, and the error. *)
Inductive apply_out :=
| ApplyPanic
| Applied (tree : SearchTreeStatus) (err : option string).

Record apply_state := mkApplyState {
  st_heap : node_heap;
  st_nodeByID : gmap Z node_ptr;
  st_nextID : Z;
  st_solution : option Z }.

Definition finish (tree : SearchTreeStatus) (st : apply_state) (err : option string) : apply_out :=
  Applied (tree <| Nodes := slice (st_heap st) |> <| SolutionNodeID := st_solution st |>) err.

Definition prune_node (n : SearchNodeStatus) : SearchNodeStatus := n <| node_Phase := NodePruned |>.
Definition converge_node (score : option Z) (n : SearchNodeStatus) : SearchNodeStatus :=
  let n := n <| node_Phase := NodeSolution |> in
  match score with Some s => n <| node_ScoreMillis := Some s |> | None => n end.

Fixpoint apply_actions (growslice : nat → nat) (tree : SearchTreeStatus) (maxNodes : Z)
    (actions : list SearchAction) (st : apply_state) : apply_out :=
  match actions with
  | [] => finish tree st None
  | a :: rest =>
      if String.eqb (Action a) actionExpand then
        let len := Z.of_nat (length (slice (st_heap st))) in
        if wrap32 len >=? maxNodes then
          finish tree st (Some ("cannot expand: tree has " +:+ itoa len +:+ " nodes (max " +:+
                                itoa maxNodes +:+ ")"))
        else
          match ParentNode a with
          | None => ApplyPanic
          | Some pid =>
              match st_nodeByID st !! pid with
              | None => finish tree st (Some ("expand: parent node " +:+ itoa pid +:+ " not found"))
              | Some p =>
                  match load (st_heap st) p, action_Task a with
                  | Some parent, Some task =>
                      let n := new_node (st_nextID st) (ParentNode a)
                                 (wrap32 (node_Depth parent + 1)) task (action_ScoreMillis a) in
                      let h := append_node growslice (st_heap st) n in
                      apply_actions growslice tree maxNodes rest
                        (mkApplyState h
                           (<[st_nextID st := (cur_gen h, pred (length (slice h)))]> (st_nodeByID st))
                           (wrap32 (st_nextID st + 1)) (st_solution st))
                  | _, _ => ApplyPanic
                  end
              end
          end
      else if String.eqb (Action a) actionPrune then
        match action_Node a with
        | None => ApplyPanic
        | Some id =>
            match st_nodeByID st !! id with
            | None => finish tree st (Some ("prune: node " +:+ itoa id +:+ " not found"))
            | Some p =>
                apply_actions growslice tree maxNodes rest
                  (mkApplyState (store (st_heap st) p prune_node) (st_nodeByID st)
                     (st_nextID st) (st_solution st))
            end
        end
      else if String.eqb (Action a) actionConverge then
        match action_Node a with
        | None => ApplyPanic
        | Some id =>
            match st_nodeByID st !! id with
            | None => finish tree st (Some ("converge: node " +:+ itoa id +:+ " not found"))
            | Some p =>
                apply_actions growslice tree maxNodes rest
                  (mkApplyState (store (st_heap st) p (converge_node (action_ScoreMillis a)))
                     (st_nodeByID st) (st_nextID st) (action_Node a))
            end
        end
      else apply_actions growslice tree maxNodes rest st
  end.

Definition initial_state (capacity : nat) (tree : SearchTreeStatus) : apply_state :=
  mkApplyState (mkNodeHeap [Nodes tree] capacity)
    ((λ i, (0%nat, i)) <$> index_nodes 0 (Nodes tree) ∅)
    (wrap32 (Z.of_nat (length (Nodes tree)))) (SolutionNodeID tree).

(** [capacity] is the capacity of [tree.Nodes] when the function is called. *)
Definition applySearchActions (growslice : nat → nat) (capacity : nat) (tree : SearchTreeStatus)
    (actions : list SearchAction) (maxNodes : Z) : apply_out :=
  let maxNodes := if (maxNodes <=? 0) || (maxNodes >? maxNodesCap) then maxNodesCap else maxNodes in
  apply_actions growslice tree maxNodes actions (initial_state capacity tree).

(** ** Termination criteria, truncation, beam *)
Definition default_max_nodes (search : SwarmTeamSearchSpec) : Z :=
  if MaxNodes search <=? 0 then 50 else MaxNodes search.

Definition score_reaches (threshold : Z) (n : SearchNodeStatus) : bool :=
  match node_ScoreMillis n with Some s => s >=? threshold | None => false end.

Definition checkConvergence (tree : SearchTreeStatus) (search : SwarmTeamSearchSpec)
    : option SearchTerminationReason :=
  if bool_decide (is_Some (SolutionNodeID tree)) then Some PlannerConverged
  else if match MinScorePercent search with
          | Some p => existsb (score_reaches (wrap32 (p * 10))) (Nodes tree)
          | None => false end then Some MinScoreReached
  else if (MaxDepth search >? 0) &&
          existsb (λ n, (node_Depth n >=? MaxDepth search) &&
                        negb (bool_decide (node_Phase n = NodePruned))) (Nodes tree)
  then Some MaxDepthReached
  else if wrap32 (Z.of_nat (length (Nodes tree))) >=? default_max_nodes search
  then Some MaxNodesReached
  else if (search_MaxIterations search >? 0) &&
          (tree_Iterations tree >=? search_MaxIterations search) then Some MaxIterationsReached
  else None.

Definition truncate (limit : Z) (s : string) : string :=
  if str_len s >? limit then str_take (Z.to_nat limit) s +:+ " [truncated]" else s.

Definition truncateNodeOutput (nodes : list SearchNodeStatus) (maxBytes : Z)
    : list SearchNodeStatus :=
  if maxBytes <=? 0 then nodes
  else (λ n, n <| node_Output ::= truncate maxBytes |> <| node_Task ::= truncate maxBytes |>) <$> nodes.

Definition scored_with_score (n : SearchNodeStatus) : bool :=
  bool_decide (node_Phase n = NodeScored) && bool_decide (is_Some (node_ScoreMillis n)).

(** The scored nodes of one depth, with their positions. *)
Definition group_at (nodes : list SearchNodeStatus) (depth : Z) : list (nat * SearchNodeStatus) :=
  filter (λ p, scored_with_score p.2 = true ∧ node_Depth p.2 = depth)
    (imap (λ i n, (i, n)) nodes).

Definition score_greater (a b : nat * SearchNodeStatus) : bool :=
  default 0 (node_ScoreMillis a.2) >? default 0 (node_ScoreMillis b.2).

Definition hasRunningNodes (tree : SearchTreeStatus) : bool :=
  existsb (λ n, bool_decide (node_Phase n = NodeRunning)) (Nodes tree).

Section beam.
Context {sortNodes : SliceSort (nat * SearchNodeStatus)}.

Definition prune_depth (beamWidth : Z) (orig nodes : list SearchNodeStatus) (depth : Z)
    : list SearchNodeStatus :=
  let group := group_at orig depth in
  if wrap32 (Z.of_nat (length group)) <=? beamWidth then nodes
  else foldl (λ nodes p, alter prune_node p.1 nodes) nodes
         (drop (Z.to_nat beamWidth) (sort_slice score_greater group)).

(** [depths]: the keys of [byDepth], in the order the map is ranged over. *)
Definition beamPrune (depths : list Z) (tree : SearchTreeStatus) (beamWidth : Z)
    : SearchTreeStatus :=
  if beamWidth <=? 0 then tree
  else tree <| Nodes := foldl (prune_depth beamWidth (Nodes tree)) (Nodes tree) depths |>.
End beam.
