(* ===== verification/SearchProps.v ===== *)
(** * SearchProps: properties of the tree operations of a search run.

    Well-formedness of the tree, termination of the path construction, the effect of the
    planner's actions with and without spare capacity, and beam pruning. *)
From Stdlib Require Import ZArith Lia Ascii.
From stdpp Require Import base tactics option list strings gmap sets sorting.
From S2P Require Import Prelude GoStd Types Kube Search.

(** ** Well-formed trees *)
(** ID, parent and depth of a node: what makes it part of the tree. *)
Definition sk (n : SearchNodeStatus) : Z * option Z * Z := (node_ID n, node_ParentID n, node_Depth n).

(** IDs are positions, and a parent comes before its children, one level above. *)
Definition wf_skel (l : list (Z * option Z * Z)) : Prop :=
  ∀ i id parent depth, l !! i = Some (id, parent, depth) →
    id = Z.of_nat i ∧
    match parent with
    | None => depth = 0
    | Some p => ∃ j pid pp pd, p = Z.of_nat j ∧ (j < i)%nat ∧ l !! j = Some (pid, pp, pd) ∧
                               depth = pd + 1
    end.

Definition wf_nodes (nodes : list SearchNodeStatus) : Prop := wf_skel (sk <$> nodes).

(** [l] is the path from the root down to the parent of [n]. *)
Inductive root_path (nodes : list SearchNodeStatus) : SearchNodeStatus → list SearchNodeStatus → Prop :=
| root_path_root n : node_ParentID n = None → root_path nodes n []
| root_path_step n p j l :
    node_ParentID n = Some (Z.of_nat j) → nodes !! j = Some p → root_path nodes p l →
    root_path nodes n (l ++ [p]).

(** ** Lemmas: well-formed trees *)
Lemma sk_lookup (nodes : list SearchNodeStatus) i n : nodes !! i = Some n → (sk <$> nodes) !! i = Some (sk n).
Proof. intros H. by rewrite list_lookup_fmap, H. Qed.

Lemma wf_id (nodes : list SearchNodeStatus) i n : wf_nodes nodes → nodes !! i = Some n → node_ID n = Z.of_nat i.
Proof. intros H Hi. by destruct (H i _ _ _ (sk_lookup _ _ _ Hi)). Qed.

Lemma wf_parent (nodes : list SearchNodeStatus) i n p :
  wf_nodes nodes → nodes !! i = Some n → node_ParentID n = Some p →
  ∃ j pn, p = Z.of_nat j ∧ (j < i)%nat ∧ nodes !! j = Some pn ∧ node_Depth n = node_Depth pn + 1.
Proof.
  intros H Hi Hp. destruct (H i _ _ _ (sk_lookup _ _ _ Hi)) as [_ Hd]. rewrite Hp in Hd.
  destruct Hd as (j & pid & pp & pd & -> & Hj & Hl & Hdep). rewrite list_lookup_fmap in Hl.
  destruct (nodes !! j) as [pn|] eqn:E; [|done]. unfold sk in Hl. simplify_eq/=. eauto 10.
Qed.

Lemma wf_root (nodes : list SearchNodeStatus) i n :
  wf_nodes nodes → nodes !! i = Some n → node_ParentID n = None → node_Depth n = 0.
Proof.
  intros H Hi Hp. destruct (H i _ _ _ (sk_lookup _ _ _ Hi)) as [_ Hd]. by rewrite Hp in Hd.
Qed.

Lemma wf_skel_prefix (l1 l2 : list (Z * option Z * Z)) : l1 `prefix_of` l2 → wf_skel l2 → wf_skel l1.
Proof.
  intros Hp H i id parent depth Hi.
  destruct (H i id parent depth) as [H1 H2]; [by eapply prefix_lookup_Some|].
  split; [done|]. destruct parent as [p|]; [|done].
  destruct H2 as (j & pid & pp & pd & -> & Hj & Hl & ->). exists j, pid, pp, pd.
  split; [done|]. split; [done|]. split; [|done].
  assert (j < length l1)%nat as Hlt by (apply lookup_lt_Some in Hi; lia).
  apply lookup_lt_is_Some in Hlt as [x Hx]. rewrite Hx.
  by rewrite (prefix_lookup_Some _ _ _ _ Hx Hp) in Hl.
Qed.

Lemma wf_skel_depth (l : list (Z * option Z * Z)) i id parent depth :
  wf_skel l → l !! i = Some (id, parent, depth) → 0 ≤ depth ≤ Z.of_nat i.
Proof.
  intros H. revert id parent depth. induction (lt_wf i) as [i _ IH]. intros id parent depth Hi.
  destruct (H i _ _ _ Hi) as [_ Hd]. destruct parent as [p|]; [|lia].
  destruct Hd as (j & pid & pp & pd & -> & Hj & Hl & ->).
  specialize (IH j Hj pid pp pd Hl). lia.
Qed.

Lemma wf_skel_snoc (l : list (Z * option Z * Z)) parent depth j pid pp :
  wf_skel l → l !! j = Some (pid, pp, depth) → parent = Z.of_nat j →
  wf_skel (l ++ [(Z.of_nat (length l), Some parent, depth + 1)]).
Proof.
  intros H Hj -> i id par d Hi. apply lookup_app_Some in Hi as [Hi|[Hge Hi]].
  - destruct (H i id par d Hi) as [H1 H2]. split; [done|]. destruct par as [p|]; [|done].
    destruct H2 as (j' & pid' & pp' & pd' & ? & ? & Hl & ?). exists j', pid', pp', pd'.
    rewrite lookup_app_l by (by eapply lookup_lt_Some). done.
  - apply list_lookup_singleton_Some in Hi as [Hi [= <- <- <-]].
    assert (i = length l) as -> by lia. split; [done|].
    exists j, pid, pp, depth. apply lookup_lt_Some in Hj as Hlt.
    rewrite lookup_app_l by done. done.
Qed.

Lemma index_nodes_lookup k (nodes : list SearchNodeStatus) m z :
  (∀ i n, nodes !! i = Some n → node_ID n = Z.of_nat (k + i)) →
  index_nodes k nodes m !! z =
  if decide (Z.of_nat k ≤ z < Z.of_nat (k + length nodes)) then Some (Z.to_nat z) else m !! z.
Proof.
  revert k m. induction nodes as [|n nodes IH]; intros k m Hid; simpl.
  { rewrite decide_False by lia. done. }
  rewrite IH.
  2: { intros i n' Hi. rewrite (Hid (S i) n' Hi). f_equal. lia. }
  rewrite (Hid 0%nat n eq_refl), Nat.add_0_r. destruct (decide (z = Z.of_nat k)) as [->|Hne].
  - rewrite decide_False by lia. rewrite decide_True by lia.
    rewrite lookup_insert_eq. by rewrite Nat2Z.id.
  - rewrite lookup_insert_ne by done. repeat case_decide; try done; lia.
Qed.

Lemma wf_index nodes z :
  wf_nodes nodes →
  index_nodes 0 nodes ∅ !! z =
  if decide (0 ≤ z < Z.of_nat (length nodes)) then Some (Z.to_nat z) else None.
Proof.
  intros H. rewrite index_nodes_lookup; [done|]. intros i n Hi. by apply wf_id with nodes.
Qed.

Lemma wf_node_at (nodes : list SearchNodeStatus) j :
  wf_nodes nodes → node_at nodes (index_nodes 0 nodes ∅) (Z.of_nat j) = nodes !! j.
Proof.
  intros H. unfold node_at. rewrite wf_index by done. case_decide.
  - by rewrite Nat2Z.id.
  - symmetry. apply lookup_ge_None. lia.
Qed.

Lemma path_loop_spec (nodes : list SearchNodeStatus) i n fuel acc :
  wf_nodes nodes → nodes !! i = Some n → (i ≤ fuel)%nat →
  ∃ l, path_loop fuel nodes (index_nodes 0 nodes ∅) (node_ParentID n) acc =
         Some (acc ++ reverse (toContextNode <$> l)) ∧
       root_path nodes n l ∧ Z.of_nat (length l) = node_Depth n.
Proof.
  intros H. revert n fuel acc. induction (lt_wf i) as [i _ IH]. intros n fuel acc Hi Hf.
  destruct (node_ParentID n) as [p|] eqn:Hp.
  - destruct (wf_parent _ _ _ _ H Hi Hp) as (j & pn & -> & Hj & Hl & Hd).
    destruct fuel as [|fuel]; [lia|]. simpl. rewrite wf_node_at, Hl by done.
    destruct (IH j Hj pn fuel (acc ++ [toContextNode pn]) Hl) as (l & E & Hr & Hlen); [lia|].
    exists (l ++ [pn]). rewrite E. split; [|split].
    + f_equal. rewrite fmap_app, reverse_app, (assoc_L (++)). done.
    + by econstructor.
    + rewrite length_app. simpl. lia.
  - exists []. split; [|split; [by constructor|]].
    + destruct fuel; simpl; f_equal; symmetry; apply app_nil_r.
    + symmetry. by eapply wf_root.
Qed.

(** on a well-formed tree the path construction terminates and returns exactly the
    chain of ancestors from the root down to the parent, as many as the node is deep. *)
Theorem buildPathFromRoot_correct (nodes : list SearchNodeStatus) (i : nat) (n : SearchNodeStatus) :
  wf_nodes nodes → nodes !! i = Some n →
  ∃ l, buildPathFromRoot nodes (index_nodes 0 nodes ∅) n = Some (toContextNode <$> l) ∧
       root_path nodes n l ∧ Z.of_nat (length l) = node_Depth n.
Proof.
  intros H Hi. destruct (path_loop_spec nodes i n (length nodes) [] H Hi) as (l & E & Hr & Hl).
  { apply lookup_lt_Some in Hi. lia. }
  exists l. unfold buildPathFromRoot. rewrite E. simpl. by rewrite reverse_involutive.
Qed.

(** ** What the planner's actions cannot change *)
(** A node up to its phase and its score. *)
Definition core (n : SearchNodeStatus) : SearchNodeStatus :=
  n <| node_Phase := NodePending |> <| node_ScoreMillis := None |>.

(** A node that was just added. *)
Definition fresh (n : SearchNodeStatus) : Prop := node_TaskID n = "" ∧ node_Output n = "".

Definition cores (l : list (list SearchNodeStatus)) : list (list SearchNodeStatus) :=
  map (map core) l.
Definition newest (l : list (list SearchNodeStatus)) : list SearchNodeStatus :=
  default [] (l !! pred (length l)).

Lemma wf_core (nodes : list SearchNodeStatus) : wf_nodes (core <$> nodes) ↔ wf_nodes nodes.
Proof. unfold wf_nodes. by rewrite <- list_fmap_compose. Qed.

Lemma core_slice (h : node_heap) : core <$> slice h = newest (cores (arrays h)).
Proof.
  unfold slice, newest, cur_gen, cores. rewrite length_fmap, list_lookup_fmap.
  by destruct (arrays h !! _).
Qed.

Lemma newest_cur h : newest (cores (arrays h)) = default [] (cores (arrays h) !! cur_gen h).
Proof. unfold newest, cur_gen, cores. by rewrite length_map. Qed.

Lemma alter_core f i (nodes : list SearchNodeStatus) :
  (∀ n, core (f n) = core n) → core <$> alter f i nodes = core <$> nodes.
Proof.
  intros Hf. apply list_eq. intros j. rewrite !list_lookup_fmap.
  destruct (decide (i = j)) as [->|]; [|by rewrite list_lookup_alter_ne].
  rewrite list_lookup_alter_eq. destruct (nodes !! j); simpl; [by rewrite Hf|done].
Qed.

Lemma store_cores h p f :
  (∀ n, core (f n) = core n) → cores (arrays (store h p f)) = cores (arrays h).
Proof.
  intros Hf. apply list_eq. intros g. unfold cores, store. simpl. rewrite !list_lookup_fmap.
  destruct (decide (p.1 = g)) as [<-|]; [|by rewrite list_lookup_alter_ne].
  rewrite list_lookup_alter_eq. destruct (arrays h !! p.1); simpl; [by rewrite alter_core|done].
Qed.

Lemma converge_core score n : core (converge_node score n) = core n.
Proof. by destruct score. Qed.

(** The invariant of the loop, on the cores of the arrays. *)
Record apply_inv (base : list SearchNodeStatus) (C : list (list SearchNodeStatus))
    (m : gmap Z node_ptr) (next : Z) : Prop := {
  inv_nonempty : C ≠ [];
  inv_prefix : ∀ a, a ∈ C → a `prefix_of` newest C;
  inv_ptr : ∀ id p, m !! id = Some p →
    ∃ a n, id = Z.of_nat p.2 ∧ C !! p.1 = Some a ∧ a !! p.2 = Some n;
  inv_next : next = Z.of_nat (length (newest C));
  inv_wf : wf_nodes (newest C);
  inv_base : ∃ new, newest C = base ++ new ∧ Forall fresh new }.

Lemma newest_snoc (C : list (list SearchNodeStatus)) a : newest (C ++ [a]) = a.
Proof.
  unfold newest. rewrite length_app, Nat.add_comm. simpl.
  by rewrite lookup_app_r, Nat.sub_diag by lia.
Qed.

Lemma newest_insert (C : list (list SearchNodeStatus)) a : C ≠ [] → newest (<[pred (length C) := a]> C) = a.
Proof.
  intros Hne. unfold newest. rewrite length_insert, list_lookup_insert_eq; [done|].
  destruct C; [done|simpl; lia].
Qed.

Lemma append_cores grow h n :
  arrays h ≠ [] →
  cores (arrays (append_node grow h n)) =
    (if (length (slice h) <? slice_cap h)%nat
     then <[pred (length (cores (arrays h))) := newest (cores (arrays h)) ++ [core n]]> (cores (arrays h))
     else cores (arrays h) ++ [newest (cores (arrays h)) ++ [core n]]) ∧
  newest (cores (arrays (append_node grow h n))) = newest (cores (arrays h)) ++ [core n].
Proof.
  intros Hne. assert (cores (arrays (append_node grow h n)) =
    (if (length (slice h) <? slice_cap h)%nat
     then <[pred (length (cores (arrays h))) := newest (cores (arrays h)) ++ [core n]]> (cores (arrays h))
     else cores (arrays h) ++ [newest (cores (arrays h)) ++ [core n]])) as E.
  { unfold append_node. rewrite <- core_slice. unfold cores at 2. rewrite length_fmap.
    case_match; simpl; unfold cores.
    - by rewrite list_fmap_insert, fmap_app.
    - by rewrite fmap_app; simpl; rewrite fmap_app. }
  split; [done|]. rewrite E. case_match; [|apply newest_snoc].
  apply newest_insert. unfold cores. by intros E0%map_eq_nil.
Qed.

Lemma elem_of_insert_or {A} (l : list A) i x y : y ∈ <[i := x]> l → y = x ∨ y ∈ l.
Proof.
  intros (j & Hj)%list_elem_of_lookup_1. destruct (decide (i = j)) as [<-|].
  - destruct (decide (i < length l)%nat).
    + rewrite list_lookup_insert_eq in Hj by done. left. congruence.
    + rewrite list_insert_ge in Hj by lia. right. by eapply list_elem_of_lookup_2.
  - rewrite list_lookup_insert_ne in Hj by done. right. by eapply list_elem_of_lookup_2.
Qed.

(** Appending a child of a known node preserves the invariant. *)
Lemma apply_inv_append base grow h m next n j pid pp pd :
  apply_inv base (cores (arrays h)) m next → 0 ≤ next < 2 ^ 31 - 1 →
  (sk <$> newest (cores (arrays h))) !! j = Some (pid, pp, pd) →
  sk n = (next, Some (Z.of_nat j), pd + 1) → fresh n →
  let h' := append_node grow h n in
  apply_inv base (cores (arrays h'))
    (<[next := (cur_gen h', pred (length (slice h')))]> m) (wrap32 (next + 1)).
Proof.
  intros I Hnext Hj Hsk Hfr h'. destruct (append_cores grow h n) as [EC EN].
  { destruct I as [Hne _ _ _ _ _]. intros E. apply Hne. by rewrite E. }
  fold h' in EC, EN. destruct I as [Hne Hpre Hptr Hn Hwf [new [Hb Hf]]].
  assert (∀ g a, cores (arrays h) !! g = Some a → ∃ b, cores (arrays h') !! g = Some b ∧ a `prefix_of` b)
    as Hgrow.
  { intros g a Hg. rewrite EC. case_match; [|exists a; by rewrite lookup_app_l by (by eapply lookup_lt_Some)].
    destruct (decide (g = pred (length (cores (arrays h))))) as [->|].
    - exists (newest (cores (arrays h)) ++ [core n]). rewrite list_lookup_insert_eq by (by eapply lookup_lt_Some).
      split; [done|]. apply prefix_app_r. apply Hpre. by eapply list_elem_of_lookup_2.
    - exists a. by rewrite list_lookup_insert_ne. }
  assert (newest (cores (arrays h)) `prefix_of` newest (cores (arrays h'))) as Hnn
    by (rewrite EN; by apply prefix_app_r).
  split.
  - intros E. rewrite E in EN. unfold newest at 1 in EN. simpl in EN. by destruct (newest _).
  - intros a Ha. rewrite EC in Ha. destruct (length (slice h) <? slice_cap h)%nat.
    + apply elem_of_insert_or in Ha as [->|Ha]; [by rewrite EN|]. etrans; [by apply Hpre|done].
    + apply elem_of_app in Ha as [Ha|Ha]; [etrans; [by apply Hpre|done]|].
      apply list_elem_of_singleton in Ha as ->. by rewrite EN.
  - intros id p. rewrite lookup_insert. case_decide as Hid; [intros [= <-]; subst id|].
    + rewrite <- (length_fmap core), core_slice, EN, length_app, Nat.add_comm. simpl.
      exists (newest (cores (arrays h)) ++ [core n]), (core n). split; [done|].
      split; [|by rewrite lookup_app_r, Nat.sub_diag by lia].
      rewrite newest_cur in EN. simpl. rewrite <- EN.
      destruct (cores (arrays h') !! cur_gen h') as [b|]; [done|].
      simpl in EN. by destruct (newest _).
    + intros Hp. destruct (Hptr id p Hp) as (a & x & -> & Ha & Hx).
      destruct (Hgrow _ _ Ha) as (b & Hb' & Hab). exists b, x. split; [done|]. split; [done|].
      by eapply prefix_lookup_Some.
  - rewrite EN, length_app. simpl. rewrite Hn, wrap_id; [lia|lia|].
    unfold in_width, min_int, max_int. simpl. lia.
  - rewrite EN. unfold wf_nodes. rewrite fmap_app. simpl.
    change (sk (core n)) with (sk n). rewrite Hsk, Hn, <- (length_fmap sk).
    eapply wf_skel_snoc; [exact Hwf|exact Hj|done].
  - exists (new ++ [core n]). rewrite EN, Hb, (assoc_L (++)). split; [done|].
    apply Forall_app. split; [done|]. constructor; [done|constructor].
Qed.

(** ** Validated actions *)
(** The fields an action needs are there, and name known nodes. *)
Definition action_ok (known : Z → Prop) (a : SearchAction) : Prop :=
  (Action a = actionExpand → ∃ p task, ParentNode a = Some p ∧ action_Task a = Some task ∧ known p) ∧
  (Action a = actionPrune ∨ Action a = actionConverge → ∃ id, action_Node a = Some id ∧ known id).

Lemma app_nil_both {A} (l1 l2 : list A) : l1 ++ l2 = [] → l1 = [] ∧ l2 = [].
Proof. by destruct l1. Qed.

Lemma validate_action_ok known he i a :
  validate_action known he i a = [] → action_ok (λ id, known id = true) a.
Proof.
  unfold validate_action, action_ok. intros H. split.
  - intros Ha. rewrite Ha, String.eqb_refl in H. apply app_nil_both in H as [H1 H2].
    apply app_nil_both in H2 as [H2 _].
    destruct (ParentNode a) as [p|]; [|done]. destruct (known p) eqn:K; [|done].
    destruct (action_Task a) as [[|]|]; eauto; done.
  - intros Hor. assert (String.eqb (Action a) actionExpand = false) as E
      by (by destruct Hor as [-> | ->]). rewrite E in H.
    assert (∃ id, action_Node a = Some id ∧ known id = true) as G; [|done].
    destruct (action_Node a) as [id|].
    + exists id. split; [done|]. destruct (known id) eqn:K; [done|].
      exfalso. destruct Hor as [Ha|Ha]; rewrite Ha in H; simpl in H; done.
    + exfalso. destruct Hor as [Ha|Ha]; rewrite Ha in H; simpl in H; done.
Qed.

Lemma validateSearchActions_ok actions tree he :
  validateSearchActions actions tree he = [] →
  Forall (action_ok (λ id, id ∈ node_ID <$> Nodes tree)) actions.
Proof.
  unfold validateSearchActions. generalize 0%nat. induction actions as [|a rest IH]; intros i H;
    [constructor|]. simpl in H. apply app_nil_both in H as [H1 H2].
  constructor; [|by eapply IH]. apply validate_action_ok in H1 as [E1 E2].
  split; intros Ha.
  - destruct (E1 Ha) as (p & task & ? & ? & K%bool_decide_eq_true). eauto.
  - destruct (E2 Ha) as (id & ? & K%bool_decide_eq_true). eauto.
Qed.

Lemma wrap32_small z : 0 ≤ z < 2 ^ 31 → wrap32 z = z.
Proof. intros H. apply wrap_id; [lia|]. unfold in_width, min_int, max_int. simpl. lia. Qed.

Lemma actions_ok_insert (m : gmap Z node_ptr) k p actions :
  Forall (action_ok (λ id, is_Some (m !! id))) actions →
  Forall (action_ok (λ id, is_Some (<[k := p]> m !! id))) actions.
Proof.
  intros H. eapply Forall_impl; [exact H|]. intros b. unfold action_ok.
  setoid_rewrite lookup_insert_is_Some. intros [G1 G2]. split; intros Hb.
  - destruct (G1 Hb) as (q & t & ? & ? & ?). exists q, t. destruct (decide (k = q)); auto.
  - destruct (G2 Hb) as (q & ? & ?). exists q. destruct (decide (k = q)); auto.
Qed.

(** ** The loop over the actions *)
(** What the loop leaves: a well-formed tree that extends [base]. *)
Definition apply_post (base : list SearchNodeStatus) (bound : Z) (tree : SearchTreeStatus) : Prop :=
  wf_nodes (Nodes tree) ∧
  (∃ new, core <$> Nodes tree = base ++ new ∧ Forall fresh new) ∧
  Z.of_nat (length (Nodes tree)) ≤ bound.

Lemma apply_inv_store base h m next p f :
  (∀ n, core (f n) = core n) →
  apply_inv base (cores (arrays h)) m next → apply_inv base (cores (arrays (store h p f))) m next.
Proof. intros Hf. by rewrite store_cores. Qed.

Lemma slice_length h : length (slice h) = length (newest (cores (arrays h))).
Proof. by rewrite <- core_slice, length_fmap. Qed.

Lemma apply_inv_finish base h m next sol bound tree err :
  apply_inv base (cores (arrays h)) m next → Z.of_nat (length (slice h)) ≤ bound →
  ∃ tree', finish tree (mkApplyState h m next sol) err = Applied tree' err ∧
           apply_post base bound tree'.
Proof.
  intros [_ _ _ _ Hwf Hb] Hl. eexists. split; [reflexivity|]. unfold apply_post. simpl.
  rewrite core_slice, <- wf_core, core_slice. done.
Qed.

Lemma apply_inv_load base h m next id p :
  apply_inv base (cores (arrays h)) m next → m !! id = Some p →
  ∃ n pid pp, load h p = Some n ∧ id = Z.of_nat p.2 ∧
    (sk <$> newest (cores (arrays h))) !! p.2 = Some (pid, pp, node_Depth n).
Proof.
  intros [_ Hpre Hptr _ _ _] Hp. destruct (Hptr id p Hp) as (a & x & -> & Ha & Hx).
  unfold cores in Ha. rewrite list_lookup_fmap in Ha. unfold load.
  destruct (arrays h !! p.1) as [a0|] eqn:E; simplify_eq/=. rewrite list_lookup_fmap in Hx.
  destruct (a0 !! p.2) as [n|] eqn:En; simplify_eq/=.
  exists n, (node_ID n), (node_ParentID n). split; [done|]. split; [done|].
  rewrite list_lookup_fmap. rewrite (prefix_lookup_Some (map core a0) _ _ (core n)); [done| |].
  - by rewrite list_lookup_fmap, En.
  - apply Hpre. apply list_elem_of_lookup_2 with p.1. unfold cores. by rewrite list_lookup_fmap, E.
Qed.

Lemma apply_actions_post grow tree maxNodes bound base actions h m next sol :
  apply_inv base (cores (arrays h)) m next →
  Forall (action_ok (λ id, is_Some (m !! id))) actions →
  maxNodes ≤ 200 → Z.of_nat (length (slice h)) ≤ bound ≤ 200 → maxNodes ≤ bound →
  ∃ tree' err, apply_actions grow tree maxNodes actions (mkApplyState h m next sol) = Applied tree' err ∧
    apply_post base bound tree'.
Proof.
  intros I Hok Hmax. revert h m next sol I Hok.
  induction actions as [|a rest IH]; intros h m next sol I Hok Hl Hb.
  { simpl. destruct (apply_inv_finish base h m next sol bound tree None I) as (t & -> & ?); [lia|eauto]. }
  apply Forall_cons in Hok as [[Hexp Hnode] Hrest]. simpl.
  destruct (String.eqb_spec (Action a) actionExpand) as [Ea|Ea].
  - destruct (Hexp Ea) as (pid & task & -> & -> & [p Hp]). rewrite Hp.
    assert (wrap32 (Z.of_nat (length (slice h))) = Z.of_nat (length (slice h))) as -> by (apply wrap32_small; lia).
    rewrite Z.geb_leb. destruct (Z.leb_spec maxNodes (Z.of_nat (length (slice h)))) as [Hge|Hlt].
    { match goal with |- context [finish tree _ ?e] =>
        destruct (apply_inv_finish base h m next sol bound tree e I) as (t & -> & ?); [lia|eauto] end. }
    destruct (apply_inv_load _ _ _ _ _ _ I Hp) as (parent & qid & qp & -> & -> & Hsk).
    assert (next = Z.of_nat (length (slice h))) as Hnext by (rewrite slice_length; apply I).
    pose proof (wf_skel_depth _ _ _ _ _ (inv_wf _ _ _ _ I) Hsk) as Hd.
    assert (p.2 < length (slice h))%nat as Hp2.
    { rewrite slice_length, <- (length_fmap sk). by eapply lookup_lt_Some. }
    assert (wrap32 (node_Depth parent + 1) = node_Depth parent + 1) as -> by (apply wrap32_small; lia).
    eapply IH.
    + eapply apply_inv_append; [exact I|simpl; lia|exact Hsk|done|done].
    + by apply actions_ok_insert.
    + rewrite slice_length. destruct (append_cores grow h (new_node next (Some (Z.of_nat p.2))
        (node_Depth parent + 1) task (action_ScoreMillis a))) as [_ ->].
      * intros E. apply (inv_nonempty _ _ _ _ I). by rewrite E.
      * rewrite length_app, <- slice_length. simpl. lia.
    + done.
  - destruct (String.eqb_spec (Action a) actionPrune) as [Ep|Ep];
      [|destruct (String.eqb_spec (Action a) actionConverge) as [Ec|Ec]].
    + destruct (Hnode (or_introl Ep)) as (id & -> & [p ->]).
      apply IH; [by apply apply_inv_store|done| |done].
      rewrite slice_length, store_cores, <- slice_length by done. done.
    + destruct (Hnode (or_intror Ec)) as (id & -> & [p ->]).
      apply IH; [apply apply_inv_store; [apply converge_core|done]|done| |done].
      rewrite slice_length, store_cores, <- slice_length by apply converge_core. done.
    + by apply IH.
Qed.

Lemma initial_inv capacity tree :
  wf_nodes (Nodes tree) → (length (Nodes tree) ≤ 200)%nat →
  let st := initial_state capacity tree in
  apply_inv (core <$> Nodes tree) (cores (arrays (st_heap st))) (st_nodeByID st) (st_nextID st).
Proof.
  intros Hwf Hl st.
  change (apply_inv (core <$> Nodes tree) [core <$> Nodes tree]
    ((λ i, (0%nat, i)) <$> index_nodes 0 (Nodes tree) ∅) (wrap32 (Z.of_nat (length (Nodes tree))))).
  set (base := core <$> Nodes tree).
  split; change (newest [base]) with base.
  - done.
  - by intros a ->%list_elem_of_singleton.
  - intros id p. rewrite lookup_fmap, wf_index by done. case_decide as Hid; [|done].
    intros [= <-]. simpl. destruct (lookup_lt_is_Some_2 (Nodes tree) (Z.to_nat id)) as [n Hn]; [lia|].
    exists base, (core n). split; [lia|]. split; [done|].
    subst base. by rewrite list_lookup_fmap, Hn.
  - subst base. rewrite length_fmap. apply wrap_id; [lia|]. unfold in_width, min_int, max_int.
    simpl. lia.
  - by apply wf_core.
  - exists []. by rewrite app_nil_r.
Qed.

Lemma initial_ok capacity tree actions hasEvaluator :
  wf_nodes (Nodes tree) → validateSearchActions actions tree hasEvaluator = [] →
  Forall (action_ok (λ id, is_Some (st_nodeByID (initial_state capacity tree) !! id))) actions.
Proof.
  intros Hwf Hv. eapply Forall_impl; [by eapply validateSearchActions_ok|].
  intros a [G1 G2]. simpl.
  assert (∀ id, id ∈ node_ID <$> Nodes tree →
    is_Some (((λ i, (0%nat, i)) <$> index_nodes 0 (Nodes tree) ∅ : gmap Z node_ptr) !! id)) as Hk.
  { intros id (n & -> & (i & Hi)%list_elem_of_lookup_1)%list_elem_of_fmap.
    rewrite (wf_id _ _ _ Hwf Hi), lookup_fmap, wf_index, decide_True; [by eexists|
      apply lookup_lt_Some in Hi; lia|done]. }
  split; intros Ha; [destruct (G1 Ha) as (p & t & ? & ? & ?)|destruct (G2 Ha) as (p & ? & ?)];
    eauto 10.
Qed.

(** on a well-formed tree, actions that passed validation are applied without a nil
    dereference, whatever the slice's capacity and growth; the tree stays well-formed and
    within the node limit, and the nodes it had keep their place, parent, task, output and
    task ID: only phases and scores may change. *)
Theorem applySearchActions_safe (grow : nat → nat) (capacity : nat) (tree : SearchTreeStatus)
    (actions : list SearchAction) (maxNodes : Z) (hasEvaluator : bool) :
  wf_nodes (Nodes tree) → (length (Nodes tree) ≤ 200)%nat →
  validateSearchActions actions tree hasEvaluator = [] →
  ∃ tree' err, applySearchActions grow capacity tree actions maxNodes = Applied tree' err ∧
    wf_nodes (Nodes tree') ∧
    (∃ new, core <$> Nodes tree' = (core <$> Nodes tree) ++ new ∧ Forall fresh new) ∧
    Z.of_nat (length (Nodes tree')) ≤
      Z.max (Z.of_nat (length (Nodes tree)))
        (if (maxNodes <=? 0) || (maxNodes >? maxNodesCap) then maxNodesCap else maxNodes).
Proof.
  intros Hwf Hl Hv. unfold applySearchActions.
  set (mx := if (maxNodes <=? 0) || (maxNodes >? maxNodesCap) then maxNodesCap else maxNodes).
  assert (mx ≤ 200) as Hmx.
  { subst mx. rewrite Z.gtb_ltb. unfold maxNodesCap. destruct (Z.leb_spec maxNodes 0); simpl; [lia|].
    destruct (Z.ltb_spec 200 maxNodes); lia. }
  apply (apply_actions_post grow tree mx (Z.max (Z.of_nat (length (Nodes tree))) mx)
    (core <$> Nodes tree) actions).
  - by apply initial_inv.
  - by eapply (initial_ok capacity).
  - done.
  - simpl. change (slice (mkNodeHeap [Nodes tree] capacity)) with (Nodes tree). lia.
  - lia.
Qed.

(** ** Reference semantics of the actions *)
(** One action after the other on the list of nodes, without arrays or pointers. *)
Fixpoint ref_actions (maxNodes : Z) (actions : list SearchAction) (nodes : list SearchNodeStatus)
    (sol : option Z) : list SearchNodeStatus * option Z * bool :=
  match actions with
  | [] => (nodes, sol, true)
  | a :: rest =>
      if String.eqb (Action a) actionExpand then
        if Z.of_nat (length nodes) >=? maxNodes then (nodes, sol, false)
        else
          match ParentNode a, action_Task a with
          | Some pid, Some task =>
              match nodes !! Z.to_nat pid with
              | Some parent =>
                  ref_actions maxNodes rest
                    (nodes ++ [mkSearchNodeStatus (Z.of_nat (length nodes)) (Some pid) (node_Depth parent + 1)
                                 task "" (action_ScoreMillis a) "" NodePending "" None]) sol
              | None => (nodes, sol, false)
              end
          | _, _ => (nodes, sol, false)
          end
      else
        match action_Node a with
        | Some id =>
            if String.eqb (Action a) actionPrune then
              ref_actions maxNodes rest (alter (λ n, n <| node_Phase := NodePruned |>) (Z.to_nat id) nodes) sol
            else if String.eqb (Action a) actionConverge then
              ref_actions maxNodes rest
                (alter (λ n, n <| node_Phase := NodeSolution |>
                            <| node_ScoreMillis ::= λ old, match action_ScoreMillis a with Some s => Some s | None => old end |>)
                   (Z.to_nat id) nodes) (Some id)
            else ref_actions maxNodes rest nodes sol
        | None => ref_actions maxNodes rest nodes sol
        end
  end.

(** No prune or converge comes after an expansion. *)
Fixpoint expands_last (actions : list SearchAction) : Prop :=
  match actions with
  | [] => True
  | a :: rest =>
      if String.eqb (Action a) actionExpand then Forall (λ b, Action b = actionExpand) rest else expands_last rest
  end.

(** Every known node is in the array that the slice uses now. *)
Definition current (h : node_heap) (m : gmap Z node_ptr) : Prop := ∀ id p, m !! id = Some p → p.1 = cur_gen h.

Lemma converge_reference score n :
  converge_node score n = n <| node_Phase := NodeSolution |>
    <| node_ScoreMillis ::= λ old, match score with Some s => Some s | None => old end |>.
Proof. by destruct score, n. Qed.

Lemma slice_store h p f : p.1 = cur_gen h → slice (store h p f) = alter f p.2 (slice h).
Proof.
  intros E. unfold slice, store, cur_gen in *. simpl. rewrite length_alter, E, list_lookup_alter_eq.
  by destruct (arrays h !! _).
Qed.

Lemma slice_append grow h n : arrays h ≠ [] → slice (append_node grow h n) = slice h ++ [n].
Proof.
  intros Hne. assert (0 < length (arrays h))%nat by (destruct (arrays h); simpl; [done|lia]).
  unfold append_node. set (l := slice h). case_match; unfold slice, cur_gen; simpl.
  - rewrite length_insert, list_lookup_insert_eq by lia. done.
  - rewrite length_app, Nat.add_comm. simpl. by rewrite lookup_app_r, Nat.sub_diag by lia.
Qed.

(** The code and the reference agree, on phases and scores as long as [exact] holds. *)
Definition agrees (tree : SearchTreeStatus) (r : list SearchNodeStatus * option Z * bool)
    (exact : Prop) (out : apply_out) : Prop :=
  ∃ nodes err, out = Applied (tree <| Nodes := nodes |> <| SolutionNodeID := r.1.2 |>) err ∧
    (err = None ↔ r.2 = true) ∧ core <$> nodes = core <$> r.1.1 ∧ (exact → nodes = r.1.1).

Lemma agrees_finish tree h m next nodes sol err (exact : Prop) (ok : bool) :
  (err = None ↔ ok = true) → core <$> slice h = core <$> nodes → (exact → slice h = nodes) →
  agrees tree (nodes, sol, ok) exact (finish tree (mkApplyState h m next sol) err).
Proof. intros He Hc Hx. eexists _, err. split; [reflexivity|]. done. Qed.

Lemma agrees_weaken tree r (P Q : Prop) out : (Q → P) → agrees tree r P out → agrees tree r Q out.
Proof. intros H (nodes & err & E & He & Hc & Hx). exists nodes, err. split; [done|]. split; [done|]. split; [done|]. auto. Qed.

(** Changing a node that the slice may no longer hold. *)
Lemma stored_core h p f (nodes : list SearchNodeStatus) i :
  (∀ n, core (f n) = core n) → core <$> slice h = core <$> nodes →
  core <$> slice (store h p f) = core <$> alter f i nodes.
Proof. intros Hf E. rewrite (alter_core _ _ _ Hf), <- E, !core_slice. by rewrite store_cores. Qed.

Lemma ref_loop grow tree maxNodes base actions h nodes m next sol :
  apply_inv base (cores (arrays h)) m next →
  Forall (action_ok (λ id, is_Some (m !! id))) actions →
  maxNodes ≤ 200 → (length nodes ≤ 200)%nat → core <$> slice h = core <$> nodes →
  agrees tree (ref_actions maxNodes actions nodes sol)
    (slice h = nodes ∧ (current h m ∧ expands_last actions ∨ Forall (λ b, Action b = actionExpand) actions))
    (apply_actions grow tree maxNodes actions (mkApplyState h m next sol)).
Proof.
  intros I Hok Hmax. revert h nodes m next sol I Hok.
  induction actions as [|a rest IH]; intros h nodes m next sol I Hok Hl Hc.
  { apply agrees_finish; [done|done|tauto]. }
  apply Forall_cons in Hok as [[Hexp Hnode] Hrest]. simpl.
  assert (Hlen : length (slice h) = length nodes) by (apply (f_equal length) in Hc; by rewrite !length_fmap in Hc).
  destruct (String.eqb_spec (Action a) actionExpand) as [Ea|Ea].
  - destruct (Hexp Ea) as (pid & task & HP & HT & [p Hp]). rewrite HP, HT, Hp.
    assert (wrap32 (Z.of_nat (length (slice h))) = Z.of_nat (length nodes)) as ->
      by (rewrite wrap32_small; lia).
    rewrite Z.geb_leb. destruct (Z.leb_spec maxNodes (Z.of_nat (length nodes))) as [Hge|Hlt].
    { apply agrees_finish; [done|done|tauto]. }
    destruct (apply_inv_load _ _ _ _ _ _ I Hp) as (parent & qid & qp & Hload & -> & Hsk).
    rewrite Hload, Nat2Z.id.
    pose proof Hsk as Hsk'. rewrite <- core_slice, Hc, <- list_fmap_compose, list_lookup_fmap in Hsk'.
    destruct (nodes !! p.2) as [parent'|] eqn:Ep; [|done]. simpl in Hsk'. injection Hsk' as _ _ Hd'.
    pose proof (wf_skel_depth _ _ _ _ _ (inv_wf _ _ _ _ I) Hsk) as Hd.
    assert (p.2 < length nodes)%nat as Hp2 by (by eapply lookup_lt_Some).
    assert (wrap32 (node_Depth parent + 1) = node_Depth parent' + 1) as -> by (rewrite wrap32_small; lia).
    assert (next = Z.of_nat (length nodes)) as ->.
    { rewrite (inv_next _ _ _ _ I). by rewrite <- Hlen, slice_length. }
    set (n := new_node (Z.of_nat (length nodes)) (Some (Z.of_nat p.2)) (node_Depth parent' + 1)
                task (action_ScoreMillis a)).
    assert (Hne : arrays h ≠ []) by (intros E; apply (inv_nonempty _ _ _ _ I); by rewrite E).
    eapply agrees_weaken; [|apply (IH _ (nodes ++ [n]))].
    + rewrite slice_append by done. intros [E [[_ H]|H]]; (split; [by rewrite E|right]);
        [done|by apply Forall_cons in H as [_ H]].
    + eapply apply_inv_append; [exact I|lia|exact Hsk|unfold n, sk; simpl; by rewrite Hd'|done].
    + by apply actions_ok_insert.
    + rewrite length_app. simpl. lia.
    + rewrite slice_append, !fmap_app, Hc by done. done.
  - destruct (String.eqb_spec (Action a) actionPrune) as [Ep|Ep];
      [|destruct (String.eqb_spec (Action a) actionConverge) as [Ec|Ec]].
    3: { assert (W : ∀ P : Prop, slice h = nodes ∧ (P ∧ expands_last rest ∨ Forall (λ b, Action b = actionExpand) (a :: rest)) →
           slice h = nodes ∧ (P ∧ expands_last rest ∨ Forall (λ b, Action b = actionExpand) rest)).
         { intros P [E [H|H]]; (split; [done|]); [by left|]. by apply Forall_cons in H as [? _]. }
         destruct (action_Node a); (eapply agrees_weaken; [|by apply IH]); by apply W. }
    all: assert (W : ∀ f p, (∀ id q, m !! id = Some q → q.2 = Z.to_nat id) → m !! (Z.of_nat p.2) = Some p →
           slice h = nodes ∧ (current h m ∧ expands_last rest ∨ Forall (λ b, Action b = actionExpand) (a :: rest)) →
           slice (store h p f) = alter f p.2 nodes ∧
             (current (store h p f) m ∧ expands_last rest ∨ Forall (λ b, Action b = actionExpand) rest)).
    1,3: intros f p _ Hp [E [[Hcur H]|H]]; [|by apply Forall_cons in H as [? _]];
      pose proof (Hcur _ _ Hp) as Hp1; split; [by rewrite slice_store, E|left; split; [|done]];
      intros id q Hq; unfold cur_gen, store; simpl; rewrite length_alter; by apply (Hcur id).
    + destruct (Hnode (or_introl Ep)) as (id & -> & [p Hp]). rewrite Hp.
      destruct (inv_ptr _ _ _ _ I id p Hp) as (_ & _ & Hid & _). subst id. rewrite Nat2Z.id.
      eapply agrees_weaken; [|apply IH]; [|by apply apply_inv_store|done|by rewrite length_alter|by apply stored_core].
      apply W; [|done]. intros id q Hq. destruct (inv_ptr _ _ _ _ I id q Hq) as (_ & _ & -> & _). lia.
    + destruct (Hnode (or_intror Ec)) as (id & -> & [p Hp]). rewrite Hp.
      destruct (inv_ptr _ _ _ _ I id p Hp) as (_ & _ & Hid & _). subst id. rewrite Nat2Z.id.
      set (f := converge_node (action_ScoreMillis a)).
      assert (Hf : ∀ n, core (f n) = core n) by apply converge_core.
      assert (alter (λ n, n <| node_Phase := NodeSolution |>
        <| node_ScoreMillis ::= λ old, match action_ScoreMillis a with Some s => Some s | None => old end |>) p.2 nodes =
        alter f p.2 nodes) as ->.
      { apply list_alter_ext; [|done]. intros n _. symmetry. apply converge_reference. }
      eapply agrees_weaken; [|apply IH]; [|by apply apply_inv_store|done|by rewrite length_alter|by apply stored_core].
      apply W; [|done]. intros id q Hq. destruct (inv_ptr _ _ _ _ I id q Hq) as (_ & _ & -> & _). lia.
Qed.

Lemma node_cap_bound maxNodes :
  (if (maxNodes <=? 0) || (maxNodes >? maxNodesCap) then maxNodesCap else maxNodes) ≤ 200.
Proof.
  rewrite Z.gtb_ltb. unfold maxNodesCap. destruct (Z.leb_spec maxNodes 0); simpl; [lia|].
  destruct (Z.ltb_spec 200 maxNodes); lia.
Qed.

(** C29: applying validated actions follows the reference semantics, in which each action takes
    effect on the list of nodes in turn, whatever room the slice has: the same nodes are added, the
    same solution is recorded, and the call fails exactly when an expansion meets the node limit,
    with the earlier actions applied.  The phases and scores agree too when no prune or converge
    follows an expansion; otherwise a change may go to an array that the slice has left. *)
Theorem applySearchActions_reference (grow : nat → nat) (capacity : nat) (tree : SearchTreeStatus)
    (actions : list SearchAction) (maxNodes : Z) (hasEvaluator : bool) :
  wf_nodes (Nodes tree) → (length (Nodes tree) ≤ 200)%nat →
  validateSearchActions actions tree hasEvaluator = [] →
  let limit := if (maxNodes <=? 0) || (maxNodes >? maxNodesCap) then maxNodesCap else maxNodes in
  let r := ref_actions limit actions (Nodes tree) (SolutionNodeID tree) in
  ∃ nodes err,
    applySearchActions grow capacity tree actions maxNodes =
      Applied (tree <| Nodes := nodes |> <| SolutionNodeID := r.1.2 |>) err ∧
    (err = None ↔ r.2 = true) ∧ core <$> nodes = core <$> r.1.1 ∧
    (expands_last actions → nodes = r.1.1).
Proof.
  intros Hwf Hl Hv limit r. unfold applySearchActions.
  destruct (ref_loop grow tree limit (core <$> Nodes tree) actions
    (st_heap (initial_state capacity tree)) (Nodes tree)
    (st_nodeByID (initial_state capacity tree)) (st_nextID (initial_state capacity tree)) (SolutionNodeID tree))
    as (nodes & err & E & He & Hc & Hx); [by apply initial_inv|by eapply initial_ok|apply node_cap_bound|done|done|].
  exists nodes, err. split; [exact E|]. split; [done|]. split; [done|]. intros Hlast. apply Hx. split; [done|].
  left. split; [|done]. intros id p. simpl. rewrite lookup_fmap. destruct (_ !! id); simpl; [by intros [= <-]|done].
Qed.

(** when the slice is full, as it is after decoding, an expansion moves it to a fresh
    array while the map of nodes still points into the old one: pruning a node after an
    expansion has no effect on the tree, and converging on it records the solution but
    leaves the node's phase and score as they were. *)
Theorem applySearchActions_stale (grow : nat → nat) (tree : SearchTreeStatus) (maxNodes : Z)
    (expand act : SearchAction) (id : Z) :
  wf_nodes (Nodes tree) → Z.of_nat (length (Nodes tree)) < 200 →
  Z.of_nat (length (Nodes tree)) < maxNodes →
  validateSearchActions [expand; act] tree true = [] →
  Action expand = actionExpand → action_Node act = Some id →
  Action act = actionPrune ∨ Action act = actionConverge →
  ∃ tree', applySearchActions grow (length (Nodes tree)) tree [expand; act] maxNodes = Applied tree' None ∧
    take (length (Nodes tree)) (Nodes tree') = Nodes tree ∧
    (Action act = actionConverge → SolutionNodeID tree' = Some id).
Proof.
  intros Hwf Hl Hmx Hv Hea Hid Hact. unfold applySearchActions.
  pose proof (node_cap_bound maxNodes) as Hcap.
  assert (Z.of_nat (length (Nodes tree)) < if (maxNodes <=? 0) || (maxNodes >? maxNodesCap)
    then maxNodesCap else maxNodes) as Hlt by (by case_match; unfold maxNodesCap in *; lia).
  clear Hcap. set (mx := if (_ : bool) then _ else _) in *. clearbody mx.
  pose proof (initial_ok (length (Nodes tree)) tree [expand; act] true Hwf Hv) as Hok.
  apply Forall_cons in Hok as [[Hexp _] [[_ Hnode] _]%Forall_cons].
  destruct (Hexp Hea) as (pid & task & HP & HT & [p Hp]).
  destruct (Hnode Hact) as (id' & Hid' & [q Hq]). rewrite Hid in Hid'. injection Hid' as <-.
  pose proof (initial_inv (length (Nodes tree)) tree Hwf ltac:(lia)) as I. cbv zeta in I.
  destruct (apply_inv_load _ _ _ _ _ _ I Hp) as (parent & qid & qp & Hload & _ & _).
  unfold apply_actions at 1. rewrite Hea, HP, HT, Hp, Hload. simpl String.eqb. cbv iota.
  change (slice (st_heap (initial_state (length (Nodes tree)) tree))) with (Nodes tree).
  rewrite wrap32_small by lia. rewrite Z.geb_leb.
  destruct (Z.leb_spec mx (Z.of_nat (length (Nodes tree)))); [lia|].
  set (n := new_node _ _ _ _ _).
  assert (append_node grow (st_heap (initial_state (length (Nodes tree)) tree)) n =
    mkNodeHeap [Nodes tree; Nodes tree ++ [n]] (grow (length (Nodes tree)))) as ->.
  { unfold append_node. simpl. change (slice (mkNodeHeap [Nodes tree] (length (Nodes tree)))) with (Nodes tree).
    by rewrite Nat.ltb_irrefl. }
  assert (q.1 = 0%nat ∧ id < Z.of_nat (length (Nodes tree))) as [Hq0 Hidl].
  { simpl in Hq. rewrite lookup_fmap, wf_index in Hq by done. case_decide; [|done].
    injection Hq as <-. split; [done|lia]. }
  assert (∀ f, store (mkNodeHeap [Nodes tree; Nodes tree ++ [n]] (grow (length (Nodes tree)))) q f =
    mkNodeHeap [alter f q.2 (Nodes tree); Nodes tree ++ [n]] (grow (length (Nodes tree)))) as Hst.
  { intros f. unfold store. by rewrite Hq0. }
  rewrite Hid. simpl st_nodeByID. rewrite lookup_insert_ne by (simpl; rewrite wrap32_small; lia).
  simpl in Hq. rewrite Hq. simpl st_heap. rewrite !Hst.
  destruct Hact as [Ha|Ha]; rewrite Ha; simpl String.eqb; cbv iota; eexists;
    (split; [reflexivity|]); split; try done; apply take_app_length.
Qed.

Lemma elem_of_drop_sub {A} k (l : list A) x : x ∈ drop k l → x ∈ l.
Proof. intros H. rewrite <- (take_drop k l). set_solver. Qed.

Lemma NoDup_imap_pair {A} (l : list A) : NoDup (imap (λ i x, (i, x)) l).
Proof.
  apply NoDup_alt. intros i j [a x] Hi Hj. rewrite list_lookup_imap in Hi, Hj.
  destruct (l !! i), (l !! j); simplify_eq/=. done.
Qed.

Lemma length_same_lookup {A} (l1 l2 : list A) :
  (∀ i, is_Some (l1 !! i) ↔ is_Some (l2 !! i)) → length l1 = length l2.
Proof.
  intros H. destruct (Nat.lt_trichotomy (length l1) (length l2)) as [Hlt|[|Hlt]]; [|done|].
  - apply lookup_lt_is_Some, H, lookup_lt_is_Some in Hlt. lia.
  - apply lookup_lt_is_Some, H, lookup_lt_is_Some in Hlt. lia.
Qed.

Lemma Sorted_weaken {A} (R R' : A → A → Prop) (l : list A) :
  (∀ x y, R x y → R' x y) → Sorted R l → Sorted R' l.
Proof.
  intros H. induction 1 as [|x l Hs IH Hh]; constructor; [done|].
  destruct Hh; constructor; auto.
Qed.

(** ** Beam pruning *)
Section beam_spec.
Context {sortNodes : SliceSort (nat * SearchNodeStatus)}.

Definition score_of (p : nat * SearchNodeStatus) : Z := default 0 (node_ScoreMillis p.2).

(** The entries of a depth that pruning cuts. *)
Definition cut_of (beamWidth : Z) (nodes : list SearchNodeStatus) (d : Z) : list (nat * SearchNodeStatus) :=
  if wrap32 (Z.of_nat (length (group_at nodes d))) <=? beamWidth then []
  else drop (Z.to_nat beamWidth) (sort_slice score_greater (group_at nodes d)).

Lemma elem_of_group nodes d i n :
  (i, n) ∈ group_at nodes d ↔
  nodes !! i = Some n ∧ scored_with_score n = true ∧ node_Depth n = d.
Proof.
  unfold group_at. rewrite list_elem_of_filter, elem_of_lookup_imap. simpl. split.
  - intros [[? ?] (j & x & [= -> ->] & ?)]. done.
  - intros (? & ? & ?). split; [done|]. eauto.
Qed.

Lemma foldl_prune_lookup ps (nodes : list SearchNodeStatus) i :
  foldl (λ nodes (p : nat * SearchNodeStatus), alter prune_node p.1 nodes) nodes ps !! i =
  if decide (i ∈ ps.*1) then prune_node <$> nodes !! i else nodes !! i.
Proof.
  revert nodes. induction ps as [|p ps IH]; intros nodes; csimpl; [done|].
  rewrite IH. destruct (decide (i = p.1)) as [->|Hne].
  - rewrite list_lookup_alter_eq, (decide_True (P := p.1 ∈ p.1 :: _)) by left.
    case_decide; [|done]. by destruct (nodes !! p.1).
  - rewrite list_lookup_alter_ne by done. repeat case_decide; set_solver.
Qed.

Lemma prune_depths_lookup bw orig depths (nodes : list SearchNodeStatus) i :
  foldl (prune_depth bw orig) nodes depths !! i =
  if decide (Exists (λ d, i ∈ (cut_of bw orig d).*1) depths) then prune_node <$> nodes !! i
  else nodes !! i.
Proof.
  assert (∀ ns d, prune_depth bw orig ns d !! i =
    if decide (i ∈ (cut_of bw orig d).*1) then prune_node <$> ns !! i else ns !! i) as Hd.
  { intros ns d. unfold prune_depth, cut_of. destruct (_ <=? _); [by rewrite decide_False by set_solver|].
    apply foldl_prune_lookup. }
  revert nodes. induction depths as [|d depths IH]; intros nodes.
  { rewrite decide_False by (by inversion 1). done. }
  change (foldl (prune_depth bw orig) nodes (d :: depths))
    with (foldl (prune_depth bw orig) (prune_depth bw orig nodes d) depths).
  rewrite IH, Hd. clear IH Hd.
  destruct (decide (i ∈ (cut_of bw orig d).*1)) as [H1|H1].
  - rewrite (decide_True (P := Exists _ (d :: depths))) by (by apply Exists_cons_hd).
    case_decide; [|done]. by destruct (nodes !! i).
  - destruct (decide (Exists _ depths)) as [H2|H2].
    + by rewrite decide_True by (by apply Exists_cons_tl).
    + rewrite decide_False; [done|]. by rewrite Exists_cons; intros [|].
Qed.

Lemma sorted_take_drop {L : SliceSortLaws score_greater sortNodes} l k a b :
  a ∈ take k (sort_slice score_greater l) → b ∈ drop k (sort_slice score_greater l) →
  score_of b ≤ score_of a.
Proof.
  intros Ha Hb. assert (StronglySorted (λ x y, score_of y ≤ score_of x) (sort_slice score_greater l)) as Hs.
  { apply Sorted_StronglySorted; [intros x y z; lia|].
    eapply Sorted_weaken; [|apply (sort_slice_sorted (less := score_greater))]. intros x y Hxy.
    unfold score_greater in Hxy. rewrite Z.gtb_ltb, Z.ltb_ge in Hxy. exact Hxy. }
  rewrite <- (take_drop k (sort_slice score_greater l)) in Hs.
  clear -Ha Hb Hs. generalize dependent (drop k (sort_slice score_greater l)).
  generalize dependent (take k (sort_slice score_greater l)). intros t Ha u Hb Hs.
  induction t as [|x t IH]; [set_solver|]. simpl in Hs. inversion Hs as [|? ? Hst Hall]. subst.
  apply elem_of_cons in Ha as [->|Ha]; [|by apply IH].
  rewrite Forall_forall in Hall. apply Hall. set_solver.
Qed.

Lemma cut_in_group {L : SliceSortLaws score_greater sortNodes} bw nodes d p :
  p ∈ cut_of bw nodes d → p ∈ group_at nodes d.
Proof.
  unfold cut_of. case_match; [set_solver|]. intros Hin%elem_of_drop_sub.
  by rewrite (sort_slice_perm (less := score_greater)) in Hin.
Qed.

Lemma cut_position {L : SliceSortLaws score_greater sortNodes} bw nodes i n d :
  nodes !! i = Some n → i ∈ (cut_of bw nodes d).*1 →
  (i, n) ∈ cut_of bw nodes d ∧ node_Depth n = d ∧ scored_with_score n = true.
Proof.
  intros Hi ([j m] & -> & Hin)%list_elem_of_fmap. simpl in *.
  pose proof (cut_in_group _ _ _ _ Hin) as (Hj & ? & ?)%elem_of_group. by simplify_eq.
Qed.

Lemma cut_of_drop {L : SliceSortLaws score_greater sortNodes} bw nodes d :
  0 < bw → Z.of_nat (length nodes) < 2 ^ 31 →
  cut_of bw nodes d = drop (Z.to_nat bw) (sort_slice score_greater (group_at nodes d)).
Proof.
  intros Hbw Hlen. unfold cut_of.
  assert (length (group_at nodes d) ≤ length nodes)%nat as Hgl.
  { unfold group_at. etrans; [apply length_filter|]. by rewrite length_imap. }
  rewrite wrap32_small by lia.
  destruct (Z.leb_spec (Z.of_nat (length (group_at nodes d))) bw); [|done].
  rewrite drop_ge; [done|]. rewrite (sort_slice_perm (less := score_greater)). lia.
Qed.

(** A kept position is cut at no depth. *)
Lemma kept_not_cut {L : SliceSortLaws score_greater sortNodes} bw nodes d d' i n :
  0 < bw → Z.of_nat (length nodes) < 2 ^ 31 →
  (i, n) ∈ take (Z.to_nat bw) (sort_slice score_greater (group_at nodes d)) →
  nodes !! i = Some n ∧ i ∉ (cut_of bw nodes d').*1.
Proof.
  intros Hbw Hlen Hin.
  assert ((i, n) ∈ group_at nodes d) as (Hi & _ & Hd)%elem_of_group.
  { rewrite <- (sort_slice_perm (less := score_greater)).
    rewrite <- (take_drop (Z.to_nat bw)). set_solver. }
  split; [done|]. intros Hc. destruct (cut_position _ _ _ _ _ Hi Hc) as (Hc' & Hd' & _).
  subst d'. rewrite Hd, cut_of_drop in Hc' by done.
  assert (NoDup (sort_slice score_greater (group_at nodes d))) as Hnd.
  { rewrite (sort_slice_perm (less := score_greater)). apply NoDup_filter, NoDup_imap_pair. }
  rewrite <- (take_drop (Z.to_nat bw)) in Hnd. apply NoDup_app in Hnd as (_ & Hnd & _).
  by destruct (Hnd (i, n)).
Qed.

(** beam pruning splits the scored nodes of every depth into those it keeps and those
    it cuts: it keeps as many as the beam is wide, or all, no cut node scores above a kept
    one, and nothing but the phase of the cut nodes changes. *)
Theorem beamPrune_spec {L : SliceSortLaws score_greater sortNodes} (depths : list Z)
    (tree : SearchTreeStatus) (beamWidth : Z) :
  0 < beamWidth → Z.of_nat (length (Nodes tree)) < 2 ^ 31 →
  (∀ d, d ∈ depths ↔ group_at (Nodes tree) d ≠ []) →
  let nodes' := Nodes (beamPrune depths tree beamWidth) in
  (∀ d, ∃ keep cut, keep ++ cut ≡ₚ group_at (Nodes tree) d ∧
     Z.of_nat (length keep) = Z.min beamWidth (Z.of_nat (length (group_at (Nodes tree) d))) ∧
     (∀ a b, a ∈ keep → b ∈ cut → score_of b ≤ score_of a) ∧
     (∀ i n, (i, n) ∈ keep → nodes' !! i = Some n) ∧
     (∀ i n, (i, n) ∈ cut → nodes' !! i = Some (prune_node n))) ∧
  (∀ i n, Nodes tree !! i = Some n → scored_with_score n = false → nodes' !! i = Some n) ∧
  length nodes' = length (Nodes tree).
Proof.
  intros Hbw Hlen Hdep nodes'. set (nodes := Nodes tree) in *.
  assert (∀ i, nodes' !! i = if decide (Exists (λ d, i ∈ (cut_of beamWidth nodes d).*1) depths)
    then prune_node <$> nodes !! i else nodes !! i) as Hl.
  { intros i. subst nodes'. unfold beamPrune. destruct (Z.leb_spec beamWidth 0); [lia|].
    apply prune_depths_lookup. }
  split; [|split].
  - intros d. exists (take (Z.to_nat beamWidth) (sort_slice score_greater (group_at nodes d))),
      (drop (Z.to_nat beamWidth) (sort_slice score_greater (group_at nodes d))).
    split; [by rewrite take_drop, (sort_slice_perm (less := score_greater))|].
    split; [rewrite length_take, (sort_slice_perm (less := score_greater)); lia|].
    split; [intros a b; apply sorted_take_drop|]. split; intros i n Hin; rewrite Hl.
    + destruct (kept_not_cut _ _ _ 0 _ _ Hbw Hlen Hin) as [Hi _].
      rewrite decide_False; [done|]. intros (d' & _ & Hc)%Exists_exists.
      by destruct (kept_not_cut _ _ _ d' _ _ Hbw Hlen Hin) as [_ []].
    + rewrite <- cut_of_drop in Hin by done.
      pose proof (cut_in_group _ _ _ _ Hin) as Hg. apply elem_of_group in Hg as Hg'.
      destruct Hg' as (Hi & _ & _). rewrite decide_True; [by rewrite Hi|].
      apply Exists_exists. exists d. split; [apply Hdep; intros E; rewrite E in Hg; set_solver|].
      apply list_elem_of_fmap. by exists (i, n).
  - intros i n Hi Hs. rewrite Hl, decide_False; [done|]. intros (d & _ & Hc)%Exists_exists.
    destruct (cut_position _ _ _ _ _ Hi Hc) as (_ & _ & ?). congruence.
  - apply (length_same_lookup nodes' nodes). intros i. rewrite Hl. case_decide; [|done].
    by rewrite fmap_is_Some.
Qed.
End beam_spec.
