(* ===== verification/SearchRun.v ===== *)
(** * SearchRun: the reconciler of a search-mode run
    (internal/controller/swarmrun_search.go, reconcileSearchRun and its helpers).

    One call of the reconciler as a function of the stored run and of what the outside
    world answers during the call: the clock, the queue polls and submissions, the
    decoding of the planner's and the evaluator's answers, and whether the status update
    succeeds.  Metrics, audit events, notifications and the cancellation of queued tasks
    have no effect on the run and are left out. *)
From Stdlib Require Import ZArith Lia Ascii.
From stdpp Require Import base tactics option list strings gmap sets.
From S2P Require Import Prelude GoStd Types Queue Kube Dag Template RunState Search.

Record SearchNodeScore := mkSearchNodeScore {
  score_ScoreMillis : Z;
  Reasoning : string;
  ShouldPrune : bool }.

(** The typed JSON conversions of the reconciler. *)
Class SearchJson := {
  marshal_frontier : frontierContext → result string string;
  unmarshal_actions : string → result string (list SearchAction);
  unmarshal_score : string → result string SearchNodeScore }.

(** What the outside world answers during one call. *)
Record search_env := mkSearchEnv {
  env_now : Z;
  executor_results : list string → result string (list TaskResult);
  evaluator_results : list string → result string (list TaskResult);
  submit_executor : SearchNodeStatus → result string string;
  submit_planner : string → result string string;
  planner_results : string → result string (list TaskResult);
  tree_capacity : nat;
  map_order : list Z;
  update_ok : bool }.

(** ** Collecting results *)
(** The nodes waiting under a task ID, as positions; the last one wins. *)
Definition waiting (wait : SearchNodeStatus → bool) (nodes : list SearchNodeStatus)
    : gmap string nat :=
  foldl (λ m p, if wait p.2 then <[node_TaskID p.2 := p.1]> m else m) ∅
    (imap (λ i n, (i, n)) nodes).

Definition executor_waits (n : SearchNodeStatus) : bool :=
  bool_decide (node_Phase n = NodeRunning) && negb (String.eqb (node_TaskID n) "").

Definition evaluator_waits (n : SearchNodeStatus) : bool :=
  negb (String.eqb (node_Output n) "") && bool_decide (node_ScoreMillis n = None) &&
  negb (String.eqb (node_TaskID n) "") && bool_decide (node_Phase n = NodeScored).

Definition task_ids (wait : SearchNodeStatus → bool) (nodes : list SearchNodeStatus)
    : list string := node_TaskID <$> filter (λ n, wait n = true) nodes.

Definition executor_result (res : TaskResult) (n : SearchNodeStatus) : SearchNodeStatus :=
  if decide (res_Error res ≠ "") then
    n <| node_Phase := NodeEvalFailed |> <| node_Output := res_Error res |> <| node_TaskID := "" |>
  else
    let n := n <| node_Output := res_Output res |> <| node_TaskID := "" |> in
    let u := res_Usage res in
    let n :=
      if (InputTokens u >? 0) || (OutputTokens u >? 0) then
        n <| node_TokenUsage := Some (mkTokenUsage (InputTokens u) (OutputTokens u)
               (ThinkingTokens u)
               (wrap64 (wrap64 (InputTokens u + OutputTokens u) + ThinkingTokens u)) "") |>
      else n in
    n <| node_Phase := NodeScored |>.

(** The results, written through the map of waiting nodes. *)
Definition write_results (f : TaskResult → SearchNodeStatus → SearchNodeStatus)
    (taskToNode : gmap string nat) (results : list TaskResult) (nodes : list SearchNodeStatus)
    : list SearchNodeStatus :=
  foldl (λ nodes res,
    match taskToNode !! res_TaskID res with
    | Some i => alter (f res) i nodes
    | None => nodes
    end) nodes results.

Definition collect (wait : SearchNodeStatus → bool) (poll : list string → result string (list TaskResult))
    (f : TaskResult → SearchNodeStatus → SearchNodeStatus) (tree : SearchTreeStatus)
    : SearchTreeStatus :=
  match task_ids wait (Nodes tree) with
  | [] => tree
  | ids =>
      match poll ids with
      | Err _ => tree
      | Ok results => tree <| Nodes ::= write_results f (waiting wait (Nodes tree)) results |>
      end
  end.

Definition collectSearchExecutorResults (env : search_env) (tree : SearchTreeStatus)
    : SearchTreeStatus :=
  collect executor_waits (executor_results env) executor_result tree.

(** ** Submitting *)
(** The loop over the nodes: the nodes as they are left, and the error if a submission
    fails. *)
Fixpoint submit_loop (submit : SearchNodeStatus → result string string) (maxParallel running : Z)
    (nodes : list SearchNodeStatus) : list SearchNodeStatus * option string :=
  match nodes with
  | [] => ([], None)
  | n :: rest =>
      if running >=? maxParallel then (nodes, None)
      else if negb (bool_decide (node_Phase n = NodePending)) then
        let '(rest', err) := submit_loop submit maxParallel running rest in (n :: rest', err)
      else
        match submit n with
        | Err e => (nodes, Some ("submitting executor task for node " +:+ itoa (node_ID n) +:+ ": " +:+ e))
        | Ok taskID =>
            let n := n <| node_Phase := NodeRunning |> <| node_TaskID := taskID |> in
            let '(rest', err) := submit_loop submit maxParallel (wrap32 (running + 1)) rest in
            (n :: rest', err)
        end
  end.

Definition running_count (nodes : list SearchNodeStatus) : Z :=
  foldl (λ r n, if bool_decide (node_Phase n = NodeRunning) then wrap32 (r + 1) else r) 0 nodes.

Definition submitSearchNodes (env : search_env) (search : SwarmTeamSearchSpec)
    (tree : SearchTreeStatus) : SearchTreeStatus * option string :=
  let maxParallel := if MaxParallel search <=? 0 then 3 else MaxParallel search in
  let '(nodes, err) := submit_loop (submit_executor env) maxParallel
                         (running_count (Nodes tree)) (Nodes tree) in
  (tree <| Nodes := nodes |>, err).

(** ** Finalisation *)
Definition reason_string (r : SearchTerminationReason) : string :=
  match r with
  | MinScoreReached => "MinScoreReached" | MaxDepthReached => "MaxDepthReached"
  | MaxNodesReached => "MaxNodesReached" | MaxIterationsReached => "MaxIterationsReached"
  | BudgetExhausted => "BudgetExhausted" | PlannerConverged => "PlannerConverged"
  | PlannerFailure => "PlannerFailure" | SearchCancelled => "SearchCancelled"
  end.

(** The first node with the highest score. *)
Definition best_node (nodes : list SearchNodeStatus) : option SearchNodeStatus :=
  foldl (λ best n,
    match node_ScoreMillis n with
    | None => best
    | Some s => match best with
                | None => Some n
                | Some b => if s >? default 0 (node_ScoreMillis b) then Some n else best
                end
    end) None nodes.

Definition find_node (id : Z) (nodes : list SearchNodeStatus) : option SearchNodeStatus :=
  List.find (λ n, node_ID n =? id) nodes.

Definition chosen_node (tree : SearchTreeStatus) : option SearchNodeStatus :=
  match SolutionNodeID tree with
  | Some id => find_node id (Nodes tree)
  | None => best_node (Nodes tree)
  end.

Definition usage_add (acc : TokenUsage) (n : SearchNodeStatus) : TokenUsage :=
  match node_TokenUsage n with
  | None => acc
  | Some u => mkTokenUsage (wrap64 (InputTokens acc + InputTokens u))
                (wrap64 (OutputTokens acc + OutputTokens u))
                (wrap64 (ThinkingTokens acc + ThinkingTokens u))
                (wrap64 (TotalTokens acc + TotalTokens u)) ""
  end.

Section search_run.
Context {jsonApi : JsonApi} {templateApi : TemplateApi} {floatText : FloatText}
        {conditionApi : ConditionApi} {searchJson : SearchJson}
        {sortNodes : SliceSort (nat * SearchNodeStatus)} (growslice : nat → nat).

Definition evaluator_result (res : TaskResult) (n : SearchNodeStatus) : SearchNodeStatus :=
  let n := n <| node_TaskID := "" |> in
  if decide (res_Error res ≠ "") then
    n <| node_Phase := NodeEvalFailed |> <| node_ScoreReasoning := res_Error res |>
  else
    match unmarshal_score (res_Output res) with
    | Err e => n <| node_Phase := NodeEvalFailed |>
                 <| node_ScoreReasoning := "evaluator output parse error: " +:+ e |>
    | Ok score => n <| node_ScoreMillis := Some (score_ScoreMillis score) |>
                    <| node_ScoreReasoning := Reasoning score |> <| node_Phase := NodeScored |>
    end.

Definition collectSearchEvaluatorResults (env : search_env) (tree : SearchTreeStatus)
    : SearchTreeStatus :=
  collect evaluator_waits (evaluator_results env) evaluator_result tree.

(** [None] when [buildPathFromRoot] does not return. *)
Definition invokePlanner (env : search_env) (search : SwarmTeamSearchSpec)
    (tree : SearchTreeStatus) : option (result string (list SearchAction)) :=
  match buildFrontierContext tree search with
  | None => None
  | Some fc => Some (
      match marshal_frontier fc with
      | Err e => Err ("building frontier context: " +:+ e)
      | Ok frontierJSON =>
          match submit_planner env frontierJSON with
          | Err e => Err ("submitting planner task: " +:+ e)
          | Ok taskID =>
              match planner_results env taskID with
              | Err e => Err ("polling planner result: " +:+ e)
              | Ok [] => Ok []
              | Ok (res :: _) =>
                  if decide (res_Error res ≠ "") then Err ("planner error: " +:+ res_Error res)
                  else match unmarshal_actions (res_Output res) with
                       | Err e => Err ("parsing planner output: " +:+ e)
                       | Ok actions => Ok actions
                       end
              end
          end
      end)
  end.

Definition set_tree (run : SwarmRun) (tree : SearchTreeStatus) : SwarmRun :=
  set_status run ((Status run) <| SearchTree := Some tree |>).

Definition set_observed (run : SwarmRun) : SwarmRun :=
  set_status run ((Status run) <| ObservedGeneration := Generation run |>).

Definition finalizeSearchRun (now : Z) (run : SwarmRun) (tree : SearchTreeStatus) : SwarmRun :=
  let run := set_tree run tree in
  let run := set_completion run now in
  let run := match chosen_node tree with
             | Some n => set_output run (node_Output n)
             | None => run
             end in
  let reason := TerminationReason tree in
  let run :=
    if decide (reason = Some PlannerFailure) then
      SetRunCondition (set_phase run RunFailed) ConditionFalse "SearchFailed"
        ("search terminated: " +:+ reason_string PlannerFailure)
    else
      SetRunCondition (set_phase run RunSucceeded) ConditionTrue "Succeeded"
        ("search converged: " +:+ match reason with Some r => reason_string r | None => "unknown" end)
  in
  let total := foldl usage_add (mkTokenUsage 0 0 0 0 "") (Nodes tree) in
  if TotalTokens total >? 0 then
    set_status run ((Status run) <| TotalTokenUsage := Some total |>)
  else run.

(** ** One call of the reconciler *)
(** The run as the API server stores it afterwards; [None] when the call does not return. *)
Definition persist (env : search_env) (stored run : SwarmRun) : option SwarmRun :=
  Some (if update_ok env then set_observed run else stored).

Definition terminate (env : search_env) (stored run : SwarmRun) (tree : SearchTreeStatus)
    (reason : SearchTerminationReason) : option SwarmRun :=
  persist env stored (finalizeSearchRun (env_now env) run (tree <| TerminationReason := Some reason |>)).

(** Steps 1 and 2: the tree, and the Running phase. *)
Definition start_search (now : Z) (search : SwarmTeamSearchSpec) (run : SwarmRun)
    : SwarmRun * SearchTreeStatus :=
  let tree :=
    match SearchTree (Status run) with
    | Some tree => tree
    | None =>
        let rootPrompt := InitialPrompt search in
        initSearchTree (
          if decide (size (Input (Spec run)) = 0%nat) then rootPrompt
          else match ResolveTemplate rootPrompt (AMap [("input", any_of_strings (Input (Spec run)))]) with
               | Ok resolved => resolved
               | Err _ => rootPrompt
               end)
    end in
  let run := set_tree run tree in
  let run := if decide (Phase (Status run) = RunUnset ∨ Phase (Status run) = RunPending)
             then start_run now run else run in
  (run, tree).

(** Steps 9 to 13, when no executor is running. *)
Definition plan_iteration (env : search_env) (stored run : SwarmRun)
    (search : SwarmTeamSearchSpec) (tree : SearchTreeStatus) : option SwarmRun :=
  match invokePlanner env search tree with
  | None => None
  | Some (Err _) => terminate env stored run tree PlannerFailure
  | Some (Ok actions) =>
      let hasEvaluator := bool_decide (is_Some (EvaluatorRole search)) in
      match validateSearchActions actions tree hasEvaluator with
      | _ :: _ => terminate env stored run tree PlannerFailure
      | [] =>
          match applySearchActions growslice (tree_capacity env) tree actions
                  (default_max_nodes search) with
          | ApplyPanic => None
          | Applied tree _ =>
              match checkConvergence tree search with
              | Some reason => terminate env stored run tree reason
              | None =>
                  let tree := tree <| Nodes ::= λ l, truncateNodeOutput l
                                (default 4096 (MaxOutputBytes search)) |> in
                  let '(tree, err) := submitSearchNodes env search tree in
                  match err with
                  | Some _ => Some stored
                  | None =>
                      let tree := tree <| tree_Iterations ::= λ i, wrap32 (i + 1) |>
                                       <| LastPlannerIteration := Some (env_now env) |> in
                      persist env stored (set_tree run tree)
                  end
              end
          end
      end
  end.

Definition reconcileSearchRun (env : search_env) (search : SwarmTeamSearchSpec)
    (stored : SwarmRun) : option SwarmRun :=
  let '(run, tree) := start_search (env_now env) search stored in
  let '(fired, run) := EnforceRunTimeout run (env_now env) in
  if fired then
    persist env stored (SetRunCondition run ConditionFalse "Timeout"
      ("run exceeded timeout of " +:+ itoa (TimeoutSeconds (Spec run)) +:+ "s"))
  else
    let tree := collectSearchExecutorResults env tree in
    let tree := match EvaluatorRole search with
                | Some _ => collectSearchEvaluatorResults env tree
                | None => tree
                end in
    let tree :=
      match search_Strategy search with
      | SearchStrategyBeamSearch =>
          beamPrune (map_order env) tree (if BeamWidth search <=? 0 then defaultBeamWidth else BeamWidth search)
      | SearchStrategyBFS => tree
      end in
    match checkConvergence tree search with
    | Some reason => terminate env stored run tree reason
    | None =>
        let '(tree, err) := submitSearchNodes env search tree in
        match err with
        | Some _ => Some stored
        | None =>
            if hasRunningNodes tree then persist env stored (set_tree run tree)
            else plan_iteration env stored run search tree
        end
    end.
End search_run.
