(* ===== verification/SearchInv.v ===== *)
(** * SearchInv: invariants of a search run over all its reconciliations.

    Whatever the queues, the planner and the evaluator answer, every call of the
    reconciler returns, and the stored tree stays well-formed, within 200 nodes, with
    task IDs on running nodes only. *)
From Stdlib Require Import ZArith Lia Ascii.
From stdpp Require Import base tactics option list strings gmap sets sorting.
From S2P Require Import Prelude GoStd Types Queue Kube Dag Template RunState Search SearchProps SearchRun.

(** A task ID marks a running node. *)
Definition idle_or_running (n : SearchNodeStatus) : Prop :=
  node_TaskID n = "" ∨ node_Phase n = NodeRunning.

Record tree_inv (tree : SearchTreeStatus) : Prop := {
  ti_wf : wf_nodes (Nodes tree);
  ti_size : (length (Nodes tree) ≤ 200)%nat;
  ti_tasks : Forall idle_or_running (Nodes tree) }.

(** ** Operations that keep the shape of the tree *)
(** Same IDs, parents and depths, and no node loses the task invariant. *)
Definition shape_step (nodes nodes' : list SearchNodeStatus) : Prop :=
  Forall2 (λ n n', sk n' = sk n ∧ (idle_or_running n → idle_or_running n')) nodes nodes'.

Lemma shape_step_inv tree tree' :
  tree_inv tree → shape_step (Nodes tree) (Nodes tree') → tree_inv tree'.
Proof.
  intros [Hwf Hl Ht] Hs. split.
  - unfold wf_nodes. assert (sk <$> Nodes tree' = sk <$> Nodes tree) as ->; [|done].
    clear -Hs. induction Hs as [|n n' l l' [E _] _ IH]; [done|]. csimpl. by rewrite E, IH.
  - by rewrite <- (Forall2_length _ _ _ Hs).
  - clear -Ht Hs. induction Hs as [|n n' l l' [_ E] _ IH]; [done|].
    inversion Ht; subst. constructor; auto.
Qed.

#[export] Instance shape_step_refl : Reflexive shape_step.
Proof. intros l. induction l; constructor; auto. Qed.

#[export] Instance shape_step_trans : Transitive shape_step.
Proof.
  intros l1 l2 l3 H. revert l3. induction H as [|n n' l l' [E1 E2] _ IH]; intros l3 H3.
  - by inversion H3.
  - inversion H3 as [|? n'' ? l'' [E3 E4]]; subst. constructor; [|by apply IH].
    split; [by rewrite E3|auto].
Qed.

Lemma shape_step_alter f i nodes :
  (∀ n, nodes !! i = Some n → sk (f n) = sk n ∧ (idle_or_running n → idle_or_running (f n))) →
  shape_step nodes (alter f i nodes).
Proof.
  intros Hf. unfold shape_step. apply Forall2_alter_r; [apply shape_step_refl|].
  intros x y Hx Hy [_ _]. rewrite Hx in Hy. simplify_eq. by apply Hf.
Qed.

Lemma shape_step_map f nodes :
  (∀ n, sk (f n) = sk n ∧ (idle_or_running n → idle_or_running (f n))) →
  shape_step nodes (f <$> nodes).
Proof.
  intros Hf. unfold shape_step. apply Forall2_fmap_r, Forall_Forall2_diag.
  apply Forall_true. done.
Qed.

Lemma truncate_shape nodes b : shape_step nodes (truncateNodeOutput nodes b).
Proof. unfold truncateNodeOutput. case_match; [done|]. by apply shape_step_map. Qed.

Lemma write_results_shape f m results nodes :
  (∀ res n, sk (f res n) = sk n ∧ idle_or_running (f res n)) →
  shape_step nodes (write_results f m results nodes).
Proof.
  intros Hf. unfold write_results. revert nodes.
  induction results as [|res rest IH]; intros nodes; [done|]. simpl.
  etrans; [|apply IH]. case_match; [|done]. apply shape_step_alter.
  intros n' _. destruct (Hf res n'). auto.
Qed.

Lemma executor_result_shape res n :
  sk (executor_result res n) = sk n ∧ idle_or_running (executor_result res n).
Proof.
  unfold executor_result, idle_or_running. case_decide; [by split; [|left]|].
  case_match; by split; [|left].
Qed.

Lemma collect_shape wait poll f tree :
  (∀ res n, sk (f res n) = sk n ∧ idle_or_running (f res n)) →
  shape_step (Nodes tree) (Nodes (collect wait poll f tree)).
Proof.
  intros Hf. unfold collect. case_match; [done|]. case_match; [|done].
  simpl. by apply write_results_shape.
Qed.

Lemma submit_loop_shape submit mp r nodes : shape_step nodes (submit_loop submit mp r nodes).1.
Proof.
  revert r. induction nodes as [|n rest IH]; intros r; simpl; [done|].
  case_match; [done|]. case_match.
  - specialize (IH r). destruct (submit_loop submit mp r rest). simpl in *. by constructor.
  - case_match; [|done]. specialize (IH (wrap32 (r + 1))).
    destruct (submit_loop submit mp _ rest). simpl in *. constructor; [|done].
    split; [done|]. intros _. by right.
Qed.

Lemma submit_shape env search tree :
  shape_step (Nodes tree) (Nodes (submitSearchNodes env search tree).1).
Proof.
  unfold submitSearchNodes. pose proof (submit_loop_shape (submit_executor env)
    (if MaxParallel search <=? 0 then 3 else MaxParallel search) (running_count (Nodes tree)) (Nodes tree)) as H.
  destruct (submit_loop _ _ _ _). done.
Qed.

(** The executor's results leave no scored node with a task, so there is never an
    evaluator task to poll. *)
Lemma no_evaluator_task nodes :
  Forall idle_or_running nodes → task_ids evaluator_waits nodes = [].
Proof.
  intros H. unfold task_ids. induction H as [|n l Hn _ IH]; [done|].
  rewrite filter_cons, decide_False; [done|]. unfold evaluator_waits, idle_or_running in *.
  destruct Hn as [->|Hp]; [by rewrite !andb_false_r|].
  rewrite (bool_decide_eq_false_2 (node_Phase n = NodeScored)) by (by rewrite Hp).
  by rewrite andb_false_r.
Qed.

Section inv.
Context {jsonApi : JsonApi} {templateApi : TemplateApi} {floatText : FloatText}
        {conditionApi : ConditionApi} {searchJson : SearchJson}
        {sortNodes : SliceSort (nat * SearchNodeStatus)} (growslice : nat → nat).

(** The states a run goes through: created without a tree, then reconciled. *)
Inductive search_reach (search : SwarmTeamSearchSpec) : SwarmRun → Prop :=
| reach_new run : SearchTree (Status run) = None → search_reach search run
| reach_reconcile env run run' :
    search_reach search run → reconcileSearchRun growslice env search run = Some run' →
    search_reach search run'.

Lemma evaluator_collect_id env tree :
  Forall idle_or_running (Nodes tree) → collectSearchEvaluatorResults env tree = tree.
Proof.
  intros H. unfold collectSearchEvaluatorResults, collect. by rewrite no_evaluator_task.
Qed.

Lemma beam_shape {L : SliceSortLaws score_greater sortNodes} depths tree bw :
  shape_step (Nodes tree) (Nodes (beamPrune depths tree bw)).
Proof.
  unfold beamPrune. case_match; [done|]. simpl. apply Forall2_same_length_lookup.
  split.
  - apply length_same_lookup. intros i. rewrite prune_depths_lookup. case_decide; [|done].
    by rewrite fmap_is_Some.
  - intros i n n' Hn Hn'. rewrite prune_depths_lookup, Hn in Hn'.
    case_decide as Hc; simplify_eq/=; [|done]. split; [done|].
    apply Exists_exists in Hc as (d & _ & Hc).
    destruct (cut_position _ _ _ _ _ Hn Hc) as (_ & _ & Hs).
    unfold scored_with_score in Hs. apply andb_true_iff in Hs as [Hs%bool_decide_eq_true _].
    intros [Hid|Hr]; [by left|congruence].
Qed.
End inv.

(** ** One call preserves the invariant *)
Section reach.
Context {jsonApi : JsonApi} {templateApi : TemplateApi} {floatText : FloatText}
        {conditionApi : ConditionApi} {searchJson : SearchJson}
        {sortNodes : SliceSort (nat * SearchNodeStatus)} {L : SliceSortLaws score_greater sortNodes}
        (growslice : nat → nat).

Definition run_inv (run : SwarmRun) : Prop :=
  ∀ tree, SearchTree (Status run) = Some tree → tree_inv tree.

Definition returns_ok (r : option SwarmRun) : Prop := ∃ run, r = Some run ∧ run_inv run.

Lemma run_inv_tree run tree : SearchTree (Status run) = Some tree → tree_inv tree → run_inv run.
Proof. intros E H t Ht. by simplify_eq. Qed.

Lemma persist_ok env stored run : run_inv stored → run_inv run → returns_ok (persist env stored run).
Proof. intros H1 H2. unfold persist. eexists. split; [reflexivity|]. by case_match. Qed.

Lemma finalize_tree now run tree : SearchTree (Status (finalizeSearchRun now run tree)) = Some tree.
Proof. unfold finalizeSearchRun. repeat case_match; done. Qed.

Lemma terminate_ok env stored run tree reason :
  run_inv stored → tree_inv tree → returns_ok (terminate env stored run tree reason).
Proof.
  intros H1 H2. apply persist_ok; [done|]. eapply run_inv_tree; [apply finalize_tree|].
  by destruct H2; split.
Qed.

Lemma frontier_total tree search :
  wf_nodes (Nodes tree) → is_Some (buildFrontierContext tree search).
Proof.
  intros Hwf. unfold buildFrontierContext.
  assert (∀ l acc, (∀ n, n ∈ l → n ∈ Nodes tree) → is_Some acc →
    is_Some (foldl (classify (Nodes tree) (index_nodes 0 (Nodes tree) ∅)) acc l)) as H.
  { induction l as [|n l IH]; intros acc Hl Ha; [done|]. simpl.
    apply IH; [set_solver|]. destruct Ha as [[[s f] e] ->]. unfold classify.
    assert (n ∈ Nodes tree) as (i & Hi)%list_elem_of_lookup_1 by (apply Hl; left).
    destruct (buildPathFromRoot_correct _ _ _ Hwf Hi) as (l' & E & _).
    destruct (node_Phase n); rewrite ?E; eauto. }
  destruct (H (Nodes tree) (Some ([], [], []))) as [[[s f] e] ->]; eauto.
Qed.

Lemma no_running_no_task tree :
  Forall idle_or_running (Nodes tree) → hasRunningNodes tree = false →
  Forall (λ n, node_TaskID n = "") (Nodes tree).
Proof.
  unfold hasRunningNodes. rewrite !Forall_forall. intros H Hr n Hin.
  destruct (H n Hin) as [|Hp]; [done|]. exfalso.
  apply not_true_iff_false in Hr. destruct Hr. apply existsb_exists. exists n.
  split; [by apply list_elem_of_In|by apply bool_decide_eq_true].
Qed.

Lemma apply_result_inv tree tree' new :
  Forall (λ n, node_TaskID n = "") (Nodes tree) →
  core <$> Nodes tree' = (core <$> Nodes tree) ++ new → Forall fresh new →
  Forall idle_or_running (Nodes tree').
Proof.
  intros Ht Hc Hf. apply Forall_forall. intros n Hin. left.
  assert (core n ∈ (core <$> Nodes tree) ++ new) as Hin' by (rewrite <- Hc; by apply list_elem_of_fmap_2).
  change (node_TaskID (core n) = ""). apply elem_of_app in Hin' as [Hin'|Hin'].
  - apply list_elem_of_fmap in Hin' as (m & -> & Hm). rewrite Forall_forall in Ht. by apply (Ht m).
  - rewrite Forall_forall in Hf. by apply Hf.
Qed.

Lemma plan_iteration_ok env stored run search tree :
  run_inv stored → tree_inv tree → hasRunningNodes tree = false →
  returns_ok (plan_iteration growslice env stored run search tree).
Proof.
  intros Hst Hti Hr. unfold plan_iteration, invokePlanner.
  destruct (frontier_total tree search (ti_wf _ Hti)) as [fc ->].
  match goal with |- context [match ?r with Ok a => _ | Err _ => _ end] =>
    lazymatch r with context [marshal_frontier] => destruct r as [actions|e] end end.
  2: by apply terminate_ok.
  destruct (validateSearchActions _ _ _) eqn:Hv; [|by apply terminate_ok].
  destruct (applySearchActions_safe growslice (tree_capacity env) tree actions (default_max_nodes search) _
    (ti_wf _ Hti) (ti_size _ Hti) Hv) as (tree' & err & -> & Hwf & (new & Hc & Hf) & Hlen).
  assert (tree_inv tree') as Hti'.
  { split; [done| |].
    - pose proof (node_cap_bound (default_max_nodes search)). pose proof (ti_size _ Hti). lia.
    - eapply apply_result_inv; [|done..]. apply no_running_no_task; [apply Hti|done]. }
  clear Hwf Hc Hf Hlen. destruct (checkConvergence tree' search); [by apply terminate_ok|].
  set (tree2 := tree' <| Nodes ::= _ |>).
  assert (tree_inv tree2) as Hti2.
  { eapply shape_step_inv; [exact Hti'|]. apply truncate_shape. }
  pose proof (submit_shape env search tree2) as Hs.
  destruct (submitSearchNodes env search tree2) as [tree3 err3]. simpl in Hs.
  pose proof (shape_step_inv _ _ Hti2 Hs) as Hti3.
  destruct err3; [by exists stored|]. apply persist_ok; [done|].
  eapply run_inv_tree; [reflexivity|]. by destruct Hti3; split.
Qed.

Lemma init_tree_inv prompt : tree_inv (initSearchTree prompt).
Proof.
  split; simpl; [|lia|repeat constructor; done].
  intros i id parent depth Hi. apply list_lookup_singleton_Some in Hi as [-> [= <- <- <-]]. done.
Qed.

Lemma start_search_ok now search run :
  run_inv run →
  let '(run', tree) := start_search now search run in
  SearchTree (Status run') = Some tree ∧ tree_inv tree.
Proof.
  intros H. unfold start_search. split; [by case_decide|].
  destruct (SearchTree (Status run)) as [tree|] eqn:E; [by apply H|]. apply init_tree_inv.
Qed.

Lemma timeout_tree run now :
  SearchTree (Status (EnforceRunTimeout run now).2) = SearchTree (Status run).
Proof. unfold EnforceRunTimeout. by repeat case_match. Qed.

Lemma reconcile_ok env search run :
  run_inv run → returns_ok (reconcileSearchRun growslice env search run).
Proof.
  intros Hrun. unfold reconcileSearchRun.
  pose proof (start_search_ok (env_now env) search run Hrun) as Hs.
  destruct (start_search (env_now env) search run) as [run1 tree]. destruct Hs as [Et Hti].
  pose proof (timeout_tree run1 (env_now env)) as Htt.
  destruct (EnforceRunTimeout run1 (env_now env)) as [fired run2]. simpl in Htt. rewrite Et in Htt.
  destruct fired.
  { apply persist_ok; [done|]. by eapply run_inv_tree. }
  set (tree1 := collectSearchExecutorResults env tree).
  assert (tree_inv tree1) as H1.
  { eapply shape_step_inv; [exact Hti|]. apply collect_shape, executor_result_shape. }
  set (tree2 := match EvaluatorRole search with Some _ => _ | None => _ end).
  assert (tree2 = tree1) as ->.
  { subst tree2. destruct (EvaluatorRole search); [|done].
    apply evaluator_collect_id, H1. }
  set (tree3 := match search_Strategy search with SearchStrategyBFS => _ | _ => _ end).
  assert (tree_inv tree3) as H3.
  { subst tree3. destruct (search_Strategy search); [done|].
    eapply shape_step_inv; [exact H1|]. apply beam_shape. }
  clearbody tree3. destruct (checkConvergence tree3 search); [by apply terminate_ok|].
  pose proof (submit_shape env search tree3) as Hs.
  destruct (submitSearchNodes env search tree3) as [tree4 err]. simpl in Hs.
  pose proof (shape_step_inv _ _ H3 Hs) as H4. destruct err; [by exists run|].
  destruct (hasRunningNodes tree4) eqn:Hr; [|by apply plan_iteration_ok].
  apply persist_ok; [done|]. by eapply run_inv_tree.
Qed.

Lemma search_reach_inv search run : search_reach growslice search run → run_inv run.
Proof.
  induction 1 as [run E|env run run' _ IH E]; [by intros tree; rewrite E|].
  destruct (reconcile_ok env search run IH) as (r & E' & Hr). rewrite E in E'. by simplify_eq.
Qed.

(** C1: in every reachable state of a search run, under any answers of the queues, the
    planner and the evaluator, the tree is well-formed (IDs are positions, parents precede
    children, depths add up), holds at most 200 nodes, and only running nodes carry a
    task; and the next call of the reconciler always returns. *)
Theorem search_invariant (search : SwarmTeamSearchSpec) (run : SwarmRun) :
  search_reach growslice search run →
  (∀ tree, SearchTree (Status run) = Some tree →
     wf_nodes (Nodes tree) ∧ (length (Nodes tree) ≤ 200)%nat ∧
     ∀ n, n ∈ Nodes tree → node_TaskID n ≠ "" → node_Phase n = NodeRunning) ∧
  ∀ env, is_Some (reconcileSearchRun growslice env search run).
Proof.
  intros Hr. pose proof (search_reach_inv search run Hr) as Hi. split.
  - intros tree Ht. destruct (Hi tree Ht) as [Hwf Hl Hf]. split; [done|]. split; [done|].
    intros n Hn Hid. rewrite Forall_forall in Hf. by destruct (Hf n Hn).
  - intros env. destruct (reconcile_ok env search run Hi) as (r & -> & _). by eexists.
Qed.

(** an evaluator is never heard: nothing submits a node to the evaluator's queue, so
    in every reachable state no node waits for the evaluator and collecting its results
    never changes the tree, whatever the evaluator's queue holds. *)
Theorem evaluator_never_polled (search : SwarmTeamSearchSpec) (run : SwarmRun) (env : search_env)
    (tree : SearchTreeStatus) :
  search_reach growslice search run → SearchTree (Status run) = Some tree →
  let tree1 := collectSearchExecutorResults env tree in
  task_ids evaluator_waits (Nodes tree1) = [] ∧
  collectSearchEvaluatorResults env tree1 = tree1.
Proof.
  intros Hr Ht tree1. pose proof (search_reach_inv search run Hr tree Ht) as Hti.
  assert (tree_inv tree1) as H1.
  { eapply shape_step_inv; [exact Hti|]. apply collect_shape, executor_result_shape. }
  split; [apply no_evaluator_task, H1|]. apply evaluator_collect_id, H1.
Qed.

End reach.

Section silent.
Context {conditionApi : ConditionApi} {searchJson : SearchJson} (growslice : nat → nat).

(** a planner that has not answered when it is polled, right after its task was
    submitted, still costs an iteration: the nodes are only truncated and submitted. *)
Theorem silent_planner_iterates (env : search_env) (stored run : SwarmRun)
    (search : SwarmTeamSearchSpec) (tree : SearchTreeStatus) (fc : frontierContext) (json : string) :
  tree_inv tree → hasRunningNodes tree = false →
  buildFrontierContext tree search = Some fc → marshal_frontier fc = Ok json →
  is_Ok (submit_planner env json) = true → (∀ id, planner_results env id = Ok []) →
  checkConvergence tree search = None → update_ok env = true →
  (∀ n, n ∈ Nodes tree → node_Phase n ≠ NodePending) → tree_Iterations tree < max_int 32 →
  0 ≤ tree_Iterations tree →
  ∃ run' tree', plan_iteration growslice env stored run search tree = Some run' ∧
    SearchTree (Status run') = Some tree' ∧
    tree_Iterations tree' = tree_Iterations tree + 1 ∧
    Nodes tree' = truncateNodeOutput (Nodes tree) (default 4096 (MaxOutputBytes search)).
Proof.
  intros Hti Hr Hfc Hjson Hsub Hpoll Hconv Hup Hpend Hit Hit0.
  unfold plan_iteration, invokePlanner. rewrite Hfc, Hjson.
  destruct (submit_planner env json) as [taskID|]; [|done]. rewrite Hpoll. cbv beta iota zeta.
  change (validateSearchActions [] tree (bool_decide (is_Some (EvaluatorRole search))))
    with (@nil string). cbv iota.
  assert (applySearchActions growslice (tree_capacity env) tree [] (default_max_nodes search) =
    Applied tree None) as -> by (by destruct tree).
  rewrite Hconv. set (tree2 := tree <| Nodes ::= _ |>).
  assert (submitSearchNodes env search tree2 = (tree2, None)) as ->.
  { unfold submitSearchNodes.
    assert (∀ mp r l, (∀ n, n ∈ l → node_Phase n ≠ NodePending) →
      submit_loop (submit_executor env) mp r l = (l, None)) as Hsl.
    { intros mp r l. revert r. induction l as [|n l IH]; intros r Hl; [done|]. simpl.
      case_match; [done|]. rewrite bool_decide_eq_false_2 by (apply Hl; left). simpl.
      rewrite IH by set_solver. done. }
    rewrite Hsl; [by destruct tree2|]. simpl. unfold truncateNodeOutput.
    intros n Hn. case_match; [by apply Hpend|].
    apply list_elem_of_fmap in Hn as (m & -> & Hm). by apply (Hpend m). }
  unfold persist. rewrite Hup. do 2 eexists. split; [reflexivity|]. split; [reflexivity|].
  split; [|done]. simpl. apply wrap_id; [lia|].
  unfold in_width, min_int, max_int in *. simpl in *. lia.
Qed.
End silent.

(** ** Witnesses *)
Definition sort_by_merge : SliceSort (nat * SearchNodeStatus) := merge_sort_by.

Lemma sort_by_merge_laws : SliceSortLaws score_greater sort_by_merge.
Proof.
  apply merge_sort_by_laws. intros a b.
  unfold not_less, score_greater. rewrite !Z.gtb_ltb, !Z.ltb_ge. lia.
Defined.

Definition scored_node (id : Z) (parent : option Z) (depth score : Z) : SearchNodeStatus :=
  (new_node id parent depth "t" (Some score)) <| node_Phase := NodeScored |>.
Definition sample_tree : SearchTreeStatus :=
  mkSearchTreeStatus [scored_node 0 None 0 100; scored_node 1 (Some 0) 1 300;
                      scored_node 2 (Some 0) 1 500] 0 None None None.

Definition expand_one : SearchAction := mkSearchAction "expand" (Some 1) None (Some "try") (Some 10) None.
Definition prune_two : SearchAction := mkSearchAction "prune" None (Some 2) None None None.

Lemma sample_tree_wf : wf_nodes (Nodes sample_tree).
Proof.
  intros i id parent depth Hi.
  destruct i as [|[|[|i]]]; simpl in Hi; [injection Hi as <- <- <-..|done].
  - split; reflexivity.
  - split; [reflexivity|]. exists 0%nat, 0, None, 0. repeat split; lia.
  - split; [reflexivity|]. exists 0%nat, 0, None, 0. repeat split; lia.
Defined.

Lemma buildPathFromRoot_correct_witness :
  ∃ l, buildPathFromRoot (Nodes sample_tree) (index_nodes 0 (Nodes sample_tree) ∅)
         (scored_node 2 (Some 0) 1 500) = Some (toContextNode <$> l) ∧ length l = 1%nat.
Proof.
  destruct (buildPathFromRoot_correct (Nodes sample_tree) 2 (scored_node 2 (Some 0) 1 500)
    sample_tree_wf eq_refl) as (l & E & _ & Hl).
  exists l. split; [exact E|]. simpl in Hl. lia.
Defined.

Lemma applySearchActions_safe_witness :
  ∃ tree' err, applySearchActions (λ n, 2 * n)%nat 3 sample_tree [expand_one; prune_two] 50 =
    Applied tree' err ∧ wf_nodes (Nodes tree').
Proof.
  destruct (applySearchActions_safe (λ n, 2 * n)%nat 3 sample_tree [expand_one; prune_two] 50 true)
    as (t & e & E & H & _); [exact sample_tree_wf|simpl; lia|reflexivity|].
  exists t, e. split; assumption.
Defined.

Lemma applySearchActions_reference_witness :
  ∃ tree', applySearchActions (λ n, n) 3 sample_tree [prune_two; expand_one] 50 = Applied tree' None ∧
    node_Phase <$> Nodes tree' !! 2%nat = Some NodePruned ∧ length (Nodes tree') = 4%nat.
Proof.
  destruct (applySearchActions_reference (λ n, n) 3 sample_tree [prune_two; expand_one] 50 true)
    as (nodes & err & E & Herr & _ & Hx);
    [exact sample_tree_wf|simpl; lia|reflexivity|].
  rewrite E. assert (err = None) as -> by (apply Herr; vm_compute; reflexivity).
  rewrite Hx by (repeat constructor).
  eexists. split; [reflexivity|]. vm_compute. split; reflexivity.
Defined.

Lemma applySearchActions_stale_witness :
  ∃ tree', applySearchActions (λ n, n) 3 sample_tree [expand_one; prune_two] 50 = Applied tree' None ∧
    node_Phase <$> Nodes tree' !! 2%nat = Some NodeScored.
Proof.
  destruct (applySearchActions_stale (λ n, n) sample_tree 50 expand_one prune_two 2)
    as (t & E & H & _);
    [exact sample_tree_wf|reflexivity|reflexivity|reflexivity|reflexivity|reflexivity|left; reflexivity|].
  exists t. split; [exact E|].
  assert (take 3 (Nodes t) !! 2%nat = Some (scored_node 2 (Some 0) 1 500)) as Hl
    by (etrans; [apply (f_equal (λ l, l !! 2%nat) H)|reflexivity]).
  rewrite lookup_take_lt in Hl by lia. by rewrite Hl.
Defined.

Lemma beamPrune_spec_witness :
  Nodes (@beamPrune sort_by_merge [0; 1] sample_tree 1) !! 0%nat = Some (scored_node 0 None 0 100) ∧
  length (Nodes (@beamPrune sort_by_merge [0; 1] sample_tree 1)) = 3%nat.
Proof.
  destruct (@beamPrune_spec sort_by_merge sort_by_merge_laws [0; 1] sample_tree 1)
    as (H & _ & Hlen); [lia|reflexivity| |split; [vm_compute; reflexivity|exact Hlen]].
  intros d. rewrite !elem_of_cons, elem_of_nil. split.
  - intros [->|[->|[]]]; vm_compute; discriminate.
  - intros Hne. destruct (group_at (Nodes sample_tree) d) as [|[i n] l] eqn:E; [done|].
    assert ((i, n) ∈ group_at (Nodes sample_tree) d) as (Hi & _ & <-)%elem_of_group
      by (rewrite E; left).
    destruct i as [|[|[|i]]]; simpl in Hi; simplify_eq/=; auto.
Defined.

Definition toy_search_json : SearchJson :=
  {| marshal_frontier _ := Ok "{}"; unmarshal_actions _ := Ok [expand_one];
     unmarshal_score _ := Err "no score" |}.

Definition toy_search : SwarmTeamSearchSpec :=
  mkSwarmTeamSearchSpec SearchStrategyBeamSearch "planner" "executor" (Some "judge") "go"
    (Some 90) 5 20 None 10 2 2 0 0 0 None.

(** The executor answers at once; the planner and the evaluator stay silent. *)
Definition toy_env : search_env :=
  mkSearchEnv 1 (λ ids, Ok ((λ id, mkTaskResult id "out" "" (mkTokenUsage 1 1 0 2 "") ∅) <$> ids))
    (λ _, Ok []) (λ n, Ok "task") (λ _, Ok "plan") (λ _, Ok []) 1 [0] true.

Definition toy_run : SwarmRun :=
  mkSwarmRun "r" "ns" 1
    (mkSwarmRunSpec "team" "" "" 0 ∅ "" [] None [] "" None (Some toy_search) 600 0)
    (mkSwarmRunStatus RunPending [] "" None None None "" None 0 []).

Definition toy_reconcile := @reconcileSearchRun toy_template list_conditions toy_search_json
  sort_by_merge (λ n, n).
Definition toy_reach := @search_reach toy_template list_conditions toy_search_json
  sort_by_merge (λ n, n).

Lemma toy_reach_twice run1 run2 :
  toy_reconcile toy_env toy_search toy_run = Some run1 →
  toy_reconcile toy_env toy_search run1 = Some run2 → toy_reach toy_search run2.
Proof.
  intros H1 H2. eapply reach_reconcile; [|exact H2]. eapply reach_reconcile; [|exact H1].
  by apply reach_new.
Defined.

Lemma search_invariant_witness :
  ∃ run2 tree, toy_reach toy_search run2 ∧ SearchTree (Status run2) = Some tree ∧ wf_nodes (Nodes tree).
Proof.
  destruct (toy_reconcile toy_env toy_search toy_run) as [run1|] eqn:E1; [|vm_compute in E1; discriminate].
  destruct (toy_reconcile toy_env toy_search run1) as [run2|] eqn:E2.
  2: { vm_compute in E1. injection E1 as <-. vm_compute in E2. discriminate. }
  pose proof (toy_reach_twice run1 run2 E1 E2) as Hr.
  destruct (SearchTree (Status run2)) as [tree|] eqn:Et.
  2: { vm_compute in E1. injection E1 as <-. vm_compute in E2. injection E2 as <-. discriminate. }
  exists run2, tree. split; [exact Hr|]. split; [exact Et|].
  apply (@search_invariant toy_template list_conditions toy_search_json
    sort_by_merge sort_by_merge_laws (λ n, n) toy_search run2 Hr). exact Et.
Defined.

Lemma evaluator_never_polled_witness :
  ∃ run1 tree, toy_reach toy_search run1 ∧ SearchTree (Status run1) = Some tree ∧
    task_ids evaluator_waits (Nodes (collectSearchExecutorResults toy_env tree)) = [].
Proof.
  destruct (toy_reconcile toy_env toy_search toy_run) as [run1|] eqn:E1; [|vm_compute in E1; discriminate].
  assert (toy_reach toy_search run1) as Hr by (eapply reach_reconcile; [|exact E1]; by apply reach_new).
  destruct (SearchTree (Status run1)) as [tree|] eqn:Et.
  2: { vm_compute in E1. injection E1 as <-. discriminate. }
  exists run1, tree. split; [exact Hr|]. split; [exact Et|].
  apply (@evaluator_never_polled toy_template list_conditions toy_search_json
    sort_by_merge sort_by_merge_laws (λ n, n) toy_search run1 toy_env tree Hr Et).
Defined.

Lemma silent_planner_iterates_witness :
  ∃ run' tree', @plan_iteration list_conditions toy_search_json (λ n, n)
      toy_env toy_run toy_run toy_search sample_tree = Some run' ∧
    SearchTree (Status run') = Some tree' ∧ tree_Iterations tree' = 1.
Proof.
  destruct (buildFrontierContext sample_tree toy_search) as [fc|] eqn:E; [|vm_compute in E; discriminate].
  destruct (@silent_planner_iterates list_conditions toy_search_json (λ n, n)
    toy_env toy_run toy_run toy_search sample_tree fc "{}")
    as (r & t & H1 & H2 & H3 & _); try reflexivity.
  - split; [exact sample_tree_wf|simpl; lia|repeat constructor].
  - exact E.
  - intros n Hn. simpl in Hn. rewrite !elem_of_cons, elem_of_nil in Hn.
    destruct Hn as [->|[->|[->|[]]]]; discriminate.
  - exists r, t. split; [exact H1|]. split; [exact H2|exact H3].
Defined.
