(* ===== verification/RunController.v ===== *)
(** * RunController: one reconciliation of a SwarmRun
    (internal/controller/swarmrun_controller.go: Reconcile).

    The object as the API server stores it goes in; what the server stores afterwards, the
    writes made, the effects on the queues and the result of the call come out.  A status
    update writes the status only: what a reconciliation changes in the spec stays in
    memory unless it goes through [r.Update].  The reconciliation of a search run is that
    of SearchRun, which reports the stored run only. *)
From Stdlib Require Import ZArith Lia Ascii.
From stdpp Require Import base tactics option list strings gmap.
From S2P Require Import Prelude GoStd Types Costs Queue Kube AgentTypes Dag Context Template.
From S2P Require Import RunState Validate Registry Routing Dispatch Collect AgentRun Admission.
From S2P Require Import Search SearchRun.

(** ** The object and the API server *)
Record run_object := mkRunObject {
  obj_Deleting : bool;
  obj_Finalizers : list string;
  obj_Labels : gmap string string;
  obj_Run : SwarmRun }.

#[export] Instance eta_run_object : Settable run_object := λ o,
  mkRunObject (obj_Deleting o) (obj_Finalizers o) (obj_Labels o) (obj_Run o).

Inductive api_write :=
| WriteFinalizers (finalizers : list string)
| WriteSpec (labels : gmap string string) (spec : SwarmRunSpec)
| WriteStatus (status : SwarmRunStatus).

Record ctrl_env := mkCtrlEnv {
  ce_run : run_env;
  ce_search : search_env;
  has_task_queue : bool;
  ce_notifier : bool;
  get_team : string → string → get_result SwarmTeam;
  list_budgets : string → result string (list SwarmBudget);
  ce_policy : option budget_policy;
  ce_store : option store_total;
  (** Failures of the writes, and the generation a changed spec is given. *)
  patch_error : list string → option string;
  spec_update_error : option string;
  status_update_error : option string;
  new_generation : Z }.

Record finished := mkFinished {
  out_obj : option run_object;
  out_writes : list api_write;
  out_eff : effects;
  out_error : option string;
  out_requeue : bool }.

Inductive outcome :=
| Finished (f : finished)
| Searched (o : run_object) (writes : list api_write)
| Crashed.

(** A deleted object is gone once it has no finalizer. *)
Definition stored_object (o : run_object) : option run_object :=
  if obj_Deleting o && bool_decide (obj_Finalizers o = []) then None else Some o.

Definition finish (o : run_object) (w : list api_write) (eff : effects) (err : option string)
    (requeue : bool) : outcome :=
  Finished (mkFinished (stored_object o) w eff err requeue).

(** ** Finalizers and labels *)
Definition swarmRunFinalizer := "swarmrun.kubeswarm/cleanup".

Definition has_finalizer (o : run_object) : bool :=
  bool_decide (swarmRunFinalizer ∈ obj_Finalizers o).

Definition add_finalizer (o : run_object) : run_object :=
  o <| obj_Finalizers ::= λ l, l ++ [swarmRunFinalizer] |>.
Definition remove_finalizer (o : run_object) : run_object :=
  o <| obj_Finalizers ::= filter (λ f, f ≠ swarmRunFinalizer) |>.

(** Take the finalizer away, if it is there, and end. *)
Definition release (env : ctrl_env) (o : run_object) (w : list api_write) (eff : effects) : outcome :=
  if has_finalizer o then
    let o' := remove_finalizer o in
    match patch_error env (obj_Finalizers o') with
    | Some e => finish o w eff (Some e) false
    | None => finish o' (w ++ [WriteFinalizers (obj_Finalizers o')]) eff None false
    end
  else finish o w eff None false.

(** The object with the finalizer, or the error of the patch. *)
Definition ensure_finalizer (env : ctrl_env) (o : run_object)
    : result string (run_object * list api_write) :=
  if has_finalizer o then Ok (o, [])
  else
    let o' := add_finalizer o in
    match patch_error env (obj_Finalizers o') with
    | Some e => Err e
    | None => Ok (o', [WriteFinalizers (obj_Finalizers o')])
    end.

(** ** The snapshot of the team *)
Definition needs_snapshot (run : SwarmRun) : bool :=
  negb (String.eqb (TeamRef (Spec run)) "") &&
  match Pipeline (Spec run) with [] => true | _ => false end &&
  match Routing (Spec run) with None => true | Some _ => false end &&
  String.eqb (Entry (Spec run)) "".

Definition snapshot_spec (team : SwarmTeam) (s : SwarmRunSpec) : SwarmRunSpec :=
  let t := team_Spec team in
  s <| TeamGeneration := team_Generation team |>
    <| Entry := team_Entry t |>
    <| Pipeline := team_Pipeline t |>
    <| Roles := team_Roles t |>
    <| Routing := team_Routing t |>
    <| Search := team_Search t |>
    <| DefaultContextPolicy := team_DefaultContextPolicy t |>
    <| spec_Output ::= λ o, if decide (o = "") then team_Output t else o |>
    <| TimeoutSeconds ::= λ n, if n =? 0 then team_TimeoutSeconds t else n |>
    <| MaxTokens ::= λ n, if n =? 0 then team_MaxTokens t else n |>.

Definition label_team (labels : gmap string string) (teamRef : string) : gmap string string :=
  if decide (default "" (labels !! LabelTeam) = "") then <[LabelTeam := teamRef]> labels else labels.

Inductive snapshot :=
| NoSnapshot
| TeamMissing (msg : string)
| SnapshotFailed (e : string)
| Snapshotted (o : run_object) (w : api_write).

Definition snapshot_team (env : ctrl_env) (o : run_object) : snapshot :=
  let run := obj_Run o in
  if negb (needs_snapshot run) then NoSnapshot
  else
    match get_team env (run_Namespace run) (TeamRef (Spec run)) with
    | NotFound => TeamMissing ("SwarmTeam " +:+ Quote (TeamRef (Spec run)) +:+ " not found")
    | GetFailed e => SnapshotFailed ("fetching team " +:+ Quote (TeamRef (Spec run)) +:+ ": " +:+ e)
    | Found team =>
        let spec := snapshot_spec team (Spec run) in
        let labels := label_team (obj_Labels o) (TeamRef (Spec run)) in
        match spec_update_error env with
        | Some e => SnapshotFailed ("snapshotting team spec into run: " +:+ e)
        | None =>
            Snapshotted (o <| obj_Labels := labels |>
                           <| obj_Run := run <| Spec := spec |> <| Generation := new_generation env |> |>)
              (WriteSpec labels spec)
        end
    end.

Definition map_entries (a : any) : list (string * any) :=
  match a with AMap m => m | _ => [] end.

Definition is_new (run : SwarmRun) : bool :=
  match Phase (Status run) with RunUnset | RunPending => true | _ => false end.

(** The router fills its prompt with a template engine of its own; it is declared first, so
    that [templateApi] is the one the pipeline uses. *)
Section controller.
Context (routerTemplate : TemplateApi) {jsonApi : JsonApi} {templateApi : TemplateApi} {regexpApi : RegexpApi}
        {floatText : FloatText} {caseApi : CaseApi} {urlApi : UrlApi}
        {conditionApi : ConditionApi} {routerJson : RouterJson} {randApi : RandApi}
        {searchJson : SearchJson} {sortCaps : SliceSort IndexedCapability}
        {sortNodes : SliceSort (nat * SearchNodeStatus)}.
Variables (growslice : nat → nat) (env : ctrl_env).

(** ** Status updates *)
Definition set_object_status (o : run_object) (s : SwarmRunStatus) : run_object :=
  o <| obj_Run ::= λ r, r <| Status := s |> |>.

Definition update_status (o : run_object) (w : list api_write) (run : SwarmRun) (eff : effects)
    (requeue : bool) : outcome :=
  match status_update_error env with
  | Some e => finish o w eff (Some e) false
  | None => finish (set_object_status o (Status run)) (w ++ [WriteStatus (Status run)]) eff None requeue
  end.

(** The end of a reconciliation: the status update, and a requeue while the run is
    running. *)
Definition conclude (o : run_object) (w : list api_write) (p : pass) : outcome :=
  match p with
  | Crash => Crashed
  | Return e eff => finish o w eff (Some e) false
  | Update run eff =>
      update_status o w run eff (bool_decide (Phase (Status run) = RunRunning))
  end.

(** ** Admission *)
Definition reject_run (reason msg : string) (run : SwarmRun) : SwarmRun :=
  set_phase (SetRunCondition run ConditionFalse reason msg) RunFailed.

(** The run to go on with, or the run that is refused. *)
Definition admission (run : SwarmRun) : SwarmRun + SwarmRun :=
  if negb (is_new run) then inl run
  else
    match validateAndDefaultInputs (get_team env) run with
    | Err e => inr (reject_run "InvalidInput" e run)
    | Ok input =>
        let run := run <| Spec ::= λ s, s <| Input := input |> |> in
        match checkBudgets (ce_policy env) (run_now (ce_run env)) (ce_store env)
                (list_budgets env) run with
        | Some msg => inr (reject_run ConditionBudgetExceeded msg run)
        | None => inl run
        end
    end.

(** ** Pipeline and routed runs *)
(** From the collected statuses to the phase of the run. *)
Definition advance_run (run : SwarmRun) (statusByName : gmap string nat) (maps : role_maps)
    (spends : list SpendEntry) : pass :=
  let e := ce_run env in
  let templateData := BuildRunTemplateData run statusByName (status_order e) in
  let stop err log := Return err (no_effects <| eff_submitted := log |> <| eff_spends := spends |>) in
  let settle steps log :=
    let run := UpdateRunPipelinePhase (run_now e) (set_steps run steps) templateData in
    let terminal := IsTerminalRunPhase (Phase (Status run)) in
    Update (set_observed_generation run)
      (mkEffects log spends (if terminal then cancelRunTasks e run else []) (ce_notifier env && terminal)) in
  match Routing (Spec run) with
  | Some _ =>
      match submitRoutedStep routerTemplate e run statusByName (Steps (Status run)) [] with
      | None => Crash
      | Some (_, log, Some err) => stop err log
      | Some (steps, log, None) => settle steps log
      end
  | None =>
      let run := ParseRunOutputJSON run statusByName (status_order e) in
      let run := EvaluateRunLoops run statusByName templateData in
      match submitPendingSteps e run statusByName (map_entries templateData) maps
              (Steps (Status run)) [] with
      | Panicked => Crash
      | Stop s err => stop err (sub_log s)
      | Next s => settle (sub_steps s) (sub_log s)
      end
  end.

Definition initialize (run : SwarmRun) : SwarmRun :=
  match Routing (Spec run) with
  | Some _ => InitializeRouteStep (run_now (ce_run env)) run
  | None => InitializeRunSteps (run_now (ce_run env)) run
  end.

Definition reconcilePipelineRun (run : SwarmRun) : pass :=
  let e := ce_run env in
  let '(fired, run) := EnforceRunTimeout (initialize run) (run_now e) in
  if fired then
    let '(run, eff) := timed_out_run e (ce_notifier env) run in Update run eff
  else
    let maps := buildRoleMaps run in
    let statusByName := BuildRunStatusByName run in
    match collectResults e run maps (Steps (Status run)) statusByName with
    | CollectPanicked => Crash
    | CollectFailed spends err =>
        Return ("collecting step results: " +:+ err) (no_effects <| eff_spends := spends |>)
    | Collected steps spends => advance_run (set_steps run steps) statusByName maps spends
    end.

(** ** Reconcile *)
(** A team run, once its spec is complete. *)
Definition reconcileTeamRun (o : run_object) (w : list api_write) : outcome :=
  match admission (obj_Run o) with
  | inr run => update_status o w run no_effects false
  | inl run =>
      match Search (Spec run) with
      | Some search =>
          match reconcileSearchRun growslice (ce_search env) search run with
          | None => Crashed
          | Some run' => Searched (set_object_status o (Status run')) w
          end
      | None =>
          if IsDynamicMode run
          then conclude o w (reconcileDynamicRun (ce_run env) (ce_notifier env) run)
          else conclude o w (reconcilePipelineRun run)
      end
  end.

(** The run of a live object that has the finalizer. *)
Definition reconcileLiveRun (o : run_object) (w : list api_write) : outcome :=
  let run := obj_Run o in
  if IsTerminalRunPhase (Phase (Status run)) then release env o w no_effects
  else if negb (has_task_queue env) then
    update_status o w
      (SetRunCondition run ConditionFalse "NoTaskQueue"
         "TASK_QUEUE_URL not set; pipeline execution requires a task queue") no_effects false
  else if decide (Agent (Spec run) ≠ "") then
    conclude o w (reconcileAgentRun (ce_run env) (ce_notifier env) run)
  else
    match snapshot_team env o with
    | NoSnapshot => reconcileTeamRun o w
    | TeamMissing msg => update_status o w (reject_run "TeamNotFound" msg run) no_effects false
    | SnapshotFailed e => finish o w no_effects (Some e) false
    | Snapshotted o new => reconcileTeamRun o (w ++ [new])
    end.

Definition Reconcile (o : run_object) : outcome :=
  if obj_Deleting o then
    release env o []
      (no_effects <| eff_cancelled := if has_finalizer o then cancelRunTasks (ce_run env) (obj_Run o) else [] |>)
  else
    match ensure_finalizer env o with
    | Err e => finish o [] no_effects (Some e) false
    | Ok (o, w) => reconcileLiveRun o w
    end.
End controller.
