(* ===== verification/RunControllerProps.v ===== *)
(** * RunControllerProps: what a reconciliation of a SwarmRun guarantees

    The phase of the stored run only moves forward and a terminal run is left alone; a
    reconciliation that fails leaves the stored status as it was; a run that stays Running
    is looked at again; the input of the stored run never changes. *)
From Stdlib Require Import ZArith Lia Ascii.
From stdpp Require Import base tactics option list strings gmap.
From S2P Require Import Prelude GoStd Types Costs Queue Kube AgentTypes Dag Context Template.
From S2P Require Import RunState Validate Registry RegistryController Routing Dispatch Collect.
From S2P Require Import AgentRun Admission Search SearchRun SearchInv RunController.

(** ** Vocabulary *)
(** The object after the call; a call that crashes has not written the status. *)
Definition object_after (out : outcome) : option run_object :=
  match out with
  | Finished f => out_obj f
  | Searched o _ => Some o
  | Crashed => None
  end.

(** A legal move of the phase: none, or forward from a run that is not terminal. *)
Definition phase_step (p q : SwarmRunPhase) : Prop :=
  q = p ∨ IsTerminalRunPhase p = false ∧ q ≠ RunUnset ∧ q ≠ RunPending.

Lemma phase_step_refl p : phase_step p p.
Proof. by left. Qed.

Lemma phase_step_trans p q r : phase_step p q → phase_step q r → phase_step p r.
Proof. unfold phase_step. naive_solver. Qed.

Lemma phase_step_forward p q :
  IsTerminalRunPhase p = false → q = RunRunning ∨ q = RunSucceeded ∨ q = RunFailed → phase_step p q.
Proof. intros H Hq. right. destruct Hq as [->|[->| ->]]; done. Qed.

#[export] Hint Resolve phase_step_refl : go.

Section phases.
Context (routerTemplate : TemplateApi) {jsonApi : JsonApi} {templateApi : TemplateApi} {regexpApi : RegexpApi}
        {floatText : FloatText} {caseApi : CaseApi} {urlApi : UrlApi}
        {conditionApi : ConditionApi} {routerJson : RouterJson} {randApi : RandApi}
        {searchJson : SearchJson} {sortCaps : SliceSort IndexedCapability}
        {sortNodes : SliceSort (nat * SearchNodeStatus)}.
Variable growslice : nat → nat.

(** ** Phases of the parts *)
(** Started: Running, or past it. *)
Definition started (run : SwarmRun) : Prop :=
  Phase (Status run) ≠ RunUnset ∧ Phase (Status run) ≠ RunPending.

Lemma EnforceRunTimeout_phase f now fired f' :
  EnforceRunTimeout f now = (fired, f') →
  Phase (Status f') = Phase (Status f) ∨ Phase (Status f') = RunFailed.
Proof. unfold EnforceRunTimeout. intros H. repeat case_match; simplify_eq/=; auto. Qed.

Lemma EnforceRunTimeout_fired f now f' :
  EnforceRunTimeout f now = (true, f') → Phase (Status f') = RunFailed.
Proof. unfold EnforceRunTimeout. intros H. repeat case_match; by simplify_eq/=. Qed.

Lemma EnforceRunTimeout_quiet f now f' : EnforceRunTimeout f now = (false, f') → f' = f.
Proof. unfold EnforceRunTimeout. intros H. repeat case_match; by simplify_eq/=. Qed.

Lemma SumRunStepTokens_phase f : Phase (Status (SumRunStepTokens f).2) = Phase (Status f).
Proof. unfold SumRunStepTokens. repeat case_match; done. Qed.

Lemma UpdateRunPipelinePhase_phase now f data :
  let p := Phase (Status (UpdateRunPipelinePhase now f data)) in
  p = Phase (Status f) ∨ p = RunSucceeded ∨ p = RunFailed.
Proof.
  unfold UpdateRunPipelinePhase. destruct (EnforceRunTimeout f now) as [[] f1] eqn:E; simpl.
  { apply EnforceRunTimeout_fired in E. auto. }
  apply EnforceRunTimeout_quiet in E as ->.
  pose proof (SumRunStepTokens_phase f) as Hs. destruct (SumRunStepTokens f) as [n f2]. simpl in *.
  repeat case_match; simpl; auto.
Qed.

Lemma finalize_single_phase env ok why run st :
  let p := Phase (Status (finalize_single env ok why run st)) in
  p = Phase (Status run) ∨ p = RunSucceeded ∨ p = RunFailed.
Proof. unfold finalize_single. repeat case_match; simpl; auto. Qed.

Lemma finish_single_phase env n ok why run out run' eff :
  finish_single n (finalize_single env ok why) run out = Update run' eff →
  Phase (Status run') = Phase (Status run) ∨ Phase (Status run') = RunSucceeded ∨
  Phase (Status run') = RunFailed.
Proof.
  unfold finish_single. destruct out as [[st eff0] [e|]]; [done|]. intros [= <- _].
  apply (finalize_single_phase env ok why (set_steps run _) st).
Qed.

Lemma timed_out_run_phase env n run :
  Phase (Status (timed_out_run env n run).1) = Phase (Status run).
Proof. done. Qed.

Lemma start_agent_run_phase env run :
  Phase (Status (start_agent_run env run)) =
  if decide (Phase (Status run) = RunUnset ∨ Phase (Status run) = RunPending) then RunRunning
  else Phase (Status run).
Proof. unfold start_agent_run. destruct (Steps (Status run)); simpl; by case_decide. Qed.

Lemma phase_step_end p q q' :
  phase_step p q → IsTerminalRunPhase p = false → q' = q ∨ q' = RunSucceeded ∨ q' = RunFailed →
  phase_step p q'.
Proof. intros H Hp [->|[->| ->]]; [done|by apply phase_step_forward; auto..]. Qed.

Lemma agent_phase env n run run' eff :
  IsTerminalRunPhase (Phase (Status run)) = false →
  reconcileAgentRun env n run = Update run' eff → phase_step (Phase (Status run)) (Phase (Status run')).
Proof.
  intros Hp. unfold reconcileAgentRun. pose proof (start_agent_run_phase env run) as Hs.
  set (run1 := start_agent_run env run) in *.
  assert (phase_step (Phase (Status run)) (Phase (Status run1))) as H1.
  { rewrite Hs. case_decide; [apply phase_step_forward; auto|apply phase_step_refl]. }
  destruct (EnforceRunTimeout run1 _) as [[] run2] eqn:E.
  - apply EnforceRunTimeout_fired in E. intros [= <- _]. simpl.
    eapply phase_step_end; [exact H1|done|]. right; right. exact E.
  - apply EnforceRunTimeout_quiet in E as ->. destruct (Steps (Status run1)); [done|].
    intros H%finish_single_phase. by eapply phase_step_end.
Qed.

Lemma dynamic_phase env n run run' eff :
  IsTerminalRunPhase (Phase (Status run)) = false →
  reconcileDynamicRun env n run = Update run' eff → phase_step (Phase (Status run)) (Phase (Status run')).
Proof.
  intros Hp. unfold reconcileDynamicRun. set (run1 := InitializeDynamicStep _ run).
  assert (phase_step (Phase (Status run)) (Phase (Status run1))) as H1.
  { subst run1. unfold InitializeDynamicStep. case_decide; [apply phase_step_refl|].
    apply phase_step_forward; auto. }
  destruct (Steps (Status run1)) as [|st rest]; [done|].
  destruct (EnforceRunTimeout _ _) as [[] run2] eqn:E.
  - apply EnforceRunTimeout_fired in E. intros [= <- _]. simpl.
    eapply phase_step_end; [exact H1|done|]. right; right. exact E.
  - apply EnforceRunTimeout_quiet in E as ->. simpl.
    intros H%finish_single_phase. by eapply phase_step_end.
Qed.

Lemma advance_phase env run m maps spends run' eff :
  advance_run routerTemplate env run m maps spends = Update run' eff →
  Phase (Status run') = Phase (Status run) ∨ Phase (Status run') = RunSucceeded ∨
  Phase (Status run') = RunFailed.
Proof.
  unfold advance_run. destruct (Routing (Spec run)) as [r|].
  - destruct (submitRoutedStep _ _ _ _ _ _) as [[[steps log] [e|]]|]; [done| |done].
    intros [= <- _]. apply (UpdateRunPipelinePhase_phase _ (set_steps run steps)).
  - destruct (submitPendingSteps _ _ _ _ _ _) as [s|s e|]; [|done..].
    intros [= <- _].
    match goal with |- context [UpdateRunPipelinePhase ?now ?f ?data] =>
      exact (UpdateRunPipelinePhase_phase now f data) end.
Qed.

Lemma initialize_phase env run : phase_step (Phase (Status run)) (Phase (Status (initialize env run))).
Proof.
  unfold initialize, InitializeRouteStep, InitializeRunSteps.
  destruct (Routing (Spec run)); case_decide as Hd; try apply phase_step_refl;
    apply phase_step_forward; auto; destruct (Phase (Status run)); try done;
    exfalso; apply Hd; discriminate.
Qed.

Lemma pipeline_phase env run run' eff :
  IsTerminalRunPhase (Phase (Status run)) = false →
  reconcilePipelineRun routerTemplate env run = Update run' eff →
  phase_step (Phase (Status run)) (Phase (Status run')).
Proof.
  intros Hp. unfold reconcilePipelineRun. pose proof (initialize_phase env run) as H1.
  set (run1 := initialize env run) in *.
  destruct (EnforceRunTimeout run1 _) as [[] run2] eqn:E.
  - apply EnforceRunTimeout_fired in E. intros [= <- _]. simpl.
    eapply phase_step_end; [exact H1|done|]. right; right. exact E.
  - apply EnforceRunTimeout_quiet in E as ->.
    destruct (collectResults _ _ _ _ _) as [steps spends|spends e|]; [|done..].
    intros H%advance_phase. by eapply phase_step_end.
Qed.

(** ** Search runs *)
Lemma search_phase env search run run' :
  IsTerminalRunPhase (Phase (Status run)) = false →
  reconcileSearchRun growslice env search run = Some run' →
  phase_step (Phase (Status run)) (Phase (Status run')).
Proof.
  intros Hp. unfold reconcileSearchRun.
  destruct (start_search (env_now env) search run) as [run1 tree] eqn:Es.
  assert (phase_step (Phase (Status run)) (Phase (Status run1))) as H1.
  { revert Es. unfold start_search. intros [= <- _].
    case_decide; [apply phase_step_forward; auto|apply phase_step_refl]. }
  assert (∀ stored r r', persist env stored r = Some r' → stored = run →
    phase_step (Phase (Status run)) (Phase (Status r)) →
    phase_step (Phase (Status run)) (Phase (Status r'))) as Hpersist.
  { intros stored r r'. unfold persist. intros [= <-] -> H. destruct (update_ok env); [done|apply phase_step_refl]. }
  assert (∀ r t reason r', terminate env run r t reason = Some r' →
    phase_step (Phase (Status run)) (Phase (Status r'))) as Hterm.
  { intros r t reason r' H. eapply Hpersist; [exact H|done|]. unfold finalizeSearchRun.
    apply phase_step_forward; [done|]. repeat case_match; simpl; auto. }
  destruct (EnforceRunTimeout run1 _) as [[] run2] eqn:E.
  { intros H. eapply Hpersist; [exact H|done|]. apply EnforceRunTimeout_fired in E.
    eapply phase_step_end; [exact H1|done|]. right; right. exact E. }
  apply EnforceRunTimeout_quiet in E as ->. cbv zeta.
  destruct (checkConvergence _ _) as [reason|]; [by apply Hterm|].
  destruct (submitSearchNodes _ _ _) as [tree' [e|]]; [intros [= <-]; apply phase_step_refl|].
  destruct (hasRunningNodes tree'); [intros H; by eapply Hpersist|].
  unfold plan_iteration. destruct (invokePlanner _ _ _) as [[actions|e]|]; [|by apply Hterm|done].
  destruct (validateSearchActions _ _ _); [|by apply Hterm].
  destruct (applySearchActions _ _ _ _ _) as [|t s]; [done|].
  destruct (checkConvergence _ _) as [reason|]; [by apply Hterm|].
  destruct (submitSearchNodes _ _ _) as [tree'' [e|]]; [intros [= <-]; apply phase_step_refl|].
  intros H. by eapply Hpersist.
Qed.

(** ** The outcome of the parts *)
(** What every part of a reconciliation of [o] respects. *)
Definition respects (o : run_object) (out : outcome) : Prop :=
  (∀ o', object_after out = Some o' →
     Input (Spec (obj_Run o')) = Input (Spec (obj_Run o)) ∧
     phase_step (Phase (Status (obj_Run o))) (Phase (Status (obj_Run o')))) ∧
  (∀ f e o', out = Finished f → out_error f = Some e → out_obj f = Some o' →
     Status (obj_Run o') = Status (obj_Run o)).

Lemma finish_object o w eff err rq o' :
  object_after (finish o w eff err rq) = Some o' → o' = o.
Proof. unfold finish, stored_object. simpl. case_match; naive_solver. Qed.

Lemma respects_same o o1 w eff err rq :
  obj_Run o1 = obj_Run o → respects o (finish o1 w eff err rq).
Proof.
  intros E. split; [intros o' ->%finish_object; rewrite E; auto with go|].
  intros f e o' [= <-] _ Ho. simpl in Ho.
  assert (o' = o1) as -> by (unfold stored_object in Ho; case_match; naive_solver). by rewrite E.
Qed.

Lemma respects_release env o o1 w eff : obj_Run o1 = obj_Run o → respects o (release env o1 w eff).
Proof. intros E. unfold release. repeat case_match; by apply respects_same. Qed.

(** The object carries the run of [o], possibly with another spec but the same input. *)
Definition carries (o o1 : run_object) : Prop :=
  Status (obj_Run o1) = Status (obj_Run o) ∧ Input (Spec (obj_Run o1)) = Input (Spec (obj_Run o)).

Lemma respects_finish o o1 w eff err rq : carries o o1 → respects o (finish o1 w eff err rq).
Proof.
  intros [Es Ei]. split; [intros o' ->%finish_object; rewrite Es, Ei; auto with go|].
  intros f e o' [= <-] _ Ho. simpl in Ho.
  assert (o' = o1) as -> by (unfold stored_object in Ho; case_match; naive_solver). done.
Qed.

Lemma respects_update env o o1 w run eff rq :
  carries o o1 → phase_step (Phase (Status (obj_Run o))) (Phase (Status run)) →
  respects o (update_status env o1 w run eff rq).
Proof.
  intros Hc Hp. unfold update_status.
  destruct (status_update_error env) as [e|]; [by apply respects_finish|].
  split; [|by intros f e o' [= <-]].
  intros o' ->%finish_object. simpl. destruct Hc as [_ ->]. done.
Qed.

Lemma respects_conclude env o o1 w p :
  carries o o1 →
  (∀ run eff, p = Update run eff → phase_step (Phase (Status (obj_Run o))) (Phase (Status run))) →
  respects o (conclude env o1 w p).
Proof.
  intros Hc Hp. destruct p as [run eff|e eff|]; simpl.
  - apply respects_update; [done|by eapply Hp].
  - by apply respects_finish.
  - done.
Qed.

Lemma admit_run env run :
  match admission env run with
  | inl run' => Status run' = Status run
  | inr run' => Phase (Status run') = RunFailed
  end.
Proof. unfold admission. repeat case_match; simplify_eq/=; done. Qed.

Lemma respects_team env o o1 w :
  carries o o1 → IsTerminalRunPhase (Phase (Status (obj_Run o))) = false →
  respects o (reconcileTeamRun routerTemplate growslice env o1 w).
Proof.
  intros Hc Hp. unfold reconcileTeamRun. pose proof (admit_run env (obj_Run o1)) as Ha.
  destruct (admission env (obj_Run o1)) as [run|run].
  2: { apply respects_update; [done|]. apply phase_step_forward; auto. }
  destruct Hc as [Es Ei]. rewrite Es in Ha. rewrite <- Ha in Hp.
  destruct (Search (Spec run)) as [search|].
  { destruct (reconcileSearchRun _ _ _ _) as [run'|] eqn:E; [|done].
    split; [|done]. intros o' [= <-]. simpl. split; [done|]. rewrite <- Ha. by eapply search_phase. }
  destruct (IsDynamicMode run); apply respects_conclude; try done; intros run' eff E; rewrite <- Ha.
  - by eapply dynamic_phase.
  - by eapply pipeline_phase.
Qed.

Lemma snapshot_carries env o o1 w : snapshot_team env o = Snapshotted o1 w → carries o o1.
Proof.
  unfold snapshot_team. intros H. repeat case_match; simplify_eq/=. by split.
Qed.

Lemma respects_live env o w : respects o (reconcileLiveRun routerTemplate growslice env o w).
Proof.
  assert (carries o o) as Hc by done. unfold reconcileLiveRun.
  destruct (IsTerminalRunPhase _) eqn:Hp; [by apply respects_release|].
  destruct (has_task_queue env); simpl; [|apply respects_update; [done|apply phase_step_refl]].
  case_decide.
  { apply respects_conclude; [done|]. intros run eff E. by eapply agent_phase. }
  destruct (snapshot_team env o) as [|msg|e|o1 new] eqn:Es.
  - by apply respects_team.
  - apply respects_update; [done|]. apply phase_step_forward; auto.
  - by apply respects_finish.
  - apply respects_team; [|done]. by eapply snapshot_carries.
Qed.

Lemma ensure_finalizer_run env o o1 w : ensure_finalizer env o = Ok (o1, w) → obj_Run o1 = obj_Run o.
Proof. unfold ensure_finalizer. intros H. repeat case_match; by simplify_eq/=. Qed.

Lemma respects_Reconcile env o : respects o (Reconcile routerTemplate growslice env o).
Proof.
  unfold Reconcile. destruct (obj_Deleting o); [by apply respects_release|].
  destruct (ensure_finalizer env o) as [[o1 w]|e] eqn:E; [|by apply respects_same].
  apply ensure_finalizer_run in E. pose proof (respects_live env o1 w) as H.
  unfold respects in *. by rewrite E in H.
Qed.

(** ** Terminal runs *)
Lemma terminal_released env o :
  IsTerminalRunPhase (Phase (Status (obj_Run o))) = true →
  ∃ o1 w eff err, obj_Run o1 = obj_Run o ∧
    (Reconcile routerTemplate growslice env o = release env o1 w eff ∨
     Reconcile routerTemplate growslice env o = finish o1 w eff err false) ∧
    eff_submitted eff = [] ∧ eff_spends eff = [] ∧ eff_notified eff = false.
Proof.
  intros Hp. unfold Reconcile. destruct (obj_Deleting o).
  { eexists o, [], _, None. split; [done|]. split; [by left|done]. }
  destruct (ensure_finalizer env o) as [[o1 w]|e] eqn:E.
  - pose proof (ensure_finalizer_run _ _ _ _ E) as Er. exists o1, w, no_effects, None.
    split; [done|]. split; [|done]. left. unfold reconcileLiveRun. by rewrite Er, Hp.
  - exists o, [], no_effects, (Some e). split; [done|]. split; [by right|done].
Qed.

Lemma release_finished env o w eff :
  ∃ o1 w1 err, release env o w eff = finish o1 w1 eff err false ∧ obj_Run o1 = obj_Run o.
Proof. unfold release. repeat case_match; by eexists _, _, _. Qed.

(** a terminal run is left alone: its reconciliation always ends, changes neither spec nor
    status, submits nothing, records no spend, notifies nobody and is not repeated on its
    own. *)
Theorem Reconcile_terminal (env : ctrl_env) (o : run_object) :
  IsTerminalRunPhase (Phase (Status (obj_Run o))) = true →
  ∃ f, Reconcile routerTemplate growslice env o = Finished f ∧
    (∀ o', out_obj f = Some o' → obj_Run o' = obj_Run o) ∧
    eff_submitted (out_eff f) = [] ∧ eff_spends (out_eff f) = [] ∧
    eff_notified (out_eff f) = false ∧ out_requeue f = false.
Proof.
  intros Hp. destruct (terminal_released env o Hp) as (o1 & w & eff & err & Hr & Hout & H1 & H2 & H3).
  assert (∃ o2 w2 err2, Reconcile routerTemplate growslice env o = finish o2 w2 eff err2 false ∧
    obj_Run o2 = obj_Run o) as (o2 & w2 & err2 & -> & Hr2).
  { destruct Hout as [->| ->]; [|by exists o1, w, err].
    destruct (release_finished env o1 w eff) as (o2 & w2 & err2 & -> & E2).
    exists o2, w2, err2. split; [done|congruence]. }
  eexists. split; [reflexivity|]. split; [|done].
  intros o' Ho. assert (object_after (finish o2 w2 eff err2 false) = Some o') as Ho' by done.
  by apply finish_object in Ho' as ->.
Qed.

Lemma filter_ne_all (x : string) (l : list string) : x ∉ l → filter (λ f, f ≠ x) l = l.
Proof.
  induction l as [|y l IH]; [done|]. rewrite not_elem_of_cons. intros [Hy Hl].
  rewrite filter_cons_True by congruence. by rewrite IH.
Qed.

(** a terminal run is never at rest: when it has lost the finalizer, each reconciliation
    first adds it and then takes it away again.  The object is left as it was, but two
    writes have been made, each of which makes the watch queue the object again. *)
Theorem Reconcile_terminal_churns (env : ctrl_env) (o : run_object) :
  IsTerminalRunPhase (Phase (Status (obj_Run o))) = true →
  obj_Deleting o = false → has_finalizer o = false → (∀ l, patch_error env l = None) →
  Reconcile routerTemplate growslice env o =
    Finished (mkFinished (Some o)
      [WriteFinalizers (obj_Finalizers o ++ [swarmRunFinalizer]); WriteFinalizers (obj_Finalizers o)]
      no_effects None false).
Proof.
  intros Hp Hd Hf Hpatch. unfold Reconcile. rewrite Hd. unfold ensure_finalizer.
  rewrite Hf, Hpatch. unfold reconcileLiveRun.
  change (obj_Run (add_finalizer o)) with (obj_Run o). rewrite Hp. unfold release.
  assert (has_finalizer (add_finalizer o) = true) as ->.
  { unfold has_finalizer. apply bool_decide_eq_true. simpl. set_solver. }
  rewrite Hpatch. unfold has_finalizer in Hf. apply bool_decide_eq_false in Hf.
  assert (remove_finalizer (add_finalizer o) = o) as E.
  { destruct o as [d l labels r]. unfold remove_finalizer, add_finalizer. simpl in *.
    cbv [set_field]. simpl. f_equal. rewrite filter_app. rewrite (filter_cons_False _ swarmRunFinalizer) by auto.
    rewrite filter_nil, app_nil_r. by apply filter_ne_all. }
  rewrite E. unfold finish, stored_object. by rewrite Hd.
Qed.

(** ** Every run *)
(** C24: the phase of the stored run only moves forward: whatever the surroundings answer and
    whichever mode the run has, a reconciliation leaves the phase as it is or takes a run
    that is not terminal to Running, Succeeded or Failed. *)
Theorem Reconcile_forward (env : ctrl_env) (o o' : run_object) :
  object_after (Reconcile routerTemplate growslice env o) = Some o' →
  phase_step (Phase (Status (obj_Run o))) (Phase (Status (obj_Run o'))).
Proof. intros H. by apply (respects_Reconcile env o). Qed.

(** a reconciliation that ends in an error has not changed the stored status, whatever it
    has submitted, cancelled or collected by then. *)
Theorem Reconcile_error_keeps_status (env : ctrl_env) (o o' : run_object) (f : finished) (e : string) :
  Reconcile routerTemplate growslice env o = Finished f → out_error f = Some e →
  out_obj f = Some o' → Status (obj_Run o') = Status (obj_Run o).
Proof. intros H He Ho. by eapply (respects_Reconcile env o). Qed.

(** input defaults are lost: the input of the stored run is never changed, and once the run
    is no longer new no reconciliation computes the defaults again, so only the steps
    submitted by the first one see them. *)
Theorem Reconcile_defaults_lost (env later : ctrl_env) (o o' : run_object) :
  object_after (Reconcile routerTemplate growslice env o) = Some o' →
  Input (Spec (obj_Run o')) = Input (Spec (obj_Run o)) ∧
  (is_new (obj_Run o') = false → admission later (obj_Run o') = inl (obj_Run o')).
Proof.
  intros H. split; [by apply (respects_Reconcile env o)|]. intros Hn. unfold admission. by rewrite Hn.
Qed.

(** ** Requeues *)
Definition requeues (out : outcome) : Prop :=
  ∀ f o', out = Finished f → out_error f = None → out_obj f = Some o' →
    Phase (Status (obj_Run o')) = RunRunning → out_requeue f = true.

Lemma requeues_finish o w eff err rq :
  (err = None → Phase (Status (obj_Run o)) = RunRunning → rq = true) →
  requeues (finish o w eff err rq).
Proof.
  intros H f o' [= <-] He Ho Hr. simpl in *.
  assert (o' = o) as -> by (unfold stored_object in Ho; case_match; naive_solver). by apply H.
Qed.

Lemma requeues_update env o w run eff rq :
  (Phase (Status run) = RunRunning → rq = true) → requeues (update_status env o w run eff rq).
Proof.
  intros H. unfold update_status.
  destruct (status_update_error env); apply requeues_finish; [done|]. intros _. apply H.
Qed.

Lemma requeues_conclude env o w p : requeues (conclude env o w p).
Proof.
  destruct p; simpl; [|by apply requeues_finish|done].
  apply requeues_update. apply bool_decide_eq_true_2.
Qed.

Lemma requeues_release env o w eff :
  Phase (Status (obj_Run o)) ≠ RunRunning → requeues (release env o w eff).
Proof. intros H. unfold release. repeat case_match; by apply requeues_finish. Qed.

Lemma requeues_team env o w : requeues (reconcileTeamRun routerTemplate growslice env o w).
Proof.
  unfold reconcileTeamRun. pose proof (admit_run env (obj_Run o)) as Ha.
  destruct (admission env (obj_Run o)) as [run|run]; [|apply requeues_update; congruence].
  destruct (Search (Spec run)); [by case_match|].
  destruct (IsDynamicMode run); apply requeues_conclude.
Qed.

(** no lost run: with a task queue configured, a reconciliation that ends without error on
    an object that is not being deleted asks for another one whenever it leaves the run
    Running. *)
Theorem Reconcile_requeues_running (env : ctrl_env) (o o' : run_object) (f : finished) :
  has_task_queue env = true → obj_Deleting o = false →
  Reconcile routerTemplate growslice env o = Finished f → out_error f = None →
  out_obj f = Some o' → Phase (Status (obj_Run o')) = RunRunning → out_requeue f = true.
Proof.
  intros Hq Hd. revert f o'. change (requeues (Reconcile routerTemplate growslice env o)).
  unfold Reconcile. rewrite Hd. destruct (ensure_finalizer env o) as [[o1 w]|e] eqn:E.
  2: { by apply requeues_finish. }
  unfold reconcileLiveRun. destruct (IsTerminalRunPhase _) eqn:Hp.
  { apply requeues_release. by destruct (Phase (Status (obj_Run o1))). }
  rewrite Hq. simpl. case_decide; [apply requeues_conclude|].
  destruct (snapshot_team env o1); [apply requeues_team| |by apply requeues_finish|apply requeues_team].
  by apply requeues_update.
Qed.

(** ** Cancellation *)
Lemma cancel_groups_none env run steps byQueue cache :
  (∀ st, st ∈ steps → cancellable st = false) → cancel_groups env run steps byQueue cache = byQueue.
Proof.
  revert byQueue cache. induction steps as [|st rest IH]; simpl; intros byQueue cache H; [done|].
  rewrite (H st) by left. simpl. apply IH. intros s Hs. apply H. by right.
Qed.

Lemma cancelRunTasks_none env run :
  (∀ st, st ∈ Steps (Status run) → cancellable st = false) → cancelRunTasks env run = [].
Proof.
  intros H. unfold cancelRunTasks. rewrite cancel_groups_none by done.
  induction (queue_order env) as [|url l IH]; [done|]. simpl. by rewrite lookup_empty.
Qed.

(** a timeout cancels nothing: the timeout first marks the steps in flight as failed, and
    the cancellation that follows only looks at steps that are not; so, unless a step that
    is warming up holds a task, every task of a run that times out stays in its queue. *)
Theorem timeout_cancels_nothing (env : run_env) (notify : bool) (run run' : SwarmRun) (now : Z) :
  EnforceRunTimeout run now = (true, run') →
  (∀ st, st ∈ Steps (Status run) → step_Phase st = StepWarmingUp → step_TaskID st = "") →
  eff_cancelled (timed_out_run env notify run').2 = [].
Proof.
  intros Ht Hw. unfold timed_out_run. simpl. apply cancelRunTasks_none. simpl.
  assert (Steps (Status run') = fail_step (timeout_message run) <$> Steps (Status run)) as ->.
  { revert Ht. unfold EnforceRunTimeout. intros H. repeat case_match; by simplify_eq/=. }
  intros st (s & -> & Hs)%list_elem_of_fmap.
  unfold fail_step, step_pending_or_running, cancellable.
  destruct (step_Phase s) eqn:E; simpl; rewrite ?E; try by rewrite andb_false_r.
  by rewrite (Hw s Hs E).
Qed.

(** ** Agent runs *)
Lemma finalize_single_spec env ok why run st :
  let run' := finalize_single env ok why run st in
  Steps (Status run') = Steps (Status run) ∧
  match step_Phase st with
  | StepSucceeded => Phase (Status run') = RunSucceeded ∧ status_Output (Status run') = step_Output st
  | StepFailed => Phase (Status run') = RunFailed
  | _ => Phase (Status run') = Phase (Status run)
  end.
Proof. unfold finalize_single. destruct (step_Phase st), (step_TokenUsage st); done. Qed.

Lemma drive_step_submits submit poll st st' eff err :
  (∀ s, length (submit s).1.2 ≤ 1)%nat →
  drive_step submit poll st = (st', eff, err) → (length (eff_submitted eff) ≤ 1)%nat.
Proof.
  intros Hs. unfold drive_step. specialize (Hs st).
  destruct (step_Phase st); try (destruct (submit st) as [[? ?] ?]); try (destruct (poll st) as [[? ?]|]);
    intros [= <- <- <-]; simpl in *; lia.
Qed.

Lemma submitAgentStep_one env run st : (length (submitAgentStep env run st []).1.2 ≤ 1)%nat.
Proof. unfold submitAgentStep. repeat case_match; simpl; lia. Qed.

(** an agent run mirrors its one step: when a reconciliation of a run that has not ended
    and does not time out gets to the status update, the run is Succeeded exactly if the step
    is, with its output, Failed exactly if the step is, and Running (or as before) if neither;
    at most one task has been submitted, and the notification goes with the terminal phase. *)
Theorem reconcileAgentRun_mirrors (env : run_env) (notify : bool) (run run' : SwarmRun) (eff : effects) :
  IsTerminalRunPhase (Phase (Status run)) = false →
  (EnforceRunTimeout (start_agent_run env run) (run_now env)).1 = false →
  reconcileAgentRun env notify run = Update run' eff →
  ∃ st rest, Steps (Status run') = st :: rest ∧
    match step_Phase st with
    | StepSucceeded => Phase (Status run') = RunSucceeded ∧ status_Output (Status run') = step_Output st
    | StepFailed => Phase (Status run') = RunFailed
    | _ => Phase (Status run') = RunRunning
    end ∧
    (length (eff_submitted eff) ≤ 1)%nat ∧
    eff_notified eff = notify && IsTerminalRunPhase (Phase (Status run')).
Proof.
  intros Hp Ht. unfold reconcileAgentRun. pose proof (start_agent_run_phase env run) as Hs.
  set (run1 := start_agent_run env run) in *.
  assert (Phase (Status run1) = RunRunning) as Hr.
  { rewrite Hs. case_decide as Hd; [done|]. destruct (Phase (Status run)); try done; exfalso; apply Hd; auto. }
  destruct (EnforceRunTimeout run1 _) as [fired run2] eqn:E. simpl in Ht. subst fired.
  apply EnforceRunTimeout_quiet in E as ->.
  destruct (Steps (Status run1)) as [|st0 rest] eqn:Est; [done|].
  destruct (driveAgentStep env run1 st0) as [[st eff0] [e|]] eqn:Ed; [done|].
  unfold finish_single. intros [= <- <-]. rewrite Est. simpl.
  pose proof (finalize_single_spec env "agent run completed successfully" "AgentFailed"
    (set_steps run1 (st :: rest)) st) as [H1 H2].
  exists st, rest. split; [exact H1|]. simpl in H2. rewrite Hr in H2. split; [exact H2|].
  split; [|done]. simpl. unfold driveAgentStep in Ed. eapply drive_step_submits; [|exact Ed].
  apply submitAgentStep_one.
Qed.

Definition with_budgets (env : ctrl_env) (budgets : string → result string (list SwarmBudget))
    (policy : option budget_policy) (store : option store_total) : ctrl_env :=
  mkCtrlEnv (ce_run env) (ce_search env) (has_task_queue env) (ce_notifier env) (get_team env)
    budgets policy store (patch_error env) (spec_update_error env) (status_update_error env)
    (new_generation env).

(** agent runs escape the budgets: the reconciliation of a run that names an agent is the
    same whatever budgets exist, whatever they have spent and whatever policy judges them. *)
Theorem agent_run_unbudgeted (env : ctrl_env) (o : run_object)
    (budgets : string → result string (list SwarmBudget)) (policy : option budget_policy)
    (store : option store_total) :
  Agent (Spec (obj_Run o)) ≠ "" →
  Reconcile routerTemplate growslice (with_budgets env budgets policy store) o =
  Reconcile routerTemplate growslice env o.
Proof.
  intros Ha. unfold Reconcile. destruct (obj_Deleting o); [done|].
  change (ensure_finalizer (with_budgets env budgets policy store) o) with (ensure_finalizer env o).
  destruct (ensure_finalizer env o) as [[o1 w]|e] eqn:E; [|done].
  apply ensure_finalizer_run in E. rewrite <- E in Ha. unfold reconcileLiveRun.
  destruct (IsTerminalRunPhase _); [done|]. simpl. destruct (has_task_queue env); [|done]. simpl.
  by rewrite !decide_True by done.
Qed.

(** ** Failed submissions *)
(** Two independent steps; the queue takes the first task and refuses the second. *)
Definition two_steps_run : SwarmRun :=
  mkSwarmRun "r" "ns" 1
    (mkSwarmRunSpec "team" "" "" 0 ∅ "" [plain_step "a" []; plain_step "b" []] None [] "" None None 0 0)
    (mkSwarmRunStatus RunRunning [new_step "a" StepPending; new_step "b" StepPending]
       "" (Some 0) None None "" None 0 []).

Definition two_steps_object : run_object :=
  mkRunObject false [swarmRunFinalizer] ∅ two_steps_run.

Definition one_slot_env : run_env :=
  mkRunEnv 1 (λ _ _, NotFound) (λ _ _, NotFound) (λ _, Ok []) "" "" ∅
    (λ log _, match log with [] => Ok "task-1" | _ => Err "queue full" end) (λ _ _, Ok [])
    None (mkRangedIndex ∅ [] []) None None None (λ _ _ _ _, f64_zero) (λ _, [])
    ["a"; "b"] [""] (λ l, l) false.

Definition idle_search : search_env :=
  mkSearchEnv 1 (λ _, Ok []) (λ _, Ok []) (λ _, Err "no") (λ _, Err "no") (λ _, Ok []) 1 [] true.

Definition working_env (e : run_env) : ctrl_env :=
  mkCtrlEnv e idle_search true false (λ _ _, NotFound) (λ _, Ok []) None None (λ _, None) None None 2.

(** a failed submission repeats the earlier ones: there is a running pipeline in which the
    queue takes the task of the first step and refuses the second; the task has been submitted
    but the object is exactly as before, so every further reconciliation submits it again. *)
Theorem Reconcile_resubmits :
  ∃ (env : ctrl_env) (o : run_object) (f : finished) (e : string) (sub : submission),
    Reconcile routerTemplate growslice env o = Finished f ∧ out_error f = Some e ∧
    eff_submitted (out_eff f) = [sub] ∧ sub_meta sub = [("run_name", "r"); ("step_name", "a")] ∧
    out_obj f = Some o.
Proof.
  exists (working_env one_slot_env), two_steps_object.
  eexists _, _, _. split; [vm_compute; reflexivity|].
  split; [reflexivity|]. split; [reflexivity|]. split; reflexivity.
Qed.

Lemma pending_dynamic_crashes env notify run :
  Phase (Status run) = RunPending → Steps (Status run) = [] → reconcileDynamicRun env notify run = Crash.
Proof.
  intros Hp Hs. unfold reconcileDynamicRun, InitializeDynamicStep.
  rewrite decide_True by (rewrite Hp; discriminate). by rewrite Hs.
Qed.
End phases.

(** ** Witnesses *)
Definition toy_run_reconcile : ctrl_env → run_object → outcome :=
  @Reconcile toy_template toy_json toy_template toy_regexp toy_float toy_case toy_url list_conditions toy_router
    rand_first toy_search_json merge_sort_by merge_sort_by (λ n, n).

Definition with_phase (phase : SwarmRunPhase) (steps : list PipelineStepStatus) (agent : string)
    (timeout : Z) : SwarmRun :=
  mkSwarmRun "r" "ns" 1
    (mkSwarmRunSpec (if decide (agent = "") then "team" else "") agent "hello" 0 ∅ ""
       (if decide (agent = "") then [plain_step "a" []; plain_step "b" ["a"]] else []) None [] "" None None timeout 0)
    (mkSwarmRunStatus phase steps "" (match phase with RunUnset => None | _ => Some 0 end) None None "" None 0 []).

Definition object_of (run : SwarmRun) : run_object := mkRunObject false [swarmRunFinalizer] ∅ run.

(** Every submission is accepted and nothing has answered yet. *)
Definition quiet_env : run_env :=
  mkRunEnv (second * 100) (λ _ _, NotFound) (λ _ _, NotFound) (λ _, Ok []) "" "" ∅ (λ _ _, Ok "task")
    (λ _ _, Ok []) None (mkRangedIndex ∅ [] []) None None None (λ _ _ _ _, f64_zero) (λ _, [])
    ["a"; "b"] [""] (λ l, l) false.

Lemma Reconcile_terminal_witness :
  ∃ f, toy_run_reconcile (working_env quiet_env) (object_of (with_phase RunFailed [] "" 0)) = Finished f ∧
    eff_submitted (out_eff f) = [].
Proof.
  destruct (@Reconcile_terminal toy_template toy_json toy_template toy_regexp toy_float toy_case toy_url list_conditions
    toy_router rand_first toy_search_json merge_sort_by merge_sort_by (λ n, n)
    (working_env quiet_env) (object_of (with_phase RunFailed [] "" 0)) eq_refl) as (f & Hf & _ & Hs & _).
  exists f. split; [exact Hf|exact Hs].
Defined.

Definition released_object : run_object := mkRunObject false [] ∅ (with_phase RunSucceeded [] "" 0).

Lemma Reconcile_terminal_churns_witness :
  ∃ f, toy_run_reconcile (working_env quiet_env) released_object = Finished f ∧
    out_obj f = Some released_object ∧
    out_writes f = [WriteFinalizers [swarmRunFinalizer]; WriteFinalizers []].
Proof.
  eexists. split.
  - apply (@Reconcile_terminal_churns toy_template toy_json toy_template toy_regexp toy_float toy_case toy_url
      list_conditions toy_router rand_first toy_search_json merge_sort_by merge_sort_by (λ n, n) (working_env quiet_env) released_object); reflexivity.
  - split; reflexivity.
Defined.

Lemma Reconcile_forward_witness :
  ∃ o', object_after (toy_run_reconcile (working_env quiet_env) (object_of (with_phase RunUnset [] "" 0))) = Some o' ∧
    phase_step RunUnset (Phase (Status (obj_Run o'))) ∧ Phase (Status (obj_Run o')) = RunRunning.
Proof.
  destruct (object_after (toy_run_reconcile (working_env quiet_env) (object_of (with_phase RunUnset [] "" 0))))
    as [o'|] eqn:E; [|vm_compute in E; discriminate].
  exists o'. split; [reflexivity|]. split.
  - exact (@Reconcile_forward toy_template toy_json toy_template toy_regexp toy_float toy_case toy_url list_conditions
      toy_router rand_first toy_search_json merge_sort_by merge_sort_by (λ n, n) _ _ _ E).
  - vm_compute in E. injection E as <-. reflexivity.
Defined.

Lemma Reconcile_error_keeps_status_witness :
  ∃ f o', toy_run_reconcile (working_env one_slot_env) two_steps_object = Finished f ∧
    out_obj f = Some o' ∧ Status (obj_Run o') = Status two_steps_run.
Proof.
  destruct (toy_run_reconcile (working_env one_slot_env) two_steps_object) as [f| |] eqn:E;
    [|vm_compute in E; discriminate..].
  destruct (out_error f) as [e|] eqn:Ee; [|vm_compute in E; injection E as <-; discriminate].
  destruct (out_obj f) as [o'|] eqn:Eo; [|vm_compute in E; injection E as <-; discriminate].
  exists f, o'. split; [reflexivity|]. split; [exact Eo|].
  exact (@Reconcile_error_keeps_status toy_template toy_json toy_template toy_regexp toy_float toy_case toy_url
    list_conditions toy_router rand_first toy_search_json merge_sort_by merge_sort_by (λ n, n) _ two_steps_object o' f e E Ee Eo).
Defined.

(** A team whose optional parameter has a default. *)
Definition defaulting_env : ctrl_env :=
  mkCtrlEnv quiet_env idle_search true false
    (λ _ _, Found (team_with [mkSwarmTeamInputSpec "lang" "string" "" false "en"]))
    (λ _, Ok []) None None (λ _, None) None None 2.

Lemma Reconcile_defaults_lost_witness :
  let o := object_of (with_phase RunUnset [] "" 0) in
  validateAndDefaultInputs (get_team defaulting_env) (obj_Run o) = Ok {["lang" := "en"]} ∧
  ∃ o', object_after (toy_run_reconcile defaulting_env o) = Some o' ∧
    Input (Spec (obj_Run o')) = ∅ ∧
    @admission toy_float list_conditions defaulting_env (obj_Run o') = inl (obj_Run o').
Proof.
  intros o. split; [vm_compute; reflexivity|].
  destruct (object_after (toy_run_reconcile defaulting_env o)) as [o'|] eqn:E; [|vm_compute in E; discriminate].
  exists o'. split; [reflexivity|].
  destruct (@Reconcile_defaults_lost toy_template toy_json toy_template toy_regexp toy_float toy_case toy_url
    list_conditions toy_router rand_first toy_search_json merge_sort_by merge_sort_by (λ n, n) defaulting_env defaulting_env o o' E) as [H1 H2].
  split; [exact H1|]. apply H2. vm_compute in E. injection E as <-. reflexivity.
Defined.

Lemma Reconcile_requeues_running_witness :
  ∃ f, toy_run_reconcile (working_env quiet_env) (object_of (with_phase RunUnset [] "" 0)) = Finished f ∧
    out_requeue f = true.
Proof.
  destruct (toy_run_reconcile (working_env quiet_env) (object_of (with_phase RunUnset [] "" 0)))
    as [f| |] eqn:E; [|vm_compute in E; discriminate..].
  destruct (out_obj f) as [o'|] eqn:Eo; [|vm_compute in E; injection E as <-; discriminate].
  exists f. split; [reflexivity|].
  apply (@Reconcile_requeues_running toy_template toy_json toy_template toy_regexp toy_float toy_case toy_url
    list_conditions toy_router rand_first toy_search_json merge_sort_by merge_sort_by (λ n, n) (working_env quiet_env) (object_of (with_phase RunUnset [] "" 0)) o' f eq_refl eq_refl E);
    [|exact Eo|]; vm_compute in E; injection E as <-; [reflexivity|]; injection Eo as <-; reflexivity.
Defined.

Definition overdue_run : SwarmRun :=
  with_phase RunRunning [start_step 1 "task" (new_step "a" StepPending); new_step "b" StepPending] "" 60.

Lemma timeout_cancels_nothing_witness :
  let run' := (@EnforceRunTimeout list_conditions overdue_run (second * 100)).2 in
  eff_cancelled (@timed_out_run toy_url list_conditions quiet_env false run').2 = [].
Proof.
  intros run'. apply (@timeout_cancels_nothing toy_url list_conditions quiet_env false overdue_run run' (second * 100)).
  - vm_compute. reflexivity.
  - intros st Hin. simpl in Hin. rewrite !elem_of_cons, elem_of_nil in Hin.
    destruct Hin as [->|[->|[]]]; discriminate.
Defined.

Lemma reconcileAgentRun_mirrors_witness :
  ∃ run' eff, @reconcileAgentRun toy_float toy_url list_conditions quiet_env true
      (with_phase RunUnset [] "writer" 60) = Update run' eff ∧
    (length (eff_submitted eff) ≤ 1)%nat ∧ Phase (Status run') = RunRunning.
Proof.
  destruct (@reconcileAgentRun toy_float toy_url list_conditions quiet_env true
      (with_phase RunUnset [] "writer" 60)) as [run' eff| |] eqn:E; [|vm_compute in E; discriminate..].
  destruct (@reconcileAgentRun_mirrors toy_float toy_url list_conditions quiet_env true
      (with_phase RunUnset [] "writer" 60) run' eff eq_refl ltac:(vm_compute; reflexivity) E)
    as (st & rest & Hs & Hp & Hl & _).
  exists run', eff. split; [reflexivity|]. split; [exact Hl|].
  vm_compute in E. injection E as <- <-. reflexivity.
Defined.

Lemma agent_run_unbudgeted_witness :
  let o := object_of (with_phase RunUnset [] "writer" 60) in
  toy_run_reconcile (with_budgets (working_env quiet_env) (λ _, Ok [hard_budget]) None
    (Some (λ _ _, Ok (f64_of_Z 100)))) o = toy_run_reconcile (working_env quiet_env) o.
Proof.
  intros o. apply (@agent_run_unbudgeted toy_template toy_json toy_template toy_regexp toy_float toy_case toy_url
    list_conditions toy_router rand_first toy_search_json merge_sort_by merge_sort_by (λ n, n)).
  discriminate.
Defined.
