(* ===== verification/PipelineProps.v ===== *)
(** * PipelineProps: a pipeline run from its steps to its verdict

    Every stage of a reconciliation keeps the list of step statuses in step with the
    pipeline, one status per pipeline step and in its order; so a run that is reported
    Succeeded has done every step of its pipeline.  No passes make a step loop more often
    than its maximum. *)
From Stdlib Require Import ZArith Lia Ascii.
From stdpp Require Import base tactics option list strings gmap relations.
From S2P Require Import Prelude GoStd Types Costs Queue Kube AgentTypes Dag Context Template.
From S2P Require Import RunState RunProps Validate Registry RegistryController Routing Dispatch DispatchProps.
From S2P Require Import Collect CollectProps AgentRun Admission Search SearchRun SearchInv.
From S2P Require Import RunController RunControllerProps.

Definition names (steps : list PipelineStepStatus) : list string := step_Name <$> steps.

(** One status per step of the pipeline, in its order. *)
Definition aligned (run : SwarmRun) : Prop :=
  names (Steps (Status run)) = Role <$> Pipeline (Spec run).

(** ** Lemmas: lists of statuses with the same names and loop counts *)
Definition counter (st : PipelineStepStatus) : string * Z := (step_Name st, step_Iterations st).
Definition loop_counts (steps : list PipelineStepStatus) : list (string * Z) := counter <$> steps.

Lemma counters_names steps steps' : loop_counts steps' = loop_counts steps → names steps' = names steps.
Proof.
  intros E. apply (f_equal (fmap fst)) in E. unfold loop_counts in E. by rewrite <- !list_fmap_compose in E.
Qed.

Lemma counters_map f steps :
  (∀ st, counter (f st) = counter st) → loop_counts (f <$> steps) = loop_counts steps.
Proof. intros H. unfold loop_counts. rewrite <- list_fmap_compose. apply list_fmap_ext. intros i st _. apply H. Qed.

Lemma counters_insert (steps : list PipelineStepStatus) i st st' :
  steps !! i = Some st → counter st' = counter st → loop_counts (<[i := st']> steps) = loop_counts steps.
Proof.
  intros Hi E. unfold loop_counts. rewrite list_fmap_insert, E. apply list_insert_id.
  by rewrite list_lookup_fmap, Hi.
Qed.

Lemma counters_alter f (steps : list PipelineStepStatus) i :
  (∀ st, counter (f st) = counter st) → loop_counts (alter f i steps) = loop_counts steps.
Proof.
  intros H. apply list_eq. intros j. unfold loop_counts. rewrite !list_lookup_fmap.
  destruct (decide (i = j)) as [->|]; [|by rewrite list_lookup_alter_ne].
  rewrite list_lookup_alter_eq. destruct (steps !! j); simpl; [by rewrite H|done].
Qed.

Lemma counters_pointwise (steps steps' : list PipelineStepStatus) :
  length steps' = length steps →
  (∀ i st st', steps !! i = Some st → steps' !! i = Some st' → counter st' = counter st) →
  loop_counts steps' = loop_counts steps.
Proof.
  intros Hl H. apply list_eq_same_length with (length steps); [by unfold loop_counts; rewrite length_fmap|
    by unfold loop_counts; rewrite length_fmap|].
  intros i x y _. unfold loop_counts. rewrite !list_lookup_fmap.
  destruct (steps' !! i) eqn:E1, (steps !! i) eqn:E2; simpl; intros; simplify_eq. by eapply H.
Qed.

(** ** Lemmas: the stages *)
Section stages.
Context {jsonApi : JsonApi} {templateApi : TemplateApi} {regexpApi : RegexpApi}
        {floatText : FloatText} {caseApi : CaseApi} {urlApi : UrlApi}
        {conditionApi : ConditionApi} {randApi : RandApi}.

Lemma parse_named_counters pipeline m steps name : loop_counts (parse_named pipeline m steps name) = loop_counts steps.
Proof.
  unfold parse_named. repeat case_match; [|done..]. apply counters_alter.
  intros st. unfold parse_step_json. repeat case_match; done.
Qed.

Lemma parse_counters f m order :
  loop_counts (Steps (Status (ParseRunOutputJSON f m order))) = loop_counts (Steps (Status f)).
Proof.
  unfold ParseRunOutputJSON. simpl. generalize (Steps (Status f)).
  induction order as [|name order IH]; intros l; simpl; [done|]. by rewrite IH, parse_named_counters.
Qed.

Lemma loop_step_names data m steps step : names (loop_step data m steps step) = names steps.
Proof.
  unfold loop_step. repeat case_match; try done. unfold names. rewrite list_fmap_insert.
  apply list_insert_id. rewrite list_lookup_fmap. by match goal with H : _ !! _ = Some _ |- _ => rewrite H end.
Qed.

Lemma loop_names f m data :
  names (Steps (Status (EvaluateRunLoops f m data))) = names (Steps (Status f)).
Proof.
  unfold EvaluateRunLoops. simpl. generalize (Steps (Status f)).
  induction (Pipeline (Spec f)) as [|step p IH]; intros l; simpl; [done|]. by rewrite IH, loop_step_names.
Qed.

Lemma timeout_counters f now :
  loop_counts (Steps (Status (EnforceRunTimeout f now).2)) = loop_counts (Steps (Status f)).
Proof.
  unfold EnforceRunTimeout. repeat case_match; try done. simpl. apply counters_map.
  intros st. unfold fail_step. by case_match.
Qed.

Lemma collect_counters env run maps steps m steps' spends :
  collectResults env run maps steps m = Collected steps' spends → loop_counts steps' = loop_counts steps.
Proof.
  unfold collectResults. destruct (group_steps _ _ _ _ _ _ _ _) as [byQueue|e]; [|done].
  intros H. apply poll_queues_writes in H as (Hl & Hw & _). apply counters_pointwise; [done|].
  intros i st st' H1 H2. destruct (Hw i st H1) as (s & Hs & Hw'). simplify_eq.
  unfold counter. by destruct (written_frame _ _ _ _ _ _ Hw') as [-> ->].
Qed.

Lemma moves_counters run m s s' :
  rtc (some_move run m) s s' → loop_counts (sub_steps s') = loop_counts (sub_steps s).
Proof.
  induction 1 as [|s1 s2 s3 (step & _ & Hm) _ IH]; [done|]. rewrite IH.
  destruct (step_move_at run m step s1 s2 Hm) as [->|(i & st & st' & Hi & _ & -> & (Hn & _ & _ & Hi'))]; [done|].
  apply (counters_insert _ _ st); [done|]. unfold counter. by rewrite Hn, Hi'.
Qed.

Lemma verdict_counters now f data :
  loop_counts (Steps (Status (UpdateRunPipelinePhase now f data))) = loop_counts (Steps (Status f)).
Proof.
  unfold UpdateRunPipelinePhase. pose proof (timeout_counters f now) as Ht.
  destruct (EnforceRunTimeout f now) as [[] f1] eqn:E; simpl in Ht; [exact Ht|].
  pose proof (SumRunStepTokens_frame f1) as (_ & Hs & _). destruct (SumRunStepTokens f1) as [n f2].
  simpl in Hs. rewrite <- Ht, <- Hs. unfold loop_counts. f_equal.
  repeat case_match; simpl in *; congruence.
Qed.
End stages.

(** ** The reconciliation *)
Section pipeline.
Context (routerTemplate : TemplateApi) {jsonApi : JsonApi} {templateApi : TemplateApi}
        {regexpApi : RegexpApi} {floatText : FloatText} {caseApi : CaseApi} {urlApi : UrlApi}
        {conditionApi : ConditionApi} {routerJson : RouterJson} {randApi : RandApi}
        {sortCaps : SliceSort IndexedCapability}.

Lemma initialize_aligned env run :
  Routing (Spec run) = None → Phase (Status run) = RunUnset ∨ aligned run →
  aligned (initialize env run) ∧ Spec (initialize env run) = Spec run.
Proof.
  unfold initialize, InitializeRunSteps. intros -> H. case_decide as Hd; [by destruct H|].
  split; [|done]. unfold aligned, names. simpl. rewrite <- list_fmap_compose.
  apply list_fmap_ext. done.
Qed.

Lemma verdict_spec now f data : Spec (UpdateRunPipelinePhase now f data) = Spec f.
Proof.
  unfold UpdateRunPipelinePhase. destruct (EnforceRunTimeout f now) as [[] f1] eqn:E.
  { unfold EnforceRunTimeout in E. repeat case_match; by simplify_eq/=. }
  apply EnforceRunTimeout_quiet in E as ->.
  pose proof (SumRunStepTokens_frame f) as (_ & _ & Hs & _). destruct (SumRunStepTokens f) as [n f2].
  simpl in Hs. repeat case_match; simpl; congruence.
Qed.

(** A verdict of success is only given when every step is done. *)
Lemma verdict_success now f data :
  IsTerminalRunPhase (Phase (Status f)) = false →
  Phase (Status (UpdateRunPipelinePhase now f data)) = RunSucceeded →
  ∀ st, st ∈ Steps (Status (UpdateRunPipelinePhase now f data)) → step_done st = true.
Proof.
  intros Hp. unfold UpdateRunPipelinePhase. destruct (EnforceRunTimeout f now) as [[] f1] eqn:E.
  { apply EnforceRunTimeout_fired in E. congruence. }
  apply EnforceRunTimeout_quiet in E as ->.
  pose proof (SumRunStepTokens_frame f) as (Hph & Hs & _). destruct (SumRunStepTokens f) as [n f2].
  simpl in Hph, Hs. destruct (_ && _); [done|].
  destruct (Steps (Status f2)) as [|s0 rest] eqn:Est; [intros E; rewrite Hph in E; by rewrite E in Hp|].
  pose proof (scan_phases_spec (s0 :: rest)) as [_ Hscan].
  destruct (scan_phases (s0 :: rest)) as [[] []]; simpl in *; [done|done| |intros E; rewrite Hph in E; by rewrite E in Hp].
  intros _. assert (∀ st, st ∈ s0 :: rest → step_done st = true) as Hall by (by apply Hscan).
  intros st Hin. apply Hall. rewrite <- Est. revert Hin. repeat case_match; done.
Qed.

Lemma settle_aligned (env : ctrl_env) run steps data :
  aligned run → names steps = names (Steps (Status run)) → IsTerminalRunPhase (Phase (Status run)) = false →
  let run' := UpdateRunPipelinePhase (run_now (ce_run env)) (set_steps run steps) data in
  aligned run' ∧ Spec run' = Spec run ∧
  (Phase (Status run') = RunSucceeded → ∀ st, st ∈ Steps (Status run') → step_done st = true).
Proof.
  intros Ha Hn Hp run'. assert (Spec run' = Spec run) as Hs
    by exact (verdict_spec (run_now (ce_run env)) (set_steps run steps) data).
  split; [|split; [done|exact (verdict_success _ (set_steps run steps) data Hp)]].
  unfold aligned. rewrite Hs. subst run'. rewrite (counters_names _ _ (verdict_counters _ _ _)). simpl. by rewrite Hn.
Qed.

Lemma advance_aligned (env : ctrl_env) run m maps spends run' eff :
  Routing (Spec run) = None → aligned run → IsTerminalRunPhase (Phase (Status run)) = false →
  advance_run routerTemplate env run m maps spends = Update run' eff →
  aligned run' ∧ Spec run' = Spec run ∧
  (Phase (Status run') = RunSucceeded → ∀ st, st ∈ Steps (Status run') → step_done st = true).
Proof.
  intros Hr Ha Hp. unfold advance_run. rewrite Hr. set (data := BuildRunTemplateData _ _ _).
  set (run1 := EvaluateRunLoops _ m data).
  assert (names (Steps (Status run1)) = names (Steps (Status run))) as Hn.
  { subst run1. rewrite loop_names. apply counters_names, parse_counters. }
  assert (Spec run1 = Spec run ∧ Phase (Status run1) = Phase (Status run)) as [Hs1 Hp1] by done.
  assert (aligned run1) as Ha1 by (unfold aligned; rewrite Hn, Hs1; exact Ha).
  destruct (submitPendingSteps _ _ _ _ _ _) as [s|s e|] eqn:Es; [|done..].
  intros [= <- _]. rewrite <- Hs1. rewrite <- Hp1 in Hp. apply (settle_aligned env run1 (sub_steps s) data Ha1); [|done].
  assert (rtc (some_move run1 m) (mkSubmitState (Steps (Status run1)) [] ∅) s) as Hm.
  { eapply submit_steps_moves; [done|]. unfold submitPendingSteps in Es. by rewrite Es. }
  by apply moves_counters, counters_names in Hm.
Qed.

(** C6: success is complete: a pipeline run that is new, or has one status per pipeline step,
    has one after every reconciliation that gets to the status update, in the order of the
    pipeline; and when the run is then Succeeded, every step of its pipeline has been
    Succeeded or Skipped. *)
Theorem pipeline_success_complete (env : ctrl_env) (run run' : SwarmRun) (eff : effects) :
  Routing (Spec run) = None → IsTerminalRunPhase (Phase (Status run)) = false →
  Phase (Status run) = RunUnset ∨ aligned run →
  reconcilePipelineRun routerTemplate env run = Update run' eff →
  Spec run' = Spec run ∧ aligned run' ∧
  (Phase (Status run') = RunSucceeded →
     ∀ step, step ∈ Pipeline (Spec run) →
       ∃ st, st ∈ Steps (Status run') ∧ step_Name st = Role step ∧ step_done st = true).
Proof.
  intros Hr Hp Hal Hrec.
  assert (aligned run' ∧ Spec run' = Spec run ∧
    (Phase (Status run') = RunSucceeded → ∀ st, st ∈ Steps (Status run') → step_done st = true))
    as (Ha & Hs & Hdone).
  2: { split; [done|]. split; [done|]. intros Hsucc step Hin. rewrite <- Hs in Hin.
       assert (Role step ∈ names (Steps (Status run'))) as Hn by (rewrite Ha; by apply list_elem_of_fmap_2).
       apply list_elem_of_fmap in Hn as (st & -> & Hst). exists st. auto. }
  revert Hrec. unfold reconcilePipelineRun.
  destruct (initialize_aligned env run Hr Hal) as [Ha Hs].
  assert (IsTerminalRunPhase (Phase (Status (initialize env run))) = false) as Hp1.
  { unfold initialize, InitializeRouteStep, InitializeRunSteps. repeat case_match; done. }
  set (run1 := initialize env run) in *.
  pose proof (counters_names _ _ (timeout_counters run1 (run_now (ce_run env)))) as Hn.
  destruct (EnforceRunTimeout run1 _) as [[] run2] eqn:E; simpl in Hn.
  - pose proof (EnforceRunTimeout_fired _ _ _ E) as Hf.
    assert (Spec run2 = Spec run1) as Hs2 by (unfold EnforceRunTimeout in E; repeat case_match; by simplify_eq/=).
    intros [= <- _]. simpl. rewrite Hf. split; [|split; [congruence|done]].
    unfold aligned. simpl. rewrite Hn, Hs2. exact Ha.
  - apply EnforceRunTimeout_quiet in E as ->. rewrite <- Hs.
    destruct (collectResults _ _ _ _ _) as [steps spends|spends e|] eqn:Ec; [|done..].
    apply collect_counters, counters_names in Ec.
    apply (advance_aligned env (set_steps run1 steps)); [by simpl; rewrite Hs| |exact Hp1].
    unfold aligned. simpl. by rewrite Ec.
Qed.

(** *** Loops *)
Lemma routed_counters env run m steps log steps' log' e :
  submitRoutedStep routerTemplate env run m steps log = Some (steps', log', e) →
  loop_counts steps' = loop_counts steps.
Proof.
  unfold submitRoutedStep. destruct (m !! "route") as [i|]; [|by intros [= <- <- <-]].
  destruct (steps !! i) as [st|] eqn:Ei; [|by intros [= <- <- <-]].
  case_decide; [by intros [= <- <- <-]|].
  assert (Hi : ∀ st', counter st' = counter st → loop_counts (<[i := st']> steps) = loop_counts steps)
    by (intros; by apply (counters_insert _ _ st)).
  repeat case_match; intros; simplify_eq; rewrite ?list_insert_insert_eq; by apply Hi.
Qed.

Lemma counters_ok pipeline steps steps' : loop_counts steps' = loop_counts steps →
  Forall (iterations_ok pipeline) steps → Forall (iterations_ok pipeline) steps'.
Proof.
  intros E. rewrite !Forall_forall. intros Hok st' (i & Hi)%list_elem_of_lookup_1.
  apply (f_equal (lookup i)) in E. unfold loop_counts in E. rewrite !list_lookup_fmap, Hi in E.
  destruct (steps !! i) as [st|] eqn:Es; [|done]. injection E as Hn Ht.
  eapply iterations_ok_counters; [done..|]. by eapply Hok, list_elem_of_lookup_2.
Qed.

Lemma initialize_ok env run :
  Phase (Status run) = RunUnset ∨ Forall (iterations_ok (Pipeline (Spec run))) (Steps (Status run)) →
  Spec (initialize env run) = Spec run ∧
  Forall (iterations_ok (Pipeline (Spec run))) (Steps (Status (initialize env run))).
Proof.
  unfold initialize, InitializeRouteStep, InitializeRunSteps. intros H.
  destruct (Routing (Spec run)); case_decide; (split; [done|]); [by destruct H| |by destruct H|].
  - simpl. repeat constructor.
  - simpl. apply Forall_fmap, Forall_true. by left.
Qed.

(** The status index of a run points to steps of the names it is asked for. *)
Lemma index_names run steps name i : names steps = names (Steps (Status run)) →
  BuildRunStatusByName run !! name = Some i → (step_Name <$> steps) !! i = Some name.
Proof. intros E Hm. change (names steps !! i = Some name). rewrite E. by apply status_index_sound. Qed.

Lemma advance_ok (env : ctrl_env) run0 run maps spends run' eff :
  loops_fit (Pipeline (Spec run)) → names (Steps (Status run)) = names (Steps (Status run0)) →
  Forall (iterations_ok (Pipeline (Spec run))) (Steps (Status run)) →
  advance_run routerTemplate env run (BuildRunStatusByName run0) maps spends = Update run' eff →
  Forall (iterations_ok (Pipeline (Spec run))) (Steps (Status run')).
Proof.
  intros Hf Hn Hok. unfold advance_run. set (data := BuildRunTemplateData _ _ _).
  set (m := BuildRunStatusByName run0). destruct (Routing (Spec run)) as [cfg|].
  - destruct (submitRoutedStep _ _ _ _ _ _) as [[[steps log] [e|]]|] eqn:Er; [done| |done].
    intros [= <- _]. apply routed_counters in Er. eapply counters_ok; [|exact Hok].
    etrans; [apply verdict_counters|]. exact Er.
  - set (run1 := ParseRunOutputJSON run m _). set (run2 := EvaluateRunLoops run1 m data).
    assert (Hok2 : Forall (iterations_ok (Pipeline (Spec run))) (Steps (Status run2))).
    { apply loop_fold_ok; [done|done| |].
      - intros name i Hm. eapply index_names; [|exact Hm].
        etrans; [apply counters_names, parse_counters|exact Hn].
      - eapply counters_ok; [apply parse_counters|exact Hok]. }
    destruct (submitPendingSteps _ _ _ _ _ _) as [s|s e|] eqn:Es; [|done..].
    intros [= <- _]. eapply counters_ok; [|exact Hok2]. etrans; [apply verdict_counters|].
    apply (moves_counters run2 m (mkSubmitState (Steps (Status run2)) [] ∅)).
    eapply submit_steps_moves; [done|]. unfold submitPendingSteps in Es. by rewrite Es.
Qed.

Lemma pass_ok (env : ctrl_env) run run' eff :
  loops_fit (Pipeline (Spec run)) →
  Phase (Status run) = RunUnset ∨ Forall (iterations_ok (Pipeline (Spec run))) (Steps (Status run)) →
  reconcilePipelineRun routerTemplate env run = Update run' eff →
  Forall (iterations_ok (Pipeline (Spec run))) (Steps (Status run')).
Proof.
  intros Hf H. destruct (initialize_ok env run H) as [Hs Hok]. unfold reconcilePipelineRun.
  set (run1 := initialize env run) in *. pose proof (timeout_counters run1 (run_now (ce_run env))) as Ht.
  destruct (EnforceRunTimeout run1 _) as [[] run2] eqn:E; simpl in Ht.
  - intros [= <- _]. simpl. by eapply counters_ok.
  - apply EnforceRunTimeout_quiet in E as ->. rewrite <- Hs in *.
    destruct (collectResults _ _ _ _ _) as [steps spends|spends e|] eqn:Ec; [|done..].
    apply collect_counters in Ec. intros Ha. apply (advance_ok env run1 (set_steps run1 steps)) in Ha; [exact Ha|done| |].
    + by apply counters_names.
    + by eapply counters_ok.
Qed.

(** The statuses that passes over a run of this pipeline can leave.  A run starts without a phase;
    between passes its spec may change, but for the pipeline, and a pass that ends in an error
    leaves the status as it was. *)
Inductive run_reach (pipeline : list SwarmTeamPipelineStep) : SwarmRunStatus → Prop :=
| reach_first env run run' eff :
    Pipeline (Spec run) = pipeline → Phase (Status run) = RunUnset →
    reconcilePipelineRun routerTemplate env run = Update run' eff → run_reach pipeline (Status run')
| reach_next env run run' eff :
    Pipeline (Spec run) = pipeline → run_reach pipeline (Status run) →
    reconcilePipelineRun routerTemplate env run = Update run' eff → run_reach pipeline (Status run').

(** C28: in every status that reconciliations of a run leave, whatever queues, agents, clocks and
    templates answer, a step has looped at most [maxIterations] times (10 when unset), and only
    steps that declare a loop have looped at all: no result, retry of a rejected output, submission
    or timeout resets the count. *)
Theorem loop_iterations_bounded pipeline status st :
  loops_fit pipeline → run_reach pipeline status → st ∈ Steps status →
  step_Iterations st = 0 ∨
  ∃ s loop, s ∈ pipeline ∧ Role s = step_Name st ∧ Loop s = Some loop ∧
            1 ≤ step_Iterations st ≤ loop_max loop.
Proof.
  intros Hf Hr. revert st. change (∀ st, st ∈ Steps status → iterations_ok pipeline st).
  rewrite <- Forall_forall.
  induction Hr as [env run run' eff <- Hp H|env run run' eff <- _ IH H]; eapply pass_ok; eauto.
Qed.
End pipeline.

(** ** Witness *)
Definition last_step_run : SwarmRun :=
  mkSwarmRun "r" "ns" 1
    (mkSwarmRunSpec "team" "" "" 0 ∅ "" [plain_step "a" []; plain_step "b" ["a"]] None [] "" None None 60 0)
    (mkSwarmRunStatus RunRunning
       [new_step "a" StepSucceeded; start_step 0 "task-b" (new_step "b" StepPending)]
       "" (Some 0) None None "" None 0 []).

Lemma pipeline_success_complete_witness :
  ∃ run' eff, @reconcilePipelineRun toy_template toy_json toy_template toy_regexp toy_float toy_case toy_url
      list_conditions toy_router rand_first merge_sort_by (working_env (answering_env "fine")) last_step_run
      = Update run' eff ∧
    Phase (Status run') = RunSucceeded ∧
    ∀ step, step ∈ Pipeline (Spec last_step_run) →
      ∃ st, st ∈ Steps (Status run') ∧ step_Name st = Role step ∧ step_done st = true.
Proof.
  destruct (@reconcilePipelineRun toy_template toy_json toy_template toy_regexp toy_float toy_case toy_url
      list_conditions toy_router rand_first merge_sort_by (working_env (answering_env "fine")) last_step_run)
    as [run' eff| |] eqn:E; [|vm_compute in E; discriminate..].
  exists run', eff. split; [reflexivity|].
  destruct (@pipeline_success_complete toy_template toy_json toy_template toy_regexp toy_float toy_case toy_url
    list_conditions toy_router rand_first merge_sort_by (working_env (answering_env "fine")) last_step_run
    run' eff eq_refl eq_refl (or_intror eq_refl) E) as (_ & _ & H).
  assert (Phase (Status run') = RunSucceeded) as Hs by (vm_compute in E; injection E as <- _; reflexivity).
  split; [exact Hs|exact (H Hs)].
Defined.

(** A run whose first step loops, after passes whose queues answer every task. *)
Definition loop_pass := @reconcilePipelineRun toy_template toy_json toy_template toy_regexp toy_float toy_case toy_url
  list_conditions toy_router rand_first merge_sort_by (working_env (answering_env "fine")).

Lemma loop_iterations_bounded_witness :
  ∃ run1 eff1 run2 eff2 st, loop_pass (looping_run RunUnset []) = Update run1 eff1 ∧
    loop_pass run1 = Update run2 eff2 ∧
    Steps (Status run2) !! 0%nat = Some st ∧ step_Iterations st = 1 ∧ step_Iterations st ≤ 3.
Proof.
  destruct (loop_pass (looping_run RunUnset [])) as [run1 eff1| |] eqn:E1; [|vm_compute in E1; discriminate..].
  destruct (loop_pass run1) as [run2 eff2| |] eqn:E2; [|vm_compute in E1; injection E1 as <- _; vm_compute in E2; discriminate..].
  destruct (Steps (Status run2) !! 0%nat) as [st|] eqn:Es;
    [|vm_compute in E1; injection E1 as <- _; vm_compute in E2; injection E2 as <- _; discriminate].
  exists run1, eff1, run2, eff2, st. split; [reflexivity|]. split; [exact E2|]. split; [exact Es|]. split.
  { vm_compute in E1; injection E1 as <- _; vm_compute in E2; injection E2 as <- _.
    vm_compute in Es. injection Es as <-. reflexivity. }
  destruct (@loop_iterations_bounded toy_template toy_json toy_template toy_regexp toy_float toy_case toy_url
    list_conditions toy_router rand_first merge_sort_by (Pipeline (Spec (looping_run RunUnset []))) (Status run2) st)
    as [H0|(s & loop & Hs & _ & Hl & _ & Hle)].
  - intros s loop Hs Hl. simpl in Hs. rewrite !elem_of_cons, elem_of_nil in Hs.
    destruct Hs as [->|[->|[]]]; simplify_eq/=. unfold in_width, min_int, max_int. simpl. lia.
  - eapply reach_next; [|eapply reach_first; [| |exact E1]|exact E2]; [|reflexivity..].
    vm_compute in E1. injection E1 as <- _. reflexivity.
  - by apply (list_elem_of_lookup_2 _ 0%nat).
  - rewrite H0. lia.
  - simpl in Hs. rewrite !elem_of_cons, elem_of_nil in Hs. destruct Hs as [->|[->|[]]]; simplify_eq/=. exact Hle.
Defined.
