(* ===== verification/Breaker.v ===== *)
(** * Breaker: the circuit breaker of the agent runtime (pkg/agent/circuit/breaker.go).

    The methods run under the breaker's mutex, so an execution of any number of goroutines
    is a sequence of method calls; a call that reads the clock takes the time it reads. *)
From Stdlib Require Import ZArith Lia.
From stdpp Require Import base tactics option list numbers strings.
From S2P Require Import Prelude GoStd.

(** [State]. *)
Inductive BreakerState := StateClosed | StateOpen | StateHalfOpen.
#[export] Instance BreakerState_eq_dec : EqDecision BreakerState.
Proof. solve_decision. Defined.

(** [lastFailureTime] is in nanoseconds; the zero [time.Time] lies far before the epoch. *)
Record Breaker := mkBreaker {
  b_state : BreakerState;
  failureThreshold : Z;
  halfOpenMaxCalls : Z;
  cooldown : Z;
  consecutiveFailures : Z;
  halfOpenCalls : Z;
  lastFailureTime : Z }.
#[export] Instance settable_Breaker : Settable Breaker :=
  λ x, mkBreaker (b_state x) (failureThreshold x) (halfOpenMaxCalls x) (cooldown x)
         (consecutiveFailures x) (halfOpenCalls x) (lastFailureTime x).

Definition NewBreaker (threshold maxCalls cool : Z) : Breaker :=
  mkBreaker StateClosed threshold maxCalls cool 0 0 zero_time.

Definition cooled (b : Breaker) (now : Z) : bool := cooldown b <=? time_Sub now (lastFailureTime b).

(** [Allow]: true for a nil error, false for [ErrCircuitOpen]. *)
Definition Allow (now : Z) (b : Breaker) : bool * Breaker :=
  match b_state b with
  | StateClosed => (true, b)
  | StateOpen =>
      if cooled b now then (true, b <| b_state := StateHalfOpen |> <| halfOpenCalls := 0 |>)
      else (false, b)
  | StateHalfOpen =>
      if halfOpenCalls b <? halfOpenMaxCalls b
      then (true, b <| halfOpenCalls := wrap64 (halfOpenCalls b + 1) |>)
      else (false, b)
  end.

Definition RecordSuccess (b : Breaker) : Breaker :=
  let b := b <| consecutiveFailures := 0 |> in
  if decide (b_state b = StateHalfOpen)
  then b <| b_state := StateClosed |> <| halfOpenCalls := 0 |> else b.

Definition RecordFailure (now : Z) (b : Breaker) : Breaker :=
  let b := b <| consecutiveFailures := wrap64 (consecutiveFailures b + 1) |>
             <| lastFailureTime := now |> in
  match b_state b with
  | StateClosed =>
      if failureThreshold b <=? consecutiveFailures b then b <| b_state := StateOpen |> else b
  | StateHalfOpen => b <| b_state := StateOpen |> <| halfOpenCalls := 0 |>
  | StateOpen => b
  end.

(** [State], which also performs the transition out of the open state. *)
Definition State (now : Z) (b : Breaker) : BreakerState * Breaker :=
  let b := if decide (b_state b = StateOpen ∧ cooled b now)
           then b <| b_state := StateHalfOpen |> <| halfOpenCalls := 0 |> else b in
  (b_state b, b).

Definition ConsecutiveFailures (b : Breaker) : Z := consecutiveFailures b.

(** ** Executions: the calls with the times they read and the answers of [Allow] *)
Inductive call :=
| CallAllow (now : Z)
| CallSuccess
| CallFailure (now : Z)
| CallState (now : Z).

Definition perform (b : Breaker) (c : call) : Breaker :=
  match c with
  | CallAllow now => snd (Allow now b)
  | CallSuccess => RecordSuccess b
  | CallFailure now => RecordFailure now b
  | CallState now => snd (State now b)
  end.
Definition performs : Breaker → list call → Breaker := foldl perform.

(** What the history of calls determines: the failures since the last success, and the
    time of the last failure. *)
Definition count_failure (n : Z) (c : call) : Z :=
  match c with CallFailure _ => n + 1 | CallSuccess => 0 | _ => n end.
Definition failure_run : list call → Z := foldl count_failure 0.
Definition note_failure (t : Z) (c : call) : Z :=
  match c with CallFailure now => now | _ => t end.
Definition last_failure : list call → Z := foldl note_failure zero_time.

Definition allowed_calls (b : Breaker) (times : list Z) : Z * Breaker :=
  foldl (λ '(n, b) now, let '(ok, b') := Allow now b in (if ok : bool then n + 1 else n, b'))
        (0, b) times.

(** ** Properties *)

Lemma performs_snoc b tr c : performs b (tr ++ [c]) = perform (performs b tr) c.
Proof. unfold performs, failure_run, last_failure. by rewrite foldl_app. Qed.
Lemma failure_run_snoc tr c : failure_run (tr ++ [c]) = count_failure (failure_run tr) c.
Proof. unfold performs, failure_run, last_failure. by rewrite foldl_app. Qed.
Lemma last_failure_snoc tr c : last_failure (tr ++ [c]) = note_failure (last_failure tr) c.
Proof. unfold performs, failure_run, last_failure. by rewrite foldl_app. Qed.
#[export] Hint Rewrite performs_snoc failure_run_snoc last_failure_snoc : breaker.

Lemma failure_run_range tr : 0 ≤ failure_run tr ≤ Z.of_nat (length tr).
Proof.
  induction tr as [|c tr IH] using rev_ind; [done|].
  rewrite failure_run_snoc, length_app. destruct c; simpl; lia.
Qed.

(** The breaker of a history: what the fields mean, whatever the calls were. *)
Record tracks (th mx cool : Z) (tr : list call) (b : Breaker) : Prop := {
  tr_params : failureThreshold b = th ∧ halfOpenMaxCalls b = mx ∧ cooldown b = cool;
  tr_failures : consecutiveFailures b = failure_run tr;
  tr_last : lastFailureTime b = last_failure tr;
  tr_closed : b_state b = StateClosed → failure_run tr < th ∨ failure_run tr = 0;
  tr_probes : 0 ≤ halfOpenCalls b ≤ Z.max 0 mx;
  tr_idle : b_state b ≠ StateHalfOpen → halfOpenCalls b = 0 }.

Lemma tracks_step th mx cool tr b c :
  Z.of_nat (length tr) + 1 < 2 ^ 63 → mx ≤ max_int 64 →
  tracks th mx cool tr b → tracks th mx cool (tr ++ [c]) (perform b c).
Proof.
  intros Hlen Hmx [(<- & <- & <-) Hf Hl Hc Hp Hi]. pose proof (failure_run_range tr) as Hr.
  assert (Hw : wrap64 (consecutiveFailures b + 1) = failure_run tr + 1).
  { rewrite Hf. apply wrap_id; [done|]. unfold in_width, min_int, max_int. lia. }
  destruct c as [now| |now|now]; simpl;
    unfold Allow, RecordSuccess, RecordFailure, State; try case_decide; simpl;
    repeat split_match; split; autorewrite with breaker; simpl;
    rewrite ?Hw; try congruence; try (by tauto); to_prop; intuition (try congruence); try lia.
  all: rewrite wrap_id in *; try lia; unfold in_width, min_int, max_int in *; lia.
Qed.

Lemma tracks_performs th mx cool tr :
  Z.of_nat (length tr) < 2 ^ 63 → mx ≤ max_int 64 →
  tracks th mx cool tr (performs (NewBreaker th mx cool) tr).
Proof.
  induction tr as [|c tr IH] using rev_ind; intros Hlen Hmx.
  - split; simpl; auto; lia.
  - rewrite length_app in Hlen. simpl in Hlen. rewrite performs_snoc.
    apply tracks_step; [lia|done|]. apply IH; [lia|done].
Qed.

(** The probes: the calls let through since the last outcome was recorded, and whether [State]
    reported the half-open state before the first of them. *)
Definition tally (x : Z * bool * Breaker) (c : call) : Z * bool * Breaker :=
  let '(n, polled, b) := x in
  (match c with
  | CallAllow now => (if fst (Allow now b) then n + 1 else n, polled)
  | CallState now => (n, polled || (n =? 0) && bool_decide (fst (State now b) = StateHalfOpen))
  | CallSuccess | CallFailure _ => (0, false)
  end, perform b c).
Definition tallied (th mx cool : Z) (tr : list call) : Z * bool * Breaker :=
  foldl tally (0, false, NewBreaker th mx cool) tr.
Definition probes (th mx cool : Z) (tr : list call) : Z := fst (fst (tallied th mx cool tr)).
Definition polled (th mx cool : Z) (tr : list call) : bool := snd (fst (tallied th mx cool tr)).

Lemma tallied_breaker th mx cool tr : snd (tallied th mx cool tr) = performs (NewBreaker th mx cool) tr.
Proof.
  unfold tallied, performs. generalize (NewBreaker th mx cool) as b. generalize 0, false.
  induction tr as [|c tr IH]; intros n p b; [done|]. simpl. destruct c; apply IH.
Qed.

(** In the open state no probe has been let through; in the half-open state the breaker counts them
    all, but for the one that ended the open state. *)
Definition probe_view (x : Z * bool * Breaker) : Prop :=
  let '(n, polled, b) := x in
  match b_state b with
  | StateClosed => True
  | StateOpen => n = 0 ∧ polled = false
  | StateHalfOpen => n = halfOpenCalls b + (if polled then 0 else 1)
  end.

Lemma tally_view n p b c : 0 ≤ halfOpenCalls b ≤ Z.max 0 (halfOpenMaxCalls b) → halfOpenMaxCalls b ≤ max_int 64 →
  probe_view (n, p, b) → probe_view (tally (n, p, b) c).
Proof.
  unfold probe_view, tally. intros Hh Hm Hv.
  destruct c as [now| |now|now]; simpl.
  - unfold Allow. destruct (b_state b) eqn:Es; simpl; rewrite ?Es; [done| |].
    + destruct Hv as [-> ->]. destruct (cooled b now); simpl; by rewrite ?Es.
    + destruct (Z.ltb_spec (halfOpenCalls b) (halfOpenMaxCalls b)); simpl; rewrite Es; [|done].
      rewrite wrap_id by (unfold in_width, min_int, max_int in *; lia). lia.
  - unfold RecordSuccess. simpl. case_decide as Hd; simpl; [done|]. destruct (b_state b) eqn:Es; [done..|by destruct Hd].
  - unfold RecordFailure. simpl. destruct (b_state b) eqn:Es; simpl; rewrite ?Es; [|done..].
    destruct (failureThreshold b <=? wrap64 (consecutiveFailures b + 1)); simpl; by rewrite ?Es.
  - unfold State. case_decide as Hd; simpl.
    + destruct Hd as [Hd _]. rewrite Hd in Hv. destruct Hv as [-> ->]. reflexivity.
    + destruct (b_state b) eqn:Es; [done| |].
      * destruct Hv as [-> ->]. by rewrite bool_decide_false.
      * rewrite bool_decide_true by done. destruct (Z.eqb_spec n 0); destruct p; simpl; lia.
Qed.

Lemma probes_counted th mx cool tr :
  Z.of_nat (length tr) < 2 ^ 63 → mx ≤ max_int 64 → probe_view (tallied th mx cool tr).
Proof.
  intros Hlen Hmx. induction tr as [|c tr IH] using rev_ind; [done|].
  rewrite length_app in Hlen. simpl in Hlen. specialize (IH ltac:(lia)).
  destruct (tracks_performs th mx cool tr ltac:(lia) Hmx) as [(_ & Hx & _) _ _ _ Hh _].
  pose proof (tallied_breaker th mx cool tr) as Hb. unfold tallied in *. rewrite foldl_app. cbn [foldl].
  destruct (foldl tally _ tr) as [[n p] b]. simpl in Hb. subst b.
  apply tally_view; [by rewrite Hx|by rewrite Hx|done].
Qed.

(** C22: the circuit breaker follows its history.  After any interleaving of calls a breaker
    that still lets calls through in the closed state has seen fewer consecutive failures than
    the threshold (or none at all); it counts the failures since the last success and
    remembers the time of the last failure; and it refuses a call exactly when it is open and
    the cooldown since that last failure has not elapsed, or half open with its probes used
    up: [halfOpenMaxCalls] of them when the state was looked at first, and one more when it was a
    probe that ended the open state, for that one is not counted. *)
Theorem Breaker_follows_history th mx cool tr now :
  Z.of_nat (length tr) < 2 ^ 63 → mx ≤ max_int 64 →
  let b := performs (NewBreaker th mx cool) tr in
  ConsecutiveFailures b = failure_run tr ∧
  (b_state b = StateClosed → failure_run tr < th ∨ failure_run tr = 0) ∧
  (fst (Allow now b) = false ↔
    (b_state b = StateOpen ∧ time_Sub now (last_failure tr) < cool) ∨
    (b_state b = StateHalfOpen ∧
     probes th mx cool tr = Z.max 0 mx + (if polled th mx cool tr then 0 else 1))).
Proof.
  intros Hlen Hmx b. destruct (tracks_performs th mx cool tr Hlen Hmx) as [Hp Hf Hl Hc Hh Hi].
  pose proof (probes_counted th mx cool tr Hlen Hmx) as Hprobes.
  fold b in Hp, Hf, Hl, Hc, Hh, Hi.
  pose proof (tallied_breaker th mx cool tr) as Hb. unfold probes, polled.
  destruct (tallied th mx cool tr) as [[n p] b0]. simpl in Hb. subst b0. fold b in Hprobes. simpl in Hprobes.
  simpl fst. simpl snd. destruct Hp as (_ & Hx & Hcool).
  split; [exact Hf|]. split; [exact Hc|].
  unfold Allow, cooled. rewrite Hl, Hcool, Hx.
  destruct (b_state b); repeat split_match; simpl; to_prop; intuition (try congruence; try lia).
Qed.

Lemma Breaker_follows_history_witness :
  let tr := [CallFailure 10; CallFailure 20; CallAllow 80; CallAllow 81] in
  let b := performs (NewBreaker 2 1 50) tr in
  ConsecutiveFailures b = 2 ∧
  (b_state b = StateClosed → 2 < 2 ∨ 2 = 0) ∧
  (fst (Allow 82 b) = false ↔
    (b_state b = StateOpen ∧ time_Sub 82 20 < 50) ∨
    (b_state b = StateHalfOpen ∧ probes 2 1 50 tr = Z.max 0 1 + (if polled 2 1 50 tr then 0 else 1))).
Proof.
  apply (Breaker_follows_history 2 1 50 [CallFailure 10; CallFailure 20; CallAllow 80; CallAllow 81] 82);
    vm_compute; congruence.
Defined.

(** The time a call reads lies in the cooldown of [b]. *)
Definition in_cooldown (b : Breaker) (c : call) : Prop :=
  match c with
  | CallAllow now | CallFailure now | CallState now =>
      lastFailureTime b ≤ now < lastFailureTime b + cooldown b
  | CallSuccess => True
  end.

Lemma cooled_false b now :
  now < lastFailureTime b + cooldown b → 0 < cooldown b ≤ max_int 64 → cooled b now = false.
Proof.
  intros H1 H2. unfold cooled, time_Sub. apply Z.leb_gt. unfold min_int, max_int in *. lia.
Qed.

Lemma perform_in_cooldown b0 b c :
  b_state b = StateOpen → 0 < cooldown b0 ≤ max_int 64 → cooldown b = cooldown b0 →
  lastFailureTime b0 ≤ lastFailureTime b → in_cooldown b0 c →
  b_state (perform b c) = StateOpen ∧ cooldown (perform b c) = cooldown b0 ∧
  lastFailureTime b0 ≤ lastFailureTime (perform b c).
Proof.
  intros Ho Hc Hcd Hl Hin.
  assert (Hcool : ∀ now, now < lastFailureTime b0 + cooldown b0 → cooled b now = false)
    by (intros; apply cooled_false; lia).
  destruct c as [now| |now|now]; simpl in *; unfold Allow, RecordSuccess, RecordFailure, State;
    simpl; rewrite ?Ho; try rewrite Hcool by lia; simpl; repeat case_decide;
    intuition (try congruence; try lia).
Qed.

(** an open breaker protects for the whole cooldown.  However calls, late successes and
    late failures interleave, as long as the clock has not passed the cooldown since the
    failure that opened it, every call is refused; and the first call after the cooldown since
    the last failure is let through. *)
Theorem Breaker_open_protects b tr now :
  b_state b = StateOpen → 0 < cooldown b ≤ max_int 64 →
  Forall (in_cooldown b) (tr ++ [CallAllow now]) →
  fst (Allow now (performs b tr)) = false ∧
  (∀ later, cooldown b ≤ time_Sub later (lastFailureTime (performs b tr)) →
     fst (Allow later (performs b tr)) = true).
Proof.
  intros Ho Hc [Htr [Hnow _]%Forall_cons]%Forall_app. simpl in Hnow.
  assert (H : b_state (performs b tr) = StateOpen ∧ cooldown (performs b tr) = cooldown b ∧
              lastFailureTime b ≤ lastFailureTime (performs b tr)).
  { clear Hnow. induction tr as [|c tr IH] using rev_ind; [split_and!; auto; simpl; lia|].
    apply Forall_app in Htr as [Htr [Hin _]%Forall_cons]. rewrite performs_snoc.
    destruct (IH Htr) as (H1 & H2 & H3). by apply perform_in_cooldown. }
  destruct H as (H1 & H2 & H3). unfold Allow. rewrite H1. split.
  - rewrite cooled_false; [done|lia|lia].
  - intros later Hl. unfold cooled. rewrite H2. by apply Z.leb_le in Hl as ->.
Qed.

Lemma Breaker_open_protects_witness :
  let b := performs (NewBreaker 1 1 50) [CallFailure 10] in
  fst (Allow 45 (performs b [CallAllow 20; CallFailure 30; CallSuccess])) = false ∧
  (∀ later, cooldown b ≤ time_Sub later 30 →
     fst (Allow later (performs b [CallAllow 20; CallFailure 30; CallSuccess])) = true).
Proof.
  apply (Breaker_open_protects (performs (NewBreaker 1 1 50) [CallFailure 10])
           [CallAllow 20; CallFailure 30; CallSuccess] 45); vm_compute.
  - done.
  - by split.
  - repeat constructor; vm_compute; congruence.
Defined.

Lemma allowed_half_open times n b :
  b_state b = StateHalfOpen → 0 ≤ halfOpenCalls b → halfOpenMaxCalls b ≤ max_int 64 →
  fst (foldl (λ '(n, b) now, let '(ok, b') := Allow now b in (if ok : bool then n + 1 else n, b'))
         (n, b) times) =
  n + Z.min (Z.of_nat (length times)) (Z.max 0 (halfOpenMaxCalls b - halfOpenCalls b)).
Proof.
  revert n b. induction times as [|t times IH]; intros n b Hs Hp Hm; [simpl; lia|].
  cbn [foldl length]. unfold Allow at 2. rewrite Hs. destruct (Z.ltb_spec (halfOpenCalls b) (halfOpenMaxCalls b)).
  - rewrite IH; simpl; [|done| |done];
      rewrite wrap_id by (unfold in_width, min_int, max_int in *; lia); lia.
  - rewrite IH by done. lia.
Qed.

(** an open breaker whose cooldown has elapsed lets one probe more through than
    [halfOpenMaxCalls] says ("probe calls allowed in half-open state"): the call that makes
    the transition is not counted.  With the default of one, two probes go through; the tests
    only reach the half-open state through [State], which admits none. *)
Theorem half_open_extra_probe b times :
  b_state b = StateOpen → 0 ≤ halfOpenMaxCalls b ≤ max_int 64 →
  Forall (λ t, cooled b t = true) times → times ≠ [] →
  fst (allowed_calls b times) = Z.min (Z.of_nat (length times)) (halfOpenMaxCalls b + 1) ∧
  (∀ t, cooled b t = true →
     fst (allowed_calls (snd (State t b)) times) =
     Z.min (Z.of_nat (length times)) (halfOpenMaxCalls b)).
Proof.
  intros Ho Hm Hc Hne. unfold allowed_calls. split.
  - destruct times as [|t times]; [done|]. apply Forall_cons in Hc as [Ht _].
    cbn [foldl length]. unfold Allow at 2. rewrite Ho, Ht, allowed_half_open; simpl; [lia|done..|lia].
  - intros t Ht. unfold State. rewrite decide_True by (rewrite Ht; done).
    rewrite allowed_half_open; simpl; [lia|done|lia|lia].
Qed.

Lemma half_open_extra_probe_witness :
  let b := performs (NewBreaker 1 1 50) [CallFailure 10] in
  fst (allowed_calls b [60; 61; 62]) = 2 ∧
  (∀ t, cooled b t = true → fst (allowed_calls (snd (State t b)) [60; 61; 62]) = 1).
Proof.
  apply (half_open_extra_probe (performs (NewBreaker 1 1 50) [CallFailure 10]) [60; 61; 62]);
    vm_compute; try congruence; [by split|repeat constructor].
Defined.
