(* ===== verification/Sandbox.v ===== *)
(** * Sandbox: large tool results (pkg/agent/runner/sandbox.go).

    Per task, results above a threshold are kept aside and replaced by a digest; the model
    recalls them by id.  A panic of the code is [None]. *)
From Stdlib Require Import ZArith Lia Ascii.
From stdpp Require Import base tactics option list numbers strings pretty gmap.
From S2P Require Import Prelude GoStd.

(** [utf8.RuneStart]. *)
Definition RuneStart (c : ascii) : bool := negb (N.land (N_of_ascii c) 192 =? 128)%N.

(** The loop of [truncateUTF8] from position [n] back. *)
Fixpoint rune_back (s : string) (n : nat) : nat :=
  match n with
  | O => O
  | S n' => match String.get n s with
            | Some c => if RuneStart c then n else rune_back s n'
            | None => n
            end
  end.

Definition truncateUTF8 (s : string) (maxBytes : Z) : option string :=
  if str_len s <=? maxBytes then Some s
  else if maxBytes <? 0 then None
  else Some (str_take (rune_back s (Z.to_nat maxBytes)) s).

(** The loop of [formatCommas] over the digits; [first] is [i == 0]. *)
Fixpoint comma_digits (first : bool) (s : string) : string :=
  match s with
  | "" => ""
  | String c s' =>
      let rest := String c (comma_digits false s') in
      if (String.length s mod 3 =? 0)%nat && negb first then String "," rest else rest
  end.

Definition format_digits (s : string) : string :=
  if (String.length s <=? 3)%nat then s else comma_digits true s.

(** On the least integer the negation is negative again: the recursion never returns. *)
Definition formatCommas (n : Z) : option string :=
  if n <? 0 then
    let m := wrap64 (- n) in
    if m <? 0 then None else Some ("-" +:+ format_digits (itoa m))
  else Some (format_digits (itoa n)).

Definition buildDigest (id toolName result : string) (previewBytes : Z) : option string :=
  preview ← truncateUTF8 result previewBytes;
  let size := str_len result in
  sizeText ← formatCommas size;
  savedText ← formatCommas (size / 4);
  Some ("[sandboxed:" +:+ id +:+ "]" +:+ nl +:+ "tool: " +:+ toolName +:+ nl +:+
        "size: " +:+ sizeText +:+ " bytes (~" +:+ savedText +:+ " tokens saved)" +:+ nl +:+
        "preview (truncated): " +:+ preview +:+ nl +:+
        "Use sandbox_recall(id=" +:+ Quote id +:+ ") to retrieve the full result.").

Record ToolResultSandbox := mkSandbox {
  thresholdBytes : Z;
  previewBytes : Z;
  maxTotalBytes : Z;
  results : gmap string string;
  seq_ : Z;
  totalBytes : Z }.
#[export] Instance settable_Sandbox : Settable ToolResultSandbox :=
  λ x, mkSandbox (thresholdBytes x) (previewBytes x) (maxTotalBytes x) (results x) (seq_ x)
         (totalBytes x).

Definition newSandbox (threshold preview maxTotal : Z) : ToolResultSandbox :=
  mkSandbox threshold preview maxTotal ∅ 0 0.

Definition result_id (n : Z) : string := "result-" +:+ itoa n.

(** [Store] on a sandbox; the answer is the id and the digest, empty when the result is
    passed through. *)
Definition Store (s : ToolResultSandbox) (toolName result : string)
    : option (string * string * ToolResultSandbox) :=
  if wrap32 (str_len result) <=? thresholdBytes s then Some ("", "", s)
  else if totalBytes s >? maxTotalBytes s then Some ("", "", s)
  else
    let n := wrap64 (seq_ s + 1) in
    let id := result_id n in
    let s' := s <| seq_ := n |> <| results ::= <[id := result]> |>
                <| totalBytes := wrap64 (totalBytes s + str_len result) |> in
    digest ← buildDigest id toolName result (previewBytes s);
    Some (id, digest, s').

Definition Recall (s : ToolResultSandbox) (id : string) : option string := results s !! id.

(** ** Executions: the stores of a task, with the ids they answered *)
Fixpoint store_all (s : ToolResultSandbox) (calls : list (string * string))
    : option (list (string * string) * ToolResultSandbox) :=
  match calls with
  | [] => Some ([], s)
  | (tool, result) :: rest =>
      '(id, _, s') ← Store s tool result;
      '(log, s'') ← store_all s' rest;
      Some ((id, result) :: log, s'')
  end.

Definition sum_bytes (l : list string) : Z := foldr (λ s n, str_len s + n) 0 l.
Definition kept (log : list (string * string)) : list (string * string) :=
  filter (λ p, p.1 ≠ "") log.

(** ** Properties *)

Lemma rune_back_le s n : (rune_back s n ≤ n)%nat.
Proof. induction n as [|n IH]; simpl; [done|]. repeat case_match; lia. Qed.

Lemma rune_back_start s n c :
  (n < String.length s)%nat → rune_back s n ≠ 0%nat →
  String.get (rune_back s n) s = Some c → RuneStart c = true.
Proof.
  induction n as [|n IH]; intros Hn Hz Hg; [done|]. simpl in *.
  destruct (String.get (S n) s) as [d|] eqn:Ed.
  - destruct (RuneStart d) eqn:Es; [congruence|]. apply IH; [lia|done..].
  - clear -Hn Ed. exfalso. revert s Hn Ed.
    induction (S n) as [|m IH]; intros [|d s] Hn Ed; simpl in *; try lia; try done.
    apply (IH s); [lia|done].
Qed.

(** a preview never panics for a limit that is not negative, is a prefix of at most that
    many bytes, keeps a text that fits, and does not split a character: where the text goes on
    after a cut, a character starts (or the preview is empty). *)
Theorem truncateUTF8_correct s maxBytes :
  0 ≤ maxBytes →
  ∃ p rest, truncateUTF8 s maxBytes = Some p ∧ s = p +:+ rest ∧ str_len p ≤ maxBytes ∧
    (str_len s ≤ maxBytes → p = s) ∧
    (p ≠ "" → match rest with "" => True | String c _ => RuneStart c = true end).
Proof.
  intros Hm. unfold truncateUTF8. destruct (Z.leb_spec (str_len s) maxBytes) as [Hle|Hgt].
  - exists s, "". rewrite str_app_empty_r. by split_and!.
  - rewrite (proj2 (Z.ltb_ge _ _)) by lia. set (n := rune_back s (Z.to_nat maxBytes)).
    pose proof (rune_back_le s (Z.to_nat maxBytes)) as Hn. fold n in Hn. unfold str_len in *.
    exists (str_take n s), (str_drop n s). rewrite str_take_drop.
    rewrite str_take_length by lia. split_and!; auto; [lia|lia|]. intros Hp.
    assert (Hz : n ≠ 0%nat) by (by intros ->; destruct s).
    pose proof (rune_back_start s (Z.to_nat maxBytes)) as Hs. fold n in Hs.
    assert (Hget : ∀ m t, String.get m t = match str_drop m t with "" => None | String c _ => Some c end).
    { clear. intros m. induction m as [|m IH]; intros [|c t]; simpl; auto. }
    rewrite Hget in Hs. destruct (str_drop n s) as [|c r]; [done|].
    apply (Hs c); [lia|done|done].
Qed.

Lemma truncateUTF8_correct_witness :
  let s := str_of_bytes [97; 226; 130; 172; 98]%N in
  ∃ p rest, truncateUTF8 s 3 = Some p ∧ s = p +:+ rest ∧ str_len p ≤ 3 ∧
    (str_len s ≤ 3 → p = s) ∧
    (p ≠ "" → match rest with "" => True | String c _ => RuneStart c = true end).
Proof. apply (truncateUTF8_correct (str_of_bytes [97; 226; 130; 172; 98]%N) 3). lia. Defined.

Fixpoint str_filter (f : ascii → bool) (s : string) : string :=
  match s with
  | "" => ""
  | String c s' => if f c then String c (str_filter f s') else str_filter f s'
  end.
Definition not_comma (c : ascii) : bool := negb (Ascii.eqb c ",").

Lemma comma_digits_filter first s :
  str_filter not_comma (comma_digits first s) = str_filter not_comma s.
Proof.
  revert first. induction s as [|c s IH]; intros first; [done|].
  cbn [comma_digits]. case_match; cbn [str_filter]; rewrite IH; done.
Qed.

Lemma comma_digits_length first s :
  String.length (comma_digits first s) =
  (String.length s + (String.length s - (if first then 1 else 0)) / 3)%nat.
Proof.
  revert first. induction s as [|c s IH]; intros first; [by destruct first|].
  cbn [comma_digits String.length]. set (n := String.length s) in *.
  destruct (Nat.eqb_spec (S n mod 3) 0) as [E|E]; destruct first; cbn [andb negb String.length];
    rewrite (IH false); pose proof (Nat.div_mod_eq n 3); pose proof (Nat.div_mod_eq (S n) 3);
    pose proof (Nat.mod_upper_bound n 3 ltac:(done));
    pose proof (Nat.mod_upper_bound (S n) 3 ltac:(done));
    replace (S n - 1)%nat with n by lia; rewrite ?Nat.sub_0_r; lia.
Qed.

Lemma str_filter_all f s : str_all f s = true → str_filter f s = s.
Proof.
  induction s as [|c s IH]; [done|]. simpl. intros [-> H]%andb_true_iff. by rewrite IH.
Qed.

Lemma itoa_not_comma z : str_all not_comma (itoa z) = true.
Proof.
  apply itoa_all; [|done]. intros c Hc. unfold not_comma. destruct (Ascii.eqb_spec c ","); [|done].
  subst. by destruct Hc as [[] _].
Qed.

Lemma format_digits_filter z : str_filter not_comma (format_digits (itoa z)) = itoa z.
Proof.
  unfold format_digits. case_match; rewrite ?comma_digits_filter;
    apply str_filter_all, itoa_not_comma.
Qed.

(** writing a number with separators loses nothing: without the commas it is the decimal
    form, read back as the number, and there is one comma for each further group of three
    digits; only the least integer has no result. *)
Theorem formatCommas_roundtrip n :
  min_int 64 < n ≤ max_int 64 →
  ∃ s, formatCommas n = Some s ∧ str_filter not_comma s = itoa n ∧
    ParseInt64 (str_filter not_comma s) = n ∧
    (0 ≤ n → String.length s =
             (String.length (itoa n) + (String.length (itoa n) - 1) / 3)%nat).
Proof.
  intros Hn. unfold formatCommas. destruct (Z.ltb_spec n 0) as [Hneg|Hpos].
  - assert (Hw : wrap64 (- n) = - n).
    { apply wrap_id; [done|]. unfold in_width, min_int, max_int in *. lia. }
    rewrite Hw, (proj2 (Z.ltb_ge _ _)) by lia. eexists. split; [done|].
    assert (E : str_filter not_comma ("-" +:+ format_digits (itoa (- n))) = itoa n).
    { change ("-" +:+ ?s) with (String "-" s). cbn [str_filter].
      change (not_comma "-") with true. cbn iota. rewrite format_digits_filter.
      destruct n as [|p|p]; try lia. done. }
    rewrite E. split_and!; [done| |lia]. apply ParseInt64_itoa.
    unfold in_width, min_int, max_int in *. lia.
  - eexists. split; [done|]. rewrite format_digits_filter. split_and!; [done| |].
    + apply ParseInt64_itoa. unfold in_width, min_int, max_int in *. lia.
    + intros _. unfold format_digits. destruct (Nat.leb_spec (String.length (itoa n)) 3).
      * rewrite Nat.div_small by lia. lia.
      * by rewrite comma_digits_length.
Qed.

Lemma formatCommas_roundtrip_witness :
  ∃ s, formatCommas (-47832) = Some s ∧ str_filter not_comma s = itoa (-47832) ∧
    ParseInt64 (str_filter not_comma s) = -47832 ∧
    (0 ≤ -47832 → String.length s =
       (String.length (itoa (-47832)) + (String.length (itoa (-47832)) - 1) / 3)%nat).
Proof. apply (formatCommas_roundtrip (-47832)). vm_compute. split; congruence. Defined.

Example formatCommas_ex : formatCommas 1234567 = Some "1,234,567".
Proof. reflexivity. Qed.

(** The sandbox of a log: the kept results under consecutive ids, and their sizes. *)
Record holds (s : ToolResultSandbox) (log : list (string * string)) : Prop := {
  h_seq : seq_ s = Z.of_nat (length (kept log));
  h_ids : (kept log).*1 = result_id <$> seqZ 1 (seq_ s);
  h_results : ∀ id r, results s !! id = Some r ↔ (id, r) ∈ kept log;
  h_bytes : totalBytes s = sum_bytes (kept log).*2;
  h_cap : kept log = [] ∨ ∃ l p, kept log = l ++ [p] ∧ sum_bytes l.*2 ≤ maxTotalBytes s }.

#[export] Instance result_id_inj : Inj (=) (=) result_id.
Proof. intros a b H. unfold result_id in H. simpl in H. injection H as H. by apply pretty_Z_inj. Qed.

Lemma sum_bytes_cons s a : sum_bytes (s :: a) = str_len s + sum_bytes a.
Proof. done. Qed.

Lemma sum_bytes_app a b : sum_bytes (a ++ b) = sum_bytes a + sum_bytes b.
Proof.
  induction a as [|s a IH]; [done|]. change ((s :: a) ++ b) with (s :: (a ++ b)).
  rewrite !sum_bytes_cons, IH. lia.
Qed.

Lemma sum_bytes_nonneg a : 0 ≤ sum_bytes a.
Proof. induction a as [|s a IH]; [done|]. rewrite sum_bytes_cons. unfold str_len. lia. Qed.

Lemma buildDigest_some id tool r pv :
  0 ≤ pv → ∃ d, buildDigest id tool r pv = Some d.
Proof.
  intros Hpv. unfold buildDigest, truncateUTF8, formatCommas.
  assert (0 ≤ str_len r) by (unfold str_len; lia).
  assert (0 ≤ str_len r / 4) by (apply Z.div_pos; lia).
  rewrite (proj2 (Z.ltb_ge pv 0)), (proj2 (Z.ltb_ge (str_len r) 0)),
    (proj2 (Z.ltb_ge (str_len r / 4) 0)) by lia.
  destruct (str_len r <=? pv); simpl; eauto.
Qed.

Lemma kept_snoc log id r :
  kept (log ++ [(id, r)]) = kept log ++ (if decide (id = "") then [] else [(id, r)]).
Proof.
  unfold kept. rewrite filter_app, filter_cons, filter_nil. simpl.
  by repeat case_decide.
Qed.

Lemma seqZ_snoc n : 0 ≤ n → seqZ 1 (n + 1) = seqZ 1 n ++ [n + 1].
Proof.
  intros H. rewrite seqZ_app by lia. f_equal. rewrite seqZ_cons by lia. f_equal. lia.
Qed.

Lemma Store_holds s log tool r :
  0 ≤ previewBytes s → holds s log → str_len r ≤ max_int 64 →
  Z.of_nat (length log) < max_int 64 → sum_bytes (kept log).*2 + str_len r ≤ max_int 64 →
  ∃ id d s', Store s tool r = Some (id, d, s') ∧ holds s' (log ++ [(id, r)]) ∧
    thresholdBytes s' = thresholdBytes s ∧ previewBytes s' = previewBytes s ∧
    maxTotalBytes s' = maxTotalBytes s ∧
    (id = "" ↔ wrap32 (str_len r) ≤ thresholdBytes s ∨ maxTotalBytes s < totalBytes s).
Proof.
  intros Hpv [Hseq Hids Hres Hby Hcap] Hr Hlen Hsum. unfold Store.
  assert (Hpass : holds s (log ++ [("", r)])).
  { split; rewrite ?kept_snoc, ?decide_True, ?app_nil_r by done; auto. }
  destruct (Z.leb_spec (wrap32 (str_len r)) (thresholdBytes s)) as [Ht|Ht].
  { eexists _, _, _. split_and!; eauto. tauto. }
  destruct (Z.gtb_spec (totalBytes s) (maxTotalBytes s)) as [Hm|Hm].
  { eexists _, _, _. split_and!; eauto. tauto. }
  assert (Hk : (length (kept log) ≤ length log)%nat) by apply length_filter.
  assert (0 ≤ sum_bytes (kept log).*2) by apply sum_bytes_nonneg.
  rewrite !wrap_id by (unfold str_len, in_width, min_int, max_int in *; lia).
  destruct (buildDigest_some (result_id (seq_ s + 1)) tool r (previewBytes s)) as [d ->]; auto.
  eexists _, _, _. split; [reflexivity|]. split; [|split_and!; try done; split; [done|lia]].
  split; cbn; rewrite kept_snoc, decide_False by done.
  - rewrite length_app. simpl. lia.
  - rewrite fmap_app, Hids, seqZ_snoc, fmap_app by lia. done.
  - intros id r'. rewrite elem_of_app, list_elem_of_singleton, lookup_insert_Some.
    rewrite Hres. split; [naive_solver|].
    intros [Hin|[= -> ->]]; [right|by left]. split; [|done]. intros <-.
    assert (Hin' : result_id (seq_ s + 1) ∈ (kept log).*1) by (apply list_elem_of_fmap; by exists (result_id (seq_ s + 1), r')).
    rewrite Hids in Hin'. apply list_elem_of_fmap in Hin' as (n & E & Hn).
    apply result_id_inj in E as <-. apply elem_of_seqZ in Hn. lia.
  - rewrite fmap_app, sum_bytes_app, Hby. simpl. lia.
  - right. eexists _, _. split; [done|]. lia.
Qed.

Lemma store_all_holds calls s log :
  0 ≤ previewBytes s → holds s log →
  Z.of_nat (length log + length calls) ≤ max_int 64 →
  sum_bytes (kept log).*2 + sum_bytes calls.*2 ≤ max_int 64 →
  ∃ log' s', store_all s calls = Some (log', s') ∧ log'.*2 = calls.*2 ∧
    holds s' (log ++ log') ∧ maxTotalBytes s' = maxTotalBytes s.
Proof.
  revert s log. induction calls as [|[tool r] calls IH]; intros s log Hpv Hh Hlen Hsum.
  { exists [], s. rewrite app_nil_r. by split_and!. }
  cbn [fmap list_fmap] in Hsum. rewrite sum_bytes_cons in Hsum. cbn [length] in Hlen.
  pose proof (sum_bytes_nonneg calls.*2). pose proof (sum_bytes_nonneg (kept log).*2).
  cbn [snd] in Hsum.
  destruct (Store_holds s log tool r) as (id & d & s1 & E1 & Hh1 & _ & Hp1 & Hm1 & _);
    [done|done|lia|lia|unfold str_len in *; lia|].
  destruct (IH s1 (log ++ [(id, r)])) as (log' & s' & E2 & Hl & Hh2 & Hm2).
  - by rewrite Hp1.
  - done.
  - rewrite length_app. simpl. lia.
  - rewrite kept_snoc, fmap_app, sum_bytes_app.
    case_decide; cbn [fmap list_fmap snd]; rewrite ?sum_bytes_cons; change (sum_bytes []) with 0;
      unfold str_len in *; lia.
  - exists ((id, r) :: log'), s'. simpl. rewrite E1. simpl. rewrite E2. simpl.
    split_and!; [done|exact (f_equal (cons r) Hl)| |congruence].
    by rewrite <- app_assoc in Hh2.
Qed.

Lemma Store_total s tool r :
  0 ≤ previewBytes s →
  ∃ id d s', Store s tool r = Some (id, d, s') ∧ previewBytes s' = previewBytes s.
Proof.
  intros Hp. unfold Store. case_match; [by eexists _, _, _|]. case_match; [by eexists _, _, _|].
  edestruct buildDigest_some as [d ->]; [exact Hp|]. by eexists _, _, _.
Qed.

(** C17: the sandbox of a task loses nothing it took.  For any results of a task, storing them
    never panics; every id it answered recalls exactly the result stored under it, whatever
    was stored later, no two results share an id, and no other id recalls anything.  The bytes
    it accounts for are those of the results kept, and all of them but the last fit the
    limit [maxTotalBytes]. *)
Theorem sandbox_recalls threshold preview maxTotal calls :
  0 ≤ preview → Z.of_nat (length calls) ≤ max_int 64 →
  sum_bytes calls.*2 ≤ max_int 64 →
  ∃ log s, store_all (newSandbox threshold preview maxTotal) calls = Some (log, s) ∧
    log.*2 = calls.*2 ∧ NoDup (kept log).*1 ∧
    (∀ id r, Recall s id = Some r ↔ (id, r) ∈ log ∧ id ≠ "") ∧
    totalBytes s = sum_bytes (kept log).*2 ∧
    (kept log = [] ∨ ∃ l p, kept log = l ++ [p] ∧ sum_bytes l.*2 ≤ maxTotal).
Proof.
  intros Hp Hlen Hsum.
  destruct (store_all_holds calls (newSandbox threshold preview maxTotal) [])
    as (log & s & E & Hl & [Hseq Hids Hres Hby Hcap] & Hm); [done| |done|done|].
  - split; try done; [|by left]. intros id r. cbn. rewrite lookup_empty. set_solver.
  - exists log, s. split_and!; auto.
    + simpl in Hids. rewrite Hids. apply NoDup_fmap; [apply _|]. apply NoDup_seqZ.
    + intros id r. unfold Recall. rewrite Hres. simpl. unfold kept.
      rewrite list_elem_of_filter. simpl. tauto.
    + by rewrite Hm in Hcap.
Qed.

Lemma sandbox_recalls_witness :
  ∃ log s, store_all (newSandbox 3 2 5) [("t", "small"); ("t", "ok"); ("u", "large")] =
             Some (log, s) ∧
    log.*2 = ["small"; "ok"; "large"] ∧ NoDup (kept log).*1 ∧
    (∀ id r, Recall s id = Some r ↔ (id, r) ∈ log ∧ id ≠ "") ∧
    totalBytes s = sum_bytes (kept log).*2 ∧
    (kept log = [] ∨ ∃ l p, kept log = l ++ [p] ∧ sum_bytes l.*2 ≤ 5).
Proof.
  apply (sandbox_recalls 3 2 5 [("t", "small"); ("t", "ok"); ("u", "large")]);
    vm_compute; congruence.
Defined.

(** "if total stored bytes would exceed maxTotalBytes, the result is not sandboxed", says
    the code; but the check looks only at what is stored already, so an empty sandbox takes a
    result of any size, far beyond its limit. *)
Theorem Store_overshoots threshold preview maxTotal tool r :
  0 ≤ preview → 0 ≤ maxTotal < str_len r → threshold < str_len r ≤ max_int 32 →
  ∃ id d s, Store (newSandbox threshold preview maxTotal) tool r = Some (id, d, s) ∧
    Recall s id = Some r ∧ maxTotalBytes s < totalBytes s.
Proof.
  intros Hp Hm Ht.
  assert (Hw : wrap32 (str_len r) = str_len r).
  { apply wrap_id; [done|]. unfold in_width, min_int, max_int in *. lia. }
  destruct (buildDigest_some (result_id 1) tool r preview) as [d Hd]; [done|].
  unfold Store, newSandbox. cbn [thresholdBytes totalBytes maxTotalBytes seq_ previewBytes].
  rewrite Hw, (proj2 (Z.leb_gt _ _)) by lia.
  destruct (Z.gtb_spec 0 maxTotal); [lia|]. change (wrap64 (0 + 1)) with 1. rewrite Hd. cbn [mbind option_bind].
  eexists _, _, _. split; [reflexivity|]. cbn. unfold Recall. cbn.
  rewrite lookup_insert_eq. split; [done|]. rewrite wrap_id; [lia|done|].
  unfold in_width, min_int, max_int in *. lia.
Qed.

Lemma Store_overshoots_witness :
  ∃ id d s, Store (newSandbox 3 2 4) "t" "0123456789" = Some (id, d, s) ∧
    Recall s id = Some "0123456789" ∧ maxTotalBytes s < totalBytes s.
Proof. apply (Store_overshoots 3 2 4 "t" "0123456789"); vm_compute; intuition congruence. Defined.
