(* ===== verification/Runtime.v ===== *)
(** * Runtime: what surrounds the agent runtime, and the collection of results
    (pkg/agent/runner/runner.go: the built-in tools collect_results and spawn_and_collect).

    The clock, the contexts and the task queues are interfaces over an abstract world; an
    operation takes the world and gives its answer and the world after it.  What package
    context and package time document about them is the class [WorldLaws]. *)
From Stdlib Require Import ZArith Lia Ascii.
From stdpp Require Import base tactics option list numbers strings pretty gmap.
From S2P Require Import Prelude GoStd Types Queue.

(** ** Package strconv, strings *)

(** [strconv.Atoi] and [strconv.ParseInt(s, 10, 64)]; [None] is an error. *)
Definition Atoi (s : string) : option Z :=
  let body (neg : bool) t :=
    match t with
    | "" => None
    | _ => match digits_value t 0 with
           | None => None
           | Some v => let z := if neg then - v else v in
                       if in_width_b 64 z then Some z else None
           end
    end in
  match s with
  | String "+" t => body false t
  | String "-" t => body true t
  | t => body false t
  end.

(** [strings.Fields]: [word] is the field being read. *)
Fixpoint fields_loop (fuel : nat) (word s : string) : list string :=
  let emit rest := if decide (word = "") then rest else word :: rest in
  match fuel with
  | O => emit []
  | S fuel' =>
      match s with
      | "" => emit []
      | String c s' =>
          match List.find (HasPrefix s) space_runes with
          | Some r => emit (fields_loop fuel' "" (str_drop (String.length r) s))
          | None => fields_loop fuel' (word +:+ String c "") s'
          end
      end
  end.
Definition Fields (s : string) : list string := fields_loop (S (String.length s)) "" s.

(** [strings.ToLower] on any text. *)
Class LowerApi := strings_ToLower : string → string.

(** ** Time, contexts and queues *)
Definition Second : Z := 1000000000.

Class World := {
  world : Type;
  Ctx : Type;
  TaskQueue : Type;
  TaskQueue_eq_dec :: EqDecision TaskQueue;
  time_Now : world → Z * world;
  (** [select { case <-time.After(d): case <-ctx.Done(): }] *)
  wait : Ctx → Z → world → world;
  ctx_Err : Ctx → world → option string;
  ctx_Deadline : Ctx → option Z;
  WithDeadline : Ctx → Z → Ctx;
  q_Submit : Ctx → TaskQueue → string → gmap string string → world →
    result string string * world;
  q_Results : Ctx → TaskQueue → list string → world →
    result string (list TaskResult) * world;
  q_Close : TaskQueue → world → world }.

(** Time does not run backwards and contexts stay done; a wait of [d] lasts [d] unless the
    context ends it; a context with a deadline is done from the deadline on. *)
Class WorldLaws (W : World) := {
  clock : world → Z;
  later : world → world → Prop;
  later_preorder :: PreOrder later;
  later_clock : ∀ w w', later w w' → clock w ≤ clock w';
  later_Err : ∀ c w w', later w w' → ctx_Err c w ≠ None → ctx_Err c w' ≠ None;
  now_later : ∀ w t w', time_Now w = (t, w') → later w w' ∧ t = clock w';
  wait_later : ∀ c d w, later w (wait c d w);
  wait_elapses : ∀ c d w, ctx_Err c (wait c d w) = None → clock w + d ≤ clock (wait c d w);
  deadline_Err : ∀ c t w, t ≤ clock w → ctx_Err (WithDeadline c t) w ≠ None;
  parent_Err : ∀ c t w, ctx_Err c w ≠ None → ctx_Err (WithDeadline c t) w ≠ None;
  Results_later : ∀ c q ids w r w', q_Results c q ids w = (r, w') → later w w' }.

(** A queue answers about the tasks it was asked about. *)
Class QueueLaws (W : World) := {
  Results_asked : ∀ c q ids w rs w', q_Results c q ids w = (Ok rs, w') →
    Forall (λ r, res_TaskID r ∈ ids) rs }.

Definition WithTimeout `{World} (c : Ctx) (d : Z) (w : world) : Ctx * world :=
  let '(now, w) := time_Now w in (WithDeadline c (now + d), w).

Definition tool_error (code msg : string) : string := Error (NewAgentError "tool" code msg).

(** The back-off of the polling loops. *)
Definition next_backoff (backoff : Z) : Z :=
  if backoff <? 10 * Second then
    let b := backoff * 2 in if b >? 10 * Second then 10 * Second else b
  else backoff.

(** encoding/json on the answers of the two tools; on ASCII text what is written reads back. *)
Class CollectJson := {
  marshal_collected : gmap string string → list string → string;
  unmarshal_collected : string → option (gmap string string * list string);
  marshal_spawned : gmap string (string * string) → list string → string }.
Class CollectJsonLaws (J : CollectJson) : Prop := collected_roundtrip : ∀ completed pending,
  map_Forall (λ id out, is_ascii id = true ∧ is_ascii out = true) completed →
  Forall (λ id, is_ascii id = true) pending →
  unmarshal_collected (marshal_collected completed pending) = Some (completed, pending).

(** ** [collectResultsFromQueue] *)
Section collect.
Context `{World, CollectJson}.

Definition not_completed (completed : gmap string string) (ids : list string) : list string :=
  filter (λ id, completed !! id = None) ids.

Definition note_result (completed : gmap string string) (tr : TaskResult) : gmap string string :=
  <[res_TaskID tr :=
      if decide (res_Error tr = "") then res_Output tr
      else "[error] " +:+ res_Error tr]> completed.

(** The polling loop; [None] when the fuel runs out. *)
Fixpoint collect_loop (fuel : nat) (ctx : Ctx) (tq : TaskQueue) (taskIDs : list string)
    (deadline backoff : Z) (completed : gmap string string) (w : world)
    : option (result string (gmap string string) * world) :=
  match fuel with
  | O => None
  | S fuel' =>
      match not_completed completed taskIDs with
      | [] => Some (Ok completed, w)
      | pending =>
          let '(now, w) := time_Now w in
          if now >? deadline then Some (Ok completed, w)
          else if decide (ctx_Err ctx w ≠ None) then Some (Ok completed, w)
          else
            let '(r, w) := q_Results ctx tq pending w in
            match r with
            | Err _ => Some (Err (tool_error "ToolExecutionFailed" "collect_results: polling queue"), w)
            | Ok rs =>
                let completed := foldl note_result completed rs in
                if decide (Z.of_nat (size completed) = Z.of_nat (length taskIDs))
                then Some (Ok completed, w)
                else collect_loop fuel' ctx tq taskIDs deadline (next_backoff backoff) completed
                       (wait ctx backoff w)
            end
      end
  end.

(** The loop makes one pass per second of the timeout at most, and two more. *)
Definition collect_fuel (timeout : Z) : nat := Z.to_nat (timeout / Second) + 4.

(** What the tool answers, before it is written as JSON: the completed results and the ids
    still pending. *)
Definition collected (ctx : Ctx) (tq : TaskQueue) (taskIDs : list string)
    (timeout : Z) (w : world)
    : option (result string (gmap string string * list string) * world) :=
  match taskIDs with
  | [] => Some (Ok (∅, []), w)
  | _ =>
      let '(now, w) := time_Now w in
      '(r, w) ← collect_loop (collect_fuel timeout) ctx tq taskIDs (now + timeout) Second ∅ w;
      Some (completed <-? r; Ok (completed, not_completed completed taskIDs), w)
  end.

Definition collectResultsFromQueue (ctx : Ctx) (tq : TaskQueue) (taskIDs : list string)
    (timeout : Z) (w : world) : option (result string string * world) :=
  '(r, w) ← collected ctx tq taskIDs timeout w;
  Some (cp <-? r; Ok (marshal_collected cp.1 cp.2), w).

(** ** [handleSpawnAndCollect] *)
Record submission := mkSubmission {
  sub_ID : string;
  sub_Prompt : string;
  sub_Queue : TaskQueue }.

(** The decoded arguments: the tasks, as prompt and role, and the timeout in seconds. *)
Record SpawnArgs := mkSpawnArgs {
  spawn_Tasks : list (string * string);
  spawn_TimeoutSeconds : Z }.

Definition invalid_args (msg : string) : string := tool_error "ToolInvalidArgs" msg.

Section spawn.
Variable delegateQueues : gmap string TaskQueue.
Variable taskQueue : TaskQueue.
(** [availableRoles], in the order of the map. *)
Variable roles_order : list string.

(** The queue of a task, or the error of an unknown role. *)
Definition spawn_queue (role : string) : result string TaskQueue :=
  if decide (role = "") then Ok taskQueue
  else match delegateQueues !! role with
       | Some dq => Ok dq
       | None => Err (tool_error "ToolNotFound" ("spawn_and_collect: unknown role " +:+ Quote role
                        +:+ "; available: " +:+ str_join ", " roles_order))
       end.

Fixpoint submit_all (ctx : Ctx) (tasks : list (string * string)) (submitted : list submission)
    (w : world) : result string (list submission) * world :=
  match tasks with
  | [] => (Ok submitted, w)
  | (prompt, role) :: rest =>
      if decide (TrimSpace prompt = "")
      then (Err (invalid_args "spawn_and_collect: prompt must not be empty"), w)
      else
        match spawn_queue role with
        | Err e => (Err e, w)
        | Ok tq =>
            let '(r, w) := q_Submit ctx tq prompt ∅ w in
            match r with
            | Err _ => (Err (tool_error "ToolExecutionFailed" "spawn_and_collect: submitting task"), w)
            | Ok id => submit_all ctx rest (submitted ++ [mkSubmission id prompt tq]) w
            end
        end
  end.

(** The groups in the order the queues first appear; [range_groups] is the order in which the
    loop over the map of groups visits them. *)
Fixpoint add_to_group (tq : TaskQueue) (id : string) (groups : list (TaskQueue * list string))
    : list (TaskQueue * list string) :=
  match groups with
  | [] => [(tq, [id])]
  | (q, ids) :: rest =>
      if decide (q = tq) then (q, ids ++ [id]) :: rest else (q, ids) :: add_to_group tq id rest
  end.
Definition group_by_queue (submitted : list submission) : list (TaskQueue * list string) :=
  foldl (λ g s, add_to_group (sub_Queue s) (sub_ID s) g) [] submitted.
Definition promptByID (submitted : list submission) : gmap string string :=
  foldl (λ m s, <[sub_ID s := sub_Prompt s]> m) ∅ submitted.

Variable range_groups : list (TaskQueue * list string) → list (TaskQueue * list string).

Fixpoint collect_groups (ctx : Ctx) (timeout : Z) (groups : list (TaskQueue * list string))
    (completed : gmap string string) (pending : list string) (w : world)
    : option (result string (gmap string string * list string) * world) :=
  match groups with
  | [] => Some (Ok (completed, pending), w)
  | (tq, ids) :: rest =>
      '(r, w) ← collectResultsFromQueue ctx tq ids timeout w;
      match r with
      | Err e => Some (Err e, w)
      | Ok resultJSON =>
          match unmarshal_collected resultJSON with
          | None => collect_groups ctx timeout rest completed pending w
          | Some (c, p) => collect_groups ctx timeout rest (c ∪ completed) (pending ++ p) w
          end
      end
  end.

(** The outputs with the prompts of their tasks. *)
Definition enrich (prompts completed : gmap string string) : gmap string (string * string) :=
  map_imap (λ id out, Some (default "" (prompts !! id), out)) completed.

Definition handleSpawnAndCollect (ctx : Ctx) (args : SpawnArgs) (w : world)
    : option (result string string * world) :=
  let seconds := if spawn_TimeoutSeconds args <=? 0 then 120 else spawn_TimeoutSeconds args in
  let '(r, w) := submit_all ctx (spawn_Tasks args) [] w in
  match r with
  | Err e => Some (Err e, w)
  | Ok submitted =>
      let prompts := promptByID submitted in
      '(r, w) ← collect_groups ctx (wrap64 (seconds * Second))
                  (range_groups (group_by_queue submitted)) ∅ [] w;
      Some (cp <-? r; Ok (marshal_spawned (enrich prompts cp.1) cp.2), w)
  end.
End spawn.
End collect.

(** ** Properties *)

Lemma Atoi_itoa z : in_width 64 z → Atoi (itoa z) = Some z.
Proof.
  intros Hw. unfold itoa, pretty, pretty_Z. destruct z as [|p|p]; [done| |].
  - destruct (pretty_N_head (Npos p)) as (c & s & E & Hc).
    assert (Atoi (String c s) = match digits_value (String c s) 0 with
              None => None | Some v => if in_width_b 64 v then Some v else None end) as E'.
    { unfold is_digit in Hc. unfold Atoi.
      destruct (decide (c = "+"%char)) as [->|Hp]; [by destruct Hc as [[] _]|].
      destruct (decide (c = "-"%char)) as [->|Hm]; [by destruct Hc as [[] _]|].
      destruct c as [[] [] [] [] [] [] [] []]; done. }
    change (pretty p) with (pretty (Npos p)). rewrite E, E', <- E, digits_value_pretty.
    simpl. by rewrite (proj2 (in_width_b_true 64 (Z.pos p)) Hw).
  - destruct (pretty_N_head (Npos p)) as (c & s & E & _).
    change (pretty p) with (pretty (Npos p)). rewrite E.
    change ("-" +:+ String c s) with (String "-" (String c s)).
    unfold Atoi. rewrite <- E, digits_value_pretty. cbn beta iota zeta.
    change (- Z.of_N (N.pos p)) with (Z.neg p).
    by rewrite (proj2 (in_width_b_true 64 (Z.neg p)) Hw).
Qed.

Lemma next_backoff_ge b : Second ≤ b → Second ≤ next_backoff b.
Proof. unfold next_backoff, Second. intros H. repeat case_match; lia. Qed.

Lemma size_list_to_set_le (ids : list string) :
  (size (list_to_set ids : gset string) ≤ length ids)%nat.
Proof.
  induction ids as [|id ids IH]; [done|]. simpl.
  destruct (decide (id ∈ (list_to_set ids : gset string))).
  - rewrite subseteq_union_1_L by set_solver. lia.
  - rewrite size_union, size_singleton by set_solver. lia.
Qed.

Lemma not_completed_nil (completed : gmap string string) ids :
  dom completed ⊆ list_to_set ids → Z.of_nat (size completed) = Z.of_nat (length ids) →
  not_completed completed ids = [].
Proof.
  intros Hsub Hsize. destruct (not_completed completed ids) as [|id rest] eqn:E; [done|].
  assert (Hin : id ∈ not_completed completed ids) by (rewrite E; left).
  apply list_elem_of_filter in Hin as [Hn Hin].
  assert (Hd : dom completed = list_to_set ids).
  { apply set_subseteq_size_eq; [done|]. rewrite size_dom.
    pose proof (size_list_to_set_le ids). lia. }
  apply not_elem_of_dom in Hn. rewrite Hd in Hn. set_solver.
Qed.

Definition result_text (tr : TaskResult) : string :=
  if decide (res_Error tr = "") then res_Output tr else "[error] " +:+ res_Error tr.

Lemma note_results_Forall (P : string → string → Prop) rs completed :
  Forall (λ r, P (res_TaskID r) (result_text r)) rs → map_Forall P completed →
  map_Forall P (foldl note_result completed rs).
Proof.
  revert completed. induction rs as [|r rs IH]; intros completed Hrs Hc; [done|].
  apply Forall_cons in Hrs as [Hr Hrs]. simpl. apply IH; [done|].
  by apply map_Forall_insert_2.
Qed.

Section collect_props.
Context (W : World) {WL : WorldLaws W} {QL : QueueLaws W}.

(** Why the loop stopped: nothing is pending, or the time is over. *)
Definition stopped (ctx : Ctx) (deadline : Z) (pending : list string) (w : world) : Prop :=
  pending = [] ∨ deadline < clock w ∨ ctx_Err ctx w ≠ None.

(** What the queue says about a task at any time. *)
Definition always_answers (ctx : Ctx) (tq : TaskQueue) (P : string → string → Prop) : Prop :=
  ∀ ids w rs w', q_Results ctx tq ids w = (Ok rs, w') →
    Forall (λ r, P (res_TaskID r) (result_text r)) rs.

Definition passes_left (ctx : Ctx) (deadline : Z) (w : world) : nat :=
  if decide (ctx_Err ctx w = None) then S (Z.to_nat ((deadline - clock w) / Second + 1)) else 1.

Lemma passes_left_wait ctx deadline w1 w2 backoff :
  Second ≤ backoff → later w1 w2 → clock w1 ≤ deadline →
  (passes_left ctx deadline (wait ctx backoff w2) ≤
   Z.to_nat ((deadline - clock w1) / Second + 1))%nat.
Proof.
  intros Hb Hl Hd. apply later_clock in Hl.
  assert (0 ≤ (deadline - clock w1) / Second) by (apply Z.div_pos; unfold Second; lia).
  unfold passes_left. case_decide as E; [|lia].
  apply wait_elapses in E.
  assert ((deadline - clock (wait ctx backoff w2)) / Second ≤ (deadline - clock w1) / Second - 1).
  { replace ((deadline - clock w1) / Second - 1) with ((deadline - clock w1 + (-1) * Second) / Second)
      by (rewrite Z.div_add; unfold Second; lia).
    apply Z.div_le_mono; unfold Second in *; lia. }
  lia.
Qed.

Lemma collect_loop_spec ctx tq ids deadline P :
  always_answers ctx tq P →
  ∀ fuel backoff completed w,
  Second ≤ backoff → (passes_left ctx deadline w ≤ fuel)%nat →
  dom completed ⊆ list_to_set ids → map_Forall P completed →
  ∃ r w', collect_loop fuel ctx tq ids deadline backoff completed w = Some (r, w') ∧ later w w' ∧
    ∀ c, r = Ok c → map_Forall P c ∧ dom c ⊆ list_to_set ids ∧
      stopped ctx deadline (not_completed c ids) w'.
Proof.
  intros HP. induction fuel as [|fuel IH]; intros backoff completed w Hb Hf Hd Hc.
  { unfold passes_left in Hf. case_decide; lia. }
  cbn [collect_loop]. destruct (not_completed completed ids) as [|id pend] eqn:Ep.
  { eexists _, _. split_and!; [done|reflexivity|]. intros c [= <-]. split_and!; [done..|by left]. }
  destruct (time_Now w) as [now w1] eqn:En. apply now_later in En as [Hl1 ->].
  destruct (Z.gtb_spec (clock w1) deadline) as [Hg|Hg].
  { eexists _, _. split_and!; [done|done|]. intros c [= <-]. split_and!; [done..|by right; left]. }
  case_decide as He.
  { eexists _, _. split_and!; [done|done|]. intros c [= <-]. split_and!; [done..|by right; right]. }
  destruct (q_Results ctx tq (id :: pend) w1) as [[rs|e] w2] eqn:Er;
    pose proof (Results_later _ _ _ _ _ _ Er) as Hl2; [|eexists _, _; split_and!;
      [done|by etrans|done]].
  set (completed' := foldl note_result completed rs).
  assert (Hd' : dom completed' ⊆ list_to_set ids).
  { assert (Ha : map_Forall (λ i _, i ∈ ids) completed').
    { apply (note_results_Forall (λ i _, i ∈ ids)).
      - eapply Forall_impl; [by eapply Results_asked|]. simpl. intros r Hin.
        rewrite <- Ep in Hin. by apply list_elem_of_filter in Hin as [_ Hin].
      - intros i x Hix. apply elem_of_dom_2 in Hix. set_solver. }
    intros i Hi. apply elem_of_dom in Hi as [x Hx]. apply elem_of_list_to_set. by eapply Ha. }
  assert (Hc' : map_Forall P completed') by (eapply note_results_Forall; eauto).
  case_decide as Hs.
  { eexists _, _. split_and!; [done|by etrans|]. intros c [= <-]. split_and!; [done..|].
    left. by apply not_completed_nil. }
  destruct (IH (next_backoff backoff) completed' (wait ctx backoff w2)) as (r & w' & E & Hl & Hr);
    [by apply next_backoff_ge| |done|done|].
  - pose proof (passes_left_wait ctx deadline w1 w2 backoff Hb Hl2 Hg).
    assert (passes_left ctx deadline w = S (Z.to_nat ((deadline - clock w) / Second + 1))) as Hw.
    { unfold passes_left. rewrite decide_True; [done|].
      destruct (ctx_Err ctx w) eqn:Ee; [|done]. exfalso.
      eapply (later_Err ctx w w1); [done|by rewrite Ee|done]. }
    assert ((deadline - clock w1) / Second ≤ (deadline - clock w) / Second).
    { apply later_clock in Hl1. apply Z.div_le_mono; unfold Second; lia. }
    lia.
  - eexists _, _. split_and!; [exact E| |done]. etrans; [exact Hl1|]. etrans; [exact Hl2|].
    etrans; [apply wait_later|done].
Qed.

(** collecting results returns.  Whatever the queue answers and whenever, the polling
    stops within the number of passes the timeout allows; without an error of the queue it
    splits the tasks asked for into those completed, with texts the queue gave for them, and
    those still pending, in their order; and something is left pending only when the timeout
    has passed or the context has ended. *)
Theorem collected_returns ctx tq ids timeout w P :
  always_answers ctx tq P →
  ∃ r w', collected ctx tq ids timeout w = Some (r, w') ∧ later w w' ∧
    ∀ completed pending, r = Ok (completed, pending) →
      pending = not_completed completed ids ∧ dom completed ⊆ list_to_set ids ∧
      map_Forall P completed ∧
      (pending = [] ∨ clock w + timeout < clock w' ∨ ctx_Err ctx w' ≠ None).
Proof.
  intros HP. unfold collected. destruct ids as [|id ids].
  { eexists _, _. split_and!; [done|reflexivity|]. intros c p [= <- <-].
    split_and!; [done|set_solver|apply map_Forall_empty|by left]. }
  destruct (time_Now w) as [now w1] eqn:En. apply now_later in En as [Hl1 ->].
  destruct (collect_loop_spec ctx tq (id :: ids) (clock w1 + timeout) P HP
              (collect_fuel timeout) Second ∅ w1) as (r & w' & E & Hl & Hr).
  - done.
  - unfold passes_left, collect_fuel. replace (clock w1 + timeout - clock w1) with timeout by lia.
    case_decide; lia.
  - set_solver.
  - apply map_Forall_empty.
  - rewrite E. simpl. eexists _, _. split_and!; [done|by etrans|].
    intros c p. destruct r as [c'|e]; simpl; [|done]. intros [= <- <-].
    destruct (Hr c' eq_refl) as (H1 & H2 & H3). apply later_clock in Hl1.
    split_and!; [done..|]. unfold stopped in H3. intuition lia.
Qed.
End collect_props.

(** ** A concrete world: a clock that the waits advance, and queues that answer at once.
    A context is its deadline. *)
Definition toy_world : World := {|
  world := Z;
  Ctx := option Z;
  TaskQueue := string;
  time_Now w := (w, w);
  wait c d w := w + Z.max 0 d;
  ctx_Err c w := match c with
                 | Some t => if t <=? w then Some "context deadline exceeded" else None
                 | None => None end;
  ctx_Deadline c := c;
  WithDeadline c t := match c with Some t' => Some (Z.min t t') | None => Some t end;
  q_Submit c q prompt meta w := (Ok ("task-" +:+ q +:+ "-" +:+ prompt), w);
  q_Results c q ids w := (Ok ((λ id, mkTaskResult id ("done " +:+ id) "" (mkTokenUsage 0 0 0 0 "") ∅) <$> ids), w);
  q_Close q w := w |}.

Definition toy_world_laws : WorldLaws toy_world.
Proof.
  refine {| clock := λ w : @world toy_world, (w : Z); later := λ w w' : @world toy_world, (w : Z) ≤ w' |}.
  - done.
  - intros [t|] w w' Hl; simpl in *; [|done]. destruct (Z.leb_spec t w); [|done].
    rewrite (proj2 (Z.leb_le t w')); [done|lia].
  - intros w t w' [= -> ->]. split; [apply Z.le_refl|done].
  - intros c d w. simpl. lia.
  - intros c d w _. simpl. lia.
  - intros [t'|] t w Hl; simpl in *; (rewrite (proj2 (Z.leb_le _ _)); [done|lia]).
  - intros [t'|] t w; simpl; [|done]. destruct (Z.leb_spec t' w); [|done].
    rewrite (proj2 (Z.leb_le _ _)); [done|lia].
  - intros c q ids w r w' [= <- <-]. apply Z.le_refl.
Defined.

Lemma toy_queue_laws : QueueLaws toy_world.
Proof.
  split. intros c q ids w rs w' [= <- <-]. apply Forall_forall. intros r Hr.
  by apply list_elem_of_fmap in Hr as (id & -> & Hid).
Defined.

Lemma collected_returns_witness :
  ∃ r w', @collected toy_world None "self" ["a"; "b"] (5 * Second) 7 = Some (r, w') ∧
    @later _ toy_world_laws (7 : @world toy_world) w' ∧
    ∀ completed pending, r = Ok (completed, pending) →
      pending = not_completed completed ["a"; "b"] ∧
      dom completed ⊆ (list_to_set ["a"; "b"] : gset string) ∧
      map_Forall (λ id text, text = "done " +:+ id) completed ∧
      (pending = [] ∨ 7 + 5 * Second < @clock _ toy_world_laws w' ∨
       @ctx_Err toy_world None w' ≠ None).
Proof.
  apply (@collected_returns toy_world toy_world_laws toy_queue_laws None "self" ["a"; "b"]
           (5 * Second) 7 (λ id text, text = "done " +:+ id)).
  intros ids w rs w' [= <- <-]. apply Forall_forall. intros r Hr.
  by apply list_elem_of_fmap in Hr as (id & -> & _).
Defined.
