(* ===== verification/Config.v ===== *)
(** * Config: the configuration of an agent pod (pkg/agent/config/config.go).

    [Load] reads the environment variables the operator injects.  The environment, the file
    the system prompt is mounted at and the JSON decoders are arguments. *)
From Stdlib Require Import ZArith Lia Ascii.
From stdpp Require Import base tactics option list numbers strings gmap.
From S2P Require Import Prelude GoStd Queue Runtime.

Record LoopCompressionConfig := mkLoopCompressionConfig {
  ThresholdPercent : Z;
  PreserveRecentTurns : Z;
  ContextWindow : Z;
  comp_Model : string;
  comp_TimeoutSeconds : Z;
  comp_Instructions : string }.

Record LoopMemoryConfig := mkLoopMemoryConfig {
  mem_Store : bool;
  mem_Retrieve : bool;
  TopK : Z;
  MinSimilarityPercent : Z;
  SummaryTokens : Z;
  mem_MaxTokens : Z;
  EmbeddingModel : string;
  EmbeddingProvider : string }.
#[export] Instance settable_LoopMemoryConfig : Settable LoopMemoryConfig :=
  λ x, mkLoopMemoryConfig (mem_Store x) (mem_Retrieve x) (TopK x) (MinSimilarityPercent x)
         (SummaryTokens x) (mem_MaxTokens x) (EmbeddingModel x) (EmbeddingProvider x).

Record LoopSandboxConfig := mkLoopSandboxConfig {
  sb_ThresholdBytes : Z;
  sb_PreviewBytes : Z;
  sb_MaxTotalBytes : Z }.

Record LoopPolicyConfig := mkLoopPolicyConfig {
  Dedup : bool;
  Compression : option LoopCompressionConfig;
  Memory : option LoopMemoryConfig;
  lp_Sandbox : option LoopSandboxConfig }.
#[export] Instance settable_LoopPolicyConfig : Settable LoopPolicyConfig :=
  λ x, mkLoopPolicyConfig (Dedup x) (Compression x) (Memory x) (lp_Sandbox x).

(** [ThresholdFloat]. *)
Definition ThresholdFloat (c : LoopCompressionConfig) : f64 :=
  if ThresholdPercent c <=? 0 then f64_lit 75 100
  else f64_div (f64_of_Z (ThresholdPercent c)) (f64_of_Z 100).

Record AuditLogConfig := mkAuditLogConfig {
  Mode : string;
  Sink : string;
  MaxDetailBytes : Z;
  Redact : list string;
  ExcludeActions : list string;
  RedisURL : string;
  MaxStreamLen : Z;
  al_WebhookURL : string }.

Record MCPDiscoveryConfigRuntime := mkMCPDiscovery {
  Dynamic : bool;
  PollIntervalSeconds : Z }.

Record MCPServerConfig := mkMCPServerConfig {
  mcp_Name : string;
  mcp_URL : string;
  AuthType : string;
  TokenEnvVar : string;
  CertFile : string;
  KeyFile : string;
  Discovery : option MCPDiscoveryConfigRuntime }.

Record WebhookToolConfig := mkWebhookToolConfig {
  wt_Name : string;
  wt_Description : string;
  wt_URL : string;
  wt_Method : string;
  wt_InputSchema : string }.

Record GatewayCapabilityConfig := mkGatewayCapabilityConfig {
  gc_Name : string;
  gc_Description : string;
  gc_Agent : string;
  gc_Namespace : string;
  gc_Tags : list string;
  gc_ReadyReplicas : Z }.

Record GatewayRuntimeConfig := mkGatewayRuntimeConfig {
  DispatchMode : string;
  DispatchTimeoutSeconds : Z;
  MaxDispatchDepth : Z;
  MaxResultsPerSearch : Z;
  MaxDispatchCalls : Z;
  MaxSearchCalls : Z;
  gw_FallbackMode : string;
  gw_FallbackAgent : string;
  AllowedTargets : list string }.

Record GatewayToolConfig := mkGatewayToolConfig {
  gt_Name : string;
  gt_Description : string }.

Record AdvisorConfig := mkAdvisorConfig {
  adv_Name : string;
  ToolName : string;
  AgentRef : string;
  RecentMessages : Z;
  MaxCallsPerTask : Z;
  adv_TimeoutSeconds : Z;
  MaxAdvisorTokensPerTask : Z;
  MaxContextBytes : Z;
  ExcludeSystemPrompt : bool;
  adv_Instructions : string }.

Record CircuitBreakerConfig := mkCircuitBreakerConfig {
  cb_FailureThreshold : Z;
  cb_CooldownSeconds : Z;
  cb_HalfOpenMaxCalls : Z }.

Record Config := mkConfig {
  cfg_Provider : string;
  cfg_Model : string;
  cfg_SystemPrompt : string;
  MCPServers : list MCPServerConfig;
  MaxTokensPerCall : Z;
  TimeoutSeconds : Z;
  TaskQueueURL : string;
  StreamChannelURL : string;
  ValidatorPrompt : string;
  cfg_MaxRetries : Z;
  MaxConcurrentTasks : Z;
  WebhookTools : list WebhookToolConfig;
  TeamRoutes : gmap string string;
  cfg_Namespace : string;
  AgentName : string;
  TeamRole : string;
  TeamName : string;
  DailyTokenLimit : Z;
  ExternalProviderAddr : string;
  ExternalQueueAddr : string;
  ArtifactStoreURL : string;
  VectorStoreURL : string;
  ArtifactDir : string;
  ReasoningMode : string;
  ReasoningEffort : string;
  ReasoningBudgetTokens : Z;
  MaxThinkingTokensPerCall : Z;
  MaxAnswerTokensPerCall : Z;
  ToolDenyPatterns : list string;
  PolicyForceTrustLevel : string;
  LoopPolicy : option LoopPolicyConfig;
  AuditLog : option AuditLogConfig;
  Advisors : list AdvisorConfig;
  GatewayCapabilities : list GatewayCapabilityConfig;
  GatewayConfig : option GatewayRuntimeConfig;
  GatewayTools : list GatewayToolConfig;
  CircuitBreaker : option CircuitBreakerConfig;
  LogLLMTurns : bool;
  LogToolCalls : bool;
  RedactSecrets : bool;
  RedactPII : bool;
  ArtifactSaveOutput : bool;
  ArtifactSaveFormat : string;
  ArtifactSaveExtension : string }.

Definition ArtifactFormatExtensions : gmap string string := list_to_map
  [("text", ".txt"); ("json", ".json"); ("markdown", ".md"); ("yaml", ".yaml")].

(** encoding/json into the configuration types; [None] is an error. *)
Class ConfigJson := {
  unmarshal_mcp : string → option (list MCPServerConfig);
  unmarshal_webhooks : string → option (list WebhookToolConfig);
  unmarshal_routes : string → option (gmap string string);
  unmarshal_strings : string → option (list string);
  unmarshal_loop : string → option LoopPolicyConfig;
  unmarshal_audit : string → option AuditLogConfig;
  unmarshal_advisors : string → option (list AdvisorConfig);
  unmarshal_capabilities : string → option (list GatewayCapabilityConfig);
  unmarshal_gateway : string → option GatewayRuntimeConfig;
  unmarshal_gateway_tools : string → option (list GatewayToolConfig);
  unmarshal_breaker : string → option CircuitBreakerConfig }.

Definition config_error (code msg : string) : string := Error (NewAgentError "config" code msg).

Section load.
Context `{ConfigJson}.
Variable Getenv : string → string.
Variable ReadFile : string → option string.

Definition requireEnv (key : string) : result string string :=
  if decide (Getenv key = "")
  then Err (config_error "ConfigMissing" ("required env var " +:+ key +:+ " is not set"))
  else Ok (Getenv key).

Definition envBool (key : string) : bool := String.eqb (Getenv key) "true".

Definition envOrDefault (key dflt : string) : string :=
  if decide (Getenv key = "") then dflt else Getenv key.

Definition invalid_env {A} (key : string) : result string A :=
  Err (config_error "ConfigInvalid" ("invalid " +:+ key +:+ " " +:+ Quote (Getenv key))).

Definition optionalIntEnv (key : string) : result string Z :=
  if decide (Getenv key = "") then Ok 0
  else match Atoi (Getenv key) with Some n => Ok n | None => invalid_env key end.

Definition loadSystemPrompt : result string string :=
  let path := Getenv "AGENT_SYSTEM_PROMPT_PATH" in
  if decide (path = "") then requireEnv "AGENT_SYSTEM_PROMPT"
  else match ReadFile path with
       | None => Err (config_error "ConfigInvalid" ("reading system prompt from " +:+ path))
       | Some data =>
           let prompt := TrimSpace data in
           if decide (prompt = "")
           then Err (config_error "ConfigInvalid" ("system prompt file " +:+ path +:+ " is empty"))
           else Ok prompt
       end.

(** One block of [applyNumericEnvs]: the default, or a value in the range. *)
Definition numeric_env (key : string) (dflt lo hi : Z) : result string Z :=
  if decide (Getenv key = "") then Ok dflt
  else match Atoi (Getenv key) with
       | None => invalid_env key
       | Some n =>
           if (n <? lo) || (n >? hi)
           then Err (config_error "ConfigInvalid" (key +:+ " must be between " +:+ itoa lo
                       +:+ " and " +:+ itoa hi +:+ ", got " +:+ itoa n))
           else Ok n
       end.

(** [applyNumericEnvs]: the token, timeout, retry and concurrency limits. *)
Definition applyNumericEnvs : result string (Z * Z * Z * Z) :=
  tokens <-? numeric_env "AGENT_MAX_TOKENS" 8000 1 200000;
  timeout <-? numeric_env "AGENT_TIMEOUT_SECONDS" 120 1 86400;
  retries <-? numeric_env "AGENT_MAX_RETRIES" 3 0 100;
  concurrent <-? numeric_env "AGENT_MAX_CONCURRENT_TASKS" 5 1 1000;
  Ok (tokens, timeout, retries, concurrent).

Definition json_env {A} (key : string) (dflt : A) (dec : string → option A) : result string A :=
  if decide (Getenv key = "") then Ok dflt
  else match dec (Getenv key) with
       | Some a => Ok a
       | None => Err (config_error "ConfigInvalid" ("invalid " +:+ key +:+ " JSON"))
       end.

Definition applyJSONEnvs
    : result string (list MCPServerConfig * list WebhookToolConfig * gmap string string * list string) :=
  mcp <-? json_env "AGENT_MCP_SERVERS" [] unmarshal_mcp;
  webhooks <-? json_env "AGENT_WEBHOOK_TOOLS" [] unmarshal_webhooks;
  routes <-? json_env "AGENT_TEAM_ROUTES" ∅ unmarshal_routes;
  deny <-? json_env "AGENT_POLICY_TOOL_DENY" [] unmarshal_strings;
  Ok (mcp, webhooks, routes, deny).

Definition parseLoopPolicy : result string (option LoopPolicyConfig) :=
  lp <-? json_env "AGENT_LOOP_POLICY" None (λ raw, Some <$> unmarshal_loop raw);
  let embModel := Getenv "AGENT_EMBEDDING_MODEL" in
  Ok ((λ p, if decide (embModel = "") then p
            else
              let m := default (mkLoopMemoryConfig false false 0 0 0 0 "" "") (Memory p) in
              p <| Memory := Some (m <| EmbeddingModel := embModel |>
                                     <| EmbeddingProvider := Getenv "AGENT_EMBEDDING_PROVIDER" |>) |>)
        <$> lp).

Definition parseAuditLog : result string (option AuditLogConfig) :=
  al <-? json_env "AGENT_AUDIT_LOG" None (λ raw, Some <$> unmarshal_audit raw);
  Ok (match al with
      | Some a => if decide (Mode a = "" ∨ Mode a = "off") then None else Some a
      | None => None
      end).

Definition daily_limit : result string Z :=
  let v := Getenv "AGENT_DAILY_TOKEN_LIMIT" in
  if decide (v = "") then Ok 0
  else match Atoi v with
       | None => invalid_env "AGENT_DAILY_TOKEN_LIMIT"
       | Some n => if n <? 0
                   then Err (config_error "ConfigInvalid"
                          ("AGENT_DAILY_TOKEN_LIMIT must be non-negative, got " +:+ itoa n))
                   else Ok n
       end.

(** The format and the extension of saved outputs. *)
Definition artifact_format : string :=
  if envBool "AGENT_ARTIFACT_SAVE_OUTPUT" then envOrDefault "AGENT_ARTIFACT_SAVE_FORMAT" "text"
  else "".
Definition artifact_extension : string :=
  if envBool "AGENT_ARTIFACT_SAVE_OUTPUT"
  then default ".txt" (ArtifactFormatExtensions !! artifact_format) else "".

Definition Load : result string Config :=
  model <-? requireEnv "AGENT_MODEL";
  systemPrompt <-? loadSystemPrompt;
  queueURL <-? requireEnv "TASK_QUEUE_URL";
  numeric <-? applyNumericEnvs;
  let '(tokens, timeout, retries, concurrent) := numeric in
  json <-? applyJSONEnvs;
  let '(mcp, webhooks, routes, deny) := json in
  lp <-? parseLoopPolicy;
  al <-? parseAuditLog;
  budgetTokens <-? optionalIntEnv "AGENT_REASONING_BUDGET_TOKENS";
  maxThinking <-? optionalIntEnv "AGENT_MAX_THINKING_TOKENS_PER_CALL";
  maxAnswer <-? optionalIntEnv "AGENT_MAX_ANSWER_TOKENS_PER_CALL";
  daily <-? daily_limit;
  advisors <-? json_env "AGENT_ADVISORS" [] unmarshal_advisors;
  caps <-? json_env "AGENT_GATEWAY_CAPABILITIES" [] unmarshal_capabilities;
  gw <-? json_env "AGENT_GATEWAY_CONFIG" None (λ raw, Some <$> unmarshal_gateway raw);
  gwTools <-? json_env "AGENT_GATEWAY_TOOLS" [] unmarshal_gateway_tools;
  cb <-? json_env "AGENT_CIRCUIT_BREAKER" None (λ raw, Some <$> unmarshal_breaker raw);
  Ok (mkConfig (Getenv "AGENT_PROVIDER") model systemPrompt mcp tokens timeout queueURL
        (envOrDefault "STREAM_CHANNEL_URL" queueURL) (Getenv "AGENT_VALIDATOR_PROMPT") retries
        concurrent webhooks routes (Getenv "AGENT_NAMESPACE") (Getenv "AGENT_NAME")
        (Getenv "AGENT_TEAM_ROLE") (Getenv "AGENT_TEAM_NAME") daily
        (Getenv "SWARM_PLUGIN_LLM_ADDR") (Getenv "SWARM_PLUGIN_QUEUE_ADDR")
        (Getenv "AGENT_ARTIFACT_STORE_URL") (Getenv "AGENT_VECTOR_STORE_URL")
        (envOrDefault "AGENT_ARTIFACT_DIR" "/tmp/swarm-artifacts") (Getenv "AGENT_REASONING_MODE")
        (Getenv "AGENT_REASONING_EFFORT") budgetTokens maxThinking maxAnswer deny
        (Getenv "AGENT_POLICY_FORCE_TRUST_LEVEL") lp al advisors caps gw gwTools cb
        (envBool "AGENT_LOG_LLM_TURNS") (envBool "AGENT_LOG_TOOL_CALLS")
        (envBool "AGENT_LOG_REDACT_SECRETS") (envBool "AGENT_LOG_REDACT_PII")
        (envBool "AGENT_ARTIFACT_SAVE_OUTPUT") artifact_format artifact_extension).
End load.

(** [TaskTimeout]: nanoseconds. *)
Definition TaskTimeout (cfg : Config) : Z := wrap64 (TimeoutSeconds cfg * Second).

(** ** Properties *)

Section load_props.
Context `{J : ConfigJson}.
Implicit Types getenv : string → string.

Lemma bind_Ok {E A B} (r : result E A) (k : A → result E B) b :
  result_bind r k = Ok b → ∃ a, r = Ok a ∧ k a = Ok b.
Proof. destruct r; simpl; [eauto|done]. Qed.

(** Take a successful sequence of reads apart. *)
Ltac bind_inv H :=
  lazymatch type of H with
  | result_bind ?r ?k = Ok ?b =>
      let a := fresh "a" in let Ha := fresh "Ha" in
      apply bind_Ok in H as (a & Ha & H); cbn beta in H; bind_inv H
  | _ => idtac
  end.

Lemma requireEnv_Ok getenv key v : requireEnv getenv key = Ok v → v = getenv key ∧ v ≠ "".
Proof. unfold requireEnv. case_decide; [done|]. by intros [= <-]. Qed.

Lemma loadSystemPrompt_Ok getenv readFile v : loadSystemPrompt getenv readFile = Ok v → v ≠ "".
Proof.
  unfold loadSystemPrompt. case_decide; [by intros [_ ?]%requireEnv_Ok|].
  destruct (readFile _); [|done]. case_decide; [done|]. by intros [= <-].
Qed.

Lemma numeric_env_spec getenv key dflt lo hi n :
  numeric_env getenv key dflt lo hi = Ok n ↔
  (getenv key = "" ∧ n = dflt) ∨ (Atoi (getenv key) = Some n ∧ lo ≤ n ≤ hi).
Proof.
  unfold numeric_env, invalid_env. case_decide as E.
  { rewrite E. simpl. split; [intros [= <-]; tauto|]. intros [[_ ->]|[? _]]; [done|discriminate]. }
  destruct (Atoi (getenv key)) as [m|]; [|naive_solver].
  destruct (Z.ltb_spec m lo), (Z.gtb_spec m hi); simpl; naive_solver lia.
Qed.

Lemma numeric_env_range getenv key dflt lo hi n :
  lo ≤ dflt ≤ hi → numeric_env getenv key dflt lo hi = Ok n → lo ≤ n ≤ hi.
Proof. intros Hd [[_ ->]|[_ H]]%numeric_env_spec; auto. Qed.

Lemma in_width_b_range w z : in_width_b w z = true → min_int w ≤ z ≤ max_int w.
Proof. apply in_width_b_true. Qed.

Lemma Atoi_range s n : Atoi s = Some n → in_width 64 n.
Proof.
  unfold Atoi. intros H. apply in_width_b_true. revert H.
  repeat case_match; try done; intros [= <-]; done.
Qed.

Lemma daily_limit_Ok getenv n : daily_limit getenv = Ok n → 0 ≤ n ≤ max_int 64.
Proof.
  unfold daily_limit, invalid_env. case_decide; [intros [= <-]; vm_compute; intuition congruence|].
  destruct (Atoi _) as [m|] eqn:E; [|done]. apply Atoi_range in E as [_ E].
  destruct (Z.ltb_spec m 0); [done|]. intros [= <-]. done.
Qed.

Lemma parseAuditLog_Ok getenv a :
  parseAuditLog getenv = Ok (Some a) → Mode a ≠ "" ∧ Mode a ≠ "off".
Proof.
  unfold parseAuditLog. intros H. bind_inv H. destruct a0 as [x|]; [|done].
  case_decide as Hm; [done|]. injection H as ->. tauto.
Qed.

Lemma audit_Ok getenv al :
  parseAuditLog getenv = Ok al → ∀ a, al = Some a → Mode a ≠ "" ∧ Mode a ≠ "off".
Proof. intros H a ->. by apply parseAuditLog_Ok in H. Qed.

(** What the successful reads of [Load] say. *)
Ltac load_inv :=
  repeat match goal with
  | H : result_bind _ _ = Ok _ |- _ => bind_inv H
  | H : Ok _ = Ok _ |- _ => injection H as; subst
  | H : requireEnv _ _ = Ok _ |- _ => apply requireEnv_Ok in H as [? ?]
  | H : loadSystemPrompt _ _ = Ok _ |- _ => apply loadSystemPrompt_Ok in H
  | H : numeric_env _ _ _ _ _ = Ok _ |- _ => apply numeric_env_range in H; [|lia]
  | H : daily_limit _ = Ok _ |- _ => apply daily_limit_Ok in H
  end.

(** C23: a configuration that loads is usable: the model, the system prompt and the queues are
    named, every limit is in its documented range (its default when the variable is not set),
    the task timeout does not overflow, the daily budget is not negative, an audit
    configuration is not an inactive one and saved outputs get a known extension. *)
Theorem Load_valid getenv readFile cfg :
  Load getenv readFile = Ok cfg →
  cfg_Model cfg ≠ "" ∧ cfg_SystemPrompt cfg ≠ "" ∧ TaskQueueURL cfg ≠ "" ∧
  StreamChannelURL cfg ≠ "" ∧
  1 ≤ MaxTokensPerCall cfg ≤ 200000 ∧ 1 ≤ TimeoutSeconds cfg ≤ 86400 ∧
  0 ≤ cfg_MaxRetries cfg ≤ 100 ∧ 1 ≤ MaxConcurrentTasks cfg ≤ 1000 ∧
  TaskTimeout cfg = TimeoutSeconds cfg * Second ∧
  0 ≤ DailyTokenLimit cfg ≤ max_int 64 ∧
  (∀ a, AuditLog cfg = Some a → Mode a ≠ "" ∧ Mode a ≠ "off") ∧
  (ArtifactSaveOutput cfg = true →
   ArtifactSaveExtension cfg ∈ [".txt"; ".json"; ".md"; ".yaml"]).
Proof.
  unfold Load, applyNumericEnvs. intros H. load_inv.
  repeat match goal with p : (_ * _)%type |- _ => destruct p end. load_inv.
  split_and!; simpl; try done; try lia.
  - unfold envOrDefault. by case_decide.
  - unfold TaskTimeout, Second. simpl. apply wrap_id; [done|].
    unfold in_width, min_int, max_int. lia.
  - intros al ->. eauto using parseAuditLog_Ok.
  - intros Hs. unfold artifact_extension. rewrite Hs. unfold artifact_format. rewrite Hs.
    destruct (_ !! _) as [x|] eqn:E; [|simpl; set_solver].
    apply elem_of_list_to_map_2 in E. simpl. set_solver.
Qed.
End load_props.

(** A concrete environment; the decoders accept one text each. *)
Definition toy_config_json : ConfigJson := {|
  unmarshal_mcp _ := None; unmarshal_webhooks _ := None; unmarshal_routes _ := None;
  unmarshal_strings s := if String.eqb s "[]" then Some [] else None;
  unmarshal_loop _ := None; unmarshal_audit _ := None; unmarshal_advisors _ := None;
  unmarshal_capabilities _ := None; unmarshal_gateway _ := None;
  unmarshal_gateway_tools _ := None;
  unmarshal_breaker s := if String.eqb s "{}" then Some (mkCircuitBreakerConfig 0 0 0) else None |}.

Definition toy_env (key : string) : string :=
  default "" ((list_to_map [("AGENT_MODEL", "claude-sonnet-4-6"); ("AGENT_SYSTEM_PROMPT", "hi");
    ("TASK_QUEUE_URL", "redis://q"); ("AGENT_TIMEOUT_SECONDS", "300");
    ("AGENT_ARTIFACT_SAVE_OUTPUT", "true"); ("AGENT_ARTIFACT_SAVE_FORMAT", "pdf");
    ("AGENT_CIRCUIT_BREAKER", "{}")] : gmap string string) !! key).

Definition toy_config : Config :=
  match @Load toy_config_json toy_env (λ _, None) with
  | Ok cfg => cfg
  | Err _ => mkConfig "" "" "" [] 0 0 "" "" "" 0 0 [] ∅ "" "" "" "" 0 "" "" "" "" "" "" "" 0 0 0
               [] "" None None [] [] None [] None false false false false false "" ""
  end.

Lemma Load_valid_witness :
  let cfg := toy_config in
  cfg_Model cfg ≠ "" ∧ cfg_SystemPrompt cfg ≠ "" ∧ TaskQueueURL cfg ≠ "" ∧
  StreamChannelURL cfg ≠ "" ∧
  1 ≤ MaxTokensPerCall cfg ≤ 200000 ∧ 1 ≤ TimeoutSeconds cfg ≤ 86400 ∧
  0 ≤ cfg_MaxRetries cfg ≤ 100 ∧ 1 ≤ MaxConcurrentTasks cfg ≤ 1000 ∧
  TaskTimeout cfg = TimeoutSeconds cfg * Second ∧
  0 ≤ DailyTokenLimit cfg ≤ max_int 64 ∧
  (∀ a, AuditLog cfg = Some a → Mode a ≠ "" ∧ Mode a ≠ "off") ∧
  (ArtifactSaveOutput cfg = true →
   ArtifactSaveExtension cfg ∈ [".txt"; ".json"; ".md"; ".yaml"]).
Proof. apply (@Load_valid toy_config_json toy_env (λ _, None)). vm_compute. reflexivity. Defined.
