(* ===== verification/Guards.v ===== *)
(** * Guards: the small guards of the agent runtime (pkg/agent/runner/dedup.go, tool_deny.go,
    modelmap.go; pkg/agent/budget/budget.go; pkg/agent/redact/redact.go).

    Deduplication of tool calls, the deny list, context windows, the daily token budget's
    record format and the scrubbing of log text. *)
From Stdlib Require Import ZArith Lia Ascii.
From stdpp Require Import base tactics option list numbers strings gmap.
From S2P Require Import Prelude GoStd Queue Policy.

(** ** Deduplication *)

(** [hex.EncodeToString] of the SHA-256 of a text. *)
Class HashApi := sha256_hex : string → string.

Section dedup.
Context `{JsonApi, HashApi}.

Definition nul : ascii := "000"%char.

(** What is hashed of the input: its JSON, written again; the text itself if it is not JSON. *)
Definition canonical (input : string) : string :=
  match json_Unmarshal input with
  | Ok v => match json_Marshal v with Ok b => b | Err _ => input end
  | Err _ => input
  end.

Definition fingerprintCall (toolName input : string) : string :=
  sha256_hex (toolName +:+ String nul (canonical input)).

(** [seen]: the fingerprints of the calls of the task. *)
Definition ToolCallDeduplicator : Type := gset string.
Definition newDeduplicator : ToolCallDeduplicator := ∅.

Definition IsDuplicate (d : ToolCallDeduplicator) (toolName input : string)
    : bool * ToolCallDeduplicator :=
  let fp := fingerprintCall toolName input in
  if decide (fp ∈ d) then (true, d) else (false, {[fp]} ∪ d).

(** The verdicts on the calls of a task. *)
Fixpoint verdicts (d : ToolCallDeduplicator) (calls : list (string * string)) : list bool :=
  match calls with
  | [] => []
  | (tool, input) :: rest =>
      let '(dup, d) := IsDuplicate d tool input in dup :: verdicts d rest
  end.
End dedup.

(** ** The deny list *)
Definition checkToolDenied (toolName : string) (denyPatterns : list string) : option string :=
  match List.find (λ pattern, globMatch pattern toolName) denyPatterns with
  | Some pattern => Some (Error (NewAgentError "tool" "ToolDenied"
      ("tool " +:+ Quote toolName +:+ " denied by policy pattern " +:+ Quote pattern)))
  | None => None
  end.

(** ** Context windows *)
Definition builtinContextWindows : gmap string Z := list_to_map [
  ("claude-3-haiku-20240307", 200000); ("claude-3-5-haiku-20241022", 200000);
  ("claude-haiku-4-5-20251001", 200000); ("claude-3-5-sonnet-20241022", 200000);
  ("claude-3-7-sonnet-20250219", 200000); ("claude-sonnet-4-6", 200000);
  ("claude-opus-4-6", 200000); ("gpt-4o", 128000); ("gpt-4o-mini", 128000);
  ("gpt-4-turbo", 128000); ("gpt-4-turbo-preview", 128000); ("o1", 200000);
  ("o1-mini", 128000); ("o3", 200000); ("o3-mini", 200000); ("o4-mini", 200000);
  ("gemini-1.5-pro", 2000000); ("gemini-1.5-flash", 1000000); ("gemini-2.0-flash", 1000000);
  ("gemini-2.5-pro", 1000000)].

(** [provider] is the window the provider's ModelInfoProvider gives, if it is one, answers
    without an error and with an information. *)
Definition resolveContextWindow (model : string) (explicit : Z) (provider : option Z) : Z :=
  if explicit >? 0 then explicit
  else match provider with
       | Some w => if w >? 0 then w else default 0 (builtinContextWindows !! model)
       | None => default 0 (builtinContextWindows !! model)
       end.

Definition estimateTokens (text : string) : Z := (str_len text + 3) / 4.

(** ** The daily token budget *)

(** [ParseTokens]: the count behind the last colon of a member of the store. *)
Definition ParseTokens (member : string) : Z :=
  match last_index_byte member ":" with
  | None => 0
  | Some idx => ParseInt64 (str_drop (S idx) member)
  end.

(** [NewStore]: no enforcement, a store of a registered backend, or an error. *)
Inductive budget_store (S : Type) :=
| NoopStore
| BackendStore (s : S).
Arguments NoopStore {S}.
Arguments BackendStore {S} s.

(** The part of the text before the first occurrence of [sep], the text itself if none. *)
Definition cut_before (s sep : string) : string :=
  match str_index s sep with Some i => str_take i s | None => s end.

Definition NewStore {S} (backends : gmap string (string → Z → string → string → result string S))
    (url : string) (limit : Z) (namespace agentName : string) : result string (budget_store S) :=
  if decide (limit <= 0 ∨ namespace = "" ∨ agentName = "") then Ok NoopStore
  else
    let scheme := cut_before url "://" in
    match backends !! scheme with
    | None => Err (Error (NewAgentError "config" "ConfigMissing"
                ("no budget Store backend registered for scheme " +:+ Quote scheme)))
    | Some f => s <-? f url limit namespace agentName; Ok (BackendStore s)
    end.

(** ** Scrubbing of log text *)
Definition Placeholder : string := "[REDACTED]".

(** The compiled patterns: replacement of all matches, and the test. *)
Class RedactPatterns := {
  Pattern : Type;
  piiPatterns : list Pattern;
  secretPatterns : list Pattern;
  ReplaceAllString : Pattern → string → string → string;
  PatternMatch : Pattern → string → bool }.

Record Redactor := mkRedactor { redactPII : bool; redactSecrets : bool }.

(** A nil redactor is inactive. *)
Definition Active (r : option Redactor) : bool :=
  match r with Some r => redactPII r || redactSecrets r | None => false end.

Section redact.
Context `{RedactPatterns}.

Definition scrub (ps : list Pattern) (s : string) : string :=
  foldl (λ s re, ReplaceAllString re s Placeholder) s ps.

Definition Apply (r : option Redactor) (s : string) : string :=
  match r with
  | None => s
  | Some r =>
      if negb (redactPII r) && negb (redactSecrets r) then s
      else
        let s := if redactSecrets r then scrub secretPatterns s else s in
        if redactPII r then scrub piiPatterns s else s
  end.

Definition ContainsPII (s : string) : bool := existsb (λ re, PatternMatch re s) piiPatterns.
Definition ContainsSecret (s : string) : bool := existsb (λ re, PatternMatch re s) secretPatterns.
End redact.

Fixpoint stars (n : nat) : string := match n with O => "" | S n' => String "*" (stars n') end.

Definition MaskMiddle (s : string) : string :=
  if str_len s <=? 8 then stars (String.length s)
  else str_take 4 s +:+ "***" +:+ str_drop (String.length s - 4) s.

(** ** Properties *)

Section dedup_props.
Context `{J : JsonApi, HA : HashApi}.

Definition message (call : string * string) : string :=
  call.1 +:+ String nul (canonical call.2).

(** No two different messages of these calls have the same hash. *)
Definition no_collision (calls : list (string * string)) : Prop :=
  ∀ c1 c2, c1 ∈ calls → c2 ∈ calls →
    sha256_hex (message c1) = sha256_hex (message c2) → message c1 = message c2.

Definition no_nul (s : string) : bool := str_all (λ c, negb (Ascii.eqb c nul)) s.

Lemma message_inj a b s t :
  no_nul a = true → no_nul b = true →
  a +:+ String nul s = b +:+ String nul t → a = b ∧ s = t.
Proof.
  revert b. induction a as [|c a IH]; intros [|d b]; unfold no_nul in *; simpl; intros Ha Hb E.
  - by injection E.
  - injection E as <- _. done.
  - injection E as -> _. done.
  - apply andb_true_iff in Ha as [_ Ha], Hb as [_ Hb]. injection E as -> E.
    by destruct (IH b Ha Hb E) as [-> ->].
Qed.

Lemma verdicts_spec calls d i tool input :
  calls !! i = Some (tool, input) →
  ∃ b, verdicts d calls !! i = Some b ∧
    (b = true ↔ fingerprintCall tool input ∈ d ∨
       ∃ j c, (j < i)%nat ∧ calls !! j = Some c ∧
              fingerprintCall c.1 c.2 = fingerprintCall tool input).
Proof.
  revert d i. induction calls as [|[t x] calls IH]; intros d i Hi; [done|].
  cbn [verdicts]. unfold IsDuplicate. destruct i as [|i]; simpl in Hi.
  - injection Hi as -> ->. case_decide as E; simpl; eexists; (split; [done|]).
    + split; [by left|done].
    + split; [done|]. intros [?|(j & ? & ? & _)]; [done|lia].
  - assert (Hsplit : ∀ d', (∀ fp, fp ∈ d' ↔ fp = fingerprintCall t x ∨ fp ∈ d) →
      ∃ b, verdicts d' calls !! i = Some b ∧
        (b = true ↔ fingerprintCall tool input ∈ d ∨
          ∃ j c, (j < S i)%nat ∧ ((t, x) :: calls) !! j = Some c ∧
                 fingerprintCall c.1 c.2 = fingerprintCall tool input)).
    { intros d' Hd'. destruct (IH d' i Hi) as (b & Hb & Hiff). exists b. split; [done|].
      rewrite Hiff, Hd'. split.
      - intros [[E|?]|(j & c & Hj & Hc & E)]; [right|by left|right].
        + exists 0%nat, (t, x). split_and!; [lia|done|done].
        + exists (S j), c. split_and!; [lia|done|done].
      - intros [?|([|j] & c & Hj & Hc & E)]; [left; by right| |right].
        + injection Hc as <-. left. by left.
        + exists j, c. split_and!; [lia|done|done]. }
    case_decide as E; simpl; apply Hsplit; intros fp.
    + split; [by right|]. intros [->|?]; done.
    + set_solver.
Qed.

(** within a task a call is skipped exactly when an earlier call of the task had the same
    tool and the same input up to the formatting of its JSON, provided no two calls of the
    task collide in the hash and tool names contain no zero byte. *)
Theorem IsDuplicate_spec calls i tool input :
  calls !! i = Some (tool, input) → no_collision calls →
  Forall (λ c, no_nul c.1 = true) calls →
  ∃ b, verdicts newDeduplicator calls !! i = Some b ∧
    (b = true ↔ ∃ j input', (j < i)%nat ∧ calls !! j = Some (tool, input') ∧
                  canonical input' = canonical input).
Proof.
  intros Hi Hc Hn. destruct (verdicts_spec calls newDeduplicator i tool input Hi) as (b & Hb & Hiff).
  exists b. split; [done|]. rewrite Hiff. unfold newDeduplicator. split.
  - intros [?|(j & [t x] & Hj & Hcj & E)]; [set_solver|].
    apply (Hc (t, x) (tool, input)) in E; [|by eapply list_elem_of_lookup_2..].
    rewrite Forall_lookup in Hn. apply message_inj in E as [E1 E2]; simpl in *.
    + subst. by exists j, x.
    + by apply (Hn j _ Hcj).
    + by apply (Hn i _ Hi).
  - intros (j & x & Hj & Hcj & E). right. exists j, (tool, x). split_and!; [done|done|].
    unfold fingerprintCall. simpl. by rewrite E.
Qed.
End dedup_props.

Lemma IsDuplicate_spec_witness :
  let calls := [("search", "{}"); ("search", "{ }"); ("fetch", "{}"); ("search", "raw")] in
  ∃ b, @verdicts toy_json (λ s, s) newDeduplicator calls !! 1%nat = Some b ∧
    (b = true ↔ ∃ j input', (j < 1)%nat ∧ calls !! j = Some ("search", input') ∧
                  @canonical toy_json input' = @canonical toy_json "{ }").
Proof.
  apply (@IsDuplicate_spec toy_json (λ s, s)
           [("search", "{}"); ("search", "{ }"); ("fetch", "{}"); ("search", "raw")]).
  - reflexivity.
  - intros c1 c2 _ _ E. exact E.
  - repeat constructor.
Defined.

(** the runtime's deny list refuses exactly the tools whose name matches one of the
    patterns, and names the first that does. *)
Theorem checkToolDenied_spec toolName patterns :
  match checkToolDenied toolName patterns with
  | None => Forall (λ p, path_Match p toolName ≠ Some true) patterns
  | Some e => ∃ before p after, patterns = before ++ p :: after ∧
      path_Match p toolName = Some true ∧
      Forall (λ q, path_Match q toolName ≠ Some true) before ∧
      e = "[ToolDenied] tool " +:+ Quote toolName +:+ " denied by policy pattern " +:+ Quote p
  end.
Proof.
  assert (Hg : ∀ p, globMatch p toolName = true ↔ path_Match p toolName = Some true).
  { intros p. unfold globMatch. destruct (path_Match p toolName) as [[]|]; naive_solver. }
  unfold checkToolDenied. induction patterns as [|p ps IH]; simpl; [constructor|].
  destruct (globMatch p toolName) eqn:E.
  - exists [], p, ps. split_and!; [done|by apply Hg|constructor|done].
  - assert (path_Match p toolName ≠ Some true) by (rewrite <- Hg; congruence).
    destruct (List.find _ ps) as [q|]; [|by constructor].
    destruct IH as (before & r & after & -> & H1 & H2 & H3).
    exists (p :: before), r, after. split_and!; auto.
Qed.

Lemma last_index_byte_app s t c :
  last_index_byte t c = None → last_index_byte (s +:+ String c t) c = Some (String.length s).
Proof.
  intros Ht. induction s as [|d s IH]; simpl; [by rewrite Ht, Ascii.eqb_refl|].
  by rewrite IH.
Qed.

Lemma str_drop_app s t : str_drop (String.length s) (s +:+ t) = t.
Proof. induction s as [|c s IH]; simpl; [by destruct t|done]. Qed.

(** the count of tokens a backend writes behind the id of a task is read back exactly,
    whatever the id is, even one with colons. *)
Theorem ParseTokens_roundtrip taskID tokens :
  in_width 64 tokens → ParseTokens (taskID +:+ ":" +:+ itoa tokens) = tokens.
Proof.
  intros Hw. unfold ParseTokens. change (":" +:+ ?t) with (String ":" t).
  rewrite last_index_byte_app.
  - assert (E : str_drop (S (String.length taskID)) (taskID +:+ String ":" (itoa tokens)) = itoa tokens).
    { clear Hw. induction taskID as [|c s IH]; simpl; [by destruct (itoa tokens)|done]. }
    rewrite E. by apply ParseInt64_itoa.
  - apply last_index_byte_none, itoa_all; [|done].
    intros c Hc. destruct (Ascii.eqb_spec c ":"); [|done]. subst. by destruct Hc as [_ []].
Qed.

Lemma ParseTokens_roundtrip_witness : ParseTokens ("run:7" +:+ ":" +:+ itoa 1250) = 1250.
Proof. apply (ParseTokens_roundtrip "run:7" 1250). vm_compute. split; congruence. Defined.
