(* ===== verification/Gateway.v ===== *)
(** * Gateway: the gateway tools of the agent runtime (pkg/agent/runner/gateway.go).

    registry_search looks capabilities up, dispatch sends a task to another agent and waits
    for its result, both under limits.  The handler is shared by all tasks of a runner; its
    counters are reset when a task starts. *)
From Stdlib Require Import ZArith Lia Ascii.
From stdpp Require Import base tactics option list numbers strings gmap.
From S2P Require Import Prelude GoStd Types Kube Queue Runtime Config.

Definition gatewayToolSearch : string := "registry_search".
Definition gatewayToolDispatch : string := "dispatch".
Definition gatewayDepthMetaKey : string := "kubeswarm.io/dispatch-depth".

(** The fields of [gatewayHandler] that do not change. *)
Record gatewayHandler := mkGatewayHandler {
  capabilities : list GatewayCapabilityConfig;
  gw_config : option GatewayRuntimeConfig;
  gw_agentName : string;
  gw_namespace : string;
  queueURL : string }.

(** Its counters, under the mutex. *)
Record counters := mkCounters {
  dispatchCount : Z;
  searchCount : Z;
  dispatchDepth : Z }.
#[export] Instance settable_counters : Settable counters :=
  λ x, mkCounters (dispatchCount x) (searchCount x) (dispatchDepth x).

Definition resetPerTask (meta : gmap string string) : counters :=
  mkCounters 0 0 (match meta !! gatewayDepthMetaKey with
                  | Some v => default 0 (Atoi v)
                  | None => 0
                  end).

(** A configured limit, if it is positive, or the default. *)
Definition configured (field : GatewayRuntimeConfig → Z) (dflt : Z) (h : gatewayHandler) : Z :=
  match gw_config h with
  | Some c => if field c >? 0 then field c else dflt
  | None => dflt
  end.
Definition maxSearchCalls : gatewayHandler → Z := configured MaxSearchCalls 3.
Definition maxResultsPerSearch : gatewayHandler → Z := configured MaxResultsPerSearch 10.
Definition maxDispatchCalls : gatewayHandler → Z := configured MaxDispatchCalls 5.
Definition maxDispatchDepth : gatewayHandler → Z := configured MaxDispatchDepth 3.
Definition dispatchTimeoutSeconds : gatewayHandler → Z := configured DispatchTimeoutSeconds 120.

(** ** registry_search *)
Record searchResult := mkSearchResult {
  sr_Capabilities : list GatewayCapabilityConfig;
  sr_Returned : Z;
  sr_TotalMatches : Z;
  sr_RateLimited : bool;
  sr_Note : string }.

Record DispatchArgs := mkDispatchArgs {
  disp_Target : string;
  disp_Namespace : string;
  disp_Prompt : string }.

(** encoding/json on the arguments and answers of the tools. *)
Class GatewayJson := {
  unmarshal_search : string → option (string * list string);
  marshal_search : searchResult → option string;
  unmarshal_dispatch : string → option DispatchArgs;
  marshal_dispatch_failed : string → string → string;
  marshal_dispatch_timeout : string → Z → string }.

Section search.
Context `{LowerApi, FoldApi, GatewayJson}.

Definition tokenize (s : string) : list string := Fields (strings_ToLower s).

Definition dash_to_space (c : ascii) : ascii := if Ascii.eqb c "-" then " "%char else c.

Definition search_text (entry : GatewayCapabilityConfig) : string :=
  strings_ToLower (str_map dash_to_space (gc_Name entry) +:+ " " +:+ gc_Description entry).

Definition matchesQuery (entry : GatewayCapabilityConfig) (queryWords : list string) : bool :=
  existsb (λ qw, str_contains (search_text entry) qw ||
                 existsb (λ tag, strings_EqualFold tag qw) (gc_Tags entry)) queryWords.

Definition hasAllTags (entry : GatewayCapabilityConfig) (requiredTags : list string) : bool :=
  forallb (λ rt, existsb (λ t, strings_EqualFold t rt) (gc_Tags entry)) requiredTags.

Definition search_matches (query : string) (tags : list string)
    (entry : GatewayCapabilityConfig) : bool :=
  let queryWords := tokenize query in
  (negb (bool_decide (queryWords = [])) && matchesQuery entry queryWords) ||
  (negb (bool_decide (tags = [])) && hasAllTags entry tags).

Definition rate_limited_note : string :=
  "Search call limit reached. No more searches allowed for this task. " +:+
  "Answer the user directly with your own knowledge.".

(** The literal the code answers when the limit is reached. *)
Definition rate_limited_answer : string :=
  "{" +:+ dq +:+ "capabilities" +:+ dq +:+ ":[]," +:+ dq +:+ "returned" +:+ dq +:+ ":0," +:+
  dq +:+ "totalMatches" +:+ dq +:+ ":0," +:+ dq +:+ "rateLimited" +:+ dq +:+ ":true," +:+
  dq +:+ "note" +:+ dq +:+ ":" +:+ dq +:+ rate_limited_note +:+ dq +:+ "}".

Definition search_result (h : gatewayHandler) (query : string) (tags : list string) : searchResult :=
  let found := filter (λ e, search_matches query tags e = true) (capabilities h) in
  let totalMatches := Z.of_nat (length found) in
  let shown := if totalMatches >? maxResultsPerSearch h
               then take (Z.to_nat (maxResultsPerSearch h)) found else found in
  let returned := Z.of_nat (length shown) in
  let note :=
    if totalMatches =? 0
    then "No matching capabilities found. Answer the user directly with your own knowledge. Do not search again."
    else if totalMatches >? returned
    then "Showing " +:+ itoa returned +:+ " of " +:+ itoa totalMatches +:+
         " matching capabilities. Refine your query or tags to narrow results."
    else "" in
  mkSearchResult shown returned totalMatches false note.

Definition registrySearch (h : gatewayHandler) (input : string) (c : counters)
    : result string string * counters :=
  match unmarshal_search input with
  | None => (Err (invalid_args "registry_search: invalid input"), c)
  | Some (query, tags) =>
      let query := TrimSpace query in
      if decide (query = "" ∧ tags = [])
      then (Err (invalid_args "registry_search: query or tags must be provided"), c)
      else
        let c := c <| searchCount := wrap64 (searchCount c + 1) |> in
        if searchCount c >? maxSearchCalls h then (Ok rate_limited_answer, c)
        else match marshal_search (search_result h query tags) with
             | Some out => (Ok out, c)
             | None => (Err (tool_error "ToolExecutionFailed" "registry_search: marshalling result"), c)
             end
  end.
End search.

(** ** dispatch *)

Fixpoint hasCapability (entries : list GatewayCapabilityConfig) (agentName namespace : string) : bool :=
  match entries with
  | [] => false
  | entry :: rest =>
      if decide (gc_Agent entry = agentName) then
        if decide (gc_Namespace entry ≠ "" ∧ namespace ≠ "" ∧ gc_Namespace entry ≠ namespace)
        then hasCapability rest agentName namespace else true
      else hasCapability rest agentName namespace
  end.

Definition target_allowed (h : gatewayHandler) (target : string) : bool :=
  match gw_config h with
  | Some c => bool_decide (AllowedTargets c = []) || bool_decide (target ∈ AllowedTargets c)
  | None => true
  end.

(** The validations, the last two of which count the call.  On success: the namespace of the
    target and the depth of the running task. *)
Definition dispatch_guard (h : gatewayHandler) (args : DispatchArgs) (c : counters)
    : result string (string * Z) * counters :=
  if decide (TrimSpace (disp_Target args) = "")
  then (Err (invalid_args "dispatch: target must not be empty"), c)
  else if decide (TrimSpace (disp_Prompt args) = "")
  then (Err (invalid_args "dispatch: prompt must not be empty"), c)
  else
    let target := disp_Target args in
    let ns := if decide (disp_Namespace args = "") then gw_namespace h else disp_Namespace args in
    if decide (target = gw_agentName h ∧ ns = gw_namespace h)
    then (Err (invalid_args "dispatch: cannot dispatch to self"), c)
    else if negb (hasCapability (capabilities h) target ns)
    then (Err (tool_error "ToolNotFound" ("dispatch: target " +:+ Quote target +:+
                " not found in gateway capabilities; call registry_search to get valid targets")), c)
    else if negb (target_allowed h target)
    then (Err (invalid_args ("dispatch: target " +:+ Quote target +:+
                " is not in the allowed targets list")), c)
    else
      let c := c <| dispatchCount := wrap64 (dispatchCount c + 1) |> in
      if dispatchCount c >? maxDispatchCalls h
      then (Err (tool_error "ToolExecutionFailed" "dispatch call limit exceeded"), c)
      else if maxDispatchDepth h <=? dispatchDepth c
      then (Err (tool_error "ToolExecutionFailed" "dispatch depth exceeded"), c)
      else (Ok (ns, dispatchDepth c), c).

(** The metadata of the child task. *)
Definition dispatch_meta (depth : Z) : gmap string string :=
  {[gatewayDepthMetaKey := itoa (wrap64 (depth + 1))]}.

(** How a dispatch that was let through ends. *)
Inductive dispatch_answer :=
| DispatchOutput (s : string)
| DispatchFailed (reason : string)
| DispatchTimeout (elapsed_seconds : Z).

Section dispatch.
Context `{World, GatewayJson, UrlApi}.

Definition maxConsecutiveResultErrors : Z := 3.

(** The polling loop; [None] when the fuel runs out, an error when the parent context ends. *)
Fixpoint poll_dispatch (fuel : nat) (ctx pollCtx : Ctx) (tq : TaskQueue) (taskID : string)
    (start consecutiveErrs backoff : Z) (w : world)
    : option (result string dispatch_answer * world) :=
  match fuel with
  | O => None
  | S fuel' =>
      match ctx_Err pollCtx w with
      | Some _ =>
          match ctx_Err ctx w with
          | Some e => Some (Err e, w)
          | None =>
              let '(now, w) := time_Now w in
              Some (Ok (DispatchTimeout (Z.quot (now - start) Second)), w)
          end
      | None =>
          let '(r, w) := q_Results pollCtx tq [taskID] w in
          match r with
          | Err e =>
              match ctx_Err ctx w with
              | Some e' => Some (Err e', w)
              | None =>
                  match ctx_Err pollCtx w with
                  | Some _ => poll_dispatch fuel' ctx pollCtx tq taskID start consecutiveErrs backoff w
                  | None =>
                      let errs := consecutiveErrs + 1 in
                      if maxConsecutiveResultErrors <=? errs
                      then Some (Ok (DispatchFailed ("polling results after " +:+ itoa errs +:+
                                       " retries: " +:+ e)), w)
                      else poll_dispatch fuel' ctx pollCtx tq taskID start errs
                             (next_backoff backoff) (wait pollCtx backoff w)
                  end
              end
          | Ok (res :: _) =>
              Some (Ok (if decide (res_Error res = "") then DispatchOutput (res_Output res)
                        else DispatchFailed (res_Error res)), w)
          | Ok [] =>
              poll_dispatch fuel' ctx pollCtx tq taskID start 0 (next_backoff backoff)
                (wait pollCtx backoff w)
          end
      end
  end.

Definition dispatch_fuel (h : gatewayHandler) : nat := Z.to_nat (dispatchTimeoutSeconds h) + 4.

(** [replaceStreamParam] of advisor.go: the URL with another stream, or unchanged when it
    does not parse. *)
Definition replaceStreamParam (rawURL streamName : string) : string :=
  match url_set_query rawURL "stream" streamName with Some u => u | None => rawURL end.

Variable factories : gmap string (string → Z → result string TaskQueue).

(** Creation of the queue, submission and polling. *)
Definition run_dispatch (h : gatewayHandler) (ctx : Ctx) (target ns prompt : string) (depth : Z)
    (w : world) : option (result string dispatch_answer * world) :=
  let targetURL := replaceStreamParam (queueURL h) (ns +:+ "." +:+ target) in
  match NewQueue factories targetURL 0 with
  | Err e => Some (Ok (DispatchFailed ("creating queue: " +:+ e)), w)
  | Ok tq =>
      let '(start, w) := time_Now w in
      let '(r, w) := q_Submit ctx tq prompt (dispatch_meta depth) w in
      match r with
      | Err e => Some (Ok (DispatchFailed ("submitting task: " +:+ e)), q_Close tq w)
      | Ok taskID =>
          let '(now, w) := time_Now w in
          let pollCtx := WithDeadline ctx (now + dispatchTimeoutSeconds h * Second) in
          '(r, w) ← poll_dispatch (dispatch_fuel h) ctx pollCtx tq taskID start 0 Second w;
          Some (r, q_Close tq w)
      end
  end.

Definition write_answer (target : string) (a : dispatch_answer) : string :=
  match a with
  | DispatchOutput s => s
  | DispatchFailed reason => marshal_dispatch_failed target reason
  | DispatchTimeout elapsed => marshal_dispatch_timeout target elapsed
  end.

(** [dispatch]. *)
Definition gateway_dispatch (h : gatewayHandler) (ctx : Ctx) (input : string) (c : counters) (w : world)
    : option (result string string * counters * world) :=
  match unmarshal_dispatch input with
  | None => Some (Err (invalid_args "dispatch: invalid input"), c, w)
  | Some args =>
      match dispatch_guard h args c with
      | (Err e, c) => Some (Err e, c, w)
      | (Ok (ns, depth), c) =>
          '(r, w) ← run_dispatch h ctx (disp_Target args) ns (disp_Prompt args) depth w;
          Some (a <-? r; Ok (write_answer (disp_Target args) a), c, w)
      end
  end.
End dispatch.

(** ** Properties *)

Lemma filter_prefix {A} (P : A → Prop) `{∀ x, Decision (P x)} n (l : list A) :
  Forall P (take n (filter P l)) ∧ take n (filter P l) ⊆ l.
Proof.
  split; [apply Forall_take, Forall_forall; intros x; by rewrite list_elem_of_filter; intros [? _]|].
  intros x Hx. apply elem_of_take in Hx as (i & Hi & _).
  apply list_elem_of_lookup_2, list_elem_of_filter in Hi. tauto.
Qed.

Section search_props.
Context `{L : LowerApi, F : FoldApi, J : GatewayJson}.

(** What the words and tags of a search ask of a capability. *)
Definition wanted (query : string) (tags : list string) (e : GatewayCapabilityConfig) : Prop :=
  (∃ qw, qw ∈ tokenize query ∧
     (str_contains (search_text e) qw = true ∨ ∃ t, t ∈ gc_Tags e ∧ strings_EqualFold t qw = true)) ∨
  (tags ≠ [] ∧ ∀ rt, rt ∈ tags → ∃ t, t ∈ gc_Tags e ∧ strings_EqualFold t rt = true).

Lemma matchesQuery_spec e qws :
  matchesQuery e qws = true ↔ ∃ qw, qw ∈ qws ∧
    (str_contains (search_text e) qw = true ∨ ∃ t, t ∈ gc_Tags e ∧ strings_EqualFold t qw = true).
Proof.
  unfold matchesQuery. rewrite existsb_exists. setoid_rewrite <- list_elem_of_In.
  setoid_rewrite orb_true_iff. setoid_rewrite existsb_exists.
  by setoid_rewrite <- list_elem_of_In.
Qed.

Lemma search_matches_spec query tags e : search_matches query tags e = true ↔ wanted query tags e.
Proof.
  unfold search_matches, wanted, hasAllTags.
  rewrite orb_true_iff, !andb_true_iff, !negb_true_iff, !bool_decide_eq_false, matchesQuery_spec.
  rewrite forallb_forall. setoid_rewrite existsb_exists. setoid_rewrite <- list_elem_of_In.
  split; (intros [H|H]; [left|by right]); [tauto|]. destruct H as (qw & Hq & H).
  split; [intros E; rewrite E in Hq; by apply elem_of_nil in Hq|eauto].
Qed.

(** What a search that is within its quota reports. *)
Definition reports (h : gatewayHandler) (query : string) (tags : list string) (sr : searchResult) : Prop :=
  Forall (wanted query tags) (sr_Capabilities sr) ∧
  (∃ rest, filter (λ e, search_matches query tags e = true) (capabilities h) =
           sr_Capabilities sr ++ rest ∧
     sr_TotalMatches sr = sr_Returned sr + Z.of_nat (length rest)) ∧
  sr_Returned sr = Z.of_nat (length (sr_Capabilities sr)) ∧
  sr_Returned sr = Z.min (sr_TotalMatches sr) (maxResultsPerSearch h) ∧
  (sr_Note sr = "" ↔ 0 < sr_TotalMatches sr ≤ maxResultsPerSearch h).

Lemma search_result_reports h query tags : reports h query tags (search_result h query tags).
Proof.
  assert (Hmax : 0 < maxResultsPerSearch h).
  { unfold maxResultsPerSearch, configured. repeat case_match; lia. }
  unfold reports, search_result. set (found := filter _ _).
  cbn [sr_Capabilities sr_Returned sr_TotalMatches sr_Note].
  set (shown := if Z.of_nat (length found) >? maxResultsPerSearch h then _ else found).
  assert (Hs : shown = take (Z.to_nat (maxResultsPerSearch h)) found).
  { unfold shown. destruct (Z.gtb_spec (Z.of_nat (length found)) (maxResultsPerSearch h)); [done|].
    symmetry. apply take_ge. lia. }
  assert (Hl : Z.of_nat (length shown) = Z.min (Z.of_nat (length found)) (maxResultsPerSearch h)).
  { rewrite Hs, length_take. lia. }
  split_and!.
  - rewrite Hs. eapply Forall_impl; [apply filter_prefix|]. intros e He. by apply search_matches_spec.
  - exists (drop (Z.to_nat (maxResultsPerSearch h)) found). rewrite Hs, take_drop.
    split; [done|]. rewrite length_take, length_drop. lia.
  - done.
  - done.
  - destruct (Z.eqb_spec (Z.of_nat (length found)) 0); [split; [done|lia]|].
    destruct (Z.gtb_spec (Z.of_nat (length found)) (Z.of_nat (length shown))); [split; [done|lia]|].
    split; [lia|done].
Qed.

(** a search of the registry that is answered shows, in their order, the first of the
    capabilities that the query or the tags ask for (a word found in the name, the description
    or a tag; or all the tags), as many as the limit allows, and tells how many there are;
    malformed and empty searches do not use up the quota, and no more than
    [maxSearchCalls] searches of a task are answered. *)
Theorem registrySearch_spec h input c :
  0 ≤ searchCount c → searchCount c + 1 ≤ max_int 64 →
  let '(r, c') := registrySearch h input c in
  match unmarshal_search input with
  | None => is_Ok r = false ∧ c' = c
  | Some (query, tags) =>
      if decide (TrimSpace query = "" ∧ tags = []) then is_Ok r = false ∧ c' = c
      else
        searchCount c' = searchCount c + 1 ∧ dispatchCount c' = dispatchCount c ∧
        (maxSearchCalls h < searchCount c' → r = Ok rate_limited_answer) ∧
        (searchCount c' ≤ maxSearchCalls h →
         ∃ sr, reports h (TrimSpace query) tags sr ∧
           r = match marshal_search sr with
               | Some out => Ok out
               | None => Err (tool_error "ToolExecutionFailed" "registry_search: marshalling result")
               end)
  end.
Proof.
  intros Hc0 Hc. unfold registrySearch. destruct (unmarshal_search input) as [[query tags]|]; [|done].
  case_decide; [done|]. cbn [searchCount set_field].
  rewrite wrap_id by (try done; unfold in_width, min_int, max_int in *; lia).
  pose proof (search_result_reports h (TrimSpace query) tags) as Hr.
  destruct (Z.gtb_spec (searchCount c + 1) (maxSearchCalls h)) as [Hg|Hg].
  { split_and!; try done. simpl. lia. }
  destruct (marshal_search _) as [out|] eqn:E;
    (split_and!; [done|done|simpl; lia|]; intros _; eexists; split; [exact Hr|by rewrite E]).
Qed.
End search_props.

(** A concrete JSON of the tools: a search input is its query, an answer lists its names. *)
Definition toy_gateway_json : GatewayJson := {|
  unmarshal_search s := if HasPrefix s "!" then None else Some (s, []);
  marshal_search sr := Some (str_join "," (gc_Name <$> sr_Capabilities sr));
  unmarshal_dispatch s := Some (mkDispatchArgs s "" "go");
  marshal_dispatch_failed target reason := target +:+ " failed: " +:+ reason;
  marshal_dispatch_timeout target n := target +:+ " timeout " +:+ itoa n |}.

Definition toy_gateway : gatewayHandler :=
  mkGatewayHandler
    [mkGatewayCapabilityConfig "code-review" "Reviews code" "reviewer" "ns" [] 1;
     mkGatewayCapabilityConfig "translate" "Translates text" "translator" "ns" [] 1]
    None "gate" "ns" "redis://q".

Lemma registrySearch_spec_witness :
  let '(r, c') := @registrySearch ToLower (λ a b, String.eqb a b) toy_gateway_json toy_gateway
                    "Review" (mkCounters 0 0 0) in
  searchCount c' = 1 ∧ dispatchCount c' = 0 ∧
  (maxSearchCalls toy_gateway < searchCount c' → r = Ok rate_limited_answer) ∧
  (searchCount c' ≤ maxSearchCalls toy_gateway →
   ∃ sr, @reports ToLower (λ a b, String.eqb a b) toy_gateway (TrimSpace "Review") [] sr ∧
     r = match @marshal_search toy_gateway_json sr with
         | Some out => Ok out
         | None => Err (tool_error "ToolExecutionFailed" "registry_search: marshalling result")
         end).
Proof.
  apply (@registrySearch_spec ToLower (λ a b, String.eqb a b) toy_gateway_json toy_gateway
           "Review" (mkCounters 0 0 0)); vm_compute; congruence.
Defined.

(** *** dispatch *)

Lemma hasCapability_spec entries agentName ns :
  hasCapability entries agentName ns = true ↔
  ∃ e, e ∈ entries ∧ gc_Agent e = agentName ∧
       (gc_Namespace e = "" ∨ ns = "" ∨ gc_Namespace e = ns).
Proof.
  induction entries as [|e entries IH]; simpl; [split; [done|intros (? & ?%elem_of_nil & _); done]|].
  setoid_rewrite elem_of_cons. repeat case_decide.
  - rewrite IH. split; [intros (x & ? & ?); eauto 6|]. intros (x & [->|?] & ? & ?); [|eauto].
    naive_solver.
  - split; [|done]. intros _. exists e. split_and!; [by left|done|].
    destruct (decide (gc_Namespace e = "")), (decide (ns = "")); try tauto.
    destruct (decide (gc_Namespace e = ns)); tauto.
  - rewrite IH. split; [intros (x & ? & ?); eauto 6|]. intros (x & [->|?] & ? & ?); [done|eauto].
Qed.

(** What a dispatch must satisfy. *)
Definition dispatchable (h : gatewayHandler) (args : DispatchArgs) (ns : string) : Prop :=
  TrimSpace (disp_Target args) ≠ "" ∧ TrimSpace (disp_Prompt args) ≠ "" ∧
  ns = (if decide (disp_Namespace args = "") then gw_namespace h else disp_Namespace args) ∧
  ¬ (disp_Target args = gw_agentName h ∧ ns = gw_namespace h) ∧
  (∃ e, e ∈ capabilities h ∧ gc_Agent e = disp_Target args ∧
        (gc_Namespace e = "" ∨ ns = "" ∨ gc_Namespace e = ns)) ∧
  (∀ cfg, gw_config h = Some cfg → AllowedTargets cfg ≠ [] → disp_Target args ∈ AllowedTargets cfg).

Lemma target_allowed_spec h target :
  target_allowed h target = true ↔
  ∀ cfg, gw_config h = Some cfg → AllowedTargets cfg ≠ [] → target ∈ AllowedTargets cfg.
Proof.
  unfold target_allowed. destruct (gw_config h) as [cfg|]; [|naive_solver].
  rewrite orb_true_iff, !bool_decide_eq_true. split.
  - intros [?|?] ? [= <-] ?; done.
  - intros Ha. destruct (decide (AllowedTargets cfg = [])); [by left|right; by apply Ha].
Qed.

Lemma dispatch_guard_iff h args c ns depth c' :
  0 ≤ dispatchCount c < max_int 64 →
  dispatch_guard h args c = (Ok (ns, depth), c') ↔
  dispatchable h args ns ∧ dispatchCount c + 1 ≤ maxDispatchCalls h ∧
  depth = dispatchDepth c ∧ depth < maxDispatchDepth h ∧
  c' = c <| dispatchCount := dispatchCount c + 1 |>.
Proof.
  intros Hc. unfold dispatch_guard, dispatchable.
  rewrite wrap_id by (try done; unfold in_width, min_int, max_int in *; lia).
  rewrite <- target_allowed_spec, <- hasCapability_spec.
  set (ns0 := if decide (disp_Namespace args = "") then _ else _).
  (* each rejection contradicts one conjunct *)
  assert (Hno : ∀ (e : string) (P : Prop), ¬ P →
    (Err e, c) = (Ok (ns, depth), c') ↔ P) by (intros; split; [discriminate|tauto]).
  case_decide as H1; [apply Hno; tauto|]. case_decide as H2; [apply Hno; tauto|].
  case_decide as H3; [apply Hno; intros ((_ & _ & -> & ? & _) & _); tauto|].
  destruct (hasCapability (capabilities h) (disp_Target args) ns0) eqn:H4; simpl;
    [|apply Hno; intros ((_ & _ & -> & _ & ? & _) & _); congruence].
  destruct (target_allowed h (disp_Target args)) eqn:H5; simpl;
    [|apply Hno; intros ((_ & _ & _ & _ & _ & ?) & _); congruence].
  destruct (Z.gtb_spec (dispatchCount c + 1) (maxDispatchCalls h)); [split; [discriminate|lia]|].
  destruct (Z.leb_spec (maxDispatchDepth h) (dispatchDepth c)); [split; [discriminate|lia]|].
  split; [intros [= <- <- <-]; split_and!; done|].
  intros ((_ & _ & -> & _) & _ & -> & _ & ->). done.
Qed.

(** a dispatch is let through exactly when target and prompt are given, the target is not
    the gateway itself, is a listed capability of that namespace and is among the allowed
    targets (if any are listed), the task has dispatches left and its depth is below the limit;
    calls rejected before the limits do not count against them. *)
Theorem dispatch_guard_spec h args c ns depth c' :
  0 ≤ dispatchCount c < max_int 64 →
  dispatch_guard h args c = (Ok (ns, depth), c') ↔
  dispatchable h args ns ∧ dispatchCount c + 1 ≤ maxDispatchCalls h ∧
  depth = dispatchDepth c ∧ depth < maxDispatchDepth h ∧
  c' = c <| dispatchCount := dispatchCount c + 1 |>.
Proof. apply dispatch_guard_iff. Qed.

Lemma dispatch_guard_spec_witness :
  dispatch_guard toy_gateway (mkDispatchArgs "reviewer" "" "go") (mkCounters 4 0 2) =
    (Ok ("ns", 2), mkCounters 5 0 2) ↔
  dispatchable toy_gateway (mkDispatchArgs "reviewer" "" "go") "ns" ∧
  4 + 1 ≤ maxDispatchCalls toy_gateway ∧ 2 = 2 ∧ 2 < maxDispatchDepth toy_gateway ∧
  mkCounters 5 0 2 = (mkCounters 4 0 2) <| dispatchCount := 4 + 1 |>.
Proof.
  apply (dispatch_guard_spec toy_gateway (mkDispatchArgs "reviewer" "" "go") (mkCounters 4 0 2)
           "ns" 2 (mkCounters 5 0 2)). vm_compute. split; congruence.
Defined.

(** *** Chains of dispatches *)

Lemma dispatch_guard_depth h args c ns depth c' :
  dispatch_guard h args c = (Ok (ns, depth), c') →
  depth = dispatchDepth c ∧ depth < maxDispatchDepth h.
Proof.
  unfold dispatch_guard. repeat (case_decide; try done); repeat split_match; try done;
    to_prop; intros [= <- <- <-]; simpl in *; lia.
Qed.

Lemma reset_dispatch_meta depth :
  in_width 64 (depth + 1) → dispatchDepth (resetPerTask (dispatch_meta depth)) = depth + 1.
Proof.
  intros Hw. unfold resetPerTask, dispatch_meta. rewrite lookup_singleton_eq. simpl.
  rewrite wrap_id by done. by rewrite Atoi_itoa.
Qed.

Section chains.
Context {GJ : GatewayJson} {LA : LowerApi} {FA : FoldApi}.

(** What happens to the handler of a runner, which all its tasks share. *)
Inductive gateway_event :=
| TaskStarted (meta : gmap string string)
| Searched (input : string)
| Dispatched (args : DispatchArgs).

Definition handle (h : gatewayHandler) (c : counters) (e : gateway_event) : counters :=
  match e with
  | TaskStarted meta => resetPerTask meta
  | Searched input => snd (registrySearch h input c)
  | Dispatched args => snd (dispatch_guard h args c)
  end.

(** No task starts. *)
Definition alone (events : list gateway_event) : Prop :=
  Forall (λ e, match e with TaskStarted _ => False | _ => True end) events.

(** The metadata of a task [n] dispatches away from a task that no gateway dispatched.  A task with
    such metadata starts in the runner of a gateway and later dispatches another one; in between
    the runner starts no other task. *)
Inductive chain (allowed : gatewayHandler → Prop) : Z → gmap string string → Prop :=
| chain_root meta : meta !! gatewayDepthMetaKey = None → chain allowed 0 meta
| chain_dispatch n meta h before events args ns depth c' :
    chain allowed n meta → allowed h → alone events →
    dispatch_guard h args (foldl (handle h) before (TaskStarted meta :: events)) = (Ok (ns, depth), c') →
    chain allowed (n + 1) (dispatch_meta depth).

Lemma handle_depth h events c : alone events → dispatchDepth (foldl (handle h) c events) = dispatchDepth c.
Proof.
  revert c. induction events as [|e events IH]; intros c; [done|]. intros [He Ha]%Forall_cons. simpl.
  rewrite IH by done. destruct e as [meta|input|args]; [done| |]; simpl.
  - unfold registrySearch. by repeat case_match.
  - unfold dispatch_guard. by repeat case_match.
Qed.

(** C9: chains of dispatches between gateways are bounded, as long as no runner starts another task
    between the start of a task and its dispatch: the depth in the metadata of a task is the number of
    dispatches since the task that started the chain, and no chain is longer than the largest
    configured depth.  The condition is needed ([reset_breaks_limits]): every task that starts
    resets the counters that all tasks of the runner share. *)
Theorem dispatch_chain_bounded allowed limit n meta :
  limit ≤ max_int 64 → (∀ h, allowed h → maxDispatchDepth h ≤ limit) →
  chain allowed n meta → dispatchDepth (resetPerTask meta) = n ∧ 0 ≤ n ≤ Z.max 0 limit.
Proof.
  intros Hl Hall. induction 1 as [meta Hm|n meta h before events args ns depth c' _ [IH1 IH2] Ha Hal Hg].
  - unfold resetPerTask. rewrite Hm. simpl. lia.
  - apply dispatch_guard_depth in Hg as [-> Hlt]. cbn [foldl handle] in Hlt |- *.
    rewrite handle_depth, IH1 in Hlt |- * by done.
    specialize (Hall h Ha). rewrite reset_dispatch_meta by (unfold in_width, min_int, max_int in *; lia). lia.
Qed.
End chains.

Lemma dispatch_chain_bounded_witness :
  dispatchDepth (resetPerTask (dispatch_meta 0)) = 1 ∧ 0 ≤ 1 ≤ Z.max 0 3.
Proof.
  apply (@dispatch_chain_bounded toy_gateway_json ToLower String.eqb (λ h, h = toy_gateway) 3 1); [vm_compute; congruence| |].
  - intros h ->. vm_compute. congruence.
  - apply (@chain_dispatch toy_gateway_json ToLower String.eqb _ 0 ∅ toy_gateway (mkCounters 3 1 2) [] (mkDispatchArgs "reviewer" "" "go")
             "ns" 0 (mkCounters 1 0 0)); [by apply chain_root|done|constructor|reflexivity].
Defined.

(** but a runner serves several tasks at a time (AGENT_MAX_CONCURRENT_TASKS, five by
    default) with one handler, and each task that starts resets its counters.  A task at the
    depth limit, or one that has used up its calls, dispatches again as soon as another task
    starts: the documented limits "per task" hold for neither. *)
Theorem reset_breaks_limits h args ns meta c depth c' :
  dispatchable h args ns → meta !! gatewayDepthMetaKey = None →
  maxDispatchCalls h ≤ dispatchCount c ∨ maxDispatchDepth h ≤ dispatchDepth c →
  0 ≤ dispatchCount c < max_int 64 →
  dispatch_guard h args c ≠ (Ok (ns, depth), c') ∧
  dispatch_guard h args (resetPerTask meta) = (Ok (ns, 0), mkCounters 1 0 0).
Proof.
  intros Hd Hm Hlim Hc. assert (Hcalls : 0 < maxDispatchCalls h).
  { unfold maxDispatchCalls, configured. repeat case_match; lia. }
  assert (Hdepth : 0 < maxDispatchDepth h).
  { unfold maxDispatchDepth, configured. repeat case_match; lia. }
  split; [intros [_ H]%dispatch_guard_iff; [lia|done]|].
  assert (resetPerTask meta = mkCounters 0 0 0) as -> by (unfold resetPerTask; by rewrite Hm).
  apply dispatch_guard_iff; [vm_compute; split; congruence|]. simpl. by split_and!; try lia.
Qed.

Lemma reset_breaks_limits_witness :
  dispatch_guard toy_gateway (mkDispatchArgs "reviewer" "" "go") (mkCounters 5 0 0) ≠
    (Ok ("ns", 0), mkCounters 6 0 0) ∧
  dispatch_guard toy_gateway (mkDispatchArgs "reviewer" "" "go") (resetPerTask ∅) =
    (Ok ("ns", 0), mkCounters 1 0 0).
Proof.
  apply (reset_breaks_limits toy_gateway (mkDispatchArgs "reviewer" "" "go") "ns" ∅
           (mkCounters 5 0 0) 0 (mkCounters 6 0 0)).
  - unfold dispatchable. split_and!; [done|done|done|by intros [? _]| |done].
    exists (mkGatewayCapabilityConfig "code-review" "Reviews code" "reviewer" "ns" [] 1).
    split_and!; [left|done|by right; right].
  - done.
  - left. vm_compute. congruence.
  - vm_compute. split; congruence.
Defined.

(** *** A dispatch ends *)
Section dispatch_props.
Context (W : World) {WL : WorldLaws W} {J : GatewayJson} {U : UrlApi}.

(** Every output a queue reports satisfies [P]. *)
Definition outputs_satisfy (P : string → Prop) : Prop :=
  ∀ c tq ids w rs w', q_Results c tq ids w = (Ok rs, w') →
    Forall (λ r, res_Error r = "" → P (res_Output r)) rs.

Lemma passes_left_pos ctx deadline w : (1 ≤ passes_left W ctx deadline w)%nat.
Proof. unfold passes_left. case_decide; lia. Qed.

Lemma passes_left_err ctx deadline w : ctx_Err ctx w ≠ None → passes_left W ctx deadline w = 1%nat.
Proof. intros H. unfold passes_left. by rewrite decide_False. Qed.

Lemma poll_dispatch_spec ctx deadline tq taskID start P :
  outputs_satisfy P →
  ∀ fuel errs backoff w,
  Second ≤ backoff → (passes_left W (WithDeadline ctx deadline) deadline w ≤ fuel)%nat →
  ∃ r w', poll_dispatch fuel ctx (WithDeadline ctx deadline) tq taskID start errs backoff w =
    Some (r, w') ∧ ∀ s, r = Ok (DispatchOutput s) → P s.
Proof.
  intros HP. set (pollCtx := WithDeadline ctx deadline).
  induction fuel as [|fuel IH]; intros errs backoff w Hb Hf.
  { pose proof (passes_left_pos pollCtx deadline w). lia. }
  cbn [poll_dispatch]. destruct (ctx_Err pollCtx w) as [e|] eqn:Ep.
  { destruct (ctx_Err ctx w); [by eexists _, _|]. destruct (time_Now w). by eexists _, _. }
  assert (Hd : clock w ≤ deadline).
  { destruct (Z.le_gt_cases (clock w) deadline) as [?|Hgt]; [done|]. exfalso.
    apply (deadline_Err ctx deadline w); [lia|done]. }
  assert (Hw : passes_left W pollCtx deadline w = S (Z.to_nat ((deadline - clock w) / Second + 1))).
  { unfold passes_left. by rewrite decide_True. }
  assert (0 ≤ (deadline - clock w) / Second) by (apply Z.div_pos; unfold Second; lia).
  assert (Hnext : ∀ w2, later w w2 →
    (passes_left W pollCtx deadline (wait pollCtx backoff w2) ≤ fuel)%nat).
  { intros w2 Hl. pose proof (passes_left_wait W pollCtx deadline w w2 backoff Hb Hl Hd). lia. }
  destruct (q_Results pollCtx tq [taskID] w) as [[[|res rs]|e] w2] eqn:Er;
    pose proof (Results_later _ _ _ _ _ _ Er) as Hl.
  - apply IH; [by apply next_backoff_ge|by apply Hnext].
  - eexists _, _. split; [done|]. intros s. case_decide as He; [|done]. intros [= <-].
    apply HP in Er. apply Forall_cons in Er as [Er _]. by apply Er.
  - destruct (ctx_Err ctx w2); [by eexists _, _|]. destruct (ctx_Err pollCtx w2) eqn:E2.
    + apply IH; [done|]. rewrite passes_left_err by by rewrite E2. lia.
    + case_match; [by eexists _, _|]. apply IH; [by apply next_backoff_ge|by apply Hnext].
Qed.

(** a dispatch that is let through ends, whatever the target does: with its output, with
    a failure, with a timeout or with the end of the calling task, within the number of polls
    the timeout allows; and an output it answers is one the target's queue reported without
    an error. *)
Theorem run_dispatch_returns factories h ctx target ns prompt depth w P :
  outputs_satisfy P →
  ∃ r w', run_dispatch factories h ctx target ns prompt depth w = Some (r, w') ∧
    ∀ s, r = Ok (DispatchOutput s) → P s.
Proof.
  intros HP. unfold run_dispatch. destruct (NewQueue _ _ _) as [tq|e]; [|by eexists _, _].
  destruct (time_Now w) as [start w1]. destruct (q_Submit _ _ _ _ w1) as [[id|e] w2]; [|by eexists _, _].
  destruct (time_Now w2) as [now w3] eqn:En. apply now_later in En as [_ ->].
  destruct (poll_dispatch_spec ctx (clock w3 + dispatchTimeoutSeconds h * Second) tq id start P HP
              (dispatch_fuel h) 0 Second w3) as (r & w' & -> & Hr); [done| |by eexists _, _].
  unfold passes_left, dispatch_fuel. case_decide; [|lia].
  replace (clock w3 + dispatchTimeoutSeconds h * Second - clock w3)
    with (dispatchTimeoutSeconds h * Second) by lia.
  rewrite Z.div_mul by done. lia.
Qed.
End dispatch_props.

Lemma run_dispatch_returns_witness :
  ∃ r w', @run_dispatch toy_world toy_url {["redis" := λ url n, Ok url]} toy_gateway None
            "reviewer" "ns" "go" 0 7 = Some (r, w') ∧
    ∀ s, r = Ok (DispatchOutput s) → HasPrefix s "done " = true.
Proof.
  apply (@run_dispatch_returns toy_world toy_world_laws toy_url _ toy_gateway None
           "reviewer" "ns" "go" 0 7 (λ s, HasPrefix s "done " = true)).
  intros c tq ids w rs w' [= <- <-]. apply Forall_forall. intros r Hr _.
  apply list_elem_of_fmap in Hr as (id & -> & _). apply HasPrefix_app.
Defined.
