(* ===== verification/Advisor.v ===== *)
(** * Advisor: the advisor tools of the agent runtime (pkg/agent/runner/advisor.go).

    An executor consults other agents, within limits on calls and tokens that a tracker
    keeps.  The tracker is created with the runner. *)
From Stdlib Require Import ZArith Lia Ascii.
From stdpp Require Import base tactics option list numbers strings gmap.
From S2P Require Import Prelude GoStd Types Kube Queue Runtime Config Gateway.

Record advisorState := mkAdvisorState {
  callCount : Z;
  cumulativeTokens : Z }.
#[export] Instance settable_advisorState : Settable advisorState :=
  λ x, mkAdvisorState (callCount x) (cumulativeTokens x).
#[export] Instance advisorState_eq_dec : EqDecision advisorState.
Proof. solve_decision. Defined.

(** The states by advisor name, the configurations by tool name. *)
Record advisorTracker := mkAdvisorTracker {
  states : gmap string advisorState;
  configs : gmap string AdvisorConfig }.
#[export] Instance settable_advisorTracker : Settable advisorTracker :=
  λ x, mkAdvisorTracker (states x) (configs x).

Definition newAdvisorTracker (advisors : list AdvisorConfig) : advisorTracker :=
  foldl (λ t a, t <| states ::= <[adv_Name a := mkAdvisorState 0 0]> |>
                  <| configs ::= <[ToolName a := a]> |>) (mkAdvisorTracker ∅ ∅) advisors.

Definition isAdvisorTool (t : advisorTracker) (toolName : string) : option AdvisorConfig :=
  configs t !! toolName.

(** The index of the call and what remains of the budget, or the refusal; [None] is the
    dereference of a state that does not exist. *)
Definition checkAndIncrement (t : advisorTracker) (advisorName : string) (maxCalls : Z)
    : option (option (Z * Z) * advisorTracker) :=
  s ← states t !! advisorName;
  if (maxCalls >? 0) && (maxCalls <=? callCount s) then Some (None, t)
  else
    let n := wrap32 (callCount s + 1) in
    let remaining := if maxCalls >? 0 then wrap32 (maxCalls - n) else 0 in
    Some (Some (n, remaining), t <| states ::= <[advisorName := s <| callCount := n |>]> |>).

(** True when the limit is exceeded. *)
Definition AddTokens (t : advisorTracker) (advisorName : string) (tokens maxTokens : Z)
    : bool * advisorTracker :=
  match states t !! advisorName with
  | None => (false, t)
  | Some s =>
      let n := wrap32 (cumulativeTokens s + tokens) in
      ((maxTokens >? 0) && (n >? maxTokens),
       t <| states ::= <[advisorName := s <| cumulativeTokens := n |>]> |>)
  end.

Definition CumulativeTokens (t : advisorTracker) (advisorName : string) : Z :=
  match states t !! advisorName with Some s => cumulativeTokens s | None => 0 end.

Section advisor.
Context `{World, UrlApi}.
(** The decoded question; the base queue URL, the namespace and the name of the agent. *)
Variable unmarshal_question : string → option string.
Variable factories : gmap string (string → Z → result string TaskQueue).
Variables taskQueueURL namespace agentName : string.
(** Which case [select] takes in its [n]-th round when both are ready. *)
Variable pick_tick : nat → bool.

Definition poll_interval : Z := 500000000.

(** The polling loop of [callAdvisorViaGateway], a wait for each tick; [None] when the fuel
    runs out. *)
Fixpoint poll_advisor (fuel round : nat) (ctx : Ctx) (tq : TaskQueue) (taskID : string) (w : world)
    : option (result string (string * TokenUsage) * world) :=
  match fuel with
  | O => None
  | S fuel' =>
      let w := wait ctx poll_interval w in
      let poll :=
        let '(r, w) := q_Results ctx tq [taskID] w in
        match r with
        | Ok (res :: _) =>
            Some (if decide (res_Error res = "") then Ok (res_Output res, res_Usage res)
                  else Err ("advisor error: " +:+ res_Error res), w)
        | _ => poll_advisor fuel' (S round) ctx tq taskID w
        end in
      match ctx_Err ctx w with
      | Some e => if pick_tick round then poll else Some (Err e, w)
      | None => poll
      end
  end.

Definition callAdvisorViaGateway (fuel : nat) (ctx : Ctx) (cfg : AdvisorConfig) (prompt : string)
    (w : world) : option (result string (string * TokenUsage) * world) :=
  if decide (taskQueueURL = "") then Some (Err "no queue URL configured", w)
  else
    let url := replaceStreamParam taskQueueURL (namespace +:+ "." +:+ AgentRef cfg) in
    match NewQueue factories url 0 with
    | Err e => Some (Err ("cannot connect to advisor queue: " +:+ e), w)
    | Ok tq =>
        let '(r, w) := q_Submit ctx tq prompt (<["advisor_call" := "true"]> {["caller" := agentName]}) w in
        match r with
        | Err e => Some (Err ("cannot submit to advisor: " +:+ e), q_Close tq w)
        | Ok taskID =>
            '(r, w) ← poll_advisor fuel 0 ctx tq taskID w;
            Some (r, q_Close tq w)
        end
    end.

Definition json_key (k : string) : string := dq +:+ k +:+ dq +:+ ":".
Definition json_str (k v : string) : string := json_key k +:+ dq +:+ v +:+ dq.

Definition limit_exceeded (cfg : AdvisorConfig) : string :=
  "{" +:+ json_str "error" "advisor_limit_exceeded" +:+ "," +:+ json_str "advisor" (adv_Name cfg) +:+
  "," +:+ json_key "limit" +:+ itoa (MaxCallsPerTask cfg) +:+ "}".
Definition advisor_timeout (cfg : AdvisorConfig) (seconds : Z) : string :=
  "{" +:+ json_str "error" "advisor_timeout" +:+ "," +:+ json_str "advisor" (adv_Name cfg) +:+
  "," +:+ json_key "elapsed_seconds" +:+ itoa seconds +:+ "}".
Definition advisor_unavailable (cfg : AdvisorConfig) (reason : string) : string :=
  "{" +:+ json_str "error" "advisor_unavailable" +:+ "," +:+ json_str "advisor" (adv_Name cfg) +:+
  "," +:+ json_str "reason" reason +:+ "}".

(** The timeout of a consultation: the configured one, or what is left of the task. *)
Definition advisor_timeout_of (ctx : Ctx) (cfg : AdvisorConfig) (w : world) : Z * world :=
  let timeout := wrap64 (adv_TimeoutSeconds cfg * Second) in
  match ctx_Deadline ctx with
  | Some deadline =>
      let '(now, w) := time_Now w in
      (Z.min (deadline - now) timeout, w)
  | None => (timeout, w)
  end.

(** [callAdvisor]; [None] only when the fuel of the poll runs out or a state is missing. *)
Definition callAdvisor (fuel : nat) (ctx : Ctx) (toolName input : string) (t : advisorTracker)
    (w : world) : option (result string string * advisorTracker * world) :=
  match isAdvisorTool t toolName with
  | None => Some (Err (invalid_args ("unknown advisor tool " +:+ Quote toolName)), t, w)
  | Some cfg =>
      '(slot, t) ← checkAndIncrement t (adv_Name cfg) (MaxCallsPerTask cfg);
      match slot with
      | None => Some (Ok (limit_exceeded cfg), t, w)
      | Some _ =>
          match unmarshal_question input with
          | None => Some (Err (invalid_args "advisor call: invalid input"), t, w)
          | Some question =>
              let prompt := "## Advisor Consultation" +:+ nl +:+ nl +:+
                            "**Question from executor:** " +:+ question in
              let '(timeout, w) := advisor_timeout_of ctx cfg w in
              let '(advisorCtx, w) := WithTimeout ctx timeout w in
              let '(start, w) := time_Now w in
              '(r, w) ← callAdvisorViaGateway fuel advisorCtx cfg prompt w;
              let '(now, w) := time_Now w in
              match r with
              | Err e =>
                  match ctx_Err advisorCtx w with
                  | Some _ => Some (Ok (advisor_timeout cfg (Z.quot (now - start) Second)), t, w)
                  | None => Some (Ok (advisor_unavailable cfg e), t, w)
                  end
              | Ok (output, usage) =>
                  let tokens := wrap32 (wrap64 (InputTokens usage + OutputTokens usage)) in
                  let t := if tokens >? 0
                           then snd (AddTokens t (adv_Name cfg) tokens (MaxAdvisorTokensPerTask cfg))
                           else t in
                  Some (Ok output, t, w)
              end
          end
      end
  end.
End advisor.

(** ** Properties *)

(** Every configured advisor has a state. *)
Definition tracked (t : advisorTracker) : Prop :=
  ∀ tool cfg, configs t !! tool = Some cfg → is_Some (states t !! adv_Name cfg).

Lemma newAdvisorTracker_tracked advisors : tracked (newAdvisorTracker advisors).
Proof.
  unfold newAdvisorTracker. assert (H : tracked (mkAdvisorTracker ∅ ∅)) by done.
  revert H. generalize (mkAdvisorTracker ∅ ∅). induction advisors as [|a advisors IH]; [done|].
  intros t Ht. simpl. apply IH. intros tool cfg. simpl. rewrite lookup_insert_Some.
  intros [[_ <-]|[_ Hc]]; [rewrite lookup_insert_eq; eauto|].
  apply Ht in Hc. destruct (decide (adv_Name a = adv_Name cfg)) as [->|];
    [rewrite lookup_insert_eq; eauto|by rewrite lookup_insert_ne].
Qed.

Lemma tracked_update t name s : tracked t → tracked (t <| states ::= <[name := s]> |>).
Proof.
  intros Ht tool cfg Hc. simpl. apply Ht in Hc.
  destruct (decide (name = adv_Name cfg)) as [->|];
    [rewrite lookup_insert_eq; eauto|by rewrite lookup_insert_ne].
Qed.

Lemma checkAndIncrement_tracked t name mx slot t' :
  tracked t → checkAndIncrement t name mx = Some (slot, t') → tracked t'.
Proof.
  intros Ht. unfold checkAndIncrement. destruct (states t !! name); simpl; [|done].
  case_match; intros [= <- <-]; [done|by apply tracked_update].
Qed.

Lemma AddTokens_tracked t name n mx : tracked t → tracked (snd (AddTokens t name n mx)).
Proof. intros Ht. unfold AddTokens. case_match; [by apply tracked_update|done]. Qed.

(** The consultations of one advisor: how many are granted. *)
Fixpoint grants (k : nat) (name : string) (mx : Z) (t : advisorTracker) : option (Z * advisorTracker) :=
  match k with
  | O => Some (0, t)
  | S k' =>
      '(slot, t) ← checkAndIncrement t name mx;
      '(n, t) ← grants k' name mx t;
      Some ((if slot is Some _ then 1 else 0) + n, t)
  end.

(** the call budget of an advisor.  Of any number of consultations exactly as many are
    granted as are left of [MaxCallsPerTask]; the counter neither passes the limit nor wraps
    around. *)
Theorem advisor_calls_bounded k name mx t s :
  states t !! name = Some s → 0 ≤ callCount s ≤ mx → 0 < mx ≤ max_int 32 →
  ∃ t', grants k name mx t = Some (Z.min (Z.of_nat k) (mx - callCount s), t') ∧
    ∃ s', states t' !! name = Some s' ∧
      callCount s' = Z.min mx (callCount s + Z.of_nat k) ∧ cumulativeTokens s' = cumulativeTokens s.
Proof.
  revert t s. induction k as [|k IH]; intros t s Hs Hc Hm.
  { exists t. split; [simpl; do 2 f_equal; lia|]. exists s. split_and!; [done|lia|done]. }
  cbn [grants]. unfold checkAndIncrement. rewrite Hs. cbn [mbind option_bind].
  rewrite (proj2 (Z.gtb_lt mx 0)) by lia. cbn [andb].
  destruct (Z.leb_spec mx (callCount s)) as [Hfull|Hroom]; cbn [mbind option_bind].
  - destruct (IH t s Hs Hc Hm) as (t' & -> & s' & Hs' & Hn & Ht). cbn.
    exists t'. split; [do 2 f_equal; lia|]. exists s'. split_and!; [done|lia|done].
  - rewrite (wrap_id 32 (callCount s + 1)) by (try done; unfold in_width, min_int, max_int in *; lia).
    edestruct (IH (t <| states ::= <[name := s <| callCount := callCount s + 1 |>]> |>)
                  (s <| callCount := callCount s + 1 |>)) as (t' & -> & s' & Hs' & Hn & Ht);
      [simpl; apply lookup_insert_eq|simpl; lia|done|]. cbn in *.
    exists t'. split; [do 2 f_equal; lia|]. exists s'. split_and!; [done|lia|done].
Qed.

Definition toy_advisor : AdvisorConfig :=
  mkAdvisorConfig "expert" "ask_expert" "expert-agent" 5 2 60 1000 0 false "".

Lemma advisor_calls_bounded_witness :
  ∃ t', grants 5 "expert" 2 (newAdvisorTracker [toy_advisor]) = Some (Z.min 5 (2 - 0), t') ∧
    ∃ s', states t' !! "expert" = Some s' ∧
      callCount s' = Z.min 2 (0 + 5) ∧ cumulativeTokens s' = 0.
Proof.
  apply (advisor_calls_bounded 5 "expert" 2 (newAdvisorTracker [toy_advisor])
           (mkAdvisorState 0 0)); [reflexivity| |]; vm_compute; split; congruence.
Defined.

(** the token limit of an advisor is not enforced.  "The next call will be blocked by
    checkAndIncrement", says the code where it finds the limit exceeded, but the check looks
    only at the number of calls: whatever tokens are added, its verdict is the same. *)
Theorem advisor_tokens_unenforced t name tokens maxTokens maxCalls :
  fst <$> checkAndIncrement (snd (AddTokens t name tokens maxTokens)) name maxCalls =
  fst <$> checkAndIncrement t name maxCalls.
Proof.
  unfold checkAndIncrement, AddTokens. destruct (states t !! name) as [s|] eqn:E; simpl;
    [|by rewrite E]. rewrite lookup_insert_eq. simpl. by destruct (_ && _).
Qed.

Section advisor_props.
Context (W : World) {WL : WorldLaws W} {U : UrlApi}.

(** [select] does not prefer the tick for [k] rounds on end. *)
Definition fair (k : nat) (pick : nat → bool) : Prop :=
  ∀ i, ∃ d, (d < k)%nat ∧ pick (i + d)%nat = false.

Lemma poll_advisor_done pick ctx tq id d :
  ∀ fuel round w, ctx_Err ctx w ≠ None → pick (round + d)%nat = false → (d < fuel)%nat →
  ∃ r, poll_advisor pick fuel round ctx tq id w = Some r.
Proof.
  induction d as [|d IH]; intros [|fuel] round w He Hp Hf; try lia; cbn [poll_advisor];
    assert (He' : ctx_Err ctx (wait ctx poll_interval w) ≠ None)
      by (eapply later_Err; [apply wait_later|done]);
    (destruct (ctx_Err ctx (wait ctx poll_interval w)) eqn:Ee; [|done]).
  - rewrite Nat.add_0_r in Hp. rewrite Hp. eauto.
  - destruct (pick round); [|eauto].
    destruct (q_Results ctx tq [id] (wait ctx poll_interval w)) as [[[|res rs]|e] w2] eqn:Er; eauto;
      (apply IH; [|by rewrite Nat.add_succ_comm|lia];
       eapply later_Err; [by eapply Results_later|by rewrite Ee]).
Qed.

Lemma poll_advisor_returns pick k ctx deadline tq id m :
  fair k pick →
  ∀ fuel round w, deadline - clock w < Z.of_nat m * poll_interval → (m + k < fuel)%nat →
  ∃ r, poll_advisor pick fuel round (WithDeadline ctx deadline) tq id w = Some r.
Proof.
  intros Hfair. induction m as [|m IH]; intros fuel round w Hd Hf.
  - destruct (Hfair round) as (d & Hd' & Hp). apply (poll_advisor_done pick _ tq id d); [|done|lia].
    apply deadline_Err. lia.
  - destruct (ctx_Err (WithDeadline ctx deadline) w) eqn:Ew.
    { destruct (Hfair round) as (d & Hd' & Hp).
      apply (poll_advisor_done pick _ tq id d); [by rewrite Ew|done|lia]. }
    destruct fuel as [|fuel]; [lia|]. cbn [poll_advisor].
    set (w1 := wait (WithDeadline ctx deadline) poll_interval w).
    assert (Hpoll : ∃ r, (let '(r, w2) := q_Results (WithDeadline ctx deadline) tq [id] w1 in
      match r with
      | Ok (res :: _) =>
          Some (if decide (res_Error res = "") then Ok (res_Output res, res_Usage res)
                else Err ("advisor error: " +:+ res_Error res), w2)
      | _ => poll_advisor pick fuel (S round) (WithDeadline ctx deadline) tq id w2
      end) = Some r).
    { destruct (q_Results _ tq [id] w1) as [r w2] eqn:Er. apply Results_later in Er.
      assert (Hnext : ∃ r, poll_advisor pick fuel (S round) (WithDeadline ctx deadline) tq id w2 = Some r).
      { destruct (ctx_Err (WithDeadline ctx deadline) w1) eqn:E1.
        - destruct (Hfair (S round)) as (d & Hd' & Hp).
          apply (poll_advisor_done pick _ tq id d); [|done|lia].
          eapply later_Err; [exact Er|by rewrite E1].
        - apply IH; [|lia]. apply wait_elapses in E1. fold w1 in E1. apply later_clock in Er. lia. }
      destruct r as [[|res rs]|e]; eauto. }
    destruct (ctx_Err (WithDeadline ctx deadline) w1); [|exact Hpoll].
    destruct (pick round); [exact Hpoll|eauto].
Qed.
End advisor_props.

Lemma checkAndIncrement_full t name mx s slot t1 :
  states t !! name = Some s → checkAndIncrement t name mx = Some (slot, t1) →
  0 < mx ≤ callCount s → slot = None ∧ t1 = t.
Proof.
  intros Hs Eck [H1 H2]. unfold checkAndIncrement in Eck. rewrite Hs in Eck. simpl in Eck.
  rewrite (proj2 (Z.gtb_lt _ _)), (proj2 (Z.leb_le _ _)) in Eck by done. by simplify_eq/=.
Qed.

Section consult_props.
Context (W : World) {WL : WorldLaws W} {U : UrlApi}.

(** Rounds that are enough for a consultation. *)
Definition advisor_fuel (cfg : AdvisorConfig) (k : nat) : nat :=
  2 * Z.to_nat (adv_TimeoutSeconds cfg) + k + 3.

Lemma advisor_timeout_le ctx cfg w :
  in_width 32 (adv_TimeoutSeconds cfg) →
  fst (advisor_timeout_of ctx cfg w) ≤ adv_TimeoutSeconds cfg * Second.
Proof.
  intros Hw. unfold advisor_timeout_of. rewrite wrap_id.
  - destruct (ctx_Deadline ctx); [|simpl; lia]. destruct (time_Now w). simpl. lia.
  - done.
  - unfold in_width, min_int, max_int, Second in *. lia.
Qed.

Lemma gateway_call_returns factories url ns name pick k fuel ctx cfg deadline prompt w :
  fair k pick → deadline - clock w ≤ adv_TimeoutSeconds cfg * Second →
  (advisor_fuel cfg k ≤ fuel)%nat →
  (∀ c q p m w r w', q_Submit c q p m w = (r, w') → later w w') →
  ∃ r w', callAdvisorViaGateway factories url ns name pick fuel (WithDeadline ctx deadline) cfg
            prompt w = Some (r, w').
Proof.
  intros Hf Hd Hfuel Hsub. unfold callAdvisorViaGateway. case_decide; [by eexists _, _|].
  destruct (NewQueue _ _ _) as [tq|e]; [|by eexists _, _].
  destruct (q_Submit _ _ _ _ w) as [[id|e] w1] eqn:E; [|by eexists _, _].
  apply Hsub, later_clock in E.
  destruct (poll_advisor_returns W pick k ctx deadline tq id
              (2 * Z.to_nat (adv_TimeoutSeconds cfg) + 1) Hf fuel 0 w1) as [[r w2] ->].
  - unfold poll_interval, Second in *. lia.
  - unfold advisor_fuel in Hfuel. lia.
  - by eexists _, _.
Qed.

(** a consultation always answers.  With a tracker that knows its advisors it returns
    within the rounds its timeout allows, fails as a tool call only for an unknown tool or
    arguments that do not decode, and a full call budget, a timeout or an advisor that cannot
    be reached are texts for the model to read; the full budget is reported without asking
    the advisor. *)
Theorem callAdvisor_returns unmarshal factories url ns name pick k ctx tool input t w :
  fair k pick → tracked t →
  (∀ cfg, isAdvisorTool t tool = Some cfg → in_width 32 (adv_TimeoutSeconds cfg)) →
  (∀ c q p m w r w', q_Submit c q p m w = (r, w') → later w w') →
  let fuel := match isAdvisorTool t tool with Some cfg => advisor_fuel cfg k | None => O end in
  ∃ r t' w',
    callAdvisor unmarshal factories url ns name pick fuel ctx tool input t w = Some (r, t', w') ∧
    tracked t' ∧
    (is_Ok r = false → isAdvisorTool t tool = None ∨ unmarshal input = None) ∧
    (∀ cfg s, isAdvisorTool t tool = Some cfg → states t !! adv_Name cfg = Some s →
       0 < MaxCallsPerTask cfg ≤ callCount s → r = Ok (limit_exceeded cfg) ∧ t' = t ∧ w' = w).
Proof.
  intros Hf Ht Hto Hsub fuel. unfold callAdvisor, fuel.
  destruct (isAdvisorTool t tool) as [cfg|] eqn:Ec;
    [|eexists _, _, _; split_and!; [done|done|by left|done]].
  destruct (Ht _ _ Ec) as [s Hs].
  destruct (checkAndIncrement t (adv_Name cfg) (MaxCallsPerTask cfg)) as [[slot t1]|] eqn:Eck;
    [|by unfold checkAndIncrement in Eck; rewrite Hs in Eck; simpl in Eck; case_match].
  pose proof (checkAndIncrement_tracked _ _ _ _ _ Ht Eck) as Ht1. cbn [mbind option_bind].
  pose proof (checkAndIncrement_full _ _ _ _ _ _ Hs Eck) as Hlim.
  destruct slot as [p|].
  2: { eexists _, _, _. split_and!; [done|done|done|]. intros cfg' s' [= <-] Hs' Hl.
       rewrite Hs in Hs'. injection Hs' as <-. by destruct (Hlim Hl) as [_ ->]. }
  assert (Hno : ∀ (A : Prop) s', states t !! adv_Name cfg = Some s' →
                  0 < MaxCallsPerTask cfg ≤ callCount s' → A).
  { intros A s' Hs' Hl. rewrite Hs in Hs'. injection Hs' as <-. by destruct (Hlim Hl). }
  destruct (unmarshal input) as [q|]; [|eexists _, _, _; split_and!; [done|done|by right|];
    intros cfg' s' [= <-] Hs' Hl; by eapply Hno].
  destruct (advisor_timeout_of ctx cfg w) as [timeout w1] eqn:Et.
  pose proof (advisor_timeout_le ctx cfg w (Hto cfg eq_refl)) as Hle. rewrite Et in Hle. simpl in Hle.
  unfold WithTimeout. destruct (time_Now w1) as [now1 w2] eqn:E1. apply now_later in E1 as [_ ->].
  destruct (time_Now w2) as [now2 w3] eqn:E2. apply now_later in E2 as [E2 ->].
  apply later_clock in E2.
  edestruct (gateway_call_returns factories url ns name pick k (advisor_fuel cfg k) ctx cfg
               (clock w2 + timeout)) as (r & w4 & ->); [done|lia|done|done|].
  cbn [mbind option_bind]. destruct (time_Now w4) as [now3 w5].
  destruct r as [[out usage]|e].
  - eexists _, _, _. split_and!; [reflexivity| |done|intros cfg' s' [= <-] Hs' Hl; by eapply Hno].
    case_match; [by apply AddTokens_tracked|done].
  - destruct (ctx_Err _ w5); (eexists _, _, _; split_and!; [done|done|done|];
      intros cfg' s' [= <-] Hs' Hl; by eapply Hno).
Qed.
End consult_props.

Lemma callAdvisor_returns_witness :
  let t := newAdvisorTracker [toy_advisor] in
  ∃ r t' w',
    @callAdvisor toy_world toy_url (λ s, Some s) {["redis" := λ url n, Ok url]} "redis://q" "ns"
      "me" (λ _, false) (advisor_fuel toy_advisor 1) None "ask_expert" "why?" t 7 =
      Some (r, t', w') ∧
    tracked t' ∧
    (is_Ok r = false → Some toy_advisor = None ∨ Some "why?" = None) ∧
    (∀ cfg s, Some toy_advisor = Some cfg → states t !! adv_Name cfg = Some s →
       0 < MaxCallsPerTask cfg ≤ callCount s →
       r = Ok (limit_exceeded cfg) ∧ t' = t ∧ w' = (7 : @world toy_world)).
Proof.
  apply (@callAdvisor_returns toy_world toy_world_laws toy_url (λ s, Some s)
           {["redis" := λ url n, Ok url]} "redis://q" "ns" "me" (λ _, false) 1 None "ask_expert"
           "why?" (newAdvisorTracker [toy_advisor]) 7).
  - intros i. exists 0%nat. by split; [lia|].
  - apply newAdvisorTracker_tracked.
  - intros cfg [= <-]. vm_compute. split; congruence.
  - intros c q p m w r w' [= <- <-]. apply Z.le_refl.
Defined.
