(* ===== verification/Loop.v ===== *)
(** * Loop: the hooks of the agentic loop (pkg/agent/runner/compression.go, memory_hook.go).

    Compression of accumulated tool results and the vector memory around tool calls.  The
    model calls, the embeddings and the vector store are interfaces over the world. *)
From Stdlib Require Import ZArith Lia Ascii SpecFloat.
From stdpp Require Import base tactics option list numbers strings gmap.
From S2P Require Import Prelude GoStd Runtime Config Guards.

(** What the LLM provider and the vector store offer.  [llm_Complete] is absent when the
    provider is no Completer; a query answers scores and the text of each payload. *)
Class LoopApi `{World} := {
  Embedder : Type;
  Vector : Type;
  VectorStore : Type;
  task_embedder : Embedder;
  new_embedder : string → option Embedder;
  llm_Complete : option (Ctx → string → string → string → Z → world → result string string * world);
  llm_Embed : Ctx → Embedder → string → world → option Vector * world;
  NewVectorStore : string → world → option VectorStore * world;
  vs_Query : Ctx → VectorStore → Vector → Z → world → option (list (f64 * option string)) * world;
  vs_Upsert : Ctx → VectorStore → string → Vector → string → string → world → world;
  vs_Close : VectorStore → world → world }.

Definition defaultCompressionModel : string := "claude-haiku-4-5-20251001".
Definition defaultCompressionPrompt : string :=
  "You are a context compression assistant. " +:+
  "Summarize the following tool results into a concise digest that preserves " +:+
  "key findings, data points, and decisions. Output only the summary text.".

Section loop.
Context `{L : LoopApi}.

(** ** Compression *)
Record LoopCompressor := mkLoopCompressor {
  comp_cfg : LoopCompressionConfig;
  compModel : string;
  window : Z;
  accum : string;
  accumTokens : Z }.
#[export] Instance settable_LoopCompressor : Settable LoopCompressor :=
  λ x, mkLoopCompressor (comp_cfg x) (compModel x) (window x) (accum x) (accumTokens x).

(** [provider_window]: see [resolveContextWindow]. *)
Definition newCompressor (cfg : option LoopCompressionConfig) (model : string)
    (provider_window : option Z) : option LoopCompressor :=
  cfg ← cfg;
  let w := resolveContextWindow model (ContextWindow cfg) provider_window in
  if w =? 0 then None
  else Some (mkLoopCompressor cfg
               (if decide (comp_Model cfg = "") then defaultCompressionModel else comp_Model cfg)
               w "" 0).

Definition Track (result : string) (c : LoopCompressor) : LoopCompressor :=
  c <| accum := accum c +:+ result +:+ nl |>
    <| accumTokens := wrap64 (accumTokens c + estimateTokens result) |>.

(** The number of tokens is at or above the threshold's share of the window. *)
Definition over_threshold (c : LoopCompressor) (tokens : Z) : bool :=
  f64_leb (f64_mul (f64_of_Z (window c)) (ThresholdFloat (comp_cfg c))) (f64_of_Z tokens).

Definition NeedsCompression (c : LoopCompressor) : bool :=
  negb (window c =? 0) && over_threshold c (accumTokens c).

Definition Compress (ctx : Ctx) (c : LoopCompressor) (w : world)
    : option string * LoopCompressor * world :=
  if decide (accum c = "") then (None, c, w)
  else
    let t := wrap64 (comp_TimeoutSeconds (comp_cfg c) * Second) in
    let '(compCtx, w) := WithTimeout ctx (if t <=? 0 then 30 * Second else t) w in
    let prompt := if decide (comp_Instructions (comp_cfg c) = "") then defaultCompressionPrompt
                  else comp_Instructions (comp_cfg c) in
    match llm_Complete with
    | None => (None, c, w)
    | Some complete =>
        let '(r, w) := complete compCtx (compModel c) prompt (accum c) 1024 w in
        match r with
        | Err _ => (None, c, w)
        | Ok summary => (Some summary, c <| accum := "" |> <| accumTokens := 0 |>, w)
        end
    end.

(** The hook a provider may call on its own conversation: [float < float] is the negation of
    the comparison above, as no operand is a NaN. *)
Definition compressionHook (ctx : Ctx) (tokenCount : Z) (c : LoopCompressor) (w : world)
    : option string * LoopCompressor * world :=
  if f64_ltb (f64_of_Z tokenCount) (f64_mul (f64_of_Z (window c)) (ThresholdFloat (comp_cfg c)))
  then (None, c, w) else Compress ctx c w.

Definition injectSummary (summary toolResult : string) : string :=
  if decide (summary = "") then toolResult
  else "<swarm:compressed-history>" +:+ nl +:+ summary +:+ nl +:+ "</swarm:compressed-history>" +:+
       nl +:+ nl +:+ toolResult.

(** ** Memory *)
Record LoopMemoryHook := mkLoopMemoryHook {
  hook_cfg : LoopMemoryConfig;
  hook_store : VectorStore;
  embedder : Embedder;
  hook_taskID : string;
  stepIdx : Z }.
#[export] Instance settable_LoopMemoryHook : Settable LoopMemoryHook :=
  λ x, mkLoopMemoryHook (hook_cfg x) (hook_store x) (embedder x) (hook_taskID x) (stepIdx x).

Definition newMemoryHook (cfg : option LoopMemoryConfig) (vectorStoreURL taskID : string) (w : world)
    : option LoopMemoryHook * world :=
  match cfg with
  | None => (None, w)
  | Some cfg =>
      if negb (mem_Store cfg) && negb (mem_Retrieve cfg) then (None, w)
      else if decide (vectorStoreURL = "") then (None, w)
      else
        let '(vs, w) := NewVectorStore vectorStoreURL w in
        match vs with
        | None => (None, w)
        | Some vs =>
            let emb := if decide (EmbeddingProvider cfg ≠ "" ∧ EmbeddingModel cfg ≠ "")
                       then default task_embedder (new_embedder (EmbeddingProvider cfg))
                       else task_embedder in
            (Some (mkLoopMemoryHook cfg vs emb taskID 0), w)
        end
  end.

Definition buildQueryText (toolName input : string) : string :=
  "tool:" +:+ toolName +:+ " args:" +:+ input.

(** The texts of the results that are similar enough. *)
Definition kept_findings (minSim : f64) (results : list (f64 * option string)) : list string :=
  omap (λ '(score, text),
          if f64_ltb score minSim then None
          else match text with
               | Some t => if decide (t = "") then None else Some t
               | None => None
               end) results.

Definition BeforeCall (ctx : Ctx) (toolName input : string) (h : option LoopMemoryHook) (w : world)
    : string * world :=
  match h with
  | None => ("", w)
  | Some h =>
      if negb (mem_Retrieve (hook_cfg h)) then ("", w)
      else
        let '(vec, w) := llm_Embed ctx (embedder h) (buildQueryText toolName input) w in
        match vec with
        | None => ("", w)
        | Some vec =>
            let topK := if TopK (hook_cfg h) <=? 0 then 3 else TopK (hook_cfg h) in
            let '(results, w) := vs_Query ctx (hook_store h) vec topK w in
            match results with
            | None => ("", w)
            | Some results =>
                let pct := if MinSimilarityPercent (hook_cfg h) <=? 0 then 70
                           else MinSimilarityPercent (hook_cfg h) in
                match kept_findings (f64_div (f64_of_Z pct) (f64_of_Z 100)) results with
                | [] => ("", w)
                | kept => ("<swarm:prior-findings>" +:+ nl +:+ str_join (nl +:+ "---" +:+ nl) kept +:+
                           nl +:+ "</swarm:prior-findings>", w)
                end
            end
        end
  end.

(** [result[:maxChars]] panics when four times the limit overflows to a negative number. *)
Definition truncate_result (cfg : LoopMemoryConfig) (result : string) : option string :=
  let maxTokens := if mem_MaxTokens cfg <=? 0 then 1024 else mem_MaxTokens cfg in
  let maxChars := wrap64 (maxTokens * 4) in
  if str_len result >? maxChars then
    if maxChars <? 0 then None else Some (str_take (Z.to_nat maxChars) result)
  else Some result.

Definition summaryPrompt : string :=
  "Summarise the following tool result in a few sentences, preserving key findings.".

Definition summarise (ctx : Ctx) (toolName result : string) (h : LoopMemoryHook) (w : world)
    : option (string * world) :=
  let truncated w := t ← truncate_result (hook_cfg h) result; Some (t, w) in
  let summaryTokens := Z.max (SummaryTokens (hook_cfg h)) 0 in
  match (if summaryTokens >? 0 then llm_Complete else None) with
  | None => truncated w
  | Some complete =>
      let '(r, w) := complete ctx defaultCompressionModel summaryPrompt
                       ("Tool: " +:+ toolName +:+ nl +:+ nl +:+ "Result:" +:+ nl +:+ result)
                       summaryTokens w in
      match r with
      | Ok summary => if decide (summary = "") then truncated w else Some (summary, w)
      | Err _ => truncated w
      end
  end.

Definition AfterCall (ctx : Ctx) (toolName result : string) (h : option LoopMemoryHook) (w : world)
    : option (option LoopMemoryHook * world) :=
  match h with
  | None => Some (None, w)
  | Some h =>
      if negb (mem_Store (hook_cfg h)) then Some (Some h, w)
      else
        let h := h <| stepIdx := wrap64 (stepIdx h + 1) |> in
        let '(storeCtx, w) := WithTimeout ctx (15 * Second) w in
        '(text, w) ← summarise storeCtx toolName result h w;
        let '(vec, w) := llm_Embed storeCtx (embedder h) text w in
        Some (Some h,
          match vec with
          | None => w
          | Some vec => vs_Upsert storeCtx (hook_store h)
                          (hook_taskID h +:+ "-" +:+ itoa (stepIdx h)) vec text toolName w
          end)
  end.

Definition Close (h : option LoopMemoryHook) (w : world) : world :=
  match h with Some h => vs_Close (hook_store h) w | None => w end.

Definition injectPriorFindings (findings result : string) : string :=
  if decide (findings = "") then result else findings +:+ nl +:+ nl +:+ result.
End loop.
