(* ===== verification/Runner.v ===== *)
(** * Runner: tool calls and tasks of an agent (pkg/agent/runner/runner.go).

    The state of a runner is its world, its circuit breaker, its advisor tracker and its
    gateway counters, all of which outlive a task, and the hooks of the current task.  A
    provider is any finite program of tool calls, streamed chunks and compressions of its own
    conversation ([agent_loop]); it may look at the world in between.  Tool calls of a task are
    modelled one after the other.  [None] is a panic. *)
From Stdlib Require Import ZArith Lia Ascii.
From stdpp Require Import base tactics option list numbers strings gmap.
From S2P Require Import Prelude GoStd Types Kube Queue Runtime Breaker Sandbox Config Guards.
From S2P Require Import Gateway Advisor Loop.

Definition submitSubtaskTool : string := "submit_subtask".
Definition delegateTool : string := "delegate".
Definition collectResultsTool : string := "collect_results".
Definition spawnAndCollectTool : string := "spawn_and_collect".
Definition sandboxRecallTool : string := "sandbox_recall".

(** encoding/json on the arguments of the built-in tools; [None] is an error. *)
Class RunnerJson := {
  unmarshal_submit : string → option string;
  unmarshal_delegate : string → option (string * string);
  unmarshal_collect : string → option (option (list string) * Z);
  unmarshal_spawn : string → option SpawnArgs;
  unmarshal_recall : string → option string;
  unmarshal_question : string → option string }.

(** The MCP manager, HTTP and the stream channel. *)
Class ToolApi `{World} := {
  mcp_tools : list string;
  mcp_CallTool : Ctx → string → string → world → result string string * world;
  http_request_ok : string → string → bool;
  http_Do : Ctx → string → string → option string → world →
    result string (Z * option string) * world;
  stream_Publish : string → string → world → world }.

(** What [New] fixes for the life of a runner. *)
Record runner_env `{World} := mkRunnerEnv {
  re_cfg : Config;
  re_taskQueue : option TaskQueue;
  re_delegateQueues : gmap string TaskQueue;
  re_roles_order : list string;
  re_has_stream : bool;
  re_gateway : option gatewayHandler;
  re_webhookToolMap : gmap string WebhookToolConfig;
  re_factories : gmap string (string → Z → result string TaskQueue);
  re_range_groups : list (TaskQueue * list string) → list (TaskQueue * list string);
  re_pick_tick : nat → bool;
  re_fairness : nat;
  re_provider_window : option Z }.

(** The state that outlives a task, and the hooks of the task. *)
Record runner_state `{World} := mkRunnerState {
  rs_world : world;
  rs_breaker : option Breaker;
  rs_advisors : option advisorTracker;
  rs_gateway : counters }.
#[export] Instance settable_runner_state `{World} : Settable runner_state :=
  λ x, mkRunnerState _ (rs_world x) (rs_breaker x) (rs_advisors x) (rs_gateway x).
Record task_hooks `{LA : LoopApi} := mkTaskHooks {
  th_dedup : option ToolCallDeduplicator;
  th_compressor : option LoopCompressor;
  th_memory : option LoopMemoryHook;
  th_sandbox : option ToolResultSandbox }.
#[export] Instance settable_task_hooks `{LA : LoopApi} : Settable task_hooks :=
  λ x, mkTaskHooks _ _ (th_dedup x) (th_compressor x) (th_memory x) (th_sandbox x).

(** A task of the queue. *)
Record Task := mkTask {
  task_ID : string;
  task_Prompt : string;
  task_Meta : gmap string string }.

(** The provider's run of a task: it ends with a text, a usage and possibly an error. *)
Inductive agent_loop `{World} :=
| LoopDone (out : string) (usage : TokenUsage) (err : option string)
| LoopTool (name input : string) (k : result string string → agent_loop)
| LoopChunk (chunk : string) (next : agent_loop)
| LoopCompress (tokenCount : Z) (k : option string → agent_loop)
| LoopLook (k : world → agent_loop)
| LoopAct (f : world → world) (next : agent_loop).

Section runner.
Context `{W : World} {LA : @LoopApi W} {TA : @ToolApi W}.
Context `{JA : JsonApi} `{HA : HashApi} `{CA : CaseApi} `{LoA : LowerApi} `{FA : FoldApi} `{UA : UrlApi}.
Context `{CJ : CollectJson} `{GJ : GatewayJson} `{RJ : RunnerJson}.
Variable env : @runner_env W.

(** ** Tool sources *)
Definition isWebhookTool (name : string) : bool :=
  bool_decide (is_Some (re_webhookToolMap env !! name)).

(** [callWebhook]. *)
Definition callWebhook (ctx : Ctx) (wt : WebhookToolConfig) (input : string) (w : world)
    : result string string * world :=
  let fail code what := tool_error code ("webhook tool " +:+ Quote (wt_Name wt) +:+ ": " +:+ what) in
  let upper := strings_ToUpper (wt_Method wt) in
  let method := if decide (upper = "") then "POST" else upper in
  let body := if decide (method ≠ "GET" ∧ input ≠ "") then Some input else None in
  if negb (http_request_ok method (wt_URL wt))
  then (Err (fail "ToolExecutionFailed" "building request"), w)
  else
    let '(r, w) := http_Do ctx method (wt_URL wt) body w in
    match r with
    | Err _ =>
        let code := if decide (ctx_Err ctx w = Some "context deadline exceeded")
                    then "ToolTimeout" else "ToolExecutionFailed" in
        (Err (fail code "request failed"), w)
    | Ok (_, None) => (Err (fail "ToolExecutionFailed" "reading response"), w)
    | Ok (status, Some text) =>
        if (status <? 200) || (300 <=? status)
        then (Err (fail "ToolExecutionFailed"
                     ("server returned " +:+ itoa status +:+ ": " +:+ text)), w)
        else (Ok text, w)
    end.

Definition call_submit (ctx : Ctx) (tq : TaskQueue) (input : string) (w : world)
    : result string string * world :=
  match unmarshal_submit input with
  | None => (Err (invalid_args "submit_subtask: invalid input"), w)
  | Some prompt =>
      if decide (TrimSpace prompt = "")
      then (Err (invalid_args "submit_subtask: prompt must not be empty"), w)
      else
        let '(r, w) := q_Submit ctx tq prompt ∅ w in
        (id <-? r; Ok ("subtask submitted with id: " +:+ id), w)
  end.

Definition call_delegate (ctx : Ctx) (input : string) (w : world) : result string string * world :=
  match unmarshal_delegate input with
  | None => (Err (invalid_args "delegate: invalid input"), w)
  | Some (role, prompt) =>
      if decide (TrimSpace role = "") then (Err (invalid_args "delegate: role must not be empty"), w)
      else if decide (TrimSpace prompt = "")
      then (Err (invalid_args "delegate: prompt must not be empty"), w)
      else match re_delegateQueues env !! role with
      | None => (Err (tool_error "ToolNotFound" ("delegate: unknown role " +:+ Quote role +:+
                   "; available: " +:+ str_join ", " (re_roles_order env))), w)
      | Some dq =>
          let '(r, w) := q_Submit ctx dq prompt ∅ w in
          match r with
          | Err _ => (Err (tool_error "ToolExecutionFailed"
                       ("delegate: submitting to role " +:+ Quote role)), w)
          | Ok id => (Ok ("task delegated to role " +:+ Quote role +:+ " with id: " +:+ id), w)
          end
      end
  end.

Definition call_collect (ctx : Ctx) (tq : TaskQueue) (input : string) (w : world)
    : option (result string string * world) :=
  match unmarshal_collect input with
  | None => Some (Err (invalid_args "collect_results: invalid input"), w)
  | Some (None, _) => Some (Err (invalid_args "collect_results: task_ids is required"), w)
  | Some (Some ids, seconds) =>
      let seconds := if seconds <=? 0 then 120 else seconds in
      collectResultsFromQueue ctx tq ids (wrap64 (seconds * Second)) w
  end.

Definition call_spawn (ctx : Ctx) (tq : TaskQueue) (input : string) (w : world)
    : option (result string string * world) :=
  match unmarshal_spawn input with
  | None => Some (Err (invalid_args "spawn_and_collect: invalid input"), w)
  | Some args => handleSpawnAndCollect (re_delegateQueues env) tq (re_roles_order env)
                   (re_range_groups env) ctx args w
  end.

(** The tools that touch nothing but the world: built-in, webhook, MCP. *)
Definition call_plain (ctx : Ctx) (toolName input : string) (w : world)
    : option (result string string * world) :=
  match (if String.eqb toolName submitSubtaskTool then re_taskQueue env else None) with
  | Some tq => Some (call_submit ctx tq input w)
  | None =>
      if String.eqb toolName delegateTool && negb (bool_decide (re_delegateQueues env = ∅))
      then Some (call_delegate ctx input w)
      else
        match (if String.eqb toolName collectResultsTool then re_taskQueue env else None) with
        | Some tq => call_collect ctx tq input w
        | None =>
            match (if String.eqb toolName spawnAndCollectTool then re_taskQueue env else None) with
            | Some tq => call_spawn ctx tq input w
            | None =>
                match re_webhookToolMap env !! toolName with
                | Some wt => Some (callWebhook ctx wt input w)
                | None => Some (mcp_CallTool ctx toolName input w)
                end
            end
        end
  end.

(** [callToolInner]. *)
Definition callToolInner (ctx : Ctx) (toolName input : string) (s : runner_state)
    : option (result string string * runner_state) :=
  let plain :=
    '(r, w) ← call_plain ctx toolName input (rs_world s);
    Some (r, s <| rs_world := w |>) in
  let gateway :=
    match re_gateway env with
    | None => plain
    | Some h =>
        if String.eqb toolName gatewayToolSearch then
          let '(r, c) := registrySearch h input (rs_gateway s) in
          Some (r, s <| rs_gateway := c |>)
        else if String.eqb toolName gatewayToolDispatch then
          '(r, c, w) ← gateway_dispatch (re_factories env) h ctx input (rs_gateway s) (rs_world s);
          Some (r, s <| rs_gateway := c |> <| rs_world := w |>)
        else plain
    end in
  match rs_advisors s with
  | None => gateway
  | Some t =>
      match isAdvisorTool t toolName with
      | None => gateway
      | Some cfg =>
          '(r, t, w) ← callAdvisor unmarshal_question (re_factories env) (TaskQueueURL (re_cfg env))
                         (cfg_Namespace (re_cfg env)) (AgentName (re_cfg env)) (re_pick_tick env)
                         (advisor_fuel cfg (re_fairness env)) ctx toolName input t (rs_world s);
          Some (r, s <| rs_advisors := Some t |> <| rs_world := w |>)
      end
  end.

(** The breaker of the runner, if it has one; the clock is read only where the code reads it. *)
Definition breaker_Allow (s : runner_state) : bool * runner_state :=
  match rs_breaker s with
  | None => (true, s)
  | Some b =>
      let '(now, w) := if decide (b_state b = StateOpen) then time_Now (rs_world s)
                       else (0, rs_world s) in
      let '(ok, b) := Allow now b in
      (ok, s <| rs_breaker := Some b |> <| rs_world := w |>)
  end.

Definition breaker_Record (failed : bool) (s : runner_state) : runner_state :=
  match rs_breaker s with
  | None => s
  | Some b =>
      if failed then
        let '(now, w) := time_Now (rs_world s) in
        s <| rs_breaker := Some (RecordFailure now b) |> <| rs_world := w |>
      else s <| rs_breaker := Some (RecordSuccess b) |>
  end.

Definition ErrCircuitOpen : string := "circuit breaker is open".

(** [CallTool]. *)
Definition CallTool (ctx : Ctx) (toolName input : string) (s : runner_state)
    : option (result string string * runner_state) :=
  match checkToolDenied toolName (ToolDenyPatterns (re_cfg env)) with
  | Some e => Some (Err e, s)
  | None =>
      let '(ok, s) := breaker_Allow s in
      if negb ok then Some (Err ErrCircuitOpen, s)
      else
        '(r, s) ← callToolInner ctx toolName input s;
        Some (r, breaker_Record (negb (is_Ok r)) s)
  end.

(** ** The hooks around a tool call *)
Definition not_found_answer (id : string) : string :=
  "{" +:+ json_str "error" "sandbox_not_found" +:+ "," +:+ json_str "id" id +:+ "}".

(** Compression of the results tracked so far, and of this one. *)
Definition compress_result (ctx : Ctx) (result : string) (h : task_hooks) (w : world)
    : string * task_hooks * world :=
  match th_compressor h with
  | None => (result, h, w)
  | Some c =>
      let c := Track result c in
      if NeedsCompression c then
        let '(summary, c, w) := Compress ctx c w in
        (match summary with Some t => injectSummary t result | None => result end,
         h <| th_compressor := Some c |>, w)
      else (result, h <| th_compressor := Some c |>, w)
  end.

Definition sandbox_result (toolName result : string) (h : task_hooks) : option (string * task_hooks) :=
  match th_sandbox h with
  | None => Some (result, h)
  | Some sb =>
      '(id, digest, sb) ← Store sb toolName result;
      Some (if decide (id = "") then result else digest, h <| th_sandbox := Some sb |>)
  end.

(** The function [buildCallTool] returns. *)
Definition hooked_call (ctx : Ctx) (toolName input : string) (s : runner_state) (h : task_hooks)
    : option (result string string * runner_state * task_hooks) :=
  match (if String.eqb toolName sandboxRecallTool then th_sandbox h else None) with
  | Some sb =>
      match unmarshal_recall input with
      | None => Some (Err (invalid_args "sandbox_recall: invalid input"), s, h)
      | Some id => Some (Ok (default (not_found_answer id) (Recall sb id)), s, h)
      end
  | None =>
      let '(dup, h) := match th_dedup h with
                       | None => (false, h)
                       | Some d => let '(dup, d) := IsDuplicate d toolName input in
                                   (dup, h <| th_dedup := Some d |>)
                       end in
      if dup then Some (Ok "[skipped: duplicate tool call]", s, h)
      else
        let '(findings, w) := BeforeCall ctx toolName input (th_memory h) (rs_world s) in
        '(r, s) ← CallTool ctx toolName input (s <| rs_world := w |>);
        match r with
        | Err e => Some (Err e, s, h)
        | Ok result =>
            '(result, h) ← sandbox_result toolName result h;
            let '(result, h, w) := compress_result ctx result h (rs_world s) in
            '(m, w) ← AfterCall ctx toolName result (th_memory h) w;
            Some (Ok (injectPriorFindings findings result),
                  s <| rs_world := w |>, h <| th_memory := m |>)
        end
  end.

(** ** A task *)
Definition call_compression_hook (ctx : Ctx) (n : Z) (s : runner_state) (h : task_hooks)
    : option string * runner_state * task_hooks :=
  match th_compressor h with
  | None => (None, s, h)
  | Some c =>
      let '(summary, c, w) := compressionHook ctx n c (rs_world s) in
      (summary, s <| rs_world := w |>, h <| th_compressor := Some c |>)
  end.

(** The provider's program under the runner's functions; [key] is the stream of the chunks. *)
Fixpoint run_loop (ctx : Ctx) (key : string) (p : agent_loop) (s : runner_state) (h : task_hooks)
    : option (string * TokenUsage * option string * runner_state * task_hooks) :=
  match p with
  | LoopDone out usage err => Some (out, usage, err, s, h)
  | LoopTool name input k =>
      '(r, s, h) ← hooked_call ctx name input s h;
      run_loop ctx key (k r) s h
  | LoopChunk chunk next =>
      let s := if negb (String.eqb key "") && re_has_stream env
               then s <| rs_world ::= stream_Publish key chunk |> else s in
      run_loop ctx key next s h
  | LoopCompress n k =>
      let '(summary, s, h) := call_compression_hook ctx n s h in
      run_loop ctx key (k summary) s h
  | LoopLook k => run_loop ctx key (k (rs_world s)) s h
  | LoopAct f next => run_loop ctx key next (s <| rs_world ::= f |>) h
  end.

Definition positive_or (n dflt : Z) : Z := if n <=? 0 then dflt else n.

Definition new_task_sandbox (cfg : LoopSandboxConfig) : ToolResultSandbox :=
  newSandbox (positive_or (sb_ThresholdBytes cfg) 2048) (positive_or (sb_PreviewBytes cfg) 200)
    (positive_or (sb_MaxTotalBytes cfg) 52428800).

(** The hooks of a task. *)
Definition new_hooks (task : Task) (w : world) : task_hooks * world :=
  match LoopPolicy (re_cfg env) with
  | None => (mkTaskHooks _ _ None None None None, w)
  | Some lp =>
      let '(mem, w) := newMemoryHook (Memory lp) (VectorStoreURL (re_cfg env)) (task_ID task) w in
      (mkTaskHooks _ _ (if Dedup lp then Some newDeduplicator else None)
         (newCompressor (Compression lp) (cfg_Model (re_cfg env)) (re_provider_window env))
         mem (new_task_sandbox <$> lp_Sandbox lp), w)
  end.

(** [RunTask]: the text, the usage, the error if any, and the state after. *)
Definition RunTask (ctx : Ctx) (task : Task) (provider : Task → agent_loop) (s : runner_state)
    : option (string * TokenUsage * option string * runner_state) :=
  let s := match re_gateway env with
           | Some _ => s <| rs_gateway := resetPerTask (task_Meta task) |>
           | None => s
           end in
  let '(h, w) := new_hooks task (rs_world s) in
  let s := s <| rs_world := w |> in
  let key := default "" (task_Meta task !! "stream_key") in
  let '(ok, s) := breaker_Allow s in
  if negb ok
  then Some ("", mkTokenUsage 0 0 0 0 "", Some ("[CircuitOpen] " +:+ ErrCircuitOpen),
             s <| rs_world ::= Close (th_memory h) |>)
  else
    '(out, usage, err, s, h) ← run_loop ctx key (provider task) s h;
    let s := breaker_Record (bool_decide (is_Some err)) s in
    Some (out, usage, err, s <| rs_world ::= Close (th_memory h) |>).

(** [buildTools]: the names of the tools, in order. *)
Definition gateway_tool_names (cfg : Config) : list string :=
  omap (λ gt, if decide (gt_Name gt = gatewayToolSearch ∨ gt_Name gt = gatewayToolDispatch)
              then Some (gt_Name gt) else None) (GatewayTools cfg).

Definition buildTools : list string :=
  let cfg := re_cfg env in
  mcp_tools ++ (wt_Name <$> WebhookTools cfg) ++ (ToolName <$> Advisors cfg) ++
  gateway_tool_names cfg ++
  match re_taskQueue env with
  | Some _ => [submitSubtaskTool; collectResultsTool; spawnAndCollectTool]
  | None => []
  end ++
  (if bool_decide (re_delegateQueues env = ∅) then [] else [delegateTool]) ++
  match LoopPolicy cfg with
  | Some lp => match lp_Sandbox lp with Some _ => [sandboxRecallTool] | None => [] end
  | None => []
  end.
End runner.

(** ** [New] *)
Section new.
Context `{W : World}.

Definition new_gateway (cfg : Config) : option gatewayHandler :=
  if decide (GatewayCapabilities cfg = [] ∧ GatewayConfig cfg = None ∧ GatewayTools cfg = [])
  then None
  else Some (mkGatewayHandler (GatewayCapabilities cfg) (GatewayConfig cfg) (AgentName cfg)
               (cfg_Namespace cfg) (TaskQueueURL cfg)).

Definition new_breaker (cfg : Config) : option Breaker :=
  (λ cb, NewBreaker (cb_FailureThreshold cb) (cb_HalfOpenMaxCalls cb)
           (wrap64 (cb_CooldownSeconds cb * Second))) <$> CircuitBreaker cfg.

Definition new_state (cfg : Config) (w : world) : runner_state :=
  mkRunnerState W w (new_breaker cfg)
    (match Advisors cfg with [] => None | advisors => Some (newAdvisorTracker advisors) end)
    (mkCounters 0 0 0).

Definition webhook_map (tools : list WebhookToolConfig) : gmap string WebhookToolConfig :=
  foldl (λ m wt, <[wt_Name wt := wt]> m) ∅ tools.
End new.
