(* ===== verification/RunnerProps.v ===== *)
(** * RunnerProps: the theorems on tool calls and tasks of a runner. *)
From Stdlib Require Import ZArith Lia Ascii.
From stdpp Require Import base tactics option list numbers strings gmap.
From S2P Require Import Prelude GoStd Types Kube Queue Runtime Breaker Sandbox Config Guards.
From S2P Require Import Gateway Advisor Loop Runner.

Section runner_props.
Context (W : World) {LA : @LoopApi W} {TA : @ToolApi W}.
Context {JA : JsonApi} {HA : HashApi} {CA : CaseApi} {LoA : LowerApi} {FA : FoldApi} {UA : UrlApi}.
Context {CJ : CollectJson} {GJ : GatewayJson} {RJ : RunnerJson}.
Variable env : @runner_env W.

(** ** Totality *)

(** The configurations of the advisors fit their 32-bit fields, and each has a state. *)
Definition advisors_ok (t : advisorTracker) : Prop :=
  tracked t ∧ ∀ tool cfg, configs t !! tool = Some cfg → in_width 32 (adv_TimeoutSeconds cfg).

Definition state_ok (s : runner_state) : Prop :=
  match rs_advisors s with Some t => advisors_ok t | None => True end.

(** The truncation limit of the memory does not overflow, and previews are not negative. *)
Definition memory_ok (h : option LoopMemoryHook) : Prop :=
  match h with Some h => 4 * mem_MaxTokens (hook_cfg h) ≤ max_int 64 | None => True end.

Definition hooks_ok (h : task_hooks) : Prop :=
  memory_ok (th_memory h) ∧
  match th_sandbox h with Some sb => 0 ≤ previewBytes sb | None => True end.

Lemma checkAndIncrement_configs t name mx slot t' :
  checkAndIncrement t name mx = Some (slot, t') → configs t' = configs t.
Proof.
  unfold checkAndIncrement. destruct (states t !! name); simpl; [|done].
  case_match; by intros [= <- <-].
Qed.

Lemma AddTokens_configs t name n mx : configs (snd (AddTokens t name n mx)) = configs t.
Proof. unfold AddTokens. by case_match. Qed.

Lemma callAdvisor_configs u f url ns name pick fuel ctx tool input t w r t' w' :
  callAdvisor u f url ns name pick fuel ctx tool input t w = Some (r, t', w') →
  configs t' = configs t.
Proof.
  unfold callAdvisor. destruct (isAdvisorTool t tool) as [cfg|]; [|by intros [= <- <- <-]].
  destruct (checkAndIncrement _ _ _) as [[slot t1]|] eqn:E; simpl; [|done].
  apply checkAndIncrement_configs in E. destruct slot as [p|]; [|by intros [= <- <- <-]].
  destruct (u input) as [q|]; [|by intros [= <- <- <-]].
  destruct (advisor_timeout_of ctx cfg w) as [to w1]. destruct (WithTimeout ctx to w1) as [c w2].
  destruct (time_Now w2) as [n w3].
  destruct (callAdvisorViaGateway _ _ _ _ _ _ _ _ _ _) as [[r0 w4]|]; simpl; [|done].
  destruct (time_Now w4) as [n' w5]. destruct r0 as [[out usage]|e].
  - intros [= <- <- <-]. case_match; [by rewrite AddTokens_configs|done].
  - case_match; by intros [= <- <- <-].
Qed.

Context {WL : WorldLaws W} {QL : QueueLaws W}.
Hypothesis Submit_later : ∀ c q p m w r w', q_Submit c q p m w = (r, w') → later w w'.
Hypothesis fair_select : fair (re_fairness env) (re_pick_tick env).

Lemma collectResultsFromQueue_total ctx tq ids timeout w :
  ∃ r w', collectResultsFromQueue ctx tq ids timeout w = Some (r, w').
Proof.
  unfold collectResultsFromQueue.
  destruct (collected_returns W ctx tq ids timeout w (λ _ _, True)) as (r & w' & -> & _).
  { intros i u rs v _. by apply Forall_true. }
  by eexists _, _.
Qed.

Lemma collect_groups_total ctx timeout groups :
  ∀ completed pending w, ∃ r w', collect_groups ctx timeout groups completed pending w = Some (r, w').
Proof.
  induction groups as [|[tq ids] groups IH]; intros completed pending w; [by eexists _, _|].
  simpl. destruct (collectResultsFromQueue_total ctx tq ids timeout w) as (r & w' & ->). simpl.
  destruct r as [json|e]; [|by eexists _, _]. destruct (unmarshal_collected json) as [[c p]|]; auto.
Qed.

Lemma call_spawn_total ctx tq input w : ∃ r w', call_spawn env ctx tq input w = Some (r, w').
Proof.
  unfold call_spawn, handleSpawnAndCollect. destruct (unmarshal_spawn input) as [args|]; [|by eexists _, _].
  destruct (submit_all _ _ _ _ _ _ _) as [[sub|e] w1]; [|by eexists _, _].
  edestruct collect_groups_total as (r & w' & ->). by eexists _, _.
Qed.

Lemma call_plain_total ctx name input w : ∃ r w', call_plain env ctx name input w = Some (r, w').
Proof.
  unfold call_plain. repeat case_match; simplify_eq;
    try (destruct (call_submit _ _ _ _); by eexists _, _);
    try (destruct (call_delegate _ _ _ _); by eexists _, _);
    try (destruct (callWebhook _ _ _ _); by eexists _, _);
    try (destruct (mcp_CallTool _ _ _ _); by eexists _, _);
    try apply call_spawn_total.
  all: unfold call_collect; repeat case_match; try by eexists _, _.
  all: apply collectResultsFromQueue_total.
Qed.

Lemma gateway_dispatch_total h ctx input c w :
  ∃ r c' w', gateway_dispatch (re_factories env) h ctx input c w = Some (r, c', w').
Proof.
  unfold gateway_dispatch. destruct (unmarshal_dispatch input) as [args|]; [|by eexists _, _, _].
  destruct (dispatch_guard h args c) as [[[ns depth]|e] c']; [|by eexists _, _, _].
  edestruct (run_dispatch_returns W (re_factories env) h ctx (disp_Target args) ns (disp_Prompt args)
               depth w (λ _, True)) as (r & w' & -> & _); [|by eexists _, _, _].
  intros c0 q i u rs v _. by apply Forall_true.
Qed.

Lemma callToolInner_total ctx name input s :
  state_ok s → ∃ r s', callToolInner env ctx name input s = Some (r, s') ∧ state_ok s'.
Proof.
  intros Hs. unfold callToolInner.
  assert (Hplain : ∃ r s', (
    '(r, w) ← call_plain env ctx name input (rs_world s);
    Some (r, s <| rs_world := w |>)) = Some (r, s') ∧ state_ok s').
  { destruct (call_plain_total ctx name input (rs_world s)) as (r & w' & ->).
    by eexists _, _. }
  assert (Hgw : ∃ r s', match re_gateway env with
    | None => '(r, w) ← call_plain env ctx name input (rs_world s); Some (r, s <| rs_world := w |>)
    | Some h =>
        if String.eqb name gatewayToolSearch then
          let '(r, c) := registrySearch h input (rs_gateway s) in
          Some (r, s <| rs_gateway := c |>)
        else if String.eqb name gatewayToolDispatch then
          '(r, c, w) ← gateway_dispatch (re_factories env) h ctx input (rs_gateway s) (rs_world s);
          Some (r, s <| rs_gateway := c |> <| rs_world := w |>)
        else '(r, w) ← call_plain env ctx name input (rs_world s); Some (r, s <| rs_world := w |>)
    end = Some (r, s') ∧ state_ok s').
  { destruct (re_gateway env) as [h|]; [|exact Hplain]. case_match.
    - destruct (registrySearch h input (rs_gateway s)). by eexists _, _.
    - case_match; [|exact Hplain].
      destruct (gateway_dispatch_total h ctx input (rs_gateway s) (rs_world s)) as (r & c & w' & ->).
      by eexists _, _. }
  destruct (rs_advisors s) as [t|] eqn:Ea; [|exact Hgw].
  destruct (isAdvisorTool t name) as [cfg|] eqn:Ec; [|exact Hgw].
  unfold state_ok in Hs. rewrite Ea in Hs. destruct Hs as [Ht Hto].
  destruct (callAdvisor_returns W unmarshal_question (re_factories env) (TaskQueueURL (re_cfg env))
    (cfg_Namespace (re_cfg env)) (AgentName (re_cfg env)) (re_pick_tick env) (re_fairness env) ctx
    name input t (rs_world s)) as (r & t' & w' & E & Ht' & _); [done..|intros ? Hc; by eapply Hto|done|].
  rewrite Ec in E. rewrite E. eexists _, _. split; [reflexivity|].
  unfold state_ok. simpl. split; [done|]. apply callAdvisor_configs in E. by rewrite E.
Qed.

Lemma breaker_Allow_ok s : state_ok s → state_ok (snd (breaker_Allow s)).
Proof.
  unfold breaker_Allow, state_ok. destruct (rs_breaker s) as [b|]; [|done].
  destruct (if decide _ then _ else _) as [now w]. by destruct (Allow now b).
Qed.

Lemma breaker_Record_ok f s : state_ok s → state_ok (breaker_Record f s).
Proof.
  unfold breaker_Record, state_ok. destruct (rs_breaker s) as [b|]; [|done].
  destruct f; [|done]. by destruct (time_Now (rs_world s)).
Qed.

Lemma CallTool_total ctx name input s :
  state_ok s → ∃ r s', CallTool env ctx name input s = Some (r, s') ∧ state_ok s'.
Proof.
  intros Hs. unfold CallTool. destruct (checkToolDenied _ _); [by eexists _, _|].
  pose proof (breaker_Allow_ok s Hs) as Hs1. destruct (breaker_Allow s) as [ok s1]. simpl in Hs1.
  destruct ok; simpl; [|by eexists _, _].
  destruct (callToolInner_total ctx name input s1 Hs1) as (r & s2 & -> & Hs2).
  eexists _, _. split; [reflexivity|]. by apply breaker_Record_ok.
Qed.

Lemma AfterCall_total ctx name result h w :
  memory_ok h → ∃ h' w', AfterCall ctx name result h w = Some (h', w') ∧ memory_ok h'.
Proof.
  intros Hm. unfold AfterCall. destruct h as [h|]; [|by eexists _, _]. simpl in Hm.
  case_match; [by eexists _, _|]. set (h' := h <| stepIdx := _ |>).
  destruct (WithTimeout ctx (15 * Second) w) as [c w1].
  assert (Ht : ∀ r, ∃ t, truncate_result (hook_cfg h') r = Some t).
  { intros r. unfold truncate_result. simpl. rewrite wrap_id; [| done |].
    - case_match; [|eauto]. rewrite (proj2 (Z.ltb_ge _ _)); [eauto|]. case_match; to_prop; lia.
    - unfold in_width, min_int, max_int in *. case_match; to_prop; lia. }
  assert (Hsum : ∃ t w2, summarise c name result h' w1 = Some (t, w2)).
  { unfold summarise. destruct (Ht result) as [t Ht'].
    repeat case_match; simplify_eq; rewrite ?Ht'; by eexists _, _. }
  destruct Hsum as (t & w2 & ->). simpl. destruct (llm_Embed c (embedder h) t w2) as [v w3].
  by eexists _, _.
Qed.

Lemma compress_result_ok ctx result h w :
  hooks_ok h → hooks_ok (snd (fst (compress_result ctx result h w))).
Proof.
  unfold compress_result. destruct (th_compressor h); [|done]. case_match; [|done].
  by destruct (Compress _ _ _) as [[s c] w'].
Qed.

Lemma hooked_call_total ctx name input s h :
  state_ok s → hooks_ok h →
  ∃ r s' h', hooked_call env ctx name input s h = Some (r, s', h') ∧ state_ok s' ∧ hooks_ok h'.
Proof.
  intros Hs Hh. unfold hooked_call.
  destruct (if String.eqb name sandboxRecallTool then th_sandbox h else None) as [sb|].
  { destruct (unmarshal_recall input); by eexists _, _, _. }
  destruct (match th_dedup h with None => (false, h) | Some d =>
      let '(dup, d) := IsDuplicate d name input in (dup, h <| th_dedup := Some d |>) end)
    as [dup h1] eqn:Ed.
  assert (Hh1 : hooks_ok h1).
  { destruct (th_dedup h) as [d|]; [destruct (IsDuplicate d name input)|];
      injection Ed as _ <-; done. }
  clear Ed Hh. destruct dup; [by eexists _, _, _|].
  destruct (BeforeCall ctx name input (th_memory h1) (rs_world s)) as [findings w].
  edestruct (CallTool_total ctx name input) as (r & s1 & E & Hs1);
    [|rewrite E; simpl]; [done|]. destruct r as [result|e]; [|by eexists _, _, _].
  assert (Hsb : ∃ res h2, sandbox_result name result h1 = Some (res, h2) ∧ hooks_ok h2).
  { unfold sandbox_result. destruct Hh1 as [Hm Hp].
    destruct (th_sandbox h1) as [sb|] eqn:Esb; [|eexists _, _; split; [done|]; split; [done|by rewrite Esb]].
    destruct (Store_total sb name result Hp) as (id & d & sb' & -> & Hp').
    eexists _, _. split; [reflexivity|]. split; [done|]. simpl. lia. }
  destruct Hsb as (res & h2 & -> & Hh2). simpl.
  pose proof (compress_result_ok ctx res h2 (rs_world s1) Hh2) as Hh3.
  destruct (compress_result ctx res h2 (rs_world s1)) as [[res' h3] w3]. simpl in Hh3.
  destruct Hh3 as [Hm3 Hp3].
  destruct (AfterCall_total ctx name res' (th_memory h3) w3 Hm3) as (m & w4 & -> & Hm4). simpl.
  eexists _, _, _. split; [reflexivity|]. split; [done|]. by split.
Qed.

Lemma run_loop_total ctx key p :
  ∀ s h, state_ok s → hooks_ok h →
  ∃ out u e s' h', run_loop env ctx key p s h = Some (out, u, e, s', h') ∧ state_ok s'.
Proof.
  induction p as [out u e|name input k IH|chunk p IH|n k IH|k IH|f p IH]; intros s h Hs Hh; simpl.
  - by eexists _, _, _, _, _.
  - destruct (hooked_call_total ctx name input s h Hs Hh) as (r & s' & h' & -> & Hs' & Hh').
    simpl. by apply IH.
  - apply IH; [|done]. by case_match.
  - unfold call_compression_hook. destruct (th_compressor h); [|by apply IH].
    destruct (compressionHook _ _ _ _) as [[t c] w]. by apply IH.
  - by apply IH.
  - by apply IH.
Qed.

(** The memory's limit, when configured, does not overflow. *)
Definition config_ok (cfg : Config) : Prop :=
  ∀ lp m, LoopPolicy cfg = Some lp → Memory lp = Some m → 4 * mem_MaxTokens m ≤ max_int 64.

Lemma newMemoryHook_ok m url id w :
  match m with Some m => 4 * mem_MaxTokens m ≤ max_int 64 | None => True end →
  memory_ok (fst (newMemoryHook m url id w)).
Proof.
  intros Hm. unfold newMemoryHook. destruct m as [m|]; [|done].
  case_match; [done|]. case_decide; [done|]. destruct (NewVectorStore url w) as [[vs|] w']; done.
Qed.

Lemma new_hooks_ok task w : config_ok (re_cfg env) → hooks_ok (fst (new_hooks env task w)).
Proof.
  intros Hc. unfold new_hooks. destruct (LoopPolicy (re_cfg env)) as [lp|] eqn:El; [|done].
  pose proof (newMemoryHook_ok (Memory lp) (VectorStoreURL (re_cfg env)) (task_ID task) w) as Hm.
  destruct (newMemoryHook _ _ _ w) as [mem w']. split; simpl.
  - apply Hm. destruct (Memory lp) as [m|] eqn:Em; [|done]. by eapply Hc.
  - destruct (lp_Sandbox lp) as [sb|]; [|done]. simpl. unfold positive_or.
    destruct (Z.leb_spec (sb_PreviewBytes sb) 0); lia.
Qed.

(** C8: a task ends.  Whatever the provider does (any finite program of tool calls) and
    whatever the tools, the queues and the other agents answer, the runner never panics and
    never waits for ever: every tool call returns, dispatches, consultations and collections
    included, and so does the task. *)
Theorem RunTask_returns ctx task provider s :
  config_ok (re_cfg env) → state_ok s →
  ∃ out usage err s', RunTask env ctx task provider s = Some (out, usage, err, s') ∧ state_ok s'.
Proof.
  intros Hc Hs. unfold RunTask. set (s0 := match re_gateway env with Some _ => _ | None => s end).
  assert (Hs0 : state_ok s0) by (unfold s0; by case_match). clearbody s0.
  pose proof (new_hooks_ok task (rs_world s0) Hc) as Hh.
  destruct (new_hooks env task (rs_world s0)) as [h w]. simpl in Hh.
  match goal with |- context [breaker_Allow ?s1] =>
    pose proof (breaker_Allow_ok s1 Hs0) as Hs1; destruct (breaker_Allow s1) as [ok s1']
  end. simpl in Hs1. destruct ok; simpl.
  - edestruct (run_loop_total ctx) as (out & u & e & s2 & h2 & E & Hs2); [exact Hs1|exact Hh|].
    rewrite E. simpl. eexists _, _, _, _. split; [reflexivity|].
    pose proof (breaker_Record_ok (bool_decide (is_Some e)) s2 Hs2) as Hs3. done.
  - by eexists _, _, _, _.
Qed.
End runner_props.

(** ** The hooks and the breaker around the calls *)
Section runner_behaviour.
Context (W : World) {LA : @LoopApi W} {TA : @ToolApi W}.
Context {JA : JsonApi} {HA : HashApi} {CA : CaseApi} {LoA : LowerApi} {FA : FoldApi} {UA : UrlApi}.
Context {CJ : CollectJson} {GJ : GatewayJson} {RJ : RunnerJson}.
Variable env : @runner_env W.

(** A call the sandbox does not answer itself. *)
Definition not_recall (name : string) (h : task_hooks) : Prop :=
  name ≠ sandboxRecallTool ∨ th_sandbox h = None.

Lemma recall_guard name h :
  not_recall name h → (if String.eqb name sandboxRecallTool then th_sandbox h else None) = None.
Proof. intros [H|H]; destruct (String.eqb_spec name sandboxRecallTool); done. Qed.

(** What a call answers that the sandbox answers itself, from the results it keeps. *)
Definition recall_answer (sb : ToolResultSandbox) (input : string) (r : result string string) : Prop :=
  r = match unmarshal_recall input with
      | Some id => Ok (default (not_found_answer id) (Recall sb id))
      | None => Err (invalid_args "sandbox_recall: invalid input")
      end.

(** C32: a tool whose name matches a pattern of the deny list is never executed.  The call is answered
    with the denial, or skipped as a duplicate of an earlier call of the task, and leaves the circuit
    breaker, the advisors, the gateway and every hook but the deduplication as they were; at most
    the memory is searched.  The one exception is the recall of sandboxed results, which the list
    does not stop: it reads a result that is kept, and changes nothing at all. *)
Theorem denied_tool_not_executed ctx name input s h p :
  p ∈ ToolDenyPatterns (re_cfg env) → path_Match p name = Some true →
  ∃ r s' h', hooked_call env ctx name input s h = Some (r, s', h') ∧
    ((∃ sb, name = sandboxRecallTool ∧ th_sandbox h = Some sb ∧ recall_answer sb input r ∧ s' = s ∧ h' = h) ∨
     ((∃ q, q ∈ ToolDenyPatterns (re_cfg env) ∧ path_Match q name = Some true ∧
         r = Err ("[ToolDenied] tool " +:+ Quote name +:+ " denied by policy pattern " +:+ Quote q)) ∨
      r = Ok "[skipped: duplicate tool call]") ∧
     (rs_world s' = rs_world s ∨
      rs_world s' = snd (BeforeCall ctx name input (th_memory h) (rs_world s))) ∧
     s' = s <| rs_world := rs_world s' |> ∧ h' = h <| th_dedup := th_dedup h' |>).
Proof.
  intros Hp Hm. pose proof (checkToolDenied_spec name (ToolDenyPatterns (re_cfg env))) as Hspec.
  destruct (checkToolDenied name _) as [e|] eqn:Hd.
  2: { rewrite Forall_forall in Hspec. by destruct (Hspec p Hp). }
  assert (He : ∃ q, q ∈ ToolDenyPatterns (re_cfg env) ∧ path_Match q name = Some true ∧
    Err (A := string) e = Err ("[ToolDenied] tool " +:+ Quote name +:+ " denied by policy pattern " +:+ Quote q)).
  { destruct Hspec as (l1 & q & l2 & -> & Hq & _ & ->). exists q. split; [set_solver|done]. }
  clear Hspec. unfold hooked_call.
  destruct (if String.eqb name sandboxRecallTool then th_sandbox h else None) as [sb|] eqn:Esb.
  { destruct (String.eqb_spec name sandboxRecallTool); [|done].
    destruct (unmarshal_recall input) eqn:Eu; eexists _, s, h; (split; [reflexivity|]); left; exists sb;
      unfold recall_answer; by rewrite Eu. }
  assert (Hc : ∀ s1, CallTool env ctx name input s1 = Some (Err e, s1))
    by (intros s1; unfold CallTool; by rewrite Hd).
  destruct (th_dedup h) as [d|] eqn:Ed; [destruct (IsDuplicate d name input) as [[] d']|];
    cbn [th_memory set_field];
    try (destruct (BeforeCall ctx name input (th_memory h) (rs_world s)) as [f w] eqn:Eb;
         rewrite Hc; simpl).
  - eexists _, _, _. split; [reflexivity|right]. split_and!; [by right|by left|by destruct s|by destruct h].
  - eexists _, _, _. split; [reflexivity|right]. split_and!; [by left|by right|by destruct s|by destruct h].
  - eexists _, _, _. split; [reflexivity|right]. split_and!; [by left|by right|by destruct s|].
    destruct h. simpl in Ed. by subst.
Qed.

(** with deduplication a failed call cannot be repeated.  The fingerprint is recorded
    before the call is made, so when a call fails (a timeout, an open circuit breaker, even a
    denial) the same call made again in that task is answered "skipped: duplicate", without an
    error and without a result, although the hook is documented to skip calls already
    executed. *)
Theorem failed_call_not_retried ctx name input s h d e s' h' :
  th_dedup h = Some d → not_recall name h →
  hooked_call env ctx name input s h = Some (Err e, s', h') →
  ∀ ctx2 s2, hooked_call env ctx2 name input s2 h' =
    Some (Ok "[skipped: duplicate tool call]", s2, h').
Proof.
  intros Hd Hr. unfold hooked_call. rewrite (recall_guard name h Hr), Hd.
  unfold IsDuplicate. case_decide as Hin; [done|]. cbn [th_memory set_field].
  destruct (BeforeCall _ _ _ _ _) as [f w].
  destruct (CallTool env ctx name input _) as [[[result|e'] s1]|]; simpl; [|intros [= <- <- <-]|done].
  - intros H. exfalso. revert H. destruct (sandbox_result _ _ _) as [[res h2]|]; simpl; [|done].
    destruct (compress_result _ _ _ _) as [[res' h3] w3].
    destruct (AfterCall _ _ _ _ _) as [[m w4]|]; simpl; done.
  - intros ctx2 s2. rewrite (recall_guard name _) by (destruct Hr; [by left|by right]).
    cbn. rewrite decide_True by set_solver. simpl. by destruct h.
Qed.

(** the recall of sandboxed results is outside the deny list: "enforce policy tool deny
    list before dispatch" does not hold for it, whatever the patterns are. *)
Theorem recall_ignores_deny_list ctx input s h sb id :
  th_sandbox h = Some sb → unmarshal_recall input = Some id →
  hooked_call env ctx sandboxRecallTool input s h =
    Some (Ok (default (not_found_answer id) (Recall sb id)), s, h).
Proof. intros Hsb Hid. unfold hooked_call. cbn. by rewrite Hsb, Hid. Qed.

(** A runner without loop hooks: the call goes to [CallTool]. *)
Lemma hooked_call_plain ctx name input s :
  hooked_call env ctx name input s (mkTaskHooks _ _ None None None None) =
  '(r, s') ← CallTool env ctx name input s;
  Some (r, s', mkTaskHooks _ _ None None None None).
Proof.
  unfold hooked_call. cbn. rewrite Tauto.if_same. destruct s as [w b a g]. cbn.
  destruct (CallTool env ctx name input _) as [[[r|e] [w' b' a' g']]|]; done.
Qed.

Lemma exhausted_advisor_answer ctx tool input s t cfg st :
  checkToolDenied tool (ToolDenyPatterns (re_cfg env)) = None → rs_breaker s = None →
  rs_advisors s = Some t → isAdvisorTool t tool = Some cfg →
  states t !! adv_Name cfg = Some st → 0 < MaxCallsPerTask cfg ≤ callCount st →
  CallTool env ctx tool input s = Some (Ok (limit_exceeded cfg), s).
Proof.
  intros Hd Hb Ha Hc Hst [H1 H2]. unfold CallTool, breaker_Allow. rewrite Hd, Hb. simpl.
  unfold callToolInner. rewrite Ha, Hc. unfold callAdvisor. rewrite Hc.
  unfold checkAndIncrement. rewrite Hst. simpl.
  rewrite (proj2 (Z.gtb_lt _ _)), (proj2 (Z.leb_le _ _)) by done. simpl.
  unfold breaker_Record. simpl. rewrite Hb. destruct s. simpl in *. by subst.
Qed.

(** the budget of an advisor is per runner, not per task.  [MaxCallsPerTask] is counted by
    a tracker "created fresh per task attempt", says its comment, but it is created once, with
    the runner: when earlier tasks have used the calls up, the first consultation of a new
    task is already refused, and the task goes on as if that had been the answer. *)
Theorem advisor_budget_spans_tasks ctx task tool input k s t cfg st :
  checkToolDenied tool (ToolDenyPatterns (re_cfg env)) = None →
  rs_breaker s = None → LoopPolicy (re_cfg env) = None →
  rs_advisors s = Some t → isAdvisorTool t tool = Some cfg →
  states t !! adv_Name cfg = Some st → 0 < MaxCallsPerTask cfg ≤ callCount st →
  RunTask env ctx task (λ _, LoopTool tool input k) s =
  RunTask env ctx task (λ _, k (Ok (limit_exceeded cfg))) s.
Proof.
  intros Hd Hb Hl Ha Hc Hst Hm. unfold RunTask, new_hooks. rewrite Hl.
  set (s0 := match re_gateway env with Some _ => _ | None => s end).
  assert (H0 : rs_breaker s0 = None ∧ rs_advisors s0 = Some t) by (unfold s0; by case_match).
  clearbody s0. destruct H0 as [Hb0 Ha0]. destruct s0 as [w b a g]. simpl in *. subst.
  cbn. rewrite hooked_call_plain, (exhausted_advisor_answer ctx tool input _ t cfg st) by done.
  done.
Qed.

Lemma breaker_Allow_closed s b :
  rs_breaker s = Some b → b_state b = StateClosed → breaker_Allow s = (true, s).
Proof.
  intros Hb Hc. unfold breaker_Allow. rewrite Hb, decide_False by (by rewrite Hc).
  unfold Allow. rewrite Hc. destruct s. simpl in *. by subst.
Qed.

(** a tool call that succeeds hides the failures of the model.  The breaker is documented
    to open after [FailureThreshold] consecutive failures of LLM and tool calls, and the task
    is to be rejected "if the circuit is open from prior LLM failures"; but both kinds share
    one counter, so with a threshold above one a provider whose every task makes one good tool
    call and then fails never opens it: after each such task the breaker is closed with one
    failure counted. *)
Theorem tool_success_masks_llm_failures ctx task name input out usage e s b :
  LoopPolicy (re_cfg env) = None → rs_breaker s = Some b → b_state b = StateClosed →
  2 ≤ failureThreshold b → checkToolDenied name (ToolDenyPatterns (re_cfg env)) = None →
  (∀ s1, rs_advisors s1 = rs_advisors s →
     ∃ r s2, callToolInner env ctx name input s1 = Some (Ok r, s2) ∧
             rs_breaker s2 = rs_breaker s1) →
  ∃ s' b', RunTask env ctx task (λ _, LoopTool name input (λ _, LoopDone out usage (Some e))) s =
      Some (out, usage, Some e, s') ∧
    rs_breaker s' = Some b' ∧ b_state b' = StateClosed ∧ consecutiveFailures b' = 1 ∧
    failureThreshold b' = failureThreshold b.
Proof.
  intros Hl Hb Hc Ht Hd Htool. unfold RunTask, new_hooks. rewrite Hl.
  set (s0 := match re_gateway env with Some _ => _ | None => s end).
  assert (H0 : rs_breaker s0 = Some b ∧ rs_advisors s0 = rs_advisors s)
    by (unfold s0; by case_match).
  clearbody s0. destruct H0 as [H0 Ha]. rewrite (breaker_Allow_closed _ b) by done. cbn [negb run_loop].
  rewrite hooked_call_plain. unfold CallTool. rewrite Hd, (breaker_Allow_closed _ b) by done.
  cbn [negb]. match goal with |- context [callToolInner env ctx name input ?s1] =>
    destruct (Htool s1 Ha) as (r & s2 & -> & Hb2)
  end.
  destruct s2 as [w2 b2 a2 g2]. simpl in Hb2. rewrite H0 in Hb2. subst b2.
  destruct b as [st th mx cool cf hc lf]. simpl in Hc, Ht. subst st. cbn.
  destruct (time_Now w2) as [now w3]. eexists _, _. do 2 (split; [reflexivity|]).
  unfold RecordFailure, RecordSuccess. cbn [b_state set_field].
  rewrite decide_False by done. cbn. change (wrap64 (0 + 1)) with 1.
  rewrite (proj2 (Z.leb_gt th 1)) by lia. done.
Qed.

(** while the breaker is open and its cooldown runs, a task fails at once, whatever the
    provider would do: the provider is not called. *)
Theorem open_breaker_rejects_task ctx task p1 p2 s b :
  rs_breaker s = Some b → b_state b = StateOpen →
  fst (Allow (fst (time_Now (snd (new_hooks env task (rs_world s))))) b) = false →
  RunTask env ctx task p1 s = RunTask env ctx task p2 s ∧
  ∃ s', RunTask env ctx task p1 s =
    Some ("", mkTokenUsage 0 0 0 0 "", Some "[CircuitOpen] circuit breaker is open", s').
Proof.
  intros Hb Ho Hcool. unfold RunTask.
  set (s0 := match re_gateway env with Some _ => _ | None => s end).
  assert (H0 : rs_breaker s0 = Some b ∧ rs_world s0 = rs_world s) by (unfold s0; by case_match).
  clearbody s0. destruct H0 as [H0 Hw]. rewrite <- Hw in Hcool.
  destruct (new_hooks env task (rs_world s0)) as [h w].
  destruct s0 as [w0 b0 a g]. simpl in H0. subst b0. cbn.
  unfold breaker_Allow. cbn. rewrite decide_True by done. cbn in Hcool.
  destruct (time_Now w) as [now w1]. simpl in Hcool. destruct (Allow now b) as [ok b'].
  simpl in Hcool. subst ok. cbn. eauto.
Qed.
End runner_behaviour.

(** ** A concrete runner *)
Definition toy_loop : @LoopApi toy_world :=
  @Build_LoopApi toy_world unit unit unit tt (λ _, None) None (λ _ _ _ w, (None, w))
    (λ _ w, (Some tt, w)) (λ _ _ _ _ w, (Some [], w)) (λ _ _ _ _ _ _ w, w) (λ _ w, w).

(** MCP answers the tool "good" and fails the others. *)
Definition toy_tools : @ToolApi toy_world :=
  @Build_ToolApi toy_world ["good"; "bad"]
    (λ _ name _ w, (if String.eqb name "good" then Ok "fine" else Err "tool crashed", w))
    (λ _ _, true) (λ _ _ _ _ w, (Ok (200, Some "ok"), w)) (λ _ _ w, w).

Definition toy_runner_json : RunnerJson :=
  {| unmarshal_submit s := Some s; unmarshal_delegate s := Some (s, s);
     unmarshal_collect s := Some (Some [s], 5); unmarshal_spawn s := Some (mkSpawnArgs [(s, "")] 5);
     unmarshal_recall s := Some s; unmarshal_question s := Some s |}.
Definition toy_collect_json : CollectJson :=
  {| marshal_collected _ _ := "{}"; unmarshal_collected _ := None; marshal_spawned _ _ := "{}" |}.

Definition toy_runner_config (deny : list string) (loop : option LoopPolicyConfig) : Config :=
  mkConfig "" "m" "p" [] 8000 120 "redis://q" "redis://q" "" 3 5 [] ∅ "ns" "me" "" "" 0 "" "" "" ""
    "" "" "" 0 0 0 deny "" loop None [toy_advisor] [] None [] None false false false false false "" "".

Definition toy_runner_env (cfg : Config) : @runner_env toy_world :=
  mkRunnerEnv toy_world cfg (Some ("self" : @TaskQueue toy_world)) ∅ [] false (Some toy_gateway) ∅
    {["redis" := λ url _, Ok url]} (λ l, l) (λ _, false) 1 None.

Definition toy_runner_state (b : option Breaker) (t : option advisorTracker) : runner_state :=
  mkRunnerState toy_world 7 b t (mkCounters 0 0 0).
Definition toy_task : Task := mkTask "t1" "do it" ∅.

#[local] Existing Instance toy_json.
#[local] Instance toy_hash : HashApi := λ s, s.
#[local] Instance toy_lower : LowerApi := ToLower.
#[local] Instance toy_upper : CaseApi := ToUpper.
#[local] Instance toy_fold : FoldApi := String.eqb.
#[local] Existing Instances toy_world toy_loop toy_tools toy_runner_json toy_collect_json
  toy_gateway_json toy_url toy_world_laws toy_queue_laws.

Definition toy_loop_policy : LoopPolicyConfig :=
  mkLoopPolicyConfig true None None (Some (mkLoopSandboxConfig 1 1 10)).
Definition toy_hooks (cfg : Config) : task_hooks := fst (new_hooks (toy_runner_env cfg) toy_task 7).

Definition toy_provider (task : Task) : agent_loop :=
  LoopTool "good" "{}" (λ r, LoopTool "bad" "x" (λ _,
    LoopDone (match r with Ok t => t | Err e => e end) (mkTokenUsage 1 1 0 2 "m") None)).

Lemma RunTask_returns_witness :
  ∃ out usage err s',
    RunTask (toy_runner_env (toy_runner_config [] (Some toy_loop_policy))) None toy_task toy_provider
      (toy_runner_state None (Some (newAdvisorTracker [toy_advisor]))) = Some (out, usage, err, s') ∧
    state_ok toy_world s'.
Proof.
  apply (RunTask_returns toy_world _ (WL := toy_world_laws) (QL := toy_queue_laws)).
  - intros c q p m w r w' [= <- <-]. apply Z.le_refl.
  - intros i. exists 0%nat. split; [apply Nat.lt_0_1|done].
  - intros lp m [= <-]. done.
  - split; [apply newAdvisorTracker_tracked|].
    intros tool cfg H. unfold newAdvisorTracker in H. simpl in H.
    apply lookup_insert_Some in H as [[_ <-]|[_ H]]; [|by apply lookup_empty_Some in H].
    vm_compute. split; congruence.
Defined.

Lemma denied_tool_not_executed_witness :
  let cfg := toy_runner_config ["go*"] (Some toy_loop_policy) in
  let s := toy_runner_state None None in
  ∃ r s' h', hooked_call (toy_runner_env cfg) None "good" "{}" s (toy_hooks cfg) = Some (r, s', h') ∧
    s' = s <| rs_world := rs_world s' |>.
Proof.
  intros cfg s.
  destruct (denied_tool_not_executed toy_world (toy_runner_env cfg) None "good" "{}" s (toy_hooks cfg) "go*")
    as (r & s' & h' & E & [(sb & Hn & _)|(_ & _ & Hs & _)]); [left|reflexivity|discriminate|].
  exists r, s', h'. split; [exact E|exact Hs].
Defined.

Lemma failed_call_not_retried_witness :
  let cfg := toy_runner_config [] (Some toy_loop_policy) in
  let s := toy_runner_state None None in
  let h := toy_hooks cfg in
  let h' := h <| th_dedup := Some {[fingerprintCall "bad" "x"]} |> in
  hooked_call (toy_runner_env cfg) None "bad" "x" s h = Some (Err "tool crashed", s, h') ∧
  ∀ ctx2 s2, hooked_call (toy_runner_env cfg) ctx2 "bad" "x" s2 h' =
    Some (Ok "[skipped: duplicate tool call]", s2, h').
Proof.
  split; [vm_compute; reflexivity|].
  apply (failed_call_not_retried toy_world (toy_runner_env (toy_runner_config [] (Some toy_loop_policy)))
    None "bad" "x" (toy_runner_state None None)
    (toy_hooks (toy_runner_config [] (Some toy_loop_policy))) ∅ "tool crashed"
    (toy_runner_state None None)); [reflexivity|by left|vm_compute; reflexivity].
Defined.

Lemma recall_ignores_deny_list_witness :
  let cfg := toy_runner_config ["*"] (Some toy_loop_policy) in
  checkToolDenied sandboxRecallTool ["*"] ≠ None ∧
  hooked_call (toy_runner_env cfg) None sandboxRecallTool "result-1" (toy_runner_state None None)
    (toy_hooks cfg) =
  Some (Ok (default (not_found_answer "result-1") (Recall (newSandbox 1 1 10) "result-1")),
        toy_runner_state None None, toy_hooks cfg).
Proof.
  split; [vm_compute; congruence|].
  apply (recall_ignores_deny_list toy_world (toy_runner_env (toy_runner_config ["*"] (Some toy_loop_policy)))
    None "result-1" (toy_runner_state None None)
    (toy_hooks (toy_runner_config ["*"] (Some toy_loop_policy)))); reflexivity.
Defined.

(** The state after a task that consulted the expert twice, as often as a task may. *)
Definition toy_consulting (task : Task) : agent_loop :=
  LoopTool "ask_expert" "why?" (λ _, LoopTool "ask_expert" "how?" (λ _,
    LoopDone "done" (mkTokenUsage 1 1 0 2 "m") None)).
Definition toy_consulted : runner_state :=
  match RunTask (toy_runner_env (toy_runner_config [] None)) None toy_task toy_consulting
          (toy_runner_state None (Some (newAdvisorTracker [toy_advisor]))) with
  | Some (_, _, _, s) => s
  | None => toy_runner_state None None
  end.

Lemma advisor_budget_spans_tasks_witness :
  let env := toy_runner_env (toy_runner_config [] None) in
  let k r := LoopDone (match r : result string string with Ok t => t | Err e => e end)
               (mkTokenUsage 1 1 0 2 "m") None in
  RunTask env None (mkTask "t2" "next" ∅) (λ _, LoopTool "ask_expert" "where?" k) toy_consulted =
  RunTask env None (mkTask "t2" "next" ∅) (λ _, k (Ok (limit_exceeded toy_advisor))) toy_consulted.
Proof.
  intros env k.
  apply (advisor_budget_spans_tasks toy_world env None (mkTask "t2" "next" ∅) "ask_expert" "where?" k
    toy_consulted (mkAdvisorTracker {["expert" := mkAdvisorState 2 0]} {["ask_expert" := toy_advisor]})
    toy_advisor (mkAdvisorState 2 0)); try reflexivity; try (vm_compute; reflexivity).
  vm_compute. split; congruence.
Defined.

Lemma tool_success_masks_llm_failures_witness :
  let env := toy_runner_env (toy_runner_config [] None) in
  let s := toy_runner_state (Some (NewBreaker 2 1 50)) None in
  let u := mkTokenUsage 1 1 0 2 "m" in
  ∃ s' b', RunTask env None toy_task (λ _, LoopTool "good" "{}" (λ _, LoopDone "" u (Some "529"))) s =
      Some ("", u, Some "529", s') ∧
    rs_breaker s' = Some b' ∧ b_state b' = StateClosed ∧ consecutiveFailures b' = 1 ∧
    failureThreshold b' = 2.
Proof.
  intros env s u.
  apply (tool_success_masks_llm_failures toy_world env None toy_task "good" "{}" "" u "529" s
           (NewBreaker 2 1 50)); [reflexivity..|vm_compute; congruence|reflexivity|].
  intros [w b t g] Ha. simpl in Ha. subst t. by eexists _, _.
Defined.

Lemma open_breaker_rejects_task_witness :
  let env := toy_runner_env (toy_runner_config [] None) in
  let s := toy_runner_state (Some (performs (NewBreaker 1 1 50) [CallFailure 5])) None in
  let p _ := LoopDone "never" (mkTokenUsage 1 1 0 2 "m") None in
  RunTask env None toy_task toy_provider s = RunTask env None toy_task p s ∧
  ∃ s', RunTask env None toy_task toy_provider s =
    Some ("", mkTokenUsage 0 0 0 0 "", Some "[CircuitOpen] circuit breaker is open", s').
Proof.
  intros env s p.
  apply (open_breaker_rejects_task toy_world env None toy_task toy_provider p s
           (performs (NewBreaker 1 1 50) [CallFailure 5])); vm_compute; reflexivity.
Defined.
