(* ===== verification/Notify.v ===== *)
(** * Notify: notifications (internal/controller/notify.go, api/v1alpha1/swarmnotify_types.go).

    The limiter is a map from (namespace, owner, event) to the time of the last notification.
    [DispatchRun] and its siblings decide what is sent, and answer the payload and the policy
    to dispatch with the new limiter.  A channel is delivered by a goroutine of its own: up to
    three attempts over a world of secrets and HTTP servers, then an update of the policy's
    status, which NotifyStatus interleaves with those of the other channels.  Clocks are
    arguments; log lines are left out. *)
From Stdlib Require Import ZArith Lia Ascii.
From stdpp Require Import base tactics option list strings gmap.
From S2P Require Import Prelude GoStd Types Costs AgentTypes Kube.

(** ** swarmnotify_types.go *)
Inductive NotifyEvent :=
| EventUnset | NotifyOnTeamSucceeded | NotifyOnTeamFailed | NotifyOnTeamTimedOut
| NotifyOnBudgetWarning | NotifyOnBudgetExceeded | NotifyOnDailyLimitReached
| NotifyOnAgentDegraded.

#[export] Instance NotifyEvent_eq_dec : EqDecision NotifyEvent.
Proof. solve_decision. Defined.

Definition event_string (e : NotifyEvent) : string :=
  match e with
  | EventUnset => ""
  | NotifyOnTeamSucceeded => "TeamSucceeded"
  | NotifyOnTeamFailed => "TeamFailed"
  | NotifyOnTeamTimedOut => "TeamTimedOut"
  | NotifyOnBudgetWarning => "BudgetWarning"
  | NotifyOnBudgetExceeded => "BudgetExceeded"
  | NotifyOnDailyLimitReached => "DailyLimitReached"
  | NotifyOnAgentDegraded => "AgentDegraded"
  end.

#[export] Instance event_string_inj : Inj (=) (=) event_string.
Proof. intros [] []; done. Qed.

Definition event_index (e : NotifyEvent) : nat :=
  match e with
  | EventUnset => 0 | NotifyOnTeamSucceeded => 1 | NotifyOnTeamFailed => 2
  | NotifyOnTeamTimedOut => 3 | NotifyOnBudgetWarning => 4 | NotifyOnBudgetExceeded => 5
  | NotifyOnDailyLimitReached => 6 | NotifyOnAgentDegraded => 7
  end%nat.

Definition event_of_index (n : nat) : option NotifyEvent :=
  [EventUnset; NotifyOnTeamSucceeded; NotifyOnTeamFailed; NotifyOnTeamTimedOut;
   NotifyOnBudgetWarning; NotifyOnBudgetExceeded; NotifyOnDailyLimitReached;
   NotifyOnAgentDegraded] !! n.

#[export] Program Instance NotifyEvent_countable : Countable NotifyEvent :=
  inj_countable event_index event_of_index _.
Next Obligation. by intros []. Qed.

(** Any other text of the type field is kept as it is. *)
Inductive NotifyChannelType :=
| NotifyChannelWebhook | NotifyChannelSlack | OtherChannel (name : string).

Record SecretKeySelector := mkSecretKeySelector { secret_Name : string; secret_Key : string }.

Record WebhookHeader := mkWebhookHeader {
  header_Name : string;
  header_Value : string;
  header_ValueFrom : option SecretKeySelector }.

Record WebhookChannelSpec := mkWebhookChannelSpec {
  channel_URL : string;
  channel_URLFrom : option SecretKeySelector;
  channel_Method : string;
  channel_Headers : list WebhookHeader }.

Record SlackChannelSpec := mkSlackChannelSpec { WebhookURLFrom : SecretKeySelector }.

Record NotifyChannelSpec := mkNotifyChannelSpec {
  channel_Type : NotifyChannelType;
  channel_Webhook : option WebhookChannelSpec;
  channel_Slack : option SlackChannelSpec;
  channel_Template : string }.

Record SwarmNotifySpec := mkSwarmNotifySpec {
  On : list NotifyEvent;
  Channels : list NotifyChannelSpec;
  RateLimitSeconds : Z }.

Record NotifyDispatchResult := mkNotifyDispatchResult {
  ChannelIndex : Z;
  LastFiredAt : option Z;
  LastEvent : NotifyEvent;
  Succeeded : bool;
  dispatch_Error : string }.

Record SwarmNotifyStatus := mkSwarmNotifyStatus {
  LastDispatches : list NotifyDispatchResult;
  notify_ObservedGeneration : Z;
  notify_Conditions : list StatusCondition }.

#[export] Instance eta_SwarmNotifyStatus : Settable SwarmNotifyStatus := λ s,
  mkSwarmNotifyStatus (LastDispatches s) (notify_ObservedGeneration s) (notify_Conditions s).

Record SwarmNotify := mkSwarmNotify {
  notify_Name : string;
  notify_Namespace : string;
  notify_Generation : Z;
  notify_DeletionTimestamp : option Z;
  notify_Annotations : gmap string string;
  notify_Spec : SwarmNotifySpec;
  notify_Status : SwarmNotifyStatus }.

#[export] Instance eta_SwarmNotify : Settable SwarmNotify := λ n,
  mkSwarmNotify (notify_Name n) (notify_Namespace n) (notify_Generation n)
    (notify_DeletionTimestamp n) (notify_Annotations n) (notify_Spec n) (notify_Status n).

(** ** The payload *)
Record NotifyPayload := mkNotifyPayload {
  payload_Event : NotifyEvent;
  payload_Team : string;
  payload_Namespace : string;
  payload_Phase : string;
  payload_RunName : string;
  FailedStep : string;
  payload_TotalTokens : Z;
  DurationMs : Z;
  payload_Output : string;
  payload_Message : string;
  DashboardURL : string }.

#[export] Instance eta_NotifyPayload : Settable NotifyPayload := λ p,
  mkNotifyPayload (payload_Event p) (payload_Team p) (payload_Namespace p) (payload_Phase p)
    (payload_RunName p) (FailedStep p) (payload_TotalTokens p) (DurationMs p) (payload_Output p)
    (payload_Message p) (DashboardURL p).

Definition empty_payload : NotifyPayload := mkNotifyPayload EventUnset "" "" "" "" "" 0 0 "" "" "".

Definition run_phase_string (p : SwarmRunPhase) : string :=
  match p with
  | RunUnset => "" | RunPending => "Pending" | RunRunning => "Running"
  | RunSucceeded => "Succeeded" | RunFailed => "Failed"
  end.

Definition budget_phase_string (p : BudgetStatus) : string :=
  match p with
  | BudgetUnset => "" | BudgetOK => "OK" | BudgetWarning => "Warning" | BudgetExceeded => "Exceeded"
  end.

(** The phase of the run and the reason of its Ready condition decide the event. *)
Definition timeout_condition (c : StatusCondition) : bool :=
  String.eqb (cond_Type c) "Ready" && String.eqb (cond_Reason c) "Timeout".

Definition runPhaseToEvent (run : SwarmRun) : NotifyEvent :=
  match Phase (Status run) with
  | RunSucceeded => NotifyOnTeamSucceeded
  | RunFailed => if existsb timeout_condition (Conditions (Status run))
                 then NotifyOnTeamTimedOut else NotifyOnTeamFailed
  | _ => EventUnset
  end.

Definition policyMatchesEvent (policy : SwarmNotify) (event : NotifyEvent) : bool :=
  match On (notify_Spec policy) with
  | [] => true
  | on => bool_decide (event ∈ on)
  end.

Definition team_title (run : SwarmRun) : string :=
  "Team " +:+ Quote (run_Namespace run) +:+ "/" +:+ Quote (TeamRef (Spec run)).

Definition run_message (run : SwarmRun) (event : NotifyEvent) (failed : string) : string :=
  match event with
  | NotifyOnTeamSucceeded => team_title run +:+ " succeeded"
  | NotifyOnTeamFailed =>
      if decide (failed = "") then team_title run +:+ " failed"
      else team_title run +:+ " failed at step " +:+ Quote failed
  | _ => team_title run +:+ ": " +:+ event_string event
  end.

(** [Sub(...).Milliseconds()]; both times must be set. *)
Definition run_duration_ms (run : SwarmRun) : Z :=
  match StartTime (Status run), CompletionTime (Status run) with
  | Some start, Some completion => Z.quot (time_Sub completion start) 1000000
  | _, _ => 0
  end.

Definition cap_output (output : string) : string :=
  if str_len output >? 500 then str_take 500 output +:+ "..." else output.

Definition first_failed (steps : list PipelineStepStatus) : string :=
  match List.find (λ st, bool_decide (step_Phase st = StepFailed)) steps with
  | Some st => step_Name st
  | None => ""
  end.

Definition buildRunPayload (run : SwarmRun) (event : NotifyEvent) : NotifyPayload :=
  let failed := first_failed (Steps (Status run)) in
  mkNotifyPayload event (TeamRef (Spec run)) (run_Namespace run)
    (run_phase_string (Phase (Status run))) (run_Name run) failed
    (match TotalTokenUsage (Status run) with Some u => TotalTokens u | None => 0 end)
    (run_duration_ms run) (cap_output (status_Output (Status run)))
    (run_message run event failed) "".

(** ** The rate limiter *)
Record rateLimitKey := mkRateLimitKey {
  key_namespace : string;
  key_owner : string;
  key_event : NotifyEvent }.

#[export] Instance rateLimitKey_eq_dec : EqDecision rateLimitKey.
Proof. solve_decision. Defined.
#[export] Program Instance rateLimitKey_countable : Countable rateLimitKey :=
  inj_countable' (λ k, (key_namespace k, key_owner k, key_event k))
    (λ '(ns, owner, event), mkRateLimitKey ns owner event) _.
Next Obligation. by intros []. Qed.

Abbreviation notifyRateLimiter := (gmap rateLimitKey Z).
Definition newNotifyRateLimiter : notifyRateLimiter := ∅.

Definition allow (now : Z) (key : rateLimitKey) (windowSecs : Z) (rl : notifyRateLimiter)
    : bool * notifyRateLimiter :=
  if windowSecs =? 0 then (true, rl)
  else match rl !! key with
       | None => (true, rl)
       | Some last =>
           if duration_seconds windowSecs <=? time_Sub now last
           then (true, delete key rl)
           else (false, rl)
       end.

Definition record (now : Z) (key : rateLimitKey) (rl : notifyRateLimiter) : notifyRateLimiter :=
  <[key := now]> rl.

(** The check every dispatch makes before it sends: [now] is when [allow] reads the clock,
    [now'] when [record] does. *)
Definition rate_limited (now now' : Z) (key : rateLimitKey) (windowSecs : Z)
    (rl : notifyRateLimiter) : bool * notifyRateLimiter :=
  let '(ok, rl) := allow now key windowSecs rl in
  if ok then (true, record now' key rl) else (false, rl).

(** ** What the controllers ask to be sent *)
Section dispatcher.
Variable get_notify : string → string → get_result SwarmNotify.
Variable get_team : string → string → get_result SwarmTeam.
Variable get_agent : string → string → get_result SwarmAgent.

(** The tail that the dispatchers share: the payload and the policy to dispatch. *)
Definition send (now now' : Z) (policy : SwarmNotify) (key : rateLimitKey)
    (payload : NotifyPayload) (rl : notifyRateLimiter)
    : option (NotifyPayload * SwarmNotify) * notifyRateLimiter :=
  if negb (policyMatchesEvent policy (key_event key)) then (None, rl)
  else
    let '(ok, rl) := rate_limited now now' key (RateLimitSeconds (notify_Spec policy)) rl in
    if ok then (Some (payload, policy), rl) else (None, rl).

Definition send_ref (now now' : Z) (ns ref : string) (key : rateLimitKey)
    (payload : NotifyPayload) (rl : notifyRateLimiter)
    : option (NotifyPayload * SwarmNotify) * notifyRateLimiter :=
  match get_notify ns ref with
  | Found policy => send now now' policy key payload rl
  | _ => (None, rl)
  end.

(** The name of the policy and the owner of the limit. *)
Definition resolveNotifyRef (run : SwarmRun) : option (string * string) :=
  if negb (String.eqb (TeamRef (Spec run)) "") then
    match get_team (run_Namespace run) (TeamRef (Spec run)) with
    | Found team => (λ ref, (ref, TeamRef (Spec run))) <$> team_NotifyRef (team_Spec team)
    | _ => None
    end
  else if negb (String.eqb (Agent (Spec run)) "") then
    match get_agent (run_Namespace run) (Agent (Spec run)) with
    | Found agent =>
        obs ← Observability (agent_Spec agent);
        ref ← obs_NotifyRef obs;
        Some (ref, Agent (Spec run))
    | _ => None
    end
  else None.

Definition DispatchRun (now now' : Z) (run : SwarmRun) (rl : notifyRateLimiter)
    : option (NotifyPayload * SwarmNotify) * notifyRateLimiter :=
  match resolveNotifyRef run with
  | None => (None, rl)
  | Some (ref, owner) =>
      let event := runPhaseToEvent run in
      if decide (event = EventUnset) then (None, rl)
      else send_ref now now' (run_Namespace run) ref
             (mkRateLimitKey (run_Namespace run) owner event) (buildRunPayload run event) rl
  end.

Definition agent_payload (agent : SwarmAgent) (event : NotifyEvent) : NotifyPayload :=
  empty_payload <| payload_Event := event |> <| payload_Namespace := agent_Namespace agent |>
                <| payload_Team := agent_Name agent |>.

Definition dispatch_agent (now now' : Z) (agent : SwarmAgent) (ref : option string)
    (event : NotifyEvent) (rl : notifyRateLimiter)
    : option (NotifyPayload * SwarmNotify) * notifyRateLimiter :=
  match ref with
  | None => (None, rl)
  | Some ref =>
      send_ref now now' (agent_Namespace agent) ref
        (mkRateLimitKey (agent_Namespace agent) (agent_Name agent) event)
        (agent_payload agent event) rl
  end.

Definition DispatchAgentDegraded (now now' : Z) (agent : SwarmAgent) (rl : notifyRateLimiter)
    : option (NotifyPayload * SwarmNotify) * notifyRateLimiter :=
  let ref := obs ← Observability (agent_Spec agent);
             match obs_NotifyRef obs with
             | Some ref => Some ref
             | None => hc ← obs_HealthCheck obs; health_NotifyRef hc
             end in
  dispatch_agent now now' agent ref NotifyOnAgentDegraded rl.

Definition DispatchDailyLimitReached (now now' : Z) (agent : SwarmAgent) (rl : notifyRateLimiter)
    : option (NotifyPayload * SwarmNotify) * notifyRateLimiter :=
  dispatch_agent now now' agent (obs ← Observability (agent_Spec agent); obs_NotifyRef obs)
    NotifyOnDailyLimitReached rl.

(** Not rate limited. *)
Definition DispatchTest (policy : SwarmNotify) : NotifyPayload * SwarmNotify :=
  (empty_payload <| payload_Event := NotifyOnTeamFailed |> <| payload_Team := "test-team" |>
     <| payload_Namespace := notify_Namespace policy |> <| payload_Phase := "Failed" |>
     <| payload_RunName := "test-run" |>
     <| payload_Message := "Test notification from SwarmNotify " +:+
          Quote (notify_Namespace policy) +:+ "/" +:+ Quote (notify_Name policy) |>, policy).

Definition DispatchBudget (now now' : Z) (budget : SwarmBudget) (decision : BudgetDecision)
    (event : NotifyEvent) (policy : SwarmNotify) (rl : notifyRateLimiter)
    : option (NotifyPayload * SwarmNotify) * notifyRateLimiter :=
  let sel := budget_Selector (budget_Spec budget) in
  send now now' policy (mkRateLimitKey (budget_Namespace budget) (budget_Name budget) event)
    (empty_payload <| payload_Event := event |> <| payload_Team := selector_Team sel |>
       <| payload_Namespace := selector_Namespace sel |>
       <| payload_Phase := budget_phase_string (budget_Phase (budget_Status budget)) |>
       <| payload_Message := decision_Message decision |>) rl.
End dispatcher.

(** ** Delivery *)
(** net/http: the canonical form of a header name. *)
Definition byte_in (lo hi c : ascii) : bool :=
  (N_of_ascii lo <=? N_of_ascii c)%N && (N_of_ascii c <=? N_of_ascii hi)%N.

Definition token_byte (c : ascii) : bool :=
  byte_in "a" "z" c || byte_in "A" "Z" c || byte_in "0" "9" c ||
  existsb (Ascii.eqb c) (String.list_ascii_of_string "!#$%&'*+-.^_`|~").

Fixpoint canonical_case (upper : bool) (s : string) : string :=
  match s with
  | "" => ""
  | String c rest => String (if upper then byte_upper c else byte_lower c)
                       (canonical_case (Ascii.eqb c "-") rest)
  end.

Definition CanonicalHeaderKey (s : string) : string :=
  if str_all token_byte s then canonical_case true s else s.

Record http_request := mkHttpRequest {
  http_Method : string;
  http_URL : string;
  http_Header : gmap string string;
  http_Body : string }.

(** What the dispatcher calls: the secrets, the HTTP client and the clock act on a world;
    text/template, encoding/json and the validation of a request are functions. *)
Class NotifyWorld (W : Type) := {
  get_secret : string → string → W → result string (gmap string string) * W;
  http_Do : http_request → W → result string Z * W;
  time_Sleep : Z → W → W;
  bad_request : string → string → option string;
  marshal_payload : NotifyPayload → result string string;
  marshal_slack : string → result string string;
  notify_Template : Type;
  notify_Parse : string → result string notify_Template;
  notify_Execute : notify_Template → NotifyPayload → result string string }.

Section delivery.
Context `{NotifyWorld W}.

(** The world with the cache of parsed templates. *)
Record sender := mkSender { template_cache : gmap string notify_Template; sender_world : W }.

Definition map_err {A} (prefix : string) (r : result string A) : result string A :=
  match r with Ok a => Ok a | Err e => Err (prefix +:+ ": " +:+ e) end.

Definition renderTemplate (tmplStr : string) (payload : NotifyPayload) (s : sender)
    : result string string * sender :=
  match template_cache s !! tmplStr with
  | Some tmpl => (notify_Execute tmpl payload, s)
  | None =>
      match notify_Parse tmplStr with
      | Err e => (Err e, s)
      | Ok tmpl => (notify_Execute tmpl payload,
                    mkSender (<[tmplStr := tmpl]> (template_cache s)) (sender_world s))
      end
  end.

(** A key of a secret; [what] names it in the error. *)
Definition secret_value (what ns : string) (ref : SecretKeySelector) (s : sender)
    : result string string * sender :=
  let '(r, w) := get_secret ns (secret_Name ref) (sender_world s) in
  let s := mkSender (template_cache s) w in
  match r with
  | Err e => (Err ("fetching " +:+ what +:+ " secret " +:+ Quote (secret_Name ref) +:+ ": " +:+ e), s)
  | Ok data =>
      match data !! secret_Key ref with
      | Some v => (Ok v, s)
      | None => (Err ("secret " +:+ Quote (secret_Name ref) +:+ " has no key " +:+
                      Quote (secret_Key ref)), s)
      end
  end.

Definition webhook_url (ns : string) (hook : WebhookChannelSpec) (s : sender)
    : result string string * sender :=
  let '(r, s) :=
    match channel_URLFrom hook with
    | Some ref => if String.eqb (channel_URL hook) "" then secret_value "webhook URL" ns ref s
                  else (Ok (channel_URL hook), s)
    | None => (Ok (channel_URL hook), s)
    end in
  (url <-? r; if String.eqb url "" then Err "webhook channel has no URL configured" else Ok url, s).

Definition webhook_body (ch : NotifyChannelSpec) (payload : NotifyPayload) (s : sender)
    : result string string * sender :=
  if negb (String.eqb (channel_Template ch) "") then
    let '(r, s) := renderTemplate (channel_Template ch) payload s in
    (map_err "rendering webhook template" r, s)
  else (map_err "marshaling payload" (marshal_payload payload), s).

(** The value of a header, from its secret when it has no literal; a secret that cannot be
    read leaves it empty, and an empty header is not set. *)
Definition header_text (ns : string) (h : WebhookHeader) (s : sender) : string * sender :=
  match header_ValueFrom h with
  | Some ref =>
      if String.eqb (header_Value h) "" then
        let '(r, w) := get_secret ns (secret_Name ref) (sender_world s) in
        (match r with Ok data => default "" (data !! secret_Key ref) | Err _ => "" end,
         mkSender (template_cache s) w)
      else (header_Value h, s)
  | None => (header_Value h, s)
  end.

Fixpoint set_headers (ns : string) (hs : list WebhookHeader) (m : gmap string string) (s : sender)
    : gmap string string * sender :=
  match hs with
  | [] => (m, s)
  | h :: rest =>
      let '(val, s) := header_text ns h s in
      set_headers ns rest
        (if String.eqb val "" then m else <[CanonicalHeaderKey (header_Name h) := val]> m) s
  end.

Definition json_header : gmap string string := {["Content-Type" := "application/json"]}.

(** The request is sent; [None] is success. *)
Definition http_send (sending returned : string) (req : http_request) (s : sender)
    : option string * sender :=
  let '(r, w) := http_Do req (sender_world s) in
  let s := mkSender (template_cache s) w in
  match r with
  | Err e => (Some (sending +:+ ": " +:+ e), s)
  | Ok status => (if status >=? 400 then Some (returned +:+ " returned " +:+ itoa status) else None, s)
  end.

Definition dispatchWebhook (payload : NotifyPayload) (ch : NotifyChannelSpec) (s : sender)
    : option string * sender :=
  match channel_Webhook ch with
  | None => (Some "webhook channel has no webhook config", s)
  | Some hook =>
      match webhook_url (payload_Namespace payload) hook s with
      | (Err e, s) => (Some e, s)
      | (Ok targetURL, s) =>
          match webhook_body ch payload s with
          | (Err e, s) => (Some e, s)
          | (Ok body, s) =>
              let method := if String.eqb (channel_Method hook) "" then "POST" else channel_Method hook in
              match bad_request method targetURL with
              | Some e => (Some ("creating request: " +:+ e), s)
              | None =>
                  let '(headers, s) := set_headers (payload_Namespace payload)
                                         (channel_Headers hook) json_header s in
                  http_send "sending webhook" "webhook"
                    (mkHttpRequest method targetURL headers body) s
              end
          end
      end
  end.

Definition eventEmoji (event : NotifyEvent) : string :=
  match event with
  | NotifyOnTeamSucceeded => ":white_check_mark:"
  | NotifyOnTeamFailed | NotifyOnTeamTimedOut => ":x:"
  | NotifyOnBudgetExceeded | NotifyOnDailyLimitReached => ":money_with_wings:"
  | NotifyOnBudgetWarning => ":warning:"
  | NotifyOnAgentDegraded => ":warning:"
  | EventUnset => ":bell:"
  end.

(** The middle dot between two spaces on each side, in UTF-8. *)
Definition middle_dot : string := "  " +:+ str_of_bytes [194%N; 183%N] +:+ "  ".

Definition defaultSlackText (p : NotifyPayload) : string :=
  eventEmoji (payload_Event p) +:+ " *" +:+ event_string (payload_Event p) +:+ "*  `" +:+
  payload_Namespace p +:+ " / " +:+ payload_Team p +:+ "`" +:+ nl +:+
  (if DurationMs p >? 0 then "Duration: " +:+ itoa (DurationMs p) +:+ "ms" else "") +:+
  (if payload_TotalTokens p >? 0 then middle_dot +:+ "Tokens: " +:+ itoa (payload_TotalTokens p)
   else "") +:+ nl +:+
  (if String.eqb (FailedStep p) "" then ""
   else "Failed step: `" +:+ FailedStep p +:+ "`" +:+ nl) +:+
  payload_Output p.

Definition slack_text (ch : NotifyChannelSpec) (payload : NotifyPayload) (s : sender)
    : result string string * sender :=
  if negb (String.eqb (channel_Template ch) "") then
    let '(r, s) := renderTemplate (channel_Template ch) payload s in
    (map_err "rendering slack template" r, s)
  else (Ok (defaultSlackText payload), s).

Definition dispatchSlack (payload : NotifyPayload) (ch : NotifyChannelSpec) (s : sender)
    : option string * sender :=
  match channel_Slack ch with
  | None => (Some "slack channel has no slack config", s)
  | Some slack =>
      match secret_value "slack webhook" (payload_Namespace payload) (WebhookURLFrom slack) s with
      | (Err e, s) => (Some e, s)
      | (Ok webhookURL, s) =>
          match slack_text ch payload s with
          | (Err e, s) => (Some e, s)
          | (Ok text, s) =>
              match map_err "marshaling slack body" (marshal_slack text) with
              | Err e => (Some e, s)
              | Ok body =>
                  match bad_request "POST" webhookURL with
                  | Some e => (Some ("creating slack request: " +:+ e), s)
                  | None => http_send "sending to slack" "slack"
                              (mkHttpRequest "POST" webhookURL json_header body) s
                  end
              end
          end
      end
  end.

Definition dispatch_once (payload : NotifyPayload) (ch : NotifyChannelSpec) (s : sender)
    : option string * sender :=
  match channel_Type ch with
  | NotifyChannelWebhook => dispatchWebhook payload ch s
  | NotifyChannelSlack => dispatchSlack payload ch s
  | OtherChannel t => (Some ("unknown channel type: " +:+ t), s)
  end.

Definition sleep (d : Z) (s : sender) : sender :=
  mkSender (template_cache s) (time_Sleep d (sender_world s)).

(** The attempts that are left; the error of the last one when all fail. *)
Fixpoint attempts (left : list Z) (err : string) (payload : NotifyPayload)
    (ch : NotifyChannelSpec) (s : sender) : option string * sender :=
  match left with
  | [] => (Some err, s)
  | attempt :: rest =>
      let s := if attempt >? 0 then sleep (attempt * attempt * second) s else s in
      match dispatch_once payload ch s with
      | (None, s) => (None, s)
      | (Some e, s) => attempts rest e payload ch s
      end
  end.

(** The goroutine of one channel, up to the update of the status. *)
Definition deliver (payload : NotifyPayload) (ch : NotifyChannelSpec) (s : sender)
    : option string * sender :=
  attempts [0; 1; 2] "" payload ch s.
End delivery.

(** ** The status of the policy *)
Definition dispatch_result (now channelIdx : Z) (event : NotifyEvent) (outcome : option string)
    : NotifyDispatchResult :=
  mkNotifyDispatchResult channelIdx (Some now) event (bool_decide (outcome = None))
    (default "" outcome).

(** Replace the entry of the channel, or append one. *)
Fixpoint record_result (r : NotifyDispatchResult) (l : list NotifyDispatchResult)
    : list NotifyDispatchResult :=
  match l with
  | [] => [r]
  | r' :: rest => if ChannelIndex r' =? ChannelIndex r then r :: rest
                  else r' :: record_result r rest
  end.
