(* ===== verification/NotifyProps.v ===== *)
(** * NotifyProps: theorems on notifications.

    The limiter refines the log of what was sent; a delivery makes at most three requests and
    does not depend on the template cache; the status updates of concurrent channels never
    overwrite one another; what DispatchRun sends, and what the reconciler makes of it. *)
From Stdlib Require Import ZArith Lia.
From stdpp Require Import base tactics option list strings gmap relations.
From S2P Require Import Prelude GoStd Types Costs AgentTypes Kube Context RunState Notify.

(** ** The limiter *)
(** One dispatcher that reaches the limiter, and what happens to a sequence of them. *)
Record attempt := mkAttempt {
  at_key : rateLimitKey;
  at_window : Z;
  at_check : Z;
  at_record : Z }.

Fixpoint limiter_run (rl : notifyRateLimiter) (l : list attempt) : list bool * notifyRateLimiter :=
  match l with
  | [] => ([], rl)
  | a :: rest =>
      let '(v, rl) := rate_limited (at_check a) (at_record a) (at_key a) (at_window a) rl in
      let '(vs, rl) := limiter_run rl rest in (v :: vs, rl)
  end.

(** When the key was last sent, according to the log of the attempts and their verdicts. *)
Definition note_sent (key : rateLimitKey) (last : option Z) (p : attempt * bool) : option Z :=
  if decide (p.2 = true ∧ at_key p.1 = key) then Some (at_record p.1) else last.
Definition last_sent (key : rateLimitKey) (log : list (attempt * bool)) : option Z :=
  foldl (note_sent key) None log.

(** The verdict the documentation promises, from the last time alone. *)
Definition may_send (a : attempt) (last : option Z) : Prop :=
  at_window a = 0 ∨
  match last with
  | None => True
  | Some t => duration_seconds (at_window a) ≤ time_Sub (at_check a) t
  end.

Lemma rate_limited_spec a rl :
  let '(v, rl') := rate_limited (at_check a) (at_record a) (at_key a) (at_window a) rl in
  (v = true ↔ may_send a (rl !! at_key a)) ∧
  ∀ key, rl' !! key = note_sent key (rl !! key) (a, v).
Proof.
  unfold rate_limited, allow, record, note_sent, may_send. simpl.
  destruct (Z.eqb_spec (at_window a) 0) as [->|Hw].
  { simpl. split; [tauto|]. intros key. rewrite lookup_insert. repeat case_decide; naive_solver. }
  destruct (rl !! at_key a) as [last|] eqn:E;
    [destruct (Z.leb_spec (duration_seconds (at_window a)) (time_Sub (at_check a) last))|];
    simpl; (split; [naive_solver lia|]); intros key; rewrite ?lookup_insert, ?lookup_delete;
    repeat case_decide; naive_solver.
Qed.

Lemma limiter_run_spec l rl :
  let '(vs, rl') := limiter_run rl l in
  length vs = length l ∧
  (∀ key, rl' !! key = foldl (note_sent key) (rl !! key) (zip l vs)) ∧
  ∀ i a v, l !! i = Some a → vs !! i = Some v →
    (v = true ↔ may_send a (foldl (note_sent (at_key a)) (rl !! at_key a) (take i (zip l vs)))).
Proof.
  revert rl. induction l as [|a l IH]; intros rl; simpl; [done|].
  pose proof (rate_limited_spec a rl) as Ha.
  destruct (rate_limited _ _ _ _ rl) as [v rl1]. destruct Ha as [Hv Hrl].
  specialize (IH rl1). destruct (limiter_run rl1 l) as [vs rl']. destruct IH as (Hl & Hk & Hi).
  simpl. split_and!.
  - lia.
  - intros key. by rewrite Hk, Hrl.
  - intros [|i] b v' Hb Hv'; simpl in *.
    + by simplify_eq.
    + rewrite <- Hrl. eauto.
Qed.

(** the limiter refines the log.  Over any sequence of attempts, with any keys, windows and
    clock readings, the map holds for each key the time it was last sent, and an attempt is
    let through exactly when its window is zero, its key was never sent, or the window has
    passed since.  (So a key that was sent once stays in the map for ever: eviction only makes
    room for the entry that [record] puts back.) *)
Theorem limiter_refines_log (l : list attempt) :
  let '(vs, rl) := limiter_run newNotifyRateLimiter l in
  length vs = length l ∧
  (∀ key, rl !! key = last_sent key (zip l vs)) ∧
  ∀ i a v, l !! i = Some a → vs !! i = Some v →
    (v = true ↔ may_send a (last_sent (at_key a) (take i (zip l vs)))).
Proof.
  pose proof (limiter_run_spec l newNotifyRateLimiter) as H.
  destruct (limiter_run _ l) as [vs rl]. destruct H as (Hl & Hk & Hi). split_and!.
  - done.
  - intros key. rewrite Hk. unfold newNotifyRateLimiter. by rewrite lookup_empty.
  - intros i a v Ha Hv. rewrite (Hi i a v Ha Hv). unfold newNotifyRateLimiter. by rewrite lookup_empty.
Qed.

(** Clocks that do not run backwards. *)
Definition clocks_ordered (l : list attempt) : Prop :=
  ∀ i j a b, (i < j)%nat → l !! i = Some a → l !! j = Some b →
    at_check a ≤ at_record a ∧ at_record a ≤ at_check b ∧ at_check b ≤ at_record b.

Lemma last_sent_since l key log i a :
  clocks_ordered l → log.*1 = l → log !! i = Some (a, true) → at_key a = key →
  ∃ t, last_sent key log = Some t ∧ at_record a ≤ t.
Proof.
  revert l. induction log as [|[b v] log IH] using rev_ind; intros l Hc Hlog Hi Hk; [done|].
  unfold last_sent. rewrite foldl_snoc. fold (last_sent key log). unfold note_sent at 1. simpl.
  rewrite fmap_app in Hlog. simpl in Hlog.
  assert (l !! length log = Some b) as Hb.
  { rewrite <- Hlog, lookup_app_r by (by rewrite length_fmap). by rewrite length_fmap, Nat.sub_diag. }
  apply lookup_app_Some in Hi as [Hi|[Hge Hi]].
  - assert (l !! i = Some a) as Ha.
    { rewrite <- Hlog. apply lookup_app_l_Some. by rewrite list_lookup_fmap, Hi. }
    pose proof (lookup_lt_Some _ _ _ Hi) as Hlt.
    pose proof (Hc i (length log) a b Hlt Ha Hb). case_decide; [eauto with lia|].
    apply (IH (log.*1)); [|done..]. intros i' j' a' b' Hij Ha' Hb'.
    apply (Hc i' j'); [done|rewrite <- Hlog; by apply lookup_app_l_Some..].
  - destruct (i - length log)%nat; [|done]. simpl in Hi. simplify_eq.
    rewrite decide_True by done. exists (at_record a). split; [done|lia].
Qed.

(** notifications are spaced.  When the clocks do not run backwards, two notifications for
    the same team and event are at least the window of the later one apart, in seconds. *)
Theorem notifications_spaced (l : list attempt) i j a b :
  clocks_ordered l → (i < j)%nat → l !! i = Some a → l !! j = Some b →
  at_key a = at_key b → 0 < at_window b → at_window b * second ≤ max_int 64 →
  let vs := (limiter_run newNotifyRateLimiter l).1 in
  vs !! i = Some true → vs !! j = Some true →
  at_window b * second ≤ at_check b - at_record a.
Proof.
  intros Hc Hij Ha Hb Hk Hw Hmax vs Hi Hj.
  pose proof (limiter_run_spec l newNotifyRateLimiter) as H.
  destruct (limiter_run _ l) as [vs' rl]. simpl in vs. subst vs. destruct H as (Hl & _ & H).
  apply (H j b true Hb) in Hj as [Hj _]. specialize (Hj eq_refl).
  unfold newNotifyRateLimiter in Hj. rewrite lookup_empty in Hj.
  change (foldl _ None ?x) with (last_sent (at_key b) x) in Hj.
  assert (take j (zip l vs') !! i = Some (a, true)) as Hz.
  { rewrite lookup_take_lt by done. by rewrite lookup_zip_with, Ha, Hi. }
  destruct (last_sent_since (take j l) (at_key b) (take j (zip l vs')) i a) as (t & Ht & Hle); try done.
  - intros i' j' a' b' ? [? ?]%lookup_take_Some [? ?]%lookup_take_Some. by apply (Hc i' j').
  - rewrite fmap_take, fst_zip by lia. done.
  - rewrite Ht in Hj. destruct Hj as [?|Hj]; [lia|].
    assert (duration_seconds (at_window b) = at_window b * second) as E.
    { unfold duration_seconds. apply wrap_id; [lia|]; unfold in_width, min_int, max_int, second in *; lia. }
    rewrite E in Hj. unfold time_Sub, second, max_int, min_int in *. lia.
Qed.

(** ** Delivery *)
Section delivery.
Context `{NotifyWorld W}.

(** The cache holds what the parser answers. *)
Definition cache_ok (s : sender) : Prop :=
  ∀ text tmpl, template_cache s !! text = Some tmpl → notify_Parse text = Ok tmpl.

(** Senders that differ in nothing but their caches. *)
Definition similar (s1 s2 : sender) : Prop :=
  cache_ok s1 ∧ cache_ok s2 ∧ sender_world s1 = sender_world s2.

Abbreviation answers A := (prod_relation (@eq A) similar).

Lemma similar_intro s1 s2 w : similar s1 s2 →
  similar (mkSender (template_cache s1) w) (mkSender (template_cache s2) w).
Proof. intros (? & ? & ?). by split_and!. Qed.

Lemma similar_refl s : cache_ok s → similar s s.
Proof. intros Hs. by split_and!. Qed.

Lemma renderTemplate_cached text payload s : cache_ok s →
  (renderTemplate text payload s).1 = (tmpl <-? notify_Parse text; notify_Execute tmpl payload) ∧
  cache_ok (renderTemplate text payload s).2 ∧
  sender_world (renderTemplate text payload s).2 = sender_world s.
Proof.
  intros Hs. unfold renderTemplate. destruct (template_cache s !! text) as [tmpl|] eqn:E; simpl.
  - by rewrite (Hs _ _ E).
  - destruct (notify_Parse text) as [tmpl|e] eqn:P; simpl; [|done].
    split_and!; [done| |done]. intros t v. simpl. rewrite lookup_insert. case_decide; naive_solver.
Qed.

#[local] Instance renderTemplate_proper text payload :
  Proper (similar ==> answers _) (renderTemplate text payload).
Proof.
  intros s1 s2 (H1 & H2 & Hw).
  destruct (renderTemplate_cached text payload s1 H1) as (E1 & ? & W1).
  destruct (renderTemplate_cached text payload s2 H2) as (E2 & ? & W2).
  split; [congruence|]. split_and!; [done|done|congruence].
Qed.

(** Run the same operation on both sides. *)
Ltac both :=
  match goal with
  | H : similar ?s1 ?s2 |- context [?f ?s1] =>
      lazymatch type of (f s1) with
      | prod _ _ =>
          let E := fresh in let Hs := fresh in
          assert (answers _ (f s1) (f s2)) as E by (f_equiv; exact H);
          destruct (f s1) as [? ?], (f s2) as [? ?]; destruct E as [E Hs];
          simpl in E, Hs; subst; clear H
      end
  end.

Lemma answer_same {A} (a : A) s1 s2 : similar s1 s2 → answers A (a, s1) (a, s2).
Proof. by split. Qed.
#[local] Hint Resolve answer_same similar_intro : core.

#[local] Instance secret_value_proper what ns ref :
  Proper (similar ==> answers _) (secret_value what ns ref).
Proof.
  intros s1 s2 H0. unfold secret_value. pose proof (proj2 (proj2 H0)) as ->.
  destruct (get_secret _ _ _) as [[data|e] w]; [destruct (data !! _)|]; auto.
Qed.

#[local] Instance webhook_url_proper ns hook : Proper (similar ==> answers _) (webhook_url ns hook).
Proof.
  intros s1 s2 H0. unfold webhook_url.
  destruct (channel_URLFrom hook) as [ref|]; [destruct (String.eqb (channel_URL hook) "")|]; auto.
  by both; auto.
Qed.

#[local] Instance webhook_body_proper ch payload :
  Proper (similar ==> answers _) (webhook_body ch payload).
Proof. intros s1 s2 H0. unfold webhook_body. destruct (negb _); auto. by both; auto. Qed.

#[local] Instance slack_text_proper ch payload :
  Proper (similar ==> answers _) (slack_text ch payload).
Proof. intros s1 s2 H0. unfold slack_text. destruct (negb _); auto. by both; auto. Qed.

#[local] Instance header_text_proper ns h : Proper (similar ==> answers _) (header_text ns h).
Proof.
  intros s1 s2 H0. unfold header_text. destruct (header_ValueFrom h); [destruct (String.eqb _ _)|]; auto.
  pose proof (proj2 (proj2 H0)) as ->. destruct (get_secret _ _ _); auto.
Qed.

#[local] Instance set_headers_proper ns hs m :
  Proper (similar ==> answers _) (set_headers ns hs m).
Proof.
  revert m. induction hs as [|h hs IH]; intros m s1 s2 H0; simpl; auto.
  both. by apply IH.
Qed.

#[local] Instance http_send_proper sending returned req :
  Proper (similar ==> answers _) (http_send sending returned req).
Proof.
  intros s1 s2 H0. unfold http_send. pose proof (proj2 (proj2 H0)) as ->.
  destruct (http_Do _ _) as [[status|e] w]; auto.
Qed.

#[local] Instance dispatch_once_proper payload ch :
  Proper (similar ==> answers _) (dispatch_once payload ch).
Proof.
  intros s1 s2 H0. unfold dispatch_once, dispatchWebhook, dispatchSlack.
  destruct (channel_Type ch); auto.
  - destruct (channel_Webhook ch) as [hook|]; auto. both. case_match; auto.
    both. case_match; auto. case_match; auto. both. by apply http_send_proper.
  - destruct (channel_Slack ch) as [slack|]; auto. both. case_match; auto.
    both. case_match; auto. repeat (case_match; auto). by apply http_send_proper.
Qed.

#[local] Instance attempts_proper left err payload ch :
  Proper (similar ==> answers _) (attempts left err payload ch).
Proof.
  revert err. induction left as [|n left IH]; intros err s1 s2 H0; simpl; auto.
  assert (similar (if n >? 0 then sleep (n * n * second) s1 else s1)
                  (if n >? 0 then sleep (n * n * second) s2 else s2)) as H1.
  { case_match; [|done]. unfold sleep. pose proof (proj2 (proj2 H0)) as ->. auto. }
  both. case_match; auto. by apply IH.
Qed.

(** the cache of parsed templates is invisible.  From any cache that holds parser answers,
    a delivery has the same outcome and acts on the world in the same way as from the empty
    cache, and leaves such a cache. *)
Theorem deliver_ignores_cache payload ch s :
  cache_ok s →
  let '(r, s') := deliver payload ch s in
  let '(r0, s0) := deliver payload ch (mkSender ∅ (sender_world s)) in
  r = r0 ∧ sender_world s' = sender_world s0 ∧ cache_ok s'.
Proof.
  intros Hs. assert (similar s (mkSender ∅ (sender_world s))) as H0.
  { split_and!; [done| |done]. intros text tmpl. simpl. by rewrite lookup_empty. }
  pose proof (attempts_proper [0; 1; 2] "" payload ch _ _ H0) as [Hr (? & ? & ?)].
  unfold deliver. destruct (attempts _ _ _ _ s), (attempts _ _ _ _ (mkSender ∅ _)). by split_and!.
Qed.

(** A count of the requests that a world has seen. *)
Class RequestCount (requests : W → nat) : Prop := {
  count_secret : ∀ ns name w, requests (get_secret ns name w).2 = requests w;
  count_sleep : ∀ d w, requests (time_Sleep d w) = requests w;
  count_do : ∀ req w, requests (http_Do req w).2 = S (requests w) }.

Section requests.
Context (requests : W → nat) `{RequestCount requests}.
Abbreviation seen s := (requests (sender_world s)).

Lemma secret_value_seen what ns ref s : seen (secret_value what ns ref s).2 = seen s.
Proof.
  unfold secret_value. pose proof (count_secret ns (secret_Name ref) (sender_world s)) as E.
  destruct (get_secret _ _ _) as [[data|e] w]; [destruct (data !! _)|]; done.
Qed.

Lemma webhook_url_seen ns hook s : seen (webhook_url ns hook s).2 = seen s.
Proof.
  unfold webhook_url. destruct (channel_URLFrom hook) as [ref|]; [|done].
  destruct (String.eqb _ _); [|done].
  pose proof (secret_value_seen "webhook URL" ns ref s) as E. by destruct (secret_value _ _ _ _).
Qed.

Lemma renderTemplate_seen text payload s : seen (renderTemplate text payload s).2 = seen s.
Proof. unfold renderTemplate. by repeat case_match. Qed.

Lemma webhook_body_seen ch payload s : seen (webhook_body ch payload s).2 = seen s.
Proof.
  unfold webhook_body. destruct (negb _); [|done].
  pose proof (renderTemplate_seen (channel_Template ch) payload s) as E. by destruct (renderTemplate _ _ _).
Qed.

Lemma slack_text_seen ch payload s : seen (slack_text ch payload s).2 = seen s.
Proof.
  unfold slack_text. destruct (negb _); [|done].
  pose proof (renderTemplate_seen (channel_Template ch) payload s) as E. by destruct (renderTemplate _ _ _).
Qed.

Lemma header_text_seen ns h s : seen (header_text ns h s).2 = seen s.
Proof.
  unfold header_text. destruct (header_ValueFrom h) as [ref|]; [|done].
  destruct (String.eqb _ _); [|done].
  pose proof (count_secret ns (secret_Name ref) (sender_world s)) as E. by destruct (get_secret _ _ _).
Qed.

Lemma set_headers_seen ns hs m s : seen (set_headers ns hs m s).2 = seen s.
Proof.
  revert m s. induction hs as [|h hs IH]; intros m s; simpl; [done|].
  pose proof (header_text_seen ns h s) as E. destruct (header_text _ _ _) as [v s1].
  by rewrite IH, <- E.
Qed.

Lemma http_send_seen sending returned req s :
  seen (http_send sending returned req s).2 = S (seen s).
Proof.
  unfold http_send. pose proof (count_do req (sender_world s)) as E.
  by destruct (http_Do _ _) as [[status|e] w].
Qed.

(** Bring in what an operation does to the count, and split on its answer. *)
Ltac step_seen L :=
  lazymatch type of L with
  | requests (sender_world (?f).2) = _ =>
      let r := fresh "r" in let s := fresh "s" in let E := fresh in
      pose proof L as E; destruct f as [r s] eqn:?; simpl in E; try (destruct r as [?|?])
  end.

Lemma dispatch_once_seen payload ch s :
  let '(r, s') := dispatch_once payload ch s in
  (r ≠ None ∧ seen s' = seen s) ∨ seen s' = S (seen s).
Proof.
  unfold dispatch_once, dispatchWebhook, dispatchSlack.
  destruct (channel_Type ch); [| |by left].
  - destruct (channel_Webhook ch) as [hook|]; [|by left].
    step_seen (webhook_url_seen (payload_Namespace payload) hook s); [|by left].
    step_seen (webhook_body_seen ch payload s0); [|left; split; [done|congruence]].
    destruct (bad_request _ _); [left; split; [done|congruence]|].
    step_seen (set_headers_seen (payload_Namespace payload) (channel_Headers hook) json_header s1).
    match goal with |- context [http_send ?a ?b ?q ?s] => step_seen (http_send_seen a b q s) end;
      right; congruence.
  - destruct (channel_Slack ch) as [slack|]; [|by left].
    step_seen (secret_value_seen "slack webhook" (payload_Namespace payload) (WebhookURLFrom slack) s);
      [|by left].
    step_seen (slack_text_seen ch payload s0); [|left; split; [done|congruence]].
    destruct (map_err _ _); [|left; split; [done|congruence]].
    destruct (bad_request _ _); [left; split; [done|congruence]|].
    match goal with |- context [http_send ?a ?b ?q ?s] => step_seen (http_send_seen a b q s) end;
      right; congruence.
Qed.

Lemma attempts_seen left err payload ch s :
  let '(r, s') := attempts left err payload ch s in
  (seen s ≤ seen s' ≤ seen s + length left)%nat ∧ (r = None → (seen s < seen s')%nat).
Proof.
  revert err s. induction left as [|n left IH]; intros err s; simpl.
  { split; [lia|done]. }
  assert (seen (if n >? 0 then sleep (n * n * second) s else s) = seen s) as E.
  { case_match; [|done]. apply count_sleep. }
  pose proof (dispatch_once_seen payload ch (if n >? 0 then sleep (n * n * second) s else s)) as H1.
  rewrite E in H1. destruct (dispatch_once _ _ _) as [[e|] s1].
  - specialize (IH e s1). destruct (attempts _ _ _ _ s1) as [r s']. destruct IH as [? ?].
    split; [destruct H1 as [[_ ?]|?]; lia|intros Hr; specialize (H3 Hr); destruct H1 as [[_ ?]|?]; lia].
  - destruct H1 as [[? _]|?]; [done|]. split; lia.
Qed.

(** a notification is sent to a channel at most three times, and a delivery that reports
    success has sent at least one request. *)
Theorem deliver_requests_bounded payload ch s :
  let '(r, s') := deliver payload ch s in
  (seen s ≤ seen s' ≤ seen s + 3)%nat ∧ (r = None → (seen s < seen s')%nat).
Proof. apply attempts_seen. Qed.
End requests.
End delivery.

(** ** Concurrent status updates *)
(** The goroutine of a channel after its delivery: it fetches the policy, then writes it back,
    which the API server accepts only when the version is still the one that was fetched. *)
Inductive worker :=
| Delivering
| Fetched (version : nat) (fresh : list NotifyDispatchResult)
| Written
| Dropped.

#[export] Instance NotifyDispatchResult_eq_dec : EqDecision NotifyDispatchResult.
Proof. solve_decision. Defined.
#[export] Instance worker_eq_dec : EqDecision worker.
Proof. solve_decision. Defined.

Record board := mkBoard {
  board_list : list NotifyDispatchResult;
  board_version : nat;
  board_workers : list worker;
  board_log : list nat }.

Section board.
Variable outcome : nat → NotifyDispatchResult.

Definition set_worker (i : nat) (w : worker) (b : board) : board :=
  mkBoard (board_list b) (board_version b) (<[i := w]> (board_workers b)) (board_log b).

Inductive update_step : board → board → Prop :=
| step_fetch i b : board_workers b !! i = Some Delivering →
    update_step b (set_worker i (Fetched (board_version b) (board_list b)) b)
| step_fetch_failed i b : board_workers b !! i = Some Delivering →
    update_step b (set_worker i Dropped b)
| step_write i b fresh : board_workers b !! i = Some (Fetched (board_version b) fresh) →
    update_step b (mkBoard (record_result (outcome i) fresh) (S (board_version b))
                     (<[i := Written]> (board_workers b)) (board_log b ++ [i]))
| step_conflict i b v fresh : board_workers b !! i = Some (Fetched v fresh) →
    update_step b (set_worker i Dropped b)
| step_other b :
    update_step b (mkBoard (board_list b) (S (board_version b)) (board_workers b) (board_log b)).

Definition start_board (l : list NotifyDispatchResult) (version n : nat) : board :=
  mkBoard l version (replicate n Delivering) [].

Definition result_of (i : nat) (l : list NotifyDispatchResult) : option NotifyDispatchResult :=
  List.find (λ r, ChannelIndex r =? Z.of_nat i) l.

Definition replay (l : list NotifyDispatchResult) (log : list nat) : list NotifyDispatchResult :=
  foldl (λ l i, record_result (outcome i) l) l log.

Record board_ok (l0 : list NotifyDispatchResult) (b : board) : Prop := {
  ok_list : board_list b = replay l0 (board_log b);
  ok_log : ∀ i, i ∈ board_log b ↔ board_workers b !! i = Some Written;
  ok_nodup : NoDup (board_log b);
  ok_fetched : ∀ i v fresh, board_workers b !! i = Some (Fetched v fresh) →
    (v ≤ board_version b)%nat ∧ (v = board_version b → fresh = board_list b) }.

Lemma set_worker_ok l0 b i w w0 :
  board_ok l0 b → board_workers b !! i = Some w0 → w0 ≠ Written → w ≠ Written →
  (∀ v fresh, w = Fetched v fresh → v = board_version b ∧ fresh = board_list b) →
  board_ok l0 (set_worker i w b).
Proof.
  intros [Hl Hlog Hnd Hf] Hi Hw0 Hw Hv. split; simpl; [done| |done|].
  - intros j. rewrite Hlog, list_lookup_insert_Some. destruct (decide (i = j)) as [->|]; naive_solver.
  - intros j v fresh [(-> & E & _)|[_ Hj]]%list_lookup_insert_Some; [|eauto].
    destruct (Hv v fresh E) as [-> ->]. split; [lia|done].
Qed.

Lemma update_step_ok l0 b b' : board_ok l0 b → update_step b b' → board_ok l0 b'.
Proof.
  intros Hok Hs. destruct Hs as [i b Hi|i b Hi|i b fresh Hi|i b v fresh Hi|b].
  - eapply set_worker_ok; [done|done|done|done|]. by intros v fresh [= <- <-].
  - by eapply set_worker_ok.
  - destruct Hok as [Hl Hlog Hnd Hf]. destruct (Hf i _ _ Hi) as [_ ->]; [|done].
    split; simpl.
    + unfold replay. rewrite foldl_snoc. by rewrite Hl.
    + intros j. rewrite elem_of_app, Hlog, list_elem_of_singleton, list_lookup_insert_Some.
      pose proof (lookup_lt_Some _ _ _ Hi). destruct (decide (i = j)) as [->|]; naive_solver.
    + apply NoDup_app. split_and!; [done| |apply NoDup_singleton].
      intros j Hj. rewrite list_elem_of_singleton. intros ->. apply Hlog in Hj. by rewrite Hi in Hj.
    + intros j v l [(_ & [=] & _)|[_ Hj]]%list_lookup_insert_Some.
      destruct (Hf j v l Hj) as [? _]. split; lia.
  - by eapply set_worker_ok.
  - destruct Hok as [Hl Hlog Hnd Hf]. split; simpl; [done..|].
    intros j v l Hj. destruct (Hf j v l Hj) as [? _]. split; lia.
Qed.

Lemma start_board_ok l0 version n : board_ok l0 (start_board l0 version n).
Proof.
  split; simpl; [done| |constructor|].
  - intros i. rewrite lookup_replicate. split; [by intros ?%not_elem_of_nil|naive_solver].
  - intros i v fresh. rewrite lookup_replicate. naive_solver.
Qed.
End board.

Lemma record_result_of r l i :
  result_of i (record_result r l) =
  if decide (ChannelIndex r = Z.of_nat i) then Some r else result_of i l.
Proof.
  unfold result_of. induction l as [|r' l IH]; simpl.
  - destruct (Z.eqb_spec (ChannelIndex r) (Z.of_nat i)); case_decide; done.
  - destruct (Z.eqb_spec (ChannelIndex r') (ChannelIndex r)) as [E|E]; simpl.
    + rewrite E. destruct (Z.eqb_spec (ChannelIndex r) (Z.of_nat i)); case_decide; done.
    + destruct (Z.eqb_spec (ChannelIndex r') (Z.of_nat i)); [case_decide; congruence|done].
Qed.

Lemma replay_result_of outcome l log i :
  (∀ i, ChannelIndex (outcome i) = Z.of_nat i) →
  result_of i (replay outcome l log) = if decide (i ∈ log) then Some (outcome i) else result_of i l.
Proof.
  intros Hidx. induction log as [|j log IH] using rev_ind; [done|].
  unfold replay. rewrite foldl_snoc. fold (replay outcome l log).
  rewrite record_result_of, Hidx, IH.
  destruct (decide (i = j)) as [->|Hne].
  - rewrite !decide_True by (set_solver || done). done.
  - rewrite decide_False by lia. repeat case_decide; set_solver.
Qed.

(** C33: concurrent status updates serialise.  However the goroutines of a dispatch and other
    writers interleave, the stored results are those of the accepted updates run one after the
    other; a channel shows its own outcome when its update was accepted, and what was stored
    before otherwise. *)
Theorem status_updates_serialize outcome l0 version n b :
  (∀ i, ChannelIndex (outcome i) = Z.of_nat i) →
  rtc (update_step outcome) (start_board l0 version n) b →
  board_list b = replay outcome l0 (board_log b) ∧ NoDup (board_log b) ∧
  ∀ i, result_of i (board_list b) =
       if decide (board_workers b !! i = Some Written) then Some (outcome i) else result_of i l0.
Proof.
  intros Hidx Hb.
  assert (board_ok outcome l0 b) as [Hl Hlog Hnd _].
  { pose proof (start_board_ok outcome l0 version n) as Hok. revert Hok.
    induction Hb as [|x y z Hxy _ IH]; [done|]. intros Hok. apply IH. by eapply update_step_ok. }
  split_and!; [done..|]. intros i. rewrite Hl, replay_result_of by done.
  apply decide_ext, Hlog.
Qed.

(** results of channels get lost.  When two channels fetch the policy before either
    writes it back, the second update conflicts and is dropped (its error is ignored): the
    status keeps what it said about that channel before. *)
Theorem status_update_lost outcome l0 version :
  (∀ i, ChannelIndex (outcome i) = Z.of_nat i) →
  ∃ b, rtc (update_step outcome) (start_board l0 version 2) b ∧
    board_workers b = [Written; Dropped] ∧
    result_of 0 (board_list b) = Some (outcome 0%nat) ∧ result_of 1 (board_list b) = result_of 1 l0.
Proof.
  intros Hidx. eexists. split_and!.
  - eapply rtc_l; [by apply (step_fetch _ 0)|].
    eapply rtc_l; [by apply (step_fetch _ 1)|].
    eapply rtc_l; [by eapply (step_write _ 0)|].
    eapply rtc_l; [by eapply (step_conflict _ 1)|]. apply rtc_refl.
  - done.
  - simpl. rewrite record_result_of, Hidx. done.
  - simpl. rewrite record_result_of, Hidx. done.
Qed.

(** ** What is sent for a run *)
Section runs.
Variable get_team : string → string → get_result SwarmTeam.
Variable get_agent : string → string → get_result SwarmAgent.

(** The policy that the team of the run names, or its agent when it has no team. *)
Definition names_policy (run : SwarmRun) (ref owner : string) : Prop :=
  (TeamRef (Spec run) ≠ "" ∧ owner = TeamRef (Spec run) ∧
   ∃ team, get_team (run_Namespace run) owner = Found team ∧ team_NotifyRef (team_Spec team) = Some ref) ∨
  (TeamRef (Spec run) = "" ∧ Agent (Spec run) ≠ "" ∧ owner = Agent (Spec run) ∧
   ∃ agent obs, get_agent (run_Namespace run) owner = Found agent ∧
     Observability (agent_Spec agent) = Some obs ∧ obs_NotifyRef obs = Some ref).

Lemma resolveNotifyRef_spec run ref owner :
  resolveNotifyRef get_team get_agent run = Some (ref, owner) ↔ names_policy run ref owner.
Proof.
  unfold resolveNotifyRef, names_policy.
  destruct (String.eqb_spec (TeamRef (Spec run)) "") as [Et|Et]; simpl.
  - destruct (String.eqb_spec (Agent (Spec run)) "") as [Ea|Ea]; simpl.
    { split; [done|]. naive_solver. }
    split.
    + destruct (get_agent _ _) as [agent| |e] eqn:G; [|done..].
      destruct (Observability (agent_Spec agent)) as [obs|] eqn:O; [|done]. simpl.
      destruct (obs_NotifyRef obs) as [r|] eqn:R; [|done]. intros [= <- <-]. right. eauto 10.
    + intros [?|(_ & _ & -> & agent & obs & -> & O & R)]; [naive_solver|]. by rewrite O; simpl; rewrite R.
  - split.
    + destruct (get_team _ _) as [team| |e] eqn:G; [|done..].
      destruct (team_NotifyRef (team_Spec team)) as [r|] eqn:R; [|done]. intros [= <- <-]. left. eauto 10.
    + intros [(_ & -> & team & -> & R)|?]; [|naive_solver]. by rewrite R.
Qed.

End runs.

Lemma policyMatchesEvent_spec policy event :
  policyMatchesEvent policy event = true ↔ On (notify_Spec policy) = [] ∨ event ∈ On (notify_Spec policy).
Proof.
  unfold policyMatchesEvent. destruct (On _) as [|e on]; [naive_solver|].
  rewrite bool_decide_eq_true. naive_solver.
Qed.

Lemma send_spec now now' policy key payload rl :
  let '(sent, rl') := send now now' policy key payload rl in
  match sent with
  | Some s => s = (payload, policy) ∧ rl' = <[key := now']> rl ∧
              (On (notify_Spec policy) = [] ∨ key_event key ∈ On (notify_Spec policy)) ∧
              may_send (mkAttempt key (RateLimitSeconds (notify_Spec policy)) now now') (rl !! key)
  | None => rl' = rl ∧
            ¬ ((On (notify_Spec policy) = [] ∨ key_event key ∈ On (notify_Spec policy)) ∧
               may_send (mkAttempt key (RateLimitSeconds (notify_Spec policy)) now now') (rl !! key))
  end.
Proof.
  unfold send. pose proof (policyMatchesEvent_spec policy (key_event key)) as Hm.
  destruct (policyMatchesEvent policy (key_event key)); simpl; [|naive_solver].
  pose proof (rate_limited_spec (mkAttempt key (RateLimitSeconds (notify_Spec policy)) now now') rl) as H.
  simpl in H. unfold rate_limited, record in *.
  destruct (allow now key (RateLimitSeconds (notify_Spec policy)) rl) as [[] rl1] eqn:A.
  - destruct H as [Hv Hk]. split_and!; [done| |by apply Hm|by apply Hv].
    apply map_eq. intros k. rewrite Hk. unfold note_sent. simpl. rewrite lookup_insert.
    repeat case_decide; naive_solver.
  - destruct H as [Hv Hk]. split; [|naive_solver]. apply map_eq. intros k. rewrite Hk.
    unfold note_sent. by rewrite decide_False by naive_solver.
Qed.

(** What must hold for a run to be notified now. *)
Definition run_notified get_notify get_team get_agent (now now' : Z) (run : SwarmRun)
    (rl : notifyRateLimiter) (policy : SwarmNotify) (key : rateLimitKey) : Prop :=
  ∃ ref, names_policy get_team get_agent run ref (key_owner key) ∧
    key_namespace key = run_Namespace run ∧ key_event key = runPhaseToEvent run ∧
    (Phase (Status run) = RunSucceeded ∨ Phase (Status run) = RunFailed) ∧
    get_notify (run_Namespace run) ref = Found policy ∧
    (On (notify_Spec policy) = [] ∨ key_event key ∈ On (notify_Spec policy)) ∧
    may_send (mkAttempt key (RateLimitSeconds (notify_Spec policy)) now now') (rl !! key).

Lemma runPhaseToEvent_unset run :
  runPhaseToEvent run ≠ EventUnset ↔
  Phase (Status run) = RunSucceeded ∨ Phase (Status run) = RunFailed.
Proof. unfold runPhaseToEvent. destruct (Phase _); try case_match; naive_solver. Qed.

(** a run is notified exactly when it is over, the team it belongs to (or its agent, when it
    has none) names a policy that exists and lists the event, and the limiter lets the pair of
    owner and event through; then its payload goes to that policy and the limiter notes the
    time.  Otherwise nothing is sent and the limiter is left as it was. *)
Theorem DispatchRun_spec get_notify get_team get_agent now now' run rl :
  let '(sent, rl') := DispatchRun get_notify get_team get_agent now now' run rl in
  match sent with
  | Some (payload, policy) =>
      ∃ key, run_notified get_notify get_team get_agent now now' run rl policy key ∧
        payload = buildRunPayload run (runPhaseToEvent run) ∧ rl' = <[key := now']> rl
  | None => rl' = rl ∧
      ∀ policy key, ¬ run_notified get_notify get_team get_agent now now' run rl policy key
  end.
Proof.
  unfold DispatchRun, run_notified.
  destruct (resolveNotifyRef get_team get_agent run) as [[ref owner]|] eqn:R.
  2:{ split; [done|]. intros policy key (ref & Hr & _).
      apply resolveNotifyRef_spec in Hr. by rewrite R in Hr. }
  pose proof (proj1 (resolveNotifyRef_spec get_team get_agent run ref owner) R) as Hr.
  pose proof (runPhaseToEvent_unset run) as Hu.
  case_decide as E; [split; [done|]; naive_solver|]. apply Hu in E. unfold send_ref.
  assert (∀ ref' owner', names_policy get_team get_agent run ref' owner' → ref' = ref ∧ owner' = owner) as U.
  { intros ref' owner' H. apply resolveNotifyRef_spec in H. by simplify_eq. }
  destruct (get_notify (run_Namespace run) ref) as [policy| |e] eqn:G;
    [|split; [done|]; intros ? ? (? & [-> _]%U & _ & _ & _ & ? & _); congruence..].
  set (key := mkRateLimitKey _ _ _).
  pose proof (send_spec now now' policy key (buildRunPayload run (runPhaseToEvent run)) rl) as H.
  destruct (send _ _ _ _ _ _) as [[[payload policy']|] rl'].
  - destruct H as ([= -> ->] & -> & Hon & Hmay). exists key. split; [|done]. exists ref. by split_and!.
  - destruct H as [-> Hno]. split; [done|].
    intros p k (r & Hn & Hns & Hev & _ & Hp & Hon & Hmay). destruct (U _ _ Hn) as [-> Ho].
    assert (k = key) as -> by (destruct k; simpl in *; by subst).
    rewrite G in Hp. injection Hp as <-. by apply Hno.
Qed.

(** Documented behaviour of SetStatusCondition on the slice: the new condition is in it, and
    everything else of another type was there before. *)
Class ConditionSlice (C : ConditionApi) : Prop := {
  slice_has : ∀ l c, c ∈ SetStatusCondition l c;
  slice_old : ∀ l c d, d ∈ SetStatusCondition l c → d = c ∨ d ∈ l }.

Lemma list_conditions_slice : ConditionSlice list_conditions.
Proof.
  split; simpl.
  - intros l c. induction l as [|d l IH]; simpl; [set_solver|case_decide; set_solver].
  - intros l c d. induction l as [|d' l IH]; simpl; [set_solver|case_decide; set_solver].
Defined.

Lemma timeout_conditions_spec l :
  existsb timeout_condition l = true ↔ ∃ c, c ∈ l ∧ cond_Type c = "Ready" ∧ cond_Reason c = "Timeout".
Proof.
  rewrite existsb_exists. unfold timeout_condition. setoid_rewrite <- list_elem_of_In.
  setoid_rewrite andb_true_iff. by setoid_rewrite String.eqb_eq.
Qed.

(** a late timeout is reported as a failure.  The controller marks the timeouts it finds
    with the reason the notifier looks for; but the state machine tests the clock a second
    time, and a run whose deadline passes between the two tests is marked with another reason
    and announced as TeamFailed. *)
Theorem late_timeout_reported_as_failure `{conditionApi : ConditionApi, !ConditionSlice conditionApi}
    `{templateApi : TemplateApi, floatText : FloatText} now run data start :
  StartTime (Status run) = Some start → 0 < TimeoutSeconds (Spec run) →
  start + duration_seconds (TimeoutSeconds (Spec run)) < now →
  (∀ c, c ∈ Conditions (Status run) → cond_Reason c ≠ "Timeout") →
  runPhaseToEvent (UpdateRunPipelinePhase now run data) = NotifyOnTeamFailed ∧
  ∀ msg, runPhaseToEvent (SetRunCondition (EnforceRunTimeout run now).2 ConditionFalse "Timeout" msg)
         = NotifyOnTeamTimedOut.
Proof.
  intros Hs Ht Hd Hc. unfold UpdateRunPipelinePhase, EnforceRunTimeout. rewrite Hs.
  destruct (Z.leb_spec (TimeoutSeconds (Spec run)) 0); [lia|].
  destruct (Z.ltb_spec (start + duration_seconds (TimeoutSeconds (Spec run))) now); [|lia].
  unfold runPhaseToEvent. simpl. split.
  - match goal with |- context [existsb _ ?l] => destruct (existsb timeout_condition l) eqn:E end; [|done].
    apply timeout_conditions_spec in E as (c & [->|Hin]%slice_old & _ & Hr); [done|].
    by apply Hc in Hin.
  - intros msg.
    match goal with |- context [existsb _ ?l] => assert (existsb timeout_condition l = true) as -> end; [|done].
    apply timeout_conditions_spec. eexists. split; [apply slice_has|done].
Qed.

(** budget alerts look for their secrets in the wrong place.  The secrets of a channel are
    read in the namespace of the payload, which for a budget is the one its selector names:
    with an empty selector (all namespaces, in the API's words) a Slack alert cannot be
    delivered, whatever namespace the policy and its secret are in. *)
Theorem budget_alert_undeliverable `{NotifyWorld W} now now' budget decision event policy rl
    payload policy' rl' ch slack s :
  DispatchBudget now now' budget decision event policy rl = (Some (payload, policy'), rl') →
  selector_Namespace (budget_Selector (budget_Spec budget)) = "" →
  (∀ name w, ∃ e, get_secret "" name w = (Err e, w)) →
  channel_Type ch = NotifyChannelSlack → channel_Slack ch = Some slack →
  ∃ e s', deliver payload ch s = (Some e, s').
Proof.
  intros Hb Hns Hsec Ht Hsl.
  assert (payload_Namespace payload = "") as Hp.
  { unfold DispatchBudget in Hb. pose proof (send_spec now now' policy) as Hspec.
    match type of Hb with send _ _ _ ?k ?p _ = _ => specialize (Hspec k p rl) end.
    rewrite Hb in Hspec. destruct Hspec as ([= -> _] & _). done. }
  assert (∀ s, ∃ e s', dispatch_once payload ch s = (Some e, s')) as Hone.
  { intros s1. unfold dispatch_once, dispatchSlack, secret_value. rewrite Ht, Hsl, Hp.
    destruct (Hsec (secret_Name (WebhookURLFrom slack)) (sender_world s1)) as [e ->]. eauto. }
  unfold deliver. generalize [0; 1; 2] as left. intros left. generalize "" as err. revert s.
  induction left as [|n left IH]; intros s err; simpl; [eauto|].
  destruct (Hone (if n >? 0 then sleep (n * n * second) s else s)) as (e & s' & ->). apply IH.
Qed.

(** The literal URL of a channel wins over the secret, which the API says takes precedence. *)
Lemma webhook_literal_url_wins `{NotifyWorld W} ns hook s :
  channel_URL hook ≠ "" → webhook_url ns hook s = (Ok (channel_URL hook), s).
Proof.
  intros Hu. unfold webhook_url. destruct (String.eqb_spec (channel_URL hook) ""); [done|].
  destruct (channel_URLFrom hook); simpl; by rewrite (proj2 (String.eqb_neq _ _)).
Qed.

(** What the payload keeps of the output. *)
Lemma cap_output_spec o :
  str_len (cap_output o) ≤ 503 ∧ (str_len o ≤ 500 → cap_output o = o) ∧
  (500 < str_len o → cap_output o = str_take 500 o +:+ "...").
Proof.
  unfold cap_output, str_len. destruct (Z.gtb_spec (Z.of_nat (String.length o)) 500).
  - split_and!; [|lia|done]. rewrite str_app_length, str_take_length by lia. simpl. lia.
  - split_and!; [lia|done|lia].
Qed.

(** ** Witnesses: a world that counts requests, without secrets *)
#[local] Instance toy_notify_world : NotifyWorld nat := {
  get_secret ns name w := (Err "not found", w);
  http_Do req w := (Ok 200, S w);
  time_Sleep d w := w;
  bad_request method url := None;
  marshal_payload p := Ok (payload_Message p);
  marshal_slack text := Ok text;
  notify_Template := string;
  notify_Parse text := Ok text;
  notify_Execute tmpl p := Ok (tmpl +:+ payload_Message p) }.

#[local] Instance toy_request_count : RequestCount (W := nat) (λ w, w).
Proof. by split. Qed.

Definition toy_key : rateLimitKey := mkRateLimitKey "ns" "team" NotifyOnTeamFailed.
Definition toy_attempts : list attempt :=
  [mkAttempt toy_key 300 0 0; mkAttempt toy_key 300 second second;
   mkAttempt toy_key 300 (301 * second) (301 * second)].

Lemma notifications_spaced_witness :
  (limiter_run newNotifyRateLimiter toy_attempts).1 = [true; false; true] ∧
  300 * second ≤ 301 * second - 0.
Proof.
  split; [by vm_compute|].
  apply (notifications_spaced toy_attempts 0 2 (mkAttempt toy_key 300 0 0)
           (mkAttempt toy_key 300 (301 * second) (301 * second))); try done; [|lia].
  intros i j a b Hij Ha Hb.
  destruct i as [|[|[|i]]]; [..|done]; destruct j as [|[|[|j]]]; try lia; try done;
    simpl in *; simplify_eq; simpl; unfold second; lia.
Defined.

Definition toy_hook : NotifyChannelSpec :=
  mkNotifyChannelSpec NotifyChannelWebhook
    (Some (mkWebhookChannelSpec "http://hook" None "" [mkWebhookHeader "x-token" "t" None])) None "T".

Lemma deliver_ignores_cache_witness :
  (deliver empty_payload toy_hook (mkSender {["T" := "T"]} 0%nat)).1 = None ∧
  let '(r, s') := deliver empty_payload toy_hook (mkSender {["T" := "T"]} 0%nat) in
  let '(r0, s0) := deliver empty_payload toy_hook (mkSender ∅ 0%nat) in
  r = r0 ∧ sender_world s' = sender_world s0 ∧ cache_ok s'.
Proof.
  split; [by vm_compute|]. apply (deliver_ignores_cache empty_payload toy_hook).
  intros text tmpl H. simpl in H. apply lookup_singleton_Some in H as [<- <-]. done.
Defined.

Lemma deliver_requests_bounded_witness :
  let '(r, s') := deliver empty_payload toy_hook (mkSender ∅ 5%nat) in
  (5 ≤ sender_world s' ≤ 8)%nat ∧ (r = None → (5 < sender_world s')%nat).
Proof. apply (deliver_requests_bounded (W := nat) (λ w, w) empty_payload toy_hook (mkSender ∅ 5%nat)). Defined.

Definition toy_outcome (i : nat) : NotifyDispatchResult :=
  dispatch_result 7 (Z.of_nat i) NotifyOnTeamFailed (if decide (i = 0%nat) then None else Some "down").

Lemma status_updates_serialize_witness :
  ∃ b, rtc (update_step toy_outcome) (start_board [] 0 1) b ∧ board_log b = [0%nat] ∧
    board_list b = replay toy_outcome [] (board_log b) ∧ NoDup (board_log b) ∧
    ∀ i, result_of i (board_list b) =
         if decide (board_workers b !! i = Some Written) then Some (toy_outcome i) else result_of i [].
Proof.
  assert (∃ b, rtc (update_step toy_outcome) (start_board [] 0 1) b ∧ board_log b = [0%nat])
    as (b & Hb & Hlog).
  { eexists. split; [|shelve]. eapply rtc_l; [by apply (step_fetch _ 0)|].
    eapply rtc_l; [by eapply (step_write _ 0)|]. apply rtc_refl. Unshelve. done. }
  exists b. split; [done|]. split; [done|].
  by apply (status_updates_serialize toy_outcome [] 0 1 b).
Defined.

Lemma status_update_lost_witness :
  ∃ b, rtc (update_step toy_outcome) (start_board [] 3 2) b ∧
    board_workers b = [Written; Dropped] ∧
    result_of 0 (board_list b) = Some (toy_outcome 0%nat) ∧ result_of 1 (board_list b) = result_of 1 [].
Proof. by apply (status_update_lost toy_outcome [] 3). Defined.

Definition late_run : SwarmRun :=
  mkSwarmRun "run" "ns" 1 (mkSwarmRunSpec "team" "" "" 0 ∅ "" [] None [] "" None None 10 0)
    (mkSwarmRunStatus RunRunning [] "" (Some 0) None None "" None 0 []).

Lemma late_timeout_reported_as_failure_witness :
  runPhaseToEvent (UpdateRunPipelinePhase (conditionApi := list_conditions)
    (templateApi := toy_template) (floatText := toy_float) (11 * second) late_run ANil)
    = NotifyOnTeamFailed ∧
  ∀ msg, runPhaseToEvent (SetRunCondition (conditionApi := list_conditions)
    (EnforceRunTimeout (conditionApi := list_conditions) late_run (11 * second)).2
    ConditionFalse "Timeout" msg) = NotifyOnTeamTimedOut.
Proof.
  pose proof list_conditions_slice as L.
  apply (late_timeout_reported_as_failure (conditionApi := list_conditions) (11 * second) late_run ANil 0);
    [done|done|by vm_compute|]. intros c Hc. by apply not_elem_of_nil in Hc.
Defined.

Definition toy_policy : SwarmNotify :=
  mkSwarmNotify "policy" "ns" 1 None ∅
    (mkSwarmNotifySpec [] [mkNotifyChannelSpec NotifyChannelSlack None
       (Some (mkSlackChannelSpec (mkSecretKeySelector "slack" "url"))) ""] 300)
    (mkSwarmNotifyStatus [] 1 []).
Definition all_teams_budget : SwarmBudget :=
  mkSwarmBudget "b" "ns" 1 (mkSwarmBudgetSpec (mkSwarmBudgetSelector "" "") "daily" "10" "USD" 80 true (Some "policy"))
    (mkSwarmBudgetStatus BudgetExceeded "" "" None None 1 []).

Definition slack_channel : NotifyChannelSpec :=
  mkNotifyChannelSpec NotifyChannelSlack None
    (Some (mkSlackChannelSpec (mkSecretKeySelector "slack" "url"))) "".
Definition toy_alert : option (NotifyPayload * SwarmNotify) * notifyRateLimiter :=
  DispatchBudget 0 0 all_teams_budget
    (mkBudgetDecision BudgetExceeded f64_zero f64_zero f64_zero "over") NotifyOnBudgetExceeded
    toy_policy ∅.

Lemma budget_alert_undeliverable_witness :
  ∃ payload e s', toy_alert.1 = Some (payload, toy_policy) ∧
    deliver payload slack_channel (mkSender ∅ 0%nat) = (Some e, s').
Proof.
  assert (snd <$> toy_alert.1 = Some toy_policy) as Hp by (vm_compute; reflexivity).
  destruct toy_alert as [[[payload policy]|] rl] eqn:E; [|done].
  simpl in Hp. injection Hp as ->.
  exists payload.
  destruct (budget_alert_undeliverable (W := nat) 0 0 all_teams_budget _ _ toy_policy ∅ payload
    toy_policy rl slack_channel (mkSlackChannelSpec (mkSecretKeySelector "slack" "url"))
    (mkSender ∅ 0%nat) E) as (e & s' & H); [done|by eexists|done|done|]. by exists e, s'.
Defined.
