(* ===== verification/NotifyController.v ===== *)
(** * NotifyController: the acceptance of notification policies
    (internal/controller/swarmnotify_controller.go), with the test notification the dashboard
    asks for by an annotation. *)
From Stdlib Require Import ZArith Lia.
From stdpp Require Import base tactics option list strings gmap.
From S2P Require Import Prelude GoStd Types Costs AgentTypes Kube Notify NotifyProps.

Definition test_trigger : string := "kubeswarm/test-trigger".

Definition channel_label (i : Z) : string := "channel[" +:+ itoa i +:+ "]".

(** What is missing in a channel. *)
Definition channel_problem (i : Z) (ch : NotifyChannelSpec) : option string :=
  match channel_Type ch with
  | NotifyChannelWebhook =>
      match channel_Webhook ch with
      | None => Some (channel_label i +:+ " type=webhook but webhook config is missing")
      | Some hook =>
          if String.eqb (channel_URL hook) "" && bool_decide (channel_URLFrom hook = None)
          then Some (channel_label i +:+ " webhook requires url or urlFrom") else None
      end
  | NotifyChannelSlack =>
      match channel_Slack ch with
      | None => Some (channel_label i +:+ " type=slack but slack config is missing")
      | Some _ => None
      end
  | OtherChannel _ => None
  end.

Fixpoint first_problem (i : Z) (chs : list NotifyChannelSpec) : option string :=
  match chs with
  | [] => None
  | ch :: rest => match channel_problem i ch with
                  | Some msg => Some msg
                  | None => first_problem (i + 1) rest
                  end
  end.

(** What a reconciliation does: the test it sends, the object it patches, the object whose
    status it writes, and its error. *)
Record outcome := mkOutcome {
  o_test : option (NotifyPayload * SwarmNotify);
  o_patched : option SwarmNotify;
  o_written : option SwarmNotify;
  o_err : option string }.

Section reconcile.
Context {conditionApi : ConditionApi}.
Variable has_dispatcher : bool.
(** The API server's answer to a patch: the object as stored, and the error of an update. *)
Variable patch : SwarmNotify → result string SwarmNotify.
Variable update_error : SwarmNotify → option string.

Definition accepted (notify : SwarmNotify) : bool :=
  (notify_ObservedGeneration (notify_Status notify) =? notify_Generation notify) &&
  match FindStatusCondition (notify_Conditions (notify_Status notify)) "Ready" with
  | Some c => bool_decide (cond_Status c = ConditionTrue) && String.eqb (cond_Reason c) "Accepted"
  | None => false
  end.

Definition set_ready (notify : SwarmNotify) (status : ConditionStatus) (reason msg : string) : SwarmNotify :=
  notify <| notify_Status ::= λ s, s <| notify_Conditions ::= λ l,
    setCondition l (notify_Generation notify) "" status reason msg |> |>.

Definition observe (notify : SwarmNotify) : SwarmNotify :=
  notify <| notify_Status ::= λ s, s <| notify_ObservedGeneration := notify_Generation notify |> |>.

(** The validation of the channels and the write of the status. *)
Definition validate (notify : SwarmNotify) : option SwarmNotify :=
  match first_problem 0 (Channels (notify_Spec notify)) with
  | Some msg => Some (set_ready notify ConditionFalse "InvalidChannelConfig" msg)
  | None =>
      if accepted notify then None
      else Some (set_ready (observe notify) ConditionTrue "Accepted" "SwarmNotify policy is valid")
  end.

Definition conclude (test : option (NotifyPayload * SwarmNotify)) (patched : option SwarmNotify)
    (notify : SwarmNotify) : outcome :=
  let written := validate notify in
  mkOutcome test patched written (w ← written; update_error w).

Definition Reconcile (got : get_result SwarmNotify) : outcome :=
  match got with
  | NotFound => mkOutcome None None None None
  | GetFailed e => mkOutcome None None None (Some e)
  | Found notify =>
      match notify_DeletionTimestamp notify with
      | Some _ => mkOutcome None None None None
      | None =>
          match notify_Annotations notify !! test_trigger with
          | None => conclude None None notify
          | Some _ =>
              let test := if has_dispatcher then Some (DispatchTest notify) else None in
              let wanted := notify <| notify_Annotations ::= delete test_trigger |> in
              match patch wanted with
              | Err e => mkOutcome test (Some wanted) None (Some e)
              | Ok notify => conclude test (Some wanted) notify
              end
          end
      end
  end.

(** ** Theorems *)
#[local] Arguments setCondition : simpl never.
(** A channel has what its delivery needs. *)
Definition channel_ready (ch : NotifyChannelSpec) : Prop :=
  match channel_Type ch with
  | NotifyChannelWebhook => ∃ hook, channel_Webhook ch = Some hook ∧
      (channel_URL hook ≠ "" ∨ channel_URLFrom hook ≠ None)
  | NotifyChannelSlack => channel_Slack ch ≠ None
  | OtherChannel _ => True
  end.

Lemma channel_problem_None i ch : channel_problem i ch = None ↔ channel_ready ch.
Proof.
  unfold channel_problem, channel_ready. destruct (channel_Type ch); [| |done].
  - destruct (channel_Webhook ch) as [hook|]; [|split; [done|by intros (? & ? & _)]].
    destruct (String.eqb_spec (channel_URL hook) "") as [E|E]; simpl.
    + case_bool_decide as F; simpl; split; try done; [by intros (h & [= <-] & [?|?])|].
      intros _. exists hook. auto.
    + split; [|done]. intros _. exists hook. auto.
  - destruct (channel_Slack ch); naive_solver.
Qed.

Lemma first_problem_None i chs : first_problem i chs = None ↔ Forall channel_ready chs.
Proof.
  revert i. induction chs as [|ch chs IH]; intros i; simpl; [naive_solver|].
  rewrite Forall_cons, <- (channel_problem_None i). destruct (channel_problem i ch); naive_solver.
Qed.

(** The Ready condition that a reader of the object sees after a reconciliation. *)
Definition shown (notify : SwarmNotify) (out : outcome) : option StatusCondition :=
  FindStatusCondition (notify_Conditions (notify_Status (default notify (o_written out)))) "Ready".

(** a policy is accepted exactly when it can be delivered.  After the reconciliation of a
    policy the Ready condition is true with reason Accepted exactly when every webhook channel
    has a URL or a secret for it and every Slack channel its secret; an accepted generation
    is observed, and reconciling what was written then writes nothing more. *)
Theorem Reconcile_accepts `{!ConditionLaws conditionApi} notify :
  notify_DeletionTimestamp notify = None → notify_Annotations notify !! test_trigger = None →
  let out := Reconcile (Found notify) in
  let stored := default notify (o_written out) in
  (Forall channel_ready (Channels (notify_Spec notify)) ↔
   ∃ c, shown notify out = Some c ∧ cond_Status c = ConditionTrue ∧ cond_Reason c = "Accepted") ∧
  (Forall channel_ready (Channels (notify_Spec notify)) →
   notify_ObservedGeneration (notify_Status stored) = notify_Generation notify ∧
   o_written (Reconcile (Found stored)) = None).
Proof.
  intros Hd Ha out stored. unfold shown. fold stored. rewrite <- (first_problem_None 0).
  subst stored out. unfold Reconcile. rewrite Hd, Ha. simpl. unfold validate.
  destruct (first_problem 0 (Channels (notify_Spec notify))) as [msg|] eqn:P; simpl.
  { rewrite setCondition_ready. split; [|done]. split; [done|]. by intros (c & [= <-] & ? & _). }
  destruct (accepted notify) eqn:Ac; simpl.
  - pose proof Ac as Ac'. unfold accepted in Ac'. apply andb_true_iff in Ac' as [Hg Hc].
    apply Z.eqb_eq in Hg. destruct (FindStatusCondition _ _) as [c|]; [|done].
    apply andb_true_iff in Hc as [Hst Hr]. apply bool_decide_eq_true in Hst. apply String.eqb_eq in Hr.
    rewrite Hd, Ha. unfold conclude, validate. simpl. rewrite P, Ac. naive_solver.
  - rewrite setCondition_ready. split; [split; eauto|]. intros _. split; [done|].
    rewrite Hd, Ha. unfold conclude, validate. simpl. rewrite P.
    assert (accepted (set_ready (observe notify) ConditionTrue "Accepted" "SwarmNotify policy is valid")
            = true) as ->; [|done].
    unfold accepted. simpl. rewrite setCondition_ready. simpl. by rewrite Z.eqb_refl.
Qed.

(** A test that cannot be cleared is sent again: the notification goes out before the
    annotation is removed, so every retry after a failed patch repeats it. *)
Lemma test_repeats notify e :
  notify_DeletionTimestamp notify = None → is_Some (notify_Annotations notify !! test_trigger) →
  has_dispatcher = true → (∀ n, patch n = Err e) →
  o_test (Reconcile (Found notify)) = Some (DispatchTest notify) ∧
  o_written (Reconcile (Found notify)) = None ∧ o_err (Reconcile (Found notify)) = Some e.
Proof. intros Hd [v Ha] Hn Hp. unfold Reconcile. by rewrite Hd, Ha, Hn, Hp. Qed.
End reconcile.

(** An accepted policy is delivered as far as the configuration goes: the URL of a webhook with
    a literal one is found without any secret. *)
Lemma accepted_webhook_url `{NotifyWorld W} ch ns (s : sender) :
  channel_ready ch → channel_Type ch = NotifyChannelWebhook →
  ∃ hook, channel_Webhook ch = Some hook ∧
    (channel_URL hook ≠ "" → webhook_url ns hook s = (Ok (channel_URL hook), s)) ∧
    (channel_URL hook = "" → ∃ ref, channel_URLFrom hook = Some ref).
Proof.
  unfold channel_ready. intros Hr Ht. rewrite Ht in Hr. destruct Hr as (hook & Hh & Hu).
  exists hook. split_and!; [done|apply webhook_literal_url_wins|].
  intros E. destruct Hu as [?|Hu]; [done|]. by apply not_eq_None_Some in Hu.
Qed.

Lemma Reconcile_accepts_witness :
  shown (conditionApi := list_conditions) toy_policy (Reconcile (conditionApi := list_conditions) true Ok (λ _, None) (Found toy_policy))
    = Some (mkCondition "Ready" ConditionTrue 1 "Accepted" "SwarmNotify policy is valid") ∧
  notify_ObservedGeneration (notify_Status (default toy_policy
    (o_written (Reconcile (conditionApi := list_conditions) true Ok (λ _, None) (Found toy_policy))))) = 1.
Proof.
  pose proof list_conditions_laws as L. split; [by vm_compute|].
  destruct (Reconcile_accepts (conditionApi := list_conditions) true Ok (λ _, None) toy_policy)
    as [_ H]; [done|by vm_compute|]. apply H. by repeat constructor.
Defined.
