(* ===== verification/BudgetController.v ===== *)
(** * BudgetController: the status of budgets and their alerts
    (internal/controller/swarmbudget_controller.go).

    A reconciliation is a function of the object read, the clocks, the spend store and the
    answers of the API server; its outcome says what is written, what is sent and when it is
    run again.  Audit records and log lines are left out. *)
From Stdlib Require Import ZArith Lia.
From stdpp Require Import base tactics option list strings gmap.
From S2P Require Import Prelude GoStd Types Costs AgentTypes Kube Admission Notify NotifyProps.

Definition budgetRequeueAfter : Z := 5 * 60 * second.

Module Budget.
Record outcome := mkOutcome {
  o_requeue : option Z;
  o_written : option SwarmBudget;
  o_alert : option (NotifyPayload * SwarmNotify);
  o_limiter : notifyRateLimiter;
  o_err : option string }.

Section reconcile.
Context {floatText : FloatText} {conditionApi : ConditionApi}.

(** The clocks: of the policy, of the status and of the period, and of the limiter. *)
Record clocks := mkClocks {
  t_policy : Z; t_status : Z; t_period : Z; t_check : Z; t_record : Z }.

Variables (policy : option budget_policy) (store : option store_total).
(** The error of a status update, if any. *)
Variable update_error : SwarmBudget → option string.
Variable has_notifier : bool.
Variable get_notify : string → string → get_result SwarmNotify.

Definition ready_reason (d : BudgetStatus) : ConditionStatus * string :=
  match d with
  | BudgetExceeded => (ConditionFalse, "BudgetExceeded")
  | BudgetWarning => (ConditionFalse, "BudgetWarning")
  | _ => (ConditionTrue, "BudgetOK")
  end.

Definition setBudgetCondition (budget : SwarmBudget) (conds : list StatusCondition)
    (decision : BudgetDecision) : list StatusCondition :=
  let '(status, reason) := ready_reason (decision_Status decision) in
  setCondition conds (budget_Generation budget) "" status reason (decision_Message decision).

(** The event of a transition; [None] when nothing is announced. *)
Definition transition_event (prevPhase newPhase : BudgetStatus) : option NotifyEvent :=
  if bool_decide (newPhase = prevPhase) then None
  else match newPhase with
       | BudgetExceeded => Some NotifyOnBudgetExceeded
       | BudgetWarning => Some NotifyOnBudgetWarning
       | _ => None
       end.

Definition maybeNotify (t : clocks) (budget : SwarmBudget) (ref : string) (prevPhase : BudgetStatus)
    (decision : BudgetDecision) (rl : notifyRateLimiter)
    : option (NotifyPayload * SwarmNotify) * notifyRateLimiter :=
  match transition_event prevPhase (decision_Status decision) with
  | None => (None, rl)
  | Some event =>
      match get_notify (budget_Namespace budget) ref with
      | Found p => DispatchBudget (t_check t) (t_record t) budget decision event p rl
      | _ => (None, rl)
      end
  end.

(** The scope of a budget: the namespace of the selector, or its own. *)
Definition budget_scope (budget : SwarmBudget) : string :=
  let ns := selector_Namespace (budget_Selector (budget_Spec budget)) in
  if String.eqb ns "" then budget_Namespace budget else ns.

Definition reconcile_input (budget : SwarmBudget) (limit : f64) : BudgetInput :=
  mkBudgetInput (budget_scope budget) (selector_Team (budget_Selector (budget_Spec budget)))
    (period_of (budget_Period (budget_Spec budget))) limit (budget_WarnAt (budget_Spec budget)) false.

Definition next_period_start (old : option Z) (start : Z) : option Z :=
  match old with
  | None => Some start
  | Some p => if p <? start then Some start else Some p
  end.

(** The object with its new status. *)
Definition with_decision (t : clocks) (budget : SwarmBudget) (decision : BudgetDecision) : SwarmBudget :=
  let start := PeriodWindowStart (t_period t) (period_of (budget_Period (budget_Spec budget))) in
  budget <| budget_Status :=
    mkSwarmBudgetStatus (decision_Status decision) (FormatFixed 6 (SpentUSD decision))
      (FormatFixed 6 (PctUsed decision))
      (next_period_start (PeriodStart (budget_Status budget)) start) (Some (t_status t))
      (budget_Generation budget)
      (setBudgetCondition budget (budget_Conditions (budget_Status budget)) decision) |>.

Definition later (rl : notifyRateLimiter) : outcome :=
  mkOutcome (Some budgetRequeueAfter) None None rl None.

Definition Reconcile (t : clocks) (got : get_result SwarmBudget) (rl : notifyRateLimiter) : outcome :=
  match got with
  | NotFound => mkOutcome None None None rl None
  | GetFailed e => mkOutcome None None None rl (Some e)
  | Found budget =>
      match store, ParseFloat (budget_Limit (budget_Spec budget)) with
      | None, _ | _, None => later rl
      | Some total, Some limit =>
          match default (StandardBudgetPolicy_Evaluate (t_policy t)) policy
                  (reconcile_input budget limit) total with
          | Err _ => later rl
          | Ok decision =>
              let prevPhase := budget_Phase (budget_Status budget) in
              let budget := with_decision t budget decision in
              match update_error budget with
              | Some e => mkOutcome None (Some budget) None rl (Some ("updating budget status: " +:+ e))
              | None =>
                  let '(alert, rl) :=
                    match budget_NotifyRef (budget_Spec budget) with
                    | Some ref => if has_notifier then maybeNotify t budget ref prevPhase decision rl
                                  else (None, rl)
                    | None => (None, rl)
                    end in
                  mkOutcome (Some budgetRequeueAfter) (Some budget) alert rl None
              end
          end
      end
  end.
End reconcile.
End Budget.

(** ** Theorems on budgets *)
Module BudgetProps.
Import Budget.

Section props.
Context {floatText : FloatText} {conditionApi : ConditionApi}.

(** The object that a reconciliation writes, and why. *)
Lemma Reconcile_written policy store upd notifier get t got rl b' :
  o_written (Reconcile policy store upd notifier get t got rl) = Some b' ↔
  ∃ budget total limit decision, got = Found budget ∧ store = Some total ∧
    ParseFloat (budget_Limit (budget_Spec budget)) = Some limit ∧
    default (StandardBudgetPolicy_Evaluate (t_policy t)) policy (reconcile_input budget limit) total
      = Ok decision ∧ b' = with_decision t budget decision.
Proof.
  unfold Reconcile, later. split.
  - destruct got as [budget| |e]; simpl; [|done..].
    destruct store as [total|]; simpl; [|done].
    destruct (ParseFloat _) as [limit|] eqn:P; simpl; [|done].
    destruct (default (StandardBudgetPolicy_Evaluate (t_policy t)) policy _ _) as [d|e] eqn:D; simpl; [|done].
    destruct (upd _); [|case_match]; simpl; intros [= <-]; by exists budget, total, limit, d.
  - intros (budget & total & limit & d & -> & -> & -> & -> & ->).
    destruct (upd _); [done|]. by case_match.
Qed.

Lemma next_period_start_spec old start :
  ∃ p, next_period_start old start = Some p ∧ start ≤ p ∧ (∀ q, old = Some q → q ≤ p) ∧
       (p = start ∨ old = Some p).
Proof.
  unfold next_period_start. destruct old as [q|]; [|exists start; naive_solver lia].
  destruct (Z.ltb_spec q start); [exists start|exists q]; naive_solver lia.
Qed.

(** what a reconciliation writes.  With the standard policy the phase is Exceeded exactly
    when the limit is positive and reached by the spend of the scope in the period, Warning
    exactly when it is not exceeded and the percentage reaches the threshold, OK otherwise;
    the Ready condition is true exactly in phase OK; the recorded start of the period is
    never before the current window's and never goes back. *)
Theorem budget_status_correct `{!ConditionLaws conditionApi} upd notifier get t budget total limit spent rl :
  ParseFloat (budget_Limit (budget_Spec budget)) = Some limit →
  total (mkSpendScope (budget_scope budget) (selector_Team (budget_Selector (budget_Spec budget))) "")
    (PeriodWindowStart (t_policy t) (period_of (budget_Period (budget_Spec budget)))) = Ok spent →
  let warn := budget_WarnAt (budget_Spec budget) in
  let pct := if f64_ltb f64_zero limit then f64_mul (f64_div spent limit) (f64_of_Z 100) else f64_zero in
  ∃ b, o_written (Reconcile None (Some total) upd notifier get t (Found budget) rl) = Some b ∧
    let st := budget_Status b in
    (budget_Phase st = BudgetExceeded ↔ f64_ltb f64_zero limit = true ∧ f64_leb limit spent = true) ∧
    (budget_Phase st = BudgetWarning ↔
       budget_Phase st ≠ BudgetExceeded ∧ 0 < warn ∧ f64_leb (f64_of_Z warn) pct = true) ∧
    budget_Phase st ≠ BudgetUnset ∧
    (∃ c, FindStatusCondition (budget_Conditions st) "Ready" = Some c ∧
       (cond_Status c = ConditionTrue ↔ budget_Phase st = BudgetOK)) ∧
    (∃ p, PeriodStart st = Some p ∧
       PeriodWindowStart (t_period t) (period_of (budget_Period (budget_Spec budget))) ≤ p ∧
       ∀ q, PeriodStart (budget_Status budget) = Some q → q ≤ p).
Proof.
  intros Hl Hs warn pct.
  set (over := f64_ltb f64_zero limit && f64_leb limit spent).
  set (near := (warn >? 0) && f64_leb (f64_of_Z warn) pct).
  assert (∃ d, StandardBudgetPolicy_Evaluate (t_policy t) (reconcile_input budget limit) total = Ok d ∧
    decision_Status d = if over then BudgetExceeded else if near then BudgetWarning else BudgetOK)
    as (d & Hd & Hst).
  { unfold StandardBudgetPolicy_Evaluate, reconcile_input.
    cbn [input_Namespace input_Team input_Period Limit WarnAt]. rewrite Hs. fold warn. fold pct over near.
    destruct over; [|destruct near]; (eexists; split; [reflexivity|done]). }
  exists (with_decision t budget d). split; [apply Reconcile_written; by exists budget, total, limit, d|].
  simpl. rewrite Hst.
  assert (over = true ↔ f64_ltb f64_zero limit = true ∧ f64_leb limit spent = true) as Ho by apply andb_true_iff.
  assert (near = true ↔ 0 < warn ∧ f64_leb (f64_of_Z warn) pct = true) as Hn.
  { unfold near. rewrite andb_true_iff, Z.gtb_lt. done. }
  clearbody over near. split_and!.
  - rewrite <- Ho. destruct over; [done|]. by destruct near.
  - rewrite <- Hn. destruct over; [naive_solver|]. destruct near; naive_solver.
  - destruct over; [|destruct near]; done.
  - unfold setBudgetCondition, ready_reason. rewrite Hst.
    destruct over; [|destruct near]; (eexists; split; [apply setCondition_ready|done]).
  - destruct (next_period_start_spec (PeriodStart (budget_Status budget))
      (PeriodWindowStart (t_period t) (period_of (budget_Period (budget_Spec budget))))) as (p & Hp & ? & ? & _).
    by exists p.
Qed.

(** What a transition announces. *)
Lemma transition_event_spec prev new event :
  transition_event prev new = Some event ↔
  new ≠ prev ∧ ((new = BudgetExceeded ∧ event = NotifyOnBudgetExceeded) ∨
                (new = BudgetWarning ∧ event = NotifyOnBudgetWarning)).
Proof. unfold transition_event. case_bool_decide; [naive_solver|]. destruct new; naive_solver. Qed.

(** When an alert is due: the update of the status went through, the phase changed to
    Warning or Exceeded, and the policy of the budget takes the event now. *)
Definition alert_due policy store upd (notifier : bool) get t budget rl b p event : Prop :=
  o_written (Reconcile policy store upd notifier get t (Found budget) rl) = Some b ∧
  upd b = None ∧ notifier = true ∧
  budget_Phase (budget_Status b) ≠ budget_Phase (budget_Status budget) ∧
  ((budget_Phase (budget_Status b) = BudgetExceeded ∧ event = NotifyOnBudgetExceeded) ∨
   (budget_Phase (budget_Status b) = BudgetWarning ∧ event = NotifyOnBudgetWarning)) ∧
  (∃ ref, budget_NotifyRef (budget_Spec budget) = Some ref ∧ get (budget_Namespace budget) ref = Found p) ∧
  (On (notify_Spec p) = [] ∨ event ∈ On (notify_Spec p)) ∧
  let key := mkRateLimitKey (budget_Namespace budget) (budget_Name budget) event in
  may_send (mkAttempt key (RateLimitSeconds (notify_Spec p)) (t_check t) (t_record t)) (rl !! key).

Lemma Reconcile_sends policy store upd notifier get t budget rl payload p :
  let out := Reconcile policy store upd notifier get t (Found budget) rl in
  o_alert out = Some (payload, p) →
  ∃ b event, alert_due policy store upd notifier get t budget rl b p event ∧
    payload_Event payload = event ∧
    payload_Phase payload = budget_phase_string (budget_Phase (budget_Status b)) ∧
    o_limiter out = <[mkRateLimitKey (budget_Namespace budget) (budget_Name budget) event := t_record t]> rl.
Proof.
  intros out Ha. subst out. unfold alert_due, Reconcile, later in *.
  destruct store as [total|]; simpl in *; [|done].
  destruct (ParseFloat _) as [limit|]; simpl in *; [|done].
  destruct (default (StandardBudgetPolicy_Evaluate (t_policy t)) policy _ _) as [d|e]; simpl in *; [|done].
  destruct (upd _) eqn:Hu; simpl in *; [done|].
  destruct (budget_NotifyRef (budget_Spec budget)) as [ref|]; simpl in *; [|done].
  destruct notifier; simpl in *; [|done]. unfold maybeNotify in *.
  destruct (transition_event _ _) as [event|] eqn:T; simpl in *; [|done].
  apply transition_event_spec in T as [Hne Hev].
  destruct (get (budget_Namespace budget) ref) as [p'| |e] eqn:G; simpl in *; [|done..].
  unfold DispatchBudget in *.
  match type of Ha with context [send ?a ?b ?c ?k ?x ?l] => pose proof (send_spec a b c k x l) as H;
    destruct (send a b c k x l) as [[s|] rl'] eqn:E end; simpl in *; [|done].
  injection Ha as ->. destruct H as ([= -> ->] & -> & Hon & Hmay).
  exists (with_decision t budget d), event. split_and!; eauto.
Qed.

(** when an alert is sent.  A reconciliation sends an alert through a policy exactly when
    its status update went through, the stored phase differs from the one before and is Warning
    or Exceeded, and the policy is the one the budget names, lists the event and is not held
    back by the limiter; the payload then has the event and the new phase. *)
Theorem Reconcile_alert policy store upd notifier get t budget rl p :
  let out := Reconcile policy store upd notifier get t (Found budget) rl in
  (∃ payload, o_alert out = Some (payload, p)) ↔
  ∃ b event, alert_due policy store upd notifier get t budget rl b p event.
Proof.
  simpl. split.
  - intros [payload (b & event & H & _)%Reconcile_sends]. eauto.
  - intros (b & event & Hw & Hu & -> & Hne & Hev & (ref & Hr & Hg) & Hon & Hmay).
    pose proof Hw as Hw'. apply Reconcile_written in Hw' as (? & total & limit & d & [= <-] & -> & Hl & Hd & ->).
    unfold Reconcile. rewrite Hl, Hd, Hu, Hr. simpl in *. unfold maybeNotify.
    rewrite (proj2 (transition_event_spec _ _ event) (conj Hne Hev)). simpl. rewrite Hg.
    unfold DispatchBudget.
    match goal with |- context [send ?a ?b ?c ?k ?x ?l] => pose proof (send_spec a b c k x l) as H;
      destruct (send a b c k x l) as [[s|] rl'] end.
    + destruct H as (-> & _). eauto.
    + destruct H as [_ []]. by split.
Qed.

(** An alert that was held back is lost: its phase has been stored, and no reconciliation that
    leaves it there sends anything. *)
Lemma same_phase_no_alert policy store upd notifier get t budget rl b :
  let out := Reconcile policy store upd notifier get t (Found budget) rl in
  o_written out = Some b → budget_Phase (budget_Status b) = budget_Phase (budget_Status budget) →
  o_alert out = None.
Proof.
  intros out Hw Hp. destruct (o_alert out) as [[payload p]|] eqn:E; [|done].
  apply Reconcile_sends in E as (b' & event & (Hb & _ & _ & Hne & _) & _). subst out. congruence.
Qed.

(** ** The controller and the admission of runs *)
(** the phase and the admission check agree on budgets of one team.  For a hard stop that
    selects the team of the run and, by name or by default, the namespace of the run, judged at
    the same moment by the same spend, the controller finds Exceeded exactly when the admission
    of the run is refused. *)
Theorem phase_agrees_with_admission upd notifier get t total budget run rl b :
  selector_Team (budget_Selector (budget_Spec budget)) = TeamRef (Spec run) →
  budget_scope budget = run_Namespace run → budget_HardStop (budget_Spec budget) = true →
  o_written (Reconcile None (Some total) upd notifier get t (Found budget) rl) = Some b →
  (budget_Phase (budget_Status b) = BudgetExceeded ↔
   is_Some (budget_blocks None (t_policy t) total run budget)).
Proof.
  intros Ht Hn Hh Hw. apply Reconcile_written in Hw as (? & ? & limit & d & [= <-] & [= <-] & Hl & Hd & ->).
  simpl in Hd. unfold reconcile_input in Hd. rewrite Ht, Hn in Hd.
  unfold budget_blocks, used_policy, budget_input. simpl.
  assert (budgetMatchesRun budget run = true) as ->.
  { apply budget_matches. simpl. unfold budget_scope in Hn. split; [|by right].
    destruct (String.eqb_spec (selector_Namespace (budget_Selector (budget_Spec budget))) ""); auto. }
  rewrite Hh, Hl, Hd. simpl. destruct (decision_Status d); split; try done; by intros [].
Qed.
(** an exceeded budget admits runs.  A hard stop that covers all teams of a namespace is
    Exceeded when they have spent the limit together; the admission of a run adds up the spend
    of its own team only, so the run is let through as long as that team alone is below. *)
Theorem exceeded_budget_admits upd notifier get t total budget run rl limit all own :
  selector_Team (budget_Selector (budget_Spec budget)) = "" →
  budget_scope budget = run_Namespace run →
  ParseFloat (budget_Limit (budget_Spec budget)) = Some limit →
  (let since := PeriodWindowStart (t_policy t) (period_of (budget_Period (budget_Spec budget))) in
   total (mkSpendScope (run_Namespace run) "" "") since = Ok all ∧
   total (mkSpendScope (run_Namespace run) (TeamRef (Spec run)) "") since = Ok own) →
  f64_ltb f64_zero limit = true → f64_leb limit all = true → f64_leb limit own = false →
  (∃ b, o_written (Reconcile None (Some total) upd notifier get t (Found budget) rl) = Some b ∧
        budget_Phase (budget_Status b) = BudgetExceeded) ∧
  budget_blocks None (t_policy t) total run budget = None.
Proof.
  intros Ht Hn Hl [Hall Hown] Hpos Ha Ho. split.
  - destruct (proj2 (standard_exceeded (t_policy t) total (reconcile_input budget limit)))
      as (d & Hd & Hst).
    { exists all. unfold reconcile_input. rewrite Ht, Hn. done. }
    exists (with_decision t budget d). split; [|done].
    apply Reconcile_written. by exists budget, total, limit, d.
  - unfold budget_blocks. destruct (budgetMatchesRun budget run); simpl; [|done].
    destruct (budget_HardStop (budget_Spec budget)); simpl; [|done]. rewrite Hl. unfold used_policy. simpl.
    destruct (StandardBudgetPolicy_Evaluate _ _ _) as [d|] eqn:E; [|done].
    destruct (decision_Status d) eqn:S; try done.
    destruct (proj1 (standard_exceeded _ _ _) (ex_intro _ d (conj E S))) as (spent & Hsp & _ & Hle).
    unfold budget_input in *. simpl in *. congruence.
Qed.
End props.
End BudgetProps.

(** *** Witnesses *)
Module BudgetWitness.
Import Budget BudgetProps.
#[local] Existing Instance toy_float.
#[local] Existing Instance list_conditions.

Definition at_noon : clocks := mkClocks 100 100 100 100 100.
Definition team_budget (team : string) : SwarmBudget :=
  mkSwarmBudget "b" "ns" 1
    (mkSwarmBudgetSpec (mkSwarmBudgetSelector "" team) "daily" "10" "USD" 80 true (Some "policy"))
    (mkSwarmBudgetStatus BudgetOK "" "" None None 1 []).
(** Two teams that have spent 6 each. *)
Definition six_each : store_total := λ scope since,
  Ok (f64_of_Z (if String.eqb (scope_Team scope) "" then 12 else 6)).
Definition no_error : SwarmBudget → option string := λ _, None.
Definition no_policy : string → string → get_result SwarmNotify := λ _ _, NotFound.

Lemma budget_status_correct_witness :
  ∃ b, o_written (Reconcile None (Some six_each) no_error true no_policy at_noon
                    (Found (team_budget "")) ∅) = Some b ∧
    budget_Phase (budget_Status b) = BudgetExceeded.
Proof.
  pose proof list_conditions_laws as L.
  destruct (budget_status_correct no_error true no_policy at_noon (team_budget "") six_each
    (f64_of_Z 10) (f64_of_Z 12) ∅) as (b & Hb & He & _); [by vm_compute|by vm_compute|].
  exists b. split; [exact Hb|]. apply He. split; by vm_compute.
Defined.

Lemma phase_agrees_with_admission_witness :
  ∃ b, o_written (Reconcile None (Some six_each) no_error true no_policy at_noon
                    (Found (team_budget "team")) ∅) = Some b ∧
    (budget_Phase (budget_Status b) = BudgetExceeded ↔
     is_Some (budget_blocks None 100 six_each late_run (team_budget "team"))).
Proof.
  eexists. split; [|eapply (phase_agrees_with_admission no_error true no_policy at_noon six_each
    (team_budget "team") late_run ∅); [reflexivity..|]]; reflexivity.
Defined.

Lemma exceeded_budget_admits_witness :
  (∃ b, o_written (Reconcile None (Some six_each) no_error true no_policy at_noon
                    (Found (team_budget "")) ∅) = Some b ∧
        budget_Phase (budget_Status b) = BudgetExceeded) ∧
  budget_blocks None 100 six_each late_run (team_budget "") = None.
Proof.
  apply (exceeded_budget_admits no_error true no_policy at_noon six_each (team_budget "") late_run ∅
    (f64_of_Z 10) (f64_of_Z 12) (f64_of_Z 6)); first [reflexivity | split; reflexivity].
Defined.
End BudgetWitness.
