(* ===== verification/Webhooks.v ===== *)
(** * Webhooks: the admission of agents and teams (internal/webhook, other than the agent policy
    of PolicyController) and the names of advisor tools (api/v1alpha1/advisor_tool_name.go).

    A handler is a function of the decoded request and the answers of the API server.  The two
    patterns of the gateway validation are written out as predicates on bytes.  Log lines are
    left out. *)
From Stdlib Require Import ZArith Lia Ascii.
From stdpp Require Import base tactics option list strings gmap relations.
From S2P Require Import Prelude GoStd Types Costs AgentTypes Kube Policy PolicyController Runtime.

(** ** advisor_tool_name.go *)
Definition is_lower (c : ascii) : bool := (97 <=? N_of_ascii c)%N && (N_of_ascii c <=? 122)%N.
Definition is_num (c : ascii) : bool := (48 <=? N_of_ascii c)%N && (N_of_ascii c <=? 57)%N.
Definition underscore : ascii := "_".
Definition tool_char (c : ascii) : bool := is_lower c || is_num c || Ascii.eqb c underscore.

Fixpoint str_keep (f : ascii → bool) (s : string) : string :=
  match s with
  | "" => ""
  | String c rest => if f c then String c (str_keep f rest) else str_keep f rest
  end.

(** [strings.ReplaceAll(s, "__", "_")]: pairs from the left, without overlap. *)
Fixpoint replace_pairs (s : string) : string :=
  match s with
  | "" => ""
  | String c rest =>
      match rest with
      | String d rest' =>
          if Ascii.eqb c underscore && Ascii.eqb d underscore
          then String underscore (replace_pairs rest')
          else String c (replace_pairs rest)
      | "" => s
      end
  end.

(** The loop [for strings.Contains(s, "__")]; [None] when the fuel runs out. *)
Fixpoint collapse (fuel : nat) (s : string) : option string :=
  if str_contains s "__" then
    match fuel with
    | O => None
    | S fuel => collapse fuel (replace_pairs s)
    end
  else Some s.

Fixpoint trim_front (s : string) : string :=
  match s with
  | "" => ""
  | String c rest => if Ascii.eqb c underscore then trim_front rest else s
  end.

Fixpoint trim_back (s : string) : string :=
  match s with
  | "" => ""
  | String c rest =>
      match trim_back rest with
      | "" => if Ascii.eqb c underscore then "" else String c ""
      | rest' => String c rest'
      end
  end.

Definition dash_to_underscore (c : ascii) : ascii := if Ascii.eqb c "-" then underscore else c.

Section advisor_names.
Context {lowerApi : LowerApi}.

Definition SanitiseAdvisorToolName (connectionName : string) : option (result string string) :=
  let s := str_map dash_to_underscore (strings_ToLower connectionName) in
  let s := str_keep tool_char s in
  s ← collapse (String.length s) s;
  let s := trim_back (trim_front s) in
  Some (if String.eqb s ""
        then Err ("connection name " +:+ Quote connectionName +:+
                  " produces an empty tool name after sanitisation")
        else Ok ("consult_" +:+ s)).

Definition ResolveAdvisorToolName (conn : AgentConnection) : option (result string string) :=
  match conn_ContextPropagation conn with
  | Some cp => if String.eqb (propagation_ToolName cp) "" then SanitiseAdvisorToolName (conn_Name conn)
               else Some (Ok (propagation_ToolName cp))
  | None => SanitiseAdvisorToolName (conn_Name conn)
  end.

(** ** swarmagent_advisor_webhook.go *)
Definition tools_map (what : string) (names : list string) (m : gmap string string) : gmap string string :=
  foldl (λ m n, <[n := "spec.tools." +:+ what +:+ "[" +:+ n +:+ "]"]> m) m names.

Definition existing_tools (agent : SwarmAgent) : gmap string string :=
  match aspec_Tools (agent_Spec agent) with
  | None => ∅
  | Some t => tools_map "webhooks" (hooktool_Name <$> tools_Webhooks t)
                (tools_map "mcp" (mcptool_Name <$> tools_MCP t) ∅)
  end.

Definition is_advisor (conn : AgentConnection) : bool :=
  match conn_Role conn with AgentConnectionRoleAdvisor => true | _ => false end.

Variable get_agent : string → string → get_result SwarmAgent.

Definition conn_error (conn : AgentConnection) (msg : string) : string :=
  "agent connection " +:+ Quote (conn_Name conn) +:+ ": " +:+ msg.

(** What is registered for a connection whose tool name is known. *)
Definition register_tool (existing advisors : gmap string string) (conn : AgentConnection)
    (toolName : string) : list string * gmap string string :=
  let clash := "advisor " +:+ Quote (conn_Name conn) +:+ " would register tool " +:+ Quote toolName +:+
               " which conflicts with " in
  let e1 := match existing !! toolName with
            | Some source => [clash +:+ "tool " +:+ Quote toolName +:+ " in " +:+ source]
            | None => []
            end in
  let e2 := match advisors !! toolName with
            | Some other => [clash +:+ "advisor " +:+ Quote other]
            | None => []
            end in
  (e1 ++ e2, <[toolName := conn_Name conn]> advisors).

(** One connection: its errors, and the advisor tools with its own. *)
Definition check_connection (agent : SwarmAgent) (existing advisors : gmap string string)
    (conn : AgentConnection) : option (list string * gmap string string) :=
  if negb (is_advisor conn) then
    Some (match conn_ContextPropagation conn with
          | Some _ => [conn_error conn "contextPropagation is only valid when role is advisor"]
          | None => []
          end, advisors)
  else match conn_AgentRef conn with
  | None => Some ([conn_error conn "advisor role requires agentRef"], advisors)
  | Some ref =>
      if bool_decide (is_Some (conn_CapabilityRef conn)) then
        Some ([conn_error conn "advisor role requires agentRef and forbids capabilityRef"], advisors)
      else if String.eqb ref (agent_Name agent) then
        Some ([conn_error conn "self-reference is not allowed for advisors"], advisors)
      else match get_agent (agent_Namespace agent) ref with
      | Found target =>
          let deep := if existsb is_advisor (aspec_Agents (agent_Spec target))
                      then [conn_error conn ("advisor agent " +:+ Quote ref +:+
                              " has advisor connections itself (depth > 1 not allowed)")]
                      else [] in
          r ← ResolveAdvisorToolName conn;
          Some (match r with
                | Err e => (deep ++ [conn_error conn e], advisors)
                | Ok toolName =>
                    let '(errs, advisors) := register_tool existing advisors conn toolName in
                    (deep ++ errs, advisors)
                end)
      | _ => Some ([conn_error conn ("advisor agent " +:+ Quote ref +:+ " not found in namespace " +:+
                      Quote (agent_Namespace agent))], advisors)
      end
  end.

Fixpoint check_connections (agent : SwarmAgent) (existing advisors : gmap string string)
    (conns : list AgentConnection) : option (list string) :=
  match conns with
  | [] => Some []
  | conn :: rest =>
      '(errs, advisors) ← check_connection agent existing advisors conn;
      more ← check_connections agent existing advisors rest;
      Some (errs ++ more)
  end.

Definition ValidateAdvisorConnections (agent : SwarmAgent) : option (list string) :=
  check_connections agent (existing_tools agent) ∅ (aspec_Agents (agent_Spec agent)).
End advisor_names.

(** ** swarmagent_gateway_webhook.go *)
Fixpoint str_last (s : string) : option ascii :=
  match s with
  | "" => None
  | String c "" => Some c
  | String _ rest => str_last rest
  end.

Definition name_char (c : ascii) : bool := is_lower c || is_num c || Ascii.eqb c "-".
Definition ends_well (s : string) : bool :=
  match str_last s with Some c => is_lower c || is_num c | None => true end.

(** ^[a-z]([a-z0-9-]*[a-z0-9])?$ *)
Definition tagPattern (s : string) : bool :=
  match s with "" => false | String c rest => is_lower c && str_all name_char rest && ends_well rest end.
(** ^[a-z0-9]([a-z0-9-]*[a-z0-9])?$ *)
Definition targetPattern (s : string) : bool :=
  match s with
  | "" => false
  | String c rest => (is_lower c || is_num c) && str_all name_char rest && ends_well rest
  end.

Definition maxTargetNameLen : Z := 63.
Definition reservedToolNames : list string := ["registry_search"; "dispatch"].

Definition reserved_errors (what : string) (names : list string) : list string :=
  (λ n, "spec.tools." +:+ what +:+ " tool name " +:+ Quote n +:+
        " is reserved by the gateway and cannot be used")
  <$> filter (λ n, n ∈ reservedToolNames) names.

Definition tag_errors (tags : list string) : list string :=
  (λ tag, "spec.gateway.filterByTags entry " +:+ Quote tag +:+
          " is invalid; must match ^[a-z]([a-z0-9-]*[a-z0-9])?$")
  <$> filter (λ tag, tagPattern tag = false) tags.

Definition target_error (target : string) : option string :=
  if str_len target >? maxTargetNameLen
  then Some ("spec.gateway.allowedTargets entry " +:+ Quote target +:+ " exceeds " +:+
             itoa maxTargetNameLen +:+ " characters")
  else if targetPattern target then None
  else Some ("spec.gateway.allowedTargets entry " +:+ Quote target +:+
             " is invalid; must match ^[a-z0-9]([a-z0-9-]*[a-z0-9])?$").

Definition ValidateGatewayConfig (agent : SwarmAgent) : list string * list string :=
  let reserved := match aspec_Tools (agent_Spec agent) with
                  | Some t => reserved_errors "mcp" (mcptool_Name <$> tools_MCP t) ++
                              reserved_errors "webhooks" (hooktool_Name <$> tools_Webhooks t)
                  | None => []
                  end in
  match aspec_Gateway (agent_Spec agent) with
  | None => (reserved, [])
  | Some gw =>
      (reserved ++
       (if bool_decide (is_Some (agent_Annotations agent !! "kubeswarm.io/team-role"))
        then ["spec.gateway is not allowed on agents with the kubeswarm.io/team-role annotation; " +:+
              "gateway agents must be standalone"] else []) ++
       tag_errors (gateway_FilterByTags gw) ++ omap target_error (gateway_AllowedTargets gw),
       if gateway_AllowGatewayTargets gw && bool_decide (gateway_AllowedTargets gw = [])
       then ["spec.gateway.allowGatewayTargets is true but allowedTargets is empty; " +:+
             "any gateway agent in the registry may be dispatched to, which risks dispatch loops"]
       else [])
  end.

(** ** swarmteam_search_webhook.go *)
Definition role_error (field role : string) : string :=
  "spec.search." +:+ field +:+ " " +:+ Quote role +:+ " must reference an entry in spec.roles".

Definition missing_role (roles : list SwarmTeamRole) (field role : string) : list string :=
  if bool_decide (role ∈ role_Name <$> roles) then [] else [role_error field role].

Definition ValidateSearchConfig (team : SwarmTeam) : list string :=
  match team_Search (team_Spec team) with
  | None => []
  | Some search =>
      let missing := missing_role (team_Roles (team_Spec team)) in
      missing "plannerRole" (PlannerRole search) ++ missing "executorRole" (ExecutorRole search) ++
      match EvaluatorRole search with Some r => missing "evaluatorRole" r | None => [] end
  end.

(** ** prompt_size.go *)
Definition PromptWarnBytes : Z := 50 * 1024.
Definition promptDenyBytes : Z := 512 * 1024.
Definition teamTotalDenyBytes : Z := 800 * 1024.

Definition with_warnings (warnings : list string) : AdmissionResponse := Allowed_ "" warnings.

Section sizes.
Context {floatText : FloatText}.

Definition humanBytes (n : Z) : string :=
  if n >=? 1024 * 1024 then FormatFixed 1 (f64_div (f64_of_Z n) (f64_of_Z (1024 * 1024))) +:+ " MB"
  else itoa (Z.quot n 1024) +:+ " KB".

Definition inline_size (p : option AgentPrompt) : Z :=
  match p with Some p => str_len (prompt_Inline p) | None => 0 end.

End sizes.

Section handle.
Context {floatText : FloatText}.

Definition too_large (role : SwarmTeamRole) (size : Z) : string :=
  "role " +:+ Quote (role_Name role) +:+ " has an inline systemPrompt of " +:+ humanBytes size +:+
  ", which exceeds the " +:+ humanBytes promptDenyBytes +:+ " per-role limit. " +:+
  "Move the prompt to a ConfigMap and reference it via spec.roles[" +:+ role_Name role +:+
  "].systemPromptRef.configMapKeyRef.".

Definition large (role : SwarmTeamRole) (size : Z) : string :=
  "role " +:+ Quote (role_Name role) +:+ " has an inline systemPrompt of " +:+ humanBytes size +:+
  " (> " +:+ humanBytes PromptWarnBytes +:+ "). " +:+
  "Consider using systemPromptRef to avoid etcd object size limits.".

(** The loop over the roles: a denial, or the total and the warnings. *)
Fixpoint scan_roles (roles : list SwarmTeamRole) (total : Z) (warnings : list string)
    : string + Z * list string :=
  match roles with
  | [] => inr (total, warnings)
  | role :: rest =>
      let size := inline_size (role_Prompt role) in
      if size =? 0 then scan_roles rest total warnings
      else if size >? promptDenyBytes then inl (too_large role size)
      else scan_roles rest (wrap64 (total + size))
             (if size >? PromptWarnBytes then warnings ++ [large role size] else warnings)
  end.

Definition SwarmTeamPromptValidator_Handle (decoded : result string SwarmTeam) : AdmissionResponse :=
  match decoded with
  | Err e => Errored 400 e
  | Ok team =>
      match scan_roles (team_Roles (team_Spec team)) 0 [] with
      | inl msg => Denied_ msg
      | inr (total, warnings) =>
          if total >? teamTotalDenyBytes
          then Denied_ ("total inline systemPrompt size across all roles is " +:+ humanBytes total +:+
                 ", which exceeds the " +:+ humanBytes teamTotalDenyBytes +:+ " team limit. " +:+
                 "Move prompts to ConfigMaps and reference them via spec.roles[*].systemPromptRef.configMapKeyRef.")
          else with_warnings warnings
      end
  end.
End handle.

(** *** The MCP security policy of the namespace *)
Definition mcp_allowlist (settings : list SwarmSettings) : list string :=
  s ← settings; match settings_Security s with Some sec => MCPAllowlist sec | None => [] end.

Definition mcp_require_auth (settings : list SwarmSettings) : bool :=
  existsb (λ s, match settings_Security s with Some sec => RequireMCPAuth sec | None => false end) settings.

Definition authenticated (srv : MCPToolSpec) : bool :=
  match mcptool_Auth srv with Some a => bool_decide (is_Some (auth_Bearer a)) || bool_decide (is_Some (auth_MTLS a)) | None => false end.

Definition check_server (namespace : string) (allowlist : list string) (requireAuth : bool)
    (srv : MCPToolSpec) : option string :=
  if bool_decide (allowlist ≠ []) && negb (String.eqb (mcptool_URL srv) "") &&
     negb (existsb (HasPrefix (mcptool_URL srv)) allowlist)
  then Some ("MCP server " +:+ Quote (mcptool_Name srv) +:+ " URL " +:+ Quote (mcptool_URL srv) +:+
             " is not in the namespace mcpAllowlist. " +:+
             "Add the URL prefix to an SwarmSettings.spec.security.mcpAllowlist in namespace " +:+
             Quote namespace +:+ ".")
  else if requireAuth && negb (authenticated srv)
  then Some ("MCP server " +:+ Quote (mcptool_Name srv) +:+
             " has no auth configured but namespace policy requires authentication " +:+
             "(SwarmSettings.spec.security.requireMCPAuth=true). " +:+
             "Set spec.tools.mcp[" +:+ mcptool_Name srv +:+ "].auth.bearer or auth.mtls.")
  else None.

Fixpoint first_denied (namespace : string) (allowlist : list string) (requireAuth : bool)
    (servers : list MCPToolSpec) : option string :=
  match servers with
  | [] => None
  | srv :: rest =>
      match check_server namespace allowlist requireAuth srv with
      | Some msg => Some msg
      | None => first_denied namespace allowlist requireAuth rest
      end
  end.

(** The reason of a denial. *)
Definition checkMCPPolicy (listed : result string (list SwarmSettings)) (namespace : string)
    (agent : SwarmAgent) : option string :=
  match aspec_Tools (agent_Spec agent) with
  | None => None
  | Some tools =>
      match tools_MCP tools, listed with
      | [], _ | _, Err _ => None
      | servers, Ok settings =>
          first_denied namespace (mcp_allowlist settings) (mcp_require_auth settings) servers
      end
  end.

(** *** SwarmAgents *)
Definition prompt_inline (agent : SwarmAgent) : string :=
  match aspec_Prompt (agent_Spec agent) with Some p => prompt_Inline p | None => "" end.

Definition no_resources_warning : string :=
  "spec.runtime.resources is not set; the operator will inject default limits " +:+
  "(requests: cpu=100m mem=128Mi; limits: cpu=500m mem=512Mi ephemeral-storage=256Mi). " +:+
  "Set spec.runtime.resources explicitly to tune for your workload.".

Definition prompt_guard_denial : string :=
  "changing spec.systemPrompt requires the swarm-prompt-admin ClusterRole " +:+
  "(kubeswarm/swarmagents/systemprompt update permission). " +:+
  "Contact your cluster administrator to obtain elevated access.".

(** The guard on changes of the prompt: [sar] is the answer of the access review.  An early
    response, or the warnings. *)
Definition prompt_guard (old : option (result string SwarmAgent)) (sar : result string bool)
    (agent : SwarmAgent) : AdmissionResponse + list string :=
  match old with
  | None => inr []
  | Some (Err e) => inl (Errored 400 e)
  | Some (Ok old) =>
      if String.eqb (prompt_inline agent) (prompt_inline old) then inr []
      else match sar with
           | Err e => inr ["could not verify swarm-prompt-admin permission: " +:+ e +:+ " - " +:+
                           "set spec.systemPrompt carefully; unauthorised changes will be blocked " +:+
                           "once the swarm-prompt-admin ClusterRole is deployed."]
           | Ok true => inr []
           | Ok false => inl (Denied_ prompt_guard_denial)
           end
  end.

Section handle.
Context {floatText : FloatText} {lowerApi : LowerApi}.
Variable get_agent : string → string → get_result SwarmAgent.

(** [None] stands for a loop that does not end; the theorems exclude it. *)
Definition SwarmAgentPromptValidator_Handle (namespace : string) (decoded : result string SwarmAgent)
    (old : option (result string SwarmAgent)) (sar : result string bool)
    (settings : result string (list SwarmSettings)) : option AdmissionResponse :=
  match decoded with
  | Err e => Some (Errored 400 e)
  | Ok agent =>
      let size := str_len (prompt_inline agent) in
      if size >? promptDenyBytes
      then Some (Denied_ ("inline prompt is " +:+ humanBytes size +:+ ", which exceeds the " +:+
             humanBytes promptDenyBytes +:+ " limit. " +:+
             "Move the prompt to a ConfigMap and reference it via spec.prompt.from.configMapKeyRef."))
      else
        let w1 := if size >? PromptWarnBytes
                  then ["inline prompt is " +:+ humanBytes size +:+ " (> " +:+ humanBytes PromptWarnBytes +:+
                        "). Consider using spec.prompt.from to avoid etcd object size limits."]
                  else [] in
        let w2 := if runtime_Resources (aspec_Runtime (agent_Spec agent)) then [] else [no_resources_warning] in
        match prompt_guard old sar agent with
        | inl resp => Some resp
        | inr w3 =>
            advisorErrs ← ValidateAdvisorConnections get_agent agent;
            match advisorErrs, ValidateGatewayConfig agent with
            | e :: _, _ => Some (Denied_ e)
            | [], (e :: _, _) => Some (Denied_ e)
            | [], ([], w4) =>
                match checkMCPPolicy settings namespace agent with
                | Some reason => Some (Denied_ reason)
                | None => Some (with_warnings (w1 ++ w2 ++ w3 ++ w4))
                end
            end
        end
  end.
End handle.

(** ** swarmteam_policy_webhook.go *)
Definition checkStepValidationLevel (step : SwarmTeamPipelineStep) (minLevel : PolicyOutputLevel) : bool :=
  match minLevel with
  | PolicyOutputLevelNone | OutputLevelUnset => true
  | PolicyOutputLevelPattern =>
      match Validate step with Some v => bool_decide (RejectPatterns v ≠ []) | None => false end
  | PolicyOutputLevelSchema =>
      match Validate step with Some v => negb (String.eqb (Schema v) "") | None => false end
  | PolicyOutputLevelSemantic =>
      match Validate step with Some v => negb (String.eqb (Semantic v) "") | None => false end
  end.

Definition output_level_string (l : PolicyOutputLevel) : string :=
  match l with
  | OutputLevelUnset => ""
  | PolicyOutputLevelNone => "none"
  | PolicyOutputLevelPattern => "pattern"
  | PolicyOutputLevelSchema => "schema"
  | PolicyOutputLevelSemantic => "semantic"
  end.

Definition step_message (level : PolicyOutputLevel) (step : SwarmTeamPipelineStep) : string :=
  "SwarmPolicy violation: step " +:+ Quote (Role step) +:+ " requires " +:+ output_level_string level +:+
  " validation".

Definition SwarmTeamPolicyValidator_Handle (decoded : result string SwarmTeam) (listed : result string (list SwarmPolicy))
    : AdmissionResponse :=
  match decoded with
  | Err e => Errored 400 e
  | Ok team =>
      match fetchEffectivePolicyForWebhook listed with
      | inr resp => resp
      | inl eff =>
          match MinValidation eff with
          | PolicyOutputLevelNone | OutputLevelUnset => Allowed_ "no minimum validation required" []
          | level =>
              match team_Pipeline (team_Spec team) with
              | [] => Allowed_ "no pipeline steps to validate" []
              | steps =>
                  match step_message level <$>
                        filter (λ step, checkStepValidationLevel step level = false) steps with
                  | [] => Allowed_ "team compliant with all policies" []
                  | msgs => applyEnforcementMode (EnforcementMode eff) msgs
                  end
              end
          end
      end
  end.
