(* ===== verification/WebhookProps.v ===== *)
(** * WebhookProps: what the admission webhooks of Webhooks.v guarantee.

    The names of advisor tools; the advisor graph that admission keeps free of cycles, and
    how deep it may get; the verdicts of the handlers for agents and teams. *)
From Stdlib Require Import ZArith Lia Ascii.
From stdpp Require Import base tactics option list strings gmap relations.
From S2P Require Import Prelude GoStd Types Costs AgentTypes Kube Policy PolicyProps PolicyController Runtime Webhooks.

(** ** Advisor tool names *)
Fixpoint pair_free (s : string) : bool :=
  match s with
  | "" => true
  | String c rest =>
      match rest with
      | String d _ => negb (Ascii.eqb c underscore && Ascii.eqb d underscore) && pair_free rest
      | "" => true
      end
  end.

Lemma contains_pair s : str_contains s "__" = negb (pair_free s).
Proof.
  induction s as [|c s IH]; [done|].
  unfold str_contains, str_index in *. destruct s as [|d s]; [by destruct c as [[][][][][][][][]]|].
  change (pair_free (String c (String d s)))
    with (negb (Ascii.eqb c underscore && Ascii.eqb d underscore) && pair_free (String d s)).
  change (String.index 0 "__" (String c (String d s)))
    with (if String.prefix "__" (String c (String d s)) then Some 0%nat
          else match String.index 0 "__" (String d s) with Some n => Some (S n) | None => None end).
  rewrite negb_andb, negb_involutive, <- IH. clear IH.
  generalize (String.index 0 "__" (String d s)); intros r.
  change (String.prefix "__" (String c (String d s)))
    with (if Ascii.ascii_dec underscore c then if Ascii.ascii_dec underscore d then String.prefix "" s else false else false).
  destruct (Ascii.ascii_dec underscore c) as [<-|Hc]; [destruct (Ascii.ascii_dec underscore d) as [<-|Hd]|]; simpl.
  - by destruct s.
  - rewrite (proj2 (Ascii.eqb_neq d underscore)) by congruence.  by destruct r.
  - rewrite (proj2 (Ascii.eqb_neq c underscore)) by congruence.  by destruct r.
Qed.

(** Induction two bytes at a time, the recursion of [replace_pairs]. *)
Lemma string_pair_ind (P : string → Prop) :
  P "" → (∀ c, P (String c "")) →
  (∀ c d s, P s → P (String d s) → P (String c (String d s))) → ∀ s, P s.
Proof.
  intros H0 H1 H2 s. enough (P s ∧ ∀ c, P (String c s)) as [? _] by done.
  induction s as [|c s [IH1 IH2]]; [done|]. split; [apply IH2|]. intros d. apply H2; auto.
Qed.

Lemma replace_pairs_cons2 c d s :
  replace_pairs (String c (String d s)) =
    if Ascii.eqb c underscore && Ascii.eqb d underscore then String underscore (replace_pairs s)
    else String c (replace_pairs (String d s)).
Proof. done. Qed.

Lemma replace_pairs_length s :
  (String.length (replace_pairs s) ≤ String.length s)%nat ∧
  (pair_free s = false → (String.length (replace_pairs s) < String.length s)%nat).
Proof.
  induction s as [|c|c d s [L1 _] [L2 S2]] using string_pair_ind; [by simpl; split; [lia|]..|].
  rewrite replace_pairs_cons2.
  change (pair_free (String c (String d s)))
    with (negb (Ascii.eqb c underscore && Ascii.eqb d underscore) && pair_free (String d s)).
  destruct (Ascii.eqb c underscore && Ascii.eqb d underscore); simpl in *; [lia|].
  split; [lia|]. intros Hp. specialize (S2 Hp). lia.
Qed.

Lemma str_all_cons f c s : str_all f (String c s) = f c && str_all f s.
Proof. done. Qed.

Lemma replace_pairs_all f s :
  f underscore = true → str_all f (replace_pairs s) = str_all f s.
Proof.
  intros Hf. induction s as [|c|c d s IH1 IH2] using string_pair_ind; [done..|].
  rewrite replace_pairs_cons2. destruct (Ascii.eqb c underscore && Ascii.eqb d underscore) eqn:E.
  - apply andb_true_iff in E as [->%Ascii.eqb_eq ->%Ascii.eqb_eq]. simpl. by rewrite Hf, IH1.
  - by rewrite !(str_all_cons f c), IH2.
Qed.

(** The loop ends, within as many rounds as the name has bytes. *)
Lemma collapse_spec fuel s :
  (String.length s ≤ fuel)%nat →
  ∃ s', collapse fuel s = Some s' ∧ pair_free s' = true ∧
    ∀ f, f underscore = true → str_all f s' = str_all f s.
Proof.
  revert s. induction fuel as [|fuel IH]; intros s Hl.
  - destruct s; [|simpl in Hl; lia]. by exists "".
  - simpl. rewrite contains_pair. destruct (pair_free s) eqn:E; simpl; [by exists s|].
    destruct (replace_pairs_length s) as [_ Hlt]. specialize (Hlt E).
    destruct (IH (replace_pairs s)) as (s' & -> & Hp & Hf); [lia|].
    exists s'. split; [done|]. split; [done|]. intros f Hu. by rewrite Hf, replace_pairs_all.
Qed.

Definition is_underscore (c : ascii) : bool := Ascii.eqb c underscore.
Definition starts_with_underscore (s : string) : bool :=
  match s with String c _ => is_underscore c | "" => false end.
Definition ends_with_underscore (s : string) : bool :=
  match str_last s with Some c => is_underscore c | None => false end.

Lemma pair_free_tail c s : pair_free (String c s) = true → pair_free s = true.
Proof. destruct s as [|d s]; [done|]. intros H. apply andb_true_iff in H. tauto. Qed.

Lemma trim_front_spec s :
  starts_with_underscore (trim_front s) = false ∧
  (pair_free s = true → pair_free (trim_front s) = true) ∧
  (∀ f, str_all f s = true → str_all f (trim_front s) = true) ∧
  (trim_front s = "" ↔ str_all is_underscore s = true).
Proof.
  induction s as [|c s (IH1 & IH2 & IH3 & IH4)]; [done|]. simpl trim_front.
  destruct (Ascii.eqb c underscore) eqn:E; simpl; unfold is_underscore at 1; rewrite E; simpl.
  - split; [done|]. split; [intros H; apply IH2; destruct s; [done|]; apply andb_true_iff in H; tauto|].
    split; [intros f [_ H]%andb_true_iff; auto|done].
  - unfold is_underscore. by rewrite E.
Qed.

Lemma trim_back_head s d t : trim_back s = String d t → ∃ s', s = String d s'.
Proof.
  destruct s as [|d' s]; [done|]. simpl. destruct (trim_back s); [destruct (Ascii.eqb _ _); [done|]|];
    intros [= -> _]; by exists s.
Qed.

Lemma trim_back_spec s :
  ends_with_underscore (trim_back s) = false ∧
  (pair_free s = true → pair_free (trim_back s) = true) ∧
  (∀ f, str_all f s = true → str_all f (trim_back s) = true) ∧
  (trim_back s = "" ↔ str_all is_underscore s = true) ∧
  (starts_with_underscore s = false → starts_with_underscore (trim_back s) = false).
Proof.
  induction s as [|c s (IH1 & IH2 & IH3 & IH4 & _)]; [done|]. simpl trim_back.
  destruct (trim_back s) as [|d t] eqn:E.
  - assert (Hs : str_all is_underscore s = true) by by apply IH4.
    simpl str_all. rewrite Hs, andb_true_r.
    destruct (Ascii.eqb c underscore) eqn:Ec; unfold is_underscore, ends_with_underscore; simpl.
    + rewrite Ec. repeat split; auto.
    + unfold is_underscore. rewrite Ec. split; [done|]. split; [done|]. split; [|split; [by split|done]].
      intros f [-> _]%andb_true_iff. done.
  - split; [exact IH1|]. split; [|split; [|split; [|done]]].
    + intros H. change (negb (Ascii.eqb c underscore && Ascii.eqb d underscore) && pair_free (String d t) = true).
      rewrite (IH2 (pair_free_tail _ _ H)), andb_true_r.
      apply trim_back_head in E as [s' ->]. apply andb_true_iff in H. tauto.
    + intros f [Hc Hs]%andb_true_iff. rewrite (str_all_cons f c), Hc. by apply IH3.
    + split; [done|]. intros [_ Hs]%andb_true_iff. by apply IH4 in Hs.
Qed.


Lemma str_keep_all f s : str_all f (str_keep f s) = true.
Proof. induction s as [|c s IH]; [done|]. simpl. destruct (f c) eqn:E; simpl; [by rewrite E|done]. Qed.

(** A byte that a tool name takes over as it is. *)
Definition word_char (c : ascii) : bool := is_lower c || is_num c.

(** The name in lower case, with dashes as underscores, and only the bytes of tool names. *)
Definition kept_name {lowerApi : LowerApi} (name : string) : string :=
  str_keep tool_char (str_map dash_to_underscore (strings_ToLower name)).

(** [SanitiseAdvisorToolName] always returns.  It fails exactly when the connection name has
    no letter or digit left, and otherwise returns ["consult_"] and a non-empty run of
    [a-z0-9_] without two underscores in a row, at its start or at its end. *)
Theorem SanitiseAdvisorToolName_spec {lowerApi : LowerApi} name :
  ∃ r, SanitiseAdvisorToolName name = Some r ∧
    match r with
    | Err _ => str_all is_underscore (kept_name name) = true
    | Ok tool => str_all is_underscore (kept_name name) = false ∧
        ∃ s, tool = "consult_" +:+ s ∧ s ≠ "" ∧ str_all tool_char s = true ∧
             str_contains s "__" = false ∧
             starts_with_underscore s = false ∧ ends_with_underscore s = false
    end.
Proof.
  unfold SanitiseAdvisorToolName. fold (kept_name name).
  destruct (collapse_spec _ (kept_name name) (le_n _)) as (s & -> & Hp & Hall). simpl.
  destruct (trim_front_spec s) as (F1 & F2 & F3 & F4).
  destruct (trim_back_spec (trim_front s)) as (B1 & B2 & B3 & B4 & B5).
  assert (He : trim_back (trim_front s) = "" ↔ str_all is_underscore (kept_name name) = true).
  { rewrite <- (Hall is_underscore) by done. split.
    - intros H%B4. apply F4. destruct (trim_front s) as [|c t]; [done|].
      simpl in F1, H. by rewrite F1 in H.
    - intros H%F4. by rewrite H. }
  eexists. split; [done|]. destruct (String.eqb_spec (trim_back (trim_front s)) "") as [E|E].
  - by apply He.
  - split; [apply not_true_is_false; intros H; by apply E, He|].
    exists (trim_back (trim_front s)). split; [done|]. split; [done|].
    split; [apply B3, F3; rewrite Hall by done; apply str_keep_all|].
    rewrite contains_pair, B2 by auto. auto.
Qed.

(** ** Advisor connections *)
Section connections.
Context {lowerApi : LowerApi}.

Lemma ResolveAdvisorToolName_total conn : is_Some (ResolveAdvisorToolName conn).
Proof.
  unfold ResolveAdvisorToolName.
  destruct (collapse_spec _ (kept_name (conn_Name conn)) (le_n _)) as (s & E & _).
  assert (Hs : is_Some (SanitiseAdvisorToolName (conn_Name conn))).
  { unfold SanitiseAdvisorToolName. fold (kept_name (conn_Name conn)). rewrite E. by eexists. }
  destruct (conn_ContextPropagation conn); [|done]. by case_match.
Qed.

(** The tool an advisor connection registers. *)
Definition advisor_tool (conn : AgentConnection) : option string :=
  if is_advisor conn
  then match ResolveAdvisorToolName conn with Some (Ok t) => Some t | _ => None end
  else None.

(** What is asked of a connection of [agent], other than that its tool is not another one's. *)
Definition connection_ok (get_agent : string → string → get_result SwarmAgent) (agent : SwarmAgent)
    (conn : AgentConnection) : Prop :=
  if is_advisor conn then
    ∃ ref target tool,
      conn_AgentRef conn = Some ref ∧ conn_CapabilityRef conn = None ∧ ref ≠ agent_Name agent ∧
      get_agent (agent_Namespace agent) ref = Found target ∧
      existsb is_advisor (aspec_Agents (agent_Spec target)) = false ∧
      advisor_tool conn = Some tool ∧ existing_tools agent !! tool = None
  else conn_ContextPropagation conn = None.

Context (get_agent : string → string → get_result SwarmAgent) (agent : SwarmAgent).

Lemma check_connection_total existing advisors conn :
  ∃ r, check_connection get_agent agent existing advisors conn = Some r.
Proof.
  unfold check_connection. destruct (ResolveAdvisorToolName_total conn) as [r ->].
  repeat case_match; eauto.
Qed.

(** A connection passes: it is well-formed and its tool is new; the tool is then registered. *)
Lemma check_connection_nil advisors conn advisors' :
  check_connection get_agent agent (existing_tools agent) advisors conn = Some ([], advisors') ↔
    connection_ok get_agent agent conn ∧
    match advisor_tool conn with
    | Some tool => advisors !! tool = None ∧ advisors' = <[tool := conn_Name conn]> advisors
    | None => advisors' = advisors
    end.
Proof.
  unfold check_connection, connection_ok, advisor_tool.
  destruct (is_advisor conn); simpl; [|destruct (conn_ContextPropagation conn); naive_solver].
  destruct (conn_AgentRef conn) as [ref|]; [|by split; [|intros [(? & ? & ? & [=] & _) _]]].
  destruct (conn_CapabilityRef conn); simpl; [by split; [|intros [(? & ? & ? & _ & [=] & _) _]]|].
  destruct (String.eqb_spec ref (agent_Name agent)) as [->|Hn].
  { split; [done|]. intros [(? & ? & ? & [= <-] & _ & Hn & _) _]. by destruct Hn. }
  destruct (get_agent _ ref) as [target| |e] eqn:G;
    [|split; [done|]; intros [(? & ? & ? & [= <-] & _ & _ & G' & _) _]; congruence..].
  destruct (ResolveAdvisorToolName_total conn) as [r ->]. simpl.
  destruct (existsb _ _) eqn:Eb; simpl.
  { split; [by destruct r; repeat case_match|]. intros [(? & ? & ? & [= <-] & _ & _ & G' & ? & _) _].
    simplify_eq. congruence. }
  destruct r as [tool|e]; simpl; [|by split; [|intros [(? & ? & ? & _ & _ & _ & _ & _ & [=] & _) _]]].
  unfold register_tool.
  destruct (existing_tools agent !! tool) eqn:E1; simpl.
  { split; [by case_match|]. intros [(? & ? & ? & _ & _ & _ & _ & _ & [= <-] & ?) _]. congruence. }
  destruct (advisors !! tool) eqn:E2; simpl; [by split; [|intros [_ [? _]]]|].
  split; [intros [= <-]|intros [_ [_ ->]]; done]. split; [|done]. by exists ref, target, tool.
Qed.

Lemma check_connections_total existing advisors conns :
  ∃ errs, check_connections get_agent agent existing advisors conns = Some errs.
Proof.
  revert advisors. induction conns as [|conn conns IH]; intros advisors; simpl; [by eexists|].
  destruct (check_connection_total existing advisors conn) as [[errs adv] ->]. simpl.
  destruct (IH adv) as [more ->]. by eexists.
Qed.

Lemma check_connections_cons_nil existing advisors conn conns :
  check_connections get_agent agent existing advisors (conn :: conns) = Some [] ↔
    ∃ adv, check_connection get_agent agent existing advisors conn = Some ([], adv) ∧
           check_connections get_agent agent existing adv conns = Some [].
Proof.
  simpl. destruct (check_connection_total existing advisors conn) as [[errs adv] ->]. simpl.
  destruct (check_connections_total existing adv conns) as [more E]. rewrite E. simpl.
  split.
  - intros [= [-> ->]%app_eq_nil]. by exists adv.
  - intros (? & [= -> <-] & E'). rewrite E in E'. by simplify_eq.
Qed.

Lemma fresh_tools_insert (advisors : gmap string string) tool v tools :
  Forall (λ t, <[tool:=v]> advisors !! t = None) tools ↔
    tool ∉ tools ∧ Forall (λ t, advisors !! t = None) tools.
Proof.
  rewrite !Forall_forall. setoid_rewrite lookup_insert_None. split.
  - intros Hf. split; [intros Hin; by destruct (Hf tool Hin)|]. intros t Ht. by apply Hf.
  - intros [Hn Hf] t Ht. split; [by apply Hf|]. by intros <-.
Qed.

Lemma check_connections_nil advisors conns :
  check_connections get_agent agent (existing_tools agent) advisors conns = Some [] ↔
    Forall (connection_ok get_agent agent) conns ∧ NoDup (omap advisor_tool conns) ∧
    Forall (λ t, advisors !! t = None) (omap advisor_tool conns).
Proof.
  revert advisors. induction conns as [|conn conns IH]; intros advisors.
  { simpl. repeat split; auto using NoDup_nil_2. }
  rewrite check_connections_cons_nil, Forall_cons.
  setoid_rewrite check_connection_nil. setoid_rewrite IH. clear IH.
  change (omap advisor_tool (conn :: conns)) with
    (match advisor_tool conn with
     | Some t => t :: omap advisor_tool conns
     | None => omap advisor_tool conns
     end).
  destruct (advisor_tool conn) as [tool|].
  - rewrite NoDup_cons, Forall_cons. split.
    + intros (adv & (? & ? & ->) & ? & ? & [? ?]%fresh_tools_insert). auto.
    + intros ([? ?] & [? ?] & ? & ?). eexists. rewrite fresh_tools_insert. auto 10.
  - split; [intros (adv & (? & ->) & ?); tauto|]. intros ([? ?] & ?). eauto.
Qed.

(** validation always returns, and accepts the connections of an agent exactly when each
    advisor refers to another agent of the namespace that exists and has no advisors itself,
    its tool clashes with none of the agent's tools, and no two advisors share a tool. *)
Theorem ValidateAdvisorConnections_spec :
  ∃ errs, ValidateAdvisorConnections get_agent agent = Some errs ∧
    (errs = [] ↔ Forall (connection_ok get_agent agent) (aspec_Agents (agent_Spec agent)) ∧
                 NoDup (omap advisor_tool (aspec_Agents (agent_Spec agent)))).
Proof.
  unfold ValidateAdvisorConnections.
  destruct (check_connections_total (existing_tools agent) ∅ (aspec_Agents (agent_Spec agent)))
    as [errs E].
  exists errs. split; [done|].
  pose proof (check_connections_nil ∅ (aspec_Agents (agent_Spec agent))) as H.
  rewrite E in H. rewrite <- (inj_iff Some), H.
  split; [tauto|]. intros [? ?]. split; [done|]. split; [done|].
  apply Forall_forall. intros. apply lookup_empty.
Qed.
End connections.

(** ** The verdict of the agent webhook *)

(** No tool has a reserved name, and the gateway block, if any, is on a standalone agent and
    has valid tags and targets. *)
Definition gateway_ok (agent : SwarmAgent) : Prop :=
  match aspec_Tools (agent_Spec agent) with
  | Some t => Forall (λ n, n ∉ reservedToolNames)
                ((mcptool_Name <$> tools_MCP t) ++ (hooktool_Name <$> tools_Webhooks t))
  | None => True
  end ∧
  match aspec_Gateway (agent_Spec agent) with
  | Some gw =>
      agent_Annotations agent !! "kubeswarm.io/team-role" = None ∧
      Forall (λ t, tagPattern t = true) (gateway_FilterByTags gw) ∧
      Forall (λ t, str_len t ≤ maxTargetNameLen ∧ targetPattern t = true) (gateway_AllowedTargets gw)
  | None => True
  end.

Lemma filter_errors_nil {A B} (f : A → B) (P : A → Prop) `{∀ x, Decision (P x)} l :
  f <$> filter P l = [] ↔ Forall (λ x, ¬ P x) l.
Proof.
  induction l as [|x l IH]; [done|]. rewrite filter_cons, Forall_cons, <- IH.
  case_decide; simpl; naive_solver.
Qed.

Lemma reserved_errors_nil what names :
  reserved_errors what names = [] ↔ Forall (λ n, n ∉ reservedToolNames) names.
Proof. apply filter_errors_nil. Qed.

Lemma tag_errors_nil tags : tag_errors tags = [] ↔ Forall (λ t, tagPattern t = true) tags.
Proof. unfold tag_errors. rewrite filter_errors_nil. by setoid_rewrite not_false_iff_true. Qed.

Lemma target_errors_nil targets :
  omap target_error targets = [] ↔
    Forall (λ t, str_len t ≤ maxTargetNameLen ∧ targetPattern t = true) targets.
Proof.
  assert (Ht : ∀ t, target_error t = None ↔ str_len t ≤ maxTargetNameLen ∧ targetPattern t = true).
  { intros t. unfold target_error.
    destruct (Z.gtb_spec (str_len t) maxTargetNameLen); [split; [done|lia]|].
    destruct (targetPattern t); [|split; [done|by intros []]]. split; [|done]. by split. }
  rewrite Forall_forall. setoid_rewrite <- Ht. split.
  - intros Hf t Hin. destruct (target_error t) eqn:E; [|done].
    assert (Hin' : s ∈ omap target_error targets) by (apply list_elem_of_omap; eauto).
    rewrite Hf in Hin'. by apply not_elem_of_nil in Hin'.
  - intros H. apply elem_of_nil_inv. intros e (t & Hin & E)%list_elem_of_omap.
    rewrite (H t Hin) in E. done.
Qed.

Lemma gateway_errors_nil agent : (ValidateGatewayConfig agent).1 = [] ↔ gateway_ok agent.
Proof.
  unfold ValidateGatewayConfig, gateway_ok.
  assert (Hr : match aspec_Tools (agent_Spec agent) with
               | Some t => reserved_errors "mcp" (mcptool_Name <$> tools_MCP t) ++
                           reserved_errors "webhooks" (hooktool_Name <$> tools_Webhooks t)
               | None => []
               end = [] ↔
               match aspec_Tools (agent_Spec agent) with
               | Some t => Forall (λ n, n ∉ reservedToolNames)
                   ((mcptool_Name <$> tools_MCP t) ++ (hooktool_Name <$> tools_Webhooks t))
               | None => True
               end).
  { destruct (aspec_Tools _) as [t|]; [|done].
    by rewrite Forall_app, <- (reserved_errors_nil "mcp"), <- (reserved_errors_nil "webhooks"), app_nil. }
  destruct (aspec_Gateway (agent_Spec agent)) as [gw|]; simpl; [|rewrite Hr; tauto].
  rewrite !app_nil, Hr, tag_errors_nil, target_errors_nil.
  destruct (agent_Annotations agent !! "kubeswarm.io/team-role"); simpl; naive_solver.
Qed.

(** The MCP servers of an agent comply with the settings of the namespace, taken together. *)
Definition server_ok (settings : list SwarmSettings) (srv : MCPToolSpec) : Prop :=
  (mcp_allowlist settings = [] ∨ mcptool_URL srv = "" ∨
   ∃ pre, pre ∈ mcp_allowlist settings ∧ HasPrefix (mcptool_URL srv) pre = true) ∧
  (mcp_require_auth settings = true → authenticated srv = true).

Definition mcp_ok (listed : result string (list SwarmSettings)) (agent : SwarmAgent) : Prop :=
  match listed with
  | Err _ => True
  | Ok settings => Forall (server_ok settings)
      (match aspec_Tools (agent_Spec agent) with Some t => tools_MCP t | None => [] end)
  end.

Lemma check_server_none ns settings srv :
  check_server ns (mcp_allowlist settings) (mcp_require_auth settings) srv = None ↔
  server_ok settings srv.
Proof.
  unfold check_server, server_ok.
  assert (He : existsb (HasPrefix (mcptool_URL srv)) (mcp_allowlist settings) = true ↔
    ∃ pre, pre ∈ mcp_allowlist settings ∧ HasPrefix (mcptool_URL srv) pre = true)
    by (rewrite existsb_exists; by setoid_rewrite list_elem_of_In).
  rewrite <- He. clear He. destruct (existsb _ _).
  - rewrite andb_false_r. destruct (mcp_require_auth settings), (authenticated srv); naive_solver.
  - destruct (decide (mcp_allowlist settings = [])) as [->|Hl].
    { simpl. destruct (mcp_require_auth settings), (authenticated srv); naive_solver. }
    rewrite bool_decide_true by done. simpl. rewrite andb_true_r.
    destruct (String.eqb_spec (mcptool_URL srv) "") as [->|Hu]; simpl; [|naive_solver].
    destruct (mcp_require_auth settings), (authenticated srv); naive_solver.
Qed.

Lemma first_denied_none ns settings servers :
  first_denied ns (mcp_allowlist settings) (mcp_require_auth settings) servers = None ↔
  Forall (server_ok settings) servers.
Proof.
  induction servers as [|srv servers IH]; [done|]. simpl.
  rewrite Forall_cons, <- (check_server_none ns).
  destruct (check_server _ _ _ srv); [naive_solver|]. rewrite IH. naive_solver.
Qed.

Lemma checkMCPPolicy_none listed ns agent :
  checkMCPPolicy listed ns agent = None ↔ mcp_ok listed agent.
Proof.
  unfold checkMCPPolicy, mcp_ok. destruct (aspec_Tools _) as [t|]; [|by destruct listed].
  destruct (tools_MCP t) as [|srv servers]; [by destruct listed|].
  destruct listed as [settings|e]; [|done]. apply (first_denied_none ns settings (srv :: servers)).
Qed.

Definition change_permitted (old : option SwarmAgent) (sar : result string bool) (agent : SwarmAgent)
    : Prop :=
  match old with
  | Some o => prompt_inline agent = prompt_inline o ∨ sar ≠ Ok false
  | None => True
  end.

(** What the webhook asks of an agent. *)
Definition agent_admissible {lowerApi : LowerApi}
    (get_agent : string → string → get_result SwarmAgent) (agent : SwarmAgent)
    (old : option SwarmAgent) (sar : result string bool)
    (settings : result string (list SwarmSettings)) : Prop :=
  str_len (prompt_inline agent) ≤ promptDenyBytes ∧ change_permitted old sar agent ∧
  Forall (connection_ok get_agent agent) (aspec_Agents (agent_Spec agent)) ∧
  NoDup (omap advisor_tool (aspec_Agents (agent_Spec agent))) ∧
  gateway_ok agent ∧ mcp_ok settings agent.

Lemma prompt_guard_spec old sar agent :
  match prompt_guard (Ok <$> old) sar agent with
  | inl resp => ¬ change_permitted old sar agent ∧ resp = Denied_ prompt_guard_denial
  | inr _ => change_permitted old sar agent
  end.
Proof.
  unfold prompt_guard, change_permitted. destruct old as [o|]; simpl; [|done].
  destruct (String.eqb_spec (prompt_inline agent) (prompt_inline o)); [by left|].
  destruct sar as [[]|]; [by right|..|by right]. naive_solver.
Qed.

Lemma agent_handle_cases {floatText : FloatText} {lowerApi : LowerApi} get_agent ns agent old sar settings :
  ∃ resp, SwarmAgentPromptValidator_Handle get_agent ns (Ok agent) (Ok <$> old) sar settings = Some resp ∧
    ((∃ ws, resp = Allowed_ "" ws) ∧ agent_admissible get_agent agent old sar settings ∨
     rejects resp ∧ ¬ agent_admissible get_agent agent old sar settings).
Proof.
  unfold SwarmAgentPromptValidator_Handle, agent_admissible.
  destruct (Z.gtb_spec (str_len (prompt_inline agent)) promptDenyBytes) as [Hsz|Hsz].
  { eexists. split; [done|]. right. split; [by eexists|]. lia. }
  pose proof (prompt_guard_spec old sar agent) as Hg.
  destruct (prompt_guard _ sar agent) as [resp|w3].
  { destruct Hg as [Hg ->]. eexists. split; [done|]. right. split; [by eexists|]. tauto. }
  destruct (ValidateAdvisorConnections_spec get_agent agent) as (errs & -> & He). simpl.
  pose proof (gateway_errors_nil agent) as Hgw. destruct (ValidateGatewayConfig agent) as [gerrs w4].
  simpl in Hgw. pose proof (checkMCPPolicy_none settings ns agent) as Hm.
  destruct errs as [|e errs].
  2: { eexists. split; [done|]. right. split; [by eexists|]. intros (_ & _ & H1 & H2 & _).
       by discriminate (proj2 He (conj H1 H2)). }
  destruct (proj1 He eq_refl) as [H1 H2].
  destruct gerrs as [|e gerrs].
  2: { eexists. split; [done|]. right. split; [by eexists|]. intros (_ & _ & _ & _ & H & _).
       by discriminate (proj2 Hgw H). }
  pose proof (proj1 Hgw eq_refl). destruct (checkMCPPolicy settings ns agent) as [reason|].
  - eexists. split; [done|]. right. split; [by eexists|]. intros (_ & _ & _ & _ & _ & H').
    by discriminate (proj2 Hm H').
  - eexists. split; [done|]. left. split; [by eexists|]. tauto.
Qed.

(** the webhook always answers a decoded SwarmAgent.  It allows the agent exactly when its
    inline prompt is at most 512 KB; on an update, the text of the prompt is unchanged or the
    access review did not come back negative; every advisor connection is valid and no two share
    a tool; no tool has a reserved name and the gateway block is valid; and its MCP servers
    comply with the settings of the namespace.  Otherwise it denies it. *)
Theorem agent_admission_verdict {floatText : FloatText} {lowerApi : LowerApi}
    get_agent ns agent old sar settings :
  ∃ resp, SwarmAgentPromptValidator_Handle get_agent ns (Ok agent) (Ok <$> old) sar settings = Some resp ∧
    ((∃ ws, resp = Allowed_ "" ws) ↔ agent_admissible get_agent agent old sar settings) ∧
    (rejects resp ↔ ¬ agent_admissible get_agent agent old sar settings).
Proof.
  destruct (agent_handle_cases get_agent ns agent old sar settings) as (resp & -> & H).
  exists resp. split; [done|].
  destruct H as [[[ws ->] Ha]|[[msg ->] Ha]]; (split; [split|split]); try done; try (by eexists).
  - by intros [? ?].
  - by intros [? ?].
Qed.

(** ** The advisor graph of a namespace *)
Section graph.
Context {floatText : FloatText} {lowerApi : LowerApi}.

(** The agents of a namespace, by name, as admission sees them. *)
Notation namespace := (gmap string SwarmAgent).

Definition read (s : namespace) (_ ref : string) : get_result SwarmAgent :=
  match s !! ref with Some a => Found a | None => NotFound end.

(** An agent is created, updated or deleted. *)
Inductive change : namespace → namespace → Prop :=
| change_apply s ns agent sar settings ws :
    SwarmAgentPromptValidator_Handle (read s) ns (Ok agent) (Ok <$> s !! agent_Name agent) sar settings
      = Some (Allowed_ "" ws) →
    change s (<[agent_Name agent := agent]> s)
| change_delete s name : change s (delete name s).

(** [a] consults [b]. *)
Definition advises (s : namespace) (a b : string) : Prop :=
  ∃ agent conn, s !! a = Some agent ∧ conn ∈ aspec_Agents (agent_Spec agent) ∧
    is_advisor conn = true ∧ conn_AgentRef conn = Some b.

Lemma change_admissible s ns agent sar settings ws :
  SwarmAgentPromptValidator_Handle (read s) ns (Ok agent) (Ok <$> s !! agent_Name agent) sar settings
    = Some (Allowed_ "" ws) →
  agent_admissible (read s) agent (s !! agent_Name agent) sar settings.
Proof.
  intros H. destruct (agent_handle_cases (read s) ns agent (s !! agent_Name agent) sar settings)
    as (resp & E & [[_ Ha]|[[msg ->] _]]); [done|congruence].
Qed.

(** The new edges end in agents that have none. *)
Lemma admitted_edges s agent old sar settings :
  agent_admissible (read s) agent old sar settings →
  ∀ b, advises (<[agent_Name agent := agent]> s) (agent_Name agent) b →
    b ≠ agent_Name agent ∧ ∀ c, ¬ advises s b c.
Proof.
  intros (_ & _ & Hc & _) b (agent' & conn & Hl & Hin & Hadv & Href).
  rewrite lookup_insert_eq in Hl. simplify_eq.
  rewrite Forall_forall in Hc. specialize (Hc conn Hin). unfold connection_ok in Hc.
  rewrite Hadv in Hc. destruct Hc as (ref & target & tool & Hr & _ & Hne & Hget & Hsink & _).
  rewrite Href in Hr. simplify_eq. split; [done|].
  intros c (target' & conn' & Hl & Hin' & Hadv' & _).
  unfold read in Hget. rewrite Hl in Hget. simplify_eq.
  apply not_true_iff_false in Hsink. apply Hsink, existsb_exists. exists conn'.
  by rewrite <- list_elem_of_In.
Qed.

Lemma advises_insert_ne s name agent a b :
  a ≠ name → advises (<[name := agent]> s) a b ↔ advises s a b.
Proof. intros Hn. unfold advises. by setoid_rewrite lookup_insert_ne; [|done..]. Qed.

Lemma change_keeps_acyclic s s' :
  change s s' → (∀ x, ¬ tc (advises s) x x) → ∀ x, ¬ tc (advises s') x x.
Proof.
  intros Hch Hac. destruct Hch as [s ns agent sar settings ws Hh|s name].
  2: { intros x Hx. apply (Hac x). apply (tc_congruence id (advises s)) in Hx; [exact Hx|].
       intros a b (agent & conn & Hl & H). apply lookup_delete_Some in Hl as [_ Hl]. by exists agent, conn. }
  set (name := agent_Name agent) in *. set (s' := <[name:=agent]> s).
  assert (Hnew : ∀ b, advises s' name b → ∀ c, ¬ advises s b c).
  { intros b Hb. by eapply admitted_edges; [eapply change_admissible|]. }
  assert (Hsink : ∀ b, advises s' name b → ∀ c, ¬ advises s' b c).
  { intros b Hb c Hc. destruct (admitted_edges s agent _ sar settings
      (change_admissible _ _ _ _ _ _ Hh) b Hb) as [Hne Hno].
    apply (Hno c). exact (proj1 (advises_insert_ne s name agent b c Hne) Hc). }
  assert (Hpath : ∀ x y, tc (advises s') x y → tc (advises s) x y ∨ ∀ c, ¬ advises s' y c).
  { induction 1 as [x y E|x y z E _ [IH|IH]]; [| |by right].
    - destruct (decide (x = name)) as [->|Hn]; [right; exact (Hsink y E)|].
      left. apply tc_once. exact (proj1 (advises_insert_ne s name agent x y Hn) E).
    - destruct (decide (x = name)) as [->|Hn].
      + exfalso. destruct IH as [y c Hyc|y c d Hyc _]; by destruct (Hnew y E c).
      + left. eapply tc_l; [exact (proj1 (advises_insert_ne s name agent x y Hn) E)|done]. }
  intros x Hx. destruct (Hpath x x Hx) as [Hc|Hs]; [by apply (Hac x)|].
  inversion Hx; by eapply Hs.
Qed.

(** whatever agents are admitted and deleted, in whatever order, no agent of a namespace
    ever reaches itself through advisor connections. *)
Theorem advisors_acyclic s x : rtc change ∅ s → ¬ tc (advises s) x x.
Proof.
  intros H.
  assert (Hkeep : ∀ s0, rtc change s0 s → (∀ x, ¬ tc (advises s0) x x) → ∀ x, ¬ tc (advises s) x x).
  { clear. induction 1; eauto using change_keeps_acyclic. }
  apply (Hkeep ∅ H). intros y Hy.
  assert (Hf : ∀ z, ¬ advises ∅ y z).
  { intros z (agent & conn & Hl & _). by rewrite lookup_empty in Hl. }
  inversion Hy; by eapply Hf.
Qed.

Definition sized_runtime : AgentRuntime := mkAgentRuntime None None (Some (mkResourceRequirements None None)) None None [] None.

(** An agent without connections, and one whose only advisor is [ref]. *)
Definition agent_with (conns : list AgentConnection) (name : string) : SwarmAgent :=
  mkSwarmAgent name "ns" 1 ∅ ∅
    (mkSwarmAgentSpec "m" [] None None None None [] sized_runtime None conns None None) (ready_status 1).
Definition advisor_connection (ref : string) : AgentConnection :=
  mkAgentConnection "advisor" (Some ref) None AgentConnectionRoleAdvisor
    (Some (mkContextPropagationConfig "ask" 20 3 60 0 262144 false)) TrustUnset "".

Lemma advisor_connection_tool ref : advisor_tool (advisor_connection ref) = Some "ask".
Proof. done. Qed.

Lemma apply_admissible s agent :
  agent_admissible (read s) agent (s !! agent_Name agent) (Ok true) (Ok []) →
  change s (<[agent_Name agent := agent]> s).
Proof.
  intros Ha. destruct (agent_handle_cases (read s) "ns" agent (s !! agent_Name agent) (Ok true) (Ok []))
    as (resp & E & [[[ws ->] _]|[_ Hn]]); [|done]. by eapply change_apply.
Qed.

Lemma change_plain s name : change s (<[name := agent_with [] name]> s).
Proof.
  apply (apply_admissible s (agent_with [] name)). unfold agent_admissible, change_permitted. simpl.
  split; [by vm_compute|]. split; [by destruct (s !! name); [right|]|].
  split; [done|]. split; [apply NoDup_nil_2|]. by repeat split.
Qed.

(** An agent may take any agent without advisors as its advisor, consulted itself or not. *)
Lemma change_advised s name ref target :
  ref ≠ name → s !! ref = Some target → existsb is_advisor (aspec_Agents (agent_Spec target)) = false →
  change s (<[name := agent_with [advisor_connection ref] name]> s).
Proof.
  intros Hne Hl Hs. apply (apply_admissible s (agent_with [advisor_connection ref] name)).
  unfold agent_admissible, change_permitted. simpl.
  split; [by vm_compute|]. split; [by destruct (s !! name); [right|]|].
  split; [|split; [apply NoDup_singleton|by repeat split]].
  apply Forall_singleton. exists ref, target, "ask". unfold read. by rewrite Hl.
Qed.

Lemma advises_agent_with s name ref :
  advises (<[name := agent_with [advisor_connection ref] name]> s) name ref.
Proof.
  exists (agent_with [advisor_connection ref] name), (advisor_connection ref).
  rewrite lookup_insert_eq. split; [done|]. split; [by apply list_elem_of_singleton|done].
Qed.

(** admission does not bound the depth of advice by one: chains of advisors of every length
    can be admitted, by giving an agent that is already an advisor its own. *)
Theorem advisor_chains_unbounded n :
  ∃ s a b, rtc change ∅ s ∧ nsteps (advises s) n a b.
Proof.
  enough (∃ s a b, rtc change ∅ s ∧ nsteps (advises s) n a b ∧ s !! b = Some (agent_with [] b))
    as (s & a & b & ? & ? & _) by by exists s, a, b.
  induction n as [|n (s & a & b & Hr & Hn & Hb)].
  { exists (<["a" := agent_with [] "a"]> ∅), "a", "a".
    split; [apply rtc_once, change_plain|]. split; [constructor|by rewrite lookup_insert_eq]. }
  set (z := fresh (dom s)).
  assert (Hz : s !! z = None) by apply not_elem_of_dom, is_fresh.
  assert (Hzb : z ≠ b) by (intros ->; congruence).
  set (s1 := <[z := agent_with [] z]> s). set (s2 := <[b := agent_with [advisor_connection z] b]> s1).
  exists s2, a, z. split; [|split].
  - apply (rtc_r _ s1); [apply (rtc_r _ s); [exact Hr|apply (change_plain s z)]|].
    by apply (change_advised s1 b z (agent_with [] z)); [|apply lookup_insert_eq|].
  - eapply nsteps_r; [|apply advises_agent_with].
    revert Hn. apply (nsteps_congruence (R:=advises s) id (advises s2) n a b).
    intros x y (agent & conn & Hl & Hin & H). simpl.
    destruct (decide (x = b)) as [->|Hxb].
    { rewrite Hb in Hl. simplify_eq. by apply not_elem_of_nil in Hin. }
    apply advises_insert_ne; [done|]. apply advises_insert_ne; [congruence|]. by exists agent, conn.
  - unfold s2, s1. by rewrite lookup_insert_ne, lookup_insert_eq.
Qed.
End graph.

#[local] Instance lower_bytes : LowerApi := ToLower.
#[local] Instance fixed_text : FloatText := toy_float.

Definition advised_pair : gmap string SwarmAgent :=
  <["a" := agent_with [advisor_connection "b"] "a"]> (<["b" := agent_with [] "b"]> ∅).

Lemma advisors_acyclic_witness :
  rtc change ∅ advised_pair ∧ advises advised_pair "a" "b" ∧ ¬ tc (advises advised_pair) "a" "a".
Proof.
  assert (H : rtc change ∅ advised_pair).
  { eapply rtc_l; [apply (change_plain ∅ "b")|]. apply rtc_once.
    by apply (change_advised _ "a" "b" (agent_with [] "b")). }
  split; [exact H|]. split; [apply advises_agent_with|]. apply (advisors_acyclic _ _ H).
Defined.

(** the reserved names are checked for the tools of an agent but not for its advisors: a
    gateway agent whose advisor registers the tool ["dispatch"] is admitted. *)
Theorem advisor_may_take_reserved_name {floatText : FloatText} {lowerApi : LowerApi} :
  ∃ s agent conn ws,
    aspec_Gateway (agent_Spec agent) ≠ None ∧ conn ∈ aspec_Agents (agent_Spec agent) ∧
    advisor_tool conn = Some "dispatch" ∧ "dispatch" ∈ reservedToolNames ∧
    SwarmAgentPromptValidator_Handle (read s) "ns" (Ok agent) None (Ok true) (Ok []) = Some (Allowed_ "" ws).
Proof.
  exists {["b" := agent_with [] "b"]}.
  set (conn := mkAgentConnection "advisor" (Some "b") None AgentConnectionRoleAdvisor
                 (Some (mkContextPropagationConfig "dispatch" 20 3 60 0 262144 false)) TrustUnset "").
  set (agent := mkSwarmAgent "a" "ns" 1 ∅ ∅
    (mkSwarmAgentSpec "m" [] None None None None [] sized_runtime None [conn] (Some (mkGatewayConfig [] [] false "default" DispatchModeUnset 0 0 0 0 0 None)) None)
    (ready_status 1)).
  exists agent, conn, []. repeat split; try done; try (apply list_elem_of_In; simpl; tauto).
Qed.

(** the guard of the prompt compares the inline text only.  When that is unchanged, the
    verdict does not depend on the access review, whatever [spec.prompt.from] refers to. *)
Theorem prompt_reference_unguarded {floatText : FloatText} {lowerApi : LowerApi}
    get_agent ns agent old sar sar' settings :
  prompt_inline agent = prompt_inline old →
  SwarmAgentPromptValidator_Handle get_agent ns (Ok agent) (Some (Ok old)) sar settings =
  SwarmAgentPromptValidator_Handle get_agent ns (Ok agent) (Some (Ok old)) sar' settings.
Proof.
  intros H. unfold SwarmAgentPromptValidator_Handle, prompt_guard. by rewrite (proj2 (String.eqb_eq _ _) H).
Qed.

Definition prompt_from (name : string) (ref : string) : SwarmAgent :=
  mkSwarmAgent name "ns" 1 ∅ ∅
    (mkSwarmAgentSpec "m" [] None None None (Some (mkAgentPrompt "" (Some (mkSystemPromptSource (Some (mkKeySelector ref "prompt")) None)))) [] sized_runtime None [] None None)
    (ready_status 1).

Lemma prompt_reference_unguarded_witness :
  aspec_Prompt (agent_Spec (prompt_from "a" "evil")) ≠ aspec_Prompt (agent_Spec (prompt_from "a" "good")) ∧
  SwarmAgentPromptValidator_Handle (read ∅) "ns" (Ok (prompt_from "a" "evil")) (Some (Ok (prompt_from "a" "good")))
    (Ok false) (Ok []) = Some (Allowed_ "" []).
Proof.
  split; [done|].
  rewrite (prompt_reference_unguarded (read ∅) "ns" (prompt_from "a" "evil") (prompt_from "a" "good")
             (Ok false) (Ok true) (Ok []) eq_refl).
  by vm_compute.
Defined.

(** settings add up: the allowlists of a namespace are joined, so the servers that one
    SwarmSettings would deny are admitted once another lists their prefix. *)
Theorem mcp_settings_relax ns agent first second :
  mcp_require_auth [first; second] = false →
  (∀ t srv, aspec_Tools (agent_Spec agent) = Some t → srv ∈ tools_MCP t →
     ∃ pre, pre ∈ mcp_allowlist [second] ∧ HasPrefix (mcptool_URL srv) pre = true) →
  checkMCPPolicy (Ok [first; second]) ns agent = None.
Proof.
  intros Ha H. apply checkMCPPolicy_none. unfold mcp_ok. apply Forall_forall. intros srv Hs.
  destruct (aspec_Tools (agent_Spec agent)) as [t|]; [|by apply not_elem_of_nil in Hs].
  destruct (H t srv eq_refl Hs) as (pre & Hp & Hu). split; [|congruence].
  right. right. exists pre. split; [|done].
  unfold mcp_allowlist in *. rewrite bind_cons. apply elem_of_app. by right.
Qed.

Lemma mcp_settings_relax_witness :
  let srv := mkMCPToolSpec "db" "https://db.internal/x" None "" TrustUnset "" [] None in
  let agent := mkSwarmAgent "a" "ns" 1 ∅ ∅
    (mkSwarmAgentSpec "m" [] None None None None [] sized_runtime (Some (mkAgentTools [srv] [])) [] None None)
    (ready_status 1) in
  let strict := security_settings (mkSwarmSettingsSecurity ["https://vetted/"] false) in
  let loose := security_settings (mkSwarmSettingsSecurity ["https://db"] false) in
  is_Some (checkMCPPolicy (Ok [strict]) "ns" agent) ∧
  checkMCPPolicy (Ok [strict; loose]) "ns" agent = None.
Proof.
  split; [by eexists|]. apply mcp_settings_relax; [done|].
  intros t srv [= <-] ->%list_elem_of_singleton. exists "https://db".
  by split; [apply list_elem_of_singleton|].
Defined.

(** ** The prompts of a team *)
Definition role_size (role : SwarmTeamRole) : Z := inline_size (role_Prompt role).
Definition prompt_total (roles : list SwarmTeamRole) : Z :=
  foldr (λ r total, role_size r + total) 0 roles.

Lemma role_size_nonneg role : 0 ≤ role_size role.
Proof. unfold role_size, inline_size, str_len. destruct (role_Prompt role); lia. Qed.

Lemma prompt_total_nonneg roles : 0 ≤ prompt_total roles.
Proof.
  induction roles as [|r roles IH]; [done|]. unfold prompt_total in *. simpl.
  pose proof (role_size_nonneg r). lia.
Qed.

Lemma scan_roles_spec {floatText : FloatText} roles total ws :
  0 ≤ total → total + Z.of_nat (length roles) * promptDenyBytes < 2 ^ 63 →
  match scan_roles roles total ws with
  | inl _ => Exists (λ r, promptDenyBytes < role_size r) roles
  | inr (total', _) => Forall (λ r, role_size r ≤ promptDenyBytes) roles ∧
                       total' = total + prompt_total roles
  end.
Proof.
  revert total ws. induction roles as [|r roles IH]; intros total ws Ht Hb.
  { split; [constructor|]. unfold prompt_total. simpl. lia. }
  simpl scan_roles.
  fold (role_size r). pose proof (role_size_nonneg r) as Hr.
  assert (Hd : 0 < promptDenyBytes) by done. rewrite length_cons, Nat2Z.inj_succ in Hb.
  assert (Hp : prompt_total (r :: roles) = role_size r + prompt_total roles) by done. rewrite Hp.
  destruct (Z.eqb_spec (role_size r) 0) as [E|E].
  { specialize (IH total ws Ht ltac:(lia)). destruct (scan_roles _ _ _) as [|[t' ?]]; [by right|].
    rewrite Forall_cons. destruct IH. split; [split; [lia|done]|lia]. }
  destruct (Z.gtb_spec (role_size r) promptDenyBytes) as [G|G]; [left; lia|].
  rewrite (wrap_id 64) by (unfold in_width, min_int, max_int; simpl Z.pow in *; lia).
  specialize (IH (total + role_size r)
    (if role_size r >? PromptWarnBytes then ws ++ [large r (role_size r)] else ws) ltac:(lia) ltac:(lia)).
  destruct (scan_roles _ _ _) as [|[t' ?]]; [by right|].
  rewrite Forall_cons. destruct IH. split; [by split|lia].
Qed.

(** a SwarmTeam is denied exactly when some role has an inline prompt over 512 KB or the
    inline prompts of all roles together exceed 800 KB; otherwise it is allowed. *)
Theorem team_prompt_verdict {floatText : FloatText} team :
  Z.of_nat (length (team_Roles (team_Spec team))) < 2 ^ 40 →
  (rejects (SwarmTeamPromptValidator_Handle (Ok team)) ↔
     Exists (λ r, promptDenyBytes < role_size r) (team_Roles (team_Spec team)) ∨
     teamTotalDenyBytes < prompt_total (team_Roles (team_Spec team))) ∧
  (rejects (SwarmTeamPromptValidator_Handle (Ok team)) ∨ ∃ ws, SwarmTeamPromptValidator_Handle (Ok team) = Allowed_ "" ws).
Proof.
  intros Hl. unfold SwarmTeamPromptValidator_Handle, with_warnings.
  pose proof (scan_roles_spec (team_Roles (team_Spec team)) 0 [] ltac:(lia)
    ltac:(unfold promptDenyBytes; change (2 ^ 63) with 9223372036854775808;
          change (2 ^ 40) with 1099511627776 in Hl; lia)) as H.
  destruct (scan_roles _ _ _) as [msg|[total ws]].
  { split; [|left; by eexists]. split; [by left|intros _; by eexists]. }
  destruct H as [Hf ->]. rewrite Z.add_0_l.
  assert (Hn : ¬ Exists (λ r, promptDenyBytes < role_size r) (team_Roles (team_Spec team))).
  { intros (r & Hin & Hr)%Exists_exists. rewrite Forall_forall in Hf. specialize (Hf r Hin). lia. }
  destruct (Z.gtb_spec (prompt_total (team_Roles (team_Spec team))) teamTotalDenyBytes) as [G|G].
  - split; [|left; by eexists]. split; [by right|intros _; by eexists].
  - split; [|right; by eexists]. split; [by intros [? ?]|]. intros [?|?]; [done|lia].
Qed.

(** ** The policies for teams *)
Lemma step_messages_nil level steps :
  step_message level <$>
    filter (λ step, checkStepValidationLevel step level = false) steps = [] ↔
  Forall (λ step, checkStepValidationLevel step level = true) steps.
Proof. rewrite filter_errors_nil. by setoid_rewrite not_false_iff_true. Qed.

(** The level that the policies require together: the strictest of theirs. *)
Definition strictest_level (ps : list SwarmPolicy) : PolicyOutputLevel :=
  foldl merge_validation PolicyOutputLevelNone (pol_validation <$> ps).

Lemma fetch_merged p ps :
  fetchEffectivePolicyForWebhook (Ok (p :: ps)) =
    inl (merge_finish (foldl merge_policy merge_init (p :: ps))).
Proof. done. Qed.

Lemma strictest_mode_enforce ps :
  strictest_mode ps = PolicyEnforcementEnforce ↔ ∃ p, p ∈ ps ∧ pol_mode p = PolicyEnforcementEnforce.
Proof.
  destruct (strictest_mode_spec PolicyEnforcementAudit (pol_mode <$> ps)) as (M1 & _ & M3).
  fold (strictest_mode ps) in M1, M3. split.
  - intros E. rewrite E in M1. destruct M1 as [|(p & Hm & Hp)%list_elem_of_fmap_1]; [done|eauto].
  - intros (p & Hp & Hm). specialize (M3 (pol_mode p)). rewrite Hm in M3.
    assert (H : PolicyEnforcementEnforce ∈ pol_mode <$> ps)
      by (rewrite <- Hm; by apply list_elem_of_fmap_2).
    specialize (M3 H). destruct (strictest_mode ps); simpl in M3; lia || done.
Qed.

Lemma filter_errors_some {A B} (f : A → B) (P : A → Prop) `{∀ x, Decision (P x)} l :
  f <$> filter P l ≠ [] ↔ ∃ x, x ∈ l ∧ P x.
Proof.
  rewrite filter_errors_nil. split.
  - intros Hn. destruct (filter P l) as [|x xs] eqn:E.
    + destruct Hn. apply (proj1 (filter_errors_nil f P l)). by rewrite E.
    + assert (Hx : x ∈ filter P l) by (rewrite E; by left).
      apply list_elem_of_filter in Hx as [? ?]. by exists x.
  - intros (x & Hin & Hx) Hf. rewrite Forall_forall in Hf. by destruct (Hf x Hin).
Qed.

Lemma team_rejects team ps :
  rejects (SwarmTeamPolicyValidator_Handle (Ok team) (Ok ps)) ↔
    (∃ p, p ∈ ps ∧ pol_mode p = PolicyEnforcementEnforce) ∧
    ∃ step, step ∈ team_Pipeline (team_Spec team) ∧
      checkStepValidationLevel step (strictest_level ps) = false.
Proof.
  destruct ps as [|p ps]; [split; [by intros [? ?]|]; by intros [(? & ?%not_elem_of_nil & _) _]|].
  rewrite <- strictest_mode_enforce. unfold SwarmTeamPolicyValidator_Handle, rejects. rewrite fetch_merged, merge_finish_eq.
  cbn [MinValidation EnforcementMode]. fold (strictest_mode (p :: ps)).
  change (foldl merge_validation PolicyOutputLevelNone (pol_validation <$> p :: ps))
    with (strictest_level (p :: ps)).
  generalize (strictest_mode (p :: ps)) (strictest_level (p :: ps)). intros mode level.
  destruct level.
  1-2: by split; [intros [? ?]|intros (_ & ? & _ & ?)].
  all: destruct (team_Pipeline (team_Spec team)) as [|step steps];
    [by split; [intros [? ?]|intros (_ & ? & ?%not_elem_of_nil & _)]|].
  all: match goal with
       | |- context [step_message ?l <$> ?xs] =>
           pose proof (filter_errors_some (step_message l) _ (step :: steps)
             : step_message l <$> xs ≠ [] ↔ _) as Hex;
           destruct (step_message l <$> xs) as [|m ms]
       end.
  all: rewrite <- Hex; unfold applyEnforcementMode;
    (split; [intros [? ?]|intros [? ?]]; [split; [by destruct mode|done]|destruct mode; eauto || done]).
Qed.

(** a SwarmTeam is rejected by the policies of its namespace exactly when one of them
    is in mode Enforce and some step of the pipeline lacks the validation of the strictest
    level asked for; and when the policies cannot be listed every team is let in. *)
Theorem team_policy_verdict team ps e :
  (rejects (SwarmTeamPolicyValidator_Handle (Ok team) (Ok ps)) ↔
     (∃ p, p ∈ ps ∧ pol_mode p = PolicyEnforcementEnforce) ∧
     ∃ step, step ∈ team_Pipeline (team_Spec team) ∧
       checkStepValidationLevel step (strictest_level ps) = false) ∧
  ¬ rejects (SwarmTeamPolicyValidator_Handle (Ok team) (Err e)).
Proof. split; [apply team_rejects|by intros [? ?]]. Qed.

(** policies for teams do not add up.  The levels of validation are independent, but only
    the strictest is kept: two policies in mode Enforce, one asking for patterns and one for
    semantic validation, admit a team with semantic validation alone, which the first policy
    on its own rejects. *)
Theorem team_policies_mask_levels team p q :
  pol_validation p = PolicyOutputLevelPattern → pol_validation q = PolicyOutputLevelSemantic →
  (∀ step, step ∈ team_Pipeline (team_Spec team) →
     checkStepValidationLevel step PolicyOutputLevelSemantic = true) →
  ¬ rejects (SwarmTeamPolicyValidator_Handle (Ok team) (Ok [p; q])).
Proof.
  intros Hp Hq Hs (_ & step & Hin & Hc)%team_rejects.
  assert (E : strictest_level [p; q] = PolicyOutputLevelSemantic)
    by (unfold strictest_level; simpl; by rewrite Hp, Hq).
  rewrite E in Hc. by rewrite (Hs step Hin) in Hc.
Qed.

(** ** The search roles of a team *)

(** the search configuration of a team is valid exactly when each role it names is one of
    the team's; every missing role gives an error of its own, in the order planner, executor,
    evaluator. *)
Theorem ValidateSearchConfig_spec team :
  let known r := r ∈ role_Name <$> team_Roles (team_Spec team) in
  match team_Search (team_Spec team) with
  | None => ValidateSearchConfig team = []
  | Some search =>
      (ValidateSearchConfig team = [] ↔
         known (PlannerRole search) ∧ known (ExecutorRole search) ∧
         ∀ r, EvaluatorRole search = Some r → known r) ∧
      (length (ValidateSearchConfig team) ≤ 3)%nat
  end.
Proof.
  intros known. unfold ValidateSearchConfig.
  destruct (team_Search (team_Spec team)) as [search|]; [|done].
  assert (Hm : ∀ field r, (missing_role (team_Roles (team_Spec team)) field r = [] ↔ known r) ∧
            (length (missing_role (team_Roles (team_Spec team)) field r) ≤ 1)%nat).
  { intros field r. unfold missing_role. fold (known r). case_bool_decide; simpl; split; lia || done. }
  rewrite !app_nil, !length_app.
  destruct (Hm "plannerRole" (PlannerRole search)) as [-> ?], (Hm "executorRole" (ExecutorRole search)) as [-> ?].
  destruct (EvaluatorRole search) as [r|]; simpl.
  - destruct (Hm "evaluatorRole" r) as [-> ?]. split; [naive_solver|lia].
  - split; [naive_solver|lia].
Qed.

(** ** Witnesses *)
Lemma team_prompt_verdict_witness :
  rejects (SwarmTeamPromptValidator_Handle (Ok (plain_team [plain_role "a"] []))) ↔
    Exists (λ r, promptDenyBytes < role_size r) [plain_role "a"] ∨
    teamTotalDenyBytes < prompt_total [plain_role "a"].
Proof. apply (team_prompt_verdict (plain_team [plain_role "a"] [])). done. Defined.

Definition level_policy (level : PolicyOutputLevel) : SwarmPolicy :=
  mkSwarmPolicy "p" 1 (mkSwarmPolicySpec PolicyEnforcementEnforce None None
    (Some (mkPolicyOutput level [])) None no_requirements) (mkSwarmPolicyStatus 0 0 None 0 []).

Definition semantic_step : SwarmTeamPipelineStep :=
  mkSwarmTeamPipelineStep "a" ∅ [] "" None ""
    (Some (mkStepValidation "" "" "is it right?" "" OnFailureFail 0 [])) [] ∅ None None 0.

Lemma team_policies_mask_levels_witness :
  rejects (SwarmTeamPolicyValidator_Handle (Ok (plain_team [] [semantic_step])) (Ok [level_policy PolicyOutputLevelPattern])) ∧
  ¬ rejects (SwarmTeamPolicyValidator_Handle (Ok (plain_team [] [semantic_step]))
      (Ok [level_policy PolicyOutputLevelPattern; level_policy PolicyOutputLevelSemantic])).
Proof.
  split; [by eexists|]. apply team_policies_mask_levels; [done..|].
  by intros step ->%list_elem_of_singleton.
Defined.
