(* ===== verification/Event.v ===== *)
(** * Event: triggers (api/v1alpha1/swarmevent_types.go,
    internal/controller/swarmevent_controller.go).

    A SwarmEvent fires on a cron schedule, on a webhook or when a team completes, and creates a
    run for each of its targets.  The API server's runs are a list; a run whose name is taken
    cannot be created.  robfig/cron and the formatting of times are classes.  The clock is read
    where the code reads it.  The cache of parsed templates holds what parsing returns and is
    left out; owner references cannot fail on a new object of the same namespace. *)
From Stdlib Require Import ZArith Lia.
From stdpp Require Import base tactics option list strings gmap.
From S2P Require Import Prelude GoStd Types Costs AgentTypes Kube.

(** ** swarmevent_types.go *)
Inductive TriggerSourceType :=
| TriggerSourceCron | TriggerSourceWebhook | TriggerSourceTeamOutput | TriggerSourceOther (s : string).

Inductive ConcurrencyPolicy := ConcurrencyUnset | ConcurrencyAllow | ConcurrencyForbid.

Record TeamOutputSource := mkTeamOutputSource {
  output_Name : string;
  OnPhase : SwarmTeamPhase }.

Record SwarmEventSource := mkSwarmEventSource {
  source_Type : TriggerSourceType;
  Cron : string;
  TeamOutput : option TeamOutputSource }.

Record SwarmEventTarget := mkSwarmEventTarget {
  target_Team : string;
  target_Agent : string;
  target_Prompt : string;
  target_Input : gmap string string }.

Record SwarmEventSpec := mkSwarmEventSpec {
  Source : SwarmEventSource;
  Targets : list SwarmEventTarget;
  event_ConcurrencyPolicy : ConcurrencyPolicy;
  Suspended : bool }.

Record SwarmEventStatus := mkSwarmEventStatus {
  LastFiredAt : option Z;
  NextFireAt : option Z;
  FiredCount : Z;
  WebhookURL : string;
  event_ObservedGeneration : Z;
  event_Conditions : list StatusCondition }.

#[export] Instance eta_SwarmEventStatus : Settable SwarmEventStatus := λ s,
  mkSwarmEventStatus (LastFiredAt s) (NextFireAt s) (FiredCount s) (WebhookURL s)
    (event_ObservedGeneration s) (event_Conditions s).

Record SwarmEvent := mkSwarmEvent {
  event_Name : string;
  event_Namespace : string;
  event_UID : string;
  event_ResourceVersion : string;
  event_Generation : Z;
  event_Spec : SwarmEventSpec;
  event_Status : SwarmEventStatus }.

#[export] Instance eta_SwarmEvent : Settable SwarmEvent := λ e,
  mkSwarmEvent (event_Name e) (event_Namespace e) (event_UID e) (event_ResourceVersion e)
    (event_Generation e) (event_Spec e) (event_Status e).

#[export] Instance ConcurrencyPolicy_eq_dec : EqDecision ConcurrencyPolicy.
Proof. solve_decision. Defined.
#[export] Instance SwarmTeamPhase_eq_dec : EqDecision SwarmTeamPhase.
Proof. solve_decision. Defined.

Definition LabelTrigger := "kubeswarm/trigger".
Definition LabelTriggerTemplate := "kubeswarm/trigger-template".
Definition LabelAgent := "kubeswarm/agent".
Definition AnnotationStreamKey := "kubeswarm/stream-key".

(** ** Interfaces *)

(** [Time.Format] with the layouts [time.RFC3339] and ["20060102-150405"], in UTC. *)
Class TimeText := { format_RFC3339 : Z → string; format_suffix : Z → string }.

(** Both layouts show whole seconds. *)
Class TimeTextLaws (T : TimeText) : Prop :=
  format_suffix_second : ∀ t u, t / second = u / second → format_suffix t = format_suffix u.

(** github.com/robfig/cron: schedules and their next activation. *)
Class CronApi := {
  Schedule : Type;
  ParseStandard : string → result string Schedule;
  schedule_Next : Schedule → Z → Z }.

(** What the library documents: [Next] returns the next activation, later than the given time;
    an activation is at a whole second; without one within five years it returns the zero time. *)
Class CronLaws (C : CronApi) := {
  active : Schedule → Z → Prop;
  next_spec : ∀ s t,
    (t < schedule_Next s t ∧ active s (schedule_Next s t) ∧
     ∀ u, t < u < schedule_Next s t → ¬ active s u) ∨
    (schedule_Next s t = zero_time ∧
     ∀ u, t < u ≤ t + 5 * 365 * nanosecond_day → ¬ active s u);
  active_second : ∀ s u, active s u → u mod second = 0 }.

(** ** Firing *)
Record FireContext := mkFireContext {
  fire_Name : string;
  fire_FiredAt : string;
  fire_Output : string;
  fire_Body : list (string * any);
  fire_StreamKey : string }.

Definition routedOutput (team : SwarmTeam) : string :=
  if negb (String.eqb (team_Output (team_Spec team)) "") then team_Output (team_Spec team)
  else match team_Routing (team_Spec team) with
       | Some _ => "{{ .steps.route.output }}"
       | None => ""
       end.

Definition unfinished (phase : SwarmRunPhase) : bool :=
  match phase with RunUnset | RunPending | RunRunning => true | _ => false end.

Definition hasRunningRun (listed : result string (list RunResource)) (trigger : SwarmEvent)
    : result string bool :=
  runs <-? listed;
  Ok (existsb (λ o, unfinished (Phase (Status (object_Run o))))
        (filter (λ o, has_label LabelTrigger (event_Name trigger) o = true) runs)).

Definition trigger_owner (trigger : SwarmEvent) : OwnerReference :=
  mkOwnerReference "SwarmEvent" (event_Name trigger) (event_UID trigger) true.

Definition no_run_status : SwarmRunStatus :=
  mkSwarmRunStatus RunUnset [] "" None None None "" None 0 [].

Section fire.
Context {templateApi : TemplateApi} {timeText : TimeText}.
(** The order in which a range visits the keys of a map. *)
Variable input_order : gmap string string → list string.
Variable get_team : string → string → get_result SwarmTeam.
Variable get_agent : string → string → get_result SwarmAgent.
(** The error of the API server for a run whose name is free, and the time of its creation. *)
Variable create_error : RunResource → option string.
Variable created_at : RunResource → Z.

Definition trigger_data (ctx : FireContext) : any :=
  AMap [("trigger", AMap [("name", AString (fire_Name ctx)); ("firedAt", AString (fire_FiredAt ctx));
                          ("output", AString (fire_Output ctx)); ("body", AMap (fire_Body ctx))])].

Definition resolveTriggerTemplate (expr : string) (ctx : FireContext) : result string string :=
  match template_Parse expr with
  | Err _ => Ok expr
  | Ok t => template_Execute t (trigger_data ctx)
  end.

(** The loop over the overrides of a target. *)
Fixpoint resolve_inputs (ctx : FireContext) (overrides : gmap string string) (keys : list string)
    (acc : gmap string string) : result string (gmap string string) :=
  match keys with
  | [] => Ok acc
  | k :: keys =>
      match resolveTriggerTemplate (default "" (overrides !! k)) ctx with
      | Ok v => resolve_inputs ctx overrides keys (<[k := v]> acc)
      | Err e => Err ("resolving input " +:+ Quote k +:+ ": " +:+ e)
      end
  end.

Definition stream_annotations (ctx : FireContext) : gmap string string :=
  if String.eqb (fire_StreamKey ctx) "" then ∅ else {[AnnotationStreamKey := fire_StreamKey ctx]}.

Definition get_error {A} (r : get_result A) : string :=
  match r with GetFailed e => e | _ => "not found" end.

(** [now] is the clock when the name of the run is made. *)
Definition buildRun (trigger : SwarmEvent) (target : SwarmEventTarget) (ctx : FireContext) (now : Z)
    : result string RunResource :=
  match get_team (event_Namespace trigger) (target_Team target) with
  | Found tmpl =>
      let spec := team_Spec tmpl in
      resolvedInput <-? resolve_inputs ctx (target_Input target) (input_order (target_Input target))
                          (team_Input spec);
      Ok (mkRunResource
        (mkSwarmRun (event_Name trigger +:+ "-" +:+ target_Team target +:+ "-" +:+ format_suffix now)
           (event_Namespace trigger) 1
           (mkSwarmRunSpec (target_Team target) "" "" (team_Generation tmpl) resolvedInput ""
              (team_Pipeline spec) (team_DefaultContextPolicy spec) (team_Roles spec)
              (routedOutput tmpl) (team_Routing spec) None (team_TimeoutSeconds spec)
              (team_MaxTokens spec))
           no_run_status)
        (<[LabelTrigger := event_Name trigger]>
           (<[LabelTriggerTemplate := target_Team target]> {[LabelTeam := target_Team target]}))
        (stream_annotations ctx) 0
        [trigger_owner trigger; mkOwnerReference "SwarmTeam" (team_Name tmpl) (team_UID tmpl) false])
  | r => Err ("team template " +:+ Quote (target_Team target) +:+ " not found: " +:+ get_error r)
  end.

Definition agent_timeout (r : get_result SwarmAgent) : Z :=
  match r with
  | Found agent =>
      match Guardrails (agent_Spec agent) with
      | Some g => match guard_Limits g with Some l => limits_TimeoutSeconds l | None => 0 end
      | None => 0
      end
  | _ => 0
  end.

Definition buildAgentRun (trigger : SwarmEvent) (target : SwarmEventTarget) (ctx : FireContext) (now : Z)
    : result string RunResource :=
  match resolveTriggerTemplate (target_Prompt target) ctx with
  | Err e => Err ("resolving prompt for agent " +:+ Quote (target_Agent target) +:+ ": " +:+ e)
  | Ok prompt =>
      Ok (mkRunResource
        (mkSwarmRun (event_Name trigger +:+ "-" +:+ target_Agent target +:+ "-" +:+ format_suffix now)
           (event_Namespace trigger) 1
           (mkSwarmRunSpec "" (target_Agent target) prompt 0 ∅ "" [] None [] "" None None
              (agent_timeout (get_agent (event_Namespace trigger) (target_Agent target))) 0)
           no_run_status)
        (<[LabelTrigger := event_Name trigger]> {[LabelAgent := target_Agent target]})
        (stream_annotations ctx) 0 [trigger_owner trigger])
  end.

(** The API server: a new run with a free name is stored, unless the server fails. *)
Definition stored (run : RunResource) : RunResource :=
  mkRunResource (object_Run run) (object_Labels run) (object_Annotations run) (created_at run)
    (object_Owners run).

Definition create (cluster : list RunResource) (run : RunResource) : result string (list RunResource) :=
  if bool_decide (object_Name run ∈ object_Name <$> cluster)
  then Err ("swarmruns.kubeswarm.io " +:+ Quote (object_Name run) +:+ " already exists")
  else match create_error run with
       | Some e => Err e
       | None => Ok (cluster ++ [stored run])
       end.

Definition target_key (target : SwarmEventTarget) : string :=
  if String.eqb (target_Agent target) "" then target_Team target else target_Agent target.

Definition build (trigger : SwarmEvent) (target : SwarmEventTarget) (ctx : FireContext) (now : Z)
    : result string RunResource :=
  if String.eqb (target_Agent target) "" then buildRun trigger target ctx now
  else buildAgentRun trigger target ctx now.

(** The runs of the cluster after the loop over the targets, and its result; [clock] gives the
    time at which each run is built. *)
Fixpoint fire_targets (trigger : SwarmEvent) (ctx : FireContext) (clock : nat → Z)
    (targets : list SwarmEventTarget) (cluster runs : list RunResource)
    : list RunResource * result string (list RunResource) :=
  match targets with
  | [] => (cluster, Ok runs)
  | target :: rest =>
      match build trigger target ctx (clock 0%nat) with
      | Err e => (cluster, Err ("building run for target " +:+ Quote (target_key target) +:+ ": " +:+ e))
      | Ok run =>
          match create cluster run with
          | Err e => (cluster, Err ("creating run for target " +:+ Quote (target_key target) +:+ ": " +:+ e))
          | Ok cluster => fire_targets trigger ctx (λ n, clock (S n)) rest cluster (runs ++ [run])
          end
      end
  end.

Definition fire (trigger : SwarmEvent) (ctx : FireContext) (clock : nat → Z)
    (listed : result string (list RunResource)) (cluster : list RunResource)
    : list RunResource * result string (list RunResource) :=
  if bool_decide (event_ConcurrencyPolicy (event_Spec trigger) = ConcurrencyForbid)
  then match hasRunningRun listed trigger with
       | Err e => (cluster, Err e)
       | Ok true => (cluster, Ok [])
       | Ok false => fire_targets trigger ctx clock (Targets (event_Spec trigger)) cluster []
       end
  else fire_targets trigger ctx clock (Targets (event_Spec trigger)) cluster [].
End fire.

(** ** The schedule *)
Section schedule.
Context {cronApi : CronApi}.

Definition day : Z := 24 * 3600 * second.

(** The loop of [mostRecentSchedule]; [None] when the fuel runs out. *)
Fixpoint recent_loop (fuel : nat) (schedule : Schedule) (now t : Z) (last : option Z)
    : option (option Z) :=
  match fuel with
  | O => None
  | S fuel =>
      let next := schedule_Next schedule t in
      if now <? next then Some last else recent_loop fuel schedule now next (Some next)
  end.

(** From the later of the last fire and a day ago. *)
Definition lookback_of (now : Z) (lastFired : option Z) : Z :=
  match lastFired with
  | Some l => if now - day <? l then l else now - day
  | None => now - day
  end.

Definition mostRecentSchedule (fuel : nat) (schedule : Schedule) (now : Z) (lastFired : option Z)
    : option (option Z) :=
  recent_loop fuel schedule now (lookback_of now lastFired) None.

(** More rounds than a day has seconds. *)
Definition cron_fuel : nat := Z.to_nat (24 * 3600 + 2).
End schedule.

(** ** The reconciler *)
Section reconcile.
Context {templateApi : TemplateApi} {timeText : TimeText} {cronApi : CronApi} {conditionApi : ConditionApi}.
Variable input_order : gmap string string → list string.
Variable get_team : string → string → get_result SwarmTeam.
Variable get_agent : string → string → get_result SwarmAgent.
Variable create_error : RunResource → option string.
Variable created_at : RunResource → Z.
(** The base URL of the operator's webhook server. *)
Variable TriggerWebhookURL : string.

Definition set_event_condition (trigger : SwarmEvent) (status : ConditionStatus) (reason msg : string)
    : SwarmEvent :=
  trigger <| event_Status ::= λ s, s <| event_Conditions ::= λ l,
    setCondition l (event_Generation trigger) "" status reason msg |> |>.

Definition fired_at (trigger : SwarmEvent) (now : Z) : SwarmEvent :=
  trigger <| event_Status ::= λ s,
    s <| LastFiredAt := Some now |> <| FiredCount := wrap64 (FiredCount s + 1) |> |>.

(** The parsed schedules, by the UID of the trigger, with the version they were parsed from. *)
Notation cron_cache := (gmap string (string * Schedule)).

Definition cached_schedule (cache : cron_cache) (trigger : SwarmEvent) : option Schedule :=
  match cache !! event_UID trigger with
  | Some (version, schedule) =>
      if String.eqb version (event_ResourceVersion trigger) then Some schedule else None
  | None => None
  end.

Definition load_schedule (cache : cron_cache) (trigger : SwarmEvent) : result string Schedule * cron_cache :=
  match cached_schedule cache trigger with
  | Some schedule => (Ok schedule, cache)
  | None =>
      match ParseStandard (Cron (Source (event_Spec trigger))) with
      | Ok schedule => (Ok schedule, <[event_UID trigger := (event_ResourceVersion trigger, schedule)]> cache)
      | Err e => (Err e, cache)
      end
  end.

(** What the handlers of the three sources share: the trigger with its new status and the result,
    or an error; and the runs. *)
Record handled := mkHandled {
  h_cluster : list RunResource;
  h_result : result string (SwarmEvent * option Z) }.

(** The clocks of one reconciliation: when the decision is made, when each run is named, and when
    the delay is computed. *)
Record clocks := mkClocks { t_now : Z; t_build : nat → Z; t_until : Z }.

Definition due (lastScheduled lastFired : option Z) : bool :=
  match lastScheduled with
  | None => false
  | Some s => match lastFired with None => true | Some f => f <? s end
  end.

(** The firing of [reconcileCron] and the status it leaves. *)
Definition cron_step (t : clocks) (listed : result string (list RunResource)) (cluster : list RunResource)
    (trigger : SwarmEvent) (schedule : Schedule) (lastScheduled : option Z) : handled :=
  let finish trigger :=
    let next := schedule_Next schedule (t_now t) in
    let trigger := trigger <| event_Status ::= λ s, s <| NextFireAt := Some next |> |> in
    (set_event_condition trigger ConditionTrue "Active" ("next fire at " +:+ format_RFC3339 next),
     Some (wrap64 (time_Sub next (t_until t) + second))) in
  if due lastScheduled (LastFiredAt (event_Status trigger)) then
    let ctx := mkFireContext (event_Name trigger) (format_RFC3339 (t_now t)) "" [] "" in
    match fire input_order get_team get_agent create_error created_at trigger ctx (t_build t) listed cluster with
    | (cluster, Err e) => mkHandled cluster (Err e)
    | (cluster, Ok _) => mkHandled cluster (Ok (finish (fired_at trigger (t_now t))))
    end
  else mkHandled cluster (Ok (finish trigger)).

(** [None] when the search for the last activation does not end within the fuel. *)
Definition reconcileCron (fuel : nat) (t : clocks) (listed : result string (list RunResource))
    (cluster : list RunResource) (cache : cron_cache) (trigger : SwarmEvent)
    : option (handled * cron_cache) :=
  if String.eqb (Cron (Source (event_Spec trigger))) "" then
    Some (mkHandled cluster (Ok (set_event_condition trigger ConditionFalse "InvalidCron"
            "spec.source.cron is required for cron type", None)), cache)
  else match load_schedule cache trigger with
  | (Err e, cache) =>
      Some (mkHandled cluster (Ok (set_event_condition trigger ConditionFalse "InvalidCron"
              ("invalid cron expression " +:+ Quote (Cron (Source (event_Spec trigger))) +:+ ": " +:+ e),
              None)), cache)
  | (Ok schedule, cache) =>
      lastScheduled ← mostRecentSchedule fuel schedule (t_now t) (LastFiredAt (event_Status trigger));
      Some (cron_step t listed cluster trigger schedule lastScheduled, cache)
  end.

(** The token: [Some] when a Secret is created. *)
Definition ensureWebhookToken (secret : get_result string) (random : result string string)
    (secret_error : option string) : result string (option string) :=
  match secret with
  | Found _ => Ok None
  | GetFailed e => Err e
  | NotFound =>
      match random with
      | Err e => Err ("generating webhook token: " +:+ e)
      | Ok token => match secret_error with Some e => Err e | None => Ok (Some token) end
      end
  end.

Definition webhook_url_of (trigger : SwarmEvent) : string :=
  TriggerWebhookURL +:+ "/triggers/" +:+ event_Namespace trigger +:+ "/" +:+ event_Name trigger +:+ "/fire".

Definition reconcileWebhook (secret : get_result string) (random : result string string)
    (secret_error : option string) (trigger : SwarmEvent) : result string (SwarmEvent * option string) :=
  match ensureWebhookToken secret random secret_error with
  | Err e => Err e
  | Ok created =>
      let trigger := if String.eqb TriggerWebhookURL "" then trigger
                     else trigger <| event_Status ::= λ s, s <| WebhookURL := webhook_url_of trigger |> |> in
      Ok (set_event_condition trigger ConditionTrue "Ready" "waiting for webhook POST", created)
  end.

Definition team_phase_string (p : SwarmTeamPhase) : string :=
  match p with
  | TeamUnset => "" | TeamPending => "Pending" | TeamReady => "Ready" | TeamRunning => "Running"
  | TeamSucceeded => "Succeeded" | TeamFailed => "Failed"
  end.

Definition desired_phase (src : TeamOutputSource) : SwarmTeamPhase :=
  if bool_decide (OnPhase src = TeamUnset) then TeamSucceeded else OnPhase src.

Definition getLatestRunForTeam (listed : result string (list RunResource)) (teamName : string) : option RunResource :=
  match listed with
  | Err _ => None
  | Ok runs => latestRunFromList (filter (λ o, has_label LabelTeam teamName o = true) runs)
  end.

(** The completion was fired for already. *)
Definition already_fired (latestRun : option RunResource) (lastFired : option Z) : bool :=
  match latestRun with
  | Some run => match CompletionTime (Status (object_Run run)), lastFired with
                | Some c, Some f => c <=? f
                | _, _ => false
                end
  | None => false
  end.

Definition reconcileTeamOutput (t : clocks) (listed : result string (list RunResource))
    (cluster : list RunResource) (trigger : SwarmEvent) : handled :=
  let keep trigger := mkHandled cluster (Ok (trigger, None)) in
  match TeamOutput (Source (event_Spec trigger)) with
  | None => keep (set_event_condition trigger ConditionFalse "InvalidSource"
              "spec.source.teamOutput.name is required for team-output type")
  | Some src =>
      if String.eqb (output_Name src) "" then
        keep (set_event_condition trigger ConditionFalse "InvalidSource"
                "spec.source.teamOutput.name is required for team-output type")
      else match get_team (event_Namespace trigger) (output_Name src) with
      | Found team =>
          if bool_decide (team_Phase (team_Status team) ≠ desired_phase src) then
            keep (set_event_condition trigger ConditionTrue "Watching"
                    ("waiting for team " +:+ Quote (output_Name src) +:+ " to reach phase " +:+
                     team_phase_string (desired_phase src) +:+ " (current: " +:+
                     team_phase_string (team_Phase (team_Status team)) +:+ ")"))
          else
            let latestRun := getLatestRunForTeam listed (output_Name src) in
            if already_fired latestRun (LastFiredAt (event_Status trigger)) then
              keep (set_event_condition trigger ConditionTrue "Active" "already fired for this team completion")
            else
              let output := match latestRun with
                            | Some run => status_Output (Status (object_Run run))
                            | None => ""
                            end in
              let ctx := mkFireContext (event_Name trigger) (format_RFC3339 (t_now t)) output [] "" in
              match fire input_order get_team get_agent create_error created_at trigger ctx (t_build t) listed cluster with
              | (cluster, Err e) => mkHandled cluster (Err e)
              | (cluster, Ok _) =>
                  mkHandled cluster (Ok (set_event_condition (fired_at trigger (t_now t)) ConditionTrue
                                           "Active" "fired on team completion", None))
              end
      | NotFound => keep (set_event_condition trigger ConditionFalse "TeamNotFound"
                      ("team " +:+ Quote (output_Name src) +:+ " not found: not found"))
      | GetFailed e => mkHandled cluster (Err e)
      end
  end.

(** What a reconciliation leaves: the runs, the cache, the object whose status it writes, a
    created token, the delay after which it is called again, and its error. *)
Record outcome := mkOutcome {
  o_cluster : list RunResource;
  o_cache : cron_cache;
  o_written : option SwarmEvent;
  o_token : option string;
  o_requeue : option Z;
  o_err : option string }.

(** The answers of the API server in one reconciliation. *)
Record answers := mkAnswers {
  a_get : get_result SwarmEvent;
  a_list : result string (list RunResource);
  a_secret : get_result string;
  a_random : result string string;
  a_secret_error : option string;
  a_refetch : get_result SwarmEvent;
  a_update : SwarmEvent → option string }.

(** The status computed from the first read is written over the object read again. *)
Definition store_status (a : answers) (cluster : list RunResource) (cache : cron_cache)
    (token : option string) (trigger : SwarmEvent) (requeue : option Z) : outcome :=
  match a_refetch a with
  | NotFound => mkOutcome cluster cache None token None None
  | GetFailed e => mkOutcome cluster cache None token None (Some e)
  | Found latest =>
      let latest := latest <| event_Status :=
        (event_Status trigger) <| event_ObservedGeneration := event_Generation latest |> |> in
      match a_update a latest with
      | Some e => mkOutcome cluster cache None token None (Some e)
      | None => mkOutcome cluster cache (Some latest) token requeue None
      end
  end.

(** A status written at once, without a second read. *)
Definition store_now (a : answers) (cluster : list RunResource) (cache : cron_cache) (trigger : SwarmEvent)
    : outcome :=
  let trigger := trigger <| event_Status ::= λ s, s <| event_ObservedGeneration := event_Generation trigger |> |> in
  match a_update a trigger with
  | Some e => mkOutcome cluster cache None None None (Some e)
  | None => mkOutcome cluster cache (Some trigger) None None None
  end.

Definition store_handled (a : answers) (cache : cron_cache) (h : handled) : outcome :=
  match h_result h with
  | Err e => mkOutcome (h_cluster h) cache None None None (Some e)
  | Ok (trigger, requeue) => store_status a (h_cluster h) cache None trigger requeue
  end.

Definition Reconcile (fuel : nat) (t : clocks) (a : answers) (cluster : list RunResource) (cache : cron_cache)
    : option outcome :=
  match a_get a with
  | NotFound => Some (mkOutcome cluster cache None None None None)
  | GetFailed e => Some (mkOutcome cluster cache None None None (Some e))
  | Found trigger =>
      if Suspended (event_Spec trigger) then
        Some (store_now a cluster cache
                (set_event_condition trigger ConditionFalse "Suspended" "trigger is suspended"))
      else match source_Type (Source (event_Spec trigger)) with
      | TriggerSourceCron =>
          '(h, cache) ← reconcileCron fuel t (a_list a) cluster cache trigger;
          Some (store_handled a cache h)
      | TriggerSourceWebhook =>
          Some (match reconcileWebhook (a_secret a) (a_random a) (a_secret_error a) trigger with
                | Err e => mkOutcome cluster cache None None None (Some e)
                | Ok (trigger, token) => store_status a cluster cache token trigger None
                end)
      | TriggerSourceTeamOutput =>
          Some (store_handled a cache (reconcileTeamOutput t (a_list a) cluster trigger))
      | TriggerSourceOther s =>
          Some (store_now a cluster cache (set_event_condition trigger ConditionFalse "InvalidSource"
                  ("unknown source type " +:+ Quote s)))
      end
  end.
End reconcile.

(** ** The watch on teams *)

(** The triggers that a change of a team wakes: [events] are those of its namespace. *)
Definition watches_team (team : SwarmTeam) (e : SwarmEvent) : bool :=
  match source_Type (Source (event_Spec e)) with
  | TriggerSourceTeamOutput =>
      match TeamOutput (Source (event_Spec e)) with
      | Some src => String.eqb (output_Name src) (team_Name team)
      | None => false
      end
  | _ => false
  end.

Definition teamToTriggers (events : result string (list SwarmEvent)) (team : SwarmTeam)
    : list (string * string) :=
  match team_Phase (team_Status team) with
  | TeamSucceeded | TeamFailed =>
      match events with
      | Err _ => []
      | Ok l => (λ e, (event_Namespace e, event_Name e)) <$> filter (λ e, watches_team team e = true) l
      end
  | _ => []
  end.
