(* ===== verification/EventProps.v ===== *)
(** * EventProps: when triggers fire, and what they create.

    The search for the last activation of a schedule ends exactly on schedules that recur; a cron
    trigger fires once for the activations since its last fire, when its passes read what was stored
    last; the runs created are those of the
    targets, in order; and where the code falls short: skipped and failed fires, completions
    without a time, and concurrent updates of the status. *)
From Stdlib Require Import ZArith Lia.
From stdpp Require Import base tactics option list strings gmap sorting.
From S2P Require Import Prelude GoStd Types Costs AgentTypes Kube Registry Routing Dispatch.
From S2P Require Import Admission AgentRun Search SearchRun RunController Event.

(** ** The last activation *)
Section schedule.
Context {cronApi : CronApi} {cronLaws : CronLaws cronApi}.

(** From [start] on there is an activation within every five years. *)
Definition recurs (s : Schedule) (start : Z) : Prop :=
  ∀ t, start ≤ t → ∃ u, t < u ≤ t + 5 * 365 * nanosecond_day ∧ active s u.

Lemma next_of_recurring s start t :
  recurs s start → start ≤ t →
  t < schedule_Next s t ∧ active s (schedule_Next s t) ∧ ∀ u, t < u < schedule_Next s t → ¬ active s u.
Proof.
  intros Hr Ht. destruct (next_spec s t) as [H|[_ H]]; [done|].
  destruct (Hr t Ht) as (u & Hu & Ha). by destruct (H u Hu).
Qed.

(** An activation is at a later second than any earlier time. *)
Lemma active_later s t u : active s u → t < u → t / second < u / second.
Proof.
  intros Hu%active_second Hlt. unfold second in *.
  apply Z.mod_divide in Hu as [b ->]; [|lia]. rewrite Z.div_mul by lia.
  apply Z.div_lt_upper_bound; lia.
Qed.

(** The last activation of [(from, now]], if there is one. *)
Definition last_activation (s : Schedule) (from now : Z) (last : option Z) : Prop :=
  match last with
  | Some l => from < l ≤ now ∧ active s l ∧ ∀ u, l < u ≤ now → ¬ active s u
  | None => ∀ u, from < u ≤ now → ¬ active s u
  end.

(** [t] is where the loop stands: at the last activation seen, or at the start. *)
Definition loop_at (s : Schedule) (from t : Z) (last : option Z) : Prop :=
  match last with
  | Some l => l = t ∧ from < t ∧ active s t
  | None => t = from
  end.

Lemma recent_loop_spec fuel s now from t last :
  recurs s from → loop_at s from t last → (0 < fuel)%nat → now / second - t / second < Z.of_nat fuel →
  (last = None ∨ t ≤ now) →
  ∃ last', recent_loop fuel s now t last = Some last' ∧ last_activation s from now last'.
Proof.
  revert t last. induction fuel as [|fuel IH]; intros t last Hr Hl Hf0 Hf Hn; [lia|].
  assert (Ht : from ≤ t) by (destruct last; [destruct Hl as (_ & ? & _)|simpl in Hl]; lia).
  destruct (next_of_recurring s from t Hr Ht) as (N1 & N2 & N3). simpl.
  set (next := schedule_Next s t) in *. destruct (Z.ltb_spec now next) as [Hlt|Hle].
  - exists last. split; [done|]. unfold last_activation. destruct last as [l|].
    + destruct Hl as (-> & ? & ?). destruct Hn as [?|Hn]; [done|].
      split; [lia|]. split; [done|]. intros u Hu. apply N3. lia.
    + simpl in Hl. subst t. intros u Hu. apply N3. lia.
  - pose proof (active_later s t next N2 N1). assert (next / second ≤ now / second)
      by (apply Z.div_le_mono; unfold second; lia).
    apply IH; [done|by split; [|split; [lia|]]|lia|lia|by right].
Qed.

Lemma lookback_bounds now lastFired :
  now - day ≤ lookback_of now lastFired ∧
  (∀ l, lastFired = Some l → l ≤ lookback_of now lastFired ∨ l ≤ now - day).
Proof.
  unfold lookback_of. destruct lastFired as [f|]; [|split; [lia|done]].
  destruct (Z.ltb_spec (now - day) f); (split; [lia|intros ? [= <-]; lia]).
Qed.

Lemma recent_loop_total s now lastFired :
  recurs s (now - day) →
  ∃ last, mostRecentSchedule cron_fuel s now lastFired = Some last ∧
          last_activation s (lookback_of now lastFired) now last.
Proof.
  intros Hr. destruct (lookback_bounds now lastFired) as [Hlb _].
  apply recent_loop_spec; [|reflexivity|unfold cron_fuel; lia| |by left].
  - intros t Ht. apply Hr. lia.
  - unfold cron_fuel. rewrite Z2Nat.id by lia.
    assert (H : (now - day) / second ≤ lookback_of now lastFired / second)
      by (apply Z.div_le_mono; [done|lia]).
    replace (now - day) with (now + (- 86400) * second) in H by (unfold day, second; lia).
    rewrite Z.div_add in H by done. lia.
Qed.

(** for a schedule that recurs, the search for the most recent activation always ends, and
    returns the last activation since the last fire, but at most a day ago; or nothing when
    there was none. *)
Theorem mostRecentSchedule_correct s now lastFired :
  recurs s (now - day) →
  ∃ last, mostRecentSchedule cron_fuel s now lastFired = Some last ∧
          last_activation s (lookback_of now lastFired) now last.
Proof. apply recent_loop_total. Qed.

Lemma recent_loop_diverges fuel s now lastFired :
  (∀ u, ¬ active s u) → zero_time ≤ now → mostRecentSchedule fuel s now lastFired = None.
Proof.
  intros Ha Hz. unfold mostRecentSchedule. generalize (lookback_of now lastFired) (@None Z).
  induction fuel as [|fuel IH]; intros t last; [done|]. simpl.
  destruct (next_spec s t) as [(_ & H & _)|[-> _]]; [by destruct (Ha _ H)|].
  destruct (Z.ltb_spec now zero_time); [lia|]. apply IH.
Qed.


(** A fire is due exactly when there was an activation since the last one. *)
Lemma due_iff s now lastFired last :
  last_activation s (lookback_of now lastFired) now last →
  due last lastFired = true ↔ ∃ u, lookback_of now lastFired < u ≤ now ∧ active s u.
Proof.
  intros Hl. destruct (lookback_bounds now lastFired) as [_ Hlb]. unfold due, last_activation in *.
  destruct last as [l|]; [|split; [done|intros (u & Hu & Ha); by destruct (Hl u Hu)]].
  destruct Hl as (Hb & Ha & _). destruct lastFired as [f|]; [|split; eauto].
  split; [eauto|]. intros _. apply Z.ltb_lt.
  destruct (Hlb f eq_refl) as [H|H]; [lia|]. unfold lookback_of in Hb.
  destruct (Z.ltb_spec (now - day) f); lia.
Qed.
End schedule.

(** ** What a fire creates *)
Section fire.
Context {templateApi : TemplateApi} {timeText : TimeText}.
Context (order : gmap string string → list string) (get_team : string → string → get_result SwarmTeam)
  (get_agent : string → string → get_result SwarmAgent) (create_error : RunResource → option string)
  (created_at : RunResource → Z).

#[local] Notation build := (build order get_team get_agent).
#[local] Notation fire_targets := (fire_targets order get_team get_agent create_error created_at).
#[local] Notation fire := (fire order get_team get_agent create_error created_at).

(** One run per target, each built at its own reading of the clock. *)
Fixpoint builds (trigger : SwarmEvent) (ctx : FireContext) (clock : nat → Z)
    (targets : list SwarmEventTarget) (runs : list RunResource) : Prop :=
  match targets, runs with
  | [], [] => True
  | target :: targets, run :: runs =>
      build trigger target ctx (clock 0%nat) = Ok run ∧ builds trigger ctx (λ n, clock (S n)) targets runs
  | _, _ => False
  end.

Lemma create_spec cluster run :
  match create create_error created_at cluster run with
  | Ok cluster' => cluster' = cluster ++ [stored created_at run] ∧
                   object_Name run ∉ object_Name <$> cluster
  | Err _ => object_Name run ∈ object_Name <$> cluster ∨ create_error run ≠ None
  end.
Proof.
  unfold create. case_bool_decide; [by left|]. destruct (create_error run); [by right|done].
Qed.

Lemma fire_targets_spec trigger ctx clock targets cluster runs :
  let '(cluster', res) := fire_targets trigger ctx clock targets cluster runs in
  ∃ k made, builds trigger ctx clock (take k targets) made ∧
    cluster' = cluster ++ (stored created_at <$> made) ∧
    (NoDup (object_Name <$> cluster) → NoDup (object_Name <$> cluster')) ∧
    match res with
    | Ok runs' => k = length targets ∧ runs' = runs ++ made
    | Err _ => (k < length targets)%nat
    end.
Proof.
  revert clock cluster runs. induction targets as [|target targets IH]; intros clock cluster runs; simpl.
  { exists 0%nat, []. simpl. by rewrite !app_nil_r. }
  destruct (build trigger target ctx (clock 0%nat)) as [run|e] eqn:B.
  2: { exists 0%nat, []. simpl. rewrite app_nil_r. split; [done|]. repeat split; [done|lia]. }
  pose proof (create_spec cluster run) as Hc.
  destruct (create create_error created_at cluster run) as [cluster1|e].
  2: { exists 0%nat, []. simpl. rewrite app_nil_r. split; [done|]. repeat split; [done|lia]. }
  destruct Hc as [-> Hfresh].
  specialize (IH (λ n, clock (S n)) (cluster ++ [stored created_at run]) (runs ++ [run])).
  destruct (fire_targets _ _ _ _ _ _) as [cluster' res].
  destruct IH as (k & made & Hb & -> & Hn & Hres).
  exists (S k), (run :: made). simpl. split; [done|]. rewrite <- app_assoc in *. split; [done|].
  split.
  - intros Hnd. apply Hn. rewrite fmap_app. apply NoDup_app. split; [done|].
    split; [|apply NoDup_singleton].
    intros x Hx ->%list_elem_of_singleton. by apply Hfresh.
  - destruct res; [|lia]. destruct Hres as [-> ->]. split; [done|]. by rewrite <- ?app_assoc.
Qed.

(** a fire creates the runs of the targets in their order.  When it succeeds there is exactly
    one for each; when it fails, those of the targets before the first failure have been created
    and stay.  No run is created under a name that is taken. *)
Theorem fire_spec trigger ctx clock listed cluster :
  let '(cluster', res) := fire trigger ctx clock listed cluster in
  ∃ k made, builds trigger ctx clock (take k (Targets (event_Spec trigger))) made ∧
    cluster' = cluster ++ (stored created_at <$> made) ∧
    (NoDup (object_Name <$> cluster) → NoDup (object_Name <$> cluster')) ∧
    match res with
    | Ok runs => runs = made ∧
        (k = length (Targets (event_Spec trigger)) ∨
         k = 0%nat ∧ event_ConcurrencyPolicy (event_Spec trigger) = ConcurrencyForbid ∧
         hasRunningRun listed trigger = Ok true)
    | Err _ => (k < length (Targets (event_Spec trigger)))%nat ∨
         k = 0%nat ∧ event_ConcurrencyPolicy (event_Spec trigger) = ConcurrencyForbid ∧
         ∃ e, hasRunningRun listed trigger = Err e
    end.
Proof.
  assert (Hall : let '(cluster', res) := fire_targets trigger ctx clock (Targets (event_Spec trigger)) cluster [] in
    ∃ k made, builds trigger ctx clock (take k (Targets (event_Spec trigger))) made ∧
      cluster' = cluster ++ (stored created_at <$> made) ∧
      (NoDup (object_Name <$> cluster) → NoDup (object_Name <$> cluster')) ∧
      match res with
      | Ok runs => runs = made ∧ k = length (Targets (event_Spec trigger))
      | Err _ => (k < length (Targets (event_Spec trigger)))%nat
      end).
  { pose proof (fire_targets_spec trigger ctx clock (Targets (event_Spec trigger)) cluster []) as H.
    destruct (fire_targets _ _ _ _ _ _) as [cluster' res]. destruct H as (k & made & ? & ? & ? & Hres).
    exists k, made. split; [done|]. split; [done|]. split; [done|]. destruct res; [|done]. tauto. }
  unfold Event.fire. case_bool_decide as Hf.
  - destruct (hasRunningRun listed trigger) as [[]|e] eqn:Hr.
    + exists 0%nat, []. simpl. rewrite app_nil_r. by repeat split; [..|right].
    + destruct (fire_targets _ _ _ _ _ _) as [cluster' res].
      destruct Hall as (k & made & ? & ? & ? & Hres). exists k, made. split; [done|]. split; [done|].
      split; [done|]. destruct res; [|by left]. destruct Hres. by split; [|left].
    + exists 0%nat, []. simpl. rewrite app_nil_r. repeat split; [done|]. right. eauto.
  - destruct (fire_targets _ _ _ _ _ _) as [cluster' res].
    destruct Hall as (k & made & ? & ? & ? & Hres). exists k, made. split; [done|]. split; [done|].
    split; [done|]. destruct res; [|by left]. destruct Hres. by split; [|left].
Qed.

(** *** Names *)
Definition run_name_at (trigger : SwarmEvent) (target : SwarmEventTarget) (now : Z) : string :=
  event_Name trigger +:+ "-" +:+ target_key target +:+ "-" +:+ format_suffix now.

Lemma build_name trigger target ctx now run :
  build trigger target ctx now = Ok run → object_Name run = run_name_at trigger target now.
Proof.
  unfold Event.build, run_name_at, target_key. destruct (String.eqb (target_Agent target) "").
  - unfold buildRun. destruct (get_team _ _) as [tmpl| |e]; try done.
    destruct (resolve_inputs _ _ _ _); simpl; [|done]. by intros [= <-].
  - unfold buildAgentRun. destruct (resolveTriggerTemplate _ _); [|done]. by intros [= <-].
Qed.

Lemma builds_name trigger ctx clock targets runs i run :
  builds trigger ctx clock targets runs → runs !! i = Some run →
  ∃ target, targets !! i = Some target ∧ object_Name run = run_name_at trigger target (clock i).
Proof.
  revert clock runs i. induction targets as [|t ts IH]; intros clock [|r rs] i; simpl; try done.
  intros [Hb Hbs]. destruct i as [|i]; simpl.
  - intros [= <-]. exists t. split; [done|]. by apply build_name in Hb.
  - intros Hi. by apply (IH _ _ _ Hbs Hi).
Qed.

Lemma builds_length trigger ctx clock targets runs :
  builds trigger ctx clock targets runs → length runs = length targets.
Proof.
  revert clock runs. induction targets as [|t ts IH]; intros clock [|r rs]; simpl; try done.
  intros [_ H]. by rewrite (IH _ _ H).
Qed.
End fire.

(** ** Two targets with one name *)
Section duplicates.
Context {templateApi : TemplateApi} {timeText : TimeText} {timeLaws : TimeTextLaws timeText}.
Context (order : gmap string string → list string) (get_team : string → string → get_result SwarmTeam)
  (get_agent : string → string → get_result SwarmAgent) (create_error : RunResource → option string)
  (created_at : RunResource → Z).

#[local] Notation fire := (fire order get_team get_agent create_error created_at).
#[local] Notation fire_targets := (fire_targets order get_team get_agent create_error created_at).

(** The names of the runs of one fire, built within one second, are those of their targets. *)
Lemma same_key_same_name trigger target target' t u :
  target_key target = target_key target' → t / second = u / second →
  run_name_at trigger target t = run_name_at trigger target' u.
Proof. intros Hk Ht. unfold run_name_at. by rewrite Hk, (format_suffix_second _ _ Ht). Qed.

Lemma duplicate_targets_fail trigger ctx clock i j target target' cluster :
  (∀ m n, clock m / second = clock n / second) → (i < j)%nat →
  Targets (event_Spec trigger) !! i = Some target → Targets (event_Spec trigger) !! j = Some target' →
  target_key target = target_key target' → NoDup (object_Name <$> cluster) →
  ∃ e, (fire_targets trigger ctx clock (Targets (event_Spec trigger)) cluster []).2 = Err e.
Proof.
  intros Hclk Hij Hi Hj Hk Hnd.
  pose proof (fire_targets_spec order get_team get_agent create_error created_at trigger ctx clock
    (Targets (event_Spec trigger)) cluster []) as H.
  destruct (fire_targets _ _ _ _ _ _) as [cluster' [runs|e]]; [|by exists e]. exfalso.
  destruct H as (k & made & Hb & -> & Hn & -> & _). rewrite firstn_all in Hb. specialize (Hn Hnd).
  pose proof (builds_length _ _ _ _ _ _ _ _ Hb) as Hlen.
  destruct (lookup_lt_is_Some_2 made i) as [r Hr]; [rewrite Hlen; by eapply lookup_lt_Some|].
  destruct (lookup_lt_is_Some_2 made j) as [r' Hr']; [rewrite Hlen; by eapply lookup_lt_Some|].
  destruct (builds_name _ _ _ _ _ _ _ _ _ _ Hb Hr) as (t1 & E1 & N1).
  destruct (builds_name _ _ _ _ _ _ _ _ _ _ Hb Hr') as (t2 & E2 & N2). simplify_eq.
  rewrite fmap_app in Hn. apply NoDup_app in Hn as (_ & _ & Hn).
  rewrite <- list_fmap_compose in Hn.
  assert (Hl : ∀ m r, made !! m = Some r →
    ((object_Name ∘ stored created_at) <$> made) !! m = Some (object_Name r)).
  { intros m x Hx. by rewrite list_lookup_fmap, Hx. }
  assert (i = j); [|lia]. eapply NoDup_lookup; [exact Hn|by apply Hl|].
  rewrite (Hl _ _ Hr'), N1, N2. f_equal. by apply same_key_same_name.
Qed.

(** a trigger with two targets for the same team or agent never fires successfully: the
    second run takes the name of the first.  Yet the runs of the targets before it are created,
    so that every attempt leaves more of them. *)
Theorem duplicate_targets_leak trigger ctx clock listed cluster first rest j target run :
  (∀ m n, clock m / second = clock n / second) →
  Targets (event_Spec trigger) = first :: rest → rest !! j = Some target →
  target_key target = target_key first → NoDup (object_Name <$> cluster) →
  event_ConcurrencyPolicy (event_Spec trigger) ≠ ConcurrencyForbid →
  build order get_team get_agent trigger first ctx (clock 0%nat) = Ok run →
  object_Name run ∉ object_Name <$> cluster → create_error run = None →
  ∃ more e, fire trigger ctx clock listed cluster = (cluster ++ stored created_at run :: more, Err e).
Proof.
  intros Hclk Ht Hj Hk Hnd Hc Hb Hfresh Hce.
  destruct (duplicate_targets_fail trigger ctx clock 0 (S j) first target cluster) as [e He];
    [done|lia|by rewrite Ht|by rewrite Ht|done|done|].
  unfold Event.fire. rewrite bool_decide_eq_false_2 by done. rewrite Ht in *. simpl in *.
  rewrite Hb in *. unfold create in *. rewrite bool_decide_eq_false_2, Hce in * by done.
  pose proof (fire_targets_spec order get_team get_agent create_error created_at trigger ctx
    (λ n, clock (S n)) rest (cluster ++ [stored created_at run]) ([] ++ [run])) as H.
  destruct (fire_targets _ _ _ _ _ _) as [cluster' res]. simpl in He. subst res.
  destruct H as (k & made & _ & -> & _). rewrite <- app_assoc. by eexists _, e.
Qed.
End duplicates.

(** ** Cron triggers *)
Section cron.
Context {templateApi : TemplateApi} {timeText : TimeText} {cronApi : CronApi} {conditionApi : ConditionApi}.
Context {cronLaws : CronLaws cronApi}.
Context (order : gmap string string → list string) (get_team : string → string → get_result SwarmTeam)
  (get_agent : string → string → get_result SwarmAgent) (create_error : RunResource → option string)
  (created_at : RunResource → Z).

#[local] Notation cron_step := (cron_step order get_team get_agent create_error created_at).
#[local] Notation fire := (fire order get_team get_agent create_error created_at).

Definition cron_context (now : Z) (trigger : SwarmEvent) : FireContext :=
  mkFireContext (event_Name trigger) (format_RFC3339 now) "" [] "".

(** What one pass does to the runs and to the record of fires. *)
Lemma cron_step_spec t listed cluster trigger s last :
  match fire trigger (cron_context (t_now t) trigger) (t_build t) listed cluster with
  | (cluster', res) =>
      let h := cron_step t listed cluster trigger s last in
      if due last (LastFiredAt (event_Status trigger)) then
        h_cluster h = cluster' ∧
        match res with
        | Err e => h_result h = Err e
        | Ok _ => ∃ trigger' requeue, h_result h = Ok (trigger', requeue) ∧
            LastFiredAt (event_Status trigger') = Some (t_now t) ∧
            FiredCount (event_Status trigger') = wrap64 (FiredCount (event_Status trigger) + 1)
        end
      else h_cluster h = cluster ∧ ∃ trigger' requeue, h_result h = Ok (trigger', requeue) ∧
             LastFiredAt (event_Status trigger') = LastFiredAt (event_Status trigger) ∧
             FiredCount (event_Status trigger') = FiredCount (event_Status trigger)
  end.
Proof.
  unfold Event.cron_step, cron_context. destruct (fire _ _ _ _ _) as [cluster' res].
  destruct (due _ _); simpl; [|by eauto 10]. destruct res; simpl; by eauto 10.
Qed.

(** a pass over a cron trigger fires exactly when the schedule has an activation since the
    last fire, at most a day ago.  If it does and the fire succeeds, the time and the count of
    fires are recorded; otherwise neither changes, and without an activation no run is created. *)
Theorem cron_fires_iff t listed cluster cache trigger s :
  Cron (Source (event_Spec trigger)) ≠ "" →
  ParseStandard (Cron (Source (event_Spec trigger))) = Ok s →
  (∀ s', cached_schedule cache trigger = Some s' → s' = s) →
  recurs s (t_now t - day) →
  let window := lookback_of (t_now t) (LastFiredAt (event_Status trigger)) in
  let activated := ∃ u, window < u ≤ t_now t ∧ active s u in
  ∃ h cache', reconcileCron order get_team get_agent create_error created_at cron_fuel t listed cluster cache trigger
                = Some (h, cache') ∧
    (¬ activated → h_cluster h = cluster ∧ ∃ trigger' requeue, h_result h = Ok (trigger', requeue) ∧
       LastFiredAt (event_Status trigger') = LastFiredAt (event_Status trigger) ∧
       FiredCount (event_Status trigger') = FiredCount (event_Status trigger)) ∧
    (activated →
       h_cluster h = (fire trigger (cron_context (t_now t) trigger) (t_build t) listed cluster).1 ∧
       match (fire trigger (cron_context (t_now t) trigger) (t_build t) listed cluster).2 with
       | Err e => h_result h = Err e
       | Ok _ => ∃ trigger' requeue, h_result h = Ok (trigger', requeue) ∧
           LastFiredAt (event_Status trigger') = Some (t_now t) ∧
           FiredCount (event_Status trigger') = wrap64 (FiredCount (event_Status trigger) + 1)
       end).
Proof.
  intros Hc Hp Hcache Hr window activated.
  destruct (recent_loop_total s (t_now t) (LastFiredAt (event_Status trigger)) Hr) as (last & Hm & Hl).
  unfold reconcileCron. rewrite (proj2 (String.eqb_neq _ _) Hc). unfold load_schedule.
  assert (Hload : ∃ cache', match cached_schedule cache trigger with
                  | Some schedule => (Ok schedule, cache)
                  | None => match ParseStandard (Cron (Source (event_Spec trigger))) with
                            | Ok schedule => (Ok schedule, <[event_UID trigger := (event_ResourceVersion trigger, schedule)]> cache)
                            | Err e => (Err e, cache)
                            end
                  end = (@Ok string _ s, cache')).
  { rewrite Hp. destruct (cached_schedule cache trigger) as [s'|]; [rewrite (Hcache s' eq_refl)|]; by eexists. }
  destruct Hload as [cache' ->]. rewrite Hm. simpl. eexists _, cache'. split; [done|].
  pose proof (cron_step_spec t listed cluster trigger s last) as Hs.
  pose proof (due_iff s (t_now t) (LastFiredAt (event_Status trigger)) last Hl) as Hdue.
  fold window in Hdue. fold activated in Hdue.
  destruct (fire _ _ _ _ _) as [cluster' res]. simpl.
  destruct (due last _); split; intros Ha; try done.
  - by destruct Ha; apply Hdue.
  - by apply Hdue in Ha.
Qed.

(** A pass that fires: when, and whether its status was stored, so that the next pass knows. *)
Record firing := mkFiring { fire_time : Z; recorded : bool }.

(** Passes over one cron trigger, each of which reads what the last one stored.  The status of a pass
    may not be stored, because the pass failed after it had fired some targets, or because the write
    failed. *)
Inductive cron_history (s : Schedule) : SwarmEvent → list firing → Prop :=
| history_end trigger : cron_history s trigger []
| history_idle t listed cluster trigger last trigger' requeue next fires :
    mostRecentSchedule cron_fuel s (t_now t) (LastFiredAt (event_Status trigger)) = Some last →
    h_result (cron_step t listed cluster trigger s last) = Ok (trigger', requeue) →
    due last (LastFiredAt (event_Status trigger)) = false → next = trigger ∨ next = trigger' →
    cron_history s next fires → cron_history s trigger fires
| history_fire t listed cluster trigger last trigger' requeue fires :
    mostRecentSchedule cron_fuel s (t_now t) (LastFiredAt (event_Status trigger)) = Some last →
    h_result (cron_step t listed cluster trigger s last) = Ok (trigger', requeue) →
    due last (LastFiredAt (event_Status trigger)) = true →
    cron_history s trigger' fires → cron_history s trigger (mkFiring (t_now t) true :: fires)
| history_lost t trigger last fires :
    mostRecentSchedule cron_fuel s (t_now t) (LastFiredAt (event_Status trigger)) = Some last →
    due last (LastFiredAt (event_Status trigger)) = true →
    cron_history s trigger fires → cron_history s trigger (mkFiring (t_now t) false :: fires).

Lemma cron_step_last t listed cluster trigger s last trigger' requeue :
  h_result (cron_step t listed cluster trigger s last) = Ok (trigger', requeue) →
  LastFiredAt (event_Status trigger') =
    if due last (LastFiredAt (event_Status trigger)) then Some (t_now t)
    else LastFiredAt (event_Status trigger).
Proof.
  intros E. pose proof (cron_step_spec t listed cluster trigger s last) as H.
  destruct (fire _ _ _ _ _) as [cluster' res]. simpl in H. rewrite E in H.
  destruct (due _ _); [destruct H as [_ H]; destruct res|destruct H as [_ H]]; naive_solver.
Qed.

(** What a pass that is due answers. *)
Lemma due_activation s t lastFired last : (∀ start, recurs s start) →
  mostRecentSchedule cron_fuel s (t_now t) lastFired = Some last → due last lastFired = true →
  ∃ u, active s u ∧ t_now t - day < u ≤ t_now t ∧ ∀ l, lastFired = Some l → l < u.
Proof.
  intros Hr Hm Hd. destruct (recent_loop_total s (t_now t) lastFired (Hr _)) as (l & Hm' & Hl).
  rewrite Hm in Hm'. simplify_eq. apply (due_iff s (t_now t) _ _ Hl) in Hd as (u & Hu & Ha).
  destruct (lookback_bounds (t_now t) lastFired) as [Hlb Hlast]. exists u. split; [done|]. split; [lia|].
  intros f Hf. specialize (Hlast f Hf). lia.
Qed.

(** C35: over any history of passes that read what was stored last, each pass that fires a cron
    trigger answers an activation at most a day old, which comes after every earlier fire that was
    recorded.  So an activation is fired twice only when the pass that fired it first failed
    half-way, or its status could not be stored. *)
Theorem cron_fires_own_activation s trigger fires :
  (∀ start, recurs s start) → cron_history s trigger fires →
  ∃ acts, Forall2 (λ f u, active s u ∧ fire_time f - day < u ≤ fire_time f) fires acts ∧
    (∀ i j f v, (i < j)%nat → fires !! i = Some f → recorded f = true → acts !! j = Some v → fire_time f < v) ∧
    Forall (λ u, ∀ l, LastFiredAt (event_Status trigger) = Some l → l < u) acts.
Proof.
  intros Hr. induction 1 as [trigger|t listed cluster trigger last trigger' rq next fires Hm E Hd Hnext _ IH
    |t listed cluster trigger last trigger' rq fires Hm E Hd _ IH|t trigger last fires Hm Hd _ IH].
  - exists []. split; [constructor|]. split; [by intros i j f v|constructor].
  - destruct IH as (acts & ? & ? & Hf). exists acts. split; [done|]. split; [done|].
    destruct Hnext as [->| ->]; [done|]. apply cron_step_last in E. by rewrite Hd in E; rewrite E in Hf.
  - destruct IH as (acts & Hacts & Hs & Hf). apply cron_step_last in E. rewrite Hd in E. rewrite E in Hf.
    destruct (due_activation s t (LastFiredAt (event_Status trigger)) last Hr Hm Hd) as (u & Ha & Hu & Hl).
    exists (u :: acts). split; [constructor; done|].
    assert (Hlater : Forall (λ v, t_now t < v) acts).
    { eapply Forall_impl; [exact Hf|]. intros v Hv. exact (Hv _ eq_refl). }
    split.
    + intros [|i] [|j] f v Hij Hi Hrec Hj; simpl in *; [lia| |lia|].
      * injection Hi as <-. simpl. rewrite Forall_lookup in Hlater. by eapply Hlater.
      * eapply (Hs i j); [lia|done..].
    + constructor; [done|]. eapply Forall_impl; [exact Hlater|]. intros v Hv f Hlf. specialize (Hl f Hlf). simpl in Hv. lia.
  - destruct IH as (acts & Hacts & Hs & Hf).
    destruct (due_activation s t (LastFiredAt (event_Status trigger)) last Hr Hm Hd) as (u & Ha & Hu & Hl).
    exists (u :: acts). split; [constructor; done|]. split; [|by constructor].
    intros [|i] [|j] f v Hij Hi Hrec Hj; simpl in *; [lia|by simplify_eq/=|lia|]. eapply (Hs i j); [lia|done..].
Qed.

(** under Forbid, a due fire that is skipped because a run is unfinished is recorded as a fire
    all the same: no run is created, and the activation is gone. *)
Theorem forbidden_fire_is_recorded t listed cluster trigger s last :
  event_ConcurrencyPolicy (event_Spec trigger) = ConcurrencyForbid →
  hasRunningRun listed trigger = Ok true →
  due last (LastFiredAt (event_Status trigger)) = true →
  ∃ trigger' requeue, cron_step t listed cluster trigger s last = mkHandled cluster (Ok (trigger', requeue)) ∧
    LastFiredAt (event_Status trigger') = Some (t_now t) ∧
    FiredCount (event_Status trigger') = wrap64 (FiredCount (event_Status trigger) + 1).
Proof.
  intros Hc Hr Hd. unfold Event.cron_step. rewrite Hd. unfold Event.fire.
  rewrite bool_decide_eq_true_2, Hr by done. by eexists _, _.
Qed.

#[local] Notation Reconcile :=
  (Reconcile order get_team get_agent create_error created_at).

(** a cron trigger whose expression parses but never activates blocks its reconciliation:
    whatever the fuel, it does not return. *)
Theorem unsatisfiable_cron_hangs url fuel t a cluster trigger s :
  a_get a = Found trigger → Suspended (event_Spec trigger) = false →
  source_Type (Source (event_Spec trigger)) = TriggerSourceCron →
  Cron (Source (event_Spec trigger)) ≠ "" →
  ParseStandard (Cron (Source (event_Spec trigger))) = Ok s →
  (∀ u, ¬ active s u) → zero_time ≤ t_now t →
  Reconcile url fuel t a cluster ∅ = None.
Proof.
  intros Ha Hs Ht Hc Hp Hact Hz. unfold Event.Reconcile. rewrite Ha, Hs, Ht.
  unfold reconcileCron. rewrite (proj2 (String.eqb_neq _ _) Hc).
  unfold load_schedule, cached_schedule. rewrite lookup_empty, Hp.
  by rewrite (recent_loop_diverges fuel s (t_now t) (LastFiredAt (event_Status trigger)) Hact Hz).
Qed.

(** ** The status is overwritten *)

(** the status computed from the first read replaces whatever was stored meanwhile: a fire
    that the webhook server records between the two reads is lost. *)
Theorem webhook_fire_lost url fuel t a cluster cache trigger latest :
  a_get a = Found trigger → Suspended (event_Spec trigger) = false →
  source_Type (Source (event_Spec trigger)) = TriggerSourceWebhook →
  (∃ v, a_secret a = Found v) → a_refetch a = Found latest → (∀ e, a_update a e = None) →
  ∃ o stored, Reconcile url fuel t a cluster cache = Some o ∧ o_written o = Some stored ∧
    FiredCount (event_Status stored) = FiredCount (event_Status trigger) ∧
    LastFiredAt (event_Status stored) = LastFiredAt (event_Status trigger).
Proof.
  intros Ha Hs Ht [v Hv] Hf Hu. unfold Event.Reconcile. rewrite Ha, Hs, Ht.
  unfold reconcileWebhook, ensureWebhookToken. rewrite Hv. unfold store_status. rewrite Hf, Hu.
  eexists _, _. split; [done|]. split; [done|]. simpl. by destruct (String.eqb url "").
Qed.

(** ** Triggers on the completion of a team *)
#[local] Notation reconcileTeamOutput :=
  (reconcileTeamOutput order get_team get_agent create_error created_at).

Definition output_context (now : Z) (trigger : SwarmEvent) (latest : option RunResource) : FireContext :=
  mkFireContext (event_Name trigger) (format_RFC3339 now)
    (match latest with Some run => status_Output (Status (object_Run run)) | None => "" end) [] "".

(** a trigger on a team's completion fires, in the phase it waits for, exactly unless the
    latest run of the team completed no later than the last fire; and a successful fire is
    recorded. *)
Theorem team_output_fires_iff t listed cluster trigger src team :
  TeamOutput (Source (event_Spec trigger)) = Some src → output_Name src ≠ "" →
  get_team (event_Namespace trigger) (output_Name src) = Found team →
  team_Phase (team_Status team) = desired_phase src →
  let latest := getLatestRunForTeam listed (output_Name src) in
  let h := reconcileTeamOutput t listed cluster trigger in
  (already_fired latest (LastFiredAt (event_Status trigger)) = true →
     h_cluster h = cluster ∧ ∃ trigger', h_result h = Ok (trigger', None) ∧
       LastFiredAt (event_Status trigger') = LastFiredAt (event_Status trigger)) ∧
  (already_fired latest (LastFiredAt (event_Status trigger)) = false →
     h_cluster h = (fire trigger (output_context (t_now t) trigger latest) (t_build t) listed cluster).1 ∧
     match (fire trigger (output_context (t_now t) trigger latest) (t_build t) listed cluster).2 with
     | Err e => h_result h = Err e
     | Ok _ => ∃ trigger', h_result h = Ok (trigger', None) ∧
         LastFiredAt (event_Status trigger') = Some (t_now t)
     end).
Proof.
  intros Hsrc Hn Ht Hph latest h. unfold h, Event.reconcileTeamOutput, output_context.
  rewrite Hsrc, (proj2 (String.eqb_neq _ _) Hn), Ht, bool_decide_eq_false_2 by (intros []; done).
  fold latest. destruct (already_fired latest _); (split; intros Ha; [|try done]); try done.
  - split; [done|]. by eexists.
  - destruct (fire _ _ _ _ _) as [cluster' [runs|e]]; simpl; (split; [done|]); [by eexists|done].
Qed.

(** while the latest run of the team has no completion time the last fire is not looked at:
    a trigger on the phase Running fires at every reconciliation, and every fire is a status
    update that asks for the next. *)
Theorem uncompleted_output_refires t listed cluster trigger src team :
  TeamOutput (Source (event_Spec trigger)) = Some src → output_Name src ≠ "" →
  get_team (event_Namespace trigger) (output_Name src) = Found team →
  team_Phase (team_Status team) = desired_phase src →
  (∀ run, getLatestRunForTeam listed (output_Name src) = Some run →
     CompletionTime (Status (object_Run run)) = None) →
  h_cluster (reconcileTeamOutput t listed cluster trigger) =
  (fire trigger (output_context (t_now t) trigger (getLatestRunForTeam listed (output_Name src)))
     (t_build t) listed cluster).1.
Proof.
  intros Hsrc Hn Ht Hph Hc. unfold Event.reconcileTeamOutput, output_context.
  rewrite Hsrc, (proj2 (String.eqb_neq _ _) Hn), Ht, bool_decide_eq_false_2 by (intros []; done).
  assert (Haf : already_fired (getLatestRunForTeam listed (output_Name src))
                  (LastFiredAt (event_Status trigger)) = false).
  { unfold already_fired. destruct (getLatestRunForTeam _ _) as [run|]; [|done]. by rewrite (Hc run eq_refl). }
  rewrite Haf. by destruct (fire _ _ _ _ _) as [cluster' [runs|e]].
Qed.
End cron.

(** ** From the trigger to the run *)

(** The spec of a run when it starts: the run controller completes it from the team if it was
    left empty. *)
Definition started_spec (team : SwarmTeam) (run : SwarmRun) : SwarmRunSpec :=
  if needs_snapshot run then snapshot_spec team (Spec run) else Spec run.

(** the run that a trigger builds for a team starts with the team's pipeline, roles, routing,
    context policy and limits, and, if the team has neither pipeline nor routing, with its entry
    role and its search: what the trigger leaves out, the run controller's snapshot adds. *)
Theorem triggered_run_complete {templateApi : TemplateApi} {timeText : TimeText} order get_team
    trigger target ctx now run team :
  buildRun order get_team trigger target ctx now = Ok run →
  get_team (event_Namespace trigger) (target_Team target) = Found team → target_Team target ≠ "" →
  (team_Search (team_Spec team) = None ∨
   team_Pipeline (team_Spec team) = [] ∧ team_Routing (team_Spec team) = None) →
  let spec := started_spec team (object_Run run) in
  TeamRef spec = target_Team target ∧ TeamGeneration spec = team_Generation team ∧
  Pipeline spec = team_Pipeline (team_Spec team) ∧ Roles spec = team_Roles (team_Spec team) ∧
  Routing spec = team_Routing (team_Spec team) ∧
  DefaultContextPolicy spec = team_DefaultContextPolicy (team_Spec team) ∧
  TimeoutSeconds spec = team_TimeoutSeconds (team_Spec team) ∧
  MaxTokens spec = team_MaxTokens (team_Spec team) ∧
  Search spec = team_Search (team_Spec team) ∧
  (team_Pipeline (team_Spec team) = [] → team_Routing (team_Spec team) = None →
   Entry spec = team_Entry (team_Spec team)).
Proof.
  intros Hb Ht Hn Hs. unfold buildRun in Hb. rewrite Ht in Hb.
  destruct (resolve_inputs _ _ _ _) as [input|]; simpl in Hb; [|done]. injection Hb as <-. simpl.
  unfold started_spec, needs_snapshot. simpl. rewrite (proj2 (String.eqb_neq _ _) Hn). simpl.
  destruct (team_Pipeline (team_Spec team)) as [|step steps] eqn:Hp; simpl.
  - destruct (team_Routing (team_Spec team)) eqn:Hr; simpl.
    + destruct Hs as [Hs|[_ [=]]]. by rewrite Hs.
    + repeat split; try done; by case_match; [lia|].
  - destruct Hs as [Hs|[[=] _]]. rewrite Hs. by repeat split.
Qed.

(** ** The watch on teams *)

(** a team that succeeded or failed wakes exactly the triggers that watch it; in any other phase
    it wakes none, so a trigger that awaits another phase is not woken by the team reaching it. *)
Theorem teamToTriggers_spec events team ns name :
  (ns, name) ∈ teamToTriggers events team ↔
  (team_Phase (team_Status team) = TeamSucceeded ∨ team_Phase (team_Status team) = TeamFailed) ∧
  ∃ l e src, events = Ok l ∧ e ∈ l ∧ event_Namespace e = ns ∧ event_Name e = name ∧
    source_Type (Source (event_Spec e)) = TriggerSourceTeamOutput ∧
    TeamOutput (Source (event_Spec e)) = Some src ∧ output_Name src = team_Name team.
Proof.
  assert (Hw : ∀ e, watches_team team e = true ↔ ∃ src,
    source_Type (Source (event_Spec e)) = TriggerSourceTeamOutput ∧
    TeamOutput (Source (event_Spec e)) = Some src ∧ output_Name src = team_Name team).
  { intros e. unfold watches_team. destruct (source_Type _); try naive_solver.
    destruct (TeamOutput _) as [src|]; [|naive_solver]. rewrite String.eqb_eq. naive_solver. }
  assert (Hf : ∀ l : list SwarmEvent, (ns, name) ∈ ((λ e, (event_Namespace e, event_Name e)) <$>
      filter (λ e, watches_team team e = true) l) ↔
    ∃ e src, e ∈ l ∧ event_Namespace e = ns ∧ event_Name e = name ∧
      source_Type (Source (event_Spec e)) = TriggerSourceTeamOutput ∧
      TeamOutput (Source (event_Spec e)) = Some src ∧ output_Name src = team_Name team).
  { intros l. rewrite list_elem_of_fmap. setoid_rewrite list_elem_of_filter. setoid_rewrite Hw. naive_solver. }
  unfold teamToTriggers. destruct (team_Phase (team_Status team));
    try (rewrite elem_of_nil; naive_solver); destruct events; rewrite ?Hf, ?elem_of_nil; naive_solver.
Qed.

(** ** Witnesses *)

(** Two schedules: every hour, and never. *)
Definition hour : Z := 3600 * second.

#[local] Instance toy_cron : CronApi := {|
  Schedule := bool;
  ParseStandard s := if String.eqb s "@hourly" then Ok true
                     else if String.eqb s "0 0 30 2 *" then Ok false else Err "bad expression";
  schedule_Next s t := if s then (t / hour + 1) * hour else zero_time |}.

#[local] Instance toy_cron_laws : CronLaws toy_cron.
Proof.
  refine {| active (s : @Schedule toy_cron) u := s = true ∧ u mod hour = 0 |}.
  - intros [] t; simpl; [left|right]; [|split; [done|by intros u _ [? _]]].
    assert (Hh : hour = 3600000000000) by done. rewrite Hh.
    pose proof (Z.mul_div_le t 3600000000000 ltac:(lia)).
    pose proof (Z.mul_succ_div_gt t 3600000000000 ltac:(lia)). split; [lia|].
    split; [split; [done|by apply Z.mod_mul]|].
    intros u Hu [_ Hm]. apply Z.mod_divide in Hm as [k ->]; [|done].
    assert (t / 3600000000000 < k) by (apply Z.div_lt_upper_bound; lia). lia.
  - intros s u [_ Hm]. apply Z.mod_divide in Hm as [k ->]; [|done].
    unfold hour, second. replace (k * (3600 * 1000000000)) with (k * 3600 * 1000000000) by lia.
    by apply Z.mod_mul.
Defined.

#[local] Instance toy_time : TimeText := {| format_RFC3339 t := itoa (t / second); format_suffix t := itoa (t / second) |}.
#[local] Instance toy_time_laws : TimeTextLaws toy_time.
Proof. intros t u H. simpl. by rewrite H. Defined.
#[local] Instance trigger_template : TemplateApi := toy_template.
#[local] Instance trigger_conditions : ConditionApi := list_conditions.

Lemma hourly_recurs start : recurs (cronApi := toy_cron) true start.
Proof.
  intros t _. exists ((t / hour + 1) * hour).
  assert (Hh : hour = 3600000000000) by done. rewrite Hh.
  pose proof (Z.mul_div_le t 3600000000000 ltac:(lia)).
  pose proof (Z.mul_succ_div_gt t 3600000000000 ltac:(lia)). unfold nanosecond_day.
  split; [lia|]. split; [done|]. rewrite Hh. by apply Z.mod_mul.
Qed.

Definition any_order (m : gmap string string) : list string := keys_of m.
Definition demo_team (ns name : string) : get_result SwarmTeam :=
  if String.eqb name "team" then Found (plain_team [] [plain_step "a" []]) else NotFound.
Definition no_agent (ns name : string) : get_result SwarmAgent := NotFound.
Definition no_failure (r : RunResource) : option string := None.
Definition epoch_created (r : RunResource) : Z := 0.
Definition team_target : SwarmEventTarget := mkSwarmEventTarget "team" "" "" ∅.
Definition demo_status : SwarmEventStatus := mkSwarmEventStatus None None 0 "" 0 [].
Definition demo_event (source : SwarmEventSource) (targets : list SwarmEventTarget) (c : ConcurrencyPolicy) : SwarmEvent :=
  mkSwarmEvent "nightly" "ns" "uid" "1" 1 (mkSwarmEventSpec source targets c false) demo_status.
Definition cron_source (expr : string) : SwarmEventSource := mkSwarmEventSource TriggerSourceCron expr None.
Definition noon : Z := 12 * hour.
Definition noon_clocks : clocks := mkClocks noon (λ _, noon) noon.

Lemma mostRecentSchedule_correct_witness :
  ∃ last, mostRecentSchedule (cronApi := toy_cron) cron_fuel true (noon + 1) (Some (noon - 1)) = Some last ∧
          last_activation true (lookback_of (noon + 1) (Some (noon - 1))) (noon + 1) last.
Proof. apply (mostRecentSchedule_correct (cronApi := toy_cron) true). apply hourly_recurs. Defined.

Lemma duplicate_targets_leak_witness :
  ∃ more e, fire any_order demo_team no_agent no_failure epoch_created
    (demo_event (cron_source "@hourly") [team_target; team_target] ConcurrencyAllow)
    (mkFireContext "nightly" "" "" [] "") (λ _, noon) (Ok []) [] =
    ([] ++ stored epoch_created (mkRunResource
       (mkSwarmRun "nightly-team-43200" "ns" 1
          (mkSwarmRunSpec "team" "" "" 1 ∅ "" [plain_step "a" []] None [] "" None None 0 0) no_run_status)
       (<[LabelTrigger := "nightly"]> (<[LabelTriggerTemplate := "team"]> {[LabelTeam := "team"]}))
       ∅ 0 [trigger_owner (demo_event (cron_source "@hourly") [team_target; team_target] ConcurrencyAllow);
            mkOwnerReference "SwarmTeam" "team" "uid" false]) :: more, Err e).
Proof.
  eapply (duplicate_targets_leak any_order demo_team no_agent no_failure epoch_created)
    with (j := 0%nat); try reflexivity; try done; [apply NoDup_nil_2|apply not_elem_of_nil].
Defined.

Definition hourly_event : SwarmEvent := demo_event (cron_source "@hourly") [team_target] ConcurrencyAllow.
Definition forbidding_event : SwarmEvent := demo_event (cron_source "@hourly") [team_target] ConcurrencyForbid.
Definition never_event : SwarmEvent := demo_event (cron_source "0 0 30 2 *") [team_target] ConcurrencyAllow.

#[local] Notation demo_fire := (fire any_order demo_team no_agent no_failure epoch_created).
#[local] Notation demo_cron := (reconcileCron any_order demo_team no_agent no_failure epoch_created).

Lemma cron_fires_iff_witness :
  let window := lookback_of noon None in
  let activated := ∃ u, window < u ≤ noon ∧ active true u in
  ∃ h cache', demo_cron cron_fuel noon_clocks (Ok []) [] ∅ hourly_event = Some (h, cache') ∧
    (¬ activated → h_cluster h = [] ∧ ∃ trigger' requeue, h_result h = Ok (trigger', requeue) ∧
       LastFiredAt (event_Status trigger') = None ∧ FiredCount (event_Status trigger') = 0) ∧
    (activated →
       h_cluster h = (demo_fire hourly_event (cron_context noon hourly_event) (λ _, noon) (Ok []) []).1 ∧
       match (demo_fire hourly_event (cron_context noon hourly_event) (λ _, noon) (Ok []) []).2 with
       | Err e => h_result h = Err e
       | Ok _ => ∃ trigger' requeue, h_result h = Ok (trigger', requeue) ∧
           LastFiredAt (event_Status trigger') = Some noon ∧ FiredCount (event_Status trigger') = wrap64 (0 + 1)
       end).
Proof.
  apply (cron_fires_iff (cronApi := toy_cron) any_order demo_team no_agent no_failure epoch_created noon_clocks (Ok []) [] ∅
    hourly_event true); [done..|apply hourly_recurs].
Defined.

Definition noon_step := cron_step (cronApi := toy_cron) any_order demo_team no_agent no_failure epoch_created noon_clocks (Ok []) []
  hourly_event true (Some noon).

Lemma noon_fires : ∃ trigger' requeue, h_result noon_step = Ok (trigger', requeue).
Proof. by eexists _, _. Defined.

Lemma cron_fires_own_activation_witness :
  let fires := [mkFiring noon false; mkFiring noon true] in
  ∃ acts, Forall2 (λ f u, active true u ∧ fire_time f - day < u ≤ fire_time f) fires acts ∧
    (∀ i j f v, (i < j)%nat → fires !! i = Some f → recorded f = true → acts !! j = Some v → fire_time f < v) ∧
    Forall (λ u, ∀ l, None = Some l → l < u) acts.
Proof.
  apply (cron_fires_own_activation (cronApi := toy_cron) any_order demo_team no_agent no_failure epoch_created true hourly_event);
    [apply hourly_recurs|].
  destruct noon_fires as (trigger' & requeue & E).
  apply (history_lost (cronApi := toy_cron) any_order demo_team no_agent no_failure epoch_created true noon_clocks
    hourly_event (Some noon)); [by vm_compute|done|].
  apply (history_fire (cronApi := toy_cron) any_order demo_team no_agent no_failure epoch_created true noon_clocks (Ok []) []
    hourly_event (Some noon) trigger' requeue []); [by vm_compute|exact E|done|constructor].
Defined.

Definition busy_run : RunResource :=
  mkRunResource (mkSwarmRun "nightly-team-0" "ns" 1
    (mkSwarmRunSpec "team" "" "" 1 ∅ "" [plain_step "a" []] None [] "" None None 0 0)
    (mkSwarmRunStatus RunRunning [] "" (Some 0) None None "" None 0 []))
    (<[LabelTrigger := "nightly"]> {[LabelTeam := "team"]}) ∅ 0 [].

Lemma forbidden_fire_is_recorded_witness :
  ∃ trigger' requeue,
    cron_step (cronApi := toy_cron) any_order demo_team no_agent no_failure epoch_created noon_clocks (Ok [busy_run]) [busy_run]
      forbidding_event true (Some noon) = mkHandled [busy_run] (Ok (trigger', requeue)) ∧
    LastFiredAt (event_Status trigger') = Some noon ∧ FiredCount (event_Status trigger') = wrap64 (0 + 1).
Proof. apply (forbidden_fire_is_recorded _ _ _ _ _ noon_clocks _ _ forbidding_event); by vm_compute. Defined.

Definition answers_for (trigger latest : SwarmEvent) : answers :=
  mkAnswers (Found trigger) (Ok []) (Found "token") (Ok "token") None (Found latest) (λ _, None).

Lemma unsatisfiable_cron_hangs_witness :
  Reconcile any_order demo_team no_agent no_failure epoch_created "" 1000 noon_clocks
    (answers_for never_event never_event) [] ∅ = None.
Proof.
  apply (unsatisfiable_cron_hangs (cronApi := toy_cron) _ _ _ _ _ "" 1000 noon_clocks _ [] never_event false); try done.
  by intros u [? _].
Defined.

Definition hook_event (fired : Z) : SwarmEvent :=
  (demo_event (mkSwarmEventSource TriggerSourceWebhook "" None) [team_target] ConcurrencyAllow)
    <| event_Status ::= λ s, s <| FiredCount := fired |> |>.

Lemma webhook_fire_lost_witness :
  ∃ o stored, Reconcile any_order demo_team no_agent no_failure epoch_created "" 1 noon_clocks
      (answers_for (hook_event 3) (hook_event 4)) [] ∅ = Some o ∧ o_written o = Some stored ∧
    FiredCount (event_Status stored) = 3 ∧ LastFiredAt (event_Status stored) = None.
Proof.
  apply (webhook_fire_lost _ _ _ _ _ "" 1 noon_clocks (answers_for (hook_event 3) (hook_event 4)) [] ∅
    (hook_event 3) (hook_event 4)); try done. by eexists.
Defined.

Definition succeeded_team : SwarmTeam :=
  (plain_team [] [plain_step "a" []]) <| team_Status ::= λ s, s <| team_Phase := TeamSucceeded |> |>.
Definition finished_team (ns name : string) : get_result SwarmTeam :=
  if String.eqb name "team"
  then Found succeeded_team
  else NotFound.
Definition output_event : SwarmEvent :=
  demo_event (mkSwarmEventSource TriggerSourceTeamOutput "" (Some (mkTeamOutputSource "team" TeamUnset)))
    [team_target] ConcurrencyAllow.

Lemma team_output_fires_iff_witness :
  let h := reconcileTeamOutput any_order finished_team no_agent no_failure epoch_created noon_clocks (Ok []) []
             output_event in
  (already_fired None None = true → h_cluster h = [] ∧ ∃ trigger', h_result h = Ok (trigger', None) ∧
       LastFiredAt (event_Status trigger') = None) ∧
  (already_fired None None = false →
     h_cluster h = (fire any_order finished_team no_agent no_failure epoch_created output_event
                      (output_context noon output_event None) (λ _, noon) (Ok []) []).1 ∧
     match (fire any_order finished_team no_agent no_failure epoch_created output_event
              (output_context noon output_event None) (λ _, noon) (Ok []) []).2 with
     | Err e => h_result h = Err e
     | Ok _ => ∃ trigger', h_result h = Ok (trigger', None) ∧ LastFiredAt (event_Status trigger') = Some noon
     end).
Proof.
  apply (team_output_fires_iff any_order finished_team no_agent no_failure epoch_created noon_clocks (Ok []) []
    output_event (mkTeamOutputSource "team" TeamUnset)
    succeeded_team);
    by vm_compute.
Defined.

Lemma uncompleted_output_refires_witness :
  h_cluster (reconcileTeamOutput any_order finished_team no_agent no_failure epoch_created noon_clocks (Ok []) []
               output_event) =
  (fire any_order finished_team no_agent no_failure epoch_created output_event
     (output_context noon output_event None) (λ _, noon) (Ok []) []).1.
Proof.
  apply (uncompleted_output_refires any_order finished_team no_agent no_failure epoch_created noon_clocks (Ok []) []
    output_event (mkTeamOutputSource "team" TeamUnset)
    succeeded_team);
    try by vm_compute.
Defined.

Lemma triggered_run_complete_witness :
  ∃ run, buildRun any_order demo_team hourly_event team_target (cron_context noon hourly_event) noon = Ok run ∧
    Pipeline (started_spec (plain_team [] [plain_step "a" []]) (object_Run run)) = [plain_step "a" []].
Proof.
  eexists. split; [reflexivity|].
  apply (triggered_run_complete any_order demo_team hourly_event team_target (cron_context noon hourly_event) noon);
    [reflexivity..|done|by left].
Defined.
