(* ===== verification/Trigger.v ===== *)
(** * Trigger: the HTTP server of webhook triggers
    (internal/controller/trigger_webhook_server.go).

    A request goes through the rate limit, the checks of its path, method, trigger and token,
    fires the trigger, and is then answered at once, when the run is over, or as a stream of
    server-sent events.  A watch is the list of what it delivers.  golang.org/x/time/rate,
    time.ParseDuration and encoding/json are classes; the audit event is left out. *)
From Stdlib Require Import ZArith Lia Ascii.
From stdpp Require Import base tactics option list strings gmap.
From S2P Require Import Prelude GoStd Types Costs AgentTypes Kube RunState Event.

(** ** Interfaces *)
Class RateApi := {
  Limiter : Type;
  NewLimiter : Z → Z → Limiter;
  (** At a time: whether a request may pass, and the limiter after it. *)
  limiter_Allow : Z → Limiter → bool * Limiter }.

Class DurationApi := ParseDuration : string → option Z.

Definition maxSSEConnections : nat := 500.
Definition webhookRateLimit : Z := 10.
Definition webhookRateBurst : Z := 20.
Definition defaultSyncTimeout : Z := 60 * second.
Definition maxSyncTimeout : Z := 5 * 60 * second.

(** ** Requests *)
Record request := mkRequest {
  req_ClientIP : string;
  req_Path : string;
  req_Method : string;
  req_Authorization : string;
  (** The JSON object of the body; empty without one. *)
  req_Body : list (string * any);
  req_Mode : string;
  req_Timeout : string }.

Definition TrimSlash (path : string) : string :=
  match path with String c rest => if Ascii.eqb c slash then rest else path | "" => "" end.

(** The namespace and the name of a path [/triggers/{namespace}/{name}/fire]. *)
Definition route (path : string) : option (string * string) :=
  match split_byte slash (TrimSlash path) with
  | [a; namespace; name; b] =>
      if String.eqb a "triggers" && String.eqb b "fire" then Some (namespace, name) else None
  | _ => None
  end.

Definition bearerToken (r : request) : string :=
  if HasPrefix (req_Authorization r) "Bearer " then str_drop 7 (req_Authorization r) else "".

(** The constant-time comparison is equality; a missing Secret or key gives no token. *)
Definition validToken (stored : result string string) (token : string) : bool :=
  if String.eqb token "" then false
  else match stored with Err _ => false | Ok s => String.eqb token s end.

Section limits.
Context {rateApi : RateApi} {durationApi : DurationApi}.

Definition allow (now : Z) (limiters : gmap string Limiter) (ip : string) : bool * gmap string Limiter :=
  let lim := default (NewLimiter webhookRateLimit webhookRateBurst) (limiters !! ip) in
  let '(ok, lim) := limiter_Allow now lim in
  (ok, <[ip := lim]> limiters).

Definition parseSyncTimeout (raw : string) : Z :=
  let timeout := if String.eqb raw "" then defaultSyncTimeout
                 else default defaultSyncTimeout (ParseDuration raw) in
  if maxSyncTimeout <? timeout then maxSyncTimeout else timeout.
End limits.

(** ** Waiting for a run *)
Record syncResult := mkSyncResult {
  sync_Status : string;
  sync_Output : string;
  sync_Error : string;
  sync_DurationMs : Z;
  sync_TokenUsage : option TokenUsage }.

#[export] Instance eta_syncResult : Settable syncResult := λ r,
  mkSyncResult (sync_Status r) (sync_Output r) (sync_Error r) (sync_DurationMs r) (sync_TokenUsage r).

(** The message of the first Ready condition that is False. *)
Definition is_not_ready (c : StatusCondition) : bool :=
  String.eqb (cond_Type c) ConditionReady && bool_decide (cond_Status c = ConditionFalse).

Definition failure_message (conditions : list StatusCondition) : string :=
  match List.find is_not_ready conditions with
  | Some c => cond_Message c
  | None => "run pipeline failed"
  end.

Definition runSyncResult (run : SwarmRun) : option syncResult :=
  match Phase (Status run) with
  | RunSucceeded => Some (mkSyncResult "succeeded" (status_Output (Status run)) "" 0 (TotalTokenUsage (Status run)))
  | RunFailed => Some (mkSyncResult "failed" "" (failure_message (Conditions (Status run))) 0 None)
  | _ => None
  end.

(** What a select of the waiting loop receives. *)
Inductive watch_input := WatchRun (run : SwarmRun) | WatchOther | WatchClosed | WatchDone.

(** [None] while the loop still waits at the end of the list. *)
Fixpoint watch_loop (inputs : list watch_input) : option (result string syncResult) :=
  match inputs with
  | [] => None
  | WatchDone :: _ => Some (Err "context done")
  | WatchClosed :: _ => Some (Err "watch channel closed")
  | WatchOther :: rest => watch_loop rest
  | WatchRun run :: rest =>
      match runSyncResult run with
      | Some r => Some (Ok r)
      | None => watch_loop rest
      end
  end.

Definition waitForRun (watch_error : option string) (current : option SwarmRun) (inputs : list watch_input)
    : option (result string syncResult) :=
  match watch_error with
  | Some e => Some (Err ("watch: " +:+ e))
  | None =>
      match r ← current; runSyncResult r with
      | Some r => Some (Ok r)
      | None => watch_loop inputs
      end
  end.

(** ** Replies *)
Inductive reply :=
| HttpError (code : Z) (msg : string)
| FiredReply (firedAt trigger : string) (targets : Z)
| TimedOut (after elapsed : Z)
| SyncReply (code : Z) (r : syncResult)
| Stream.

(** [done] is whether the request's context is over when the wait fails; the clocks are read
    before and after the wait. *)
Definition handleSync (timeout : Z) (runs : list RunResource) (watch_error : option string)
    (current : option SwarmRun) (inputs : list watch_input) (done : bool) (start now : Z) : option reply :=
  match runs with
  | [_] =>
      w ← waitForRun watch_error current inputs;
      Some (match w with
            | Err _ => if done then TimedOut timeout (Z.quot (time_Sub now start) 1000000)
                       else HttpError 500 "error waiting for run to complete"
            | Ok r => SyncReply (if String.eqb (sync_Status r) "failed" then 500 else 200)
                        (r <| sync_DurationMs := Z.quot (time_Sub now start) 1000000 |>)
            end)
  | _ => Some (HttpError 400 "sync mode requires exactly one target team")
  end.

(** ** Server-sent events *)
Inductive sse_event :=
| StepStarted (step : string)
| StepCompleted (step output : string) (durationMs : Z) (usage : option TokenUsage)
| StepFailedEvent (step : string)
| TokenEvent (chunk : string)
| FlowCompleted (output : string) (durationMs : Z) (usage : option TokenUsage)
| FlowFailed (error : string) (durationMs : Z)
| SseError (msg : string).

(** A step's event when it enters a phase; [None] is a nil dereference. *)
Definition step_event (step : PipelineStepStatus) : option (list sse_event) :=
  match step_Phase step with
  | StepRunning => Some [StepStarted (step_Name step)]
  | StepSucceeded =>
      c ← step_CompletionTime step;
      s ← step_StartTime step;
      Some [StepCompleted (step_Name step) (step_Output step) (Z.quot (time_Sub c s) 1000000)
              (step_TokenUsage step)]
  | StepFailed => Some [StepFailedEvent (step_Name step)]
  | _ => Some []
  end.

(** The events, and the phases seen; a step that was not seen has the empty phase.  After a
    nil dereference there are no phases. *)
Fixpoint emitStepEvents (steps : list PipelineStepStatus) (seen : gmap string PipelineStepPhase)
    : list sse_event * option (gmap string PipelineStepPhase) :=
  match steps with
  | [] => ([], Some seen)
  | step :: rest =>
      if bool_decide (default StepUnset (seen !! step_Name step) = step_Phase step)
      then emitStepEvents rest seen
      else match step_event step with
      | None => ([], None)
      | Some evs =>
          let '(more, seen) := emitStepEvents rest (<[step_Name step := step_Phase step]> seen) in
          (evs ++ more, seen)
      end
  end.

(** The channel of token chunks: nil, or what is buffered and whether it is closed. *)
Record token_channel := mkTokenChannel { chunks : list string; closed : bool }.

Definition push (ch : option token_channel) (new : list string) (closes : bool) : option token_channel :=
  match ch with
  | Some c => if closed c then Some c else Some (mkTokenChannel (chunks c ++ new) closes)
  | None => None
  end.

Definition drainTokens (ch : option token_channel) : list sse_event * option token_channel :=
  match ch with
  | None => ([], None)
  | Some c => (TokenEvent <$> chunks c, if closed c then None else Some (mkTokenChannel [] false))
  end.

(** The tokens that the channel still delivers until it is closed; [rest] has not arrived yet. *)
Definition remaining_tokens (ch : option token_channel) (rest : list string) : list sse_event :=
  match ch with
  | None => []
  | Some c => TokenEvent <$> (chunks c ++ if closed c then [] else rest)
  end.

Definition emitRunTerminal (run : SwarmRun) (ch : option token_channel) (rest : list string) (start now : Z)
    : option (list sse_event) :=
  let ms := Z.quot (time_Sub now start) 1000000 in
  match Phase (Status run) with
  | RunSucceeded => Some (remaining_tokens ch rest ++
                      [FlowCompleted (status_Output (Status run)) ms (TotalTokenUsage (Status run))])
  | RunFailed => Some [FlowFailed (failure_message (Conditions (Status run))) ms]
  | _ => None
  end.

Definition StreamDone := "__EOF__".

(** The tokens that the goroutine forwards, by what it reads; an empty chunk means none yet. *)
Fixpoint read_tokens (reads : list (result string string)) : list string :=
  match reads with
  | [] | Err _ :: _ => []
  | Ok chunk :: reads =>
      if String.eqb chunk "" then read_tokens reads
      else if String.eqb chunk StreamDone then []
      else chunk :: read_tokens reads
  end.

(** The channel that is returned, and what the goroutine puts into it. *)
Definition startTokenStream (streamKey : string) (has_stream : bool) (reads : list (result string string))
    : token_channel * list string :=
  if String.eqb streamKey "" || negb has_stream then (mkTokenChannel [] true, [])
  else (mkTokenChannel [] false, read_tokens reads).

(** What a select of the streaming loop receives. *)
Inductive sse_input := InDone | InToken (chunk : string) | InRun (run : SwarmRun) | InOther | InClosed.

(** One round: the tokens that arrived before the select, what it receives, the clock, and the
    tokens that are still to come if the run is over. *)
Record sse_round := mkSseRound {
  r_pushed : list string;
  r_closes : bool;
  r_input : sse_input;
  r_now : Z;
  r_rest : list string }.

Inductive sse_end := SseFinished | SseOpen | SsePanicked.

(** How the stream goes on after the events of a run: with the phases seen, or not. *)
Inductive emitted := EmitEnd (e : sse_end) | EmitOn (seen : gmap string PipelineStepPhase).

(** The events of the steps of a run and, if it is over, of the run. *)
Definition emit_run (run : SwarmRun) (seen : gmap string PipelineStepPhase) (ch : option token_channel)
    (rest : list string) (start now : Z) : list sse_event * emitted :=
  match emitStepEvents (Steps (Status run)) seen with
  | (evs, None) => (evs, EmitEnd SsePanicked)
  | (evs, Some seen) =>
      match emitRunTerminal run ch rest start now with
      | Some last => (evs ++ last, EmitEnd SseFinished)
      | None => (evs, EmitOn seen)
      end
  end.

(** What a round does after its drain; [next] is the rest of the loop. *)
Definition select_round (timeout start : Z) (timeout_text : Z → string)
    (next : gmap string PipelineStepPhase → option token_channel → list sse_event * sse_end)
    (r : sse_round) (seen : gmap string PipelineStepPhase) (ch : option token_channel)
    : list sse_event * sse_end :=
  match r_input r with
  | InDone => ([SseError ("timed out after " +:+ timeout_text timeout)], SseFinished)
  | InToken chunk =>
      match ch with
      | Some _ => let '(evs, e) := next seen ch in (TokenEvent chunk :: evs, e)
      | None => next seen ch
      end
  | InClosed => ([SseError "watch channel closed unexpectedly"], SseFinished)
  | InOther => next seen ch
  | InRun run =>
      match emit_run run seen ch (r_rest r) start (r_now r) with
      | (evs, EmitEnd e) => (evs, e)
      | (evs, EmitOn seen) => let '(more, e) := next seen ch in (evs ++ more, e)
      end
  end.

Fixpoint sse_loop (timeout start : Z) (timeout_text : Z → string) (rounds : list sse_round)
    (seen : gmap string PipelineStepPhase) (ch : option token_channel) : list sse_event * sse_end :=
  match rounds with
  | [] => ([], SseOpen)
  | r :: rounds =>
      let '(drained, ch) := drainTokens (push ch (r_pushed r) (r_closes r)) in
      let '(evs, e) := select_round timeout start timeout_text
                         (sse_loop timeout start timeout_text rounds) r seen ch in
      (drained ++ evs, e)
  end.

(** [current] is the run as read before the loop; [rest0] the tokens until the channel is closed. *)
Definition sse_stream (timeout start : Z) (timeout_text : Z → string) (watch_error : option string)
    (current : option SwarmRun) (now0 : Z) (rest0 : list string) (ch : token_channel)
    (rounds : list sse_round) : list sse_event * sse_end :=
  match watch_error with
  | Some e => ([SseError ("watch error: " +:+ e)], SseFinished)
  | None =>
      match current with
      | None => sse_loop timeout start timeout_text rounds ∅ (Some ch)
      | Some run =>
          match emit_run run ∅ (Some ch) rest0 start now0 with
          | (evs, EmitEnd e) => (evs, e)
          | (evs, EmitOn seen) =>
              let '(more, e) := sse_loop timeout start timeout_text rounds seen (Some ch) in
              (evs ++ more, e)
          end
      end
  end.

(** Whether a stream is opened, by the free slots, the targets and the writer. *)
Definition open_stream (slots : nat) (runs : list RunResource) (can_flush : bool) : reply :=
  match slots with
  | O => HttpError 503 "too many concurrent SSE connections"
  | S _ =>
      match runs with
      | [_] => if can_flush then Stream else HttpError 500 "streaming not supported"
      | _ => HttpError 400 "sse mode requires exactly one target team"
      end
  end.

(** ** ServeHTTP *)
Record server_state := mkServerState {
  s_cluster : list RunResource;
  (** The trigger whose status was stored, if one was. *)
  s_trigger : option SwarmEvent }.

(** How the answer to a fired request goes on. *)
Inductive answer :=
| Replied (r : reply)
| WaitSync (runs : list RunResource)
| WaitSSE (runs : list RunResource) (streamKey : string).

Section serve.
Context {rateApi : RateApi} {templateApi : TemplateApi} {timeText : TimeText}.
Variable input_order : gmap string string → list string.
Variable get_team : string → string → get_result SwarmTeam.
Variable get_agent : string → string → get_result SwarmAgent.
Variable create_error : RunResource → option string.
Variable created_at : RunResource → Z.
Variable get_event : string → string → get_result SwarmEvent.
(** The token in the Secret of a trigger, and the answer to a status update. *)
Variable secret_token : SwarmEvent → result string string.
Variable update_error : SwarmEvent → option string.
Variable has_stream : bool.

Definition stream_key (r : request) (namespace name : string) (now : Z) : string :=
  if String.eqb (req_Mode r) "sse" && has_stream
  then "chunks:" +:+ namespace +:+ ":" +:+ name +:+ ":" +:+ itoa now else "".

Definition record_fire (trigger : SwarmEvent) (now : Z) : SwarmEvent :=
  trigger <| event_Status ::= λ s,
    s <| LastFiredAt := Some now |> <| FiredCount := wrap64 (FiredCount s + 1) |>
      <| event_ObservedGeneration := event_Generation trigger |> |>.

(** After the checks: fire, record, answer. *)
Definition fire_request (r : request) (namespace name : string) (trigger : SwarmEvent) (now : Z)
    (clock : nat → Z) (listed : result string (list RunResource)) (cluster : list RunResource)
    : server_state * answer :=
  let streamKey := stream_key r namespace name now in
  let ctx := mkFireContext (event_Name trigger) (format_RFC3339 now) "" (req_Body r) streamKey in
  match fire input_order get_team get_agent create_error created_at trigger ctx clock listed cluster with
  | (cluster, Err _) => (mkServerState cluster None, Replied (HttpError 500 "webhook trigger failed"))
  | (cluster, Ok runs) =>
      let trigger := record_fire trigger now in
      let st := mkServerState cluster (match update_error trigger with None => Some trigger | Some _ => None end) in
      (st, if String.eqb (req_Mode r) "sync" then WaitSync runs
           else if String.eqb (req_Mode r) "sse" then WaitSSE runs streamKey
           else Replied (FiredReply (format_RFC3339 now) name (Z.of_nat (length runs))))
  end.

(** The checks, in order; the trigger that may be fired or the refusal. *)
Definition check_request (r : request) : reply + string * string * SwarmEvent :=
  match route (req_Path r) with
  | None => inl (HttpError 404 "not found")
  | Some (namespace, name) =>
      if negb (String.eqb (req_Method r) "POST") then inl (HttpError 405 "method not allowed")
      else match get_event namespace name with
      | Found trigger =>
          match source_Type (Source (event_Spec trigger)) with
          | TriggerSourceWebhook =>
              if Suspended (event_Spec trigger) then inl (HttpError 503 "trigger is suspended")
              else if validToken (secret_token trigger) (bearerToken r) then inr (namespace, name, trigger)
              else inl (HttpError 401 "unauthorized")
          | _ => inl (HttpError 400 "trigger is not of type webhook")
          end
      | _ => inl (HttpError 404 "trigger not found")
      end
  end.

Definition ServeHTTP (arrival : Z) (limiters : gmap string Limiter) (r : request) (now : Z) (clock : nat → Z)
    (listed : result string (list RunResource)) (cluster : list RunResource)
    : gmap string Limiter * server_state * answer :=
  let '(ok, limiters) := allow arrival limiters (req_ClientIP r) in
  if negb ok then (limiters, mkServerState cluster None, Replied (HttpError 429 "too many requests"))
  else match check_request r with
  | inl refusal => (limiters, mkServerState cluster None, Replied refusal)
  | inr (namespace, name, trigger) =>
      let '(st, a) := fire_request r namespace name trigger now clock listed cluster in (limiters, st, a)
  end.
End serve.
