(* ===== verification/TriggerProps.v ===== *)
(** * TriggerProps: what the webhook server lets through and what it answers.

    Only an authorised request fires a trigger; the limits of callers are independent; a wait
    ends with the first final state; a stream carries every token in order and ends once. *)
From Stdlib Require Import ZArith Lia Ascii.
From stdpp Require Import base tactics option list strings gmap sorting.
From S2P Require Import Prelude GoStd Types Costs AgentTypes Kube RunState Registry Routing.
From S2P Require Import Dispatch Admission AgentRun Search SearchRun RunController Event EventProps Trigger.

(** ** Requests *)
Section requests.
Context {rateApi : RateApi} {templateApi : TemplateApi} {timeText : TimeText}.
Context (order : gmap string string → list string) (get_team : string → string → get_result SwarmTeam)
  (get_agent : string → string → get_result SwarmAgent) (create_error : RunResource → option string)
  (created_at : RunResource → Z) (get_event : string → string → get_result SwarmEvent)
  (secret_token : SwarmEvent → result string string) (update_error : SwarmEvent → option string)
  (has_stream : bool).

#[local] Notation check_request := (check_request get_event secret_token).
#[local] Notation fire_request :=
  (fire_request order get_team get_agent create_error created_at update_error has_stream).
#[local] Notation ServeHTTP :=
  (ServeHTTP order get_team get_agent create_error created_at get_event secret_token update_error has_stream).

Lemma validToken_spec stored token :
  validToken stored token = true ↔ stored = Ok token ∧ token ≠ "".
Proof.
  unfold validToken. destruct (String.eqb_spec token "") as [->|Hn]; [split; [done|by intros [_ []]]|].
  destruct stored as [s|e]; [|by split; [|intros [? _]]].
  rewrite String.eqb_eq. naive_solver.
Qed.

Lemma bearerToken_spec r token :
  token ≠ "" → bearerToken r = token ↔ req_Authorization r = "Bearer " +:+ token.
Proof.
  intros Hn. unfold bearerToken.
  destruct (HasPrefix (req_Authorization r) "Bearer ") eqn:E.
  - apply (HasPrefix_spec (req_Authorization r) "Bearer ") in E as [t E]. rewrite E. split; [by intros <-|]. by intros [= H].
  - split; [by intros <-|]. intros H. rewrite H in E.
    rewrite HasPrefix_app in E.
    done.
Qed.

(** The trigger a request may fire. *)
Definition authorised (r : request) (namespace name : string) (trigger : SwarmEvent) : Prop :=
  route (req_Path r) = Some (namespace, name) ∧ req_Method r = "POST" ∧
  get_event namespace name = Found trigger ∧
  source_Type (Source (event_Spec trigger)) = TriggerSourceWebhook ∧
  Suspended (event_Spec trigger) = false ∧
  ∃ token, secret_token trigger = Ok token ∧ token ≠ "" ∧ req_Authorization r = "Bearer " +:+ token.

Lemma check_request_spec r :
  match check_request r with
  | inr (namespace, name, trigger) => authorised r namespace name trigger
  | inl refusal => (∃ code msg, refusal = HttpError code msg ∧ 400 ≤ code) ∧
                   ∀ namespace name trigger, ¬ authorised r namespace name trigger
  end.
Proof.
  assert (Hr : ∀ (P : Prop) code msg, 400 ≤ code → P → (∃ c m, HttpError code msg = HttpError c m ∧ 400 ≤ c) ∧ P)
    by eauto.
  unfold Trigger.check_request, authorised.
  destruct (route (req_Path r)) as [[ns name]|]; [|by apply Hr; [lia|intros ??? [? _]]].
  destruct (String.eqb_spec (req_Method r) "POST") as [Hm|Hm]; simpl;
    [|by apply Hr; [lia|intros ??? (_ & ? & _)]].
  destruct (get_event ns name) as [trigger| |e] eqn:G;
    [|by apply Hr; [lia|intros ??? ([= <- <-] & _ & ? & _); congruence]..].
  destruct (source_Type _) eqn:T;
    try (apply Hr; [lia|intros ??? ([= <- <-] & _ & G' & T' & _); rewrite G in G'; simplify_eq; congruence]).
  destruct (Suspended _) eqn:S.
  { apply Hr; [lia|]. intros ??? ([= <- <-] & _ & G' & _ & S' & _). rewrite G in G'. simplify_eq. congruence. }
  destruct (validToken (secret_token trigger) (bearerToken r)) eqn:V.
  - apply validToken_spec in V as [V Hn]. repeat split; try done.
    exists (bearerToken r). split; [done|]. split; [done|]. by apply bearerToken_spec.
  - apply Hr; [lia|]. intros ??? ([= <- <-] & _ & G' & _ & _ & token & Ht & Hn & Ha).
    rewrite G in G'. simplify_eq. apply (bearerToken_spec r token Hn) in Ha.
    apply not_true_iff_false in V. apply V, validToken_spec. by rewrite Ha.
Qed.

(** C34: a request creates a run, changes a trigger or is answered with anything but an error only
    if it is a POST to the path of an active webhook trigger that carries that trigger's token,
    and the caller is within its rate limit. *)
Theorem ServeHTTP_authorised arrival limiters r now clock listed cluster :
  let '(limiters', st, a) := ServeHTTP arrival limiters r now clock listed cluster in
  (s_cluster st = cluster ∧ s_trigger st = None ∧
   ∃ code msg, a = Replied (HttpError code msg) ∧ 400 ≤ code) ∨
  ((allow arrival limiters (req_ClientIP r)).1 = true ∧
   ∃ namespace name trigger, authorised r namespace name trigger ∧
     (st, a) = fire_request r namespace name trigger now clock listed cluster).
Proof.
  unfold Trigger.ServeHTTP. destruct (allow arrival limiters (req_ClientIP r)) as [[] limiters']; simpl.
  2: { left. split; [done|]. split; [done|]. eexists _, _. by split. }
  pose proof (check_request_spec r) as H. destruct (check_request r) as [refusal|[[ns name] trigger]].
  - left. destruct H as [(code & msg & -> & Hc) _]. split; [done|]. split; [done|]. by exists code, msg.
  - destruct (fire_request _ _ _ _ _ _ _ _) as [st a] eqn:F. right. split; [done|].
    exists ns, name, trigger. by rewrite F.
Qed.

(** in sync mode the number of targets is checked after they were fired: a request for a
    trigger with two targets or more gets an error that says so, and its runs have been created
    and counted. *)
Theorem sync_refuses_after_firing r namespace name trigger now clock listed cluster st runs
    timeout werr current inputs done start after :
  req_Mode r = "sync" → (2 ≤ length (Targets (event_Spec trigger)))%nat →
  event_ConcurrencyPolicy (event_Spec trigger) ≠ ConcurrencyForbid →
  fire_request r namespace name trigger now clock listed cluster = (st, WaitSync runs) →
  length (s_cluster st) = (length cluster + length (Targets (event_Spec trigger)))%nat ∧
  handleSync timeout runs werr current inputs done start after =
    Some (HttpError 400 "sync mode requires exactly one target team").
Proof.
  intros Hm Hl Hc. unfold Trigger.fire_request.
  set (ctx := mkFireContext _ _ _ _ _). rewrite Hm.
  unfold Event.fire. rewrite bool_decide_eq_false_2 by done.
  pose proof (fire_targets_spec order get_team get_agent create_error created_at trigger ctx clock
    (Targets (event_Spec trigger)) cluster []) as H.
  destruct (fire_targets _ _ _ _ _ _ _ _ _ _ _) as [cluster' [runs'|e]]; [|done].
  destruct H as (k & made & Hb & -> & _ & -> & ->). intros [= <- <-]. simpl.
  rewrite firstn_all in Hb. apply builds_length in Hb. rewrite length_app, length_fmap.
  split; [lia|]. destruct made as [|a [|b made]]; simpl in Hb; [lia|lia|done].
Qed.

(** a request whose fire is skipped, because a run of the trigger is unfinished and its policy
    is Forbid, is answered as fired, with no targets, and is counted. *)
Theorem skipped_request_reports_fired r namespace name trigger now clock listed cluster :
  event_ConcurrencyPolicy (event_Spec trigger) = ConcurrencyForbid →
  hasRunningRun listed trigger = Ok true → req_Mode r = "" →
  (∀ t, update_error t = None) →
  fire_request r namespace name trigger now clock listed cluster =
    (mkServerState cluster (Some (record_fire trigger now)),
     Replied (FiredReply (format_RFC3339 now) name 0)).
Proof.
  intros Hc Hr Hm Hu. unfold Trigger.fire_request, Event.fire.
  by rewrite bool_decide_eq_true_2, Hr, Hu, Hm by done.
Qed.
End requests.

(** *** Paths *)
Definition no_slash (s : string) : bool := str_all (λ c, negb (Ascii.eqb c slash)) s.

Lemma split_byte_no_sep s : no_slash s = true → split_byte slash s = [s].
Proof.
  induction s as [|c s IH]; [done|]. unfold no_slash in *. simpl.
  intros [Hc Hs]%andb_true_iff. apply negb_true_iff in Hc. by rewrite Hc, IH.
Qed.

Lemma split_byte_app s t :
  no_slash s = true → split_byte slash (s +:+ String slash t) = s :: split_byte slash t.
Proof.
  induction s as [|c s IH]; [done|]. unfold no_slash in *. simpl.
  intros [Hc Hs]%andb_true_iff. apply negb_true_iff in Hc. by rewrite Hc, IH.
Qed.

(** the URL that the controller publishes for a webhook trigger leads back to it: its path
    routes to the trigger's namespace and name. *)
Theorem webhook_url_routes base trigger :
  no_slash (event_Namespace trigger) = true → no_slash (event_Name trigger) = true →
  ∃ path, webhook_url_of base trigger = base +:+ path ∧
          route path = Some (event_Namespace trigger, event_Name trigger).
Proof.
  intros Hns Hn. eexists. split; [reflexivity|]. unfold route.
  change (TrimSlash _) with ("triggers" +:+ String slash (event_Namespace trigger +:+
    String slash (event_Name trigger +:+ String slash "fire"))).
  by rewrite !split_byte_app, split_byte_no_sep.
Qed.

(** ** Limits *)
Section limits.
Context {rateApi : RateApi} {durationApi : DurationApi}.

(** The answers to a sequence of requests, each at its time from its address. *)
Fixpoint decisions (limiters : gmap string Limiter) (reqs : list (Z * string)) : list (string * bool) :=
  match reqs with
  | [] => []
  | (now, ip) :: reqs =>
      let '(ok, limiters) := allow now limiters ip in (ip, ok) :: decisions limiters reqs
  end.

Definition of_ip {A} (ip : string) (f : A → string) (l : list A) : list A := filter (λ x, f x = ip) l.

(** callers are limited independently: the answers to one address, among any requests of
    others, are the answers to its own requests alone. *)
Theorem limits_are_per_ip ip limiters reqs :
  of_ip ip fst (decisions limiters reqs) = decisions limiters (of_ip ip snd reqs).
Proof.
  assert (Hcong : ∀ reqs l1 l2, l1 !! ip = l2 !! ip →
    of_ip ip fst (decisions l1 reqs) = decisions l2 (of_ip ip snd reqs)); [|by apply Hcong].
  clear. unfold of_ip. induction reqs as [|[now a] reqs IH]; intros l1 l2 Hl; [done|].
  simpl. rewrite filter_cons. simpl. unfold allow.
  destruct (limiter_Allow now (default _ (l1 !! a))) as [ok lim] eqn:E. rewrite filter_cons. simpl.
  destruct (decide (a = ip)) as [->|Hn]; simpl.
  - unfold allow. rewrite <- Hl, E. f_equal. apply IH. by rewrite !lookup_insert_eq.
  - apply IH. by rewrite lookup_insert_ne.
Qed.

(** no wait exceeds five minutes, whatever the request asks for; but a negative duration is
    taken as it is, and such a wait is over before it starts. *)
Theorem parseSyncTimeout_bounds raw :
  parseSyncTimeout raw ≤ maxSyncTimeout ∧
  (∀ d, raw ≠ "" → ParseDuration raw = Some d → d ≤ maxSyncTimeout → parseSyncTimeout raw = d).
Proof.
  unfold parseSyncTimeout. split.
  - destruct (Z.ltb_spec maxSyncTimeout (if String.eqb raw "" then defaultSyncTimeout
      else default defaultSyncTimeout (ParseDuration raw))); lia.
  - intros d Hn E Hd. rewrite (proj2 (String.eqb_neq _ _) Hn), E. simpl.
    destruct (Z.ltb_spec maxSyncTimeout d); lia.
Qed.
End limits.

(** ** Waiting *)
Definition settled (run : SwarmRun) : bool :=
  match Phase (Status run) with RunSucceeded | RunFailed => true | _ => false end.

Lemma runSyncResult_settled run : settled run = true ↔ is_Some (runSyncResult run).
Proof.
  unfold settled, runSyncResult. destruct (Phase (Status run)); split; try done; by (intros [? ?] || eexists).
Qed.

(** What the loop passes over. *)
Definition waits (i : watch_input) : Prop :=
  match i with WatchRun run => settled run = false | WatchOther => True | _ => False end.

Lemma watch_loop_spec inputs r :
  watch_loop inputs = Some (Ok r) ↔
  ∃ pre run post, inputs = pre ++ WatchRun run :: post ∧ Forall waits pre ∧ runSyncResult run = Some r.
Proof.
  induction inputs as [|i inputs IH]; simpl.
  { split; [done|]. by intros ([|] & ? & ? & ? & _). }
  destruct i as [run| | |].
  - destruct (runSyncResult run) as [r'|] eqn:E.
    + split.
      * intros [= ->]. by exists [], run, inputs.
      * intros ([|j pre] & run' & post & Hi & Hf & Hr); simplify_eq/=; [congruence|].
        apply Forall_cons in Hf as [Hw _]. simpl in Hw.
        assert (settled run = true) by (apply runSyncResult_settled; by eexists). congruence.
    + rewrite IH. split.
      * intros (pre & run' & post & -> & Hf & Hr). exists (WatchRun run :: pre), run', post.
        split; [done|]. split; [|done]. constructor; [|done]. simpl. apply not_true_iff_false.
        rewrite runSyncResult_settled, E. by intros [? ?].
      * intros ([|j pre] & run' & post & Hi & Hf & Hr); simplify_eq/=.
        apply Forall_cons in Hf as [_ Hf]. by exists pre, run', post.
  - rewrite IH. split.
    + intros (pre & run' & post & -> & Hf & Hr). exists (WatchOther :: pre), run', post.
      split; [done|]. by split; [constructor|].
    + intros ([|j pre] & run' & post & Hi & Hf & Hr); simplify_eq/=.
      apply Forall_cons in Hf as [_ Hf]. by exists pre, run', post.
  - split; [done|]. intros ([|j pre] & run' & post & Hi & Hf & _); simplify_eq/=.
    by apply Forall_cons in Hf as [[] _].
  - split; [done|]. intros ([|j pre] & run' & post & Hi & Hf & _); simplify_eq/=.
    by apply Forall_cons in Hf as [[] _].
Qed.

(** a wait returns the result of the first final state of the run: the one read before the
    watch, or else the first one the watch delivers before it is closed or the time is up. *)
Theorem waitForRun_spec current inputs r :
  waitForRun None current inputs = Some (Ok r) ↔
  (∃ run, current = Some run ∧ runSyncResult run = Some r) ∨
  (∀ run, current = Some run → settled run = false) ∧
  ∃ pre run post, inputs = pre ++ WatchRun run :: post ∧ Forall waits pre ∧ runSyncResult run = Some r.
Proof.
  unfold waitForRun. rewrite <- watch_loop_spec. destruct current as [run|]; simpl; [|naive_solver].
  destruct (runSyncResult run) as [r'|] eqn:E.
  - assert (settled run = true) by (apply runSyncResult_settled; by eexists).
    split; [intros [= ->]; left; eauto|]. intros [(? & [= <-] & ?)|[H' _]]; [congruence|].
    specialize (H' _ eq_refl). congruence.
  - assert (settled run = false).
    { apply not_true_iff_false. rewrite runSyncResult_settled, E. by intros [? ?]. }
    split; [intros; right; split; [by intros ? [= <-]|done]|]. intros [(? & [= <-] & ?)|[_ ?]]; [congruence|done].
Qed.

(** ** Streams *)
Definition final_event (e : sse_event) : bool :=
  match e with FlowCompleted _ _ _ | FlowFailed _ _ | SseError _ => true | _ => false end.
Definition token_of (e : sse_event) : option string :=
  match e with TokenEvent c => Some c | _ => None end.
Definition step_only (e : sse_event) : Prop := final_event e = false ∧ token_of e = None.

Lemma step_event_only step evs : step_event step = Some evs → Forall step_only evs.
Proof.
  unfold step_event. destruct (step_Phase step); try (intros [= <-]; by repeat constructor).
  destruct (step_CompletionTime step), (step_StartTime step); simpl; try done.
  intros [= <-]. by repeat constructor.
Qed.

Lemma emitStepEvents_only steps seen : Forall step_only (emitStepEvents steps seen).1.
Proof.
  revert seen. induction steps as [|step steps IH]; intros seen; simpl; [constructor|].
  case_bool_decide; [done|]. destruct (step_event step) as [evs|] eqn:E; [|constructor].
  specialize (IH (<[step_Name step:=step_Phase step]> seen)).
  destruct (emitStepEvents steps _) as [more seen']. apply Forall_app. split; [|done].
  by eapply step_event_only.
Qed.

(** The last event and no other is final, if the stream is over. *)
Definition ends_once (evs : list sse_event) (e : sse_end) : Prop :=
  match e with
  | SseFinished => ∃ body last, evs = body ++ [last] ∧ final_event last = true ∧
                     Forall (λ e, final_event e = false) body
  | _ => Forall (λ e, final_event e = false) evs
  end.

Lemma ends_once_app pre evs e :
  Forall (λ e, final_event e = false) pre → ends_once evs e → ends_once (pre ++ evs) e.
Proof.
  intros Hp. destruct e; simpl; [|intros He; by apply Forall_app..].
  intros (body & last & -> & Hl & Hb). exists (pre ++ body), last. rewrite <- app_assoc.
  split; [done|]. split; [done|]. by apply Forall_app.
Qed.

Lemma tokens_not_final l : Forall (λ e, final_event e = false) (TokenEvent <$> l).
Proof. induction l; by constructor. Qed.

Lemma drained_not_final ch : Forall (λ e, final_event e = false) (drainTokens ch).1.
Proof. destruct ch as [c|]; [apply tokens_not_final|constructor]. Qed.

Lemma remaining_not_final ch rest : Forall (λ e, final_event e = false) (remaining_tokens ch rest).
Proof. destruct ch as [c|]; [apply tokens_not_final|constructor]. Qed.

Lemma emit_run_ends run seen ch rest start now :
  match emit_run run seen ch rest start now with
  | (evs, EmitEnd e) => ends_once evs e
  | (evs, EmitOn _) => Forall (λ e, final_event e = false) evs
  end.
Proof.
  unfold emit_run. pose proof (emitStepEvents_only (Steps (Status run)) seen) as H.
  destruct (emitStepEvents _ seen) as [evs seen']. simpl in H.
  assert (Hf : Forall (λ e, final_event e = false) evs) by (eapply Forall_impl; [exact H|]; by intros ? [? _]).
  destruct seen' as [seen'|]; [|done]. unfold emitRunTerminal.
  destruct (Phase (Status run)); try done.
  - apply ends_once_app; [done|]. eexists _, _. split; [reflexivity|]. split; [done|]. apply remaining_not_final.
  - apply ends_once_app; [done|]. by eexists [], _.
Qed.

Lemma select_round_ends timeout start txt next r seen ch :
  (∀ seen ch, let '(evs, e) := next seen ch in ends_once evs e) →
  let '(evs, e) := select_round timeout start txt next r seen ch in ends_once evs e.
Proof.
  intros Hn. unfold select_round. destruct (r_input r) as [|chunk|run| |].
  - by eexists [], _.
  - specialize (Hn seen ch). destruct ch; [|done].
    destruct (next _ _) as [evs e]. by apply (ends_once_app [_]); [repeat constructor|].
  - pose proof (emit_run_ends run seen ch (r_rest r) start (r_now r)) as H.
    destruct (emit_run _ _ _ _ _ _) as [evs [e|seen']]; [done|].
    specialize (Hn seen' ch). destruct (next _ _) as [more e]. by apply ends_once_app.
  - apply Hn.
  - by eexists [], _.
Qed.

Lemma sse_loop_ends timeout start txt rounds seen ch :
  let '(evs, e) := sse_loop timeout start txt rounds seen ch in ends_once evs e.
Proof.
  revert seen ch. induction rounds as [|r rounds IH]; intros seen ch; simpl; [constructor|].
  pose proof (drained_not_final (push ch (r_pushed r) (r_closes r))) as Hd.
  destruct (drainTokens _) as [drained ch']. simpl in Hd.
  pose proof (select_round_ends timeout start txt _ r seen ch' IH) as H.
  destruct (select_round _ _ _ _ _ _ _) as [evs e]. by apply ends_once_app.
Qed.

(** a stream that is over ends with one final event, the outcome of the run or an error, and
    sends no final event before; a stream that is not over has sent none. *)
Theorem sse_ends_once timeout start txt werr current now0 rest0 ch rounds :
  let '(evs, e) := sse_stream timeout start txt werr current now0 rest0 ch rounds in ends_once evs e.
Proof.
  unfold sse_stream. destruct werr; [by eexists [], _|].
  destruct current as [run|]; [|apply sse_loop_ends].
  pose proof (emit_run_ends run ∅ (Some ch) rest0 start now0) as H.
  destruct (emit_run _ _ _ _ _ _) as [evs [e|seen]]; [done|].
  pose proof (sse_loop_ends timeout start txt rounds seen (Some ch)) as Hl.
  destruct (sse_loop _ _ _ _ _ _) as [more e]. by apply ends_once_app.
Qed.

(** *** Tokens *)
Definition arrived (r : sse_round) : list string :=
  r_pushed r ++ match r_input r with InToken c => [c] | _ => [] end.
Definition tokens_of (evs : list sse_event) : list string := omap token_of evs.
Definition completed (evs : list sse_event) : Prop := ∃ o ms u, FlowCompleted o ms u ∈ evs.

Lemma tokens_of_app a b : tokens_of (a ++ b) = tokens_of a ++ tokens_of b.
Proof. apply omap_app. Qed.
Lemma tokens_of_tokens l : tokens_of (TokenEvent <$> l) = l.
Proof. induction l as [|c l IH]; [done|]. by change (c :: tokens_of (TokenEvent <$> l) = c :: l); rewrite IH. Qed.
Lemma tokens_of_steps evs : Forall step_only evs → tokens_of evs = [].
Proof.
  induction 1 as [|e evs [_ He] _ IH]; [done|]. unfold tokens_of in *.
  change (omap token_of (e :: evs)) with (match token_of e with Some c => c :: omap token_of evs | None => omap token_of evs end).
  by rewrite He.
Qed.
Lemma completed_app a b : completed (a ++ b) ↔ completed a ∨ completed b.
Proof. unfold completed. setoid_rewrite elem_of_app. naive_solver. Qed.
Lemma not_completed evs : Forall (λ e, final_event e = false) evs → ¬ completed evs.
Proof. intros H (o & ms & u & Hin). rewrite Forall_forall in H. by specialize (H _ Hin). Qed.

(** What a round sends when it ends the stream or goes on: the tokens of a run that succeeded. *)
Lemma emit_run_tokens run seen rest start now :
  let evs := (emit_run run seen (Some (mkTokenChannel [] false)) rest start now).1 in
  tokens_of evs = [] ∧ ¬ completed evs ∨
  tokens_of evs = rest ∧ ∃ e, (emit_run run seen (Some (mkTokenChannel [] false)) rest start now).2 = EmitEnd e.
Proof.
  unfold emit_run. pose proof (emitStepEvents_only (Steps (Status run)) seen) as H.
  destruct (emitStepEvents _ seen) as [evs seen']. simpl in H.
  assert (Hc : ¬ completed evs)
    by (apply not_completed; eapply Forall_impl; [exact H|]; by intros ? [? _]).
  pose proof (tokens_of_steps evs H) as Ht.
  destruct seen' as [seen'|]; simpl; [|by left]. unfold emitRunTerminal.
  destruct (Phase (Status run)); simpl; try (by left).
  - right. rewrite !tokens_of_app, Ht, tokens_of_tokens. simpl. rewrite app_nil_r. by split; [|eexists].
  - left. rewrite tokens_of_app, Ht, completed_app. split; [done|].
    intros [?|(? & ? & ? & Hin)]; [done|]. by apply list_elem_of_singleton in Hin.
Qed.

Lemma emit_run_over run seen ch rest start now : (emit_run run seen ch rest start now).2 ≠ EmitEnd SseOpen.
Proof.
  unfold emit_run. destruct (emitStepEvents _ _) as [evs [seen'|]]; [|done].
  by destruct (emitRunTerminal _ _ _ _ _).
Qed.

(** After some rounds (all of them, if the stream is open) the tokens sent are those that arrived;
    if the run succeeded they are followed by those that were still to come. *)
Definition in_order (rounds : list sse_round) (s : list sse_event * sse_end) : Prop :=
  ∃ n, (s.2 = SseOpen → n = length rounds) ∧
    (tokens_of s.1 = take n rounds ≫= arrived ∧ ¬ completed s.1 ∨
     ∃ r, rounds !! n = Some r ∧ tokens_of s.1 = (take (S n) rounds ≫= arrived) ++ r_rest r).

#[local] Notation open_channel := (Some (mkTokenChannel [] false)).

Lemma in_order_on r rounds pre evs e :
  tokens_of pre = arrived r → ¬ completed pre → in_order rounds (evs, e) →
  in_order (r :: rounds) (pre ++ evs, e).
Proof.
  intros Hp Hc (n & Ho & Hn). exists (S n). simpl in *. split; [intros; f_equal; auto|].
  rewrite tokens_of_app, Hp, completed_app.
  destruct Hn as [[-> ?]|(r0 & Hl & ->)]; [left; tauto|right; exists r0].
  by rewrite <- !app_assoc.
Qed.

Lemma in_order_end r rounds evs e :
  e ≠ SseOpen →
  tokens_of evs = arrived r ∧ ¬ completed evs ∨ tokens_of evs = arrived r ++ r_rest r →
  in_order (r :: rounds) (evs, e).
Proof.
  intros He [[Ht Hc]|Ht].
  - exists 1%nat. split; [done|]. left. simpl. by rewrite Ht, app_nil_r.
  - exists 0%nat. split; [done|]. right. exists r. simpl. by rewrite Ht, app_nil_r.
Qed.

Lemma in_order_select timeout start txt next r rounds seen :
  (∀ seen, in_order rounds (next seen open_channel)) →
  let '(evs, e) := select_round timeout start txt next r seen open_channel in
  in_order (r :: rounds) ((TokenEvent <$> r_pushed r) ++ evs, e).
Proof.
  intros Hn. unfold select_round.
  pose proof (tokens_of_tokens (r_pushed r)) as Hp.
  assert (Hd : ¬ completed (TokenEvent <$> r_pushed r)) by apply not_completed, tokens_not_final.
  assert (Hone : ∀ x, final_event x = false → ¬ completed [x])
    by (intros x Hx; apply not_completed; by repeat constructor).
  destruct (r_input r) as [|chunk|run| |] eqn:Ei;
    assert (Ha : arrived r = r_pushed r ++ match r_input r with InToken c => [c] | _ => [] end) by done;
    rewrite Ei in Ha; rewrite ?app_nil_r in Ha.
  - apply in_order_end; [done|]. left. rewrite tokens_of_app, Hp, Ha, completed_app, app_nil_r. split; [done|].
    intros [?|(? & ? & ? & Hin)]; [done|]. by apply list_elem_of_singleton in Hin.
  - specialize (Hn seen). destruct (next seen _) as [evs e].
    rewrite (assoc_L (++) _ [_] evs : _ ++ TokenEvent chunk :: evs = _). apply in_order_on; [|by rewrite completed_app; intros [?|?%Hone]|done].
    by rewrite tokens_of_app, Hp, Ha.
  - pose proof (emit_run_tokens run seen (r_rest r) start (r_now r)) as He.
    destruct (emit_run _ _ _ _ _ _) as [evs [e|seen']] eqn:E; simpl in He.
    + apply in_order_end.
      { intros ->. by apply (emit_run_over run seen open_channel (r_rest r) start (r_now r)); rewrite E. }
      rewrite tokens_of_app, completed_app, Hp, Ha.
      destruct He as [[-> ?]|[-> _]]; [left; rewrite app_nil_r; tauto|by right].
    + destruct He as [[Ht Hc]|[_ [? ?]]]; [|done].
      specialize (Hn seen'). destruct (next seen' _) as [more e]. rewrite (assoc_L (++)).
      apply in_order_on; [by rewrite tokens_of_app, Hp, Ha, Ht, app_nil_r|rewrite completed_app; tauto|done].
  - specialize (Hn seen). destruct (next seen _) as [evs e]. by apply in_order_on; [rewrite Hp| |].
  - apply in_order_end; [done|]. left. rewrite tokens_of_app, Hp, Ha, completed_app, app_nil_r. split; [done|].
    intros [?|(? & ? & ? & Hin)]; [done|]. by apply list_elem_of_singleton in Hin.
Qed.

(** C36: while the channel of tokens is open, a stream carries every token exactly once and in the
    order of arrival: what arrived in its rounds and, if it ends with the success of the run, all
    that was still to come, before the final event. *)
Theorem sse_tokens_in_order timeout start txt rounds seen :
  Forall (λ r, r_closes r = false) rounds →
  in_order rounds (sse_loop timeout start txt rounds seen open_channel).
Proof.
  intros Hc. revert seen. induction Hc as [|r rounds Hr _ IH]; intros seen; simpl.
  { exists 0%nat. split; [done|]. left. split; [done|]. by intros (? & ? & ? & ?%not_elem_of_nil). }
  rewrite Hr. simpl.
  pose proof (in_order_select timeout start txt _ r rounds seen IH) as H.
  by destruct (select_round _ _ _ _ _ _ _) as [evs e].
Qed.

(** *** Steps *)
Lemma emitStepEvents_seen steps seen evs seen' :
  NoDup (step_Name <$> steps) → emitStepEvents steps seen = (evs, Some seen') →
  (∀ s, s ∈ steps → default StepUnset (seen' !! step_Name s) = step_Phase s) ∧
  (∀ n, n ∉ step_Name <$> steps → seen' !! n = seen !! n).
Proof.
  revert seen evs. induction steps as [|step steps IH]; intros seen evs Hnd; simpl.
  { intros [= _ <-]. split; [|done]. by intros ? ?%not_elem_of_nil. }
  apply NoDup_cons in Hnd as [Hn Hnd]. case_bool_decide as Hp.
  - intros E. destruct (IH _ _ Hnd E) as [Hs Ho]. split.
    + intros s [->|Hin]%elem_of_cons; [by rewrite Ho|by apply Hs].
    + intros n [_ ?]%not_elem_of_cons. by apply Ho.
  - destruct (step_event step) as [e|]; [|done].
    destruct (emitStepEvents steps _) as [more seen''] eqn:E. intros [= _ ->].
    destruct (IH _ _ Hnd E) as [Hs Ho]. split.
    + intros s [->|Hin]%elem_of_cons; [by rewrite Ho, lookup_insert_eq|by apply Hs].
    + intros n [? ?]%not_elem_of_cons. by rewrite Ho, lookup_insert_ne.
Qed.

Lemma emitStepEvents_quiet steps seen :
  (∀ s, s ∈ steps → default StepUnset (seen !! step_Name s) = step_Phase s) →
  emitStepEvents steps seen = ([], Some seen).
Proof.
  induction steps as [|step steps IH]; intros H; [done|]. simpl.
  rewrite bool_decide_eq_true_2 by (apply H; by left). apply IH. intros s Hs. apply H. by right.
Qed.

(** a status that was reported is not reported again: the same steps, read a second time (the
    watch starts with the run that was read before it), give no events. *)
Theorem step_events_once steps seen evs seen' :
  NoDup (step_Name <$> steps) → emitStepEvents steps seen = (evs, Some seen') →
  emitStepEvents steps seen' = ([], Some seen').
Proof.
  intros Hnd E. apply emitStepEvents_quiet. by apply (emitStepEvents_seen steps seen evs seen').
Qed.

(** ** Concrete inputs *)
#[local] Existing Instances toy_time trigger_template.

#[local] Instance open_limits : RateApi := {|
  Limiter := unit; NewLimiter _ _ := tt; limiter_Allow _ l := (true, l) |}.

Definition hook_request (mode : string) : request :=
  mkRequest "10.0.0.1" "/triggers/ns/nightly/fire" "POST" "Bearer token" [] mode "".
Definition two_targets : SwarmEvent :=
  demo_event (mkSwarmEventSource TriggerSourceWebhook "" None)
    [team_target; mkSwarmEventTarget "" "agent" "go" ∅] ConcurrencyAllow.
Definition hook_forbidding : SwarmEvent :=
  demo_event (mkSwarmEventSource TriggerSourceWebhook "" None) [team_target] ConcurrencyForbid.

#[local] Notation demo_fire_request :=
  (fire_request any_order demo_team no_agent no_failure epoch_created (λ _, None) true).

(** The run that [fire] returns for a target. *)
Definition fired (trigger : SwarmEvent) (mode : string) : list RunResource :=
  match (demo_fire_request (hook_request mode) "ns" "nightly" trigger noon (λ _, noon) (Ok []) []).2 with
  | WaitSync runs | WaitSSE runs _ => runs
  | _ => []
  end.

Lemma sync_refuses_after_firing_witness :
  length (s_cluster (demo_fire_request (hook_request "sync") "ns" "nightly" two_targets noon (λ _, noon) (Ok []) []).1)
    = (0 + 2)%nat ∧
  handleSync second (fired two_targets "sync") None None [] false noon noon =
    Some (HttpError 400 "sync mode requires exactly one target team").
Proof.
  apply (sync_refuses_after_firing any_order demo_team no_agent no_failure epoch_created (λ _, None) true
    (hook_request "sync") "ns" "nightly" two_targets noon (λ _, noon) (Ok []) []);
    [reflexivity|simpl; lia|done|vm_compute; reflexivity].
Defined.

Lemma skipped_request_reports_fired_witness :
  demo_fire_request (hook_request "") "ns" "nightly" hook_forbidding noon (λ _, noon) (Ok [busy_run]) [busy_run] =
    (mkServerState [busy_run] (Some (record_fire hook_forbidding noon)),
     Replied (FiredReply (format_RFC3339 noon) "nightly" 0)).
Proof.
  apply (skipped_request_reports_fired any_order demo_team no_agent no_failure epoch_created (λ _, None) true);
    by vm_compute.
Defined.

Lemma webhook_url_routes_witness :
  ∃ path, webhook_url_of "http://host" two_targets = "http://host" +:+ path ∧
          route path = Some ("ns", "nightly").
Proof. apply (webhook_url_routes "http://host" two_targets); by vm_compute. Defined.

Definition token_round (pushed : list string) (input : sse_input) : sse_round :=
  mkSseRound pushed false input noon ["d"].
Definition succeeded_run : SwarmRun :=
  (object_Run busy_run) <| Status := mkSwarmRunStatus RunSucceeded [] "out" (Some 0) None None "" None 0 [] |>.

Lemma sse_tokens_in_order_witness :
  let rounds := [token_round ["a"] (InToken "b"); token_round ["c"] (InRun succeeded_run)] in
  let s := sse_loop second noon (λ _, "1s") rounds ∅ (Some (mkTokenChannel [] false)) in
  in_order rounds s ∧ tokens_of s.1 = ["a"; "b"; "c"; "d"].
Proof. split; [apply sse_tokens_in_order; by repeat constructor|reflexivity]. Defined.

Definition reported_steps : list PipelineStepStatus :=
  [new_step "a" StepRunning; new_step "b" StepPending].

Lemma step_events_once_witness :
  let seen : gmap string PipelineStepPhase := <["b" := StepPending]> {["a" := StepRunning]} in
  emitStepEvents reported_steps ∅ = ([StepStarted "a"], Some seen) ∧
  emitStepEvents reported_steps seen = ([], Some seen).
Proof.
  split; [by vm_compute|]. apply (step_events_once reported_steps ∅ [StepStarted "a"]); [|by vm_compute].
  repeat constructor; set_solver.
Defined.
