(* ===== verification/Api.v ===== *)
(** * Api: the API server as a reconciler sees it.

    A reconciliation is a sequence of calls to the API server.  The calls are numbered, and a
    fault decides for each of them whether it works, finds nothing (the object is missing, or the
    cache of the client lags behind) or fails.  A reconciler is a function of the state of the
    server, in a state monad; errors are values, because the code ignores or logs some of them. *)
From Stdlib Require Import ZArith Lia.
From stdpp Require Import base tactics option list strings gmap.
From S2P Require Import Prelude Types AgentTypes Kube.

Inductive fault := Works | Missing | Broken (e : string).

(** What the controllers of teams and agents write: the agents of a namespace by their names, the
    namespaces labelled for pod security and those the reconciler knows to be, the runs that were
    deleted, and the team whose status was stored last. *)
Record api := mkApi {
  agents : gmap string SwarmAgent;
  labelled : gset string;
  pssEnsured : gset string;
  deleted : list string;
  stored_team : option SwarmTeam;
  calls : nat }.

#[export] Instance eta_api : Settable api := λ s,
  mkApi (agents s) (labelled s) (pssEnsured s) (deleted s) (stored_team s) (calls s).

(** ** The monad *)
Definition stateful (S A : Type) : Type := S → A * S.
Definition answer_with {S A} (a : A) : stateful S A := λ s, (a, s).
Definition and_then {S A B} (m : stateful S A) (k : A → stateful S B) : stateful S B :=
  λ s, let '(a, s) := m s in k a s.

(** The rest runs if the call returns no error. *)
Definition if_ok {S E A B} (m : stateful S (result E A)) (k : A → stateful S (result E B))
    : stateful S (result E B) :=
  and_then m (λ r, match r with Ok a => k a | Err e => answer_with (Err e) end).

Definition api_call (A : Type) : Type := stateful api A.

Declare Scope api_scope.
Delimit Scope api_scope with api.
Notation "x <-- m ; k" := (and_then m (λ x, k%api))
  (at level 20, m at level 100, k at level 200, only parsing) : api_scope.
Notation "x <-! m ; k" := (if_ok m (λ x, k%api))
  (at level 20, m at level 100, k at level 200, only parsing) : api_scope.

(** ** Reasoning: what holds of the answer and the state after a computation *)
Definition runs {S A} (m : stateful S A) (s : S) (Q : A → S → Prop) : Prop := Q (m s).1 (m s).2.

Section runs.
Context {S : Type}.

Lemma runs_answer {A} (a : A) (s : S) (Q : A → S → Prop) : Q a s → runs (answer_with a) s Q.
Proof. done. Qed.

Lemma runs_then {A B} (m : stateful S A) (k : A → stateful S B) s Q :
  runs m s (λ a s', runs (k a) s' Q) → runs (and_then m k) s Q.
Proof. unfold runs, and_then. by destruct (m s). Qed.

Lemma runs_ok {E A B} (m : stateful S (result E A)) (k : A → stateful S (result E B)) s Q :
  runs m s (λ r s', match r with Ok a => runs (k a) s' Q | Err e => Q (Err e) s' end) →
  runs (if_ok m k) s Q.
Proof. unfold runs, if_ok, and_then. destruct (m s) as [[a|e] s']; done. Qed.

Lemma runs_weaken {A} (m : stateful S A) s (Q Q' : A → S → Prop) :
  runs m s Q → (∀ a s', Q a s' → Q' a s') → runs m s Q'.
Proof. unfold runs. auto. Qed.

Lemma runs_both {A} (m : stateful S A) s (Q Q' : A → S → Prop) :
  runs m s Q → runs m s Q' → runs m s (λ a s', Q a s' ∧ Q' a s').
Proof. done. Qed.
End runs.

(** ** Calls *)
Section calls.
Variable faults : nat → fault.

Definition numbered {A} (call : fault → api_call A) : api_call A :=
  λ s, call (faults (calls s)) (s <| calls ::= S |>).

Definition getAgent (name : string) : api_call (get_result SwarmAgent) := numbered (λ f s,
  (match f with
   | Works => match agents s !! name with Some a => Found a | None => NotFound end
   | Missing => NotFound
   | Broken e => GetFailed e
   end, s)).

Definition createAgent (agent : SwarmAgent) : api_call (result string ()) := numbered (λ f s,
  match f, agents s !! agent_Name agent with
  | Works, None => (Ok tt, s <| agents ::= <[agent_Name agent := agent]> |>)
  | Works, Some _ => (Err "already exists", s)
  | Missing, _ => (Err "not found", s)
  | Broken e, _ => (Err e, s)
  end).

(** A merge patch changes the stored object. *)
Definition patchAgent (name : string) (change : SwarmAgent → SwarmAgent) : api_call (result string ()) :=
  numbered (λ f s,
    match f, agents s !! name with
    | Works, Some a => (Ok tt, s <| agents ::= <[name := change a]> |>)
    | Works, None | Missing, _ => (Err "not found", s)
    | Broken e, _ => (Err e, s)
    end).

(** [client.IgnoreNotFound] of a delete. *)
Definition deleteRun (name : string) : api_call (result string ()) := numbered (λ f s,
  match f with
  | Works => (Ok tt, s <| deleted ::= λ l, l ++ [name] |>)
  | Missing => (Ok tt, s)
  | Broken e => (Err e, s)
  end).

Definition updateTeamStatus (team : SwarmTeam) : api_call (result string ()) := numbered (λ f s,
  match f with
  | Works => (Ok tt, s <| stored_team := Some team |>)
  | Missing => (Err "not found", s)
  | Broken e => (Err e, s)
  end).

(** Server-side apply of the pod security labels. *)
Definition applyLabels (namespace : string) : api_call (result string ()) := numbered (λ f s,
  match f with
  | Works => (Ok tt, s <| labelled ::= λ l, {[namespace]} ∪ l |>)
  | Missing => (Err "not found", s)
  | Broken e => (Err e, s)
  end).

(** A read of something a reconciler does not write. *)
Definition listed {A} (l : A) : api_call (result string A) := numbered (λ f s,
  (match f with Works => Ok l | Missing => Err "not found" | Broken e => Err e end, s)).
End calls.

(** ** What the calls on agents do *)
Section specs.
Variable faults : nat → fault.

Lemma getAgent_state name s : (getAgent faults name s).2 = s <| calls ::= S |>.
Proof. unfold getAgent, numbered. by destruct (faults (calls s)). Qed.

Lemma getAgent_found name s a : (getAgent faults name s).1 = Found a → agents s !! name = Some a.
Proof.
  unfold getAgent, numbered. destruct (faults (calls s)); simpl; try done.
  destruct (agents s !! name); [by intros [= ->]|done].
Qed.

(** A read: what it found is in the store, which it does not change. *)
Lemma getAgent_spec name s :
  let '(r, s') := getAgent faults name s in
  agents s' = agents s ∧ deleted s' = deleted s ∧
  ∀ a, r = Found a → agents s !! name = Some a.
Proof.
  pose proof (getAgent_state name s) as Hs. pose proof (λ a, getAgent_found name s a) as Hf.
  destruct (getAgent faults name s) as [r s']. simpl in *. by subst s'.
Qed.

Lemma patchAgent_spec name change s :
  let '(r, s') := patchAgent faults name change s in
  deleted s' = deleted s ∧
  match r with
  | Ok _ => ∃ a, agents s !! name = Some a ∧ agents s' = <[name := change a]> (agents s)
  | Err _ => agents s' = agents s
  end.
Proof.
  unfold patchAgent, numbered. destruct (faults (calls s)); simpl; try done.
  destruct (agents s !! name) as [a|]; simpl; [|done]. eauto.
Qed.

Lemma createAgent_spec agent s :
  let '(r, s') := createAgent faults agent s in
  match r with
  | Ok _ => agents s !! agent_Name agent = None ∧ agents s' = <[agent_Name agent := agent]> (agents s)
  | Err _ => agents s' = agents s
  end.
Proof.
  unfold createAgent, numbered. destruct (faults (calls s)); simpl; try done.
  by destruct (agents s !! agent_Name agent) eqn:E; simpl.
Qed.

Lemma getAgent_missing name s :
  (∀ n, faults n ≠ Missing) → (getAgent faults name s).1 = NotFound → agents s !! name = None.
Proof.
  intros Hf. unfold getAgent, numbered. specialize (Hf (calls s)).
  destruct (faults (calls s)); simpl; try done. by destruct (agents s !! name).
Qed.

Lemma getAgent_works name s :
  (∀ n, faults n = Works) →
  getAgent faults name s =
    (match agents s !! name with Some a => Found a | None => NotFound end, s <| calls ::= S |>).
Proof. intros Hf. unfold getAgent, numbered. by rewrite Hf. Qed.

End specs.

(** ** Calls that leave the runs and the stored team alone *)
(** What the runs and the stored status are untouched by. *)
Definition quiet (s s' : api) : Prop := deleted s' = deleted s ∧ stored_team s' = stored_team s.

Definition quiet_call {A} (m : api_call A) : Prop := ∀ s, quiet s (m s).2.

Lemma quiet_refl s : quiet s s.
Proof. done. Qed.
Lemma quiet_answer {A} (a : A) : quiet_call (answer_with a).
Proof. intros s. done. Qed.
Lemma quiet_then {A B} (m : api_call A) (k : A → api_call B) :
  quiet_call m → (∀ a, quiet_call (k a)) → quiet_call (and_then m k).
Proof.
  intros Hm Hk s. unfold and_then. specialize (Hm s). destruct (m s) as [a s1]. specialize (Hk a s1).
  unfold quiet in *. simpl in *. destruct Hm as [-> ->] || destruct Hm as [E1 E2]. destruct Hk. split; congruence.
Qed.
Lemma quiet_if_ok {E A B} (m : api_call (result E A)) (k : A → api_call (result E B)) :
  quiet_call m → (∀ a, quiet_call (k a)) → quiet_call (if_ok m k).
Proof. intros Hm Hk. apply quiet_then; [done|]. intros [a|e]; [apply Hk|apply quiet_answer]. Qed.

Lemma quiet_get faults name : quiet_call (getAgent faults name).
Proof. intros s. unfold getAgent, numbered. by destruct (faults (calls s)). Qed.
Lemma quiet_create faults a : quiet_call (createAgent faults a).
Proof. intros s. unfold createAgent, numbered. destruct (faults (calls s)); simpl; try done. by case_match. Qed.
Lemma quiet_patch faults name f : quiet_call (patchAgent faults name f).
Proof. intros s. unfold patchAgent, numbered. destruct (faults (calls s)); simpl; try done. by case_match. Qed.
Lemma quiet_listed faults {A} (l : A) : quiet_call (listed faults l).
Proof. intros s. unfold listed, numbered. by destruct (faults (calls s)). Qed.
Lemma quiet_labels faults ns : quiet_call (applyLabels faults ns).
Proof. intros s. unfold applyLabels, numbered. by destruct (faults (calls s)). Qed.

Create HintDb quiet discriminated.
#[export] Hint Resolve quiet_answer quiet_then quiet_if_ok quiet_get quiet_create quiet_patch quiet_listed
  quiet_labels : quiet.

(** Follow the structure of a call. *)
Ltac quietly :=
  repeat first
    [ progress intros
    | solve [auto with quiet nocore]
    | apply quiet_if_ok
    | apply quiet_then
    | match goal with |- quiet_call (match ?x with _ => _ end) => destruct x end ].
