(* ===== verification/Team.v ===== *)
(** * Team: the reconciler of teams (internal/controller/swarmteam_controller.go).

    Topology, the agents of the roles and the annotations that wire them, the retention of runs,
    the scaling of inline roles, and the status.  Events of the recorder and log lines are left
    out, and so are owner references, which cannot fail on a new object of the same namespace. *)
From Stdlib Require Import ZArith Lia.
From stdpp Require Import base tactics option list strings gmap.
From S2P Require Import Prelude GoStd Types AgentTypes Kube Dag Webhooks Event Api.

Definition defaultSuccessfulRunsLimit : Z := 10.
Definition defaultFailedRunsLimit : Z := 3.

Definition LabelRole := "kubeswarm/role".
Definition AnnotationTeamRoutes := "kubeswarm/team-routes".
Definition AnnotationTeamRole := "kubeswarm/team-role".
Definition AnnotationTeamArtifactStore := "kubeswarm/team-artifact-store-url".
Definition AnnotationTeamArtifactClaim := "kubeswarm/team-artifact-claim".
Definition AnnotationTeamArtifactCredentials := "kubeswarm/team-artifact-credentials".

#[export] Instance eta_AgentRuntime : Settable AgentRuntime := λ r,
  mkAgentRuntime (Replicas r) (runtime_Autoscaling r) (runtime_Resources r) (runtime_Loop r)
    (runtime_Artifacts r) (ImagePullSecrets r) (DrainTimeoutSeconds r).
#[export] Instance eta_SwarmAgentSpec : Settable SwarmAgentSpec := λ s,
  mkSwarmAgentSpec (agent_Model s) (Capabilities s) (Guardrails s) (Observability s)
    (Infrastructure s) (aspec_Prompt s) (aspec_Settings s) (aspec_Runtime s) (aspec_Tools s)
    (aspec_Agents s) (aspec_Gateway s) (aspec_Reasoning s).

Definition dag_message (e : dag_error) : string :=
  match e with
  | UnknownDependency step dep => "step " +:+ Quote step +:+ " depends on unknown step " +:+ Quote dep
  | CycleDetected name dep => "cycle detected: " +:+ Quote name +:+ " -> " +:+ Quote dep +:+ " forms a cycle"
  end.

Definition ValidateTeamDAG (team : SwarmTeam) := validatePipelineDAG (team_Pipeline (team_Spec team)).

(** ** The topology of a dynamic team *)
Fixpoint duplicate_role (roles : list SwarmTeamRole) (roleSet : gset string) : option string :=
  match roles with
  | [] => None
  | role :: roles =>
      if bool_decide (role_Name role ∈ roleSet) then Some (role_Name role)
      else duplicate_role roles ({[role_Name role]} ∪ roleSet)
  end.

Definition role_set (roles : list SwarmTeamRole) : gset string := list_to_set (role_Name <$> roles).

(** The first target of a list that is not a role. *)
Definition undeclared (roleSet : gset string) (targets : list string) : option string :=
  List.find (λ t, negb (bool_decide (t ∈ roleSet))) targets.

Fixpoint undeclared_target (roleSet : gset string) (roles : list SwarmTeamRole) : option (string * string) :=
  match roles with
  | [] => None
  | role :: roles =>
      match undeclared roleSet (role_CanDelegate role) with
      | Some target => Some (role_Name role, target)
      | None => undeclared_target roleSet roles
      end
  end.

Definition delegation_graph (roles : list SwarmTeamRole) : gmap string (list string) :=
  foldl (λ adj role, <[role_Name role := role_CanDelegate role]> adj) ∅ roles.

Definition entry_error (spec : SwarmTeamSpec) (roleSet : gset string) : option string :=
  if negb (String.eqb (team_Entry spec) "") then
    if bool_decide (team_Entry spec ∈ roleSet) then None
    else Some ("spec.entry " +:+ Quote (team_Entry spec) +:+ " is not a declared role")
  else match team_Roles spec, team_Search spec with
       | _ :: _, None => Some "spec.entry is required in dynamic mode"
       | _, _ => None
       end.

(** [key_order] is an order in which a range visits the keys of the graph. *)
Definition validateTopology (key_order : gmap string (list string) → list string) (team : SwarmTeam)
    : result string () :=
  let spec := team_Spec team in
  match duplicate_role (team_Roles spec) ∅ with
  | Some name => Err ("duplicate role name " +:+ Quote name)
  | None =>
      let roleSet := role_set (team_Roles spec) in
      match entry_error spec roleSet with
      | Some e => Err e
      | None =>
          match undeclared_target roleSet (team_Roles spec) with
          | Some (name, target) => Err ("role " +:+ Quote name +:+ " canDelegate to " +:+ Quote target +:+
                                        " which is not a declared role")
          | None =>
              let adjacency := delegation_graph (team_Roles spec) in
              match DetectCycle adjacency (key_order adjacency) with
              | Some (Ok _) => Ok tt
              | _ => Err "delegation graph contains a cycle"
              end
          end
      end
  end.

(** ** Artifact stores *)

(** [url.URL] with a scheme, a host, a path and a query, as a string. *)
Class FormatUrl := format_url : string → string → string → gmap string string → string.

Definition artifactStoreURL {formatUrl : FormatUrl} (store : option ArtifactStoreSpec) : string :=
  match store with
  | None => ""
  | Some spec =>
      match store_Type spec with
      | ArtifactStoreLocal =>
          let path := match store_Local spec with
                      | Some l => if String.eqb (local_Path l) "" then "/artifacts" else local_Path l
                      | None => "/artifacts"
                      end in
          "file://" +:+ path
      | ArtifactStoreS3 =>
          match store_S3 spec with
          | None => ""
          | Some s3 =>
              if String.eqb (Bucket s3) "" then ""
              else
                let q : gmap string string := if String.eqb (Region s3) "" then ∅ else {["region" := Region s3]} in
                let q := if String.eqb (Endpoint s3) "" then q else <["endpoint" := Endpoint s3]> q in
                format_url "s3" (Bucket s3) ("/" +:+ Prefix s3) q
          end
      | ArtifactStoreOther => ""
      end
  end.

Definition artifactStoreClaim (store : option ArtifactStoreSpec) : string :=
  match store with
  | Some spec =>
      match store_Type spec, store_Local spec with
      | ArtifactStoreLocal, Some l => ClaimName l
      | _, _ => ""
      end
  | None => ""
  end.

Definition artifactStoreCredentials (store : option ArtifactStoreSpec) : string :=
  match store with
  | Some spec =>
      match store_Type spec, store_S3 spec with
      | ArtifactStoreS3, Some s3 => default "" (CredentialsSecret s3)
      | _, _ => ""
      end
  | None => ""
  end.

(** ** Status *)
Section status.
Context {conditionApi : ConditionApi}.

Definition set_team_condition (team : SwarmTeam) (status : ConditionStatus) (reason msg : string) : SwarmTeam :=
  team <| team_Status ::= λ s, s <| team_Conditions ::= λ l,
    setCondition l (team_Generation team) "" status reason msg |> |>.

Definition inline_bytes (roles : list SwarmTeamRole) : Z :=
  foldl (λ total role, match role_Prompt role with
                       | Some p => wrap64 (total + str_len (prompt_Inline p))
                       | None => total
                       end) 0 roles.

Definition setPromptSizeWarning (team : SwarmTeam) : SwarmTeam :=
  let totalBytes := inline_bytes (team_Roles (team_Spec team)) in
  team <| team_Status ::= λ s, s <| team_Conditions ::= λ l,
    if PromptWarnBytes <? totalBytes then
      setCondition l (team_Generation team) "SystemPromptSizeWarning" ConditionTrue "InlinePromptTooLarge"
        ("total inline prompt size is " +:+ itoa (Z.quot totalBytes 1024) +:+ " KB (> 50 KB). " +:+
         "Move prompts to ConfigMaps and reference them via spec.roles[*].prompt.from.configMapKeyRef " +:+
         "to avoid etcd object size limits.")
    else RemoveStatusCondition l "SystemPromptSizeWarning" |> |>.
End status.

(** The phase of a team after that of a run. *)
Definition mirrored_phase (p : SwarmRunPhase) : SwarmTeamPhase :=
  match p with
  | RunRunning => TeamRunning
  | RunSucceeded => TeamSucceeded
  | RunFailed => TeamFailed
  | _ => TeamReady
  end.

Definition mirrorRunPhaseToTeam (team : SwarmTeam) (latestRun : option RunResource) : SwarmTeam :=
  team <| team_Status ::= λ s,
    match latestRun with
    | None => s <| team_Phase := TeamReady |>
    | Some o =>
        s <| LastRunName := object_Name o |> <| LastRunPhase := Phase (Status (object_Run o)) |>
          <| team_Phase := mirrored_phase (Phase (Status (object_Run o))) |>
    end |>.

(** ** Retention *)
Definition completed_at (o : RunResource) : Z := default (object_Created o) (CompletionTime (Status (object_Run o))).

Definition newest_first (a b : RunResource) : bool := completed_at b <? completed_at a.

Definition sortRunsNewestFirst {sorts : SliceSort RunResource} (runs : list RunResource) : list RunResource :=
  sort_slice newest_first runs.

(** Past the age limit. *)
Definition expired (spec : SwarmTeamSpec) (now : Z) (o : RunResource) : bool :=
  match RunRetainFor spec with
  | Some d => (0 <? d) && (d <? time_Sub now (completed_at o))
  | None => false
  end.

Definition has_phase (p : SwarmRunPhase) (o : RunResource) : bool :=
  bool_decide (Phase (Status (object_Run o)) = p).

(** What exceeds a limit, which is not negative. *)
Definition beyond (limit : Z) (l : list RunResource) : list RunResource :=
  if limit <? wrap32 (Z.of_nat (length l)) then drop (Z.to_nat limit) l else [].

Definition over {A} (f : A → bool) (l : list A) : list A := filter (λ x, f x = true) l.

Definition runs_to_delete {sorts : SliceSort RunResource} (spec : SwarmTeamSpec) (now : Z) (runs : list RunResource)
    : list RunResource :=
  let done := over (λ o, has_phase RunSucceeded o || has_phase RunFailed o) runs in
  let recent := over (λ o, negb (expired spec now o)) done in
  over (expired spec now) done ++
  beyond (default defaultSuccessfulRunsLimit (SuccessfulRunsHistoryLimit spec))
    (sortRunsNewestFirst (over (has_phase RunSucceeded) recent)) ++
  beyond (default defaultFailedRunsLimit (FailedRunsHistoryLimit spec))
    (sortRunsNewestFirst (over (has_phase RunFailed) recent)).

(** ** Scaling *)
Definition active_phase (p : PipelineStepPhase) : bool :=
  match p with StepRunning | StepWarmingUp | StepValidating => true | _ => false end.

Definition count_step (counts : gmap string Z) (step : PipelineStepStatus) : gmap string Z :=
  if active_phase (step_Phase step) then <[step_Name step := wrap64 (default 0 (counts !! step_Name step) + 1)]> counts
  else counts.

Definition countActiveStepsByRole (runs : list RunResource) : gmap string Z :=
  foldl (λ counts o, foldl count_step counts (Steps (Status (object_Run o)))) ∅ runs.

Definition active_steps (activeByRole : gmap string Z) (role : SwarmTeamRole) : Z :=
  wrap32 (default 0 (activeByRole !! role_Name role)).

Definition configured_replicas (role : SwarmTeamRole) : Z :=
  match role_Runtime role with Some rt => default 1 (Replicas rt) | None => 1 end.

Definition max_concurrent (role : SwarmTeamRole) : Z :=
  match role_Limits role with
  | Some l => if 0 <? ConcurrentTasks l then wrap32 (ConcurrentTasks l) else 5
  | None => 5
  end.

(** The switch of [computeRoleDesired]; division by zero cannot happen for a limit in int32. *)
Definition desired_replicas (role : SwarmTeamRole) (activeByRole : gmap string Z) (scaleToZero : bool)
    (afterSeconds idleFor : Z) : Z :=
  let activeSteps := active_steps activeByRole role in
  if 0 <? activeSteps
  then Z.min (Z.quot (wrap32 (activeSteps + max_concurrent role - 1)) (max_concurrent role)) (configured_replicas role)
  else if scaleToZero && (duration_seconds afterSeconds <=? idleFor) then 0
  else configured_replicas role.

(** ** The reconciler *)
Open Scope api_scope.

Section reconcile.
Context {conditionApi : ConditionApi} {urlApi : UrlApi} {formatUrl : FormatUrl} {jsonApi : JsonApi}
  {sorts : SliceSort RunResource}.
Variable faults : nat → fault.
(** The queues of the operator and of the pods. *)
Variables TaskQueueURL AgentTaskQueueURL : string.
Variable key_order : gmap string (list string) → list string.

#[local] Notation getAgent := (getAgent faults).
#[local] Notation createAgent := (createAgent faults).
#[local] Notation patchAgent := (patchAgent faults).
#[local] Notation deleteRun := (deleteRun faults).
#[local] Notation updateTeamStatus := (updateTeamStatus faults).
#[local] Notation applyLabels := (applyLabels faults).
#[local] Notation listed := (listed faults).

Definition ensureNamespacePSS (namespace : string) : api_call (result string ()) := λ s,
  if bool_decide (namespace ∈ pssEnsured s) then (Ok tt, s)
  else (_ <-! applyLabels namespace;
        λ s, (Ok tt, s <| pssEnsured ::= λ l, {[namespace]} ∪ l |>)) s.

Definition roleQueueURL (team : SwarmTeam) (role : string) : string :=
  let base := if String.eqb AgentTaskQueueURL "" then TaskQueueURL else AgentTaskQueueURL in
  if String.eqb base "" then ""
  else appendStreamParam base (team_Namespace team +:+ "." +:+ team_Name team +:+ "." +:+ role).

(** *** The agents of the roles *)
Definition agent_name (team : SwarmTeam) (role : SwarmTeamRole) : string :=
  team_Name team +:+ "-" +:+ role_Name role.

Definition role_guardrails (team : SwarmTeam) (role : SwarmTeamRole) : option AgentGuardrails :=
  match role_Limits role, team_BudgetRef (team_Spec team) with
  | None, None => None
  | limits, budget => Some (mkAgentGuardrails None budget limits)
  end.

Definition role_replicas (role : SwarmTeamRole) : option Z := rt ← role_Runtime role; Replicas rt.

Definition role_runtime (role : SwarmTeamRole) : AgentRuntime :=
  match role_Runtime role with
  | Some rt => match Replicas rt with
               | None => rt <| Replicas := role_replicas role |>
               | Some _ => rt
               end
  | None => mkAgentRuntime (role_replicas role) None None None None [] None
  end.

Definition role_infrastructure (team : SwarmTeam) (role : SwarmTeamRole) : option AgentInfrastructure :=
  let registry := team_RegistryRef (team_Spec team) in
  let ref := if String.eqb registry "" then None else Some registry in
  match role_EnvFrom role, role_Plugins role, ref with
  | [], None, None => None
  | env, plugins, ref => Some (mkAgentInfrastructure ref env plugins NetworkPolicyModeUnset None)
  end.

Definition role_observability (team : SwarmTeam) : option AgentObservability :=
  match team_NotifyRef (team_Spec team) with
  | None => None
  | Some n => Some (mkAgentObservability None None (Some (mkAgentHealthCheck HealthCheckSemantic "" (Some n))) None)
  end.

Definition role_spec (team : SwarmTeam) (role : SwarmTeamRole) : SwarmAgentSpec :=
  mkSwarmAgentSpec (role_Model role) [] (role_guardrails team role) (role_observability team)
    (role_infrastructure team role) (role_Prompt role) (role_Settings role) (role_runtime role)
    (role_Tools role) [] None None.

Definition role_agent (team : SwarmTeam) (role : SwarmTeamRole) : SwarmAgent :=
  mkSwarmAgent (agent_name team role) (team_Namespace team) 1
    (<[LabelTeam := team_Name team]> {[LabelRole := role_Name role]}) ∅ (role_spec team role)
    (ready_status 0).

Definition autoscaled (team : SwarmTeam) : bool :=
  match team_Autoscaling (team_Spec team) with Some a => autoscaling_Enabled a | None => false end.

(** The spec that an existing agent of the role gets: the autoscaler owns the replicas. *)
Definition updated_spec (team : SwarmTeam) (role : SwarmTeamRole) (existing : SwarmAgentSpec) : SwarmAgentSpec :=
  if autoscaled team
  then (role_spec team role) <| aspec_Runtime ::= λ rt, rt <| Replicas := Replicas (aspec_Runtime existing) |> |>
  else role_spec team role.

Definition reconcileRoleAgent (team : SwarmTeam) (role : SwarmTeamRole) : api_call (result string string) :=
  if negb (String.eqb (role_SwarmAgent role) "") then answer_with (Ok (role_SwarmAgent role))
  else if negb (String.eqb (role_SwarmTeam role) "") then answer_with (Ok (role_SwarmTeam role +:+ "-entry"))
  else
    let name := agent_name team role in
    existing <-- getAgent name;
    match existing with
    | NotFound => _ <-! createAgent (role_agent team role); answer_with (Ok name)
    | GetFailed e => answer_with (Err e)
    | Found existing =>
        let newSpec := updated_spec team role (agent_Spec existing) in
        if bool_decide (agent_Spec existing = newSpec) then answer_with (Ok name)
        else _ <-! patchAgent name (λ a, a <| agent_Spec := newSpec |>); answer_with (Ok name)
    end.

(** *** The annotations of the agents *)
Definition roleQueueURLs (team : SwarmTeam) : gmap string string :=
  foldl (λ m role, <[role_Name role := roleQueueURL team (role_Name role)]> m) ∅ (team_Roles (team_Spec team)).

Definition role_routes (team : SwarmTeam) (role : SwarmTeamRole) : gmap string string :=
  foldl (λ m target, <[target := default "" (roleQueueURLs team !! target)]> m) ∅ (role_CanDelegate role).

(** A JSON object with its keys in order. *)
Definition routes_json (routes : gmap string string) : result string string :=
  json_Marshal (AMap ((λ k, (k, AString (default "" (routes !! k)))) <$> sort_strings (elements (dom routes)))).

(** What is always set, and what is only set when it is not empty. *)
Definition wiring (team : SwarmTeam) (role : SwarmTeamRole) (routesJSON : string) : list (string * string) :=
  [(AnnotationTeamQueueURL, default "" (roleQueueURLs team !! role_Name role));
   (AnnotationTeamRoutes, routesJSON);
   (AnnotationTeamRole, role_Name role)].

Definition storage (team : SwarmTeam) : list (string * string) :=
  let store := team_ArtifactStore (team_Spec team) in
  [(AnnotationTeamArtifactStore, artifactStoreURL store);
   (AnnotationTeamArtifactClaim, artifactStoreClaim store);
   (AnnotationTeamArtifactCredentials, artifactStoreCredentials store)].

Definition annotation (ann : gmap string string) (key : string) : string := default "" (ann !! key).

Definition annotated (wanted : list (string * string)) (ann : gmap string string) : bool :=
  negb (bool_decide (ann = ∅)) && forallb (λ kv, String.eqb (annotation ann kv.1) kv.2) wanted.

Definition set_annotation (ann : gmap string string) (kv : string * string) : gmap string string :=
  <[kv.1 := kv.2]> ann.

Definition annotate (team : SwarmTeam) (role : SwarmTeamRole) (routesJSON : string) (ann : gmap string string)
    : gmap string string :=
  foldl set_annotation (foldl set_annotation ann (wiring team role routesJSON))
    (filter (λ kv, kv.2 ≠ "") (storage team)).

Definition role_status (role : SwarmTeamRole) (agentName : string) (agent : SwarmAgent) : SwarmTeamRoleStatus :=
  mkSwarmTeamRoleStatus (role_Name role) (ReadyReplicas (agent_Status agent))
    (default 1 (Replicas (aspec_Runtime (agent_Spec agent))))
    (if String.eqb (role_SwarmAgent role) "" then agentName else "").

(** One turn of the loop over the roles. *)
Definition reconcile_role (team : SwarmTeam) (role : SwarmTeamRole) : api_call (result string SwarmTeamRoleStatus) :=
  agentName <-! reconcileRoleAgent team role;
  agent <-- getAgent agentName;
  match agent with
  | NotFound => answer_with (Ok (mkSwarmTeamRoleStatus (role_Name role) 0 0 agentName))
  | GetFailed e => answer_with (Err ("fetching SwarmAgent " +:+ Quote agentName +:+ " for role " +:+
                                     Quote (role_Name role) +:+ ": " +:+ e))
  | Found agent =>
      match routes_json (role_routes team role) with
      | Err e => answer_with (Err ("marshalling routes for role " +:+ Quote (role_Name role) +:+ ": " +:+ e))
      | Ok routesJSON =>
          let status := role_status role agentName agent in
          if annotated (wiring team role routesJSON ++ storage team) (agent_Annotations agent)
          then answer_with (Ok status)
          else
            patched <-- patchAgent agentName (λ a, a <| agent_Annotations ::= annotate team role routesJSON |>);
            match patched with
            | Err e => answer_with (Err ("patching SwarmAgent " +:+ Quote agentName +:+ ": " +:+ e))
            | Ok _ => answer_with (Ok status)
            end
      end
  end.

Fixpoint reconcile_each (team : SwarmTeam) (roles : list SwarmTeamRole)
    : api_call (result string (list SwarmTeamRoleStatus)) :=
  match roles with
  | [] => answer_with (Ok [])
  | role :: roles =>
      status <-! reconcile_role team role;
      statuses <-! reconcile_each team roles;
      answer_with (Ok (status :: statuses))
  end.

(** The statuses and the entry role. *)
Definition reconcileRoles (team : SwarmTeam) : api_call (result string (list SwarmTeamRoleStatus * string)) :=
  statuses <-! reconcile_each team (team_Roles (team_Spec team));
  answer_with (Ok (statuses, team_Entry (team_Spec team))).

(** *** Retention and scaling *)
Fixpoint delete_runs (names : list string) : api_call (result string ()) :=
  match names with
  | [] => answer_with (Ok tt)
  | name :: names =>
      r <-- deleteRun name;
      match r with
      | Err e => answer_with (Err ("deleting SwarmRun " +:+ Quote name +:+ ": " +:+ e))
      | Ok _ => delete_runs names
      end
  end.

Definition pruneRuns (team : SwarmTeam) (now : Z) (runs : list RunResource) : api_call (result string ()) :=
  delete_runs (object_Name <$> runs_to_delete (team_Spec team) now runs).

(** [None] for a role that is not scaled here: its agent is missing or scales itself. *)
Definition computeRoleDesired (team : SwarmTeam) (role : SwarmTeamRole) (activeByRole : gmap string Z)
    (scaleToZero : bool) (afterSeconds idleFor : Z) : api_call (result string (option Z)) :=
  agent <-- getAgent (agent_name team role);
  match agent with
  | NotFound => answer_with (Ok None)
  | GetFailed e => answer_with (Err ("fetching SwarmAgent " +:+ Quote (agent_name team role) +:+
                                     " for autoscaling: " +:+ e))
  | Found agent =>
      match runtime_Autoscaling (aspec_Runtime (agent_Spec agent)) with
      | Some _ => answer_with (Ok None)
      | None => answer_with (Ok (Some (desired_replicas role activeByRole scaleToZero afterSeconds idleFor)))
      end
  end.

Definition set_replicas (desired : Z) (a : SwarmAgent) : SwarmAgent :=
  a <| agent_Spec ::= λ s, s <| aspec_Runtime ::= λ rt, rt <| Replicas := Some desired |> |> |>.

Definition set_desired (desired : Z) (a : SwarmAgent) : SwarmAgent :=
  a <| agent_Status ::= λ s, s <| agent_DesiredReplicas := Some desired |> |>.

(** The errors of the status patch are logged. *)
Definition patch_desired (name : string) (desired : Z) (agent : SwarmAgent) : api_call (result string ()) :=
  if bool_decide (agent_DesiredReplicas (agent_Status agent) = Some desired) then answer_with (Ok tt)
  else _ <-- patchAgent name (set_desired desired); answer_with (Ok tt).

Definition applyRoleScale (team : SwarmTeam) (role : SwarmTeamRole) (desired : Z) : api_call (result string ()) :=
  let name := agent_name team role in
  agent <-- getAgent name;
  match agent with
  | NotFound => answer_with (Ok tt)
  | GetFailed e => answer_with (Err e)
  | Found agent =>
      if default 1 (Replicas (aspec_Runtime (agent_Spec agent))) =? desired
      then patch_desired name desired agent
      else
        patched <-- patchAgent name (set_replicas desired);
        match patched with
        | Err e => answer_with (Err ("autoscaling SwarmAgent " +:+ Quote name +:+ " to " +:+ itoa desired +:+
                                     " replicas: " +:+ e))
        | Ok _ =>
            if bool_decide (agent_DesiredReplicas (agent_Status agent) = Some desired) then answer_with (Ok tt)
            else
              fresh <-- getAgent name;
              match fresh with
              | Found fresh => _ <-- patchAgent name (set_desired desired); answer_with (Ok tt)
              | _ => answer_with (Ok tt)
              end
        end
  end.

(** The loop over the roles; whether all of them are at zero. *)
Fixpoint scale_each (team : SwarmTeam) (roles : list SwarmTeamRole) (activeByRole : gmap string Z)
    (scaleToZero : bool) (afterSeconds idleFor : Z) (allZero : bool) : api_call (result string bool) :=
  match roles with
  | [] => answer_with (Ok allZero)
  | role :: roles =>
      let continue := scale_each team roles activeByRole scaleToZero afterSeconds idleFor in
      if negb (String.eqb (role_SwarmAgent role) "") || negb (String.eqb (role_SwarmTeam role) "")
      then continue false
      else
        desired <-! computeRoleDesired team role activeByRole scaleToZero afterSeconds idleFor;
        match desired with
        | None => continue false
        | Some desired =>
            _ <-! applyRoleScale team role desired;
            continue (allZero && negb (0 <? desired))
        end
  end.

Definition scale_to_zero (spec : SwarmTeamSpec) : bool :=
  match team_Autoscaling spec with
  | Some a => match ScaleToZero a with Some z => scaleToZero_Enabled z | None => false end
  | None => false
  end.

Definition after_seconds (spec : SwarmTeamSpec) : Z :=
  match team_Autoscaling spec with
  | Some a => match ScaleToZero a with
              | Some z => if scaleToZero_Enabled z then default 300 (AfterSeconds z) else 300
              | None => 300
              end
  | None => 300
  end.

Definition idle_for (team : SwarmTeam) (now : Z) : Z :=
  match LastActiveTime (team_Status team) with Some t => time_Sub now t | None => 0 end.

(** The team with its new status, and the delay after which to come back. *)
Definition reconcileAutoscaling (team : SwarmTeam) (now : Z) (runs : list RunResource)
    : api_call (SwarmTeam * result string (option Z)) :=
  if negb (autoscaled team) then answer_with (team, Ok None)
  else
    let activeByRole := countActiveStepsByRole runs in
    let idle := bool_decide (activeByRole = ∅) in
    let team := if idle then team else team <| team_Status ::= λ s, s <| LastActiveTime := Some now |> |> in
    let scaleToZero := scale_to_zero (team_Spec team) in
    let afterSeconds := after_seconds (team_Spec team) in
    let idleFor := idle_for team now in
    allZero <-- scale_each team (team_Roles (team_Spec team)) activeByRole scaleToZero afterSeconds idleFor true;
    match allZero with
    | Err e => answer_with (team, Err e)
    | Ok allZero =>
        let zero := scaleToZero && allZero in
        let team := team <| team_Status ::= λ s, s <| ScaledToZero := zero |> |> in
        let remaining := wrap64 (duration_seconds afterSeconds - idleFor) in
        answer_with (team,
          Ok (if scaleToZero && idle && negb zero && (0 <? remaining)
              then Some (wrap64 (remaining + second)) else None))
    end.

(** *** The three modes *)

(** The result of a reconciliation: the delay after which it is called again, or an error. *)
Definition team_result := result string (option Z).

(** A status update whose error is ignored, before the given result. *)
Definition store_and (team : SwarmTeam) (r : team_result) : api_call team_result :=
  _ <-- updateTeamStatus team; answer_with r.

Definition observed (team : SwarmTeam) (roles : list SwarmTeamRoleStatus) : SwarmTeam :=
  team <| team_Status ::= λ s, s <| team_RoleStatuses := roles |>
    <| team_ObservedGeneration := team_Generation team |> |>.

Definition targets_team (team : SwarmTeam) (e : SwarmEvent) : bool :=
  existsb (λ t, String.eqb (target_Team t) (team_Name team)) (Targets (event_Spec e)).

(** The field index answers with the events that target the team; without it, all are read. *)
Definition isTriggerTemplate (team : SwarmTeam) (events : list SwarmEvent) : api_call (result string bool) :=
  indexed <-- listed (over (targets_team team) events);
  match indexed with
  | Ok l => answer_with (Ok (negb (bool_decide (l = []))))
  | Err _ => all <-! listed events; answer_with (Ok (existsb (targets_team team) all))
  end.

(** What remains once the team is known not to be a template. *)
Definition reconcile_dynamic (team : SwarmTeam) : api_call team_result :=
  match validateTopology key_order team with
  | Err e => store_and (set_team_condition team ConditionFalse "InvalidTopology" e) (Ok None)
  | Ok _ =>
      r <-- reconcileRoles team;
      match r with
      | Err e => store_and (set_team_condition team ConditionFalse "ReconcileError" e) (Err e)
      | Ok (statuses, entry) =>
          let team := observed (team <| team_Status ::= λ s, s <| team_Phase := TeamReady |> <| EntryRole := entry |> |>)
                        statuses in
          let team := set_team_condition (setPromptSizeWarning team) ConditionTrue "Reconciled"
            ("team " +:+ Quote (team_Name team) +:+ " ready with " +:+
             itoa (Z.of_nat (length (team_Roles (team_Spec team)))) +:+ " roles") in
          _ <-! updateTeamStatus team; answer_with (Ok None)
      end
  end.

Definition reconcileDynamicMode (team : SwarmTeam) (events : list SwarmEvent) : api_call team_result :=
  if bool_decide (team_Phase (team_Status team) = TeamUnset) then
    isTemplate <-! isTriggerTemplate team events;
    if isTemplate then answer_with (Ok None) else reconcile_dynamic team
  else reconcile_dynamic team.

(** The runs of the team, as the API server lists them. *)
Definition team_runs (team : SwarmTeam) (runs : list RunResource) : list RunResource :=
  over (has_label LabelTeam (team_Name team)) runs.

(** What remains once the pipeline is known to be a DAG. *)
Definition reconcile_pipeline (team : SwarmTeam) (now : Z) (runs : list RunResource) : api_call team_result :=
  r <-- reconcileRoles team;
  match r with
  | Err e => store_and (set_team_condition team ConditionFalse "RolesNotReady" e) (Err e)
  | Ok (statuses, _) =>
      let team := setPromptSizeWarning team in
      runs <-! listed (team_runs team runs);
      _ <-- pruneRuns team now runs;
      scaled <-- reconcileAutoscaling team now runs;
      let '(team, requeue) := scaled in
      let team := mirrorRunPhaseToTeam (observed team statuses) (latestRunFromList runs) in
      let team := set_team_condition team ConditionTrue "Reconciled"
        ("pipeline team " +:+ Quote (team_Name team) +:+ " ready with " +:+
         itoa (Z.of_nat (length (team_Roles (team_Spec team)))) +:+ " roles") in
      _ <-! updateTeamStatus team;
      answer_with (Ok (match requeue with Ok d => d | Err _ => None end))
  end.

Definition reconcilePipelineInfra (team : SwarmTeam) (now : Z) (runs : list RunResource) : api_call team_result :=
  match ValidateTeamDAG team (key_order (pipeline_adj (team_Pipeline (team_Spec team)))) with
  | Some (Err e) => store_and (set_team_condition team ConditionFalse "InvalidDAG" (dag_message e)) (Ok None)
  | _ => reconcile_pipeline team now runs
  end.

Definition reconcileRoutedInfra (team : SwarmTeam) (now : Z) (runs : list RunResource) : api_call team_result :=
  runs <-! listed (team_runs team runs);
  _ <-- pruneRuns team now runs;
  let team := mirrorRunPhaseToTeam (observed team []) (latestRunFromList runs) in
  let team := set_team_condition team ConditionTrue "Reconciled"
    ("routed team " +:+ Quote (team_Name team) +:+ " ready") in
  _ <-! updateTeamStatus team; answer_with (Ok None).

(** [runs] and [events] are those of the namespace. *)
Definition Reconcile (get : get_result SwarmTeam) (now : Z) (runs : list RunResource) (events : list SwarmEvent)
    : api_call team_result :=
  match get with
  | NotFound => answer_with (Ok None)
  | GetFailed e => answer_with (Err e)
  | Found team =>
      if team_Deleting team then answer_with (Ok None)
      else
        _ <-- ensureNamespacePSS (team_Namespace team);
        match team_Routing (team_Spec team), team_Pipeline (team_Spec team) with
        | Some _, _ => reconcileRoutedInfra team now runs
        | None, _ :: _ => reconcilePipelineInfra team now runs
        | None, [] => reconcileDynamicMode team events
        end
  end.
End reconcile.

(** ** The watches *)

(** The team that a change of a run wakes. *)
Definition run_to_team (o : RunResource) : list (string * string) :=
  match object_Labels o !! LabelTeam with
  | Some name => if String.eqb name "" then [] else [(run_Namespace (object_Run o), name)]
  | None => []
  end.

(** The teams that a change of a trigger wakes. *)
Definition event_to_teams (e : SwarmEvent) : list (string * string) :=
  (λ t, (event_Namespace e, target_Team t)) <$> Targets (event_Spec e).
