(* ===== verification/TeamProps.v ===== *)
(** * TeamProps: what the reconciler of teams guarantees.

    The topologies it accepts and the delegation they allow; which runs it deletes; and how it
    scales the roles. *)
From Stdlib Require Import ZArith Lia.
From stdpp Require Import base tactics option list strings gmap sorting.
From S2P Require Import Prelude GoStd Types Costs AgentTypes Kube Dag Registry Routing Dispatch.
From S2P Require Import Event Api Team.

(** ** Topologies *)
Lemma duplicate_role_spec roles roleSet :
  duplicate_role roles roleSet = None ↔
  NoDup (role_Name <$> roles) ∧ ∀ role, role ∈ roles → role_Name role ∉ roleSet.
Proof.
  revert roleSet. induction roles as [|role roles IH]; intros roleSet; simpl.
  { split; [|done]. intros _. split; [constructor|]. by intros ? ?%not_elem_of_nil. }
  case_bool_decide as Hin.
  - split; [done|]. intros [_ H]. by destruct (H role); [left|].
  - rewrite IH, NoDup_cons. setoid_rewrite elem_of_cons. split.
    + intros [Hnd Hr]. split; [split; [|done]|].
      * intros (r & Hn & Hr')%list_elem_of_fmap. apply (Hr r Hr'). set_solver.
      * intros r [->|Hr']; [done|]. specialize (Hr r Hr'). set_solver.
    + intros [[Hn Hnd] Hr]. split; [done|]. intros r Hr' [Heq%elem_of_singleton|?]%elem_of_union.
      * apply Hn. rewrite <- Heq. by apply list_elem_of_fmap_2.
      * by destruct (Hr r (or_intror Hr')).
Qed.

Lemma undeclared_spec roleSet targets :
  undeclared roleSet targets = None ↔ ∀ t, t ∈ targets → t ∈ roleSet.
Proof.
  unfold undeclared. split.
  - intros H t Ht. apply list_elem_of_In in Ht. pose proof (List.find_none _ _ H t Ht) as Hb.
    apply negb_false_iff in Hb. by apply bool_decide_eq_true in Hb.
  - intros H. destruct (List.find _ _) as [t|] eqn:E; [|done].
    apply List.find_some in E as [Ht Hb]. apply list_elem_of_In, H in Ht.
    apply negb_true_iff, bool_decide_eq_false in Hb. done.
Qed.

Lemma undeclared_target_spec roleSet roles :
  undeclared_target roleSet roles = None ↔
  ∀ role t, role ∈ roles → t ∈ role_CanDelegate role → t ∈ roleSet.
Proof.
  induction roles as [|role roles IH]; simpl.
  { split; [|done]. intros _ ? ? ?%not_elem_of_nil. done. }
  pose proof (undeclared_spec roleSet (role_CanDelegate role)) as Hu.
  destruct (undeclared roleSet (role_CanDelegate role)) as [t|].
  - split; [done|]. intros H. assert (Some t = None) by (apply Hu; intros ? ?; eapply H; [by left|done]). done.
  - rewrite IH. split; [|intros H r t Hr; apply H; by right].
    intros H r t [->|Hr]%elem_of_cons; [by apply Hu|by apply H].
Qed.

Lemma delegation_graph_spec (roles : list SwarmTeamRole) (adj : gmap string (list string)) :
  NoDup (role_Name <$> roles) →
  (∀ role, role ∈ roles → foldl (λ adj role, <[role_Name role := role_CanDelegate role]> adj) adj roles
                            !! role_Name role = Some (role_CanDelegate role)) ∧
  (∀ n, n ∉ role_Name <$> roles → foldl (λ adj role, <[role_Name role := role_CanDelegate role]> adj) adj roles
                            !! n = adj !! n).
Proof.
  revert adj. induction roles as [|role roles IH]; intros adj; simpl.
  { intros _. split; [|done]. by intros ? ?%not_elem_of_nil. }
  intros [Hn Hnd]%NoDup_cons. destruct (IH (<[role_Name role:=role_CanDelegate role]> adj) Hnd) as [Hr Ho]. split.
  - intros r [->|Hin]%elem_of_cons; [by rewrite Ho, lookup_insert_eq|by apply Hr].
  - intros n [? ?]%not_elem_of_cons. by rewrite Ho, lookup_insert_ne.
Qed.

(** A role may call another. *)
Definition delegates (team : SwarmTeam) (a b : string) : Prop :=
  ∃ role, role ∈ team_Roles (team_Spec team) ∧ role_Name role = a ∧ b ∈ role_CanDelegate role.

Lemma delegates_edge team a b :
  NoDup (role_Name <$> team_Roles (team_Spec team)) →
  edge (delegation_graph (team_Roles (team_Spec team))) a b ↔ delegates team a b.
Proof.
  intros Hnd. destruct (delegation_graph_spec _ ∅ Hnd) as [Hr Ho].
  unfold edge, deps_of, delegates, delegation_graph. split.
  - intros H. destruct (decide (a ∈ role_Name <$> team_Roles (team_Spec team))) as [Hin|Hn].
    + apply list_elem_of_fmap in Hin as (role & -> & Hin). rewrite (Hr _ Hin) in H. eauto.
    + rewrite (Ho _ Hn), lookup_empty in H. by apply not_elem_of_nil in H.
  - intros (role & Hin & <- & Hb). by rewrite (Hr _ Hin).
Qed.

(** What a dynamic team has to satisfy. *)
Definition well_formed (team : SwarmTeam) : Prop :=
  let spec := team_Spec team in
  NoDup (role_Name <$> team_Roles spec) ∧
  (team_Entry spec ∈ role_Name <$> team_Roles spec ∨
   team_Entry spec = "" ∧ (team_Roles spec = [] ∨ team_Search spec ≠ None)) ∧
  (∀ a b, delegates team a b → b ∈ role_Name <$> team_Roles spec) ∧
  ∀ a, ¬ tc (delegates team) a a.

Lemma entry_error_spec spec :
  (∀ role, role ∈ team_Roles spec → role_Name role ≠ "") →
  entry_error spec (role_set (team_Roles spec)) = None ↔
  team_Entry spec ∈ role_Name <$> team_Roles spec ∨
  team_Entry spec = "" ∧ (team_Roles spec = [] ∨ team_Search spec ≠ None).
Proof.
  intros Hne. unfold entry_error, role_set. destruct (String.eqb_spec (team_Entry spec) "") as [->|Hn]; simpl.
  - assert (¬ "" ∈ role_Name <$> team_Roles spec).
    { intros (r & Hr & Hin)%list_elem_of_fmap. by destruct (Hne r Hin). }
    destruct (team_Roles spec) as [|r l], (team_Search spec); split; try done.
    all: try (intros _; right; split; [done|by (left + right)]).
    by intros [?|[_ [?|?]]].
  - case_bool_decide as Hd; rewrite elem_of_list_to_set in Hd; (split; [intros E; try done; by left|]).
    + done.
    + by intros [?|[? _]].
Qed.

Lemma tc_proper {A} (R S : A → A → Prop) : (∀ a b, R a b ↔ S a b) → ∀ a b, tc R a b ↔ tc S a b.
Proof.
  intros H a b. split; (induction 1 as [x y Hxy|x y z Hxy _ IH];
    [by apply tc_once, H|by apply tc_l with y; [apply H|]]).
Qed.

Lemma validateTopology_verdict order team :
  (∀ adj, range_order adj (order adj)) →
  (∀ role, role ∈ team_Roles (team_Spec team) → role_Name role ≠ "") →
  validateTopology order team = Ok tt ↔ well_formed team.
Proof.
  intros Ho Hne. unfold validateTopology, well_formed.
  pose proof (duplicate_role_spec (team_Roles (team_Spec team)) ∅) as Hd.
  destruct (duplicate_role _ ∅) as [n|].
  { split; [done|]. intros [Hnd _]. assert (Some n = None); [|done]. apply Hd. split; [done|set_solver]. }
  assert (Hnd : NoDup (role_Name <$> team_Roles (team_Spec team))) by by apply Hd.
  pose proof (entry_error_spec (team_Spec team) Hne) as He. destruct (entry_error _ _) as [e|].
  { split; [done|]. intros (_ & H & _). by apply He in H. }
  pose proof (undeclared_target_spec (role_set (team_Roles (team_Spec team))) (team_Roles (team_Spec team))) as Hu.
  assert (Hu' : (∀ role t, role ∈ team_Roles (team_Spec team) → t ∈ role_CanDelegate role →
      t ∈ role_set (team_Roles (team_Spec team))) ↔
    ∀ a b, delegates team a b → b ∈ role_Name <$> team_Roles (team_Spec team)).
  { unfold role_set. setoid_rewrite elem_of_list_to_set. unfold delegates. naive_solver. }
  rewrite Hu' in Hu. destruct (undeclared_target _ _) as [[r t]|].
  { split; [done|]. intros (_ & _ & H & _). by apply Hu in H. }
  pose proof (tc_proper _ _ (λ a b, delegates_edge team a b Hnd)) as Htc.
  destruct (DetectCycle_cases _ _ (Ho (delegation_graph (team_Roles (team_Spec team))))) as [[-> G]|(e & -> & R)].
  - split; [intros _|done]. split; [done|]. split; [by apply He|]. split; [by apply Hu|].
    intros a H. apply Htc in H. by apply (grounded_no_cycle _ _ (G a)).
  - split; [done|]. intros (_ & _ & _ & H). destruct (real_cycle_not_acyclic _ _ R). intros n Hn. by apply (H n), Htc.
Qed.

(** a dynamic team is accepted exactly when its roles have different names, its entry is one of
    them (or is not needed), every target of a delegation is a role, and no role can reach itself
    by delegations. *)
Theorem validateTopology_correct order team :
  (∀ adj, range_order adj (order adj)) →
  (∀ role, role ∈ team_Roles (team_Spec team) → role_Name role ≠ "") →
  validateTopology order team = Ok tt ↔ well_formed team.
Proof. apply validateTopology_verdict. Qed.

(** A chain of delegations. *)
Fixpoint delegation_chain (team : SwarmTeam) (a : string) (chain : list string) : Prop :=
  match chain with
  | [] => True
  | b :: chain => delegates team a b ∧ delegation_chain team b chain
  end.

Lemma chain_reaches team a chain b :
  delegation_chain team a chain → b ∈ chain → tc (delegates team) a b.
Proof.
  revert a. induction chain as [|c chain IH]; intros a; [by intros _ ?%not_elem_of_nil|].
  intros [Hac Hc] [->|Hb]%elem_of_cons; [by apply tc_once|]. eapply tc_l; [done|by apply IH].
Qed.

Lemma chain_NoDup team a chain :
  (∀ x, ¬ tc (delegates team) x x) → delegation_chain team a chain → NoDup (a :: chain).
Proof.
  intros Hac. revert a. induction chain as [|b chain IH]; intros a H; [repeat constructor; set_solver|].
  constructor; [|by apply IH, H]. intros Ha. by apply (Hac a), (chain_reaches _ _ _ _ H).
Qed.

Lemma chain_roles team a chain :
  (∀ x y, delegates team x y → y ∈ role_Name <$> team_Roles (team_Spec team)) →
  delegation_chain team a chain → Forall (λ b, b ∈ role_Name <$> team_Roles (team_Spec team)) chain.
Proof.
  intros Hd. revert a. induction chain as [|b chain IH]; intros a; [constructor|].
  intros [Hab Hc]. constructor; [by eapply Hd|by eapply IH].
Qed.

(** C38: in a team that was accepted, work is delegated only along chains of different roles: a
    chain that starts at a role has fewer steps than the team has roles, so delegation ends. *)
Theorem delegation_chains_bounded order team a chain :
  (∀ adj, range_order adj (order adj)) →
  (∀ role, role ∈ team_Roles (team_Spec team) → role_Name role ≠ "") →
  validateTopology order team = Ok tt →
  a ∈ role_Name <$> team_Roles (team_Spec team) → delegation_chain team a chain →
  NoDup (a :: chain) ∧ (length chain < length (team_Roles (team_Spec team)))%nat.
Proof.
  intros Ho Hne Hv Ha Hc. apply (validateTopology_verdict _ _ Ho Hne) in Hv as (_ & _ & Hd & Hac).
  pose proof (chain_NoDup _ _ _ Hac Hc) as Hnd. split; [done|].
  pose proof (chain_roles _ _ _ Hd Hc) as Hr. rewrite Forall_forall in Hr.
  assert (Hsub : a :: chain ⊆+ role_Name <$> team_Roles (team_Spec team)).
  { apply NoDup_submseteq; [done|]. intros x [->|Hx]%elem_of_cons; [done|by apply Hr]. }
  apply submseteq_length in Hsub. rewrite length_fmap in Hsub. simpl in Hsub. lia.
Qed.

(** ** Retention *)
Lemma elem_of_over {A} (f : A → bool) l x : x ∈ over f l ↔ f x = true ∧ x ∈ l.
Proof. unfold over. by rewrite list_elem_of_filter. Qed.

Lemma over_over {A} (f g : A → bool) l : over f (over g l) = over (λ x, f x && g x) l.
Proof.
  unfold over. induction l as [|x l IH]; [done|].
  rewrite !filter_cons. destruct (f x) eqn:Ef, (g x) eqn:Eg; simpl;
    rewrite ?filter_cons, ?Ef; simpl; by rewrite IH.
Qed.

Lemma over_length {A} (f : A → bool) l : (length (over f l) ≤ length l)%nat.
Proof. apply length_filter. Qed.

Lemma over_ext {A} (f g : A → bool) l : (∀ x, f x = g x) → over f l = over g l.
Proof. intros H. apply list_filter_iff. intros x. by rewrite H. Qed.

(** When a run finished; when it was created if it does not say. *)
Definition finish_time (o : RunResource) : Z :=
  match CompletionTime (Status (object_Run o)) with Some t => t | None => object_Created o end.

(** Finished longer ago than the team keeps runs. *)
Definition past_age (spec : SwarmTeamSpec) (now : Z) (o : RunResource) : Prop :=
  match RunRetainFor spec with Some d => 0 < d < time_Sub now (finish_time o) | None => False end.
#[export] Instance past_age_dec spec now o : Decision (past_age spec now o).
Proof. unfold past_age. destruct (RunRetainFor spec); apply _. Defined.

Notation in_phase o p := (Phase (Status (object_Run o)) = p).

(** The finished runs of a phase within the age limit, split into those that stay and those that
    go: the newest stay, as many as the limit allows. *)
Definition retained (spec : SwarmTeamSpec) (now : Z) (runs : list RunResource) (p : SwarmRunPhase) (limit : Z)
    (kept gone : list RunResource) : Prop :=
  let l := filter (λ o, in_phase o p ∧ ¬ past_age spec now o) runs in
  kept ++ gone ≡ₚ l ∧ length kept = (Z.to_nat limit `min` length l)%nat ∧
  ∀ k g, k ∈ kept → g ∈ gone → finish_time g ≤ finish_time k.

Definition outdated (spec : SwarmTeamSpec) (now : Z) (runs : list RunResource) : list RunResource :=
  filter (λ o, past_age spec now o ∧ (in_phase o RunSucceeded ∨ in_phase o RunFailed)) runs.

Lemma expired_past spec now o : expired spec now o = true ↔ past_age spec now o.
Proof.
  unfold expired, past_age. destruct (RunRetainFor spec) as [d|]; [|done].
  by rewrite andb_true_iff, !Z.ltb_lt.
Qed.
Lemma over_outdated spec now runs :
  over (λ o, expired spec now o && (has_phase RunSucceeded o || has_phase RunFailed o)) runs = outdated spec now runs.
Proof.
  apply list_filter_iff. intros o. unfold has_phase.
  by rewrite andb_true_iff, expired_past, orb_true_iff, !bool_decide_eq_true.
Qed.
Lemma over_recent spec now runs p :
  over (λ o, has_phase p o && negb (expired spec now o)) runs = filter (λ o, in_phase o p ∧ ¬ past_age spec now o) runs.
Proof.
  apply list_filter_iff. intros o. unfold has_phase.
  by rewrite andb_true_iff, negb_true_iff, <- not_true_iff_false, expired_past, bool_decide_eq_true.
Qed.

Section retention.
Context {sorts : SliceSort RunResource} {sortLaws : SliceSortLaws newest_first sorts}.

Lemma retained_split n l k g :
  k ∈ take n (sortRunsNewestFirst l) → g ∈ drop n (sortRunsNewestFirst l) → completed_at g ≤ completed_at k.
Proof.
  intros Hk Hg. pose proof (sort_slice_sorted (SliceSortLaws := sortLaws) l) as H.
  apply Sorted_StronglySorted in H.
  2: { intros a b c. unfold newest_first. rewrite !Z.ltb_ge. lia. }
  fold (sortRunsNewestFirst l) in H. rewrite <- (take_drop n (sortRunsNewestFirst l)) in H.
  apply StronglySorted_app in H as (H & _ & _). specialize (H k g Hk Hg).
  unfold newest_first in H. apply Z.ltb_ge in H. lia.
Qed.

Lemma beyond_drop limit l :
  0 ≤ limit → Z.of_nat (length l) < 2 ^ 31 → beyond limit l = drop (Z.to_nat limit) l.
Proof.
  intros Hl Hn. unfold beyond. rewrite wrap_id by fits.
  destruct (Z.ltb_spec limit (Z.of_nat (length l))); [done|]. by rewrite drop_ge by lia.
Qed.

Lemma retained_beyond spec now runs p limit :
  0 ≤ limit → Z.of_nat (length runs) < 2 ^ 31 →
  let l := over (λ o, has_phase p o && negb (expired spec now o)) runs in
  retained spec now runs p limit (take (Z.to_nat limit) (sortRunsNewestFirst l))
    (beyond limit (sortRunsNewestFirst l)).
Proof.
  intros Hl Hn l.
  unfold retained. rewrite <- over_recent. fold l.
  assert (Hp : sortRunsNewestFirst l ≡ₚ l) by apply (sort_slice_perm (SliceSortLaws := sortLaws)).
  pose proof (Permutation_length Hp) as Hlen.
  pose proof (over_length (λ o, has_phase p o && negb (expired spec now o)) runs) as Hle. fold l in Hle.
  rewrite beyond_drop by lia. split; [by rewrite take_drop|].
  split; [rewrite length_take; fold l; lia|]. intros k g. apply retained_split.
Qed.

Lemma runs_to_delete_split spec now runs :
  let limit_s := default defaultSuccessfulRunsLimit (SuccessfulRunsHistoryLimit spec) in
  let limit_f := default defaultFailedRunsLimit (FailedRunsHistoryLimit spec) in
  0 ≤ limit_s → 0 ≤ limit_f → Z.of_nat (length runs) < 2 ^ 31 →
  ∃ kept_s gone_s kept_f gone_f,
    retained spec now runs RunSucceeded limit_s kept_s gone_s ∧
    retained spec now runs RunFailed limit_f kept_f gone_f ∧
    runs_to_delete spec now runs = outdated spec now runs ++ gone_s ++ gone_f.
Proof.
  intros ls lf Hs Hf Hn.
  pose proof (retained_beyond spec now runs RunSucceeded ls Hs Hn) as Rs.
  pose proof (retained_beyond spec now runs RunFailed lf Hf Hn) as Rf.
  eexists _, _, _, _. split; [exact Rs|]. split; [exact Rf|].
  rewrite <- over_outdated. unfold runs_to_delete. fold ls lf. rewrite !over_over.
  assert (Hp : ∀ p, p = RunSucceeded ∨ p = RunFailed →
    over (λ o, has_phase p o && negb (expired spec now o) && (has_phase RunSucceeded o || has_phase RunFailed o)) runs
    = over (λ o, has_phase p o && negb (expired spec now o)) runs).
  { intros p [->| ->]; apply over_ext; intros o; unfold has_phase; destruct (Phase _); simpl;
      by destruct (expired spec now o). }
  by rewrite !Hp by auto.
Qed.
End retention.

(** *** The calls that delete *)
Section prune.
Variable faults : nat → fault.

Lemma delete_runs_spec names s :
  let '(r, s') := delete_runs faults names s in
  ∃ gone, sublist gone names ∧ deleted s' = deleted s ++ gone ∧ agents s' = agents s ∧
    stored_team s' = stored_team s ∧ ((∀ n, faults n = Works) → r = Ok tt ∧ gone = names).
Proof.
  revert s. induction names as [|name names IH]; intros s; simpl.
  { exists []. by rewrite app_nil_r. }
  unfold and_then, deleteRun, numbered. destruct (faults (calls s)) as [| |e] eqn:F; simpl.
  - specialize (IH (s <| calls ::= S |> <| deleted ::= λ l, l ++ [name] |>)).
    destruct (delete_runs faults names _) as [r s']. destruct IH as (gone & Hs & Hd & Ha & Ht & Hw).
    exists (name :: gone). simpl in Hd. rewrite Hd, <- app_assoc. split; [by constructor|].
    split; [done|]. split; [done|]. split; [done|]. intros H. destruct (Hw H) as [-> ->]. done.
  - specialize (IH (s <| calls ::= S |>)).
    destruct (delete_runs faults names _) as [r s']. destruct IH as (gone & Hs & Hd & Ha & Ht & Hw).
    exists gone. split; [by constructor|]. split; [done|]. split; [done|]. split; [done|].
    intros H. by rewrite H in F.
  - exists []. rewrite app_nil_r. split; [apply sublist_nil_l|]. split; [done|]. split; [done|]. split; [done|].
    intros H. by rewrite H in F.
Qed.

(** C37: whatever the API server answers, pruning deletes only finished runs, and of those only the
    ones past the age limit of the team and, of each phase, those that are not among the newest ones
    that the limit for that phase keeps, ten succeeded and three failed ones by default; it
    deletes some of them, in that order, and if no call fails all of them.  The limits are not negative, which the schema of the team sees to, and there are fewer than
    2^31 runs. *)
Theorem pruneRuns_spec {sorts : SliceSort RunResource} {sortLaws : SliceSortLaws newest_first sorts}
    team now runs s :
  let spec := team_Spec team in
  let limit_s := default 10 (SuccessfulRunsHistoryLimit spec) in
  let limit_f := default 3 (FailedRunsHistoryLimit spec) in
  0 ≤ limit_s → 0 ≤ limit_f → Z.of_nat (length runs) < 2 ^ 31 →
  let '(r, s') := pruneRuns faults team now runs s in
  ∃ kept_s gone_s kept_f gone_f gone,
    retained spec now runs RunSucceeded limit_s kept_s gone_s ∧
    retained spec now runs RunFailed limit_f kept_f gone_f ∧
    let all := outdated spec now runs ++ gone_s ++ gone_f in
    sublist gone (object_Name <$> all) ∧ deleted s' = deleted s ++ gone ∧
    ((∀ n, faults n = Works) → r = Ok tt ∧ gone = object_Name <$> all).
Proof.
  intros spec ls lf Hs Hf Hn. unfold pruneRuns. fold spec.
  destruct (runs_to_delete_split spec now runs Hs Hf Hn) as (ks & gs & kf & gf & Rs & Rf & ->).
  pose proof (delete_runs_spec (object_Name <$> outdated spec now runs ++ gs ++ gf) s) as H.
  destruct (delete_runs _ _ _) as [r s']. destruct H as (gone & Hsub & Hd & _ & _ & Hw).
  by exists ks, gs, kf, gf, gone.
Qed.
End prune.

(** ** Scaling *)

(** The active steps of a role in a list of runs. *)
Definition active_named (role : string) (steps : list PipelineStepStatus) : list PipelineStepStatus :=
  over (λ st, active_phase (step_Phase st) && String.eqb (step_Name st) role) steps.

Definition all_steps (runs : list RunResource) : list PipelineStepStatus :=
  runs ≫= λ o, Steps (Status (object_Run o)).

Lemma count_steps_lookup role steps (counts : gmap string Z) :
  0 ≤ default 0 (counts !! role) → Z.of_nat (length steps) + default 0 (counts !! role) < 2 ^ 63 →
  default 0 (foldl count_step counts steps !! role) =
    default 0 (counts !! role) + Z.of_nat (length (active_named role steps)).
Proof.
  unfold active_named, over.
  revert counts. induction steps as [|st steps IH]; intros counts H0 Hb; cbn [length foldl] in *; [simpl; lia|].
  unfold count_step at 2. rewrite filter_cons. destruct (active_phase (step_Phase st)); simpl; [|apply IH; lia].
  destruct (String.eqb_spec (step_Name st) role) as [->|Hn]; simpl.
  - assert (Hw : wrap64 (default 0 (counts !! role) + 1) = default 0 (counts !! role) + 1)
      by (apply wrap_id; fits).
    rewrite IH; rewrite !lookup_insert_eq; cbn [from_option id]; rewrite ?Hw; cbn [length]; lia.
  - rewrite IH; rewrite !lookup_insert_ne by done; lia.
Qed.

Lemma countActive_steps runs (counts : gmap string Z) :
  foldl (λ counts o, foldl count_step counts (Steps (Status (object_Run o)))) counts runs =
  foldl count_step counts (all_steps runs).
Proof.
  revert counts. induction runs as [|o runs IH]; intros counts; [done|].
  unfold all_steps. simpl. by rewrite foldl_app, IH.
Qed.

Lemma count_active_named runs role :
  Z.of_nat (length (all_steps runs)) < 2 ^ 63 →
  default 0 (countActiveStepsByRole runs !! role) = Z.of_nat (length (active_named role (all_steps runs))).
Proof.
  intros H. unfold countActiveStepsByRole. rewrite countActive_steps.
  by rewrite count_steps_lookup by (rewrite lookup_empty; simpl; lia).
Qed.

Lemma count_steps_empty steps (counts : gmap string Z) :
  foldl count_step counts steps = ∅ ↔ counts = ∅ ∧ ∀ st, st ∈ steps → active_phase (step_Phase st) = false.
Proof.
  revert counts. induction steps as [|st steps IH]; intros counts; simpl.
  { split; [|by intros [? _]]. intros ->. split; [done|]. by intros ? ?%not_elem_of_nil. }
  rewrite IH. unfold count_step. destruct (active_phase (step_Phase st)) eqn:E.
  - split; [intros [H _]; by destruct (insert_non_empty counts (step_Name st) (wrap64 (default 0 (counts !! step_Name st) + 1)))|].
    intros [_ H]. specialize (H st ltac:(by left)). congruence.
  - split; intros [-> H]; (split; [done|]); intros st' Hin; [|apply H; by right].
    apply elem_of_cons in Hin as [->|Hin]; [done|by apply H].
Qed.

Lemma idle_iff runs :
  countActiveStepsByRole runs = ∅ ↔ ∀ st, st ∈ all_steps runs → active_phase (step_Phase st) = false.
Proof. unfold countActiveStepsByRole. rewrite countActive_steps, count_steps_empty. tauto. Qed.

Lemma max_concurrent_pos role :
  (∀ l, role_Limits role = Some l → ConcurrentTasks l < 2 ^ 31) → 0 < max_concurrent role < 2 ^ 31.
Proof.
  intros H. unfold max_concurrent. destruct (role_Limits role) as [l|]; [|lia].
  specialize (H l eq_refl). destruct (Z.ltb_spec 0 (ConcurrentTasks l)); [|lia].
  rewrite wrap_id by fits. lia.
Qed.

Lemma ceil_div a m : 0 < a → 0 < m → let q := Z.quot (a + m - 1) m in a ≤ q * m ∧ (q - 1) * m < a ∧ 1 ≤ q.
Proof.
  intros Ha Hm q. unfold q. rewrite Z.quot_div_nonneg by lia.
  pose proof (Z.div_mod (a + m - 1) m ltac:(lia)). pose proof (Z.mod_pos_bound (a + m - 1) m Hm).
  set (d := (a + m - 1) / m) in *. nia.
Qed.

(** The replicas that [active] steps need. *)
Definition enough (role : SwarmTeamRole) (active n : Z) : Prop :=
  active ≤ n * max_concurrent role ∧ (n - 1) * max_concurrent role < active.

Lemma desired_replicas_verdict role activeByRole scaleToZero afterSeconds idleFor :
  let active := default 0 (activeByRole !! role_Name role) in
  let desired := desired_replicas role activeByRole scaleToZero afterSeconds idleFor in
  0 ≤ active → (∀ l, role_Limits role = Some l → ConcurrentTasks l < 2 ^ 31) →
  active + max_concurrent role < 2 ^ 31 →
  (0 < active → ∃ n, enough role active n ∧ 1 ≤ n ∧ desired = Z.min n (configured_replicas role)) ∧
  (active = 0 → desired = if scaleToZero && (duration_seconds afterSeconds <=? idleFor) then 0
                          else configured_replicas role).
Proof.
  intros active desired Ha Hl Hb. destruct (max_concurrent_pos role Hl) as [Hm _].
  unfold desired, desired_replicas, active_steps. fold active.
  assert (Hw : wrap32 active = active) by (apply wrap_id; fits). rewrite Hw.
  destruct (Z.ltb_spec 0 active) as [Hp|Hp]; (split; [|]); try lia.
  - intros _. rewrite (wrap_id 32) by fits.
    destruct (ceil_div active (max_concurrent role) Hp Hm) as (H1 & H2 & H3).
    exists (Z.quot (active + max_concurrent role - 1) (max_concurrent role)). by repeat split.
Qed.

(** *** The effect of a pass *)

(** An agent before and after: only its replicas, if it does not scale itself, and the desired
    replicas in its status may have changed. *)
Record scaling (allowed : Z → Prop) (a a' : SwarmAgent) : Prop := {
  scaling_rest : a' = a <| agent_Spec := agent_Spec a' |> <| agent_Status := agent_Status a' |>;
  scaling_spec : agent_Spec a' = (agent_Spec a) <| aspec_Runtime := aspec_Runtime (agent_Spec a') |>;
  scaling_keda : runtime_Autoscaling (aspec_Runtime (agent_Spec a')) = runtime_Autoscaling (aspec_Runtime (agent_Spec a));
  scaling_replicas :
    aspec_Runtime (agent_Spec a') = aspec_Runtime (agent_Spec a) ∨
    runtime_Autoscaling (aspec_Runtime (agent_Spec a)) = None ∧
    ∃ d, allowed d ∧ Replicas (aspec_Runtime (agent_Spec a')) = Some d }.

Lemma scaling_refl allowed a : scaling allowed a a.
Proof. destruct a as [?????[] ?]. split; [done..|by left]. Qed.

Lemma scaling_trans allowed a b c : scaling allowed a b → scaling allowed b c → scaling allowed a c.
Proof.
  intros [R1 S1 K1 P1] [R2 S2 K2 P2]. split.
  - rewrite R2, R1. done.
  - by rewrite S2, S1.
  - by rewrite K2.
  - destruct P2 as [E|[Hk (d & Hd & E)]].
    + destruct P1 as [E'|[Hk (d & Hd & E')]]; [left; by rewrite E|right].
      split; [done|]. exists d. by rewrite E.
    + right. rewrite <- K1. split; [done|]. by exists d.
Qed.

Definition scaled (allowed : string → Z → Prop) (m m' : gmap string SwarmAgent) : Prop :=
  ∀ name, option_Forall2 (scaling (allowed name)) (m !! name) (m' !! name).

Lemma scaled_refl allowed m : scaled allowed m m.
Proof. intros name. destruct (m !! name); constructor. apply scaling_refl. Qed.

Lemma scaled_trans allowed m1 m2 m3 : scaled allowed m1 m2 → scaled allowed m2 m3 → scaled allowed m1 m3.
Proof.
  intros H1 H2 name. specialize (H1 name). specialize (H2 name).
  destruct H1 as [a b Hab|]; inversion H2; constructor. by eapply scaling_trans.
Qed.

Lemma scaled_insert (allowed : string → Z → Prop) m name a a' :
  m !! name = Some a → scaling (allowed name) a a' → scaled allowed m (<[name := a']> m).
Proof.
  intros Hm Ha n. destruct (decide (name = n)) as [<-|Hn].
  - rewrite lookup_insert_eq, Hm. by constructor.
  - rewrite lookup_insert_ne by done. apply scaled_refl.
Qed.

Lemma set_desired_scaling allowed d a : scaling allowed a (set_desired d a).
Proof. destruct a as [?????[] ?]. split; [done..|by left]. Qed.

Lemma set_replicas_scaling (allowed : Z → Prop) d a :
  allowed d → runtime_Autoscaling (aspec_Runtime (agent_Spec a)) = None → scaling allowed a (set_replicas d a).
Proof. intros Hd Hk. destruct a as [?????[] ?]. split; [done..|]. right. eauto. Qed.

Section scaling.
Variable faults : nat → fault.

Lemma patchAgent_scaled (allowed : string → Z → Prop) name change s :
  (∀ a, agents s !! name = Some a → scaling (allowed name) a (change a)) →
  scaled allowed (agents s) (agents (patchAgent faults name change s).2).
Proof.
  intros H. pose proof (patchAgent_spec faults name change s) as Hp.
  destruct (patchAgent faults name change s) as [r s']. simpl. destruct Hp as [_ Hp].
  destruct r as [u|e]; [|rewrite Hp; apply scaled_refl].
  destruct Hp as (a & Ha & ->). by apply scaled_insert with a; [|apply H].
Qed.

Lemma applyRoleScale_scaled (allowed : string → Z → Prop) team role desired s agent :
  agents s !! agent_name team role = Some agent →
  runtime_Autoscaling (aspec_Runtime (agent_Spec agent)) = None →
  allowed (agent_name team role) desired →
  scaled allowed (agents s) (agents (applyRoleScale faults team role desired s).2).
Proof.
  intros Hs Hk Hd. unfold applyRoleScale, and_then. set (name := agent_name team role) in *.
  pose proof (getAgent_spec faults name s) as Hg. destruct (getAgent faults name s) as [r s1].
  destruct Hg as (E1 & _ & Hf). rewrite <- E1 in *.
  destruct r as [b| |e]; [|apply scaled_refl..]. specialize (Hf b eq_refl). rewrite Hs in Hf. injection Hf as <-.
  assert (Hstatus : ∀ s, scaled allowed (agents s) (agents (patchAgent faults name (set_desired desired) s).2)).
  { intros s0. apply patchAgent_scaled. intros a _. apply set_desired_scaling. }
  destruct (_ =? desired).
  - unfold patch_desired, and_then. case_bool_decide; [apply scaled_refl|].
    specialize (Hstatus s1). by destruct (patchAgent _ _ _ s1).
  - assert (Hrep : scaled allowed (agents s1) (agents (patchAgent faults name (set_replicas desired) s1).2)).
    { apply patchAgent_scaled. intros a Ha. rewrite Hs in Ha. injection Ha as <-. by apply set_replicas_scaling. }
    destruct (patchAgent faults name (set_replicas desired) s1) as [[[]|e] s2]; [|done].
    case_bool_decide; [done|]. pose proof (getAgent_spec faults name s2) as Hg2.
    destruct (getAgent faults name s2) as [r2 s3]. destruct Hg2 as (E2 & _ & _). simpl in Hrep. rewrite <- E2 in Hrep.
    destruct r2; [|done..]. specialize (Hstatus s3). destruct (patchAgent _ _ _ s3).
    by eapply scaled_trans.
Qed.

(** An inline role of the team. *)
Definition inline_role (team : SwarmTeam) (role : SwarmTeamRole) : Prop :=
  role ∈ team_Roles (team_Spec team) ∧ role_SwarmAgent role = "" ∧ role_SwarmTeam role = "".

Lemma scale_each_scaled (allowed : string → Z → Prop) team roles activeByRole z after idle allZero s :
  (∀ role, role ∈ roles → role_SwarmAgent role = "" → role_SwarmTeam role = "" →
     allowed (agent_name team role) (desired_replicas role activeByRole z after idle)) →
  scaled allowed (agents s) (agents (scale_each faults team roles activeByRole z after idle allZero s).2).
Proof.
  revert allZero s. induction roles as [|role roles IH]; intros allZero s Hd; [apply scaled_refl|].
  assert (IH' : ∀ b s, scaled allowed (agents s) (agents (scale_each faults team roles activeByRole z after idle b s).2)).
  { intros b s'. apply IH. intros r Hr. apply Hd. by right. }
  clear IH. simpl. destruct (negb _ || negb _) eqn:Ei; [apply IH'|].
  apply orb_false_iff in Ei as [Ea%negb_false_iff%String.eqb_eq Et%negb_false_iff%String.eqb_eq].
  unfold if_ok, and_then, computeRoleDesired, and_then.
  pose proof (getAgent_spec faults (agent_name team role) s) as Hg.
  destruct (getAgent faults (agent_name team role) s) as [r s1]. destruct Hg as (E & _ & Hf). rewrite <- E in *.
  destruct r as [a| |e]; unfold answer_with; [|apply IH'|apply scaled_refl].
  destruct (runtime_Autoscaling _) eqn:Hk; [apply IH'|].
  pose proof (applyRoleScale_scaled allowed team role _ s1 a (Hf a eq_refl) Hk
    (Hd role ltac:(by left) Ea Et)) as Hs.
  destruct (applyRoleScale _ _ _ _ s1) as [[[]|e] s2]; [|done]. eapply scaled_trans; [exact Hs|apply IH'].
Qed.

(** How long a team has been idle: not at all while a step of any role is active, and never if no
    activity was ever recorded. *)
Definition team_idle (team : SwarmTeam) (now : Z) (runs : list RunResource) : Z :=
  if bool_decide (countActiveStepsByRole runs = ∅) then idle_for team now else 0.

(** whatever the API server answers, a pass of the autoscaler changes only the replicas of the
    agents of inline roles that do not scale themselves.  A role with active steps gets as many
    replicas as they need at its concurrency, but no more than its role configures; one without
    gets none if the team has been idle for long enough, and else what its role configures. *)
Theorem reconcileAutoscaling_effect team now runs s name a a' :
  (∀ role, inline_role team role → (∀ l, role_Limits role = Some l → ConcurrentTasks l < 2 ^ 31) ∧
     Z.of_nat (length (all_steps runs)) + max_concurrent role < 2 ^ 31) →
  agents s !! name = Some a → agents (reconcileAutoscaling faults team now runs s).2 !! name = Some a' →
  a' = a <| agent_Spec := agent_Spec a' |> <| agent_Status := agent_Status a' |> ∧
  (aspec_Runtime (agent_Spec a') = aspec_Runtime (agent_Spec a) ∨
   runtime_Autoscaling (aspec_Runtime (agent_Spec a)) = None ∧
   ∃ role d, inline_role team role ∧ name = agent_name team role ∧
     Replicas (aspec_Runtime (agent_Spec a')) = Some d ∧
     let active := Z.of_nat (length (active_named (role_Name role) (all_steps runs))) in
     (0 < active → ∃ n, enough role active n ∧ 1 ≤ n ∧ d = Z.min n (configured_replicas role)) ∧
     (active = 0 → d = if scale_to_zero (team_Spec team) &&
                          (duration_seconds (after_seconds (team_Spec team)) <=? team_idle team now runs)
                       then 0 else configured_replicas role)).
Proof.
  intros Hb Ha. unfold reconcileAutoscaling. destruct (autoscaled team); simpl.
  2: { intros Ha'. rewrite Ha in Ha'. injection Ha' as <-. destruct a as [?????[] ?]. split; [done|by left]. }
  set (counts := countActiveStepsByRole runs).
  set (team1 := if bool_decide (counts = ∅) then team else _).
  assert (Hspec : team_Spec team1 = team_Spec team) by (unfold team1; by case_bool_decide).
  assert (Hname : team_Name team1 = team_Name team) by (unfold team1; by case_bool_decide).
  assert (Hidle1 : idle_for team1 now = team_idle team now runs).
  { unfold team1, team_idle. fold counts. case_bool_decide; [done|]. unfold idle_for, time_Sub. simpl.
    rewrite Z.sub_diag. done. }
  set (allowed := λ n d, ∃ role, inline_role team role ∧ n = agent_name team role ∧
    d = desired_replicas role counts (scale_to_zero (team_Spec team1)) (after_seconds (team_Spec team1)) (idle_for team1 now)).
  pose proof (scale_each_scaled allowed team1 (team_Roles (team_Spec team1)) counts (scale_to_zero (team_Spec team1))
    (after_seconds (team_Spec team1)) (idle_for team1 now) true s) as Hs.
  assert (Hd : ∀ role, role ∈ team_Roles (team_Spec team1) → role_SwarmAgent role = "" → role_SwarmTeam role = "" →
     allowed (agent_name team1 role) (desired_replicas role counts (scale_to_zero (team_Spec team1)) (after_seconds (team_Spec team1)) (idle_for team1 now))).
  { intros role Hr H1 H2. exists role. rewrite Hspec in Hr. split; [done|]. split; [|done].
    unfold agent_name. by rewrite Hname. }
  specialize (Hs Hd). unfold and_then. destruct (scale_each _ _ _ _ _ _ _ _ s) as [r s'].
  simpl in Hs. specialize (Hs name). rewrite Ha in Hs.
  assert (Hs' : agents (match r with Ok _ => s' | Err _ => s' end) = agents s') by by destruct r.
  intros Ha'. assert (Ha2 : agents s' !! name = Some a') by by destruct r.
  rewrite Ha2 in Hs. inversion Hs as [? ? [R S K P]|]; subst. split; [done|].
  destruct P as [P|[Hk (d & (role & Hi & -> & ->) & E)]]; [by left|right]. split; [done|].
  exists role. eexists. split; [done|]. split; [done|]. split; [exact E|].
  destruct (Hb role Hi) as [Hl Hn]. 
  assert (Hlen : (length (active_named (role_Name role) (all_steps runs)) ≤ length (all_steps runs))%nat) by apply over_length.
  assert (Hc : default 0 (counts !! role_Name role) = Z.of_nat (length (active_named (role_Name role) (all_steps runs)))).
  { apply count_active_named. pose proof (max_concurrent_pos role Hl). lia. }
  destruct (desired_replicas_verdict role counts (scale_to_zero (team_Spec team1)) (after_seconds (team_Spec team1))
    (idle_for team1 now)) as [Hact Hidle]; [lia|done|lia|].
  rewrite Hc in *. split; [exact Hact|]. intros H0. by rewrite (Hidle H0), Hspec, Hidle1.
Qed.
End scaling.

(** ** Witnesses *)
#[local] Instance team_conditions : ConditionApi := list_conditions.
#[local] Instance team_url : UrlApi := toy_url.
#[local] Instance plain_format : FormatUrl := λ scheme host path _, scheme +:+ "://" +:+ host +:+ path.
#[local] Instance key_json : JsonApi := {|
  json_Unmarshal _ := Err "unread";
  json_Marshal v := match v with AMap m => Ok (str_join "," m.*1) | _ => Err "not a map" end;
  json_type_error _ := "" |}.
#[local] Instance merge_runs : SliceSort RunResource := merge_sort_by.
#[local] Instance newest_first_total : base.Total (not_less newest_first).
Proof. intros a b. unfold not_less, newest_first. rewrite !Z.ltb_ge. lia. Qed.
#[local] Instance merge_runs_laws : SliceSortLaws newest_first merge_runs := merge_sort_by_laws newest_first newest_first_total.

Definition works (n : nat) : fault := Works.
Definition empty_api : api := mkApi ∅ ∅ ∅ [] None 0.

(** A team of a lead, which may delegate to a helper. *)
Definition lead : SwarmTeamRole := plain_role "lead".
Definition helper : SwarmTeamRole := plain_role "helper".
Definition delegating (role : SwarmTeamRole) (targets : list string) : SwarmTeamRole :=
  mkSwarmTeamRole (role_Name role) "" "" "m" None targets None None None [] [] None.
Definition sample_team : SwarmTeam :=
  mkSwarmTeam "team" "ns" "uid" false 1
    (mkSwarmTeamSpec "lead" "" [] None [delegating lead ["helper"]; helper] [] None None 0 0 None ∅ None "" None
       (Some (mkSwarmTeamAutoscaling true (Some (mkSwarmTeamScaleToZero true (Some 60))))) None None None)
    new_team_status.

Lemma sample_roles role :
  role ∈ team_Roles (team_Spec sample_team) → role = delegating lead ["helper"] ∨ role = helper.
Proof. simpl. intros [->|[->|?%not_elem_of_nil]%elem_of_cons]%elem_of_cons; [by left|by right|done]. Qed.

Lemma sample_names role : role ∈ team_Roles (team_Spec sample_team) → role_Name role ≠ "".
Proof. by intros [->| ->]%sample_roles. Qed.

Lemma validateTopology_correct_witness : well_formed sample_team.
Proof.
  apply (validateTopology_correct keys_of sample_team (λ adj, range_order_keys adj) sample_names). by vm_compute.
Defined.

Lemma delegation_chains_bounded_witness :
  NoDup ["lead"; "helper"] ∧ (length ["helper"] < length (team_Roles (team_Spec sample_team)))%nat.
Proof.
  apply (delegation_chains_bounded keys_of sample_team "lead" ["helper"] (λ adj, range_order_keys adj) sample_names);
    [by vm_compute|by left|]. split; [|done].
  exists (delegating lead ["helper"]). split; [by left|]. split; [done|by left].
Defined.

Definition finished_run (name : string) (phase : SwarmRunPhase) (completed : Z) : RunResource :=
  mkRunResource (mkSwarmRun name "ns" 1
    (mkSwarmRunSpec "team" "" "" 1 ∅ "" [] None [] "" None None 0 0)
    (mkSwarmRunStatus phase [] "" None (Some completed) None "" None 0 [])) {[LabelTeam := "team"]} ∅ 0 [].

Definition short_history : SwarmTeam :=
  mkSwarmTeam "team" "ns" "uid" false 1
    (mkSwarmTeamSpec "" "" [] None [] [] None None 0 0 None ∅ None "" None None (Some 1) (Some 0) (Some 100))
    new_team_status.

Definition history : list RunResource :=
  [finished_run "old" RunFailed 1; finished_run "first" RunSucceeded 910; finished_run "second" RunSucceeded 920;
   finished_run "failed" RunFailed 930; finished_run "running" RunRunning 0].

Lemma pruneRuns_spec_witness :
  deleted (pruneRuns works short_history 1000 history empty_api).2 = ["old"; "first"; "failed"] ∧
  ∃ kept_s gone_s kept_f gone_f gone,
    retained (team_Spec short_history) 1000 history RunSucceeded 1 kept_s gone_s ∧
    retained (team_Spec short_history) 1000 history RunFailed 0 kept_f gone_f ∧
    let all := outdated (team_Spec short_history) 1000 history ++ gone_s ++ gone_f in
    sublist gone (object_Name <$> all) ∧
    deleted (pruneRuns works short_history 1000 history empty_api).2 = [] ++ gone ∧
    ((∀ n, works n = Works) → (pruneRuns works short_history 1000 history empty_api).1 = Ok tt ∧ gone = object_Name <$> all).
Proof.
  split; [by vm_compute|].
  pose proof (pruneRuns_spec works short_history 1000 history empty_api ltac:(simpl; lia) ltac:(simpl; lia)
    ltac:(simpl; lia)) as H.
  destruct (pruneRuns works short_history 1000 history empty_api) as [r s']. exact H.
Defined.

(** A helper that was scaled to zero, and a run that has a step for it. *)
Definition busy_runs : list RunResource :=
  [mkRunResource (mkSwarmRun "busy" "ns" 1
    (mkSwarmRunSpec "team" "" "" 1 ∅ "" [] None [] "" None None 0 0)
    (mkSwarmRunStatus RunRunning [new_step "helper" StepRunning] "" None None None "" None 0 []))
    {[LabelTeam := "team"]} ∅ 0 []].

Definition idle_api : api :=
  empty_api <| agents := {["team-helper" := set_replicas 0 (role_agent sample_team helper)]} |>.
Definition busy_pass := reconcileAutoscaling works sample_team 1000 busy_runs idle_api.

Lemma reconcileAutoscaling_effect_witness :
  ∃ a a', agents idle_api !! "team-helper" = Some a ∧ agents busy_pass.2 !! "team-helper" = Some a' ∧
  Replicas (aspec_Runtime (agent_Spec a)) = Some 0 ∧ Replicas (aspec_Runtime (agent_Spec a')) = Some 1 ∧
  (aspec_Runtime (agent_Spec a') = aspec_Runtime (agent_Spec a) ∨
   runtime_Autoscaling (aspec_Runtime (agent_Spec a)) = None ∧
   ∃ role d, inline_role sample_team role ∧ "team-helper" = agent_name sample_team role ∧
     Replicas (aspec_Runtime (agent_Spec a')) = Some d ∧
     let active := Z.of_nat (length (active_named (role_Name role) (all_steps busy_runs))) in
     (0 < active → ∃ n, enough role active n ∧ 1 ≤ n ∧ d = Z.min n (configured_replicas role)) ∧
     (active = 0 → d = if scale_to_zero (team_Spec sample_team) &&
          (duration_seconds (after_seconds (team_Spec sample_team)) <=? team_idle sample_team 1000 busy_runs)
        then 0 else configured_replicas role)).
Proof.
  destruct (agents idle_api !! "team-helper") as [a|] eqn:Ea; [|by vm_compute in Ea].
  destruct (agents busy_pass.2 !! "team-helper") as [a'|] eqn:Ea'; [|by vm_compute in Ea'].
  exists a, a'. split; [done|]. split; [done|].
  split; [vm_compute in Ea; injection Ea as <-; done|]. split; [vm_compute in Ea'; injection Ea' as <-; done|].
  apply (reconcileAutoscaling_effect works sample_team 1000 busy_runs idle_api "team-helper" a a'); [|exact Ea|exact Ea'].
  intros role [Hr _]. destruct (sample_roles role Hr) as [->| ->]; (split; [by intros l [=]|vm_compute; reflexivity]).
Defined.
