(* ===== verification/TeamWiring.v ===== *)
(** * TeamWiring: the agents of the roles and the status of the team.

    The annotations by which the pods of a role and the dispatch of a step come to use the same
    queue, also when several roles name one agent; that another pass over roles with agents of their
    own changes none of them, whatever calls fail; and what whole reconciliations store. *)
From Stdlib Require Import ZArith Lia.
From stdpp Require Import base tactics option list strings gmap sorting.
From S2P Require Import Prelude GoStd Types Costs AgentTypes Kube Dag Registry Routing Dispatch.
From S2P Require Import Event Api Team TeamProps.

(** ** The wiring of the roles *)
Lemma foldl_annotations (l : list (string * string)) (m : gmap string string) :
  NoDup l.*1 →
  (∀ kv, kv ∈ l → foldl set_annotation m l !! kv.1 = Some kv.2) ∧
  (∀ k, k ∉ l.*1 → foldl set_annotation m l !! k = m !! k).
Proof.
  revert m. induction l as [|kv l IH]; intros m; simpl.
  { intros _. split; [|done]. by intros ? ?%not_elem_of_nil. }
  intros [Hn Hnd]%NoDup_cons. destruct (IH (set_annotation m kv) Hnd) as [H1 H2]. unfold set_annotation in *. split.
  - intros kv' [->|Hin]%elem_of_cons; [by rewrite H2, lookup_insert_eq|by apply H1].
  - intros k [? ?]%not_elem_of_cons. by rewrite H2, lookup_insert_ne.
Qed.

Section wiring.
Context {urlApi : UrlApi} {formatUrl : FormatUrl} {jsonApi : JsonApi}.
Variable faults : nat → fault.
Variables TaskQueueURL AgentTaskQueueURL : string.

#[local] Notation roleQueueURL := (roleQueueURL TaskQueueURL AgentTaskQueueURL).
#[local] Notation roleQueueURLs := (roleQueueURLs TaskQueueURL AgentTaskQueueURL).
#[local] Notation role_routes := (role_routes TaskQueueURL AgentTaskQueueURL).
#[local] Notation wiring := (wiring TaskQueueURL AgentTaskQueueURL).
#[local] Notation annotate := (annotate TaskQueueURL AgentTaskQueueURL).
#[local] Notation reconcile_role := (reconcile_role faults TaskQueueURL AgentTaskQueueURL).
#[local] Notation reconcile_each := (reconcile_each faults TaskQueueURL AgentTaskQueueURL).
#[local] Notation reconcileRoles := (reconcileRoles faults TaskQueueURL AgentTaskQueueURL).

(** The agent of a role. *)
Definition role_agent_name (team : SwarmTeam) (role : SwarmTeamRole) : string :=
  if negb (String.eqb (role_SwarmAgent role) "") then role_SwarmAgent role
  else if negb (String.eqb (role_SwarmTeam role) "") then role_SwarmTeam role +:+ "-entry"
  else agent_name team role.

Lemma roleQueueURLs_lookup team role :
  role ∈ team_Roles (team_Spec team) →
  roleQueueURLs team !! role_Name role = Some (roleQueueURL team (role_Name role)).
Proof.
  unfold Team.roleQueueURLs. generalize (team_Roles (team_Spec team)) as roles. intros roles.
  set (f := λ (m : gmap string string) r, <[role_Name r := roleQueueURL team (role_Name r)]> m).
  assert (H : ∀ (roles : list SwarmTeamRole) (m : gmap string string) n,
    n ∈ role_Name <$> roles ∨ m !! n = Some (roleQueueURL team n) → foldl f m roles !! n = Some (roleQueueURL team n)).
  { clear. intros roles. induction roles as [|r roles IH]; intros m n; simpl.
    - by intros [?%not_elem_of_nil|?].
    - intros [[->|Hn]%elem_of_cons|Hm]; apply IH; [right; apply lookup_insert_eq|by left|right].
      unfold f. destruct (decide (role_Name r = n)) as [->|]; [apply lookup_insert_eq|by rewrite lookup_insert_ne]. }
  intros Hr. apply H. left. by apply list_elem_of_fmap_2.
Qed.

(** An agent carries what its role needs. *)
Definition wired (team : SwarmTeam) (role : SwarmTeamRole) (routesJSON : string) (ann : gmap string string) : Prop :=
  (∀ kv, kv ∈ wiring team role routesJSON → annotation ann kv.1 = kv.2) ∧
  (∀ kv, kv ∈ storage team → kv.2 ≠ "" → annotation ann kv.1 = kv.2).

Lemma wiring_keys team role json : (wiring team role json).*1 = [AnnotationTeamQueueURL; AnnotationTeamRoutes; AnnotationTeamRole].
Proof. done. Qed.
Lemma storage_keys team :
  (storage team).*1 = [AnnotationTeamArtifactStore; AnnotationTeamArtifactClaim; AnnotationTeamArtifactCredentials].
Proof. done. Qed.
Lemma all_keys_NoDup team role json : NoDup (wiring team role json ++ storage team).*1.
Proof. rewrite fmap_app, wiring_keys, storage_keys. by vm_compute; repeat constructor; set_solver. Qed.

Lemma annotate_foldl team role json ann :
  annotate team role json ann =
  foldl set_annotation ann (wiring team role json ++ filter (λ kv, kv.2 ≠ "") (storage team)).
Proof. unfold Team.annotate. by rewrite foldl_app. Qed.

Lemma written_keys_NoDup team role json :
  NoDup (wiring team role json ++ filter (λ kv, kv.2 ≠ "") (storage team)).*1.
Proof.
  eapply sublist_NoDup; [apply (all_keys_NoDup team role json)|].
  rewrite !fmap_app. apply sublist_app; [done|]. apply fmap_sublist, sublist_filter.
Qed.

Lemma annotate_wired team role json ann : wired team role json (annotate team role json ann).
Proof.
  rewrite annotate_foldl. destruct (foldl_annotations _ ann (written_keys_NoDup team role json)) as [H _].
  split; intros kv Hkv; [|intros Hne]; unfold annotation; rewrite H; try done.
  - apply elem_of_app. by left.
  - apply elem_of_app. right. by apply list_elem_of_filter.
Qed.

Lemma foldl_present (l : list (string * string)) (m : gmap string string) :
  (∀ kv, kv ∈ l → m !! kv.1 = Some kv.2) → foldl set_annotation m l = m.
Proof.
  induction l as [|kv l IH]; intros Hl; [done|]. simpl. unfold set_annotation at 2.
  rewrite insert_id by (apply Hl; left). apply IH. intros kv' Hkv. apply Hl. by right.
Qed.

Lemma annotate_idem team role json ann : annotate team role json (annotate team role json ann) = annotate team role json ann.
Proof.
  rewrite !annotate_foldl. apply foldl_present. apply foldl_annotations, written_keys_NoDup.
Qed.

Lemma annotated_wired team role json ann :
  annotated (wiring team role json ++ storage team) ann = true → wired team role json ann.
Proof.
  unfold annotated. intros [_ H]%andb_true_iff. rewrite forallb_forall in H.
  split; intros kv Hkv; [|intros _]; apply String.eqb_eq, (H kv), list_elem_of_In, elem_of_app; auto.
Qed.

(** *** What a turn of the loop over the roles leaves *)

(** The spec of the agent is the one that its role asks for. *)
Definition up_to_date (team : SwarmTeam) (role : SwarmTeamRole) (a : SwarmAgent) : Prop :=
  agent_Spec a = updated_spec team role (agent_Spec a).

Definition is_inline (role : SwarmTeamRole) : Prop := role_SwarmAgent role = "" ∧ role_SwarmTeam role = "".

Lemma updated_spec_idem team role spec :
  updated_spec team role (updated_spec team role spec) = updated_spec team role spec.
Proof. unfold updated_spec. destruct (autoscaled team); [|done]. by destruct spec as [???????[] ???]. Qed.

Lemma role_spec_updated team role : updated_spec team role (role_spec team role) = role_spec team role.
Proof.
  unfold updated_spec. destruct (autoscaled team); [|done].
  destruct (role_spec team role) as [???????[] ???]. done.
Qed.

Lemma reconcileRoleAgent_spec team role s :
  let '(r, s') := reconcileRoleAgent faults team role s in
  (∀ n, n ≠ role_agent_name team role → agents s' !! n = agents s !! n) ∧
  ∀ name, r = Ok name → name = role_agent_name team role ∧
    (is_inline role → ∃ a, agents s' !! name = Some a ∧ up_to_date team role a).
Proof.
  unfold reconcileRoleAgent, role_agent_name, is_inline.
  destruct (String.eqb_spec (role_SwarmAgent role) "") as [Ea|Ea]; simpl.
  2: { split; [done|]. intros name [= <-]. split; [done|]. by intros [? _]. }
  destruct (String.eqb_spec (role_SwarmTeam role) "") as [Et|Et]; simpl.
  2: { split; [done|]. intros name [= <-]. split; [done|]. by intros [_ ?]. }
  unfold and_then. pose proof (getAgent_spec faults (agent_name team role) s) as Hg.
  destruct (getAgent faults (agent_name team role) s) as [r s1]. destruct Hg as (E1 & _ & Hf). rewrite <- E1.
  destruct r as [a| |e]; [|unfold if_ok, and_then|done].
  - specialize (Hf a eq_refl). rewrite <- E1 in Hf. case_bool_decide as Hs; [by split; [|intros ? [= <-]; eauto]|].
    unfold if_ok, and_then.
    pose proof (patchAgent_spec faults (agent_name team role)
      (λ b, b <| agent_Spec := updated_spec team role (agent_Spec a) |>) s1) as Hp.
    destruct (patchAgent _ _ _ s1) as [[[]|e] s2]; destruct Hp as [_ Hp]; [|by split; [intros n _; rewrite Hp|]].
    destruct Hp as (b & Hb & Hs2). simpl. split; [intros n Hn; by rewrite Hs2, lookup_insert_ne|].
    intros name [= <-]. split; [done|]. intros _. rewrite Hs2, lookup_insert_eq. eexists. split; [done|].
    unfold up_to_date. simpl. by rewrite updated_spec_idem.
  - pose proof (createAgent_spec faults (role_agent team role) s1) as Hc.
    destruct (createAgent faults _ s1) as [[[]|e] s2]; [|by split; [intros n _; rewrite Hc|]].
    destruct Hc as [_ Hs2]. simpl in *. split; [intros n Hn; by rewrite Hs2, lookup_insert_ne|].
    intros name [= <-]. split; [done|]. intros _. rewrite Hs2, lookup_insert_eq. eexists. split; [done|].
    unfold up_to_date. simpl. by rewrite role_spec_updated.
Qed.

(** What the store says of the agent of a role after its turn. *)
Definition settled_role (team : SwarmTeam) (role : SwarmTeamRole) (m : gmap string SwarmAgent) : Prop :=
  (is_inline role → is_Some (m !! role_agent_name team role)) ∧
  ∀ a, m !! role_agent_name team role = Some a →
    (∃ json, routes_json (role_routes team role) = Ok json ∧ wired team role json (agent_Annotations a) ∧
       (annotated (wiring team role json ++ storage team) (agent_Annotations a) = true ∨
        annotate team role json (agent_Annotations a) = agent_Annotations a)) ∧
    (is_inline role → up_to_date team role a).

Lemma reconcile_role_spec team role s :
  let '(r, s') := reconcile_role team role s in
  (∀ n, n ≠ role_agent_name team role → agents s' !! n = agents s !! n) ∧
  ∀ st, r = Ok st → (∀ n, faults n ≠ Missing) → settled_role team role (agents s').
Proof.
  unfold Team.reconcile_role, if_ok, and_then. set (name := role_agent_name team role).
  pose proof (reconcileRoleAgent_spec team role s) as Ha.
  destruct (reconcileRoleAgent faults team role s) as [[name'|e] s1]; destruct Ha as [Hfr Ha]; [|by split].
  destruct (Ha name' eq_refl) as [-> Hin]. fold name in Hfr, Hin |- *.
  pose proof (getAgent_spec faults name s1) as Hg. pose proof (getAgent_missing faults name s1) as Hm.
  destruct (getAgent faults name s1) as [r s2]. simpl in Hm. destruct Hg as (E2 & _ & Hf). rewrite <- E2 in Hfr, Hin, Hm, Hf.
  destruct r as [a| |e]; simpl; [|split; [done|]; intros st _ Hno|by split].
  2: { specialize (Hm Hno eq_refl). unfold settled_role. fold name. split; [|intros a Ha'; congruence].
       intros Hi. by destruct (Hin Hi) as (a & -> & _). }
  specialize (Hf a eq_refl).
  destruct (routes_json _) as [json|e] eqn:Ej; [|by split].
  assert (Hup : is_inline role → up_to_date team role a).
  { intros Hi. destruct (Hin Hi) as (b & Hb & ?). rewrite Hb in Hf. by injection Hf as <-. }
  destruct (annotated _ _) eqn:Eann; simpl.
  - split; [done|]. intros st _ _. split; [by eexists|]. fold name. intros b Hb. rewrite Hf in Hb. injection Hb as <-.
    split; [|done]. exists json. split; [done|]. split; [by apply annotated_wired|by left].
  - pose proof (patchAgent_spec faults name (λ b, b <| agent_Annotations ::= annotate team role json |>) s2) as Hp.
    destruct (patchAgent _ _ _ s2) as [[[]|e] s3]; destruct Hp as [_ Hp]; simpl; [|by split; [intros n Hn; rewrite Hp; apply Hfr|]].
    destruct Hp as (b & Hb & Hs3). rewrite Hf in Hb. injection Hb as <-.
    split; [intros n Hn; rewrite Hs3, lookup_insert_ne by done; by apply Hfr|]. intros st _ _.
    split; fold name; rewrite Hs3, lookup_insert_eq; [by eexists|]. intros c [= <-]. split; [|done].
    exists json. split; [done|]. split; [apply annotate_wired|right; apply annotate_idem].
Qed.




(** Agents that several roles share carry what one of these roles needs. *)
Lemma reconcile_each_wired team roles s :
  let '(r, s') := reconcile_each team roles s in
  (∀ n, n ∉ role_agent_name team <$> roles → agents s' !! n = agents s !! n) ∧
  ∀ l, r = Ok l → (∀ n, faults n ≠ Missing) → ∀ role a, role ∈ roles → agents s' !! role_agent_name team role = Some a →
    ∃ role' json, role' ∈ roles ∧ role_agent_name team role' = role_agent_name team role ∧
      wired team role' json (agent_Annotations a).
Proof.
  revert s. induction roles as [|role roles IH]; intros s; simpl.
  { split; [done|]. by intros l _ _ ? ? ?%not_elem_of_nil. }
  unfold if_ok, and_then. pose proof (reconcile_role_spec team role s) as Hr.
  destruct (reconcile_role team role s) as [[st|e] s1].
  2: { destruct Hr as [Hfr _]. split; [|done]. intros n [? _]%not_elem_of_cons. by apply Hfr. }
  destruct Hr as [Hfr Hset]. specialize (IH s1). destruct (reconcile_each team roles s1) as [r s2].
  destruct IH as [Hfr2 IH].
  assert (Hfr' : ∀ n, n ∉ role_agent_name team role :: (role_agent_name team <$> roles) → agents s2 !! n = agents s !! n).
  { intros n [? ?]%not_elem_of_cons. by rewrite Hfr2, Hfr. }
  destruct r as [l|e]; [|by split]. split; [done|]. intros l' _ Hno r a Hr Ha.
  destruct (decide (role_agent_name team r ∈ role_agent_name team <$> roles)) as [Hin|Hout].
  - apply list_elem_of_fmap in Hin as (r2 & E2 & Hr2). rewrite E2 in Ha.
    destruct (IH l eq_refl Hno r2 a Hr2 Ha) as (r' & json & Hr' & E & Hw). exists r', json.
    split; [by right|]. split; [congruence|done].
  - apply elem_of_cons in Hr as [->|Hr]; [|by destruct Hout; apply list_elem_of_fmap_2].
    rewrite Hfr2 in Ha by done. destruct (Hset st eq_refl Hno) as [_ Hs]. destruct (Hs a Ha) as [(json & _ & Hw & _) _].
    exists role, json. by split; [left|].
Qed.

Lemma wired_queue team role json ann :
  role ∈ team_Roles (team_Spec team) → wired team role json ann →
  default "" (ann !! AnnotationTeamQueueURL) = roleQueueURL team (role_Name role).
Proof.
  intros Hr [H _]. specialize (H (AnnotationTeamQueueURL, default "" (roleQueueURLs team !! role_Name role)) ltac:(by left)).
  unfold annotation in H. simpl in H. by rewrite H, roleQueueURLs_lookup.
Qed.

Lemma roleQueueURL_compute env team role :
  env_TaskQueueURL env = TaskQueueURL → env_AgentTaskQueueURL env = AgentTaskQueueURL →
  computeRoleQueueURL env (team_Namespace team) (team_Name team) role = roleQueueURL team role.
Proof.
  intros H1 H2. unfold computeRoleQueueURL, base_queue_url, Team.roleQueueURL. rewrite H1, H2.
  destruct (String.eqb_spec AgentTaskQueueURL ""); destruct (decide (AgentTaskQueueURL = "")); try done.
  - destruct (String.eqb_spec TaskQueueURL ""); by destruct (decide (TaskQueueURL = "")).
  - destruct (String.eqb_spec AgentTaskQueueURL ""); by destruct (decide (AgentTaskQueueURL = "")).
Qed.

(** A role has no URL only when the operator has no queue. *)
Lemma no_queue_url env team role :
  (∀ b k v, url_set_query b k v ≠ Some "") →
  env_TaskQueueURL env = TaskQueueURL → env_AgentTaskQueueURL env = AgentTaskQueueURL →
  roleQueueURL team role = "" → base_queue_url env = "".
Proof.
  intros Hurl H1 H2. rewrite <- (roleQueueURL_compute env team role H1 H2).
  unfold computeRoleQueueURL. case_decide as Hb; [done|]. unfold appendStreamParam.
  specialize (Hurl (base_queue_url env) "stream" (team_Namespace team +:+ "." +:+ team_Name team +:+ "." +:+ role)).
  destruct (url_set_query _ _ _) as [u|]; simpl; [congruence|done].
Qed.

Lemma role_agent_name_nonempty team role : role_agent_name team role ≠ "".
Proof.
  unfold role_agent_name, agent_name. destruct (String.eqb_spec (role_SwarmAgent role) ""); simpl; [|done].
  destruct (String.eqb_spec (role_SwarmTeam role) ""); simpl; [by destruct (team_Name team)|by destruct (role_SwarmTeam role)].
Qed.

(** The run controller finds the agent of a role by another rule, which leaves out other teams. *)
Lemma resolved_agent team role : role_SwarmAgent role ≠ "" ∨ role_SwarmTeam role = "" →
  resolveRoleAgentName (team_Name team) role = role_agent_name team role.
Proof.
  unfold resolveRoleAgentName, role_agent_name, agent_name.
  destruct (String.eqb_spec (role_SwarmAgent role) "") as [E|E]; simpl.
  - rewrite decide_True by done. by intros [?| ->].
  - by rewrite decide_False.
Qed.

(** C39: once a pass over the roles of a team has succeeded, both ends of a role's queue agree, for
    each role that is not fulfilled by another team (whose agents the run controller does not find):
    the run controller, reading the same agents, submits the steps of the role to the URL in the
    annotations of the role's agent, which the pods of that agent read; that URL is the queue of the
    role, or of another role of the same agent when several roles name one.  The pass must have found
    the agents: one that the API server answers not to know yet is left to a later pass. *)
Theorem roles_share_queues env team s statuses s' role a :
  (∀ b k v, url_set_query b k v ≠ Some "") → (∀ n, faults n ≠ Missing) →
  reconcileRoles team s = (Ok statuses, s') →
  env_TaskQueueURL env = TaskQueueURL → env_AgentTaskQueueURL env = AgentTaskQueueURL →
  (∀ name, get_agent env (team_Namespace team) name =
     match agents s' !! name with Some a => Found a | None => NotFound end) →
  role ∈ team_Roles (team_Spec team) → role_SwarmAgent role ≠ "" ∨ role_SwarmTeam role = "" →
  let name := resolveRoleAgentName (team_Name team) role in
  agents s' !! name = Some a →
  ∃ role', role' ∈ team_Roles (team_Spec team) ∧ role_agent_name team role' = name ∧
    (NoDup (role_agent_name team <$> team_Roles (team_Spec team)) → role' = role) ∧
    annotation (agent_Annotations a) AnnotationTeamQueueURL = roleQueueURL team (role_Name role') ∧
    resolveStepQueue env (team_Namespace team) (team_Name team) name (role_Name role) =
      openQueueURL env (annotation (agent_Annotations a) AnnotationTeamQueueURL).
Proof.
  intros Hurl Hno HR Hu1 Hu2 Hget Hrole Hown name Ha. unfold name in *. clear name. rewrite resolved_agent in * by done.
  pose proof (reconcile_each_wired team (team_Roles (team_Spec team)) s) as Hw.
  unfold Team.reconcileRoles, if_ok, and_then in HR. destruct (reconcile_each _ _ s) as [[l|e] s1]; [|done].
  injection HR as _ <-. destruct Hw as [_ Hw]. destruct (Hw l eq_refl Hno role a Hrole Ha) as (role' & json & Hr' & En & Hwired).
  exists role'. pose proof (wired_queue team role' json _ Hr' Hwired) as Hq. split; [done|]. split; [done|]. split.
  { intros Hnd. apply list_elem_of_lookup in Hr' as [i Hi], Hrole as [j Hj].
    assert (i = j) as ->; [|congruence]. eapply (NoDup_lookup _ i j (role_agent_name team role) Hnd);
      rewrite list_lookup_fmap; [rewrite Hi; simpl; by rewrite En|by rewrite Hj]. }
  split; [exact Hq|]. unfold annotation. unfold resolveStepQueue, agentQueueURL.
  rewrite decide_False by apply role_agent_name_nonempty. rewrite Hget, Ha. unfold annotation in Hq.
  pose proof (no_queue_url env team (role_Name role') Hurl Hu1 Hu2) as Hno_base. rewrite <- Hq in Hno_base.
  unfold computeAgentQueueURL, computeRoleQueueURL.
  destruct (agent_Annotations a !! AnnotationTeamQueueURL) as [u|]; simpl in Hno_base |- *.
  - case_decide as Hd; simpl; [|by rewrite decide_False]. rewrite Hno_base, Hd by done. by rewrite !decide_True.
  - rewrite Hno_base by done. by rewrite !decide_True.
Qed.

(** *** A second pass *)










End wiring.


(** the annotation of a storage that was taken from a team stays on the agents: a pass patches
    them (they differ from what is wanted) and does not remove it. *)
Theorem stale_storage_stays {urlApi : UrlApi} {formatUrl : FormatUrl} {jsonApi : JsonApi} url1 url2
    team role json ann path :
  team_ArtifactStore (team_Spec team) = None → ann !! AnnotationTeamArtifactStore = Some path → path ≠ "" →
  annotated (wiring url1 url2 team role json ++ storage team) ann = false ∧
  annotate url1 url2 team role json ann !! AnnotationTeamArtifactStore = Some path.
Proof.
  intros Hs Ha Hp. split.
  - apply not_true_iff_false. unfold annotated. intros [_ H]%andb_true_iff. rewrite forallb_forall in H.
    specialize (H (AnnotationTeamArtifactStore, "")). unfold annotation in H. simpl in H. rewrite Ha in H. simpl in H.
    apply Hp, String.eqb_eq, H. unfold storage. rewrite Hs. simpl. tauto.
  - rewrite annotate_foldl. destruct (foldl_annotations _ ann (written_keys_NoDup url1 url2 team role json)) as [_ H].
    rewrite H; [done|]. unfold storage. rewrite Hs. simpl. vm_compute. set_solver.
Qed.

(** ** Whole reconciliations *)

Section reconcile.
Context {conditionApi : ConditionApi} {urlApi : UrlApi} {formatUrl : FormatUrl} {jsonApi : JsonApi}
  {sorts : SliceSort RunResource}.
Variable faults : nat → fault.
Variables TaskQueueURL AgentTaskQueueURL : string.
Variable key_order : gmap string (list string) → list string.

#[local] Notation Reconcile := (Reconcile faults TaskQueueURL AgentTaskQueueURL key_order).

Lemma quiet_roles team : quiet_call (reconcileRoles faults TaskQueueURL AgentTaskQueueURL team).
Proof.
  unfold reconcileRoles. apply quiet_if_ok; [|quietly].
  induction (team_Roles (team_Spec team)) as [|role roles IH]; simpl; [quietly|].
  apply quiet_if_ok; [|quietly; exact IH]. unfold reconcile_role, reconcileRoleAgent. quietly.
Qed.

Lemma quiet_template team events : quiet_call (isTriggerTemplate faults team events).
Proof. unfold isTriggerTemplate. quietly. Qed.

Lemma quiet_scale team roles counts z after idle b : quiet_call (scale_each faults team roles counts z after idle b).
Proof.
  revert b. induction roles as [|role roles IH]; intros b; simpl; [quietly|].
  destruct (_ || _); [apply IH|]. apply quiet_if_ok; [unfold computeRoleDesired; quietly|].
  intros [d|]; [|apply IH]. apply quiet_if_ok; [unfold applyRoleScale, patch_desired; quietly|]. intros _. apply IH.
Qed.

Lemma quiet_autoscaling team now runs : quiet_call (reconcileAutoscaling faults team now runs).
Proof.
  unfold reconcileAutoscaling. destruct (negb _); [quietly|]. apply quiet_then; [apply quiet_scale|quietly].
Qed.

Lemma quiet_pss ns : quiet_call (ensureNamespacePSS faults ns).
Proof.
  intros s. unfold ensureNamespacePSS. case_bool_decide; [done|]. apply quiet_if_ok; [quietly|]. by intros ? ?.
Qed.

(** *** The status *)
Lemma updateTeamStatus_ok team s s' : updateTeamStatus faults team s = (Ok tt, s') → stored_team s' = Some team.
Proof. unfold updateTeamStatus, numbered. destruct (faults (calls s)); simpl; by intros [= <-]. Qed.

Lemma listed_ok {A} (l l' : A) s s' : listed faults l s = (Ok l', s') → l' = l.
Proof. unfold listed, numbered. destruct (faults (calls s)); simpl; by intros [= <-]. Qed.

Lemma autoscaling_team team now runs s :
  let team' := (reconcileAutoscaling faults team now runs s).1.1 in
  team_Name team' = team_Name team ∧ team_Generation team' = team_Generation team.
Proof.
  unfold reconcileAutoscaling. destruct (negb (autoscaled team)); [done|]. unfold and_then.
  destruct (scale_each _ _ _ _ _ _ _ _ s) as [[z|e] s1]; simpl; by case_bool_decide.
Qed.

(** What the status of a team says of a list of runs. *)
Definition mirrors (t : SwarmTeam) (runs : list RunResource) : Prop :=
  match latestRunFromList runs with
  | None => team_Phase (team_Status t) = TeamReady
  | Some o => LastRunName (team_Status t) = object_Name o ∧
              LastRunPhase (team_Status t) = Phase (Status (object_Run o)) ∧
              team_Phase (team_Status t) = mirrored_phase (Phase (Status (object_Run o)))
  end.

Definition ready (t : SwarmTeam) : Prop :=
  ∃ msg, FindStatusCondition (team_Conditions (team_Status t)) "Ready" =
    Some (mkCondition "Ready" ConditionTrue (team_Generation t) "Reconciled" msg).

Lemma stored_mirror `{!ConditionLaws conditionApi} team statuses runs msg s s' :
  updateTeamStatus faults (set_team_condition (mirrorRunPhaseToTeam (observed team statuses) (latestRunFromList runs))
    ConditionTrue "Reconciled" msg) s = (Ok tt, s') →
  ∃ t, stored_team s' = Some t ∧ mirrors t runs ∧ ready t ∧
       team_ObservedGeneration (team_Status t) = team_Generation team.
Proof.
  intros H. apply updateTeamStatus_ok in H. eexists. split; [exact H|].
  split; [unfold mirrors; simpl; by destruct (latestRunFromList runs)|]. split.
  - eexists. simpl. apply setCondition_ready.
  - simpl. by destruct (latestRunFromList runs).
Qed.

Lemma reconcile_pipeline_mirrors `{!ConditionLaws conditionApi} team now runs s d s' :
  reconcile_pipeline faults TaskQueueURL AgentTaskQueueURL team now runs s = (Ok d, s') →
  ∃ t, stored_team s' = Some t ∧ mirrors t (team_runs team runs) ∧ ready t ∧
       team_ObservedGeneration (team_Status t) = team_Generation team.
Proof.
  unfold reconcile_pipeline, if_ok, and_then.
  destruct (reconcileRoles _ _ _ team s) as [[[statuses entry]|e] s2].
  2: { unfold store_and, and_then. by destruct (updateTeamStatus _ _ s2). }
  destruct (listed _ _ s2) as [[l|e] s3] eqn:El; [|done]. apply listed_ok in El as ->.
  destruct (pruneRuns _ _ _ _ s3) as [_ s4].
  pose proof (autoscaling_team (setPromptSizeWarning team) now (team_runs (setPromptSizeWarning team) runs) s4) as [Hn Hg].
  destruct (reconcileAutoscaling _ _ _ _ s4) as [[team' requeue] s5]. simpl in Hn, Hg.
  destruct (updateTeamStatus _ _ s5) as [[[]|e] s6] eqn:Eu; [|done]. intros [= _ <-].
  rewrite <- Hg. by apply stored_mirror in Eu.
Qed.

(** a reconciliation of a routed team, or of a pipeline team whose steps are valid, that
    returns without an error has stored the status of the team: its phase and last run mirror the
    run that was created last (Ready without runs), and it is Ready for the generation it saw. *)
Theorem Reconcile_mirrors `{!ConditionLaws conditionApi} team now runs events s d s' :
  team_Deleting team = false →
  (team_Routing (team_Spec team) ≠ None ∨
   team_Pipeline (team_Spec team) ≠ [] ∧
   ∀ e, ValidateTeamDAG team (key_order (pipeline_adj (team_Pipeline (team_Spec team)))) ≠ Some (Err e)) →
  Reconcile (Found team) now runs events s = (Ok d, s') →
  ∃ t, stored_team s' = Some t ∧ mirrors t (team_runs team runs) ∧ ready t ∧
       team_ObservedGeneration (team_Status t) = team_Generation team.
Proof.
  intros Hdel Hmode. unfold Team.Reconcile, and_then. rewrite Hdel.
  destruct (ensureNamespacePSS _ _ s) as [_ s1].
  destruct (team_Routing (team_Spec team)) as [r|]; [|destruct Hmode as [?|[Hp Hdag]]; [done|]].
  - unfold reconcileRoutedInfra, if_ok, and_then.
    destruct (listed _ _ s1) as [[l|e] s2] eqn:El; [|done]. apply listed_ok in El as ->.
    destruct (pruneRuns _ _ _ _ s2) as [_ s3].
    destruct (updateTeamStatus _ _ s3) as [[[]|e] s4] eqn:Eu; [|done]. intros [= _ <-].
    by apply stored_mirror in Eu.
  - unfold reconcilePipelineInfra.
    assert (Hm := reconcile_pipeline_mirrors team now runs s1 d s').
    destruct (ValidateTeamDAG team _) as [[[]|e]|]; [|by destruct (Hdag e)|];
      by destruct (team_Pipeline (team_Spec team)).
Qed.

(** The team that a dynamic reconciliation may store. *)
Definition phase_kept (team t : SwarmTeam) : Prop :=
  team_Phase (team_Status t) = TeamReady ∨ team_Phase (team_Status t) = team_Phase (team_Status team).

Definition kept (team : SwarmTeam) (s s' : api) : Prop :=
  deleted s' = deleted s ∧
  (stored_team s' = stored_team s ∨ ∃ t, stored_team s' = Some t ∧ phase_kept team t).

Lemma kept_after team s1 s2 s3 : quiet s1 s2 → kept team s2 s3 → kept team s1 s3.
Proof. intros [D S]. unfold kept. by rewrite D, S. Qed.

Lemma update_kept team t s : phase_kept team t → kept team s (updateTeamStatus faults t s).2.
Proof.
  intros Ht. unfold kept, updateTeamStatus, numbered. destruct (faults (calls s)); simpl; (split; [done|]);
    [right; by exists t|by left..].
Qed.

Lemma reconcile_dynamic_kept team s :
  kept team s (reconcile_dynamic faults TaskQueueURL AgentTaskQueueURL key_order team s).2.
Proof.
  unfold reconcile_dynamic. assert (Hsame : ∀ t r s, phase_kept team t → kept team s (store_and faults t r s).2).
  { intros t r s' Ht. unfold store_and, and_then. pose proof (update_kept team t s' Ht) as H.
    by destruct (updateTeamStatus faults t s'). }
  destruct (validateTopology _ _); [|apply Hsame; by right]. unfold and_then.
  pose proof (quiet_roles team s) as Q.
  destruct (reconcileRoles _ _ _ team s) as [[[statuses entry]|e] s1]; eapply kept_after; try exact Q.
  - unfold if_ok, and_then. match goal with |- kept _ _ (let '(_, _) := updateTeamStatus _ ?t _ in _).2 =>
      pose proof (update_kept team t s1) as H; destruct (updateTeamStatus faults t s1) as [[[]|e] s2] end;
      apply H; by left.
  - apply Hsame. by right.
Qed.

(** a team with neither pipeline nor routing, such as a search team, never shows the phase of
    its runs, whatever the API server answers: a reconciliation leaves its phase as it was or
    makes it Ready, and deletes none of its runs. *)
Theorem dynamic_team_ignores_runs team now runs events s :
  team_Routing (team_Spec team) = None → team_Pipeline (team_Spec team) = [] →
  kept team s (Reconcile (Found team) now runs events s).2.
Proof.
  intros Hr Hp. unfold Team.Reconcile. destruct (team_Deleting team); [by split; [|left]|].
  unfold and_then at 1. pose proof (quiet_pss (team_Namespace team) s) as Q1.
  destruct (ensureNamespacePSS _ _ s) as [u s1]. rewrite Hr, Hp. eapply kept_after; [exact Q1|]. clear Q1 s.
  unfold reconcileDynamicMode. case_bool_decide; [|apply reconcile_dynamic_kept].
  unfold if_ok, and_then. pose proof (quiet_template team events s1) as Q2.
  destruct (isTriggerTemplate _ _ _ s1) as [[[]|e] s2]; eapply kept_after; try exact Q2;
    [by split; [|left]|apply reconcile_dynamic_kept|by split; [|left]].
Qed.

(** The pod security labels: every namespace that is known to be labelled is. *)
Lemma ensureNamespacePSS_spec ns s :
  pssEnsured s ⊆ labelled s →
  let '(r, s') := ensureNamespacePSS faults ns s in
  pssEnsured s' ⊆ labelled s' ∧ (r = Ok tt → ns ∈ labelled s') ∧
  (ns ∈ pssEnsured s → s' = s).
Proof.
  intros Hs. unfold ensureNamespacePSS. case_bool_decide; [set_solver|].
  unfold if_ok, and_then, applyLabels, numbered. destruct (faults (calls s)); simpl; set_solver.
Qed.
End reconcile.

(** ** Witnesses *)
#[local] Existing Instances team_conditions team_url plain_format key_json merge_runs.

(** The store after the roles of the team are reconciled. *)
Definition wired_api : api := (reconcileRoles works "redis://queue" "" sample_team empty_api).2.

Lemma wired_ok : ∃ statuses, reconcileRoles works "redis://queue" "" sample_team empty_api = (Ok statuses, wired_api).
Proof. eexists. by vm_compute. Defined.

Lemma sample_agents_NoDup : NoDup (role_agent_name sample_team <$> team_Roles (team_Spec sample_team)).
Proof. vm_compute. repeat constructor; set_solver. Qed.

Definition wired_env : run_env :=
  mkRunEnv 1 (λ _ n, match agents wired_api !! n with Some a => Found a | None => NotFound end)
    (λ _ _, NotFound) (λ _, Ok []) "redis://queue" "" ∅ (λ _ _, Ok "task") (λ _ _, Ok [])
    None (mkRangedIndex ∅ [] []) None None None (λ _ _ _ _, f64_zero) (λ _, []) [] [""] (λ l, l) false.

Lemma roles_share_queues_witness :
  let name := resolveRoleAgentName "team" helper in
  let url := roleQueueURL "redis://queue" "" sample_team "helper" in
  name = "team-helper" ∧ url = "redis://queue?stream=ns.team.helper" ∧
  ∃ a, agents wired_api !! name = Some a ∧ annotation (agent_Annotations a) AnnotationTeamQueueURL = url ∧
    resolveStepQueue wired_env "ns" "team" name "helper" = openQueueURL wired_env url.
Proof.
  split; [done|]. split; [done|]. destruct wired_ok as [statuses E].
  destruct (agents wired_api !! resolveRoleAgentName "team" helper) as [a|] eqn:Ea; [|by vm_compute in Ea].
  exists a. split; [done|].
  destruct (roles_share_queues works "redis://queue" "" wired_env sample_team empty_api statuses wired_api helper a)
    as (role' & _ & _ & Hown & Hq & Hs); [by intros [|c b] k v [= H]|done|exact E|done..|by right; left|by right|exact Ea|].
  rewrite (Hown sample_agents_NoDup) in Hq. split; [exact Hq|]. rewrite Hq in Hs. exact Hs.
Defined.



Lemma stale_storage_stays_witness :
  let ann : gmap string string := {[AnnotationTeamArtifactStore := "file:///artifacts"]} in
  annotated (wiring "redis://queue" "" sample_team helper "" ++ storage sample_team) ann = false ∧
  annotate "redis://queue" "" sample_team helper "" ann !! AnnotationTeamArtifactStore = Some "file:///artifacts".
Proof. by apply (stale_storage_stays "redis://queue" "" sample_team helper "" _ "file:///artifacts"). Defined.

Definition piped_team : SwarmTeam := plain_team [plain_role "a"] [plain_step "a" []].
Definition piped_pass :=
  Reconcile works "redis://queue" "" keys_of (Found piped_team) 1000 history [] empty_api.

Lemma Reconcile_mirrors_witness :
  ∃ t, stored_team piped_pass.2 = Some t ∧ mirrors t (team_runs piped_team history) ∧ ready t ∧
       team_ObservedGeneration (team_Status t) = 1.
Proof.
  apply (Reconcile_mirrors (ConditionLaws0 := list_conditions_laws) works "redis://queue" "" keys_of piped_team 1000
    history [] empty_api None).
  - done.
  - right. split; [done|]. intros e He. by vm_compute in He.
  - by vm_compute.
Defined.

Lemma dynamic_team_ignores_runs_witness :
  kept sample_team empty_api (Reconcile works "redis://queue" "" keys_of (Found sample_team) 1000 history [] empty_api).2.
Proof. by apply (dynamic_team_ignores_runs works "redis://queue" "" keys_of sample_team). Defined.
