(* ===== verification/Wire.v ===== *)
(** * Wire: encoding/json of structs.

    The operator writes parts of an agent's configuration as JSON into the environment of its
    pod, and the pod reads them back.  The text of a JSON value belongs to encoding/json and is an
    interface; how a struct becomes an object by the tags of its fields, and how an object is
    stored into a struct, is modelled here, so that a field whose tags differ on the two sides is
    lost as it is in the code.

    A struct is a list of tagged fields, [None] for a field that [omitempty] leaves out.  A nil
    slice and an empty one are not distinguished: both are written as [null]. *)
From Stdlib Require Import ZArith Lia Ascii.
From stdpp Require Import base tactics option list numbers strings gmap countable.
From S2P Require Import Prelude GoStd.

(** A number with a fraction or an exponent is kept as its text. *)
Inductive json :=
| JNull
| JBool (b : bool)
| JInt (z : Z)
| JFloat (literal : string)
| JString (s : string)
| JArray (l : list json)
| JObject (m : list (string * json)).

(** ** The text *)
Class JsonText := {
  json_text : json → string;
  json_parse : string → option json;
  valid_utf8 : string → bool;
  valid_float : string → bool }.

(** Text that survives: Marshal replaces bytes that are not UTF-8. *)
Fixpoint writable `{JsonText} (j : json) : bool :=
  match j with
  | JNull | JBool _ | JInt _ => true
  | JFloat literal => valid_float literal
  | JString s => valid_utf8 s
  | JArray l => forallb writable l
  | JObject m => forallb (λ kv, valid_utf8 kv.1 && writable kv.2) m
  end.

(** Documented behaviour: Unmarshal reads what Marshal writes, which is never empty; ASCII is
    UTF-8. *)
Class JsonTextLaws (T : JsonText) : Prop := {
  json_roundtrip : ∀ j, writable j = true → json_parse (json_text j) = Some j;
  json_text_nonempty : ∀ j, json_text j ≠ "";
  ascii_utf8 : ∀ s, is_ascii s = true → valid_utf8 s = true }.

(** ** Encoding *)
Definition field := (string * option json)%type.

Definition struct_json (fields : list field) : json :=
  JObject (omap (λ f, pair f.1 <$> f.2) fields).

Definition omit_string (s : string) : option json := if decide (s = "") then None else Some (JString s).
Definition omit_int (z : Z) : option json := if decide (z = 0) then None else Some (JInt z).
Definition omit_bool (b : bool) : option json := if b then Some (JBool true) else None.
Definition strings_json (l : list string) : json :=
  match l with [] => JNull | _ => JArray (JString <$> l) end.
Definition omit_strings (l : list string) : option json :=
  match l with [] => None | _ => Some (JArray (JString <$> l)) end.
Definition list_json {A} (enc : A → json) (l : list A) : json :=
  match l with [] => JNull | _ => JArray (enc <$> l) end.

(** ** Decoding *)
Section decoding.
Context `{FoldApi}.

(** The field a member is stored into: the one with its name, or with its name in another case. *)
Definition resolve_tag (tags : list string) (key : string) : option string :=
  if decide (key ∈ tags) then Some key
  else snd <$> list_find (λ t, Is_true (strings_EqualFold t key)) tags.

(** The value stored into a field: null stores nothing, and of several members the last counts. *)
Definition store_member (tags : list string) (tag : string) (acc : option json) (kv : string * json)
    : option json :=
  if decide (resolve_tag tags kv.1 = Some tag)
  then match kv.2 with JNull => acc | v => Some v end
  else acc.

Definition get_member (tags : list string) (m : list (string * json)) (tag : string) : option json :=
  foldl (store_member tags tag) None m.

(** A value of the wrong type is an error. *)
Definition as_string (o : option json) : option string :=
  match o with None | Some JNull => Some "" | Some (JString s) => Some s | _ => None end.
Definition as_bool (o : option json) : option bool :=
  match o with None | Some JNull => Some false | Some (JBool b) => Some b | _ => None end.
Definition as_int (width : Z) (o : option json) : option Z :=
  match o with
  | None | Some JNull => Some 0
  | Some (JInt z) => if in_width_b width z then Some z else None
  | _ => None
  end.
Definition as_list {A} (dec : json → option A) (o : option json) : option (list A) :=
  match o with None | Some JNull => Some [] | Some (JArray l) => mapM dec l | _ => None end.
Definition as_strings : option json → option (list string) := as_list (λ j, as_string (Some j)).
Definition as_pointer {A} (dec : json → option A) (o : option json) : option (option A) :=
  match o with None | Some JNull => Some None | Some j => Some <$> dec j end.
Definition as_string_map (j : json) : option (gmap string string) :=
  match j with
  | JNull => Some ∅
  | JObject m => foldl (λ acc kv, acc ← acc; v ← as_string (Some kv.2); Some (<[kv.1 := v]> acc)) (Some ∅) m
  | _ => None
  end.

(** A struct with these tags; null leaves the zero value. *)
Definition as_struct {A} (tags : list string) (dec : (string → option json) → option A) (j : json)
    : option A :=
  match j with
  | JNull => dec (λ _, None)
  | JObject m => dec (get_member tags m)
  | _ => None
  end.
End decoding.

(** Documented behaviour of case folding on ASCII text. *)
Class FoldLaws (F : FoldApi) : Prop :=
  fold_ascii : ∀ s t, is_ascii s = true → is_ascii t = true →
    strings_EqualFold s t = String.eqb (ToLower s) (ToLower t).

(** ** What is read back *)
Definition non_null (o : option json) : option json := match o with Some JNull => None | _ => o end.

Fixpoint find_field (fields : list field) (tag : string) : option json :=
  match fields with
  | [] => None
  | (k, o) :: rest => if decide (k = tag) then non_null o else find_field rest tag
  end.

Section reading.
Context `{F : FoldApi}.

(** None of these members is taken for a field of another name. *)
Definition no_confusion (tags : list string) (fields : list field) : Prop :=
  ∀ f, f ∈ fields.*1 → f ∉ tags → resolve_tag tags f = None.

Lemma find_field_absent fields tag : tag ∉ fields.*1 → find_field fields tag = None.
Proof.
  induction fields as [|[k o] fields IH]; simpl; [done|].
  intros Hk. case_decide; [set_solver|]. apply IH. set_solver.
Qed.

Lemma store_fields tags fields tag acc :
  NoDup fields.*1 → no_confusion tags fields → tag ∈ tags →
  foldl (store_member tags tag) acc (omap (λ f, pair f.1 <$> f.2) fields) =
    match find_field fields tag with Some v => Some v | None => acc end.
Proof.
  intros Hd Hc Ht. revert acc. induction fields as [|[k o] fields IH]; intros acc; [done|].
  simpl in Hd. inversion Hd as [|x l Hk Hd']; subst x l.
  assert (Hc' : no_confusion tags fields) by (intros f Hf; apply Hc; simpl; set_solver).
  specialize (IH Hd' Hc'). simpl. destruct o as [v|]; simpl.
  - rewrite IH. unfold store_member. simpl.
    destruct (decide (k = tag)) as [->|Hne].
    + rewrite (find_field_absent fields tag Hk). unfold resolve_tag.
      rewrite (decide_True (P := tag ∈ tags)) by done.
      rewrite decide_True by done. by destruct v.
    + rewrite (decide_False (P := resolve_tag tags k = Some tag)); [done|].
      intros E. destruct (decide (k ∈ tags)) as [Hin|Hout].
      * unfold resolve_tag in E. rewrite decide_True in E by done. congruence.
      * specialize (Hc k ltac:(simpl; set_solver) Hout). congruence.
  - rewrite IH. case_decide; [subst|done]. by rewrite find_field_absent.
Qed.

Lemma get_member_fields tags fields tag :
  NoDup fields.*1 → no_confusion tags fields → tag ∈ tags →
  get_member tags (omap (λ f, pair f.1 <$> f.2) fields) tag = find_field fields tag.
Proof.
  intros Hd Hc Ht. unfold get_member. rewrite store_fields by done. by destruct (find_field fields tag).
Qed.

(** A decoder that reads nothing but these fields. *)
Definition reads_only {A} (tags : list string) (dec : (string → option json) → option A) : Prop :=
  ∀ get get', (∀ t, t ∈ tags → get t = get' t) → dec get = dec get'.

(** Reading a struct back into one with the same tags, or with some others. *)
Lemma as_struct_fields {A} tags (dec : (string → option json) → option A) fields :
  NoDup fields.*1 → no_confusion tags fields → reads_only tags dec →
  as_struct tags dec (struct_json fields) = dec (find_field fields).
Proof. intros Hd Hc Hr. apply Hr. intros t Ht. by apply get_member_fields. Qed.

Lemma same_tags tags fields : fields.*1 ⊆ tags → no_confusion tags fields.
Proof. intros Hs f Hf Hn. by destruct Hn; apply Hs. Qed.

Lemma ascii_confusion `{!FoldLaws F} tags fields :
  Forall (λ t, is_ascii t = true) tags →
  Forall (λ f, f ∈ tags ∨ is_ascii f = true ∧ Forall (λ t, ToLower t ≠ ToLower f) tags) fields.*1 →
  no_confusion tags fields.
Proof.
  intros Ha Hf f Hin Hout. rewrite Forall_forall in Hf.
  destruct (Hf f (proj1 (list_elem_of_In _ _) Hin)) as [|[Hfa Hlow]]; [done|].
  unfold resolve_tag. rewrite decide_False by done.
  destruct (list_find _ tags) as [[i t]|] eqn:E; [|done]. exfalso.
  apply list_find_Some in E as (Ht & Hfold & _). apply list_elem_of_lookup_2, list_elem_of_In in Ht.
  rewrite Forall_forall in Ha, Hlow. rewrite fold_ascii in Hfold by auto.
  apply Is_true_eq_true, String.eqb_eq in Hfold. by apply (Hlow t).
Qed.
End reading.

Lemma as_string_omit s : as_string (non_null (omit_string s)) = Some s.
Proof. unfold omit_string. by case_decide; subst. Qed.
Lemma as_string_always s : as_string (non_null (Some (JString s))) = Some s.
Proof. done. Qed.
Lemma as_bool_omit b : as_bool (non_null (omit_bool b)) = Some b.
Proof. by destruct b. Qed.
Lemma as_bool_always b : as_bool (non_null (Some (JBool b))) = Some b.
Proof. done. Qed.
Lemma as_int_always w z : in_width_b w z = true → as_int w (non_null (Some (JInt z))) = Some z.
Proof. simpl. by intros ->. Qed.
Lemma as_int_omit w z : in_width_b w z = true → as_int w (non_null (omit_int z)) = Some z.
Proof. unfold omit_int. intros Hw. case_decide; subst; simpl; by rewrite ?Hw. Qed.

Lemma mapM_json {A B} (enc : A → json) (dec : json → option B) (f : A → B) l :
  (∀ x, x ∈ l → dec (enc x) = Some (f x)) → mapM dec (enc <$> l) = Some (f <$> l).
Proof.
  induction l as [|x l IH]; intros Hx; [done|].
  change (mapM dec (enc <$> x :: l)) with (y ← dec (enc x); ys ← mapM dec (enc <$> l); Some (y :: ys)).
  rewrite (Hx x), IH by set_solver. done.
Qed.
Lemma as_list_json {A B} (enc : A → json) (dec : json → option B) (f : A → B) l :
  (∀ x, x ∈ l → dec (enc x) = Some (f x)) →
  as_list dec (non_null (Some (list_json enc l))) = Some (f <$> l).
Proof. intros Hx. unfold list_json. destruct l as [|x l]; [done|]. by apply (mapM_json enc dec f). Qed.
Lemma as_strings_always l : as_strings (non_null (Some (strings_json l))) = Some l.
Proof.
  pose proof (as_list_json JString (λ j, as_string (Some j)) id l (λ _ _, eq_refl)) as E.
  by rewrite list_fmap_id in E.
Qed.
Lemma as_strings_omit l : as_strings (non_null (omit_strings l)) = Some l.
Proof. destruct l as [|s l]; [done|]. apply (as_strings_always (s :: l)). Qed.
Lemma as_pointer_some {A} (dec : json → option A) j :
  j ≠ JNull → as_pointer dec (non_null (Some j)) = Some <$> dec j.
Proof. by destruct j. Qed.
Lemma struct_not_null fields : struct_json fields ≠ JNull.
Proof. done. Qed.

(** Reading the fields of a struct that was just written. *)
Lemma find_field_eq k o rest : find_field ((k, o) :: rest) k = non_null o.
Proof. simpl. by rewrite decide_True. Qed.
Lemma find_field_ne k o rest t : bool_decide (k = t) = false → find_field ((k, o) :: rest) t = find_field rest t.
Proof. intros Hn%bool_decide_eq_false. simpl. by rewrite decide_False. Qed.

Create HintDb wire discriminated.
#[export] Hint Rewrite as_string_omit as_string_always as_bool_omit as_bool_always as_strings_always
  as_strings_omit : wire.
#[export] Hint Rewrite as_int_always as_int_omit using assumption : wire.

Ltac find_fields :=
  repeat first [rewrite find_field_eq | rewrite find_field_ne by (vm_compute; reflexivity)].

(** A struct read back: its tags differ and are those of the reader, which reads nothing else. *)
Ltac read_back :=
  rewrite as_struct_fields;
  [ find_fields; autorewrite with wire; simpl
  | apply (bool_decide_unpack _); vm_compute; exact I
  | apply same_tags; simpl; set_solver
  | intros get get' Hg;
    repeat match goal with |- context[get ?t] => rewrite (Hg t) by (apply (bool_decide_unpack _); vm_compute; exact I) end;
    reflexivity ].

(** ** A concrete text: the binary code of a value *)
Section json_induction.
Variable P : json → Prop.
Hypothesis Hnull : P JNull.
Hypothesis Hbool : ∀ b, P (JBool b).
Hypothesis Hint : ∀ z, P (JInt z).
Hypothesis Hfloat : ∀ s, P (JFloat s).
Hypothesis Hstring : ∀ s, P (JString s).
Hypothesis Harray : ∀ l, Forall P l → P (JArray l).
Hypothesis Hobject : ∀ m, Forall P m.*2 → P (JObject m).

Fixpoint json_rect' (j : json) : P j :=
  match j with
  | JNull => Hnull
  | JBool b => Hbool b
  | JInt z => Hint z
  | JFloat s => Hfloat s
  | JString s => Hstring s
  | JArray l => Harray l ((fix go l := match l return Forall P l with
                                       | [] => Forall_nil_2 P
                                       | j :: l => Forall_cons_2 P j l (json_rect' j) (go l)
                                       end) l)
  | JObject m => Hobject m ((fix go m := match m return Forall P m.*2 with
                                         | [] => Forall_nil_2 P
                                         | kv :: m => Forall_cons_2 P kv.2 m.*2 (json_rect' kv.2) (go m)
                                         end) m)
  end.
End json_induction.

Fixpoint json_tree (j : json) : gen_tree (string + Z) :=
  match j with
  | JNull => GenNode 0 []
  | JBool b => GenNode (if b then 1 else 2) []
  | JInt z => GenLeaf (inr z)
  | JFloat s => GenNode 3 [GenLeaf (inl s)]
  | JString s => GenLeaf (inl s)
  | JArray l => GenNode 4 (map json_tree l)
  | JObject m => GenNode 5 (map (λ kv, GenNode 6 [GenLeaf (inl kv.1); json_tree kv.2]) m)
  end.

Fixpoint tree_json (t : gen_tree (string + Z)) : json :=
  match t with
  | GenLeaf (inr z) => JInt z
  | GenLeaf (inl s) => JString s
  | GenNode 1 _ => JBool true
  | GenNode 2 _ => JBool false
  | GenNode 3 [GenLeaf (inl s)] => JFloat s
  | GenNode 4 l => JArray (map tree_json l)
  | GenNode 5 l => JObject (map (λ t, match t with
                                      | GenNode _ [GenLeaf (inl k); v] => (k, tree_json v)
                                      | _ => ("", JNull)
                                      end) l)
  | _ => JNull
  end.

Lemma tree_json_tree j : tree_json (json_tree j) = j.
Proof.
  induction j as [|b| | | |l IH|m IH] using json_rect'; try done; [by destruct b| |].
  - simpl. f_equal. induction IH as [|j l Hj Hl IHl]; [done|]. simpl. by rewrite Hj, IHl.
  - simpl. f_equal. induction m as [|[k v] m IHm]; [done|]. simpl in *.
    inversion IH as [|x y Hv Hm]; subst x y. by rewrite Hv, IHm.
Qed.

Fixpoint bits (p : positive) : string :=
  match p with xH => "." | xO p => String "0" (bits p) | xI p => String "1" (bits p) end.
Fixpoint read_bits (s : string) : option positive :=
  match s with
  | String "." _ => Some xH
  | String "0" s => xO <$> read_bits s
  | String "1" s => xI <$> read_bits s
  | _ => None
  end.
Lemma read_bits_bits p : read_bits (bits p) = Some p.
Proof. induction p as [p IH|p IH|]; simpl; by rewrite ?IH. Qed.

Definition toy_json_text : JsonText := {|
  json_text j := bits (encode (json_tree j));
  json_parse s := p ← read_bits s; t ← decode p; Some (tree_json t);
  valid_utf8 := is_ascii;
  valid_float _ := false |}.

Lemma toy_json_text_laws : JsonTextLaws toy_json_text.
Proof.
  split; simpl; [|intros j; by destruct (encode (json_tree j))|done].
  intros j _. rewrite read_bits_bits. simpl. rewrite decode_encode. simpl. by rewrite tree_json_tree.
Qed.

(** Case folding of ASCII. *)
Definition toy_fold_case : FoldApi := λ s t, String.eqb (ToLower s) (ToLower t).
Lemma toy_fold_case_laws : FoldLaws toy_fold_case.
Proof. by intros s t. Qed.
