(* ===== verification/ConfigWire.v ===== *)
(** * ConfigWire: how the runtime reads the JSON variables of its environment
    (the struct tags of pkg/agent/config/config.go).

    One decoder per configuration struct; together they are the instance [wire_config] of the
    interface [ConfigJson] that [Load] is written against.  [int] has 64 bits. *)
From Stdlib Require Import ZArith Lia Ascii.
From stdpp Require Import base tactics option list numbers strings gmap.
From S2P Require Import Prelude GoStd Config Wire.

Section decoders.
Context `{JsonText} `{FoldApi}.

Definition discovery_tags := ["dynamic"; "pollIntervalSeconds"].
Definition read_discovery (get : string → option json) : option MCPDiscoveryConfigRuntime :=
  dynamic ← as_bool (get "dynamic");
  poll ← as_int 64 (get "pollIntervalSeconds");
  Some (mkMCPDiscovery dynamic poll).

Definition mcp_tags := ["name"; "url"; "authType"; "tokenEnvVar"; "certFile"; "keyFile"; "discovery"].
Definition read_mcp (get : string → option json) : option MCPServerConfig :=
  name ← as_string (get "name");
  url ← as_string (get "url");
  authType ← as_string (get "authType");
  token ← as_string (get "tokenEnvVar");
  cert ← as_string (get "certFile");
  key ← as_string (get "keyFile");
  discovery ← as_pointer (as_struct discovery_tags read_discovery) (get "discovery");
  Some (mkMCPServerConfig name url authType token cert key discovery).

Definition webhook_tags := ["name"; "description"; "url"; "method"; "inputSchema"].
Definition read_webhook (get : string → option json) : option WebhookToolConfig :=
  name ← as_string (get "name");
  description ← as_string (get "description");
  url ← as_string (get "url");
  method ← as_string (get "method");
  schema ← as_string (get "inputSchema");
  Some (mkWebhookToolConfig name description url method schema).

Definition compression_tags :=
  ["thresholdPercent"; "preserveRecentTurns"; "contextWindow"; "model"; "timeoutSeconds"; "instructions"].
Definition read_compression (get : string → option json) : option LoopCompressionConfig :=
  threshold ← as_int 32 (get "thresholdPercent");
  recent ← as_int 64 (get "preserveRecentTurns");
  window ← as_int 64 (get "contextWindow");
  model ← as_string (get "model");
  timeout ← as_int 64 (get "timeoutSeconds");
  instructions ← as_string (get "instructions");
  Some (mkLoopCompressionConfig threshold recent window model timeout instructions).

Definition memory_tags := ["store"; "retrieve"; "topK"; "minSimilarityPercent"; "summaryTokens"; "maxTokens";
  "embeddingModel"; "embeddingProvider"].
Definition read_memory (get : string → option json) : option LoopMemoryConfig :=
  store ← as_bool (get "store");
  retrieve ← as_bool (get "retrieve");
  topK ← as_int 64 (get "topK");
  similarity ← as_int 32 (get "minSimilarityPercent");
  summary ← as_int 64 (get "summaryTokens");
  tokens ← as_int 64 (get "maxTokens");
  model ← as_string (get "embeddingModel");
  provider ← as_string (get "embeddingProvider");
  Some (mkLoopMemoryConfig store retrieve topK similarity summary tokens model provider).

Definition sandbox_tags := ["thresholdBytes"; "previewBytes"; "maxTotalBytes"].
Definition read_sandbox (get : string → option json) : option LoopSandboxConfig :=
  threshold ← as_int 32 (get "thresholdBytes");
  preview ← as_int 32 (get "previewBytes");
  total ← as_int 32 (get "maxTotalBytes");
  Some (mkLoopSandboxConfig threshold preview total).

Definition loop_tags := ["dedup"; "compression"; "memory"; "sandbox"].
Definition read_loop (get : string → option json) : option LoopPolicyConfig :=
  dedup ← as_bool (get "dedup");
  compression ← as_pointer (as_struct compression_tags read_compression) (get "compression");
  memory ← as_pointer (as_struct memory_tags read_memory) (get "memory");
  sandbox ← as_pointer (as_struct sandbox_tags read_sandbox) (get "sandbox");
  Some (mkLoopPolicyConfig dedup compression memory sandbox).

Definition audit_tags := ["mode"; "sink"; "maxDetailBytes"; "redact"; "excludeActions"; "redisURL";
  "maxStreamLen"; "webhookURL"].
Definition read_audit (get : string → option json) : option AuditLogConfig :=
  mode ← as_string (get "mode");
  sink ← as_string (get "sink");
  detail ← as_int 64 (get "maxDetailBytes");
  redact ← as_strings (get "redact");
  exclude ← as_strings (get "excludeActions");
  redis ← as_string (get "redisURL");
  stream ← as_int 64 (get "maxStreamLen");
  webhook ← as_string (get "webhookURL");
  Some (mkAuditLogConfig mode sink detail redact exclude redis stream webhook).

Definition advisor_tags := ["name"; "toolName"; "agentRef"; "recentMessages"; "maxCallsPerTask";
  "timeoutSeconds"; "maxAdvisorTokensPerTask"; "maxContextBytes"; "excludeSystemPrompt"; "instructions"].
Definition read_advisor (get : string → option json) : option AdvisorConfig :=
  name ← as_string (get "name");
  tool ← as_string (get "toolName");
  agent ← as_string (get "agentRef");
  recent ← as_int 32 (get "recentMessages");
  calls ← as_int 32 (get "maxCallsPerTask");
  timeout ← as_int 32 (get "timeoutSeconds");
  tokens ← as_int 32 (get "maxAdvisorTokensPerTask");
  context ← as_int 32 (get "maxContextBytes");
  exclude ← as_bool (get "excludeSystemPrompt");
  instructions ← as_string (get "instructions");
  Some (mkAdvisorConfig name tool agent recent calls timeout tokens context exclude instructions).

Definition capability_tags := ["name"; "description"; "agent"; "namespace"; "tags"; "readyReplicas"].
Definition read_capability (get : string → option json) : option GatewayCapabilityConfig :=
  name ← as_string (get "name");
  description ← as_string (get "description");
  agent ← as_string (get "agent");
  namespace ← as_string (get "namespace");
  tags ← as_strings (get "tags");
  ready ← as_int 32 (get "readyReplicas");
  Some (mkGatewayCapabilityConfig name description agent namespace tags ready).

Definition gateway_tags := ["dispatchMode"; "dispatchTimeoutSeconds"; "maxDispatchDepth";
  "maxResultsPerSearch"; "maxDispatchCalls"; "maxSearchCalls"; "fallbackMode"; "fallbackAgent"; "allowedTargets"].
Definition read_gateway (get : string → option json) : option GatewayRuntimeConfig :=
  mode ← as_string (get "dispatchMode");
  timeout ← as_int 32 (get "dispatchTimeoutSeconds");
  depth ← as_int 32 (get "maxDispatchDepth");
  results ← as_int 32 (get "maxResultsPerSearch");
  calls ← as_int 32 (get "maxDispatchCalls");
  searches ← as_int 32 (get "maxSearchCalls");
  fallback ← as_string (get "fallbackMode");
  agent ← as_string (get "fallbackAgent");
  targets ← as_strings (get "allowedTargets");
  Some (mkGatewayRuntimeConfig mode timeout depth results calls searches fallback agent targets).

Definition gateway_tool_tags := ["name"; "description"].
Definition read_gateway_tool (get : string → option json) : option GatewayToolConfig :=
  name ← as_string (get "name");
  description ← as_string (get "description");
  Some (mkGatewayToolConfig name description).

Definition breaker_tags := ["failureThreshold"; "cooldownSeconds"; "halfOpenMaxCalls"].
Definition read_breaker (get : string → option json) : option CircuitBreakerConfig :=
  failures ← as_int 64 (get "failureThreshold");
  cooldown ← as_int 64 (get "cooldownSeconds");
  calls ← as_int 64 (get "halfOpenMaxCalls");
  Some (mkCircuitBreakerConfig failures cooldown calls).

Definition read_list {A} (tags : list string) (read : (string → option json) → option A) (text : string)
    : option (list A) :=
  j ← json_parse text; as_list (as_struct tags read) (Some j).

Definition wire_config : ConfigJson := {|
  unmarshal_mcp := read_list mcp_tags read_mcp;
  unmarshal_webhooks := read_list webhook_tags read_webhook;
  unmarshal_routes text := j ← json_parse text; as_string_map j;
  unmarshal_strings text := j ← json_parse text; as_strings (Some j);
  unmarshal_loop text := j ← json_parse text; as_struct loop_tags read_loop j;
  unmarshal_audit text := j ← json_parse text; as_struct audit_tags read_audit j;
  unmarshal_advisors := read_list advisor_tags read_advisor;
  unmarshal_capabilities := read_list capability_tags read_capability;
  unmarshal_gateway text := j ← json_parse text; as_struct gateway_tags read_gateway j;
  unmarshal_gateway_tools := read_list gateway_tool_tags read_gateway_tool;
  unmarshal_breaker text := j ← json_parse text; as_struct breaker_tags read_breaker j |}.
End decoders.
