(* ===== verification/AgentEnv.v ===== *)
(** * AgentEnv: what an agent's pod is given (internal/controller/swarmagent_controller.go,
    reasoning_cascade.go, swarmagent_advisor.go, swarmagent_gateway.go).

    The environment variables, the volumes and the system prompt the operator builds for an
    agent.  The environment of the operator itself is an argument; its variables have different
    names, as the Go runtime makes sure. *)
From Stdlib Require Import ZArith Lia Ascii.
From stdpp Require Import base tactics option list numbers strings gmap.
From S2P Require Import Prelude GoStd Config Types AgentTypes Kube Template Policy Runtime Webhooks Team Wire.

(** [corev1.EnvVar]: a value, or where to take it from. *)
Inductive EnvVarSource := SecretKeyRef (k : KeySelector) | FieldRef (path : string).

Record EnvVar := mkEnvVar {
  env_Name : string;
  env_Value : string;
  env_ValueFrom : option EnvVarSource }.

Definition env_value (name value : string) : EnvVar := mkEnvVar name value None.
Definition env_secret (name secret key : string) : EnvVar :=
  mkEnvVar name "" (Some (SecretKeyRef (mkKeySelector secret key))).
Definition env_flag (name : string) (b : bool) : list EnvVar :=
  if b then [env_value name "true"] else [].
Definition env_nonempty (name value : string) : list EnvVar :=
  if decide (value = "") then [] else [env_value name value].

(** ** The strings of enumerations *)
Definition backend_string (b : MemoryBackend) : string :=
  match b with
  | MemoryBackendUnset => "" | MemoryBackendInContext => "in-context"
  | MemoryBackendVectorStore => "vector-store" | MemoryBackendRedis => "redis"
  end.
Definition vector_provider_string (p : VectorStoreProvider) : string :=
  match p with
  | VectorStoreProviderUnset => "" | VectorStoreProviderQdrant => "qdrant"
  | VectorStoreProviderPgvector => "pgvector"
  end.
Definition log_level_string (l : LogLevel) : string :=
  match l with
  | LogLevelUnset => "" | LogLevelDebug => "debug" | LogLevelInfo => "info" | LogLevelWarn => "warn"
  | LogLevelError => "error"
  end.
Definition reasoning_mode_string (m : ReasoningMode) : string :=
  match m with
  | ReasoningModeUnset => "" | ReasoningDisabled => "Disabled" | ReasoningAuto => "Auto"
  | ReasoningExplicit => "Explicit"
  end.
Definition reasoning_effort_string (e : ReasoningEffort) : string :=
  match e with
  | ReasoningEffortUnset => "" | ReasoningEffortLow => "Low" | ReasoningEffortMedium => "Medium"
  | ReasoningEffortHigh => "High"
  end.
Definition artifact_format_string (f : ArtifactFormat) : string :=
  match f with
  | ArtifactFormatUnset => "" | ArtifactFormatText => "text" | ArtifactFormatJSON => "json"
  | ArtifactFormatMarkdown => "markdown" | ArtifactFormatYAML => "yaml"
  end.
Definition audit_mode_string (m : AuditLogMode) : string :=
  match m with
  | AuditLogModeUnset => "" | AuditLogModeOff => "off" | AuditLogModeActions => "actions"
  | AuditLogModeVerbose => "verbose"
  end.
Definition dispatch_mode_string (m : GatewayDispatchMode) : string :=
  match m with
  | DispatchModeUnset => "" | GatewayDispatchEnabled => "enabled" | GatewayDispatchDisabled => "disabled"
  end.
Definition fallback_mode_string (m : GatewayFallbackMode) : string :=
  match m with
  | FallbackModeUnset => "" | GatewayFallbackFail => "fail"
  | GatewayFallbackAnswerDirectly => "answer-directly" | GatewayFallbackAgent => "agent"
  end.

(** ** The environment of the operator *)
Fixpoint environ_lookup (environ : list string) (key : string) : string :=
  match environ with
  | [] => ""
  | kv :: rest =>
      match index_byte kv "=" with
      | Some i => if decide (str_take i kv = key) then str_drop (S i) kv else environ_lookup rest key
      | None => environ_lookup rest key
      end
  end.

Definition inject_prefix := "SWARM_AGENT_INJECT_".

(** [agentInjectEnvVars]: the operator's variables with the prefix, for every agent. *)
Definition agentInjectEnvVars (environ : list string) : list EnvVar :=
  omap (λ kv, if HasPrefix kv inject_prefix
              then match index_byte kv "=" with
                   | Some i => Some (env_value (str_drop (String.length inject_prefix) (str_take i kv))
                                       (str_drop (S i) kv))
                   | None => None
                   end
              else None) environ.

(** [cachedInjectQueueURL] *)
Definition inject_queue_url (environ : list string) : string :=
  environ_lookup environ "SWARM_AGENT_INJECT_TASK_QUEUE_URL".

(** ** MCP servers

    The names of servers come from JSON, so that they are UTF-8: a rune that is not ASCII starts
    with a byte from C0, and its other bytes are below that. *)
Definition is_upper (c : ascii) : bool := (65 <=? N_of_ascii c)%N && (N_of_ascii c <=? 90)%N.
Definition is_decimal (c : ascii) : bool := (48 <=? N_of_ascii c)%N && (N_of_ascii c <=? 57)%N.

(** [strings.Map] that keeps some ASCII runes and replaces every other rune. *)
Fixpoint sanitizeMCPName (serverName : string) (allowed : ascii → bool) (replacement : ascii) : string :=
  match serverName with
  | "" => ""
  | String c rest =>
      let rest := sanitizeMCPName rest allowed replacement in
      if (N_of_ascii c <? 128)%N then String (if allowed c then c else replacement) rest
      else if (192 <=? N_of_ascii c)%N then String replacement rest
      else rest
  end.

Definition mcpTokenEnvVar (serverName : string) : string :=
  "AGENT_MCP_TOKEN_" +:+
  ToUpper (sanitizeMCPName serverName (λ c, is_upper c || is_lower c || is_decimal c) "_").

Definition mcpVolumeName (serverName : string) : string :=
  "mcp-mtls-" +:+
  ToLower (sanitizeMCPName serverName (λ c, if is_upper c then false
                                            else is_lower c || is_decimal c || Ascii.eqb c "-") "-").

Definition mcpMountPath (serverName : string) : string :=
  "/var/secrets/mcp/" +:+
  sanitizeMCPName serverName
    (λ c, is_lower c || is_upper c || is_decimal c || Ascii.eqb c "-" || Ascii.eqb c "_") "-".

Record mcpServerRuntime := mkMcpServerRuntime {
  runtime_Name : string;
  runtime_URL : string;
  runtime_AuthType : string;
  runtime_TokenEnvVar : string;
  runtime_CertFile : string;
  runtime_KeyFile : string;
  runtime_Discovery : option MCPDiscoveryConfig }.

Definition buildMCPRuntimeConfig (s : MCPToolSpec) : mcpServerRuntime :=
  let '(auth, token, cert, key) :=
    match mcptool_Auth s with
    | Some a =>
        match auth_Bearer a, auth_MTLS a with
        | Some _, _ => ("bearer", mcpTokenEnvVar (mcptool_Name s), "", "")
        | None, Some _ => let mount := mcpMountPath (mcptool_Name s) in
                          ("mtls", "", mount +:+ "/tls.crt", mount +:+ "/tls.key")
        | None, None => ("", "", "", "")
        end
    | None => ("", "", "", "")
    end in
  mkMcpServerRuntime (mcptool_Name s) (mcptool_URL s) auth token cert key (mcptool_Discovery s).

Definition buildMCPRuntimeConfigs (servers : list MCPToolSpec) : list mcpServerRuntime :=
  buildMCPRuntimeConfig <$> servers.

Definition discovery_json (d : MCPDiscoveryConfig) : json := struct_json
  [("dynamic", omit_bool (discovery_Dynamic d));
   ("pollIntervalSeconds", omit_int (discovery_PollIntervalSeconds d))].

Definition mcp_json (r : mcpServerRuntime) : json := struct_json
  [("name", Some (JString (runtime_Name r)));
   ("url", Some (JString (runtime_URL r)));
   ("authType", omit_string (runtime_AuthType r));
   ("tokenEnvVar", omit_string (runtime_TokenEnvVar r));
   ("certFile", omit_string (runtime_CertFile r));
   ("keyFile", omit_string (runtime_KeyFile r));
   ("discovery", discovery_json <$> runtime_Discovery r)].

(** [make([]mcpServerRuntime, 0, n)]: never nil. *)
Definition mcp_servers_json (servers : list MCPToolSpec) : json :=
  JArray (mcp_json <$> buildMCPRuntimeConfigs servers).

Definition bearer_key (s : MCPToolSpec) : option KeySelector := a ← mcptool_Auth s; auth_Bearer a.
Definition mtls_secret (s : MCPToolSpec) : option string := a ← mcptool_Auth s; auth_MTLS a.

Definition buildMCPAuthEnvVars (servers : list MCPToolSpec) : list EnvVar :=
  omap (λ s, (λ k, mkEnvVar (mcpTokenEnvVar (mcptool_Name s)) "" (Some (SecretKeyRef k)))
               <$> bearer_key s) servers.

(** ** Volumes *)
Inductive VolumeSource := VolumeConfigMap (name : string) | VolumeSecret (name : string) (mode : Z)
  | VolumeClaim (name : string).
Record Volume := mkVolume { volume_Name : string; volume_Source : VolumeSource }.
Record VolumeMount := mkVolumeMount {
  mount_Name : string;
  MountPath : string;
  ReadOnly : bool }.

Definition buildMCPVolumes (servers : list MCPToolSpec) : list Volume :=
  omap (λ s, (λ secret, mkVolume (mcpVolumeName (mcptool_Name s)) (VolumeSecret secret 292)) <$> mtls_secret s)
    servers.

Definition buildMCPVolumeMounts (servers : list MCPToolSpec) : list VolumeMount :=
  omap (λ s, (λ _, mkVolumeMount (mcpVolumeName (mcptool_Name s)) (mcpMountPath (mcptool_Name s)) true)
               <$> mtls_secret s) servers.

Definition promptConfigMapKey := "system-prompt.txt".
Definition promptVolumeName := "system-prompt".
Definition promptMountPath := "/etc/swarm/prompt".
Definition promptFilePath := promptMountPath +:+ "/" +:+ promptConfigMapKey.
Definition artifactVolumeName := "swarm-artifacts".

(** The value of an annotation or a label, [""] when it is not set. *)
Definition agent_annotation (agent : SwarmAgent) (key : string) : string := default "" (agent_Annotations agent !! key).
Definition label (agent : SwarmAgent) (key : string) : string := default "" (agent_Labels agent !! key).

Definition buildVolumes (agent : SwarmAgent) (servers : list MCPToolSpec) : list Volume :=
  mkVolume promptVolumeName (VolumeConfigMap (agent_Name agent +:+ "-prompt")) :: buildMCPVolumes servers ++
  (let claim := agent_annotation agent AnnotationTeamArtifactClaim in
   if decide (claim = "") then [] else [mkVolume artifactVolumeName (VolumeClaim claim)]).

(** [strings.CutPrefix] *)
Definition CutPrefix (s pre : string) : option string :=
  if HasPrefix s pre then Some (str_drop (String.length pre) s) else None.

Definition buildVolumeMounts (agent : SwarmAgent) (servers : list MCPToolSpec) : list VolumeMount :=
  mkVolumeMount promptVolumeName promptMountPath true :: buildMCPVolumeMounts servers ++
  (let claim := agent_annotation agent AnnotationTeamArtifactClaim in
   if decide (claim = "") then []
   else
     let mountPath := agent_annotation agent AnnotationTeamArtifactStore in
     let mountPath := default mountPath (CutPrefix mountPath "file://") in
     let mountPath := if decide (mountPath = "") then "/artifacts" else mountPath in
     [mkVolumeMount artifactVolumeName mountPath false]).

(** ** The system prompt *)
Record frag := mkFrag { frag_text : string; frag_position : string }.

(** [fragByName] and [fragOrder]. *)
Definition addFrag (st : gmap string frag * list string) (name text position : string)
    : gmap string frag * list string :=
  let '(fragByName, fragOrder) := st in
  let fragOrder := if decide (is_Some (fragByName !! name)) then fragOrder else fragOrder ++ [name] in
  let position := if decide (position = "") then "append" else position in
  (<[name := mkFrag text position]> fragByName, fragOrder).

Definition add_settings (st : gmap string frag * list string) (s : SwarmSettings)
    : gmap string frag * list string :=
  match settings_Fragments s with
  | [] =>
      match settings_PromptFragments s with
      | Some pf =>
          let st := if decide (Persona pf = "") then st else addFrag st "__persona__" (Persona pf) "prepend" in
          if decide (OutputRules pf = "") then st
          else addFrag st "__output_rules__" (OutputRules pf) "append"
      | None => st
      end
  | fragments => foldl (λ st f, addFrag st (fragment_Name f) (fragment_Text f) (fragment_Position f)) st fragments
  end.

(** The texts that are not blank, at the front or at the back. *)
Definition composed (st : gmap string frag * list string) (front : bool) : list string :=
  omap (λ name, f ← st.1 !! name;
                if decide (TrimSpace (frag_text f) = "") then None
                else if decide (bool_decide (frag_position f = "prepend") = front) then Some (frag_text f)
                else None) st.2.

Definition blank_line := nl +:+ nl.

Definition mcp_guidance (servers : list MCPToolSpec) : list string :=
  omap (λ s, if decide (mcptool_Instructions s = "") then None
             else Some ("### " +:+ mcptool_Name s +:+ nl +:+ mcptool_Instructions s)) servers.

Definition assembleSystemPrompt (base : string) (allSettings : list SwarmSettings)
    (mcpServers : list MCPToolSpec) : string :=
  let st := foldl add_settings (∅, []) allSettings in
  let guidance := match mcp_guidance mcpServers with
                  | [] => []
                  | g => ["## MCP Tool Guidance" +:+ blank_line +:+ str_join blank_line g]
                  end in
  str_join blank_line
    (composed st true ++ (if decide (TrimSpace base = "") then [] else [base]) ++
     composed st false ++ guidance ++ [TrimSpace InjectionDefenceFragment]).

(** ** Settings and memory *)
Definition last_nonempty (l : list string) : string :=
  foldl (λ acc s, if decide (s = "") then acc else s) "" l.

Definition mergeSettingsEnvVars (allSettings : list SwarmSettings) : list EnvVar :=
  env_nonempty "AGENT_TEMPERATURE" (last_nonempty (Temperature <$> allSettings)) ++
  env_nonempty "AGENT_OUTPUT_FORMAT" (last_nonempty (OutputFormat <$> allSettings)) ++
  env_nonempty "AGENT_MEMORY_BACKEND"
    (last_nonempty (backend_string <$> (settings_MemoryBackend <$> allSettings))).

Definition env_positive (name : string) (n : Z) : list EnvVar :=
  if decide (0 < n) then [env_value name (itoa n)] else [].

Definition buildRedisMemoryEnvVars (mem : option RedisMemoryConfig) : list EnvVar :=
  match mem with
  | None => []
  | Some mem =>
      env_secret "AGENT_MEMORY_REDIS_URL" (redis_SecretRef mem) "REDIS_URL" ::
      env_positive "AGENT_MEMORY_REDIS_TTL" (redis_TTLSeconds mem) ++
      env_positive "AGENT_MEMORY_REDIS_MAX_ENTRIES" (MaxEntries mem)
  end.

Definition vectorStoreURL (vs : VectorStoreMemoryConfig) : string :=
  if decide (vs_Provider vs = VectorStoreProviderUnset ∨ vs_Endpoint vs = "") then ""
  else
    let host := match str_index (vs_Endpoint vs) "://" with
                | Some i => str_drop (i + 3) (vs_Endpoint vs)
                | None => vs_Endpoint vs
                end in
    let collection := if decide (vs_Collection vs = "") then "agent-memories" else vs_Collection vs in
    let scheme := match vs_Provider vs with
                  | VectorStoreProviderPgvector => "postgres"
                  | p => vector_provider_string p
                  end in
    scheme +:+ "://" +:+ host +:+ "/" +:+ collection.

Definition buildVectorStoreMemoryEnvVars (vs : option VectorStoreMemoryConfig) : list EnvVar :=
  match vs with
  | None => []
  | Some vs =>
      [env_value "AGENT_MEMORY_VECTOR_STORE_PROVIDER" (vector_provider_string (vs_Provider vs));
       env_value "AGENT_MEMORY_VECTOR_STORE_ENDPOINT" (vs_Endpoint vs);
       env_value "AGENT_MEMORY_VECTOR_STORE_COLLECTION" (vs_Collection vs)] ++
      match vs_SecretRef vs with
      | Some secret => [env_secret "AGENT_MEMORY_VECTOR_STORE_API_KEY" secret "VECTOR_STORE_API_KEY"]
      | None => []
      end ++
      env_positive "AGENT_MEMORY_VECTOR_STORE_TTL" (vs_TTLSeconds vs) ++
      env_nonempty "AGENT_VECTOR_STORE_URL" (vectorStoreURL vs)
  end.

(** [providers.DetectEmbedding] (pkg/agent/providers/provider.go). *)
Definition DetectEmbedding (model : string) : string :=
  if HasPrefix model "text-embedding-" then "openai"
  else if HasPrefix model "text-multilingual-embedding-" || HasPrefix model "text-embedding-004" then "google"
  else if HasPrefix model "voyage-" then "voyageai"
  else "openai".

Definition buildEmbeddingEnvVars (emb : option EmbeddingConfig) : list EnvVar :=
  match emb with
  | None => []
  | Some emb =>
      let provider := if decide (emb_Provider emb = "" ∨ emb_Provider emb = "auto")
                      then DetectEmbedding (emb_Model emb) else emb_Provider emb in
      env_nonempty "AGENT_EMBEDDING_MODEL" (emb_Model emb) ++
      env_nonempty "AGENT_EMBEDDING_PROVIDER" provider
  end.

Definition buildMemoryEnvVars (swarmMemory : option SwarmMemory) : list EnvVar :=
  match swarmMemory with
  | None => []
  | Some mem =>
      env_value "AGENT_MEMORY_BACKEND" (backend_string (Backend mem)) ::
      match Backend mem with
      | MemoryBackendRedis => buildRedisMemoryEnvVars (memory_Redis mem)
      | MemoryBackendVectorStore =>
          buildVectorStoreMemoryEnvVars (memory_VectorStore mem) ++ buildEmbeddingEnvVars (memory_Embedding mem)
      | _ => []
      end
  end.

(** ** Observability, reasoning, limits *)
Definition buildObservabilityEnvVars (agent : SwarmAgent) : list EnvVar :=
  match Observability (agent_Spec agent) with
  | None => []
  | Some obs =>
      match obs_HealthCheck obs with
      | Some hc => if decide (health_Type hc = HealthCheckSemantic)
                   then env_nonempty "AGENT_VALIDATOR_PROMPT" (health_Prompt hc) else []
      | None => []
      end ++
      match obs_Logging obs with
      | Some logging =>
          env_nonempty "AGENT_LOG_LEVEL" (log_level_string (logging_Level logging)) ++
          env_flag "AGENT_LOG_TOOL_CALLS" (logging_ToolCalls logging) ++
          env_flag "AGENT_LOG_LLM_TURNS" (logging_LLMTurns logging) ++
          match logging_Redaction logging with
          | Some r => env_flag "AGENT_LOG_REDACT_SECRETS" (redaction_Secrets r) ++
                      env_flag "AGENT_LOG_REDACT_PII" (redaction_PII r)
          | None => []
          end
      | None => []
      end
  end.

(** What one source of the reasoning cascade sets replaces what the earlier ones set. *)
Definition overlay_reasoning (out : ReasoningConfig) (cfg : option ReasoningConfig) : ReasoningConfig :=
  match cfg with
  | None => out
  | Some c => mkReasoningConfig
                (match reasoning_Mode c with ReasoningModeUnset => reasoning_Mode out | m => m end)
                (match reasoning_Effort c with ReasoningEffortUnset => reasoning_Effort out | e => e end)
                (match reasoning_BudgetTokens c with None => reasoning_BudgetTokens out | b => b end)
  end.

Definition no_reasoning : ReasoningConfig := mkReasoningConfig ReasoningModeUnset ReasoningEffortUnset None.

(** [hasAny] of the source: some field was set. *)
Definition mergeReasoningConfig (agentCfg : option ReasoningConfig) (allSettings : list SwarmSettings)
    : option ReasoningConfig :=
  let out := overlay_reasoning (foldl overlay_reasoning no_reasoning (settings_Reasoning <$> allSettings)) agentCfg in
  if decide (out = no_reasoning) then None else Some out.

Definition env_int (name : string) (n : option Z) : list EnvVar :=
  match n with Some n => [env_value name (itoa n)] | None => [] end.

Definition thinking_limits (agent : SwarmAgent) (ep : option EffectivePolicySpec) : option Z * option Z :=
  applyPolicyThinkingLimits (l ← agent_limits agent; agent_MaxThinkingTokensPerCall l)
    (l ← agent_limits agent; agent_MaxAnswerTokensPerCall l) ep.

Definition buildReasoningEnvVars (agent : SwarmAgent) (allSettings : list SwarmSettings)
    (effectivePolicy : option EffectivePolicySpec) : list EnvVar :=
  match mergeReasoningConfig (aspec_Reasoning (agent_Spec agent)) allSettings with
  | Some rc => env_nonempty "AGENT_REASONING_MODE" (reasoning_mode_string (reasoning_Mode rc)) ++
               env_nonempty "AGENT_REASONING_EFFORT" (reasoning_effort_string (reasoning_Effort rc)) ++
               env_int "AGENT_REASONING_BUDGET_TOKENS" (reasoning_BudgetTokens rc)
  | None => []
  end ++
  env_int "AGENT_MAX_THINKING_TOKENS_PER_CALL" (thinking_limits agent effectivePolicy).1 ++
  env_int "AGENT_MAX_ANSWER_TOKENS_PER_CALL" (thinking_limits agent effectivePolicy).2.

(** The numeric limits of [buildEnvVars]: defaults, the agent's own limits, the policy's. *)
Definition limit_or (n dflt : Z) : Z := if 0 <? n then n else dflt.

Definition effective_limits (agent : SwarmAgent) (ep : option EffectivePolicySpec) : Z * Z * Z * Z :=
  match agent_limits agent with
  | Some l => applyPolicyLimits (limit_or (TokensPerCall l) 8000) (limit_or (limits_TimeoutSeconds l) 120)
                (limit_or (Retries l) 3) (DailyTokens l) ep
  | None => applyPolicyLimits 8000 120 3 0 ep
  end.

(** ** Plugins and artifacts *)
Definition buildPluginEnvVars (agent : SwarmAgent) : list EnvVar :=
  match i ← Infrastructure (agent_Spec agent); infra_Plugins i with
  | None => []
  | Some plugins =>
      match plugins_LLM plugins with Some e => [env_value "SWARM_PLUGIN_LLM_ADDR" (plugin_Address e)] | None => [] end ++
      match plugins_Queue plugins with Some e => [env_value "SWARM_PLUGIN_QUEUE_ADDR" (plugin_Address e)] | None => [] end
  end.

Definition buildArtifactEnvVars (agent : SwarmAgent) : list EnvVar :=
  let storeURL := agent_annotation agent AnnotationTeamArtifactStore in
  if decide (storeURL = "") then []
  else
    let artifactDir := match CutPrefix storeURL "file://" with
                       | Some after => if decide (after = "") then "/tmp/swarm-artifacts" else after
                       | None => "/tmp/swarm-artifacts"
                       end in
    [env_value "AGENT_ARTIFACT_STORE_URL" storeURL; env_value "AGENT_ARTIFACT_DIR" artifactDir] ++
    match runtime_Artifacts (aspec_Runtime (agent_Spec agent)) with
    | Some a =>
        if artifacts_SaveOutput a
        then [env_value "AGENT_ARTIFACT_SAVE_OUTPUT" "true";
              env_value "AGENT_ARTIFACT_SAVE_FORMAT"
                (match artifacts_Format a with ArtifactFormatUnset => "text" | f => artifact_format_string f end)]
        else []
    | None => []
    end.

(** ** JSON values *)
Section json_values.
Context `{JsonText}.

Definition env_json (name : string) (j : json) : EnvVar := env_value name (json_text j).

(** The keys of a map are written in order. *)
Definition breaker_json (cb : CircuitBreakerSpec) : json := struct_json
  [("cooldownSeconds", Some (JInt (CooldownSeconds cb)));
   ("failureThreshold", Some (JInt (FailureThreshold cb)));
   ("halfOpenMaxCalls", Some (JInt (HalfOpenMaxCalls cb)))].

Definition buildCircuitBreakerEnvVars (agent : SwarmAgent) : list EnvVar :=
  match l ← agent_limits agent; limits_CircuitBreaker l with
  | Some cb => [env_json "AGENT_CIRCUIT_BREAKER" (breaker_json cb)]
  | None => []
  end.

(** The tags of WebhookToolSpec; a raw extension is written as it is, and it is an error when it
    is not JSON. *)
Definition webhook_json (w : WebhookToolSpec) : option json :=
  match hooktool_Schema w with
  | None => Some None
  | Some raw => Some <$> json_parse raw
  end ≫= λ schema : option json, Some (struct_json
  [("name", Some (JString (hooktool_Name w)));
   ("url", Some (JString (hooktool_URL w)));
   ("method", omit_string (hooktool_Method w));
   ("description", omit_string (hooktool_Description w));
   ("trust", omit_string (trust_string (hooktool_Trust w)));
   ("schema", schema)]).

Definition buildWebhookEnvVars (agent : SwarmAgent) : list EnvVar :=
  match aspec_Tools (agent_Spec agent) with
  | Some t =>
      match tools_Webhooks t with
      | [] => []
      | hooks => [env_value "AGENT_WEBHOOK_TOOLS"
                    (match mapM webhook_json hooks with Some l => json_text (JArray l) | None => "" end)]
      end
  | None => []
  end.

Definition compression_json (c : CompressionSpec) : json := struct_json
  [("thresholdPercent", omit_int (compression_ThresholdPercent c));
   ("preserveRecentTurns", omit_int (compression_PreserveRecentTurns c));
   ("model", omit_string (compression_Model c));
   ("timeoutSeconds", omit_int (compression_TimeoutSeconds c));
   ("contextWindow", omit_int (compression_ContextWindow c));
   ("instructions", omit_string (compression_Instructions c))].

(** A reference is written as an object with its name. *)
Definition loop_memory_json (m : AgentLoopMemory) : json := struct_json
  [("ref", (λ name, struct_json [("name", omit_string name)]) <$> memory_Ref m);
   ("store", omit_bool (memory_Store m));
   ("retrieve", omit_bool (memory_Retrieve m));
   ("topK", omit_int (memory_TopK m));
   ("minSimilarityPercent", omit_int (memory_MinSimilarityPercent m));
   ("summaryTokens", omit_int (memory_SummaryTokens m));
   ("maxTokens", omit_int (memory_MaxTokens m))].

Definition sandbox_json (s : SandboxSpec) : json := struct_json
  [("thresholdBytes", omit_int (sandbox_ThresholdBytes s));
   ("previewBytes", omit_int (sandbox_PreviewBytes s));
   ("maxTotalBytes", omit_int (sandbox_MaxTotalBytes s))].

Definition loop_json (l : AgentLoopPolicy) : json := struct_json
  [("dedup", omit_bool (loop_Dedup l));
   ("compression", compression_json <$> loop_Compression l);
   ("memory", loop_memory_json <$> loop_Memory l);
   ("sandbox", sandbox_json <$> loop_Sandbox l)].

Definition buildLoopEnvVars (agent : SwarmAgent) : list EnvVar :=
  match runtime_Loop (aspec_Runtime (agent_Spec agent)) with
  | Some l => [env_json "AGENT_LOOP_POLICY" (loop_json l)]
  | None => []
  end.

(** *** The audit log *)
Record clusterAuditConfig := mkClusterAuditConfig {
  cluster_mode : string;
  cluster_sink : string;
  cluster_maxDetailBytes : Z;
  cluster_redisURL : string;
  cluster_maxStreamLen : Z;
  cluster_webhookURL : string;
  cluster_redact : list string }.

(** Unmarshal into a []string whose error is dropped: an element that is no string stays empty. *)
Definition lenient_strings (text : string) : list string :=
  match json_parse text with
  | Some (JArray l) => (λ j, match j with JString s => s | _ => "" end) <$> l
  | _ => []
  end.

Definition getClusterAuditConfig (environ : list string) : clusterAuditConfig :=
  let get := environ_lookup environ in
  mkClusterAuditConfig (get "AUDIT_LOG_MODE")
    (if decide (get "AUDIT_LOG_SINK" = "") then "stdout" else get "AUDIT_LOG_SINK")
    (default 0 (Atoi (get "AUDIT_LOG_MAX_DETAIL_BYTES")))
    (get "AUDIT_LOG_REDIS_URL")
    (default 0 (Atoi (get "AUDIT_LOG_MAX_STREAM_LEN")))
    (get "AUDIT_LOG_WEBHOOK_URL")
    (lenient_strings (get "AUDIT_LOG_REDACT")).

Definition agent_audit_mode (agent : SwarmAgent) : AuditLogMode :=
  match o ← Observability (agent_Spec agent); AuditLog o with
  | Some a => audit_Mode a
  | None => AuditLogModeUnset
  end.

(** The mode in force; [None] when nothing is audited. *)
Definition effective_audit_mode (cluster : clusterAuditConfig) (agent : SwarmAgent) : option string :=
  match agent_audit_mode agent with
  | AuditLogModeUnset => if decide (cluster_mode cluster = "" ∨ cluster_mode cluster = "off") then None
                         else Some (cluster_mode cluster)
  | AuditLogModeOff => None
  | m => Some (audit_mode_string m)
  end.

Definition audit_json (cluster : clusterAuditConfig) (agent : SwarmAgent) (mode : string) : json :=
  struct_json
  [("maxDetailBytes", if 0 <? cluster_maxDetailBytes cluster
                      then Some (JInt (cluster_maxDetailBytes cluster)) else None);
   ("maxStreamLen", if 0 <? cluster_maxStreamLen cluster
                    then Some (JInt (cluster_maxStreamLen cluster)) else None);
   ("mode", Some (JString mode));
   ("redact", omit_strings (cluster_redact cluster ++
                match o ← Observability (agent_Spec agent); AuditLog o with
                | Some a => audit_Redact a | None => [] end));
   ("redisURL", omit_string (cluster_redisURL cluster));
   ("sink", Some (JString (cluster_sink cluster)));
   ("webhookURL", omit_string (cluster_webhookURL cluster))].

Definition buildAuditLogEnvVar (environ : list string) (agent : SwarmAgent) : string :=
  let cluster := getClusterAuditConfig environ in
  match effective_audit_mode cluster agent with
  | None => ""
  | Some mode => json_text (audit_json cluster agent mode)
  end.

(** [buildPolicyEnvVars] (swarmpolicy_effective.go). *)
Definition buildPolicyEnvVars (ep : option EffectivePolicySpec) : list EnvVar :=
  match ep with
  | None => []
  | Some e =>
      match ToolDeny e with
      | [] => []
      | deny => [env_json "AGENT_POLICY_TOOL_DENY" (JArray (JString <$> deny))]
      end ++
      match ForceTrustLevel e with
      | Some t => [env_value "AGENT_POLICY_FORCE_TRUST_LEVEL" (trust_string t)]
      | None => []
      end
  end.

(** *** Advisors: the fields of [advisorRuntimeConfig] *)
Definition advisor_runtime `{LowerApi} (conn : AgentConnection) : option AdvisorConfig :=
  match conn_Role conn, conn_AgentRef conn with
  | AgentConnectionRoleAdvisor, Some target =>
      let toolName := match ResolveAdvisorToolName conn with Some (Ok t) => t | _ => "" end in
      Some (match conn_ContextPropagation conn with
            | Some cp => mkAdvisorConfig (conn_Name conn) toolName target (propagation_RecentMessages cp)
                           (propagation_MaxCallsPerTask cp) (propagation_TimeoutSeconds cp)
                           (propagation_MaxAdvisorTokensPerTask cp) (propagation_MaxContextBytes cp)
                           (propagation_ExcludeSystemPrompt cp) (conn_Instructions conn)
            | None => mkAdvisorConfig (conn_Name conn) toolName target 0 0 0 0 0 false (conn_Instructions conn)
            end)
  | _, _ => None
  end.

Definition advisor_json (a : AdvisorConfig) : json := struct_json
  [("name", Some (JString (adv_Name a)));
   ("toolName", Some (JString (ToolName a)));
   ("agentRef", Some (JString (AgentRef a)));
   ("recentMessages", Some (JInt (RecentMessages a)));
   ("maxCallsPerTask", Some (JInt (MaxCallsPerTask a)));
   ("timeoutSeconds", Some (JInt (adv_TimeoutSeconds a)));
   ("maxAdvisorTokensPerTask", Some (JInt (MaxAdvisorTokensPerTask a)));
   ("maxContextBytes", Some (JInt (MaxContextBytes a)));
   ("excludeSystemPrompt", Some (JBool (ExcludeSystemPrompt a)));
   ("instructions", omit_string (adv_Instructions a))].

Definition buildAdvisorEnvVars `{LowerApi} (agent : SwarmAgent) : list EnvVar :=
  match omap advisor_runtime (aspec_Agents (agent_Spec agent)) with
  | [] => []
  | configs => [env_json "AGENT_ADVISORS" (JArray (advisor_json <$> configs))]
  end.

(** *** The gateway *)
Record GatewayCapabilityEntry := mkGatewayCapabilityEntry {
  entry_Name : string;
  entry_Description : string;
  entry_Agent : string;
  entry_Namespace : string;
  entry_Tags : list string;
  entry_ReadyReplicas : Z;
  IsGateway : bool }.

(** Case-insensitive; all of the required tags. *)
Definition hasAllTags `{FoldApi} (capTags required : list string) : bool :=
  forallb (λ r, existsb (λ t, strings_EqualFold t r) capTags) required.

Definition filterCapabilities `{FoldApi} (gw : GatewayConfig) (caps : list GatewayCapabilityEntry)
    : list GatewayCapabilityEntry :=
  filter (λ entry, Is_true (
    negb (IsGateway entry && negb (gateway_AllowGatewayTargets gw)) &&
    negb (entry_ReadyReplicas entry =? 0) &&
    (bool_decide (gateway_FilterByTags gw = []) || hasAllTags (entry_Tags entry) (gateway_FilterByTags gw)))) caps.

Definition capability_less (a b : GatewayCapabilityEntry) : bool :=
  if entry_ReadyReplicas a =? entry_ReadyReplicas b then String.ltb (entry_Name a) (entry_Name b)
  else entry_ReadyReplicas b <? entry_ReadyReplicas a.

Definition maxGatewayCapabilities : nat := 50.

Definition capability_json (e : GatewayCapabilityEntry) : json := struct_json
  [("name", Some (JString (entry_Name e)));
   ("description", Some (JString (entry_Description e)));
   ("agent", Some (JString (entry_Agent e)));
   ("namespace", Some (JString (entry_Namespace e)));
   ("tags", Some (strings_json (entry_Tags e)));
   ("readyReplicas", Some (JInt (entry_ReadyReplicas e)))].

Definition or_default (n dflt : Z) : Z := if n =? 0 then dflt else n.

(** The fields of the operator's [GatewayRuntimeConfig], which has those of the runtime's. *)
Definition gateway_runtime (gw : GatewayConfig) : GatewayRuntimeConfig :=
  mkGatewayRuntimeConfig
    (match gateway_DispatchMode gw with DispatchModeUnset => "enabled" | m => dispatch_mode_string m end)
    (or_default (gateway_DispatchTimeoutSeconds gw) 120)
    (or_default (gateway_MaxDispatchDepth gw) 3)
    (or_default (gateway_MaxResultsPerSearch gw) 10)
    (or_default (gateway_MaxDispatchCalls gw) 5)
    (or_default (gateway_MaxSearchCalls gw) 3)
    (match f ← gateway_Fallback gw;
           match fallback_Mode f with FallbackModeUnset => None | m => Some (fallback_mode_string m) end with
     | Some m => m
     | None => "answer-directly"
     end)
    (default "" (f ← gateway_Fallback gw; fallback_AgentRef f))
    (gateway_AllowedTargets gw).

Definition gateway_json (c : GatewayRuntimeConfig) : json := struct_json
  [("dispatchMode", Some (JString (DispatchMode c)));
   ("dispatchTimeoutSeconds", Some (JInt (DispatchTimeoutSeconds c)));
   ("maxDispatchDepth", Some (JInt (MaxDispatchDepth c)));
   ("maxResultsPerSearch", Some (JInt (MaxResultsPerSearch c)));
   ("maxDispatchCalls", Some (JInt (MaxDispatchCalls c)));
   ("maxSearchCalls", Some (JInt (MaxSearchCalls c)));
   ("fallbackMode", Some (JString (gw_FallbackMode c)));
   ("fallbackAgent", omit_string (gw_FallbackAgent c));
   ("allowedTargets", omit_strings (AllowedTargets c))].

Definition maxSearchDescLen : nat := 2000.

(** The tags of the entries, each once. *)
Definition distinct_tags (entries : list GatewayCapabilityEntry) : list string :=
  foldl (λ tags t, if decide (t ∈ tags) then tags else tags ++ [t]) [] (e ← entries; entry_Tags e).

Definition search_description (filtered : list GatewayCapabilityEntry) (totalMatching : nat) : string :=
  let desc := "Search for agent capabilities. " +:+
    (if decide (length filtered < totalMatching)%nat
     then "Showing " +:+ itoa (Z.of_nat (length filtered)) +:+ " of " +:+ itoa (Z.of_nat totalMatching) +:+
          " capabilities (sorted by readiness); refine your query to reach the long tail. "
     else "") in
  match filtered with
  | [] => desc
  | _ =>
      let desc := desc +:+ "Available capabilities: " +:+ str_join ", " (entry_Name <$> filtered) +:+
        ". Available tags: " +:+ str_join ", " (distinct_tags filtered) +:+
        ". Search by these names or tags, not by the user's literal words." in
      if decide (maxSearchDescLen < String.length desc)%nat
      then
        let cutoff := (maxSearchDescLen - 3)%nat in
        let cutoff := match last_index_byte (str_take cutoff desc) "," with
                      | Some idx => if decide (0 < idx)%nat then idx else cutoff
                      | None => cutoff
                      end in
        str_take cutoff desc +:+ "..."
      else desc
  end.

Definition gateway_tools (c : GatewayRuntimeConfig) (description : string) : list GatewayToolConfig :=
  mkGatewayToolConfig "registry_search" description ::
  (if decide (DispatchMode c = "enabled")
   then [mkGatewayToolConfig "dispatch"
           ("Dispatch a task to a target agent. Timeout: " +:+ itoa (DispatchTimeoutSeconds c) +:+
            "s. Max depth: " +:+ itoa (MaxDispatchDepth c) +:+ ".")]
   else []).

Definition gateway_tool_json (t : GatewayToolConfig) : json := struct_json
  [("name", Some (JString (gt_Name t))); ("description", Some (JString (gt_Description t)))].

(** The capabilities the pod is told about: the readiest, at most fifty. *)
Definition routable `{FoldApi} `{SliceSort GatewayCapabilityEntry} (gw : GatewayConfig)
    (caps : list GatewayCapabilityEntry) : list GatewayCapabilityEntry :=
  take maxGatewayCapabilities (sort_slice capability_less (filterCapabilities gw caps)).

Definition buildGatewayEnvVars `{FoldApi} `{SliceSort GatewayCapabilityEntry} (agent : SwarmAgent)
    (registryCapabilities : list GatewayCapabilityEntry) : list EnvVar :=
  match aspec_Gateway (agent_Spec agent) with
  | None => []
  | Some gw =>
      let filtered := routable gw registryCapabilities in
      let total := length (filterCapabilities gw registryCapabilities) in
      let cfg := gateway_runtime gw in
      [env_json "AGENT_GATEWAY_CAPABILITIES" (list_json capability_json filtered);
       env_json "AGENT_GATEWAY_CONFIG" (gateway_json cfg);
       env_json "AGENT_GATEWAY_TOOLS"
         (JArray (gateway_tool_json <$> gateway_tools cfg (search_description filtered total)))]
  end.

(** ** Teams *)
Definition buildTeamEnvVars `{UrlApi} (environ : list string) (agent : SwarmAgent) : list EnvVar :=
  let queueURL := agent_annotation agent AnnotationTeamQueueURL in
  (if decide (queueURL = "")
   then
     let baseURL := inject_queue_url environ in
     let baseURL := if decide (baseURL = "") then environ_lookup environ "TASK_QUEUE_URL" else baseURL in
     if decide (baseURL = "") then []
     else [env_value "TASK_QUEUE_URL"
             (appendStreamParam baseURL (agent_Namespace agent +:+ "." +:+ agent_Name agent))]
   else [env_value "TASK_QUEUE_URL" queueURL]) ++
  env_nonempty "AGENT_TEAM_ROUTES" (agent_annotation agent AnnotationTeamRoutes) ++
  env_nonempty "AGENT_TEAM_ROLE" (agent_annotation agent AnnotationTeamRole) ++
  env_nonempty "AGENT_TEAM_NAME" (label agent LabelTeam).

(** ** The environment of the pod *)
Definition base_vars (agent : SwarmAgent) (servers : list MCPToolSpec) (ep : option EffectivePolicySpec)
    : list EnvVar :=
  let '(maxTokens, timeoutSecs, maxRetries, dailyTokenLimit) := effective_limits agent ep in
  [env_value "AGENT_MODEL" (agent_Model (agent_Spec agent));
   env_value "AGENT_SYSTEM_PROMPT_PATH" promptFilePath;
   env_json "AGENT_MCP_SERVERS" (mcp_servers_json servers);
   env_value "AGENT_MAX_TOKENS" (itoa maxTokens);
   env_value "AGENT_TIMEOUT_SECONDS" (itoa timeoutSecs);
   env_value "AGENT_MAX_RETRIES" (itoa maxRetries);
   env_value "AGENT_DAILY_TOKEN_LIMIT" (itoa dailyTokenLimit);
   mkEnvVar "POD_NAME" "" (Some (FieldRef "metadata.name"));
   mkEnvVar "AGENT_NAMESPACE" "" (Some (FieldRef "metadata.namespace"));
   env_value "AGENT_NAME" (agent_Name agent)].

(** The deduplication, in place: [out] shares the array of [envVars], whose elements the loop reads
    as it goes; [seen] are positions in [out]. *)
Fixpoint dedup_loop (fuel i : nat) (arr : list EnvVar) (out : nat) (seen : gmap string nat) : list EnvVar :=
  match fuel with
  | O => take out arr
  | S fuel =>
      match arr !! i with
      | None => take out arr
      | Some e =>
          match seen !! env_Name e with
          | Some j => dedup_loop fuel (S i) (<[j := e]> arr) out seen
          | None => dedup_loop fuel (S i) (<[out := e]> arr) (S out) (<[env_Name e := out]> seen)
          end
      end
  end.

Definition dedup (envVars : list EnvVar) : list EnvVar := dedup_loop (length envVars) 0 envVars 0 ∅.

(** The inputs of [buildEnvVars], apart from the agent. *)
Record env_inputs := mkEnvInputs {
  in_Environ : list string;
  in_Settings : list SwarmSettings;
  in_Memory : option SwarmMemory;
  in_APIKey : option EnvVar;
  in_Servers : list MCPToolSpec;
  in_Policy : option EffectivePolicySpec;
  in_Capabilities : list GatewayCapabilityEntry }.

Definition env_audit (environ : list string) (agent : SwarmAgent) : list EnvVar :=
  env_nonempty "AGENT_AUDIT_LOG" (buildAuditLogEnvVar environ agent).

Definition all_vars `{UrlApi} `{LowerApi} `{FoldApi} `{SliceSort GatewayCapabilityEntry}
    (agent : SwarmAgent) (inp : env_inputs) : list EnvVar :=
  base_vars agent (in_Servers inp) (in_Policy inp) ++
  buildObservabilityEnvVars agent ++
  agentInjectEnvVars (in_Environ inp) ++
  mergeSettingsEnvVars (in_Settings inp) ++
  buildMemoryEnvVars (in_Memory inp) ++
  buildWebhookEnvVars agent ++
  buildTeamEnvVars (in_Environ inp) agent ++
  option_list (in_APIKey inp) ++
  buildMCPAuthEnvVars (in_Servers inp) ++
  buildArtifactEnvVars agent ++
  buildPluginEnvVars agent ++
  buildReasoningEnvVars agent (in_Settings inp) (in_Policy inp) ++
  buildPolicyEnvVars (in_Policy inp) ++
  buildLoopEnvVars agent ++
  env_audit (in_Environ inp) agent ++
  buildCircuitBreakerEnvVars agent ++
  buildAdvisorEnvVars agent ++
  buildGatewayEnvVars agent (in_Capabilities inp).

Definition buildEnvVars `{UrlApi} `{LowerApi} `{FoldApi} `{SliceSort GatewayCapabilityEntry}
    (agent : SwarmAgent) (inp : env_inputs) : list EnvVar := dedup (all_vars agent inp).
End json_values.
