(* ===== verification/AgentEnvProps.v ===== *)
(** * AgentEnvProps: what the environment of a pod holds.

    The deduplication in place keeps the last entry of every name; what a builder writes is
    determined by the entries with a name, so that lookups in the concatenation of all builders
    follow the order of the code. *)
From Stdlib Require Import ZArith Lia Ascii.
From stdpp Require Import base tactics option list numbers strings gmap.
From S2P Require Import Prelude GoStd Config Types AgentTypes Kube Template Policy Runtime Webhooks Team Wire AgentEnv.

(** ** The last of each name, where the name first occurs *)
Section last_wins.
Context {A : Type} (name : A → string).

Definition add_name (names : list string) (a : A) : list string :=
  if decide (name a ∈ names) then names else names ++ [name a].
Definition first_names (l : list A) : list string := foldl add_name [] l.
Definition last_named (n : string) (l : list A) : option A := last (filter (λ a, name a = n) l).

Lemma first_names_snoc l a : first_names (l ++ [a]) = add_name (first_names l) a.
Proof. unfold first_names. by rewrite foldl_app. Qed.

Lemma elem_of_first_names l n : n ∈ first_names l ↔ n ∈ name <$> l.
Proof.
  induction l as [|a l IH] using rev_ind; [done|].
  rewrite first_names_snoc, fmap_app, elem_of_app, <- IH. unfold add_name.
  case_decide; set_solver.
Qed.

Lemma first_names_NoDup l : NoDup (first_names l).
Proof.
  induction l as [|a l IH] using rev_ind; [constructor|].
  rewrite first_names_snoc. unfold add_name. case_decide; [done|].
  apply NoDup_app; split_and!; [done|set_solver|apply NoDup_singleton].
Qed.

Lemma last_named_snoc_eq l a : last_named (name a) (l ++ [a]) = Some a.
Proof. unfold last_named. by rewrite filter_app, filter_cons_True, filter_nil, last_snoc by done. Qed.

Lemma last_named_snoc_ne n l a : name a ≠ n → last_named n (l ++ [a]) = last_named n l.
Proof. intros Hn. unfold last_named. by rewrite filter_app, filter_cons_False, filter_nil, app_nil_r by done. Qed.

Lemma last_named_app n l k :
  last_named n (l ++ k) = match last_named n k with Some a => Some a | None => last_named n l end.
Proof.
  induction k as [|a k IH] using rev_ind; [by rewrite app_nil_r|].
  rewrite app_assoc. destruct (decide (name a = n)) as [<-|Hn].
  - by rewrite !last_named_snoc_eq.
  - by rewrite !last_named_snoc_ne.
Qed.

Lemma last_named_cons n a l :
  last_named n (a :: l) =
    match last_named n l with Some b => Some b | None => if decide (name a = n) then Some a else None end.
Proof.
  change (a :: l) with ([a] ++ l). rewrite last_named_app. destruct (last_named n l); [done|].
  unfold last_named. rewrite filter_cons. by case_decide.
Qed.

Lemma last_named_Some n l a : last_named n l = Some a → name a = n ∧ a ∈ l.
Proof. unfold last_named. intros [Hn Hl]%last_Some_elem_of%list_elem_of_filter. done. Qed.

Lemma last_named_None n l : last_named n l = None ↔ n ∉ name <$> l.
Proof.
  unfold last_named. rewrite last_None. split.
  - intros E (a & -> & Ha)%list_elem_of_fmap.
    assert (a ∈ filter (λ b, name b = name a) l) as Hf by by apply list_elem_of_filter.
    rewrite E in Hf. by apply not_elem_of_nil in Hf.
  - intros Hn. destruct (filter _ l) as [|a k] eqn:E; [done|]. destruct Hn.
    assert (a ∈ filter (λ b, name b = n) l) as [<- Ha]%list_elem_of_filter by (rewrite E; left).
    by apply list_elem_of_fmap_2.
Qed.

(** [out] lists, for every name of [l] in the order of first occurrence, its last bearer. *)
Definition keeps_last (l out : list A) : Prop :=
  Forall2 (λ n a, last_named n l = Some a) (first_names l) out.

Lemma keeps_last_names l out : keeps_last l out → name <$> out = first_names l.
Proof.
  intros Hf. unfold keeps_last in Hf. symmetry. induction Hf as [|n a ns out Hn Hf IH]; [done|].
  rewrite fmap_cons, IH. by apply last_named_Some in Hn as [-> _].
Qed.

Lemma keeps_last_elem l out a : keeps_last l out → a ∈ out ↔ last_named (name a) l = Some a.
Proof.
  intros Hf. split.
  - intros [i Hi]%list_elem_of_lookup. destruct (Forall2_lookup_r _ _ _ _ _ Hf Hi) as (n & _ & Hn).
    by destruct (last_named_Some _ _ _ Hn) as [-> _].
  - intros Hl. destruct (last_named_Some _ _ _ Hl) as [_ Ha].
    assert (name a ∈ first_names l) as [i Hi]%list_elem_of_lookup
      by (apply elem_of_first_names; by apply list_elem_of_fmap_2).
    destruct (Forall2_lookup_l _ _ _ _ _ Hf Hi) as (b & Hb & Hn).
    assert (a = b) as -> by congruence. by eapply list_elem_of_lookup_2.
Qed.

Lemma keeps_last_new l out a :
  name a ∉ first_names l → keeps_last l out → keeps_last (l ++ [a]) (out ++ [a]).
Proof.
  intros Hn Hf. unfold keeps_last. rewrite first_names_snoc. unfold add_name. rewrite decide_False by done.
  apply Forall2_app; [|constructor; [apply last_named_snoc_eq|constructor]].
  eapply Forall2_same_length_lookup_2; [by eapply Forall2_length|].
  intros i n b Hi Hb. rewrite last_named_snoc_ne; [exact (Forall2_lookup_lr _ _ _ _ _ _ Hf Hi Hb)|].
  intros <-. by apply Hn, list_elem_of_lookup_2 with i.
Qed.

Lemma keeps_last_again l out a j :
  first_names l !! j = Some (name a) → keeps_last l out → keeps_last (l ++ [a]) (<[j := a]> out).
Proof.
  intros Hj Hf. unfold keeps_last. rewrite first_names_snoc. unfold add_name.
  rewrite decide_True by (by eapply list_elem_of_lookup_2).
  assert (Hlen : length (first_names l) = length out) by by eapply Forall2_length.
  eapply Forall2_same_length_lookup_2; [by rewrite length_insert|].
  intros i n b Hi Hb. destruct (decide (i = j)) as [->|Hne].
  - assert (n = name a) as -> by congruence.
    rewrite list_lookup_insert_eq in Hb by (rewrite <- Hlen; by eapply lookup_lt_Some).
    injection Hb as <-. apply last_named_snoc_eq.
  - rewrite list_lookup_insert_ne in Hb by done. rewrite last_named_snoc_ne; [exact (Forall2_lookup_lr _ _ _ _ _ _ Hf Hi Hb)|].
    intros <-. apply Hne. by eapply NoDup_lookup; [apply first_names_NoDup| |].
Qed.
End last_wins.

(** ** The deduplication in place *)
Abbreviation var_names := (first_names env_Name).
Abbreviation last_var := (last_named env_Name).

(** After the loop has read [p]: what [out] holds, the rest of the array untouched. *)
Record dedup_at (p rest arr : list EnvVar) (out : nat) (seen : gmap string nat) : Prop := {
  at_out : keeps_last env_Name p (take out arr);
  at_rest : drop (length p) arr = rest;
  at_bound : (out ≤ length p)%nat;
  at_length : (length p ≤ length arr)%nat;
  at_seen : ∀ n j, seen !! n = Some j ↔ var_names p !! j = Some n }.

Lemma dedup_at_length p rest arr out seen : dedup_at p rest arr out seen → out = length (var_names p).
Proof.
  intros H. pose proof (Forall2_length _ _ _ (at_out _ _ _ _ _ H)) as E.
  rewrite length_take in E. pose proof (at_bound _ _ _ _ _ H). pose proof (at_length _ _ _ _ _ H). lia.
Qed.

Lemma dedup_step p e rest arr out seen :
  dedup_at p (e :: rest) arr out seen →
  arr !! length p = Some e ∧
  match seen !! env_Name e with
  | Some j => dedup_at (p ++ [e]) rest (<[j := e]> arr) out seen
  | None => dedup_at (p ++ [e]) rest (<[out := e]> arr) (S out) (<[env_Name e := out]> seen)
  end.
Proof.
  intros H. pose proof (dedup_at_length _ _ _ _ _ H) as Hout. destruct H as [Ho Hr Hb Hl Hs].
  assert (Hi : arr !! length p = Some e).
  { pose proof (lookup_drop arr (length p) 0) as E. rewrite Hr, Nat.add_0_r in E. by simpl in E. }
  assert (Hlt : (length p < length arr)%nat) by by eapply lookup_lt_Some.
  assert (Htail : drop (S (length p)) arr = rest)
    by (pose proof (drop_S arr e (length p) Hi) as E; rewrite Hr in E; congruence).
  split; [done|]. destruct (seen !! env_Name e) as [j|] eqn:E.
  - assert (Hj : (j < out)%nat) by (apply Hs in E; apply lookup_lt_Some in E; lia).
    split; rewrite ?length_app, ?length_insert; simpl; try lia.
    + rewrite take_insert_lt by done. apply keeps_last_again; [by apply Hs|done].
    + rewrite Nat.add_1_r, drop_insert_lt by lia. done.
    + intros n k. rewrite Hs, first_names_snoc. unfold add_name.
      by rewrite decide_True by (apply list_elem_of_lookup_2 with j; by apply Hs).
  - assert (Hnew : env_Name e ∉ var_names p).
    { intros [j Hj]%list_elem_of_lookup. apply Hs in Hj. congruence. }
    split; rewrite ?length_app, ?length_insert; simpl; try lia.
    + rewrite (take_S_r _ _ e) by (apply list_lookup_insert_eq; lia).
      rewrite take_insert_ge by done. by apply keeps_last_new.
    + rewrite Nat.add_1_r, drop_insert_lt by lia. done.
    + intros n k. rewrite first_names_snoc. unfold add_name. rewrite decide_False by done.
      rewrite lookup_insert_Some, lookup_snoc_Some, Hs. rewrite <- Hout.
      split; [intros [[<- <-]|[Hne Hk]]; [by right|left]|intros [[Hk Hn]|[-> <-]]; [right|by left]].
      * split; [|done]. apply lookup_lt_Some in Hk. lia.
      * split; [|done]. intros <-. by apply Hnew, list_elem_of_lookup_2 with k.
Qed.

Lemma dedup_loop_spec rest p arr out seen :
  dedup_at p rest arr out seen →
  keeps_last env_Name (p ++ rest) (dedup_loop (length rest) (length p) arr out seen).
Proof.
  revert p arr out seen. induction rest as [|e rest IH]; intros p arr out seen H.
  { rewrite app_nil_r. exact (at_out _ _ _ _ _ H). }
  destruct (dedup_step _ _ _ _ _ _ H) as [Hi Hstep]. simpl. rewrite Hi.
  replace (p ++ e :: rest) with ((p ++ [e]) ++ rest) by by rewrite <- app_assoc.
  replace (S (length p)) with (length (p ++ [e])) by (rewrite length_app; simpl; lia).
  destruct (seen !! env_Name e); by apply IH.
Qed.

Lemma dedup_keeps_last l : keeps_last env_Name l (dedup l).
Proof.
  apply (dedup_loop_spec l []). split; simpl; rewrite ?drop_0; try done; try lia.
  constructor.
Qed.

Lemma dedup_names l : env_Name <$> dedup l = var_names l.
Proof. apply keeps_last_names, dedup_keeps_last. Qed.
Lemma dedup_elem l e : e ∈ dedup l ↔ last_var (env_Name e) l = Some e.
Proof. apply keeps_last_elem, dedup_keeps_last. Qed.

(** The variables of a pod have different names, in the order in which the builders first write
    them; each has the value that was written last. *)
Theorem dedup_last_wins l :
  NoDup (env_Name <$> dedup l) ∧
  env_Name <$> dedup l = var_names l ∧
  ∀ e, e ∈ dedup l ↔ last_var (env_Name e) l = Some e.
Proof.
  rewrite dedup_names. split; [apply first_names_NoDup|]. split; [done|]. apply dedup_elem.
Qed.

Lemma last_var_dedup l n : last_var n (dedup l) = last_var n l.
Proof.
  destruct (last_var n l) as [e|] eqn:E.
  - destruct (last_named_Some _ _ _ _ E) as [<- _].
    apply dedup_elem in E. destruct (last_var (env_Name e) (dedup l)) as [e'|] eqn:E'.
    + destruct (last_named_Some _ _ _ _ E') as [Hn Hin]. apply dedup_elem in Hin, E. congruence.
    + apply last_named_None in E'. destruct E'. by apply list_elem_of_fmap_2.
  - apply last_named_None. apply last_named_None in E. by rewrite dedup_names, elem_of_first_names.
Qed.

(** ** Which variables a builder writes *)
Definition writes_only (names : list string) (l : list EnvVar) : Prop :=
  Forall (λ e, env_Name e ∈ names) l.

Lemma writes_skip n names l : writes_only names l → bool_decide (n ∈ names) = false → last_var n l = None.
Proof.
  intros Hl Hn%bool_decide_eq_false. apply last_named_None. intros (e & -> & He)%list_elem_of_fmap.
  apply Hn. unfold writes_only in Hl. rewrite Forall_forall in Hl. by apply Hl.
Qed.

Lemma writes_app names l k : writes_only names l → writes_only names k → writes_only names (l ++ k).
Proof. apply Forall_app_2. Qed.
Lemma writes_nil names : writes_only names [].
Proof. constructor. Qed.
Lemma writes_cons names e l : env_Name e ∈ names → writes_only names l → writes_only names (e :: l).
Proof. by constructor. Qed.
Lemma writes_nonempty names n v : n ∈ names → writes_only names (env_nonempty n v).
Proof. intros. unfold writes_only, env_nonempty. case_decide; by rewrite ?Forall_singleton. Qed.
Lemma writes_flag names n b : n ∈ names → writes_only names (env_flag n b).
Proof. intros. unfold writes_only, env_flag. destruct b; by rewrite ?Forall_singleton. Qed.
Lemma writes_positive names n z : n ∈ names → writes_only names (env_positive n z).
Proof. intros. unfold writes_only, env_positive. case_decide; by rewrite ?Forall_singleton. Qed.
Lemma writes_int names n z : n ∈ names → writes_only names (env_int n z).
Proof. intros. unfold writes_only, env_int. destruct z; by rewrite ?Forall_singleton. Qed.

Create HintDb writes discriminated.
#[export] Hint Resolve writes_app writes_nil writes_cons writes_nonempty writes_flag writes_positive
  writes_int : writes.

(** A name in a list of literals. *)
Ltac listed_name := apply (bool_decide_unpack _); vm_compute; exact I.
#[export] Hint Extern 1 (_ ∈ _) => listed_name : writes.

(** Follow the branches of a builder. *)
Ltac builder_writes :=
  repeat first
    [ solve [auto with writes nocore]
    | apply writes_app | apply writes_cons; [listed_name|]
    | case_decide | match goal with |- writes_only _ (match ?x with _ => _ end) => destruct x end ].

Definition base_names := ["AGENT_MODEL"; "AGENT_SYSTEM_PROMPT_PATH"; "AGENT_MCP_SERVERS"; "AGENT_MAX_TOKENS";
  "AGENT_TIMEOUT_SECONDS"; "AGENT_MAX_RETRIES"; "AGENT_DAILY_TOKEN_LIMIT"; "POD_NAME"; "AGENT_NAMESPACE";
  "AGENT_NAME"].
Definition observability_names := ["AGENT_VALIDATOR_PROMPT"; "AGENT_LOG_LEVEL"; "AGENT_LOG_TOOL_CALLS";
  "AGENT_LOG_LLM_TURNS"; "AGENT_LOG_REDACT_SECRETS"; "AGENT_LOG_REDACT_PII"].
Definition settings_names := ["AGENT_TEMPERATURE"; "AGENT_OUTPUT_FORMAT"; "AGENT_MEMORY_BACKEND"].
Definition memory_names := ["AGENT_MEMORY_BACKEND"; "AGENT_MEMORY_REDIS_URL"; "AGENT_MEMORY_REDIS_TTL";
  "AGENT_MEMORY_REDIS_MAX_ENTRIES"; "AGENT_MEMORY_VECTOR_STORE_PROVIDER"; "AGENT_MEMORY_VECTOR_STORE_ENDPOINT";
  "AGENT_MEMORY_VECTOR_STORE_COLLECTION"; "AGENT_MEMORY_VECTOR_STORE_API_KEY"; "AGENT_MEMORY_VECTOR_STORE_TTL";
  "AGENT_VECTOR_STORE_URL"; "AGENT_EMBEDDING_MODEL"; "AGENT_EMBEDDING_PROVIDER"].
Definition team_names := ["TASK_QUEUE_URL"; "AGENT_TEAM_ROUTES"; "AGENT_TEAM_ROLE"; "AGENT_TEAM_NAME"].
Definition artifact_names := ["AGENT_ARTIFACT_STORE_URL"; "AGENT_ARTIFACT_DIR"; "AGENT_ARTIFACT_SAVE_OUTPUT";
  "AGENT_ARTIFACT_SAVE_FORMAT"].
Definition plugin_names := ["SWARM_PLUGIN_LLM_ADDR"; "SWARM_PLUGIN_QUEUE_ADDR"].
Definition reasoning_names := ["AGENT_REASONING_MODE"; "AGENT_REASONING_EFFORT"; "AGENT_REASONING_BUDGET_TOKENS";
  "AGENT_MAX_THINKING_TOKENS_PER_CALL"; "AGENT_MAX_ANSWER_TOKENS_PER_CALL"].
Definition policy_names := ["AGENT_POLICY_TOOL_DENY"; "AGENT_POLICY_FORCE_TRUST_LEVEL"].
Definition gateway_names := ["AGENT_GATEWAY_CAPABILITIES"; "AGENT_GATEWAY_CONFIG"; "AGENT_GATEWAY_TOOLS"].

Lemma settings_writes l : writes_only settings_names (mergeSettingsEnvVars l).
Proof. unfold mergeSettingsEnvVars. builder_writes. Qed.
Lemma observability_writes a : writes_only observability_names (buildObservabilityEnvVars a).
Proof. unfold buildObservabilityEnvVars. builder_writes. Qed.
Lemma memory_writes m : writes_only memory_names (buildMemoryEnvVars m).
Proof.
  unfold buildMemoryEnvVars, buildRedisMemoryEnvVars, buildVectorStoreMemoryEnvVars, buildEmbeddingEnvVars.
  builder_writes.
Qed.
Lemma artifact_writes a : writes_only artifact_names (buildArtifactEnvVars a).
Proof. unfold buildArtifactEnvVars. builder_writes. Qed.
Lemma plugin_writes a : writes_only plugin_names (buildPluginEnvVars a).
Proof. unfold buildPluginEnvVars. builder_writes. Qed.
Lemma reasoning_writes a s p : writes_only reasoning_names (buildReasoningEnvVars a s p).
Proof. unfold buildReasoningEnvVars. builder_writes. Qed.

Section writers.
Context `{JsonText} `{UrlApi} `{LowerApi} `{FoldApi} `{SliceSort GatewayCapabilityEntry}.

Lemma base_writes a s p : writes_only base_names (base_vars a s p).
Proof. unfold base_vars. destruct (effective_limits a p) as [[[t u] r] d]. builder_writes. Qed.
Lemma webhook_writes a : writes_only ["AGENT_WEBHOOK_TOOLS"] (buildWebhookEnvVars a).
Proof. unfold buildWebhookEnvVars. builder_writes. Qed.
Lemma team_writes env a : writes_only team_names (buildTeamEnvVars env a).
Proof. unfold buildTeamEnvVars. builder_writes. Qed.
Lemma policy_writes p : writes_only policy_names (buildPolicyEnvVars p).
Proof. unfold buildPolicyEnvVars. builder_writes. Qed.
Lemma loop_writes a : writes_only ["AGENT_LOOP_POLICY"] (buildLoopEnvVars a).
Proof. unfold buildLoopEnvVars. builder_writes. Qed.
Lemma audit_writes env a : writes_only ["AGENT_AUDIT_LOG"] (env_audit env a).
Proof. unfold env_audit. builder_writes. Qed.
Lemma breaker_writes a : writes_only ["AGENT_CIRCUIT_BREAKER"] (buildCircuitBreakerEnvVars a).
Proof. unfold buildCircuitBreakerEnvVars. builder_writes. Qed.
Lemma advisor_writes a : writes_only ["AGENT_ADVISORS"] (buildAdvisorEnvVars a).
Proof. unfold buildAdvisorEnvVars. builder_writes. Qed.
Lemma gateway_writes a c : writes_only gateway_names (buildGatewayEnvVars a c).
Proof. unfold buildGatewayEnvVars. builder_writes. Qed.
Lemma tokens_skip n servers :
  HasPrefix n "AGENT_MCP_TOKEN_" = false → last_var n (buildMCPAuthEnvVars servers) = None.
Proof.
  intros Hn. apply last_named_None. intros (e & -> & He)%list_elem_of_fmap.
  unfold buildMCPAuthEnvVars in He. apply list_elem_of_omap in He as (s & _ & Hs).
  destruct (bearer_key s) as [k|]; [|done]. injection Hs as <-.
  change (HasPrefix (mcpTokenEnvVar (mcptool_Name s)) "AGENT_MCP_TOKEN_" = false) in Hn.
  unfold mcpTokenEnvVar in Hn. by rewrite HasPrefix_app in Hn.
Qed.
End writers.

(** ** Limits and settings *)

(** Retries: zero cannot be asked for; the policy does not bound them. *)
Lemma effective_retries agent ep :
  (effective_limits agent ep).1.2 =
    match agent_limits agent with Some l => limit_or (Retries l) 3 | None => 3 end.
Proof.
  unfold effective_limits, applyPolicyLimits.
  destruct (agent_limits agent); destruct ep as [e|]; [destruct (Limits e)|..|destruct (Limits e)|]; done.
Qed.

(** The comment on [retries] says that 0 disables retries; the pod is given 3. *)
Theorem retries_not_disabled agent ep :
  0 < (effective_limits agent ep).1.2 ∧
  (∀ l, agent_limits agent = Some l → Retries l = 0 → (effective_limits agent ep).1.2 = 3).
Proof.
  rewrite effective_retries. split.
  - destruct (agent_limits agent); [|done]. unfold limit_or. destruct (Z.ltb_spec 0 (Retries g)); lia.
  - intros l -> Hr. unfold limit_or. by rewrite Hr.
Qed.

(** ** Names of MCP servers *)
Definition token_var (s : MCPToolSpec) : string := mcpTokenEnvVar (mcptool_Name s).
Definition token_entry (s : MCPToolSpec) (k : KeySelector) : EnvVar :=
  mkEnvVar (token_var s) "" (Some (SecretKeyRef k)).
Definition bearer_servers (servers : list MCPToolSpec) : list MCPToolSpec :=
  filter (λ s, is_Some (bearer_key s)) servers.

Lemma bearer_names servers : env_Name <$> buildMCPAuthEnvVars servers = token_var <$> bearer_servers servers.
Proof.
  induction servers as [|s servers IH]; [done|]. unfold buildMCPAuthEnvVars, bearer_servers. simpl.
  rewrite filter_cons. destruct (bearer_key s) as [k|] eqn:E; simpl; [|exact IH].
  fold (token_var s). f_equal. exact IH.
Qed.

Lemma last_unique {A} (name : A → string) l a : NoDup (name <$> l) → a ∈ l → last_named name (name a) l = Some a.
Proof.
  induction l as [|b l IH] using rev_ind; [by intros _ ?%not_elem_of_nil|].
  rewrite fmap_app, NoDup_app. intros (Hd & Hn & _) [Ha|<-%list_elem_of_singleton]%elem_of_app.
  - rewrite last_named_snoc_ne; [auto|]. intros E. apply (Hn (name a)); [by apply list_elem_of_fmap_2|].
    rewrite <- E. by apply list_elem_of_singleton.
  - apply last_named_snoc_eq.
Qed.

(** Every server is given its own token when the names of the variables differ.  But the names of
    two servers may differ and give one variable, which then holds the token of the second: the
    first server is sent the second's credential. *)
Theorem bearer_tokens servers :
  (NoDup (token_var <$> bearer_servers servers) →
   ∀ s k, s ∈ servers → bearer_key s = Some k →
     runtime_TokenEnvVar (buildMCPRuntimeConfig s) = token_var s ∧
     last_var (token_var s) (buildMCPAuthEnvVars servers) = Some (token_entry s k)) ∧
  (∀ url1 url2 k1 k2,
     let server name url k := mkMCPToolSpec name url (Some (mkMCPServerAuth (Some k) None)) "" TrustUnset "" [] None in
     let s1 := server "search-api" url1 k1 in
     let s2 := server "search_api" url2 k2 in
     runtime_TokenEnvVar (buildMCPRuntimeConfig s1) = runtime_TokenEnvVar (buildMCPRuntimeConfig s2) ∧
     dedup (buildMCPAuthEnvVars [s1; s2]) = [token_entry s2 k2]).
Proof.
  split; [|done]. intros Hd s k Hs Hk. split.
  - unfold buildMCPRuntimeConfig. unfold bearer_key in Hk. destruct (mcptool_Auth s) as [a|]; [|done].
    simpl in Hk. by rewrite Hk.
  - apply (last_unique env_Name _ (token_entry s k)); [by rewrite bearer_names|].
    unfold buildMCPAuthEnvVars. apply list_elem_of_omap. exists s. split; [done|]. by rewrite Hk.
Qed.

(** Upper-case letters of a name are not lowered but replaced, so that the volumes of servers whose
    names only have capitals and the same length have one name. *)
Lemma capitals_replaced n c rest : is_upper c = true →
  sanitizeMCPName (String c rest) (λ c, if is_upper c then false else is_lower c || is_decimal c || Ascii.eqb c "-") n =
  String n (sanitizeMCPName rest (λ c, if is_upper c then false else is_lower c || is_decimal c || Ascii.eqb c "-") n).
Proof.
  intros Hc. simpl. rewrite Hc. unfold is_upper in Hc. apply andb_true_iff in Hc as [_ Hc%N.leb_le].
  destruct (N.ltb_spec (N_of_ascii c) 128); [done|lia].
Qed.

(** Pods whose volumes share a name are refused by the API server. *)
Theorem mtls_volumes_collide (a b : string) :
  str_all is_upper a = true → str_all is_upper b = true → String.length a = String.length b →
  ∀ secret1 secret2 url1 url2,
    let server name url secret := mkMCPToolSpec name url (Some (mkMCPServerAuth None (Some secret))) "" TrustUnset "" [] None in
    ¬ NoDup (volume_Name <$> buildMCPVolumes [server a url1 secret1; server b url2 secret2]).
Proof.
  intros Ha Hb Hlen secret1 secret2 url1 url2. simpl. intros [Hn _]%NoDup_cons. apply Hn.
  apply list_elem_of_singleton. unfold mcpVolumeName. f_equal. f_equal. clear -Ha Hb Hlen.
  revert b Hb Hlen. induction a as [|c a IH]; intros [|d b] Hb Hlen; try done.
  apply andb_true_iff in Ha as [Hc Ha]. apply andb_true_iff in Hb as [Hd Hb].
  rewrite !capitals_replaced by done. f_equal. apply IH; [done|done|]. simpl in Hlen. lia.
Qed.

(** ** Forwarded variables *)

(** [text-embedding-004], Google's model, is never recognised as such: the prefix of OpenAI's
    models comes first. *)
Lemma google_embedding_shadowed : DetectEmbedding "text-embedding-004" = "openai".
Proof. reflexivity. Qed.
