(* ===== verification/EnvWire.v ===== *)
(** * EnvWire: what the operator writes is what the runtime reads.

    The operator (AgentEnv) encodes parts of an agent as JSON; the runtime (ConfigWire) decodes
    them.  For every pair of structs a lemma gives the value that arrives, by the tags of both
    sides; a last one gives the values of a list. *)
From Stdlib Require Import ZArith Lia Ascii.
From stdpp Require Import base tactics option list numbers strings gmap.
From S2P Require Import Prelude GoStd Config Types AgentTypes Kube Template Policy Runtime Webhooks Team Wire ConfigWire AgentEnv.

Section read_back.
Context `{T : JsonText} `{F : FoldApi}.

Definition arrived_discovery (d : MCPDiscoveryConfig) : MCPDiscoveryConfigRuntime :=
  mkMCPDiscovery (discovery_Dynamic d) (discovery_PollIntervalSeconds d).
Definition discovery_fits (d : MCPDiscoveryConfig) : Prop :=
  in_width_b 64 (discovery_PollIntervalSeconds d) = true.

Lemma discovery_arrives d : discovery_fits d →
  as_struct discovery_tags read_discovery (discovery_json d) = Some (arrived_discovery d).
Proof. intros Hp. unfold discovery_fits in Hp. unfold discovery_json, read_discovery. read_back. done. Qed.

(** A pointer to a struct. *)
Lemma pointer_arrives {A B} (enc : A → json) (dec : json → option B) (f : A → B) o :
  (∀ a, enc a ≠ JNull) → (∀ a, o = Some a → dec (enc a) = Some (f a)) →
  as_pointer dec (non_null (enc <$> o)) = Some (f <$> o).
Proof.
  intros Hn Hd. destruct o as [a|]; [|done]. simpl fmap at 1.
  rewrite as_pointer_some by apply Hn. by rewrite (Hd a).
Qed.

Definition arrived_mcp (r : mcpServerRuntime) : MCPServerConfig :=
  mkMCPServerConfig (runtime_Name r) (runtime_URL r) (runtime_AuthType r) (runtime_TokenEnvVar r)
    (runtime_CertFile r) (runtime_KeyFile r) (arrived_discovery <$> runtime_Discovery r).
Definition mcp_fits (r : mcpServerRuntime) : Prop := ∀ d, runtime_Discovery r = Some d → discovery_fits d.

Lemma mcp_arrives r : mcp_fits r → as_struct mcp_tags read_mcp (mcp_json r) = Some (arrived_mcp r).
Proof.
  intros Hd. unfold mcp_json, read_mcp. read_back.
  rewrite (pointer_arrives discovery_json _ arrived_discovery); [done|done|].
  intros d Hr. apply discovery_arrives, Hd, Hr.
Qed.

(** The tags of a webhook tool differ: its schema is written as [schema] and read as [inputSchema]. *)
Definition arrived_webhook (w : WebhookToolSpec) : WebhookToolConfig :=
  mkWebhookToolConfig (hooktool_Name w) (hooktool_Description w) (hooktool_URL w) (hooktool_Method w) "".

Lemma webhook_arrives `{!FoldLaws F} w j : webhook_json w = Some j →
  as_struct webhook_tags read_webhook j = Some (arrived_webhook w).
Proof.
  intros Hj. unfold webhook_json in Hj.
  destruct (match hooktool_Schema w with Some raw => Some <$> json_parse raw | None => Some None end)
    as [schema|]; [|done].
  simpl in Hj. injection Hj as <-. rewrite as_struct_fields.
  - unfold read_webhook. find_fields. autorewrite with wire. simpl. by autorewrite with wire.
  - apply (bool_decide_unpack _). vm_compute. exact I.
  - apply ascii_confusion; apply (bool_decide_unpack _); vm_compute; exact I.
  - intros get get' Hg. unfold read_webhook.
    repeat match goal with |- context[get ?t] => rewrite (Hg t) by (apply (bool_decide_unpack _); vm_compute; exact I) end.
    done.
Qed.

Lemma hooks_arrive `{!FoldLaws F} hooks l : mapM webhook_json hooks = Some l →
  mapM (as_struct webhook_tags read_webhook) l = Some (arrived_webhook <$> hooks).
Proof.
  intros Hl%mapM_Some. apply mapM_Some. apply Forall2_fmap_r, Forall2_flip.
  eapply Forall2_impl; [exact Hl|]. intros w j. apply webhook_arrives.
Qed.

Definition arrived_compression (c : CompressionSpec) : LoopCompressionConfig :=
  mkLoopCompressionConfig (compression_ThresholdPercent c) (compression_PreserveRecentTurns c)
    (compression_ContextWindow c) (compression_Model c) (compression_TimeoutSeconds c)
    (compression_Instructions c).
Definition compression_fits (c : CompressionSpec) : Prop :=
  in_width_b 32 (compression_ThresholdPercent c) = true ∧
  in_width_b 64 (compression_PreserveRecentTurns c) = true ∧
  in_width_b 64 (compression_ContextWindow c) = true ∧ in_width_b 64 (compression_TimeoutSeconds c) = true.
Lemma compression_arrives c : compression_fits c →
  as_struct compression_tags read_compression (compression_json c) = Some (arrived_compression c).
Proof. intros (? & ? & ? & ?). unfold compression_json, read_compression. by read_back. Qed.

(** The reference to the memory stays behind; the embedding comes from other variables. *)
Definition arrived_memory (m : AgentLoopMemory) : LoopMemoryConfig :=
  mkLoopMemoryConfig (memory_Store m) (memory_Retrieve m) (memory_TopK m) (memory_MinSimilarityPercent m)
    (memory_SummaryTokens m) (memory_MaxTokens m) "" "".
Definition memory_fits (m : AgentLoopMemory) : Prop :=
  in_width_b 64 (memory_TopK m) = true ∧ in_width_b 32 (memory_MinSimilarityPercent m) = true ∧
  in_width_b 64 (memory_SummaryTokens m) = true ∧ in_width_b 64 (memory_MaxTokens m) = true.
Lemma memory_arrives `{!FoldLaws F} m : memory_fits m →
  as_struct memory_tags read_memory (loop_memory_json m) = Some (arrived_memory m).
Proof.
  intros (? & ? & ? & ?). unfold loop_memory_json. rewrite as_struct_fields.
  - unfold read_memory. find_fields. autorewrite with wire. done.
  - apply (bool_decide_unpack _). vm_compute. exact I.
  - apply ascii_confusion; apply (bool_decide_unpack _); vm_compute; exact I.
  - intros get get' Hg. unfold read_memory.
    repeat match goal with |- context[get ?t] => rewrite (Hg t) by (apply (bool_decide_unpack _); vm_compute; exact I) end.
    done.
Qed.

Definition arrived_sandbox (s : SandboxSpec) : LoopSandboxConfig :=
  mkLoopSandboxConfig (sandbox_ThresholdBytes s) (sandbox_PreviewBytes s) (sandbox_MaxTotalBytes s).
Definition sandbox_fits (s : SandboxSpec) : Prop :=
  in_width_b 32 (sandbox_ThresholdBytes s) = true ∧ in_width_b 32 (sandbox_PreviewBytes s) = true ∧
  in_width_b 32 (sandbox_MaxTotalBytes s) = true.
Lemma sandbox_arrives s : sandbox_fits s →
  as_struct sandbox_tags read_sandbox (sandbox_json s) = Some (arrived_sandbox s).
Proof. intros (? & ? & ?). unfold sandbox_json, read_sandbox. by read_back. Qed.

Definition arrived_loop (l : AgentLoopPolicy) : LoopPolicyConfig :=
  mkLoopPolicyConfig (loop_Dedup l) (arrived_compression <$> loop_Compression l)
    (arrived_memory <$> loop_Memory l) (arrived_sandbox <$> loop_Sandbox l).
Definition loop_fits (l : AgentLoopPolicy) : Prop :=
  (∀ c, loop_Compression l = Some c → compression_fits c) ∧
  (∀ m, loop_Memory l = Some m → memory_fits m) ∧ ∀ s, loop_Sandbox l = Some s → sandbox_fits s.
Lemma loop_arrives `{!FoldLaws F} l : loop_fits l →
  as_struct loop_tags read_loop (loop_json l) = Some (arrived_loop l).
Proof.
  intros (Hc & Hm & Hs). unfold loop_json, read_loop. read_back.
  rewrite (pointer_arrives compression_json _ arrived_compression) by (try done; intros; by apply compression_arrives, Hc).
  simpl. rewrite (pointer_arrives loop_memory_json _ arrived_memory) by (try done; intros; by apply memory_arrives, Hm).
  simpl. by rewrite (pointer_arrives sandbox_json _ arrived_sandbox) by (try done; intros; by apply sandbox_arrives, Hs).
Qed.

Definition advisor_fits (a : AdvisorConfig) : Prop :=
  in_width_b 32 (RecentMessages a) = true ∧ in_width_b 32 (MaxCallsPerTask a) = true ∧
  in_width_b 32 (adv_TimeoutSeconds a) = true ∧ in_width_b 32 (MaxAdvisorTokensPerTask a) = true ∧
  in_width_b 32 (MaxContextBytes a) = true.
Lemma advisor_arrives a : advisor_fits a →
  as_struct advisor_tags read_advisor (advisor_json a) = Some a.
Proof.
  intros (? & ? & ? & ? & ?). unfold advisor_json, read_advisor. read_back.
  autorewrite with wire. by destruct a.
Qed.

Definition arrived_capability (e : GatewayCapabilityEntry) : GatewayCapabilityConfig :=
  mkGatewayCapabilityConfig (entry_Name e) (entry_Description e) (entry_Agent e) (entry_Namespace e)
    (entry_Tags e) (entry_ReadyReplicas e).
Lemma capability_arrives e : in_width_b 32 (entry_ReadyReplicas e) = true →
  as_struct capability_tags read_capability (capability_json e) = Some (arrived_capability e).
Proof. intros ?. unfold capability_json, read_capability. by read_back. Qed.

Definition gateway_fits (c : GatewayRuntimeConfig) : Prop :=
  in_width_b 32 (DispatchTimeoutSeconds c) = true ∧ in_width_b 32 (MaxDispatchDepth c) = true ∧
  in_width_b 32 (MaxResultsPerSearch c) = true ∧ in_width_b 32 (MaxDispatchCalls c) = true ∧
  in_width_b 32 (MaxSearchCalls c) = true.
Lemma gateway_arrives c : gateway_fits c →
  as_struct gateway_tags read_gateway (gateway_json c) = Some c.
Proof.
  intros (? & ? & ? & ? & ?). unfold gateway_json, read_gateway. read_back.
  autorewrite with wire. by destruct c.
Qed.

Lemma gateway_tool_arrives t :
  as_struct gateway_tool_tags read_gateway_tool (gateway_tool_json t) = Some t.
Proof. unfold gateway_tool_json, read_gateway_tool. read_back. by destruct t. Qed.

Definition arrived_breaker (cb : CircuitBreakerSpec) : CircuitBreakerConfig :=
  mkCircuitBreakerConfig (FailureThreshold cb) (CooldownSeconds cb) (HalfOpenMaxCalls cb).
Definition breaker_fits (cb : CircuitBreakerSpec) : Prop :=
  in_width_b 64 (FailureThreshold cb) = true ∧ in_width_b 64 (CooldownSeconds cb) = true ∧
  in_width_b 64 (HalfOpenMaxCalls cb) = true.
Lemma breaker_arrives cb : breaker_fits cb →
  as_struct breaker_tags read_breaker (breaker_json cb) = Some (arrived_breaker cb).
Proof. intros (? & ? & ?). unfold breaker_json, read_breaker. by read_back. Qed.

(** The mode, the sink and the lists of the audit log; no action is excluded. *)
Definition arrived_audit (cluster : clusterAuditConfig) (agent : SwarmAgent) (mode : string) : Config.AuditLogConfig :=
  Config.mkAuditLogConfig mode (cluster_sink cluster) (Z.max 0 (cluster_maxDetailBytes cluster))
    (cluster_redact cluster ++ match o ← Observability (agent_Spec agent); AuditLog o with
                               | Some a => audit_Redact a | None => [] end) []
    (cluster_redisURL cluster) (Z.max 0 (cluster_maxStreamLen cluster)) (cluster_webhookURL cluster).
Lemma positive_arrives n :
  in_width_b 64 n = true → as_int 64 (non_null (if 0 <? n then Some (JInt n) else None)) = Some (Z.max 0 n).
Proof.
  intros Hw. destruct (Z.ltb_spec 0 n); [|by rewrite Z.max_l by lia].
  rewrite as_int_always by done. by rewrite Z.max_r by lia.
Qed.
Lemma audit_arrives `{!FoldLaws F} cluster agent mode :
  in_width_b 64 (cluster_maxDetailBytes cluster) = true → in_width_b 64 (cluster_maxStreamLen cluster) = true →
  as_struct audit_tags read_audit (audit_json cluster agent mode) = Some (arrived_audit cluster agent mode).
Proof.
  intros Hd Hs. unfold audit_json, read_audit. read_back. rewrite positive_arrives by done. simpl.
  autorewrite with wire. simpl. rewrite positive_arrives by done. simpl. by autorewrite with wire.
Qed.

(** *** Lists and texts *)
Lemma array_arrives {A B} (enc : A → json) tags (read : (string → option json) → option B) (f : A → B) l :
  JsonTextLaws T → writable (JArray (enc <$> l)) = true →
  (∀ x, x ∈ l → as_struct tags read (enc x) = Some (f x)) →
  read_list tags read (json_text (JArray (enc <$> l))) = Some (f <$> l).
Proof.
  intros TL Hw Hx. unfold read_list. rewrite json_roundtrip by done. by apply mapM_json.
Qed.
Lemma list_arrives {A B} (enc : A → json) tags (read : (string → option json) → option B) (f : A → B) l :
  JsonTextLaws T → writable (list_json enc l) = true →
  (∀ x, x ∈ l → as_struct tags read (enc x) = Some (f x)) →
  read_list tags read (json_text (list_json enc l)) = Some (f <$> l).
Proof.
  intros TL Hw Hx. destruct l as [|x l]; [|by apply array_arrives].
  unfold read_list. by rewrite json_roundtrip.
Qed.
Lemma strings_arrive l :
  JsonTextLaws T → writable (JArray (JString <$> l)) = true →
  (j ← json_parse (json_text (JArray (JString <$> l))); as_strings (Some j)) = Some l.
Proof.
  intros TL Hw. rewrite json_roundtrip by done. simpl.
  rewrite (mapM_json JString _ id) by done. by rewrite list_fmap_id.
Qed.
Lemma struct_arrives {A} tags (read : (string → option json) → option A) j a :
  JsonTextLaws T → writable j = true → as_struct tags read j = Some a →
  (j ← json_parse (json_text j); as_struct tags read j) = Some a.
Proof. intros TL Hw Ha. by rewrite json_roundtrip. Qed.
End read_back.
