(* ===== verification/PodConfig.v ===== *)
(** * PodConfig: the configuration of a pod is the agent's.

    The composition of the operator and the runtime: the variables that [buildEnvVars] makes of an
    agent, seen through the environment of its container, are what [Load] turns into the
    configuration of the runner.  The container belongs to Kubernetes and is an interface. *)
From Stdlib Require Import ZArith Lia Ascii.
From stdpp Require Import base tactics option list numbers strings pretty gmap.
From S2P Require Import Prelude GoStd Config Types AgentTypes Kube Template Policy Runtime Webhooks Team Wire ConfigWire AgentEnv AgentEnvProps EnvWire.

(** ** The environment of a container *)
Class PodEnv := pod_getenv : list EnvVar → string → string.

Definition no_dollar (s : string) : bool := str_all (λ c, negb (Ascii.eqb c "$")) s.

(** Documented behaviour: a variable has the value of its last entry, where a reference to another
    variable is expanded (which takes a dollar); a variable without an entry comes from the sources
    of [envFrom], or is unset. *)
Class PodEnvLaws (P : PodEnv) (from : string → string) : Prop := {
  pod_value : ∀ env n e, last_var n env = Some e → env_ValueFrom e = None →
    no_dollar (env_Value e) = true → pod_getenv env n = env_Value e;
  pod_from : ∀ env n, last_var n env = None → pod_getenv env n = from n }.

Definition toy_pod : PodEnv := λ env n, match last_var n env with Some e => env_Value e | None => "" end.
Lemma toy_pod_laws : PodEnvLaws toy_pod (λ _, "").
Proof. split; unfold pod_getenv, toy_pod; [by intros env n e ->|by intros env n ->]. Qed.

(** ** Numbers *)
Lemma Atoi_pretty z : Atoi (itoa z) = if in_width_b 64 z then Some z else None.
Proof.
  unfold itoa, pretty, pretty_Z. destruct z as [|p|p]; [done| |].
  - destruct (pretty_N_head (Npos p)) as (c & s & E & Hc).
    assert (Atoi (String c s) = match digits_value (String c s) 0 with
              None => None | Some v => if in_width_b 64 v then Some v else None end) as E'.
    { unfold is_digit in Hc. unfold Atoi.
      destruct (decide (c = "+"%char)) as [->|Hp]; [by destruct Hc as [[] _]|].
      destruct (decide (c = "-"%char)) as [->|Hm]; [by destruct Hc as [[] _]|].
      destruct c as [[] [] [] [] [] [] [] []]; done. }
    change (pretty p) with (pretty (Npos p)). by rewrite E, E', <- E, digits_value_pretty.
  - destruct (pretty_N_head (Npos p)) as (c & s & E & _).
    change (pretty p) with (pretty (Npos p)). rewrite E.
    change ("-" +:+ String c s) with (String "-" (String c s)).
    unfold Atoi. by rewrite <- E, digits_value_pretty.
Qed.

Lemma itoa_nonempty z : itoa z ≠ "".
Proof.
  intros E. pose proof (Atoi_pretty z) as H. rewrite E in H.
  unfold itoa in E. destruct z as [|p|p]; [done| |done].
  destruct (pretty_N_head (Npos p)) as (c & s & E' & _). change (pretty (Npos p) = "") in E. congruence.
Qed.

Lemma numeric_env_itoa getenv key dflt lo hi z :
  in_width 64 lo → in_width 64 hi → getenv key = itoa z →
  if bool_decide (lo ≤ z ≤ hi) then numeric_env getenv key dflt lo hi = Ok z
  else ∃ e, numeric_env getenv key dflt lo hi = Err e.
Proof.
  intros [Hl _] [_ Hh] E. unfold numeric_env. rewrite E, decide_False by apply itoa_nonempty.
  rewrite Atoi_pretty. case_bool_decide as Hz.
  - replace (in_width_b 64 z) with true by (symmetry; apply in_width_b_true; unfold in_width; lia).
    destruct (Z.ltb_spec z lo); [lia|]. destruct (Z.gtb_spec z hi); [lia|]. done.
  - destruct (in_width_b 64 z); [|by eexists].
    destruct (Z.ltb_spec z lo); [by eexists|]. destruct (Z.gtb_spec z hi); [by eexists|]. lia.
Qed.

Lemma optional_int_itoa getenv key o :
  (∀ z, o = Some z → in_width 64 z) → getenv key = match o with Some z => itoa z | None => "" end →
  optionalIntEnv getenv key = Ok (default 0 o).
Proof.
  intros Hw E. unfold optionalIntEnv. rewrite E. destruct o as [z|]; [|done].
  rewrite decide_False by apply itoa_nonempty. rewrite Atoi_pretty.
  by replace (in_width_b 64 z) with true by (symmetry; apply in_width_b_true; by apply Hw).
Qed.

Lemma json_env_value {A} getenv key dflt (dec : string → option A) text a :
  getenv key = text → text ≠ "" → dec text = Some a → json_env getenv key dflt dec = Ok a.
Proof. intros E Hne Hd. unfold json_env. by rewrite E, decide_False, Hd by done. Qed.
Lemma json_env_unset {A} getenv key dflt (dec : string → option A) :
  getenv key = "" → json_env getenv key dflt dec = Ok dflt.
Proof. intros E. unfold json_env. by rewrite decide_True by done. Qed.

(** ** The variables of the operator *)
(** The variables [Load] reads that only the operator should write. *)
Definition config_names : list string :=
  ["AGENT_MODEL"; "AGENT_SYSTEM_PROMPT_PATH"; "AGENT_MAX_TOKENS"; "AGENT_TIMEOUT_SECONDS";
   "AGENT_MAX_RETRIES"; "AGENT_MAX_CONCURRENT_TASKS"; "AGENT_MCP_SERVERS"; "AGENT_WEBHOOK_TOOLS";
   "AGENT_TEAM_ROUTES"; "AGENT_POLICY_TOOL_DENY"; "AGENT_LOOP_POLICY"; "AGENT_EMBEDDING_MODEL";
   "AGENT_EMBEDDING_PROVIDER"; "AGENT_AUDIT_LOG"; "AGENT_REASONING_BUDGET_TOKENS"; "AGENT_MAX_THINKING_TOKENS_PER_CALL";
   "AGENT_MAX_ANSWER_TOKENS_PER_CALL"; "AGENT_DAILY_TOKEN_LIMIT"; "AGENT_ADVISORS";
   "AGENT_GATEWAY_CAPABILITIES"; "AGENT_GATEWAY_CONFIG"; "AGENT_GATEWAY_TOOLS"; "AGENT_CIRCUIT_BREAKER";
   "AGENT_POLICY_FORCE_TRUST_LEVEL"].

Section pod.
Context `{T : JsonText} {TL : JsonTextLaws T} `{F : FoldApi} {FL : FoldLaws F} `{U : UrlApi} `{W : LowerApi}
        `{S : SliceSort GatewayCapabilityEntry} `{P : PodEnv}.
Variables (agent : SwarmAgent) (inp : env_inputs) (from : string → string).
Hypothesis HP : PodEnvLaws P from.

Definition env_of_pod : string → string := pod_getenv (buildEnvVars agent inp).

(** No forwarded variable, API key or environment source takes the name of a variable of the
    operator, and no value refers to another variable. *)
Record undisturbed : Prop := {
  inject_free : ∀ e, e ∈ agentInjectEnvVars (in_Environ inp) → env_Name e ∉ config_names;
  key_free : ∀ e, in_APIKey inp = Some e → env_Name e ∉ "TASK_QUEUE_URL" :: config_names;
  from_free : ∀ n, n ∈ config_names → from n = "";
  plain_values : ∀ e, e ∈ buildEnvVars agent inp → no_dollar (env_Value e) = true }.

Definition builders : list (list EnvVar) :=
  [buildGatewayEnvVars agent (in_Capabilities inp); buildAdvisorEnvVars agent;
   buildCircuitBreakerEnvVars agent; env_audit (in_Environ inp) agent; buildLoopEnvVars agent;
   buildPolicyEnvVars (in_Policy inp); buildReasoningEnvVars agent (in_Settings inp) (in_Policy inp);
   buildPluginEnvVars agent; buildArtifactEnvVars agent; buildMCPAuthEnvVars (in_Servers inp);
   option_list (in_APIKey inp); buildTeamEnvVars (in_Environ inp) agent; buildWebhookEnvVars agent;
   buildMemoryEnvVars (in_Memory inp); mergeSettingsEnvVars (in_Settings inp);
   agentInjectEnvVars (in_Environ inp); buildObservabilityEnvVars agent;
   base_vars agent (in_Servers inp) (in_Policy inp)].

(** The last builder that writes a name decides. *)
Lemma all_vars_split n :
  last_var n (all_vars agent inp) =
    foldr (λ l rest, match last_var n l with Some e => Some e | None => rest end) None builders.
Proof.
  unfold all_vars, builders. rewrite !last_named_app. cbn [foldr].
  repeat match goal with
         | |- context [match last_var n ?l with Some a => Some a | None => last_var n ?k end] =>
             destruct (last_var n l); [reflexivity|]; cbv iota
         end.
  by destruct (last_var n (base_vars _ _ _)).
Qed.

Lemma key_skip n : undisturbed → bool_decide (n ∈ "TASK_QUEUE_URL" :: config_names) = true →
  last_var n (option_list (in_APIKey inp)) = None.
Proof.
  intros Hu Hn%bool_decide_eq_true. apply last_named_None. destruct (in_APIKey inp) as [e|] eqn:E; [|simpl; set_solver].
  simpl. intros ->%list_elem_of_singleton. by apply (key_free Hu e E).
Qed.
Lemma inject_skip n : undisturbed → bool_decide (n ∈ config_names) = true →
  last_var n (agentInjectEnvVars (in_Environ inp)) = None.
Proof.
  intros Hu Hn%bool_decide_eq_true. apply last_named_None. intros (e & -> & He)%list_elem_of_fmap.
  by apply (inject_free Hu e He).
Qed.

Lemma last_in_env n : last_var n (buildEnvVars agent inp) = last_var n (all_vars agent inp).
Proof. unfold buildEnvVars. apply last_var_dedup. Qed.

(** Only one builder writes the variable. *)
Ltac only_writer Hu :=
  rewrite all_vars_split; unfold builders; cbn [foldr];
  try rewrite (writes_skip _ _ _ (gateway_writes _ _)) by (vm_compute; reflexivity);
  try rewrite (writes_skip _ _ _ (advisor_writes _)) by (vm_compute; reflexivity);
  try rewrite (writes_skip _ _ _ (breaker_writes _)) by (vm_compute; reflexivity);
  try rewrite (writes_skip _ _ _ (audit_writes _ _)) by (vm_compute; reflexivity);
  try rewrite (writes_skip _ _ _ (loop_writes _)) by (vm_compute; reflexivity);
  try rewrite (writes_skip _ _ _ (policy_writes _)) by (vm_compute; reflexivity);
  try rewrite (writes_skip _ _ _ (reasoning_writes _ _ _)) by (vm_compute; reflexivity);
  try rewrite (writes_skip _ _ _ (plugin_writes _)) by (vm_compute; reflexivity);
  try rewrite (writes_skip _ _ _ (artifact_writes _)) by (vm_compute; reflexivity);
  try rewrite tokens_skip by (vm_compute; reflexivity);
  try rewrite key_skip by first [exact Hu | vm_compute; reflexivity];
  try rewrite (writes_skip _ _ _ (team_writes _ _)) by (vm_compute; reflexivity);
  try rewrite (writes_skip _ _ _ (webhook_writes _)) by (vm_compute; reflexivity);
  try rewrite (writes_skip _ _ _ (memory_writes _)) by (vm_compute; reflexivity);
  try rewrite (writes_skip _ _ _ (settings_writes _)) by (vm_compute; reflexivity);
  try rewrite inject_skip by first [exact Hu | vm_compute; reflexivity];
  try rewrite (writes_skip _ _ _ (observability_writes _)) by (vm_compute; reflexivity);
  try rewrite (writes_skip _ _ _ (base_writes _ _ _)) by (vm_compute; reflexivity).

Hypothesis Hu : undisturbed.


Lemma pod_set n v : last_var n (all_vars agent inp) = Some (env_value n v) → env_of_pod n = v.
Proof.
  intros E. rewrite <- last_in_env in E. unfold env_of_pod.
  rewrite (pod_value (PodEnvLaws := HP) _ _ _ E eq_refl); [done|].
  apply (plain_values Hu). by destruct (last_named_Some _ _ _ _ E) as [_ He].
Qed.

Lemma pod_var n o : bool_decide (n ∈ config_names) = true →
  last_var n (all_vars agent inp) = env_value n <$> o → env_of_pod n = default "" o.
Proof.
  intros Hn%bool_decide_eq_true E. destruct o as [v|]; [by apply pod_set|].
  rewrite <- last_in_env in E. unfold env_of_pod.
  rewrite (pod_from (PodEnvLaws := HP)) by done. by apply (from_free Hu).
Qed.

(** *** Where each variable comes from *)
Lemma pod_base n v :
  bool_decide (n ∈ config_names) = true →
  last_var n (base_vars agent (in_Servers inp) (in_Policy inp)) = Some (env_value n v) →
  last_var n (all_vars agent inp) =
    match last_var n (base_vars agent (in_Servers inp) (in_Policy inp)) with Some e => Some e | None => None end →
  env_of_pod n = v.
Proof. intros Hn E Hl. apply (pod_var n (Some v) Hn). by rewrite Hl, E. Qed.

Ltac base_var Hu :=
  apply pod_base;
  [ vm_compute; reflexivity
  | unfold base_vars; destruct (effective_limits agent (in_Policy inp)) as [[[? ?] ?] ?]; reflexivity
  | only_writer Hu; reflexivity ].

Lemma pod_model : env_of_pod "AGENT_MODEL" = agent_Model (agent_Spec agent).
Proof. base_var Hu. Qed.
Lemma pod_prompt_path : env_of_pod "AGENT_SYSTEM_PROMPT_PATH" = promptFilePath.
Proof. base_var Hu. Qed.
Lemma pod_mcp : env_of_pod "AGENT_MCP_SERVERS" = json_text (mcp_servers_json (in_Servers inp)).
Proof. base_var Hu. Qed.
Lemma pod_tokens : env_of_pod "AGENT_MAX_TOKENS" = itoa (effective_limits agent (in_Policy inp)).1.1.1.
Proof. base_var Hu. Qed.
Lemma pod_timeout : env_of_pod "AGENT_TIMEOUT_SECONDS" = itoa (effective_limits agent (in_Policy inp)).1.1.2.
Proof. base_var Hu. Qed.
Lemma pod_retries : env_of_pod "AGENT_MAX_RETRIES" = itoa (effective_limits agent (in_Policy inp)).1.2.
Proof. base_var Hu. Qed.
Lemma pod_daily : env_of_pod "AGENT_DAILY_TOKEN_LIMIT" = itoa (effective_limits agent (in_Policy inp)).2.
Proof. base_var Hu. Qed.

(** A variable that one builder writes, or none. *)
Ltac optional_var Hu o := apply (pod_var _ o); [vm_compute; reflexivity|only_writer Hu].

Lemma pod_concurrent : env_of_pod "AGENT_MAX_CONCURRENT_TASKS" = "".
Proof. by optional_var Hu (@None string). Qed.

Lemma pod_loop : env_of_pod "AGENT_LOOP_POLICY" =
  default "" ((λ l, json_text (loop_json l)) <$> runtime_Loop (aspec_Runtime (agent_Spec agent))).
Proof.
  optional_var Hu ((λ l, json_text (loop_json l)) <$> runtime_Loop (aspec_Runtime (agent_Spec agent))).
  unfold buildLoopEnvVars. by destruct (runtime_Loop _).
Qed.

Definition nonempty (s : string) : option string := if decide (s = "") then None else Some s.
Lemma last_nonempty_var n s : last_var n (env_nonempty n s) = env_value n <$> nonempty s.
Proof.
  unfold env_nonempty, nonempty. case_decide; [done|]. unfold last_named. by rewrite filter_cons_True.
Qed.
Lemma default_nonempty s : default "" (nonempty s) = s.
Proof. unfold nonempty. by case_decide. Qed.
Lemma last_int_var n o : last_var n (env_int n o) = env_value n <$> (itoa <$> o).
Proof. destruct o; [|done]. simpl. unfold last_named. by rewrite filter_cons_True. Qed.
Lemma last_other_int n k o : bool_decide (n = k) = false → last_var n (env_int k o) = None.
Proof.
  intros Hn. apply (writes_skip n [k]); [apply writes_int; set_solver|].
  apply bool_decide_eq_false. apply bool_decide_eq_false in Hn. set_solver.
Qed.
Lemma last_other_nonempty n k v : bool_decide (n = k) = false → last_var n (env_nonempty k v) = None.
Proof.
  intros Hn. apply (writes_skip n [k]); [apply writes_nonempty; set_solver|].
  apply bool_decide_eq_false. apply bool_decide_eq_false in Hn. set_solver.
Qed.

Lemma pod_audit : env_of_pod "AGENT_AUDIT_LOG" = buildAuditLogEnvVar (in_Environ inp) agent.
Proof.
  rewrite <- (default_nonempty (buildAuditLogEnvVar _ _)). apply pod_var; [vm_compute; reflexivity|only_writer Hu].
  unfold env_audit. rewrite last_nonempty_var. by destruct (nonempty _).
Qed.

Definition agent_breaker : option CircuitBreakerSpec := l ← agent_limits agent; limits_CircuitBreaker l.
Lemma pod_breaker : env_of_pod "AGENT_CIRCUIT_BREAKER" =
  default "" ((λ cb, json_text (breaker_json cb)) <$> agent_breaker).
Proof.
  optional_var Hu ((λ cb, json_text (breaker_json cb)) <$> agent_breaker).
  unfold buildCircuitBreakerEnvVars. fold agent_breaker. by destruct agent_breaker.
Qed.

Definition agent_advisors : list AdvisorConfig := omap advisor_runtime (aspec_Agents (agent_Spec agent)).
Lemma pod_advisors : env_of_pod "AGENT_ADVISORS" =
  match agent_advisors with [] => "" | l => json_text (JArray (advisor_json <$> l)) end.
Proof.
  transitivity (default "" (match agent_advisors with [] => None | l => Some (json_text (JArray (advisor_json <$> l))) end));
    [|by destruct agent_advisors].
  apply pod_var; [vm_compute; reflexivity|only_writer Hu].
  unfold buildAdvisorEnvVars. fold agent_advisors. by destruct agent_advisors.
Qed.

Lemma pod_gateway_var n (v : GatewayConfig → json) :
  bool_decide (n ∈ gateway_names) = true → bool_decide (n ∈ config_names) = true →
  (∀ gw, aspec_Gateway (agent_Spec agent) = Some gw →
     last_var n (buildGatewayEnvVars agent (in_Capabilities inp)) = Some (env_json n (v gw))) →
  last_var n (all_vars agent inp) =
    match last_var n (buildGatewayEnvVars agent (in_Capabilities inp)) with Some e => Some e | None => None end →
  env_of_pod n = match aspec_Gateway (agent_Spec agent) with Some gw => json_text (v gw) | None => "" end.
Proof.
  intros _ Hn Hv Hl. destruct (aspec_Gateway (agent_Spec agent)) as [gw|] eqn:E.
  - apply (pod_var n (Some (json_text (v gw))) Hn). by rewrite Hl, (Hv gw eq_refl).
  - apply (pod_var n None Hn). rewrite Hl. unfold buildGatewayEnvVars. by rewrite E.
Qed.

Definition agent_routable (gw : GatewayConfig) : list GatewayCapabilityEntry := routable gw (in_Capabilities inp).
Definition agent_gateway_tools (gw : GatewayConfig) : list GatewayToolConfig :=
  gateway_tools (gateway_runtime gw)
    (search_description (agent_routable gw) (length (filterCapabilities gw (in_Capabilities inp)))).

Ltac gateway_var Hu v :=
  apply (pod_gateway_var _ v);
  [ vm_compute; reflexivity | vm_compute; reflexivity
  | let E := fresh in intros ? E; unfold buildGatewayEnvVars; rewrite E; reflexivity
  | only_writer Hu; by destruct (last_var _ _) ].

Lemma pod_capabilities : env_of_pod "AGENT_GATEWAY_CAPABILITIES" =
  match aspec_Gateway (agent_Spec agent) with
  | Some gw => json_text (list_json capability_json (agent_routable gw)) | None => "" end.
Proof. gateway_var Hu (λ gw, list_json capability_json (agent_routable gw)). Qed.
Lemma pod_gateway : env_of_pod "AGENT_GATEWAY_CONFIG" =
  match aspec_Gateway (agent_Spec agent) with
  | Some gw => json_text (gateway_json (gateway_runtime gw)) | None => "" end.
Proof. gateway_var Hu (λ gw, gateway_json (gateway_runtime gw)). Qed.
Lemma pod_gateway_tools : env_of_pod "AGENT_GATEWAY_TOOLS" =
  match aspec_Gateway (agent_Spec agent) with
  | Some gw => json_text (JArray (gateway_tool_json <$> agent_gateway_tools gw)) | None => "" end.
Proof. gateway_var Hu (λ gw, JArray (gateway_tool_json <$> agent_gateway_tools gw)). Qed.

(** A variable among others: of two parts, the other does not write it. *)
Ltac skip_part names := rewrite (writes_skip _ names) by first [vm_compute; reflexivity | builder_writes].

Lemma pod_routes : env_of_pod "AGENT_TEAM_ROUTES" = agent_annotation agent AnnotationTeamRoutes.
Proof.
  rewrite <- (default_nonempty (agent_annotation agent AnnotationTeamRoutes)).
  apply pod_var; [vm_compute; reflexivity|only_writer Hu].
  unfold buildTeamEnvVars. rewrite !last_named_app, last_nonempty_var.
  rewrite !last_other_nonempty by (vm_compute; reflexivity).
  destruct (nonempty _); [done|]. simpl. skip_part ["TASK_QUEUE_URL"]. done.
Qed.

(** The queue of the agent: its team's, or its own stream of the operator's queue. *)
Definition agent_queue : string :=
  let team := agent_annotation agent AnnotationTeamQueueURL in
  if decide (team = "")
  then
    let inject := inject_queue_url (in_Environ inp) in
    let base := if decide (inject = "") then environ_lookup (in_Environ inp) "TASK_QUEUE_URL" else inject in
    if decide (base = "") then ""
    else appendStreamParam base (agent_Namespace agent +:+ "." +:+ agent_Name agent)
  else team.

Lemma pod_queue : agent_queue ≠ "" → env_of_pod "TASK_QUEUE_URL" = agent_queue.
Proof.
  intros Hq. apply pod_set. only_writer Hu.
  unfold buildTeamEnvVars. rewrite !last_named_app, !last_other_nonempty by (vm_compute; reflexivity).
  unfold agent_queue in *. by repeat case_decide.
Qed.

(** Without a queue of its own, an agent has what others supply; here, nothing. *)
Lemma pod_no_queue : agent_queue = "" → from "TASK_QUEUE_URL" = "" →
  "TASK_QUEUE_URL" ∉ env_Name <$> agentInjectEnvVars (in_Environ inp) → env_of_pod "TASK_QUEUE_URL" = "".
Proof.
  intros Hq Hf Hi.
  assert (E : last_var "TASK_QUEUE_URL" (all_vars agent inp) = None ∨
              last_var "TASK_QUEUE_URL" (all_vars agent inp) = Some (env_value "TASK_QUEUE_URL" "")).
  { assert (Ei : last_var "TASK_QUEUE_URL" (agentInjectEnvVars (in_Environ inp)) = None) by (by apply last_named_None).
    only_writer Hu. rewrite ?Ei.
    unfold buildTeamEnvVars. rewrite !last_named_app, !last_other_nonempty by (vm_compute; reflexivity).
    unfold agent_queue in Hq. repeat case_decide; simplify_eq; try (by left); right; by rewrite Hq. }
  destruct E as [E|E]; [|by apply pod_set].
  rewrite <- last_in_env in E. unfold env_of_pod. by rewrite (pod_from (PodEnvLaws := HP)).
Qed.

Definition agent_deny : list string := match in_Policy inp with Some e => ToolDeny e | None => [] end.
Lemma pod_deny : env_of_pod "AGENT_POLICY_TOOL_DENY" =
  match agent_deny with [] => "" | l => json_text (JArray (JString <$> l)) end.
Proof.
  transitivity (default "" (match agent_deny with [] => None | l => Some (json_text (JArray (JString <$> l))) end));
    [|by destruct agent_deny].
  apply pod_var; [vm_compute; reflexivity|only_writer Hu].
  unfold buildPolicyEnvVars, agent_deny. destruct (in_Policy inp) as [e|]; [|done].
  rewrite last_named_app. skip_part ["AGENT_POLICY_FORCE_TRUST_LEVEL"]. by destruct (ToolDeny e).
Qed.

Lemma pod_force : env_of_pod "AGENT_POLICY_FORCE_TRUST_LEVEL" =
  default "" (trust_string <$> (e ← in_Policy inp; ForceTrustLevel e)).
Proof.
  apply pod_var; [vm_compute; reflexivity|only_writer Hu].
  unfold buildPolicyEnvVars. destruct (in_Policy inp) as [e|]; [|done].
  rewrite last_named_app. simpl. destruct (ForceTrustLevel e) as [t|]; [done|].
  simpl. skip_part ["AGENT_POLICY_TOOL_DENY"]. done.
Qed.

Definition agent_reasoning : option ReasoningConfig :=
  mergeReasoningConfig (aspec_Reasoning (agent_Spec agent)) (in_Settings inp).

Ltac reasoning_var :=
  unfold buildReasoningEnvVars; fold agent_reasoning; rewrite !last_named_app, ?last_int_var;
  rewrite ?last_other_int by (vm_compute; reflexivity).

Lemma pod_budget : env_of_pod "AGENT_REASONING_BUDGET_TOKENS" =
  default "" (itoa <$> (rc ← agent_reasoning; reasoning_BudgetTokens rc)).
Proof.
  apply pod_var; [vm_compute; reflexivity|only_writer Hu]. reasoning_var.
  destruct agent_reasoning as [rc|]; [|done]. rewrite !last_named_app, last_int_var. simpl.
  destruct (reasoning_BudgetTokens rc); [done|]. simpl.
  by rewrite !last_other_nonempty by (vm_compute; reflexivity).
Qed.
Lemma reasoning_skip n : bool_decide (n ∈ ["AGENT_REASONING_MODE"; "AGENT_REASONING_EFFORT"; "AGENT_REASONING_BUDGET_TOKENS"]) = false →
  last_var n (match agent_reasoning with
              | Some rc => env_nonempty "AGENT_REASONING_MODE" (reasoning_mode_string (reasoning_Mode rc)) ++
                           env_nonempty "AGENT_REASONING_EFFORT" (reasoning_effort_string (reasoning_Effort rc)) ++
                           env_int "AGENT_REASONING_BUDGET_TOKENS" (reasoning_BudgetTokens rc)
              | None => [] end) = None.
Proof.
  apply writes_skip. destruct agent_reasoning; builder_writes.
Qed.
Lemma pod_thinking : env_of_pod "AGENT_MAX_THINKING_TOKENS_PER_CALL" =
  default "" (itoa <$> (thinking_limits agent (in_Policy inp)).1).
Proof.
  apply pod_var; [vm_compute; reflexivity|only_writer Hu]. reasoning_var.
  rewrite reasoning_skip by (vm_compute; reflexivity). by destruct (thinking_limits _ _).1.
Qed.
Lemma pod_answer : env_of_pod "AGENT_MAX_ANSWER_TOKENS_PER_CALL" =
  default "" (itoa <$> (thinking_limits agent (in_Policy inp)).2).
Proof.
  apply pod_var; [vm_compute; reflexivity|only_writer Hu]. reasoning_var.
  rewrite reasoning_skip by (vm_compute; reflexivity). by destruct (thinking_limits _ _).2.
Qed.

Definition agent_hooks : list WebhookToolSpec :=
  match aspec_Tools (agent_Spec agent) with Some t => tools_Webhooks t | None => [] end.
Lemma pod_webhooks : env_of_pod "AGENT_WEBHOOK_TOOLS" =
  match agent_hooks with
  | [] => ""
  | hooks => match mapM webhook_json hooks with Some l => json_text (JArray l) | None => "" end
  end.
Proof.
  transitivity (default "" (match agent_hooks with
    | [] => None
    | hooks => Some (match mapM webhook_json hooks with Some l => json_text (JArray l) | None => "" end) end));
    [|by destruct agent_hooks].
  apply pod_var; [vm_compute; reflexivity|only_writer Hu].
  unfold buildWebhookEnvVars, agent_hooks. destruct (aspec_Tools (agent_Spec agent)) as [t|]; [|done].
  by destruct (tools_Webhooks t).
Qed.

(** The embedding of a vector store. *)
Definition agent_embedding : option EmbeddingConfig :=
  m ← in_Memory inp; match Backend m with MemoryBackendVectorStore => memory_Embedding m | _ => None end.
Definition embedding_provider (emb : EmbeddingConfig) : string :=
  if decide (emb_Provider emb = "" ∨ emb_Provider emb = "auto") then DetectEmbedding (emb_Model emb)
  else emb_Provider emb.

Lemma memory_embedding n o :
  bool_decide (n ∈ ["AGENT_EMBEDDING_MODEL"; "AGENT_EMBEDDING_PROVIDER"]) = true →
  last_var n (buildEmbeddingEnvVars agent_embedding) = o → last_var n (buildMemoryEnvVars (in_Memory inp)) = o.
Proof.
  intros Hn%bool_decide_eq_true <-. unfold agent_embedding. destruct (in_Memory inp) as [m|]; [simpl|done].
  assert (Hs : ∀ l, writes_only (take 10 memory_names) l → last_var n l = None).
  { intros l Hl. apply (writes_skip n _ _ Hl). apply bool_decide_eq_false.
    apply list_elem_of_In in Hn. simpl in Hn. destruct Hn as [<-|[<-|[]]]; apply (bool_decide_unpack _); vm_compute; exact I. }
  destruct (Backend m).
  1, 2, 4: apply Hs; unfold buildRedisMemoryEnvVars; builder_writes.
  rewrite last_named_cons, last_named_app.
  destruct (last_var n (buildEmbeddingEnvVars _)); [done|].
  rewrite (Hs (buildVectorStoreMemoryEnvVars _)) by (unfold buildVectorStoreMemoryEnvVars; builder_writes).
  rewrite decide_False; [done|]. intros <-. revert Hn. apply (bool_decide_unpack _). vm_compute. exact I.
Qed.

Lemma pod_embedding_model : env_of_pod "AGENT_EMBEDDING_MODEL" = default "" (emb_Model <$> agent_embedding).
Proof.
  transitivity (default "" (emb ← agent_embedding; nonempty (emb_Model emb)));
    [|destruct agent_embedding as [emb|]; [apply (default_nonempty (emb_Model emb))|done]].
  apply pod_var; [vm_compute; reflexivity|only_writer Hu].
  erewrite memory_embedding; [|vm_compute; reflexivity|reflexivity].
  destruct agent_embedding as [emb|]; [simpl|done]. rewrite last_named_app.
  rewrite last_other_nonempty by (vm_compute; reflexivity). rewrite last_nonempty_var.
  by destruct (nonempty _).
Qed.
Lemma pod_embedding_provider :
  env_of_pod "AGENT_EMBEDDING_PROVIDER" = default "" (embedding_provider <$> agent_embedding).
Proof.
  transitivity (default "" (emb ← agent_embedding; nonempty (embedding_provider emb)));
    [|destruct agent_embedding as [emb|]; [apply (default_nonempty (embedding_provider emb))|done]].
  apply pod_var; [vm_compute; reflexivity|only_writer Hu].
  erewrite memory_embedding; [|vm_compute; reflexivity|reflexivity].
  destruct agent_embedding as [emb|]; [simpl|done]. rewrite last_named_app, last_nonempty_var.
  rewrite (last_other_nonempty _ "AGENT_EMBEDDING_MODEL") by (vm_compute; reflexivity).
  fold (embedding_provider emb). by destruct (nonempty _).
Qed.
End pod.

(** ** Forwarded variables *)

(** The operator forwards variables as defaults for the cluster, but writes them after the agent's
    own: a forwarded model or limit replaces the agent's, and the policy's ceiling with it. *)
Theorem forwarded_wins `{T : JsonText} `{F : FoldApi} `{U : UrlApi} `{W : LowerApi}
    `{S : SliceSort GatewayCapabilityEntry} (agent : SwarmAgent) (inp : env_inputs) n v :
  n ∈ base_names →
  last_var n (agentInjectEnvVars (in_Environ inp)) = Some (env_value n v) →
  (∀ e, in_APIKey inp = Some e → env_Name e ≠ n) →
  last_var n (buildEnvVars agent inp) = Some (env_value n v).
Proof.
  intros Hn Hi Hk. rewrite last_in_env, all_vars_split. unfold builders. cbn [foldr].
  assert (Hkey : last_var n (option_list (in_APIKey inp)) = None).
  { apply last_named_None. destruct (in_APIKey inp) as [e|] eqn:E; simpl; [|set_solver].
    intros ->%list_elem_of_singleton. by apply (Hk e). }
  apply list_elem_of_In in Hn.
  repeat (destruct Hn as [<-|Hn];
    [ rewrite Hi, Hkey, tokens_skip by (vm_compute; reflexivity);
      rewrite (writes_skip _ _ _ (gateway_writes _ _)), (writes_skip _ _ _ (advisor_writes _)),
        (writes_skip _ _ _ (breaker_writes _)), (writes_skip _ _ _ (audit_writes _ _)),
        (writes_skip _ _ _ (loop_writes _)), (writes_skip _ _ _ (policy_writes _)),
        (writes_skip _ _ _ (reasoning_writes _ _ _)), (writes_skip _ _ _ (plugin_writes _)),
        (writes_skip _ _ _ (artifact_writes _)), (writes_skip _ _ _ (team_writes _ _)),
        (writes_skip _ _ _ (webhook_writes _)), (writes_skip _ _ _ (memory_writes _)),
        (writes_skip _ _ _ (settings_writes _)) by (vm_compute; reflexivity);
      reflexivity |]).
  destruct Hn.
Qed.
