(* ===== verification/PodLoads.v ===== *)
(** * PodLoads: when a pod starts, and with which configuration.

    [Load] on the environment that [buildEnvVars] makes, when nothing else supplies its variables: it
    succeeds exactly when there are a model and a queue and the limits the operator computed are
    within the ranges of the runtime, and then the configuration is the agent's, field by field. *)
From Stdlib Require Import ZArith Lia Ascii.
From stdpp Require Import base tactics option list numbers strings pretty gmap.
From S2P Require Import Prelude GoStd Guards Config Types AgentTypes Kube Template Policy Runtime Webhooks Team Wire ConfigWire AgentEnv AgentEnvProps EnvWire PodConfig.

(** ** The system prompt is never blank *)
Lemma str_all_app f s t : str_all f (s +:+ t) = str_all f s && str_all f t.
Proof. induction s as [|c s IH]; [done|]. simpl. by rewrite IH, andb_assoc. Qed.

Section stripped.
Variable f : ascii → bool.
Variable runes : list string.
Hypothesis Hr : Forall (λ r, str_all f r = true) runes.

Lemma found_rune (p : string → bool) r : List.find p runes = Some r → str_all f r = true ∧ p r = true.
Proof.
  intros [Hin Hp]%List.find_some. split; [|done]. rewrite Forall_forall in Hr.
  apply Hr. by apply list_elem_of_In.
Qed.

(** Stripping these runes does not remove a byte they do not have. *)
Lemma strip_left_keeps fuel s : str_all f (strip_left runes fuel s) = str_all f s.
Proof.
  revert s. induction fuel as [|fuel IH]; intros s; [done|]. simpl.
  destruct (List.find _ _) as [r|] eqn:E; [|done]. apply found_rune in E as [Ha Hp].
  rewrite IH. apply HasPrefix_spec in Hp as [t ->]. by rewrite str_drop_app, str_all_app, Ha.
Qed.

Lemma strip_right_keeps fuel s : str_all f (strip_right runes fuel s) = str_all f s.
Proof.
  revert s. induction fuel as [|fuel IH]; intros s; [done|]. simpl.
  destruct (List.find _ _) as [r|] eqn:E; [|done]. apply found_rune in E as [Ha Hp].
  rewrite IH. set (n := (String.length s - String.length r)%nat).
  rewrite <- (str_take_drop n s) at 2. rewrite str_all_app.
  unfold HasSuffix in Hp. apply andb_true_iff in Hp as [_ Hp].
  apply String.eqb_eq in Hp. fold n in Hp. by rewrite Hp, Ha, andb_true_r.
Qed.
End stripped.

Lemma TrimSpace_keeps f s : Forall (λ r, str_all f r = true) space_runes → str_all f (TrimSpace s) = str_all f s.
Proof. intros Hr. unfold TrimSpace. by rewrite strip_right_keeps, strip_left_keeps. Qed.

Lemma str_join_has f sep l x : x ∈ l → str_all f x = false → str_all f (str_join sep l) = false.
Proof.
  intros Hx Hf. destruct l as [|y l]; [by apply not_elem_of_nil in Hx|]. simpl.
  assert (G : ∀ l acc, str_all f acc = false ∨ (∃ z, z ∈ l ∧ str_all f z = false) →
            str_all f (foldl (λ acc y, acc +:+ sep +:+ y) acc l) = false).
  { clear. intros l. induction l as [|z l IH]; intros acc H; simpl.
    - destruct H as [H|(z & Hz & _)]; [done|by apply not_elem_of_nil in Hz].
    - apply IH. rewrite !str_all_app. destruct H as [->|(x & [->|Hx]%elem_of_cons & Hf)]; [by left| |].
      + left. by rewrite Hf, !andb_false_r.
      + right. by exists x. }
  apply G. apply elem_of_cons in Hx as [->|Hx]; [by left|right; by exists x].
Qed.

(** Whatever an agent's prompt is, the pod's is not empty: it ends with the defence against
    injected instructions, which survives the trimming. *)
Lemma assembled_not_blank base settings servers : TrimSpace (assembleSystemPrompt base settings servers) ≠ "".
Proof.
  set (f := λ c, negb (Ascii.eqb c "I")). intros E.
  assert (Hr : Forall (λ r, str_all f r = true) space_runes) by (vm_compute; repeat constructor).
  pose proof (TrimSpace_keeps f (assembleSystemPrompt base settings servers) Hr) as K. rewrite E in K.
  unfold assembleSystemPrompt in K.
  rewrite (str_join_has f _ _ (TrimSpace InjectionDefenceFragment)) in K; [done| |vm_compute; reflexivity].
  rewrite !elem_of_app. do 4 right. by apply list_elem_of_singleton.
Qed.

(** ** A deployed agent *)
Section loads.
Context `{T : JsonText} {TL : JsonTextLaws T} `{F : FoldApi} {FL : FoldLaws F} `{U : UrlApi} `{W : LowerApi}
        `{S : SliceSort GatewayCapabilityEntry} `{P : PodEnv}.
Variables (agent : SwarmAgent) (inp : env_inputs) (from : string → string) (readFile : string → option string).
Hypothesis HP : PodEnvLaws P from.

Definition agent_loop : option AgentLoopPolicy := runtime_Loop (aspec_Runtime (agent_Spec agent)).
Definition agent_audit : option json :=
  let cluster := getClusterAuditConfig (in_Environ inp) in
  audit_json cluster agent <$> effective_audit_mode cluster agent.

(** The integers of the API objects have the width of their Go types. *)
Record typed : Prop := {
  typed_servers : ∀ s, s ∈ in_Servers inp → mcp_fits (buildMCPRuntimeConfig s);
  typed_loop : ∀ l, agent_loop = Some l → loop_fits l;
  typed_breaker : ∀ cb, agent_breaker agent = Some cb → breaker_fits cb;
  typed_advisors : ∀ a, a ∈ agent_advisors agent → advisor_fits a;
  typed_gateway : ∀ gw, aspec_Gateway (agent_Spec agent) = Some gw → gateway_fits (gateway_runtime gw);
  typed_capabilities : ∀ gw, aspec_Gateway (agent_Spec agent) = Some gw →
    ∀ e, e ∈ agent_routable inp gw → in_width_b 32 (entry_ReadyReplicas e) = true;
  typed_budget : ∀ z, (rc ← agent_reasoning agent inp; reasoning_BudgetTokens rc) = Some z → in_width 64 z;
  typed_thinking : ∀ z, (thinking_limits agent (in_Policy inp)).1 = Some z → in_width 64 z;
  typed_answer : ∀ z, (thinking_limits agent (in_Policy inp)).2 = Some z → in_width 64 z }.

(** The values that are written as JSON are text. *)
Record textual : Prop := {
  text_servers : writable (mcp_servers_json (in_Servers inp)) = true;
  text_hooks : ∃ l, mapM webhook_json (agent_hooks agent) = Some l ∧ writable (JArray l) = true;
  text_deny : writable (JArray (JString <$> agent_deny inp)) = true;
  text_loop : ∀ l, agent_loop = Some l → writable (loop_json l) = true;
  text_audit : ∀ j, agent_audit = Some j → writable j = true;
  text_breaker : ∀ cb, agent_breaker agent = Some cb → writable (breaker_json cb) = true;
  text_advisors : writable (JArray (advisor_json <$> agent_advisors agent)) = true;
  text_gateway : ∀ gw, aspec_Gateway (agent_Spec agent) = Some gw →
    writable (list_json capability_json (agent_routable inp gw)) = true ∧
    writable (gateway_json (gateway_runtime gw)) = true ∧
    writable (JArray (gateway_tool_json <$> agent_gateway_tools inp gw)) = true }.

(** The routes of a team, as its annotation gives them. *)
Definition arrived_routes (text : string) : option (gmap string string) :=
  if decide (text = "") then Some ∅ else j ← json_parse text; as_string_map j.

(** Nobody but the operator supplies a variable that [Load] reads and the operator writes, and what the
    operator writes is read as it is written. *)
Record deployable (routes : gmap string string) : Prop := {
  dep_undisturbed : undisturbed agent inp from;
  dep_queue : agent_queue agent inp = "" →
    from "TASK_QUEUE_URL" = "" ∧ "TASK_QUEUE_URL" ∉ env_Name <$> agentInjectEnvVars (in_Environ inp);
  dep_routes : arrived_routes (agent_annotation agent AnnotationTeamRoutes) = Some routes;
  dep_typed : typed;
  dep_textual : textual }.

(** The loop policy with the embedding of the memory. *)
Definition arrived_policy (l : AgentLoopPolicy) : LoopPolicyConfig :=
  let p := arrived_loop l in
  match agent_embedding inp with
  | Some emb =>
      if decide (emb_Model emb = "") then p
      else
        let m := default (mkLoopMemoryConfig false false 0 0 0 0 "" "") (Memory p) in
        p <| Memory := Some (m <| EmbeddingModel := emb_Model emb |>
                               <| EmbeddingProvider := embedding_provider emb |>) |>
  | None => p
  end.

(** The ranges of the runtime. *)
Definition startable (limits : Z * Z * Z * Z) : Prop :=
  let '(tokens, timeout, retries, daily) := limits in
  1 ≤ tokens ≤ 200000 ∧ 1 ≤ timeout ≤ 86400 ∧ 0 ≤ retries ≤ 100 ∧ 0 ≤ daily ≤ max_int 64.
#[export] Instance startable_dec limits : Decision (startable limits).
Proof. destruct limits as [[[t u] r] d]. apply _. Defined.

(** A model, a queue, and limits within the ranges. *)
Definition complete_spec : Prop :=
  agent_Model (agent_Spec agent) ≠ "" ∧ agent_queue agent inp ≠ "" ∧ startable (effective_limits agent (in_Policy inp)).
#[export] Instance complete_spec_dec : Decision complete_spec.
Proof. unfold complete_spec. apply _. Defined.

(** The configuration is the agent's. *)
Record configured_as (base : string) (routes : gmap string string) (cfg : Config) : Prop := {
  conf_model : cfg_Model cfg = agent_Model (agent_Spec agent);
  conf_prompt : cfg_SystemPrompt cfg = TrimSpace (assembleSystemPrompt base (in_Settings inp) (in_Servers inp));
  conf_queue : TaskQueueURL cfg = agent_queue agent inp;
  conf_limits : (Config.MaxTokensPerCall cfg, Config.TimeoutSeconds cfg, cfg_MaxRetries cfg, DailyTokenLimit cfg) =
    effective_limits agent (in_Policy inp);
  conf_concurrent : Config.MaxConcurrentTasks cfg = 5;
  conf_servers : MCPServers cfg = arrived_mcp <$> buildMCPRuntimeConfigs (in_Servers inp);
  conf_hooks : WebhookTools cfg = arrived_webhook <$> agent_hooks agent;
  conf_routes : TeamRoutes cfg = routes;
  conf_deny : ToolDenyPatterns cfg = agent_deny inp;
  conf_trust : PolicyForceTrustLevel cfg = default "" (trust_string <$> (e ← in_Policy inp; ForceTrustLevel e));
  conf_loop : LoopPolicy cfg = arrived_policy <$> agent_loop;
  conf_audit : Config.AuditLog cfg =
    arrived_audit (getClusterAuditConfig (in_Environ inp)) agent <$>
    effective_audit_mode (getClusterAuditConfig (in_Environ inp)) agent;
  conf_reasoning : (ReasoningBudgetTokens cfg, Config.MaxThinkingTokensPerCall cfg, Config.MaxAnswerTokensPerCall cfg) =
    (default 0 (rc ← agent_reasoning agent inp; reasoning_BudgetTokens rc),
     default 0 (thinking_limits agent (in_Policy inp)).1, default 0 (thinking_limits agent (in_Policy inp)).2);
  conf_advisors : Advisors cfg = agent_advisors agent;
  conf_capabilities : GatewayCapabilities cfg =
    match aspec_Gateway (agent_Spec agent) with
    | Some gw => arrived_capability <$> agent_routable inp gw | None => [] end;
  conf_gateway : Config.GatewayConfig cfg = gateway_runtime <$> aspec_Gateway (agent_Spec agent);
  conf_gateway_tools : GatewayTools cfg =
    match aspec_Gateway (agent_Spec agent) with Some gw => agent_gateway_tools inp gw | None => [] end;
  conf_breaker : CircuitBreaker cfg = arrived_breaker <$> agent_breaker agent }.

#[local] Existing Instance wire_config.
Notation getenv := (env_of_pod agent inp).

Section reads.
Context (base : string) (routes : gmap string string) (D : deployable routes).
Hypothesis mounted_prompt : readFile promptFilePath = Some (assembleSystemPrompt base (in_Settings inp) (in_Servers inp)).

Let Hu : undisturbed agent inp from := dep_undisturbed _ D.
Let Ht : typed := dep_typed _ D.
Let Hx : textual := dep_textual _ D.

Lemma reads_prompt : loadSystemPrompt getenv readFile =
  Ok (TrimSpace (assembleSystemPrompt base (in_Settings inp) (in_Servers inp))).
Proof.
  unfold loadSystemPrompt. rewrite (pod_prompt_path agent inp from HP Hu).
  rewrite decide_False by done. rewrite mounted_prompt. rewrite decide_False; [done|].
  apply assembled_not_blank.
Qed.

Lemma reads_mcp : json_env getenv "AGENT_MCP_SERVERS" [] unmarshal_mcp =
  Ok (arrived_mcp <$> buildMCPRuntimeConfigs (in_Servers inp)).
Proof.
  eapply json_env_value; [apply (pod_mcp agent inp from HP Hu)|apply json_text_nonempty|].
  apply array_arrives; [done|apply (text_servers Hx)|].
  intros r (s & -> & Hs)%list_elem_of_fmap. apply mcp_arrives. exact (typed_servers Ht s Hs).
Qed.

Lemma reads_hooks : json_env getenv "AGENT_WEBHOOK_TOOLS" [] unmarshal_webhooks =
  Ok (arrived_webhook <$> agent_hooks agent).
Proof.
  pose proof (pod_webhooks agent inp from HP Hu) as E. destruct (text_hooks Hx) as (l & Hl & Hw).
  destruct (agent_hooks agent) as [|w hooks]; [by apply json_env_unset|].
  rewrite Hl in E. eapply json_env_value; [exact E|apply json_text_nonempty|].
  cbn [unmarshal_webhooks wire_config]. unfold read_list. rewrite json_roundtrip by done.
  exact (hooks_arrive _ _ Hl).
Qed.

Lemma reads_routes : json_env getenv "AGENT_TEAM_ROUTES" ∅ unmarshal_routes = Ok routes.
Proof.
  pose proof (pod_routes agent inp from HP Hu) as E. pose proof (dep_routes _ D) as R.
  unfold arrived_routes in R. case_decide as Hr.
  - rewrite Hr in E. injection R as <-. by apply json_env_unset.
  - by eapply json_env_value.
Qed.

Lemma reads_deny : json_env getenv "AGENT_POLICY_TOOL_DENY" [] unmarshal_strings = Ok (agent_deny inp).
Proof.
  pose proof (pod_deny agent inp from HP Hu) as E. pose proof (text_deny Hx) as Hw.
  destruct (agent_deny inp) as [|x l]; [by apply json_env_unset|].
  eapply json_env_value; [exact E|apply json_text_nonempty|]. by apply strings_arrive.
Qed.

Lemma reads_loop : parseLoopPolicy getenv = Ok (arrived_policy <$> agent_loop).
Proof.
  unfold parseLoopPolicy. pose proof (pod_loop agent inp from HP Hu) as E. fold agent_loop in E.
  assert (R : json_env getenv "AGENT_LOOP_POLICY" None (λ raw, Some <$> unmarshal_loop raw) =
              Ok (arrived_loop <$> agent_loop)).
  { pose proof (text_loop Hx) as Hw. pose proof (typed_loop Ht) as Hf.
    destruct agent_loop as [l|]; [|by apply json_env_unset].
    eapply json_env_value; [exact E|apply json_text_nonempty|]. simpl.
    rewrite (struct_arrives loop_tags read_loop _ (arrived_loop l)); auto using loop_arrives. }
  rewrite R. simpl. rewrite (pod_embedding_model agent inp from HP Hu), (pod_embedding_provider agent inp from HP Hu).
  f_equal. destruct agent_loop as [l|]; [|done]. simpl. f_equal. unfold arrived_policy.
  by destruct (agent_embedding inp) as [emb|].
Qed.

Lemma mode_active cluster mode : effective_audit_mode cluster agent = Some mode → ¬ (mode = "" ∨ mode = "off").
Proof.
  unfold effective_audit_mode. destruct (agent_audit_mode agent); [case_decide|..]; try done.
  - by intros [= <-].
  - intros [= <-] [|]; done.
  - intros [= <-] [|]; done.
Qed.

Lemma cluster_int key : in_width_b 64 (default 0 (Atoi (environ_lookup (in_Environ inp) key))) = true.
Proof.
  apply in_width_b_true. destruct (Atoi _) as [n|] eqn:E; [by eapply Atoi_range|]. by vm_compute.
Qed.

Lemma reads_audit : parseAuditLog getenv =
  Ok (arrived_audit (getClusterAuditConfig (in_Environ inp)) agent <$>
      effective_audit_mode (getClusterAuditConfig (in_Environ inp)) agent).
Proof.
  unfold parseAuditLog. pose proof (pod_audit agent inp from HP Hu) as E. unfold buildAuditLogEnvVar in E.
  pose proof (text_audit Hx) as Hw. unfold agent_audit in Hw.
  destruct (effective_audit_mode _ agent) as [mode|] eqn:M; [|by rewrite json_env_unset].
  rewrite (json_env_value getenv _ None _ _
    (Some (arrived_audit (getClusterAuditConfig (in_Environ inp)) agent mode)) E (json_text_nonempty _)).
  - simpl. rewrite decide_False; [done|]. by eapply mode_active.
  - simpl. rewrite (struct_arrives audit_tags read_audit _ (arrived_audit (getClusterAuditConfig (in_Environ inp)) agent mode));
      [done|done|by apply Hw|]. apply audit_arrives; apply cluster_int.
Qed.

Lemma reads_advisors : json_env getenv "AGENT_ADVISORS" [] unmarshal_advisors = Ok (agent_advisors agent).
Proof.
  pose proof (pod_advisors agent inp from HP Hu) as E. pose proof (text_advisors Hx) as Hw.
  pose proof (typed_advisors Ht) as Hf.
  destruct (agent_advisors agent) as [|a l]; [by apply json_env_unset|].
  eapply json_env_value; [exact E|apply json_text_nonempty|]. cbn [unmarshal_advisors wire_config].
  rewrite (array_arrives advisor_json advisor_tags read_advisor id); [by rewrite list_fmap_id|done|done|].
  intros x Hin. by apply advisor_arrives, Hf.
Qed.

(** A variable of the gateway. *)
Lemma reads_gateway_var {A} key (dflt : A) (dec : string → option A) (j : GatewayConfig → json)
    (v : GatewayConfig → A) :
  getenv key = match aspec_Gateway (agent_Spec agent) with Some gw => json_text (j gw) | None => "" end →
  (∀ gw, aspec_Gateway (agent_Spec agent) = Some gw → dec (json_text (j gw)) = Some (v gw)) →
  json_env getenv key dflt dec =
    Ok (match aspec_Gateway (agent_Spec agent) with Some gw => v gw | None => dflt end).
Proof.
  intros E Hd. destruct (aspec_Gateway (agent_Spec agent)) as [gw|]; [|by apply json_env_unset].
  by eapply json_env_value; [exact E|apply json_text_nonempty|apply Hd].
Qed.

Lemma reads_capabilities :
  json_env getenv "AGENT_GATEWAY_CAPABILITIES" [] unmarshal_capabilities =
    Ok (match aspec_Gateway (agent_Spec agent) with
        | Some gw => arrived_capability <$> agent_routable inp gw | None => [] end).
Proof.
  apply (reads_gateway_var _ [] _ _ (λ gw, arrived_capability <$> agent_routable inp gw)
           (pod_capabilities agent inp from HP Hu)).
  intros gw E. apply list_arrives; [done|by apply (text_gateway Hx gw E)|].
  intros e He. by apply capability_arrives, (typed_capabilities Ht gw E).
Qed.

Lemma reads_gateway :
  json_env getenv "AGENT_GATEWAY_CONFIG" None (λ raw, Some <$> unmarshal_gateway raw) =
    Ok (gateway_runtime <$> aspec_Gateway (agent_Spec agent)).
Proof.
  rewrite (reads_gateway_var _ None _ _ (λ gw, Some (gateway_runtime gw)) (pod_gateway agent inp from HP Hu)).
  - by destruct (aspec_Gateway (agent_Spec agent)).
  - intros gw E. cbn [unmarshal_gateway wire_config].
    rewrite (struct_arrives gateway_tags read_gateway _ (gateway_runtime gw)); [done|done| |].
    + by apply (text_gateway Hx gw E).
    + apply gateway_arrives, (typed_gateway Ht gw E).
Qed.

Lemma reads_gateway_tools :
  json_env getenv "AGENT_GATEWAY_TOOLS" [] unmarshal_gateway_tools =
    Ok (match aspec_Gateway (agent_Spec agent) with Some gw => agent_gateway_tools inp gw | None => [] end).
Proof.
  apply (reads_gateway_var _ [] _ _ (λ gw, agent_gateway_tools inp gw) (pod_gateway_tools agent inp from HP Hu)).
  intros gw E. cbn [unmarshal_gateway_tools wire_config].
  rewrite (array_arrives gateway_tool_json gateway_tool_tags read_gateway_tool id); [by rewrite list_fmap_id|done| |].
  - by apply (text_gateway Hx gw E).
  - intros t _. apply gateway_tool_arrives.
Qed.

Lemma reads_breaker :
  json_env getenv "AGENT_CIRCUIT_BREAKER" None (λ raw, Some <$> unmarshal_breaker raw) =
    Ok (arrived_breaker <$> agent_breaker agent).
Proof.
  pose proof (pod_breaker agent inp from HP Hu) as E. pose proof (text_breaker Hx) as Hw.
  pose proof (typed_breaker Ht) as Hf.
  destruct (agent_breaker agent) as [cb|]; [|by apply json_env_unset].
  eapply json_env_value; [exact E|apply json_text_nonempty|]. simpl.
  rewrite (struct_arrives breaker_tags read_breaker _ (arrived_breaker cb)); auto using breaker_arrives.
Qed.

(** An optional number of the reasoning. *)
Lemma reads_optional key o :
  (∀ z, o = Some z → in_width 64 z) → getenv key = default "" (itoa <$> o) →
  optionalIntEnv getenv key = Ok (default 0 o).
Proof. intros Hw E. apply optional_int_itoa; [done|]. by rewrite E; destruct o. Qed.

Lemma reads_daily d : (effective_limits agent (in_Policy inp)).2 = d →
  if bool_decide (0 ≤ d ≤ max_int 64) then daily_limit getenv = Ok d else ∃ e, daily_limit getenv = Err e.
Proof.
  intros <-. unfold daily_limit. rewrite (pod_daily agent inp from HP Hu). set (d := (effective_limits _ _).2).
  rewrite decide_False by apply itoa_nonempty. rewrite Atoi_pretty. case_bool_decide as Hd.
  - replace (in_width_b 64 d) with true by (symmetry; apply in_width_b_true; unfold in_width, min_int; lia).
    destruct (Z.ltb_spec d 0); [lia|done].
  - destruct (in_width_b 64 d) eqn:E; [|by eexists]. apply in_width_b_true in E. destruct E as [_ E].
    destruct (Z.ltb_spec d 0); [by eexists|]. lia.
Qed.

Lemma reads_required key v : getenv key = v → v ≠ "" → requireEnv getenv key = Ok v.
Proof. intros <- Hv. unfold requireEnv. by rewrite decide_False. Qed.
Lemma reads_missing key : getenv key = "" → ∃ e, requireEnv getenv key = Err e.
Proof. intros E. unfold requireEnv. rewrite decide_True by done. by eexists. Qed.

Lemma limit_width : in_width 64 0 ∧ in_width 64 1 ∧ in_width 64 100 ∧ in_width 64 86400 ∧ in_width 64 200000.
Proof. unfold in_width, min_int, max_int. lia. Qed.

(** The numeric limits: all in their ranges, or an error. *)
Lemma reads_numeric :
  let '(t, u, r, d) := effective_limits agent (in_Policy inp) in
  if bool_decide (1 ≤ t ≤ 200000 ∧ 1 ≤ u ≤ 86400 ∧ 0 ≤ r ≤ 100)
  then applyNumericEnvs getenv = Ok (t, u, r, 5)
  else ∃ e, applyNumericEnvs getenv = Err e.
Proof.
  destruct limit_width as (W0 & W1 & W100 & Wt & Wk).
  pose proof (numeric_env_itoa getenv _ 8000 1 200000 _ W1 Wk (pod_tokens agent inp from HP Hu)) as Nt.
  pose proof (numeric_env_itoa getenv _ 120 1 86400 _ W1 Wt (pod_timeout agent inp from HP Hu)) as Nu.
  pose proof (numeric_env_itoa getenv _ 3 0 100 _ W0 W100 (pod_retries agent inp from HP Hu)) as Nr.
  destruct (effective_limits agent (in_Policy inp)) as [[[t u] r] d]. simpl in *. unfold applyNumericEnvs.
  destruct (bool_decide_reflect (1 ≤ t ≤ 200000)) as [Ht'|Ht'];
    [rewrite Nt|destruct Nt as [e Nt]; rewrite Nt, bool_decide_eq_false_2 by tauto; by exists e].
  destruct (bool_decide_reflect (1 ≤ u ≤ 86400)) as [Hu'|Hu'];
    [rewrite Nu|destruct Nu as [e Nu]; rewrite Nu, bool_decide_eq_false_2 by tauto; by exists e].
  destruct (bool_decide_reflect (0 ≤ r ≤ 100)) as [Hr'|Hr'];
    [rewrite Nr|destruct Nr as [e Nr]; rewrite Nr, bool_decide_eq_false_2 by tauto; by exists e].
  rewrite bool_decide_eq_true_2 by tauto. simpl. unfold numeric_env.
  by rewrite (pod_concurrent agent inp from HP Hu).
Qed.

(** The configuration, or the error. *)
Lemma pod_loads :
  if bool_decide complete_spec
  then ∃ cfg, Load getenv readFile = Ok cfg ∧ configured_as base routes cfg
  else ∃ e, Load getenv readFile = Err e.
Proof.
  unfold Load. pose proof (pod_model agent inp from HP Hu) as Em.
  destruct (bool_decide_reflect (agent_Model (agent_Spec agent) ≠ "")) as [Hm|Hm].
  2:{ rewrite bool_decide_eq_false_2 by (unfold complete_spec; tauto). destruct (reads_missing "AGENT_MODEL") as [e ->].
      { rewrite Em. destruct (decide (agent_Model (agent_Spec agent) = "")); tauto. }
      by exists e. }
  rewrite (reads_required _ _ Em Hm), reads_prompt. cbn [result_bind].
  destruct (bool_decide_reflect (agent_queue agent inp ≠ "")) as [Hq|Hq].
  2:{ rewrite bool_decide_eq_false_2 by (unfold complete_spec; tauto).
      assert (Eq : agent_queue agent inp = "") by (destruct (decide (agent_queue agent inp = "")); tauto).
      destruct (dep_queue _ D Eq) as [Hf Hi].
      destruct (reads_missing _ (pod_no_queue agent inp from HP Hu Eq Hf Hi)) as [e ->]. by exists e. }
  rewrite (reads_required _ _ (pod_queue agent inp from HP Hu Hq) Hq). cbn [result_bind].
  rewrite (bool_decide_ext complete_spec (startable (effective_limits agent (in_Policy inp))))
    by (unfold complete_spec; tauto). pose proof reads_numeric as N.
  pose proof (reads_daily (effective_limits agent (in_Policy inp)).2 eq_refl) as Nd.
  pose proof (conf_limits base routes) as CL.
  destruct (effective_limits agent (in_Policy inp)) as [[[t u] r] d] eqn:EL. simpl in Nd.
  destruct (bool_decide_reflect (1 ≤ t ≤ 200000 ∧ 1 ≤ u ≤ 86400 ∧ 0 ≤ r ≤ 100)) as [Hn|Hn].
  2:{ destruct N as [e N]. rewrite N, bool_decide_eq_false_2 by (simpl; tauto). by exists e. }
  rewrite N. cbn [result_bind]. unfold applyJSONEnvs.
  rewrite reads_mcp, reads_hooks, reads_routes, reads_deny. cbn [result_bind].
  rewrite reads_loop, reads_audit. cbn [result_bind].
  rewrite (reads_optional _ _ (typed_budget Ht) (pod_budget agent inp from HP Hu)),
    (reads_optional _ _ (typed_thinking Ht) (pod_thinking agent inp from HP Hu)),
    (reads_optional _ _ (typed_answer Ht) (pod_answer agent inp from HP Hu)). cbn [result_bind].
  destruct (bool_decide_reflect (0 ≤ d ≤ max_int 64)) as [Hd|Hd].
  2:{ destruct Nd as [e Nd]. rewrite Nd, bool_decide_eq_false_2 by (simpl; tauto). by exists e. }
  rewrite Nd. cbn [result_bind]. rewrite reads_advisors, reads_capabilities, reads_gateway, reads_gateway_tools, reads_breaker.
  rewrite bool_decide_eq_true_2 by (simpl; tauto).
  eexists. split; [reflexivity|]. split; try reflexivity.
  - simpl. by rewrite EL.
  - apply (pod_force agent inp from HP Hu).
Qed.

(** when nothing but the operator supplies the variables it writes, an agent's pod starts exactly when the
    agent has a model and a queue and the limits that the operator computes from the agent and
    the policies are within the ranges of the runtime, and then its configuration is the agent's:
    the model, the assembled prompt, the queue, the limits, the servers, tools, advisors, gateway,
    guards and reasoning arrive as they were set; webhook tools arrive without their schema, and
    the number of concurrent tasks is the default. *)
Theorem pod_configured :
  if bool_decide complete_spec
  then ∃ cfg, Load getenv readFile = Ok cfg ∧ configured_as base routes cfg
  else ∃ e, Load getenv readFile = Err e.
Proof. exact pod_loads. Qed.
End reads.
End loads.

(** ** A deployed agent on which the theorems about pods are evaluated.
    The agent has limits, a breaker, a sandbox, an MCP server with a token, an advisor and a gateway,
    with a policy over it; the library interfaces are instantiated by toy functions. *)
#[local] Existing Instances toy_json_text toy_json_text_laws toy_fold_case toy_fold_case_laws toy_url wire_config toy_pod.
#[local] Instance lower_ascii : LowerApi := ToLower.
#[local] Instance merge_entries : SliceSort GatewayCapabilityEntry := merge_sort_by.

Definition pod_server : MCPToolSpec :=
  mkMCPToolSpec "search" "http://search" (Some (mkMCPServerAuth (Some (mkKeySelector "tokens" "search")) None)) ""
    TrustUnset "Search first." [] (Some (mkMCPDiscoveryConfig true 60)).

Definition pod_limits (tokens : Z) : GuardrailLimits :=
  mkGuardrailLimits tokens 2 60 5000 0 (Some 400) None (Some (mkCircuitBreakerSpec 5 30 1)).

Definition pod_agent (tokens : Z) : SwarmAgent :=
  mkSwarmAgent "writer" "prod" 1 ∅ ∅
    (mkSwarmAgentSpec "m" [] (Some (mkAgentGuardrails None (Some "monthly") (Some (pod_limits tokens)))) None None
       (Some (mkAgentPrompt "Write." None)) []
       (mkAgentRuntime None None None
          (Some (mkAgentLoopPolicy true None None (Some (mkSandboxSpec 2048 0 0)))) None [] None)
       (Some (mkAgentTools [pod_server] [mkWebhookToolSpec "hook" "http://hook" "POST" "" TrustUnset None]))
       [mkAgentConnection "critic" (Some "critic") None AgentConnectionRoleAdvisor None TrustUnset "Be brief."]
       (Some (mkGatewayConfig [] ["critic"] false "default" DispatchModeUnset 0 0 0 2 0 None))
       (Some (mkReasoningConfig ReasoningAuto ReasoningEffortLow (Some 1000))))
    (ready_status 1).

Definition pod_entry (name : string) (ready : Z) : GatewayCapabilityEntry :=
  mkGatewayCapabilityEntry name "" name "prod" ["t"] ready false.

Definition pod_policy : EffectivePolicySpec :=
  mkEffectivePolicySpec None ["shell/*"] (Some ToolTrustExternal) OutputLevelUnset [] None (mkPolicyRequirements false false false)
    PolicyEnforcementAudit.

Definition pod_inputs (environ : list string) : env_inputs :=
  mkEnvInputs environ [] None None [pod_server] (Some pod_policy) [pod_entry "critic" 1; pod_entry "idle" 0].

Definition pod_file (inp : env_inputs) (path : string) : option string :=
  if decide (path = promptFilePath) then Some (assembleSystemPrompt "Write." (in_Settings inp) (in_Servers inp))
  else None.

Definition pod_environ : list string := ["TASK_QUEUE_URL=redis://q"; "SWARM_AGENT_INJECT_OPENAI_BASE_URL=http://llm"].

Lemma forall_checked {A} (P : A → Prop) `{∀ x, Decision (P x)} (l : list A) :
  forallb (λ x, bool_decide (P x)) l = true → ∀ x, x ∈ l → P x.
Proof.
  intros E x Hx. rewrite forallb_forall in E. eapply bool_decide_eq_true_1, E. by apply list_elem_of_In.
Qed.

Ltac checked := eapply forall_checked; vm_compute; reflexivity.

Ltac at_some :=
  let E := fresh "E" in intros ? E; vm_compute in E; first [discriminate E | injection E as <-].
Ltac in_width := vm_compute; repeat split; reflexivity.

Section sample.
Variable tokens : Z.
Notation agent := (pod_agent tokens).
Notation inp := (pod_inputs pod_environ).

Lemma pod_typed : typed agent inp.
Proof.
  split.
  - intros s ->%list_elem_of_singleton d [= <-]. reflexivity.
  - at_some. split; [done|]. split; [done|]. intros s [= <-]. in_width.
  - at_some. in_width.
  - unfold advisor_fits. checked.
  - at_some. in_width.
  - at_some. checked.
  - at_some. by apply in_width_b_true.
  - at_some. by apply in_width_b_true.
  - at_some.
Qed.
Lemma pod_textual : textual agent inp.
Proof.
  split.
  - in_width.
  - eexists. split; vm_compute; reflexivity.
  - in_width.
  - at_some. in_width.
  - at_some.
  - at_some. in_width.
  - in_width.
  - at_some. in_width.
Qed.
Lemma pod_deployable : undisturbed agent inp (λ _, "") →
  deployable agent inp (λ _, "") ∅.
Proof.
  intros Hu. split; [done|by vm_compute|reflexivity|apply pod_typed|apply pod_textual].
Qed.
End sample.

Ltac plain_sample := split; [checked|intros e E; discriminate E|reflexivity|checked].

Lemma pod_configured_witness :
  (∃ cfg, Load (env_of_pod (pod_agent 1000) (pod_inputs pod_environ)) (pod_file (pod_inputs pod_environ)) = Ok cfg ∧
     configured_as (pod_agent 1000) (pod_inputs pod_environ) "Write." ∅ cfg) ∧
  ∃ e, Load (env_of_pod (pod_agent 300000) (pod_inputs pod_environ)) (pod_file (pod_inputs pod_environ)) = Err e.
Proof.
  pose proof (λ tokens D, pod_configured (pod_agent tokens) (pod_inputs pod_environ) (λ _, "")
    (pod_file (pod_inputs pod_environ)) toy_pod_laws "Write." ∅ D eq_refl) as H. split.
  - specialize (H 1000 ltac:(apply pod_deployable; plain_sample)).
    rewrite bool_decide_eq_true_2 in H by (vm_compute; intuition discriminate). exact H.
  - specialize (H 300000 ltac:(apply pod_deployable; plain_sample)).
    rewrite bool_decide_eq_false_2 in H by (vm_compute; intuition). exact H.
Defined.

Lemma mtls_volumes_collide_witness :
  ¬ NoDup (volume_Name <$> buildMCPVolumes
      [mkMCPToolSpec "JIRA" "http://jira" (Some (mkMCPServerAuth None (Some "jira-cert"))) "" TrustUnset "" [] None;
       mkMCPToolSpec "DOCS" "http://docs" (Some (mkMCPServerAuth None (Some "docs-cert"))) "" TrustUnset "" [] None]).
Proof. apply (mtls_volumes_collide "JIRA" "DOCS"); reflexivity. Defined.

Lemma forwarded_wins_witness :
  let inp := pod_inputs ["SWARM_AGENT_INJECT_AGENT_MAX_TOKENS=90000"] in
  last_var "AGENT_MAX_TOKENS" (base_vars (pod_agent 1000) [pod_server] (Some pod_policy)) =
    Some (env_value "AGENT_MAX_TOKENS" "1000") ∧
  last_var "AGENT_MAX_TOKENS" (buildEnvVars (pod_agent 1000) inp) = Some (env_value "AGENT_MAX_TOKENS" "90000").
Proof.
  split; [vm_compute; reflexivity|].
  apply forwarded_wins; [vm_compute; set_solver|vm_compute; reflexivity|discriminate].
Defined.
