(* ===== verification/AgentController.v ===== *)
(** * AgentController: the agent controller (internal/controller/swarmagent_controller.go,
    swarmagent_advisor.go, swarmagent_gateway.go, reasoning_cascade.go).

    A reconciliation reads what an agent refers to, enforces its budgets, and creates or patches
    the objects of one namespace that belong to it; it works on a copy of the agent whose status
    it writes back at the end.  The calls to the API server are numbered and may fail, as in Api.
    Of the objects only what the controller writes or reads is modelled; the defaults the server
    adds, owner references, the constants of a pod (its ports and security contexts), events and
    notifications are left out; of a URL that does not parse only that it does not. *)
From Stdlib Require Import ZArith Lia Ascii.
From stdpp Require Import base tactics option list numbers strings gmap.
From S2P Require Import Prelude GoStd Guards Types AgentTypes Kube Api Template Policy Dispatch Runtime Webhooks Team Wire AgentEnv.

(** ** net/url, as far as the controller uses it *)
Record parsed_url := mkParsedURL {
  url_Scheme : string;
  url_Host : string;
  url_Hostname : string;
  (** [u.Query().Get(k)], and the text without the parameter. *)
  url_Query : string → string;
  url_Without : string → string }.
Class NetUrl := url_Parse : string → option parsed_url.

(** ** The objects of a namespace *)
Inductive EnvFromSource := EnvFromEntry (name : string) | EnvFromOptionalSecret (name : string).

Record Probe := mkProbe {
  probe_Path : string;
  InitialDelaySeconds : Z;
  PeriodSeconds : Z;
  probe_TimeoutSeconds : Z }.

Record Container := mkContainer {
  container_Image : string;
  ImagePullPolicy : string;
  Resources : ResourceRequirements;
  Env : list EnvVar;
  EnvFrom : list EnvFromSource;
  VolumeMounts : list VolumeMount;
  LivenessProbe : Probe;
  ReadinessProbe : Probe }.

(** The spec of a Deployment with its pod template, and its status. *)
Record Deployment := mkDeployment {
  dep_Labels : gmap string string;
  dep_Replicas : Z;
  dep_Annotations : gmap string string;
  TerminationGracePeriodSeconds : option Z;
  ServiceAccountName : string;
  dep_ImagePullSecrets : list string;
  Containers : list Container;
  Volumes : list Volume;
  dep_StatusReplicas : Z;
  dep_StatusReady : Z }.

#[export] Instance eta_Deployment : Settable Deployment := λ d,
  mkDeployment (dep_Labels d) (dep_Replicas d) (dep_Annotations d) (TerminationGracePeriodSeconds d)
    (ServiceAccountName d) (dep_ImagePullSecrets d) (Containers d) (Volumes d) (dep_StatusReplicas d)
    (dep_StatusReady d).

Inductive NetworkPolicyPeer := NamespacePeer (name : string) | IPBlockPeer (cidr : string).
Inductive Protocol := UDP | TCP.

(** No ports and no peers: everything. *)
Record EgressRule := mkEgressRule {
  egress_Ports : list (Protocol * Z);
  egress_To : list NetworkPolicyPeer }.

(** The policy selects the pods with this label, and admits no ingress. *)
Record NetworkPolicy := mkNetworkPolicy {
  np_PodSelector : string * string;
  np_Egress : list EgressRule }.

Record ScaledObject := mkScaledObject {
  scaler_Target : string;
  scaler_Min : Z;
  scaler_Max : Z;
  scaler_Address : string;
  scaler_Stream : string;
  scaler_Group : string;
  scaler_Pending : string }.

Inductive rbac_kind := KindServiceAccount | KindRole | KindRoleBinding.
#[export] Instance rbac_kind_eq : EqDecision rbac_kind.
Proof. solve_decision. Defined.

#[export] Instance env_source_eq : EqDecision EnvVarSource.
Proof. solve_decision. Defined.
#[export] Instance env_var_eq : EqDecision EnvVar.
Proof. solve_decision. Defined.
#[export] Instance env_from_eq : EqDecision EnvFromSource.
Proof. solve_decision. Defined.
#[export] Instance probe_eq : EqDecision Probe.
Proof. solve_decision. Defined.
#[export] Instance volume_source_eq : EqDecision VolumeSource.
Proof. solve_decision. Defined.
#[export] Instance volume_eq : EqDecision Volume.
Proof. solve_decision. Defined.
#[export] Instance volume_mount_eq : EqDecision VolumeMount.
Proof. solve_decision. Defined.
#[export] Instance resources_eq : EqDecision ResourceRequirements.
Proof. solve_decision. Defined.
#[export] Instance container_eq : EqDecision Container.
Proof. solve_decision. Defined.
#[export] Instance deployment_eq : EqDecision Deployment.
Proof. solve_decision. Defined.

(** ** What the reconciler sees *)

(** The objects it only reads, its flags, the environment of the operator and the network. *)
Record agent_env := mkAgentEnv {
  env_now : Z;
  env_Environ : list string;
  AgentImage : string;
  AgentImagePullPolicy : string;
  AgentImagePullSecrets : list string;
  OperatorNamespace : string;
  settings_objects : gmap string SwarmSettings;
  memory_objects : gmap string SwarmMemory;
  (** Secrets with their resource versions. *)
  secret_objects : gmap string (string * gmap string string);
  budget_objects : gmap string SwarmBudget;
  policy_objects : list SwarmPolicy;
  run_objects : list RunResource;
  (** The agents of the cluster. *)
  agent_objects : list SwarmAgent;
  LookupHost : string → result string (list string);
  (** [net.DialTimeout]: the error, if there is one. *)
  Dial : string → option string }.

(** The objects it writes, and its caches of what exists in the namespace. *)
Record namespace := mkNamespace {
  deployments : gmap string Deployment;
  configMaps : gmap string (gmap string string);
  networkPolicies : gmap string NetworkPolicy;
  scaledObjects : gmap string ScaledObject;
  (** In the order the server lists them. *)
  registries : list SwarmRegistry;
  rbac_objects : list rbac_kind;
  stored_status : option SwarmAgentStatus;
  registryEnsured : bool;
  saEnsured : bool }.

#[export] Instance eta_namespace : Settable namespace := λ n,
  mkNamespace (deployments n) (configMaps n) (networkPolicies n) (scaledObjects n) (registries n)
    (rbac_objects n) (stored_status n) (registryEnsured n) (saEnsured n).

(** The copy of the agent, the namespace and the number of calls made. *)
Record pass := mkPass { swarmAgent : SwarmAgent; ns : namespace; requests : nat }.
#[export] Instance eta_pass : Settable pass := λ s, mkPass (swarmAgent s) (ns s) (requests s).

Definition reconciling (A : Type) : Type := stateful pass A.
Definition changing (f : pass → pass) : reconciling () := λ s, (tt, f s).
Definition reading {A} (f : pass → A) : reconciling A := λ s, (f s, s).
Definition changing_status (f : SwarmAgentStatus → SwarmAgentStatus) : reconciling () :=
  changing (λ s, s <| swarmAgent ::= λ a, a <| agent_Status ::= f |> |>).

Open Scope api_scope.

Section controller.
Context `{JsonText} `{FoldApi} `{U : UrlApi} `{NetUrl} `{LowerApi} `{C : ConditionApi} `{HashApi}
        `{SliceSort GatewayCapabilityEntry}.
Variable faults : nat → fault.
Variable env : agent_env.

(** ** Calls *)
Definition request {A} (call : fault → reconciling A) : reconciling A :=
  λ s, call (faults (requests s)) (s <| requests ::= S |>).

Definition get_object {A} (find : namespace → option A) : reconciling (get_result A) := request (λ f s,
  (match f with
   | Works => match find (ns s) with Some a => Found a | None => NotFound end
   | Missing => NotFound
   | Broken e => GetFailed e
   end, s)).

Definition list_objects {A} (l : A) : reconciling (result string A) := request (λ f s,
  (match f with Works => Ok l | Missing => Err "not found" | Broken e => Err e end, s)).

(** A create, patch, update or delete that succeeds has this effect. *)
Definition write_object (effect : namespace → namespace) : reconciling (result string ()) := request (λ f s,
  match f with
  | Works => (Ok tt, s <| ns ::= effect |>)
  | Missing => (Err "not found", s)
  | Broken e => (Err e, s)
  end).

Definition updateStatus : reconciling (result string ()) := request (λ f s,
  match f with
  | Works => (Ok tt, s <| ns ::= λ n, n <| stored_status := Some (agent_Status (swarmAgent s)) |> |>)
  | Missing => (Err "not found", s)
  | Broken e => (Err e, s)
  end).

(** ** Conditions *)
Definition find_registry (name : string) (n : namespace) : option SwarmRegistry :=
  List.find (λ r, String.eqb (registry_Name r) name) (registries n).

Definition ConditionReady := "Ready".
Definition ConditionBudgetExceeded := "BudgetExceeded".
Definition ConditionRegistryNotFound := "RegistryNotFound".
Definition ConditionMCPDegraded := "MCPDegraded".
Definition ConditionAdvisorsReady := "AdvisorsReady".
Definition ConditionReasoningActive := "ReasoningActive".

Definition set_condition (condType : string) (status : ConditionStatus) (reason message : string) : reconciling () :=
  changing (λ s, s <| swarmAgent ::= λ a, a <| agent_Status ::= λ st,
    st <| agent_Conditions ::= λ l, setCondition l (agent_Generation a) condType status reason message |> |> |>).

Definition remove_condition (condType : string) : reconciling () :=
  changing_status (λ st, st <| agent_Conditions ::= λ l, RemoveStatusCondition l condType |>).

(** [apimeta.IsStatusConditionTrue] *)
Definition condition_true (agent : SwarmAgent) (condType : string) : bool :=
  match FindStatusCondition (agent_Conditions (agent_Status agent)) condType with
  | Some c => bool_decide (cond_Status c = ConditionTrue)
  | None => false
  end.

(** ** What the agent refers to *)
Fixpoint load_settings (refs : list string) : reconciling (result string (list SwarmSettings)) :=
  match refs with
  | [] => answer_with (Ok [])
  | ref :: refs =>
      s <-- get_object (λ _, settings_objects env !! ref);
      match s with
      | Found s => rest <-! load_settings refs; answer_with (Ok (s :: rest))
      | NotFound => answer_with (Err ("fetching SwarmSettings " +:+ Quote ref +:+ ": not found"))
      | GetFailed e => answer_with (Err ("fetching SwarmSettings " +:+ Quote ref +:+ ": " +:+ e))
      end
  end.
Definition loadSettingsRefs : reconciling (result string (list SwarmSettings)) :=
  agent <-- reading swarmAgent; load_settings (aspec_Settings (agent_Spec agent)).

Definition memory_reference (agent : SwarmAgent) : option string :=
  l ← runtime_Loop (aspec_Runtime (agent_Spec agent)); m ← loop_Memory l; memory_Ref m.

Definition loadSwarmMemory : reconciling (result string (option SwarmMemory)) :=
  agent <-- reading swarmAgent;
  match memory_reference agent with
  | None => answer_with (Ok None)
  | Some ref =>
      m <-- get_object (λ _, memory_objects env !! ref);
      answer_with (match m with
                   | Found m => Ok (Some m)
                   | NotFound => Ok None
                   | GetFailed e => Err ("fetching SwarmMemory " +:+ Quote ref +:+ ": " +:+ e)
                   end)
  end.

(** The value of a key of an object of some kind. *)
Definition prompt_value (kind : string) (ref : KeySelector) (data : get_result (gmap string string))
    : result string string :=
  match data with
  | Found data =>
      match data !! selector_Key ref with
      | Some val => Ok val
      | None => Err ("key " +:+ Quote (selector_Key ref) +:+ " not found in " +:+ kind +:+ " " +:+ Quote (selector_Name ref))
      end
  | NotFound => Err ("reading " +:+ kind +:+ " " +:+ Quote (selector_Name ref) +:+ " for prompt.from: not found")
  | GetFailed e => Err ("reading " +:+ kind +:+ " " +:+ Quote (selector_Name ref) +:+ " for prompt.from: " +:+ e)
  end.

Definition resolveSystemPrompt : reconciling (result string string) :=
  agent <-- reading swarmAgent;
  match aspec_Prompt (agent_Spec agent) with
  | None => answer_with (Ok "")
  | Some prompt =>
      match prompt_From prompt with
      | None => answer_with (Ok (prompt_Inline prompt))
      | Some src =>
          match ConfigMapKeyRef src, prompt_SecretKeyRef src with
          | Some ref, _ =>
              cm <-- get_object (λ n, configMaps n !! selector_Name ref);
              answer_with (prompt_value "ConfigMap" ref cm)
          | None, Some ref =>
              sec <-- get_object (λ _, snd <$> secret_objects env !! selector_Name ref);
              answer_with (prompt_value "Secret" ref sec)
          | None, None => answer_with (Ok (prompt_Inline prompt))
          end
      end
  end.

Definition hashPrompt (prompt : string) : string := sha256_hex prompt.

Definition resolveAPIKeyEnvVar : reconciling (result string (option EnvVar * string)) :=
  agent <-- reading swarmAgent;
  match i ← Infrastructure (agent_Spec agent); infra_APIKeyRef i with
  | None => answer_with (Ok (None, ""))
  | Some ref =>
      sec <-- get_object (λ _, secret_objects env !! selector_Name ref);
      answer_with (match sec with
        | Found sec => Ok (Some (env_secret (selector_Key ref) (selector_Name ref) (selector_Key ref)), sec.1)
        | NotFound => Err ("fetching Secret " +:+ Quote (selector_Name ref) +:+ " for apiKeyRef: not found")
        | GetFailed e => Err ("fetching Secret " +:+ Quote (selector_Name ref) +:+ " for apiKeyRef: " +:+ e)
        end)
  end.

(** The last binding of a capability wins. *)
Definition mcp_bindings (registries : list SwarmRegistry) : gmap string string :=
  foldl (λ m b, <[CapabilityID b := binding_URL b]> m) ∅ (reg ← registries; MCPBindings (registry_Spec reg)).

Fixpoint resolve_servers (bindings : gmap string string) (namespace : string) (servers : list MCPToolSpec)
    : result string (list MCPToolSpec) :=
  match servers with
  | [] => Ok []
  | s :: rest =>
      if decide (mcptool_CapabilityRef s = "")
      then rest <-? resolve_servers bindings namespace rest; Ok (s :: rest)
      else match bindings !! mcptool_CapabilityRef s with
           | None => Err ("MCP server " +:+ Quote (mcptool_Name s) +:+ ": capabilityRef " +:+
                          Quote (mcptool_CapabilityRef s) +:+ " not found in any SwarmRegistry in namespace " +:+
                          Quote namespace)
           | Some url =>
               rest <-? resolve_servers bindings namespace rest;
               Ok (mkMCPToolSpec (mcptool_Name s) url (mcptool_Auth s) (mcptool_CapabilityRef s)
                     (mcptool_Trust s) (mcptool_Instructions s) (mcptool_Headers s) (mcptool_Discovery s) :: rest)
           end
  end.

Definition resolveMCPServers : reconciling (result string (list MCPToolSpec)) :=
  agent <-- reading swarmAgent;
  match aspec_Tools (agent_Spec agent) with
  | None => answer_with (Ok [])
  | Some tools =>
      if bool_decide (Forall (λ s, mcptool_CapabilityRef s = "") (tools_MCP tools))
      then answer_with (Ok (tools_MCP tools))
      else
        here <-- reading (λ s, registries (ns s));
        l <-- list_objects here;
        answer_with (match l with
          | Err e => Err ("listing SwarmRegistries: " +:+ e)
          | Ok l => resolve_servers (mcp_bindings l) (agent_Namespace agent) (tools_MCP tools)
          end)
  end.

(** The first policy whose status carries the merged policy; an error counts as no policy. *)
Definition fetchEffectivePolicy : reconciling (option EffectivePolicySpec) :=
  l <-- list_objects (policy_objects env);
  answer_with (match l with
    | Err _ | Ok [] => None
    | Ok l => match omap (λ p, EffectivePolicy (policy_Status p)) l with
              | ep :: _ => Some ep
              | [] => (MergePolicies l).1
              end
    end).

(** ** The registry, the budgets, the service account *)
Definition default_registry (agent : SwarmAgent) : SwarmRegistry :=
  mkSwarmRegistry "default" (agent_Namespace agent) 0 None (mkSwarmRegistrySpec RegistryScopeNamespace 0 [])
    (mkSwarmRegistryStatus 0 [] None [] 0 []).

Definition registry_ensured : reconciling () := changing (λ s, s <| ns ::= λ n, n <| registryEnsured := true |> |>).

(** A create that finds the object there counts as done. *)
Definition ensureDefaultRegistry : reconciling (result string ()) :=
  ensured <-- reading (λ s, registryEnsured (ns s));
  if ensured then answer_with (Ok tt)
  else
    reg <-- get_object (find_registry "default");
    match reg with
    | Found _ => _ <-- registry_ensured; answer_with (Ok tt)
    | GetFailed e => answer_with (Err ("checking default SwarmRegistry: " +:+ e))
    | NotFound =>
        agent <-- reading swarmAgent;
        c <-- write_object (λ n, match find_registry "default" n with
                                 | Some _ => n
                                 | None => n <| registries ::= λ l, l ++ [default_registry agent] |>
                                 end);
        match c with
        | Ok _ => _ <-- registry_ensured; answer_with (Ok tt)
        | Err e => answer_with (Err ("creating default SwarmRegistry: " +:+ e))
        end
    end.

Definition reconcileRegistryRef : reconciling () :=
  agent <-- reading swarmAgent;
  match i ← Infrastructure (agent_Spec agent); infra_RegistryRef i with
  | None => remove_condition ConditionRegistryNotFound
  | Some ref =>
      reg <-- get_object (find_registry ref);
      match reg with
      | NotFound =>
          set_condition ConditionRegistryNotFound ConditionTrue ConditionRegistryNotFound
            ("SwarmRegistry " +:+ Quote ref +:+ " not found in namespace " +:+ Quote (agent_Namespace agent) +:+
             "; agent will not be indexed")
      | _ => remove_condition ConditionRegistryNotFound
      end
  end.

Definition reconcileBudgetRef : reconciling (result string ()) :=
  agent <-- reading swarmAgent;
  match g ← Guardrails (agent_Spec agent); guard_BudgetRef g with
  | None => answer_with (Ok tt)
  | Some ref =>
      b <-- get_object (λ _, budget_objects env !! ref);
      match b with
      | NotFound => answer_with (Ok tt)
      | GetFailed e => answer_with (Err ("fetching SwarmBudget " +:+ Quote ref +:+ ": " +:+ e))
      | Found b =>
          if budget_HardStop (budget_Spec b) && bool_decide (budget_Phase (budget_Status b) = BudgetExceeded)
          then
            _ <-- set_condition ConditionBudgetExceeded ConditionTrue "BudgetRefExceeded"
                    ("SwarmBudget " +:+ Quote (budget_Name b) +:+ " is exceeded (" +:+ budget_SpentUSD (budget_Status b) +:+
                     "/" +:+ budget_Limit (budget_Spec b) +:+ " " +:+ budget_Currency (budget_Spec b) +:+
                     "); replicas scaled to 0");
            answer_with (Ok tt)
          else answer_with (Ok tt)
      end
  end.

(** The tokens of an agent in a window: their sums and the earliest completion. *)
Record window_usage := mkWindowUsage { window_tokens : TokenUsage; earliestInWindow : option Z }.

Definition step_agent (roleAgent : gmap string string) (st : PipelineStepStatus) : string :=
  if decide (step_ResolvedAgent st = "") then default "" (roleAgent !! step_Name st) else step_ResolvedAgent st.

Definition count_step (name : string) (windowStart : Z) (roleAgent : gmap string string) (u : window_usage)
    (st : PipelineStepStatus) : window_usage :=
  if decide (step_agent roleAgent st = name) then
    match step_TokenUsage st, step_CompletionTime st with
    | Some t, Some done =>
        if done <? windowStart then u
        else
          let sum := window_tokens u in
          mkWindowUsage
            (mkTokenUsage (wrap64 (InputTokens sum + InputTokens t)) (wrap64 (OutputTokens sum + OutputTokens t))
               (ThinkingTokens sum) (wrap64 (TotalTokens sum + TotalTokens t)) (usage_Model sum))
            (match earliestInWindow u with
             | Some e => if done <? e then Some done else Some e
             | None => Some done
             end)
    | _, _ => u
    end
  else u.

Definition run_roles (run : SwarmRun) : gmap string string :=
  foldl (λ m role, <[role_Name role := resolveRoleAgentName (TeamRef (Spec run)) role]> m) ∅ (Roles (Spec run)).

Definition count_run (name : string) (windowStart : Z) (u : window_usage) (run : RunResource) : window_usage :=
  foldl (count_step name windowStart (run_roles (object_Run run))) u (Steps (Status (object_Run run))).

Definition daily_window : Z := 24 * 3600 * second.

Definition daily_usage (agent : SwarmAgent) (runs : list RunResource) : window_usage :=
  foldl (count_run (agent_Name agent) (env_now env - daily_window)) (mkWindowUsage (mkTokenUsage 0 0 0 0 "") None) runs.

Definition own_runs (agent : SwarmAgent) : list RunResource :=
  let team := label agent LabelTeam in
  if decide (team = "") then run_objects env
  else filter (λ r, has_label LabelTeam team r = true) (run_objects env).

Definition daily_token_limit (agent : SwarmAgent) : Z :=
  match agent_limits agent with Some l => DailyTokens l | None => 0 end.

(** The answer is when to come back, in nanoseconds. *)
Definition reconcileDailyBudget : reconciling (result string Z) :=
  agent <-- reading swarmAgent;
  runs <-- list_objects (own_runs agent);
  match runs with
  | Err e => answer_with (Err ("listing runs for budget: " +:+ e))
  | Ok runs =>
      let u := daily_usage agent runs in
      let total := TotalTokens (window_tokens u) in
      let limit := daily_token_limit agent in
      _ <-- changing_status (λ st, st <| DailyTokenUsage := if 0 <? total then Some (window_tokens u) else None |>);
      if limit <=? 0 then _ <-- remove_condition ConditionBudgetExceeded; answer_with (Ok 0)
      else if limit <=? total then
        _ <-- set_condition ConditionBudgetExceeded ConditionTrue "DailyLimitReached"
                ("daily token usage " +:+ itoa total +:+ " exceeds limit " +:+ itoa limit +:+ "; replicas scaled to 0");
        answer_with (Ok (match earliestInWindow u with
                         | Some e => time_Sub (e + daily_window) (env_now env) + 60 * second
                         | None => 3600 * second
                         end))
      else _ <-- remove_condition ConditionBudgetExceeded; answer_with (Ok 0)
  end.

(** *** The service account with its role *)
Definition has_rbac (kind : rbac_kind) (n : namespace) : option () :=
  if decide (kind ∈ rbac_objects n) then Some tt else None.

Definition rbac_name (kind : rbac_kind) : string :=
  match kind with KindServiceAccount => "ServiceAccount" | KindRole => "Role" | KindRoleBinding => "RoleBinding" end.

Definition ensure_rbac (kind : rbac_kind) : reconciling (result string ()) :=
  x <-- get_object (has_rbac kind);
  match x with
  | Found _ => answer_with (Ok tt)
  | GetFailed e => answer_with (Err ("getting agent " +:+ rbac_name kind +:+ ": " +:+ e))
  | NotFound =>
      c <-- write_object (λ n, n <| rbac_objects ::= cons kind |>);
      answer_with (match c with Ok _ => Ok tt
                   | Err e => Err ("creating agent " +:+ rbac_name kind +:+ ": " +:+ e) end)
  end.

Definition ensure_all_rbac : reconciling (result string ()) :=
  _ <-! ensure_rbac KindServiceAccount;
  _ <-! ensure_rbac KindRole;
  _ <-! ensure_rbac KindRoleBinding;
  _ <-- changing (λ s, s <| ns ::= λ n, n <| saEnsured := true |> |>);
  answer_with (Ok tt).

Definition reconcileAgentServiceAccount : reconciling (result string ()) :=
  ensured <-- reading (λ s, saEnsured (ns s));
  if ensured then
    probe <-- get_object (has_rbac KindServiceAccount);
    match probe with
    | Found _ => answer_with (Ok tt)
    | _ => _ <-- changing (λ s, s <| ns ::= λ n, n <| saEnsured := false |> |>); ensure_all_rbac
    end
  else ensure_all_rbac.

(** ** The prompt *)
Definition reconcilePromptConfigMap (assembledPrompt : string) : reconciling (result string ()) :=
  agent <-- reading swarmAgent;
  let cmName := agent_Name agent +:+ "-prompt" in
  let desired := {[promptConfigMapKey := assembledPrompt]} in
  let store := λ n : namespace, n <| configMaps ::= <[cmName := desired]> |> in
  existing <-- get_object (λ n, configMaps n !! cmName);
  match existing with
  | NotFound => write_object store
  | GetFailed e => answer_with (Err e)
  | Found data =>
      if decide (default "" (data !! promptConfigMapKey) = assembledPrompt) then answer_with (Ok tt)
      else write_object store
  end.

(** ** The gateway's capabilities *)
Definition registry_reference (agent : SwarmAgent) : option string :=
  i ← Infrastructure (agent_Spec agent); infra_RegistryRef i.

Definition capability_entries (agent : SwarmAgent) : list GatewayCapabilityEntry :=
  (λ c, mkGatewayCapabilityEntry (cap_Name c) (cap_Description c) (agent_Name agent) (agent_Namespace agent)
          (cap_Tags c) (ReadyReplicas (agent_Status agent)) (bool_decide (is_Some (aspec_Gateway (agent_Spec agent)))))
    <$> Capabilities (agent_Spec agent).

(** The members of a registry other than the gateway. *)
Definition registry_members (gateway : SwarmAgent) (reg : string) (agents : list SwarmAgent) : list SwarmAgent :=
  filter (λ a, ¬ (agent_Name a = agent_Name gateway ∧ agent_Namespace a = agent_Namespace gateway) ∧
               registry_reference a = Some reg) agents.

Definition resolveGatewayCapabilities (gateway : SwarmAgent)
    : reconciling (result string (list GatewayCapabilityEntry)) :=
  match aspec_Gateway (agent_Spec gateway) with
  | None => answer_with (Ok [])
  | Some gw =>
      reg <-- get_object (find_registry (gateway_RegistryRef gw));
      match reg with
      | NotFound => answer_with (Ok [])
      | GetFailed e => answer_with (Err ("fetching SwarmRegistry " +:+ Quote (gateway_RegistryRef gw) +:+ ": " +:+ e))
      | Found reg =>
          l <-- list_objects (if decide (Scope (registry_Spec reg) = RegistryScopeCluster) then agent_objects env
                              else filter (λ a, agent_Namespace a = agent_Namespace gateway) (agent_objects env));
          answer_with (match l with
            | Ok l => Ok (registry_members gateway (registry_Name reg) l ≫= capability_entries)
            | Err e => Err ("listing SwarmAgents for registry " +:+ Quote (registry_Name reg) +:+ ": " +:+ e)
            end)
      end
  end.

Definition resolveGatewayCapsForReconcile : reconciling (result string (list GatewayCapabilityEntry)) :=
  agent <-- reading swarmAgent;
  l <-- resolveGatewayCapabilities agent;
  match l with
  | Ok l => answer_with (Ok l)
  | Err e =>
      _ <-- set_condition ConditionReady ConditionFalse "ReconcileError" e;
      _ <-- updateStatus;
      answer_with (Err e)
  end.

(** ** The deployment *)
Definition default_resources : ResourceRequirements :=
  mkResourceRequirements (Some {["cpu" := "100m"; "memory" := "128Mi"]})
    (Some {["cpu" := "500m"; "memory" := "512Mi"; "ephemeral-storage" := "256Mi"]}).

Definition agentResources (agent : SwarmAgent) : ResourceRequirements :=
  match runtime_Resources (aspec_Runtime (agent_Spec agent)) with
  | None => default_resources
  | Some r =>
      let limits := default ∅ (resource_Limits r) in
      mkResourceRequirements (resource_Requests r)
        (Some (match limits !! "ephemeral-storage" with
               | Some _ => limits
               | None => <["ephemeral-storage" := "256Mi"]> limits
               end))
  end.

Definition agentImagePullPolicy : string :=
  if decide (AgentImagePullPolicy env = "") then "Always" else AgentImagePullPolicy env.

Definition agentImagePullSecrets (agent : SwarmAgent) : list string :=
  match ImagePullSecrets (aspec_Runtime (agent_Spec agent)) with [] => AgentImagePullSecrets env | l => l end.

Definition agentAPIKeysSecret := "kubeswarm-api-keys".
Definition agentServiceAccount := "swarm-agent".
Definition AnnotationSystemPromptHash := "kubeswarm/system-prompt-hash".
Definition AnnotationAPIKeyVersion := "kubeswarm/api-key-version".

Definition deployment_labels (agent : SwarmAgent) : gmap string string :=
  {["app.kubernetes.io/name" := "agent"; "app.kubernetes.io/instance" := agent_Name agent;
    "app.kubernetes.io/managed-by" := "kubeswarm"; "kubeswarm/deployment" := agent_Name agent]}.

Definition env_from (agent : SwarmAgent) : list EnvFromSource :=
  (EnvFromEntry <$> default [] (infra_EnvFrom <$> Infrastructure (agent_Spec agent))) ++
  [EnvFromOptionalSecret agentAPIKeysSecret] ++
  (let credSecret := agent_annotation agent AnnotationTeamArtifactCredentials in
   if decide (credSecret = "") then [] else [EnvFromOptionalSecret credSecret]).

(** [deploymentInput], with the inputs of the environment; the settings, memory, key, servers,
    policy and capabilities are those of [env_inputs]. *)
Record deploymentInput := mkDeploymentInput {
  assembledPrompt : string;
  apiKeyVersion : string;
  dep_inputs : env_inputs }.

Definition desired_replicas_of (agent : SwarmAgent) : Z :=
  if condition_true agent ConditionBudgetExceeded then 0
  else default 1 (Replicas (aspec_Runtime (agent_Spec agent))).

Definition buildDeployment (agent : SwarmAgent) (inp : deploymentInput) : Deployment :=
  let servers := in_Servers (dep_inputs inp) in
  mkDeployment (deployment_labels agent) (desired_replicas_of agent)
    {[AnnotationSystemPromptHash := sha256_hex (assembledPrompt inp); AnnotationAPIKeyVersion := apiKeyVersion inp]}
    (DrainTimeoutSeconds (aspec_Runtime (agent_Spec agent))) agentServiceAccount (agentImagePullSecrets agent)
    [mkContainer (AgentImage env) agentImagePullPolicy (agentResources agent) (buildEnvVars agent (dep_inputs inp))
       (env_from agent) (buildVolumeMounts agent servers) (mkProbe "/healthz" 10 30 0) (mkProbe "/readyz" 10 30 20)]
    (buildVolumes agent servers) 0 0.

(** What the controller copies to a deployment that exists: of the containers, all of the modelled
    fields of the first. *)
Definition copy_deployment (desired existing : Deployment) : Deployment :=
  existing <| dep_Replicas := dep_Replicas desired |>
           <| dep_Annotations := dep_Annotations desired |>
           <| Containers := match Containers existing, Containers desired with
                            | _ :: sidecars, c :: _ => c :: sidecars
                            | _, l => l
                            end |>
           <| Volumes := Volumes desired |>
           <| dep_ImagePullSecrets := dep_ImagePullSecrets desired |>.

Definition deployment_name (agent : SwarmAgent) : string := agent_Name agent +:+ "-agent".

Definition gateway_status (gw : GatewayConfig) (caps : list GatewayCapabilityEntry) : GatewayStatus :=
  mkGatewayStatus (wrap32 (Z.of_nat (length (filterCapabilities gw caps)))) (wrap32 (Z.of_nat (length caps)))
    (Some (env_now env)).

Definition reconcileDeployment (inp : list GatewayCapabilityEntry → deploymentInput)
    : reconciling (result string ()) :=
  caps <-! resolveGatewayCapsForReconcile;
  agent <-- reading swarmAgent;
  _ <-- (match aspec_Gateway (agent_Spec agent) with
         | Some gw => changing_status (λ st, st <| agent_GatewayStatus := Some (gateway_status gw caps) |>)
         | None => answer_with tt
         end);
  let name := deployment_name agent in
  let desired := buildDeployment agent (inp caps) in
  existing <-- get_object (λ n, deployments n !! name);
  match existing with
  | NotFound => write_object (λ n, n <| deployments ::= <[name := desired]> |>)
  | GetFailed e => answer_with (Err e)
  | Found d =>
      if decide (copy_deployment desired d = d) then answer_with (Ok tt)
      else write_object (λ n, n <| deployments ::= <[name := copy_deployment desired d]> |>)
  end.

(** ** The network policy *)
Fixpoint mcp_hosts (servers : list MCPToolSpec) : list (string * string) :=
  match servers with
  | [] => []
  | s :: rest =>
      match url_Parse (mcptool_URL s) with
      | Some u => if decide (url_Hostname u = "") then mcp_hosts rest
                  else (mcptool_Name s, url_Hostname u) :: mcp_hosts rest
      | None => mcp_hosts rest
      end
  end.

Fixpoint add_addresses (seen : gset string) (addrs : list string) : gset string * list NetworkPolicyPeer :=
  match addrs with
  | [] => (seen, [])
  | addr :: rest =>
      let cidr := addr +:+ "/32" in
      if decide (cidr ∈ seen) then add_addresses seen rest
      else let '(seen, peers) := add_addresses ({[cidr]} ∪ seen) rest in (seen, IPBlockPeer cidr :: peers)
  end.

Fixpoint collect_peers (seen : gset string) (hosts : list (string * string))
    : result string (list NetworkPolicyPeer) :=
  match hosts with
  | [] => Ok []
  | (name, hostname) :: rest =>
      match LookupHost env hostname with
      | Err e => Err ("DNS lookup for MCP server " +:+ Quote name +:+ " (" +:+ hostname +:+ "): " +:+ e)
      | Ok addrs =>
          let '(seen, peers) := add_addresses seen addrs in
          more <-? collect_peers seen rest; Ok (peers ++ more)
      end
  end.

Definition resolveMCPIPs (servers : list MCPToolSpec) : result string (list NetworkPolicyPeer) :=
  collect_peers ∅ (mcp_hosts servers).

Definition dnsEgress : EgressRule := mkEgressRule [(UDP, 53); (TCP, 53)] [].
Definition redisEgress : EgressRule :=
  mkEgressRule [(TCP, 6379)]
    [NamespacePeer (if decide (OperatorNamespace env = "") then "kubeswarm-system" else OperatorNamespace env)].

Definition buildNetworkPolicy (agent : SwarmAgent) (servers : list MCPToolSpec) (mode : NetworkPolicyMode)
    : result string NetworkPolicy :=
  egress <-? match mode with
             | NetworkPolicyModeStrict =>
                 match resolveMCPIPs servers with
                 | Err e => Err ("resolving MCP IPs for strict NetworkPolicy: " +:+ e)
                 | Ok [] => Ok []
                 | Ok peers => Ok [mkEgressRule [(TCP, 443)] peers]
                 end
             | _ => Ok [mkEgressRule [] []]
             end;
  Ok (mkNetworkPolicy ("kubeswarm/deployment", agent_Name agent) ([dnsEgress; redisEgress] ++ egress)).

Definition network_mode (agent : SwarmAgent) : NetworkPolicyMode :=
  match infra_NetworkPolicy <$> Infrastructure (agent_Spec agent) with
  | None | Some NetworkPolicyModeUnset => NetworkPolicyModeDefault
  | Some m => m
  end.

Definition reconcileNetworkPolicy (servers : list MCPToolSpec) : reconciling (result string ()) :=
  agent <-- reading swarmAgent;
  let npName := agent_Name agent +:+ "-netpol" in
  existing <-- get_object (λ n, networkPolicies n !! npName);
  if decide (network_mode agent = NetworkPolicyModeDisabled) then
    match existing with
    | Found _ => write_object (λ n, n <| networkPolicies ::= delete npName |>)
    | NotFound => answer_with (Ok tt)
    | GetFailed e => answer_with (Err e)
    end
  else
    match buildNetworkPolicy agent servers (network_mode agent) with
    | Err e => answer_with (Err e)
    | Ok desired =>
        match existing with
        | GetFailed e => answer_with (Err e)
        | _ => write_object (λ n, n <| networkPolicies ::= <[npName := desired]> |>)
        end
    end.

(** ** The status *)
Definition exposed_ids (agent : SwarmAgent) : list string :=
  cap_Name <$> filter (λ c, ExposeMCP c = true) (Capabilities (agent_Spec agent)).

(** The fields are assigned before the guard compares them, so that only the condition decides
    whether there is something to write. *)
Definition syncStatus : reconciling (result string ()) :=
  agent <-- reading swarmAgent;
  dep <-- get_object (λ n, deployments n !! deployment_name agent);
  match dep with
  | NotFound => answer_with (Ok tt)
  | GetFailed e => answer_with (Err e)
  | Found d =>
      let replicas := dep_StatusReplicas d in
      let ready := dep_StatusReady d in
      _ <-- changing_status (λ st,
              st <| agent_Replicas := replicas |> <| ReadyReplicas := ready |>
                 <| agent_ObservedGeneration := agent_Generation agent |>
                 <| ExposedMCPCapabilities := exposed_ids agent |>);
      let all := (ready =? replicas) && (0 <? replicas) in
      let status := if all then ConditionTrue else ConditionFalse in
      let reason := if all then "AllReplicasReady" else "Progressing" in
      let current := match FindStatusCondition (agent_Conditions (agent_Status agent)) ConditionReady with
                     | Some c => bool_decide (cond_Status c = status ∧ cond_Reason c = reason)
                     | None => false
                     end in
      if current then answer_with (Ok tt)
      else
        _ <-- set_condition ConditionReady status reason (itoa ready +:+ "/" +:+ itoa replicas +:+ " replicas ready");
        updateStatus
  end.

(** [effectiveTrust] *)
Definition effectiveTrust (explicit : ToolTrustLevel) (agent : SwarmAgent) : ToolTrustLevel :=
  match explicit with
  | TrustUnset =>
      match g ← Guardrails (agent_Spec agent); t ← guard_Tools g; perm_Trust t with
      | None | Some TrustUnset => ToolTrustExternal
      | Some t => t
      end
  | t => t
  end.

Definition mcpAuthType (srv : MCPToolSpec) : string :=
  match bearer_key srv, mtls_secret srv with
  | Some _, _ => "bearer"
  | None, Some _ => "mtls"
  | None, None => "none"
  end.

(** The address a server is dialled at; the dials are concurrent, and each writes its own entry. *)
Definition dial_host (u : parsed_url) : string :=
  if str_contains (url_Host u) ":" then url_Host u
  else url_Host u +:+ (if decide (url_Scheme u = "https") then ":443" else ":80").

Definition probe_server (agent : SwarmAgent) (srv : MCPToolSpec) : SwarmAgentMCPStatus :=
  let '(healthy, message) :=
    match url_Parse (mcptool_URL srv) with
    | None => (false, "invalid URL")
    | Some u => match Dial env (dial_host u) with Some e => (false, e) | None => (true, "") end
    end in
  mkSwarmAgentMCPStatus (mcptool_Name srv) (mcptool_URL srv) (Some healthy) message (Some (env_now env))
    (mcpAuthType srv) (effectiveTrust (mcptool_Trust srv) agent).

Definition mcpHealthRequeueInterval : Z := 60 * second.

Definition reconcileMCPHealth (servers : list MCPToolSpec) : reconciling Z :=
  agent <-- reading swarmAgent;
  match servers with
  | [] =>
      _ <-- remove_condition ConditionMCPDegraded;
      _ <-- changing_status (λ st, st <| ToolConnections := [] |>);
      answer_with 0
  | _ =>
      let statuses := probe_server agent <$> servers in
      _ <-- changing_status (λ st, st <| ToolConnections := statuses |>);
      _ <-- (if bool_decide (Forall (λ s, mcpstatus_Healthy s = Some true) statuses)
             then remove_condition ConditionMCPDegraded
             else set_condition ConditionMCPDegraded ConditionTrue "MCPUnreachable"
                    "one or more MCP servers are unreachable; see status.toolConnections for details");
      answer_with mcpHealthRequeueInterval
  end.

(** *** Connections to agents of the namespace *)
Definition connected_agent (namespace name : string) : option SwarmAgent :=
  List.find (λ a, String.eqb (agent_Name a) name && String.eqb (agent_Namespace a) namespace) (agent_objects env).

(** The state of one advisor, and the reason why it is not ready. *)
Definition advisor_tool (conn : AgentConnection) : string :=
  match ResolveAdvisorToolName conn with Some (Ok t) => t | _ => "consult_" +:+ conn_Name conn end.

Definition advisor_state (namespace : string) (conn : AgentConnection)
    : reconciling (AdvisorConnectionStatus * option string) :=
  let state ready := mkAdvisorConnectionStatus (conn_Name conn) ready ready (advisor_tool conn) (env_now env) in
  match conn_AgentRef conn with
  | None => answer_with (state false, Some "AdvisorNotFound")
  | Some ref =>
      target <-- get_object (λ _, connected_agent namespace ref);
      answer_with (match target with
        | Found t => if ReadyReplicas (agent_Status t) =? 0 then (state false, Some "AdvisorNoReplicas")
                     else (state true, None)
        | _ => (state false, Some "AdvisorNotFound")
        end)
  end.

Fixpoint each_call {A B} (f : A → reconciling B) (l : list A) : reconciling (list B) :=
  match l with
  | [] => answer_with []
  | a :: l => b <-- f a; bs <-- each_call f l; answer_with (b :: bs)
  end.

Definition advisors_condition (advisors : list AgentConnection)
    (states : list (AdvisorConnectionStatus * option string)) : ConditionStatus * string * string :=
  match advisors, omap snd states with
  | [], _ => (ConditionTrue, "NoAdvisors", "No advisor connections configured")
  | _, firstReason :: _ =>
      (ConditionFalse, firstReason, "advisor(s) not ready: " +:+
         str_join ", " (omap (λ p, (λ _, advisor_Name p.1) <$> p.2) states))
  | _, [] => (ConditionTrue, "AllAdvisorsReady",
              "All " +:+ itoa (Z.of_nat (length advisors)) +:+ " advisor connections ready")
  end.

Definition reconcileAdvisorConnections : reconciling () :=
  agent <-- reading swarmAgent;
  let advisors := filter (λ c, conn_Role c = AgentConnectionRoleAdvisor) (aspec_Agents (agent_Spec agent)) in
  states <-- each_call (advisor_state (agent_Namespace agent)) advisors;
  let '(status, reason, message) := advisors_condition advisors states in
  _ <-- changing_status (λ st, st <| AdvisorConnections := states.*1 |>);
  set_condition ConditionAdvisorsReady status reason message.

Definition tool_agent_state (agent : SwarmAgent) (conn : AgentConnection) : reconciling ToolAgentConnectionStatus :=
  let state ready := mkToolAgentConnectionStatus (conn_Name conn) ready (effectiveTrust (conn_Trust conn) agent)
                       (env_now env) in
  match conn_AgentRef conn with
  | None => answer_with (state false)
  | Some ref =>
      target <-- get_object (λ _, connected_agent (agent_Namespace agent) ref);
      answer_with (state (match target with Found t => 0 <? ReadyReplicas (agent_Status t) | _ => false end))
  end.

Definition reconcileToolAgentConnections : reconciling () :=
  agent <-- reading swarmAgent;
  states <-- each_call (tool_agent_state agent)
               (filter (λ c, conn_Role c = AgentConnectionRoleTool) (aspec_Agents (agent_Spec agent)));
  changing_status (λ st, st <| ToolAgentConnections := states |>).

(** *** Reasoning *)
Definition isClamped (cfg : ReasoningConfig) (limits : option GuardrailLimits) : bool :=
  match l ← limits; agent_MaxThinkingTokensPerCall l, reasoning_BudgetTokens cfg with
  | Some limit, Some budget => limit <? budget
  | _, _ => false
  end.

Definition reasoningConditionReason (cfg : option ReasoningConfig) (limits : option GuardrailLimits)
    : string * ConditionStatus :=
  match cfg with
  | None => ("Disabled", ConditionFalse)
  | Some c =>
      match reasoning_Mode c with
      | ReasoningModeUnset | ReasoningDisabled => ("Disabled", ConditionFalse)
      | _ => (if isClamped c limits then "ClampedByGuardrail" else "Active", ConditionTrue)
      end
  end.

Definition applyReasoningCondition (allSettings : list SwarmSettings) : reconciling () :=
  agent <-- reading swarmAgent;
  let '(reason, status) := reasoningConditionReason
    (mergeReasoningConfig (aspec_Reasoning (agent_Spec agent)) allSettings) (agent_limits agent) in
  set_condition ConditionReasoningActive status reason "".

(** ** KEDA (internal/controller/keda.go) *)
Definition isNoMatchError (e : string) : bool :=
  str_contains e "no kind is registered" || str_contains e "no matches for kind" ||
  str_contains e "no resources found" || str_contains e "the server could not find the requested resource".

Definition deleteScaledObjectIfExists : reconciling (result string ()) :=
  agent <-- reading swarmAgent;
  d <-- request (λ f s,
          (match f with
           | Works => if decide (is_Some (scaledObjects (ns s) !! agent_Name agent)) then Ok tt else Err None
           | Missing => Err None
           | Broken e => Err (Some e)
           end,
           match f with
           | Works => s <| ns ::= λ n, n <| scaledObjects ::= delete (agent_Name agent) |> |>
           | _ => s
           end));
  answer_with (match d with
    | Ok _ | Err None => Ok tt
    | Err (Some e) => if isNoMatchError e then Ok tt else Err ("deleting ScaledObject: " +:+ e)
    end).

Definition stripStreamParam (rawURL : string) : string :=
  match url_Parse rawURL with Some u => url_Without u "stream" | None => rawURL end.

Definition resolveRedisAddress (agent : SwarmAgent) : string :=
  let queueURL := agent_annotation agent AnnotationTeamQueueURL in
  let injected := inject_queue_url (env_Environ env) in
  if decide (queueURL = "") then if decide (injected = "") then "" else stripStreamParam injected
  else stripStreamParam queueURL.

Definition defaultTaskStream := "agent-tasks".

Definition resolveStreamName (agent : SwarmAgent) : string :=
  let queueURL := agent_annotation agent AnnotationTeamQueueURL in
  let queueURL := if decide (queueURL = "") then inject_queue_url (env_Environ env) else queueURL in
  if decide (queueURL = "") then defaultTaskStream
  else
    match url_Parse queueURL with
    | None => defaultTaskStream
    | Some u => if decide (url_Query u "stream" = "") then defaultTaskStream else url_Query u "stream"
    end.

Definition minReplicas (agent : SwarmAgent) : Z :=
  match a ← runtime_Autoscaling (aspec_Runtime (agent_Spec agent)); MinReplicas a with
  | Some n => n
  | None => default 1 (Replicas (aspec_Runtime (agent_Spec agent)))
  end.
Definition maxReplicas (agent : SwarmAgent) : Z :=
  default 10 (a ← runtime_Autoscaling (aspec_Runtime (agent_Spec agent)); MaxReplicas a).
Definition targetPendingTasks (agent : SwarmAgent) : Z :=
  default 5 (a ← runtime_Autoscaling (aspec_Runtime (agent_Spec agent)); TargetPendingTasks a).

Definition buildScaledObject (agent : SwarmAgent) (redisAddr streamName : string) : ScaledObject :=
  mkScaledObject (deployment_name agent) (minReplicas agent) (maxReplicas agent) redisAddr streamName
    "swarm-agents" (itoa (targetPendingTasks agent)).

(** An update replaces the counts and the triggers. *)
Definition update_scaler (desired existing : ScaledObject) : ScaledObject :=
  mkScaledObject (scaler_Target existing) (scaler_Min desired) (scaler_Max desired) (scaler_Address desired)
    (scaler_Stream desired) (scaler_Group desired) (scaler_Pending desired).

Definition reconcileKEDA : reconciling (result string ()) :=
  agent <-- reading swarmAgent;
  if condition_true agent ConditionBudgetExceeded then deleteScaledObjectIfExists
  else
    match runtime_Autoscaling (aspec_Runtime (agent_Spec agent)) with
    | None => deleteScaledObjectIfExists
    | Some _ =>
        let redisAddr := resolveRedisAddress agent in
        if decide (redisAddr = "") then answer_with (Ok tt)
        else
          let desired := buildScaledObject agent redisAddr (resolveStreamName agent) in
          let put so := write_object (λ n, n <| scaledObjects ::= <[agent_Name agent := so]> |>) in
          existing <-- get_object (λ n, scaledObjects n !! agent_Name agent);
          match existing with
          | NotFound =>
              c <-- put desired;
              answer_with (match c with
                | Ok _ => Ok tt
                | Err e => if isNoMatchError e then Ok tt else Err ("creating ScaledObject: " +:+ e)
                end)
          | GetFailed e => answer_with (Err ("getting ScaledObject: " +:+ e))
          | Found so => put (update_scaler desired so)
          end
    end.

(** ** A reconciliation *)

(** An error of a step whose reason is recorded in the Ready condition. *)
Definition or_not_ready {A} (reason : string) (m : reconciling (result string A)) : reconciling (result string A) :=
  r <-- m;
  match r with
  | Ok a => answer_with (Ok a)
  | Err e => _ <-- set_condition ConditionReady ConditionFalse reason e; answer_with (Err e)
  end.

Definition sooner (requeueAfter : Z) (interval : Z) : Z :=
  if (requeueAfter =? 0) || (interval <? requeueAfter) then interval else requeueAfter.

(** [5 * time.Minute] for strict policies, whose addresses were resolved now. *)
Definition strictRequeue : Z := 300 * second.

(** What the agent is made of: its settings, memory, prompt, key and servers. *)
Record ingredients := mkIngredients {
  ing_settings : list SwarmSettings;
  ing_memory : option SwarmMemory;
  ing_prompt : string;
  ing_key : option EnvVar * string;
  ing_servers : list MCPToolSpec }.

Definition gather : reconciling (result string ingredients) :=
  allSettings <-! loadSettingsRefs;
  _ <-- changing_status (λ st,
          st <| AppliedSettings := settings_Name <$> allSettings |>
             <| AppliedFragmentCount := Z.of_nat (length (allSettings ≫= settings_Fragments)) |>);
  _ <-- applyReasoningCondition allSettings;
  memory <-! loadSwarmMemory;
  prompt <-! or_not_ready "PromptResolutionError" resolveSystemPrompt;
  _ <-- changing_status (λ st, st <| SystemPromptHash := hashPrompt prompt |>);
  key <-! or_not_ready "APIKeyResolutionError" resolveAPIKeyEnvVar;
  servers <-! or_not_ready "MCPResolutionError" resolveMCPServers;
  answer_with (Ok (mkIngredients allSettings memory prompt key servers)).

Definition deployment_input (i : ingredients) (policy : option EffectivePolicySpec)
    (caps : list GatewayCapabilityEntry) : deploymentInput :=
  mkDeploymentInput (assembleSystemPrompt (ing_prompt i) (ing_settings i) (ing_servers i)) (ing_key i).2
    (mkEnvInputs (env_Environ env) (ing_settings i) (ing_memory i) (ing_key i).1 (ing_servers i) policy caps).

(** The objects of the agent; the answer is when to come back. *)
Definition deploy (i : ingredients) : reconciling (result string Z) :=
  _ <-- reconcileRegistryRef;
  requeueAfter <-! reconcileDailyBudget;
  _ <-- reconcileBudgetRef;
  _ <-! or_not_ready "ReconcileError" reconcileAgentServiceAccount;
  _ <-! or_not_ready "ReconcileError"
          (reconcilePromptConfigMap (assembleSystemPrompt (ing_prompt i) (ing_settings i) (ing_servers i)));
  policy <-- fetchEffectivePolicy;
  _ <-! or_not_ready "ReconcileError" (reconcileDeployment (deployment_input i policy));
  _ <-! or_not_ready "NetworkPolicyError" (reconcileNetworkPolicy (ing_servers i));
  agent <-- reading swarmAgent;
  answer_with (Ok (if decide (infra_NetworkPolicy <$> Infrastructure (agent_Spec agent) = Some NetworkPolicyModeStrict)
                   then sooner requeueAfter strictRequeue else requeueAfter)).

(** The health of what the agent uses. *)
Definition observe (i : ingredients) (requeueAfter : Z) : reconciling Z :=
  mcpRequeue <-- reconcileMCPHealth (ing_servers i);
  _ <-- reconcileAdvisorConnections;
  _ <-- reconcileToolAgentConnections;
  agent <-- reading swarmAgent;
  _ <-- changing_status (λ st, st <| DedupEnabled :=
          match runtime_Loop (aspec_Runtime (agent_Spec agent)) with Some l => loop_Dedup l | None => false end |>);
  _ <-- reconcileKEDA;
  answer_with (if 0 <? mcpRequeue then sooner requeueAfter mcpRequeue else requeueAfter).

Definition reconcile_agent : reconciling (result string Z) :=
  _ <-- ensureDefaultRegistry;
  i <-! gather;
  requeueAfter <-! deploy i;
  _ <-! syncStatus;
  requeueAfter <-- observe i requeueAfter;
  answer_with (Ok requeueAfter).

(** The deferred write of the status, whatever the outcome. *)
Definition with_status (m : reconciling (result string Z)) : reconciling (result string Z) :=
  r <-- m;
  u <-- updateStatus;
  answer_with (match r, u with
    | Ok _, Err e => Err ("status update: " +:+ e)
    | _, _ => r
    end).

(** The agent as it is read, with whether it is being deleted. *)
Definition Reconcile (stored : get_result (SwarmAgent * bool)) (n : namespace) : result string Z * namespace :=
  match stored with
  | NotFound => (Ok 0, n)
  | GetFailed e => (Err e, n)
  | Found (_, true) => (Ok 0, n)
  | Found (agent, false) => let '(r, s) := with_status reconcile_agent (mkPass agent n 0) in (r, ns s)
  end.
End controller.

(** ** Watches: the agents a change wakes *)
Definition runToAgents (run : SwarmRun) : list string :=
  foldl (λ reqs name, if decide (name ∈ reqs) then reqs else reqs ++ [name])
    (if decide (Agent (Spec run) = "") then [] else [Agent (Spec run)])
    (resolveRoleAgentName (TeamRef (Spec run)) <$> Roles (Spec run)).

(** The field indexes of [SetupWithManager]. *)
Definition prompt_source (agent : SwarmAgent) : option SystemPromptSource :=
  p ← aspec_Prompt (agent_Spec agent); prompt_From p.
Definition prompt_config_map (agent : SwarmAgent) : option string :=
  src ← prompt_source agent; selector_Name <$> ConfigMapKeyRef src.
Definition prompt_secret (agent : SwarmAgent) : option string :=
  src ← prompt_source agent; selector_Name <$> prompt_SecretKeyRef src.

Definition configMapToAgents (agents : result string (list SwarmAgent)) (name : string) : list string :=
  match agents with Ok l => agent_Name <$> filter (λ a, prompt_config_map a = Some name) l | Err _ => [] end.
Definition secretToAgents (agents : result string (list SwarmAgent)) (name : string) : list string :=
  match agents with Ok l => agent_Name <$> filter (λ a, prompt_secret a = Some name) l | Err _ => [] end.
Definition settingsToAgents (agents : result string (list SwarmAgent)) (name : string) : list string :=
  match agents with Ok l => agent_Name <$> filter (λ a, name ∈ aspec_Settings (agent_Spec a)) l | Err _ => [] end.

Definition agentToGateways (agents : result string (list SwarmAgent)) (agent : SwarmAgent) : list string :=
  if decide (is_Some (aspec_Gateway (agent_Spec agent)) ∨ Capabilities (agent_Spec agent) = []) then []
  else match agents with
       | Ok l => agent_Name <$> filter (λ a, is_Some (aspec_Gateway (agent_Spec a))) l
       | Err _ => []
       end.
