(* ===== verification/AgentPlan.v ===== *)
(** * AgentPlan: what a reconciliation of an agent amounts to.

    The plan is the abstract specification of the controller: from the agent, what it refers to
    and the objects of its namespace, either the objects as they should be or nothing, when an
    ingredient is missing.  [Reconcile] against an API server that answers every call refines it. *)
From Stdlib Require Import ZArith Lia Ascii.
From stdpp Require Import base tactics option list numbers strings gmap.
From S2P Require Import Prelude GoStd Guards Types AgentTypes Kube Api Template Policy Dispatch Runtime Webhooks Team Wire AgentEnv AgentController.

(** ** What a computation leaves alone *)

(** The agent without its status, and the namespace without the status and the caches. *)
Definition core (a : SwarmAgent) : SwarmAgent := a <| agent_Status := ready_status 0 |>.
Definition objects (n : namespace) : namespace :=
  mkNamespace (deployments n) (configMaps n) (networkPolicies n) (scaledObjects n) (registries n) [] None false false.
Arguments objects : simpl never.
Arguments core : simpl never.

Section quiet.
Context `{C : ConditionApi} {CL : ConditionLaws C}.
Variable faults : nat → fault.

Definition over (s : pass) : bool := condition_true (swarmAgent s) ConditionBudgetExceeded.

(** A pass that changes nothing of what one looks at of the namespace, and of the agent only its
    status, but not its budget. *)
Definition quiet_on {V} (view : namespace → V) (s s' : pass) : Prop :=
  core (swarmAgent s') = core (swarmAgent s) ∧ view (ns s') = view (ns s) ∧ over s' = over s.

#[export] Instance quiet_preorder {V} (view : namespace → V) : PreOrder (quiet_on view).
Proof.
  split; [done|]. intros s1 s2 s3 (A1 & A2 & A3) (B1 & B2 & B3). unfold quiet_on. by rewrite B1, B2, B3.
Qed.

Definition quietly_on {V} (view : namespace → V) {A} (m : reconciling A) : Prop :=
  ∀ s, runs m s (λ _ s', quiet_on view s s').

Section view.
Context {V : Type} {view : namespace → V}.
Notation quiet := (quiet_on view).
Notation quietly := (quietly_on view).

Lemma quietly_answer {A} (a : A) : quietly (answer_with a).
Proof. by intros s. Qed.
Lemma quietly_then {A B} (m : reconciling A) (k : A → reconciling B) :
  quietly m → (∀ a, quietly (k a)) → quietly (and_then m k).
Proof.
  intros Hm Hk s. apply runs_then. eapply runs_weaken; [apply Hm|]. intros a s' Q.
  eapply runs_weaken; [apply Hk|]. intros b s''. by transitivity s'.
Qed.
Lemma quietly_if_ok {E A B} (m : reconciling (result E A)) (k : A → reconciling (result E B)) :
  quietly m → (∀ a, quietly (k a)) → quietly (if_ok m k).
Proof. intros Hm Hk. apply quietly_then; [done|]. intros [a|e]; [done|apply quietly_answer]. Qed.
Lemma quietly_read {A} (f : pass → A) : quietly (reading f).
Proof. by intros s. Qed.
Lemma quietly_get {A} (find : namespace → option A) : quietly (get_object faults find).
Proof. intros s. unfold get_object, request, runs. by destruct (faults (requests s)). Qed.
Lemma quietly_list {A} (l : A) : quietly (list_objects faults l).
Proof. intros s. unfold list_objects, request, runs. by destruct (faults (requests s)). Qed.
Lemma quietly_update : (∀ n st, view (n <| stored_status := st |>) = view n) → quietly (updateStatus faults).
Proof.
  intros E s. unfold updateStatus, request, runs. destruct (faults (requests s)); [|done|done].
  split; [done|]. split; [apply E|done].
Qed.
Lemma quietly_status f : (∀ st, agent_Conditions (f st) = agent_Conditions st) → quietly (changing_status f).
Proof. intros E s. split; [done|]. split; [done|]. unfold over, condition_true. simpl. by rewrite E. Qed.
Lemma quietly_set t status reason message :
  t ≠ ConditionBudgetExceeded → t ≠ "" → quietly (set_condition t status reason message).
Proof.
  intros Ht Hne s. unfold quiet_on, over, condition_true. split; [done|]. split; [done|]. simpl.
  unfold setCondition. rewrite decide_False by done.
  by rewrite (set_condition_other _ (mkCondition t status _ reason message)) by done.
Qed.
Lemma quietly_remove t : t ≠ ConditionBudgetExceeded → quietly (remove_condition t).
Proof.
  intros Ht s. unfold quiet_on, over, condition_true. split; [done|]. split; [done|]. simpl.
  by rewrite remove_condition_other by done.
Qed.
Lemma quietly_each {A B} (f : A → reconciling B) l : (∀ a, quietly (f a)) → quietly (each_call f l).
Proof.
  intros Hf. induction l as [|a l IH]; [apply quietly_answer|].
  apply quietly_then; [apply Hf|]. intros b. by apply quietly_then; [|intros bs; apply quietly_answer].
Qed.
Lemma quietly_or_not_ready {A} reason (m : reconciling (result string A)) :
  quietly m → quietly (or_not_ready reason m).
Proof.
  intros Hm. apply quietly_then; [done|]. intros [a|e]; [apply quietly_answer|].
  apply quietly_then; [by apply quietly_set|intros _; apply quietly_answer].
Qed.
Lemma quietly_ns (f : namespace → namespace) :
  (∀ n, view (f n) = view n) → quietly (changing (λ s, s <| ns ::= f |>)).
Proof. intros E s. split; [done|]. split; [apply E|done]. Qed.
Lemma quietly_write (f : namespace → namespace) :
  (∀ n, view (f n) = view n) → quietly (write_object faults f).
Proof.
  intros E s. unfold write_object, request, runs. destruct (faults _); [|done|done].
  split; [done|]. split; [apply E|done].
Qed.
End view.

(** Who changes no object changes nothing that one sees of the objects. *)
Lemma quietly_coarser {V W} (view : namespace → V) (view' : namespace → W) {A} (m : reconciling A) :
  (∀ n n', view n = view n' → view' n = view' n') → quietly_on view m → quietly_on view' m.
Proof. intros Hv Hm s. eapply runs_weaken; [apply Hm|]. intros a s' (? & ? & ?). split; [done|]. by split; [apply Hv|]. Qed.
End quiet.
Notation quiet := (quiet_on objects).
Notation quietly := (quietly_on objects).


#[export] Hint Resolve quietly_answer quietly_read quietly_get quietly_list : quietly.
Ltac quietly_step :=
  match goal with
  | |- quietly_on _ (and_then _ _) => apply quietly_then; [|intros ?]
  | |- quietly_on _ (if_ok _ _) => apply quietly_if_ok; [|intros ?]
  | |- quietly_on _ (or_not_ready _ _) => apply quietly_or_not_ready
  | |- quietly_on _ (updateStatus _) => apply quietly_update; done
  | |- quietly_on _ (write_object _ _) => apply quietly_write; done
  | |- quietly_on _ (changing_status _) => apply quietly_status; done
  | |- quietly_on _ (set_condition _ _ _ _) => apply quietly_set; done
  | |- quietly_on _ (remove_condition _) => apply quietly_remove; done
  | |- quietly_on _ (each_call _ _) => apply quietly_each; intros ?
  | |- quietly_on _ (let '_ := ?x in _) => destruct x
  | |- quietly_on _ (match ?x with _ => _ end) => destruct x
  | |- quietly_on _ _ => solve [eauto with quietly]
  end.
Ltac quiet_op := repeat quietly_step.

Section ops.
Context `{JT : JsonText} `{FA : FoldApi} `{U : UrlApi} `{NU : NetUrl} `{LA : LowerApi} `{C : ConditionApi}
        `{HA : HashApi} `{SS : SliceSort GatewayCapabilityEntry} {CL : ConditionLaws C}.
Variable faults : nat → fault.
Variable env : agent_env.

Lemma quietly_settings : quietly (loadSettingsRefs faults env).
Proof.
  unfold loadSettingsRefs. quietly_step; [quiet_op|]. generalize (aspec_Settings (agent_Spec a)) as refs.
  induction refs as [|ref refs IH]; simpl; quiet_op.
Qed.
Lemma quietly_gather : quietly (gather faults env).
Proof.
  unfold gather. quietly_step; [apply quietly_settings|]. quietly_step; [quiet_op|].
  unfold applyReasoningCondition, loadSwarmMemory, resolveSystemPrompt, resolveAPIKeyEnvVar, resolveMCPServers.
  quiet_op.
Qed.
Lemma quietly_registry_ref : quietly (reconcileRegistryRef faults).
Proof. unfold reconcileRegistryRef. quiet_op. Qed.
Lemma quietly_ensure kind : quietly (ensure_rbac faults kind).
Proof. unfold ensure_rbac. quiet_op. Qed.
Lemma quietly_account : quietly (reconcileAgentServiceAccount faults).
Proof.
  assert (quietly (ensure_all_rbac faults)).
  { unfold ensure_all_rbac. repeat (quietly_step; [apply quietly_ensure|]).
    quietly_step; [by apply quietly_ns|quiet_op]. }
  unfold reconcileAgentServiceAccount. quiet_op; done || by apply quietly_ns.
Qed.
Lemma quietly_policy : quietly (fetchEffectivePolicy faults env).
Proof. unfold fetchEffectivePolicy. quiet_op. Qed.
Lemma quietly_caps : quietly (resolveGatewayCapsForReconcile faults env).
Proof. unfold resolveGatewayCapsForReconcile, resolveGatewayCapabilities. quiet_op. Qed.
Lemma quietly_sync : quietly (syncStatus faults).
Proof. unfold syncStatus. quiet_op. Qed.
Lemma quietly_health servers : quietly (reconcileMCPHealth env servers).
Proof. unfold reconcileMCPHealth. quiet_op. Qed.
Lemma quietly_advisors : quietly (reconcileAdvisorConnections faults env).
Proof. unfold reconcileAdvisorConnections, advisor_state. quiet_op. Qed.
Lemma quietly_tools : quietly (reconcileToolAgentConnections faults env).
Proof. unfold reconcileToolAgentConnections, tool_agent_state. quiet_op. Qed.
End ops.

(** ** The plan *)
Section plan.
Context `{JT : JsonText} `{FA : FoldApi} `{U : UrlApi} `{NU : NetUrl} `{LA : LowerApi} `{C : ConditionApi}
        `{HA : HashApi} `{SS : SliceSort GatewayCapabilityEntry}.
Variable env : agent_env.

Definition planned_settings (a : SwarmAgent) : option (list SwarmSettings) :=
  mapM (λ ref, settings_objects env !! ref) (aspec_Settings (agent_Spec a)).

Definition planned_memory (a : SwarmAgent) : option SwarmMemory := ref ← memory_reference a; memory_objects env !! ref.

Definition ok_of {A} (r : result string A) : option A := match r with Ok a => Some a | Err _ => None end.
Definition found {A} (o : option A) : get_result A := match o with Some a => Found a | None => NotFound end.

Definition planned_prompt (a : SwarmAgent) (n : namespace) : option string :=
  match aspec_Prompt (agent_Spec a) with
  | None => Some ""
  | Some p =>
      match prompt_From p with
      | None => Some (prompt_Inline p)
      | Some src =>
          match ConfigMapKeyRef src, prompt_SecretKeyRef src with
          | Some ref, _ => data ← configMaps n !! selector_Name ref; data !! selector_Key ref
          | None, Some ref => sec ← secret_objects env !! selector_Name ref; sec.2 !! selector_Key ref
          | None, None => Some (prompt_Inline p)
          end
      end
  end.

Definition planned_key (a : SwarmAgent) : option (option EnvVar * string) :=
  match i ← Infrastructure (agent_Spec a); infra_APIKeyRef i with
  | None => Some (None, "")
  | Some ref => sec ← secret_objects env !! selector_Name ref;
                Some (Some (env_secret (selector_Key ref) (selector_Name ref) (selector_Key ref)), sec.1)
  end.

Definition planned_servers (a : SwarmAgent) (n : namespace) : option (list MCPToolSpec) :=
  match aspec_Tools (agent_Spec a) with
  | None => Some []
  | Some t => ok_of (resolve_servers (mcp_bindings (registries n)) (agent_Namespace a) (tools_MCP t))
  end.

Definition planned_ingredients (a : SwarmAgent) (n : namespace) : option ingredients :=
  settings ← planned_settings a;
  prompt ← planned_prompt a n;
  key ← planned_key a;
  servers ← planned_servers a n;
  Some (mkIngredients settings (planned_memory a) prompt key servers).

(** The tokens of the day reach the limit, or the budget with a hard stop is exceeded. *)
Definition daily_exceeded (a : SwarmAgent) : bool :=
  (0 <? daily_token_limit a) &&
  (daily_token_limit a <=? TotalTokens (window_tokens (daily_usage env a (own_runs env a)))).
Definition budget_exceeded (a : SwarmAgent) : bool :=
  match g ← Guardrails (agent_Spec a); ref ← guard_BudgetRef g; budget_objects env !! ref with
  | Some b => budget_HardStop (budget_Spec b) && bool_decide (budget_Phase (budget_Status b) = BudgetExceeded)
  | None => false
  end.
Definition planned_stop (a : SwarmAgent) : bool := daily_exceeded a || budget_exceeded a.

Definition planned_policy : option EffectivePolicySpec :=
  match policy_objects env with
  | [] => None
  | l => match omap (λ p, EffectivePolicy (policy_Status p)) l with ep :: _ => Some ep | [] => (MergePolicies l).1 end
  end.

Definition planned_caps (a : SwarmAgent) (n : namespace) : list GatewayCapabilityEntry :=
  match gw ← aspec_Gateway (agent_Spec a); find_registry (gateway_RegistryRef gw) n with
  | None => []
  | Some reg =>
      registry_members a (registry_Name reg)
        (if decide (Scope (registry_Spec reg) = RegistryScopeCluster) then agent_objects env
         else filter (λ b, agent_Namespace b = agent_Namespace a) (agent_objects env)) ≫= capability_entries
  end.

(** The network policy: none when it is disabled; strict ones need the addresses of the servers. *)
Definition planned_network (a : SwarmAgent) (servers : list MCPToolSpec) : option (option NetworkPolicy) :=
  if decide (network_mode a = NetworkPolicyModeDisabled) then Some None
  else Some <$> ok_of (buildNetworkPolicy env a servers (network_mode a)).

Definition planned_input (a : SwarmAgent) (n : namespace) (i : ingredients) : deploymentInput :=
  deployment_input env i planned_policy (planned_caps a n).

Definition planned_deployment (a : SwarmAgent) (n : namespace) (i : ingredients) : Deployment :=
  (buildDeployment env a (planned_input a n i))
    <| dep_Replicas := if planned_stop a then 0 else default 1 (Replicas (aspec_Runtime (agent_Spec a))) |>.

(** *** The effects *)
Definition ensure_registry (a : SwarmAgent) (n : namespace) : namespace :=
  if registryEnsured n then n
  else match find_registry "default" n with
       | Some _ => n
       | None => n <| registries ::= λ l, l ++ [default_registry a] |>
       end.

Definition put_prompt (a : SwarmAgent) (text : string) (n : namespace) : namespace :=
  let cmName := agent_Name a +:+ "-prompt" in
  match configMaps n !! cmName with
  | Some data => if decide (default "" (data !! promptConfigMapKey) = text) then n
                 else n <| configMaps ::= <[cmName := {[promptConfigMapKey := text]}]> |>
  | None => n <| configMaps ::= <[cmName := {[promptConfigMapKey := text]}]> |>
  end.

Definition put_deployment (a : SwarmAgent) (desired : Deployment) (n : namespace) : namespace :=
  n <| deployments ::= <[deployment_name a :=
         match deployments n !! deployment_name a with
         | Some d => copy_deployment desired d
         | None => desired
         end]> |>.

Definition put_network (a : SwarmAgent) (np : option NetworkPolicy) (n : namespace) : namespace :=
  let npName := agent_Name a +:+ "-netpol" in
  n <| networkPolicies ::= match np with Some p => <[npName := p]> | None => delete npName end |>.

Definition put_scaler (a : SwarmAgent) (n : namespace) : namespace :=
  if planned_stop a || negb (bool_decide (is_Some (runtime_Autoscaling (aspec_Runtime (agent_Spec a)))))
  then n <| scaledObjects ::= delete (agent_Name a) |>
  else
    let redisAddr := resolveRedisAddress env a in
    if decide (redisAddr = "") then n
    else
      let desired := buildScaledObject a redisAddr (resolveStreamName env a) in
      n <| scaledObjects ::= <[agent_Name a :=
             match scaledObjects n !! agent_Name a with
             | Some so => update_scaler desired so
             | None => desired
             end]> |>.

(** The objects after a reconciliation, unless an ingredient or an address is missing. *)
Definition plan (a : SwarmAgent) (n : namespace) : option namespace :=
  let n := ensure_registry a n in
  i ← planned_ingredients a n;
  np ← planned_network a (ing_servers i);
  Some (put_scaler a (put_network a np
    (put_deployment a (planned_deployment a n i)
      (put_prompt a (assembleSystemPrompt (ing_prompt i) (ing_settings i) (ing_servers i)) n)))).
End plan.

(** ** Answers of a server that works *)
Section works.
Context `{JT : JsonText} `{FA : FoldApi} `{U : UrlApi} `{NU : NetUrl} `{LA : LowerApi} `{C : ConditionApi}
        `{HA : HashApi} `{SS : SliceSort GatewayCapabilityEntry} {CL : ConditionLaws C}.
Variable env : agent_env.
Notation faults := (λ _ : nat, Works).

Definition outcome {A} (o : option A) (r : result string A) : Prop :=
  match o with Some a => r = Ok a | None => ∃ e, r = Err e end.

Lemma outcome_ok {A} (r : result string A) : outcome (ok_of r) r.
Proof. destruct r; simpl; eauto. Qed.

Lemma runs_get {A} (find : namespace → option A) s (Q : get_result A → pass → Prop) :
  Q (found (find (ns s))) (s <| requests ::= S |>) → runs (get_object faults find) s Q.
Proof. unfold runs, get_object, request. simpl. by destruct (find (ns s)). Qed.
Lemma runs_list {A} (l : A) s (Q : result string A → pass → Prop) :
  Q (Ok l) (s <| requests ::= S |>) → runs (list_objects faults l) s Q.
Proof. done. Qed.
Lemma runs_read {A} (f : pass → A) s (Q : A → pass → Prop) : Q (f s) s → runs (reading f) s Q.
Proof. done. Qed.
Lemma runs_change f s (Q : () → pass → Prop) : Q tt (f s) → runs (changing f) s Q.
Proof. done. Qed.
Lemma runs_write f s (Q : result string () → pass → Prop) :
  Q (Ok tt) (s <| requests ::= S |> <| ns ::= f |>) → runs (write_object faults f) s Q.
Proof. done. Qed.
Lemma runs_or_not_ready {A} reason (m : reconciling (result string A)) s (o : option A) :
  runs m s (λ r _, outcome o r) → runs (or_not_ready reason m) s (λ r _, outcome o r).
Proof.
  intros Hm. apply runs_then. eapply runs_weaken; [exact Hm|]. intros [a|e] s'; [done|].
  destruct o; simpl; [done|]. intros _. apply runs_then, runs_change, runs_answer. eauto.
Qed.

Ltac run1 :=
  match goal with
  | |- runs (and_then _ _) _ _ => apply runs_then
  | |- runs (if_ok _ _) _ _ => apply runs_ok
  | |- runs (get_object _ _) _ _ => apply runs_get; simpl
  | |- runs (list_objects _ _) _ _ => apply runs_list
  | |- runs (reading _) _ _ => apply runs_read; simpl
  | |- runs (changing _) _ _ => apply runs_change
  | |- runs (answer_with _) _ _ => apply runs_answer
  | |- runs (write_object _ _) _ _ => apply runs_write
  end.

Lemma settings_answer s : runs (loadSettingsRefs faults env) s
  (λ r _, outcome (planned_settings env (swarmAgent s)) r).
Proof.
  unfold loadSettingsRefs, planned_settings. repeat run1. generalize (aspec_Settings (agent_Spec (swarmAgent s))) as refs.
  intros refs. generalize s at 1 as s'. induction refs as [|ref refs IH]; intros s'; simpl; repeat run1; [done|].
  destruct (settings_objects env !! ref) as [x|]; simpl; repeat run1; [|simpl; eauto].
  eapply runs_weaken; [apply IH|]. intros r s'' Ho. destruct (mapM _ refs); simpl in *.
  - by subst r.
  - destruct Ho as [e ->]. by exists e.
Qed.

Lemma memory_answer s : runs (loadSwarmMemory faults env) s (λ r _, r = Ok (planned_memory env (swarmAgent s))).
Proof.
  unfold loadSwarmMemory, planned_memory. repeat run1. destruct (memory_reference _) as [ref|]; simpl; repeat run1; [|done].
  by destruct (memory_objects env !! ref).
Qed.

Lemma prompt_answer s : runs (resolveSystemPrompt faults env) s
  (λ r _, outcome (planned_prompt env (swarmAgent s) (ns s)) r).
Proof.
  unfold resolveSystemPrompt, planned_prompt. repeat run1.
  destruct (aspec_Prompt _) as [p|]; [|by repeat run1]. destruct (prompt_From p) as [src|]; [|by repeat run1].
  destruct (ConfigMapKeyRef src) as [ref|]; [|destruct (prompt_SecretKeyRef src) as [ref|]]; repeat run1.
  - destruct (configMaps (ns s) !! selector_Name ref) as [data|]; simpl; [|eauto].
    destruct (data !! selector_Key ref); simpl; eauto.
  - destruct (secret_objects env !! selector_Name ref) as [sec|]; simpl; [|eauto].
    destruct (sec.2 !! selector_Key ref); simpl; eauto.
  - done.
Qed.

Lemma key_answer s : runs (resolveAPIKeyEnvVar faults env) s (λ r _, outcome (planned_key env (swarmAgent s)) r).
Proof.
  unfold resolveAPIKeyEnvVar, planned_key. repeat run1.
  destruct (Infrastructure (agent_Spec (swarmAgent s)) ≫= _) as [ref|]; repeat run1; [|done].
  destruct (secret_objects env !! selector_Name ref) as [sec|]; simpl; eauto.
Qed.

Lemma resolve_plain bindings nsp servers :
  Forall (λ s, mcptool_CapabilityRef s = "") servers → resolve_servers bindings nsp servers = Ok servers.
Proof.
  induction 1 as [|s l Hs _ IH]; [done|]. simpl. rewrite decide_True by done. by rewrite IH.
Qed.

Lemma servers_answer s : runs (resolveMCPServers faults) s
  (λ r _, outcome (planned_servers (swarmAgent s) (ns s)) r).
Proof.
  unfold resolveMCPServers, planned_servers. repeat run1. destruct (aspec_Tools _) as [t|]; [|done].
  case_bool_decide as Hf; repeat run1; [by rewrite resolve_plain|]. apply outcome_ok.
Qed.

(** An answer about what a quiet computation leaves alone. *)
Lemma settled {A B} (m : reconciling A) (k : A → reconciling B) s (P : A → Prop) (Q : B → pass → Prop) :
  quietly m → runs m s (λ a _, P a) →
  (∀ a s', P a → quiet s s' → runs (k a) s' Q) → runs (and_then m k) s Q.
Proof.
  intros Hm Hp Hk. apply runs_then. eapply runs_weaken; [exact (runs_both _ _ _ _ (Hm s) Hp)|].
  intros a s' [? ?]. by apply Hk.
Qed.

(** The plan only reads the core of the agent, and the objects. *)
Lemma planned_core a b n n' : core a = core b → objects n = objects n' →
  planned_ingredients env a n = planned_ingredients env b n'.
Proof.
  intros Ha Hn. change (planned_ingredients env (core a) (objects n) = planned_ingredients env (core b) (objects n')).
  by rewrite Ha, Hn.
Qed.

Lemma planned_prompt_core a b n n' : core a = core b → objects n = objects n' →
  planned_prompt env a n = planned_prompt env b n'.
Proof.
  intros Ha Hn. change (planned_prompt env (core a) (objects n) = planned_prompt env (core b) (objects n')).
  by rewrite Ha, Hn.
Qed.
Lemma planned_servers_core a b n n' : core a = core b → objects n = objects n' →
  planned_servers a n = planned_servers b n'.
Proof.
  intros Ha Hn. change (planned_servers (core a) (objects n) = planned_servers (core b) (objects n')).
  by rewrite Ha, Hn.
Qed.
Lemma planned_memory_core a b : core a = core b → planned_memory env a = planned_memory env b.
Proof. intros Ha. change (planned_memory env (core a) = planned_memory env (core b)). by rewrite Ha. Qed.
Lemma planned_key_core a b : core a = core b → planned_key env a = planned_key env b.
Proof. intros Ha. change (planned_key env (core a) = planned_key env (core b)). by rewrite Ha. Qed.

Lemma answer_bind {A B} (m : reconciling (result string A)) (k : A → reconciling (result string B)) s o f :
  quietly m → runs m s (λ r _, outcome o r) →
  (∀ a s', o = Some a → quiet s s' → runs (k a) s' (λ r _, outcome (f a) r)) →
  runs (if_ok m k) s (λ r _, outcome (o ≫= f) r).
Proof.
  intros Hm Ho Hk. apply runs_ok. eapply runs_weaken; [exact (runs_both _ _ _ _ (Hm s) Ho)|].
  intros r s' [Hq Hr]. destruct o as [a|]; simpl in *.
  - subst r. by apply Hk.
  - destruct Hr as [e ->]. by exists e.
Qed.

Lemma answer_after {A B} (m : reconciling A) (k : A → reconciling B) s Q :
  quietly m → (∀ a s', quiet s s' → runs (k a) s' Q) → runs (and_then m k) s Q.
Proof. intros Hm Hk. apply runs_then. eapply runs_weaken; [apply Hm|]. auto. Qed.

Lemma gather_answer s : runs (gather faults env) s
  (λ r _, outcome (planned_ingredients env (swarmAgent s) (ns s)) r).
Proof.
  unfold gather, planned_ingredients. apply answer_bind; [apply quietly_settings|apply settings_answer|].
  intros settings s1 _ Q1. apply answer_after; [quiet_op|]. intros _ s2 Q2.
  apply answer_after; [unfold applyReasoningCondition; quiet_op|]. intros _ s3 Q3.
  assert (Q : quiet s s3) by (etransitivity; [exact Q1|etransitivity; [exact Q2|exact Q3]]).
  clear s1 s2 Q1 Q2 Q3.
  assert (M : quietly (loadSwarmMemory faults env)) by (unfold loadSwarmMemory; quiet_op).
  apply runs_ok. eapply runs_weaken; [exact (runs_both _ _ _ _ (M s3) (memory_answer s3))|].
  intros r s4 [Q4 ->]. cbn beta iota. assert (Q5 : quiet s s4) by (by transitivity s3).
  destruct Q as (E3 & _). rewrite (planned_memory_core _ _ E3). destruct Q5 as (E4 & N4 & _).
  rewrite <- (planned_prompt_core _ _ _ _ E4 N4).
  apply answer_bind; [unfold resolveSystemPrompt; quiet_op|apply runs_or_not_ready, prompt_answer|].
  intros prompt s5 _ Q5. apply answer_after; [quiet_op|]. intros _ s6 Q6.
  assert (E6 : core (swarmAgent s6) = core (swarmAgent s)) by (destruct Q5, Q6; congruence).
  rewrite <- (planned_key_core _ _ E6).
  apply answer_bind; [unfold resolveAPIKeyEnvVar; quiet_op|apply runs_or_not_ready, key_answer|].
  intros key s7 _ Q7.
  assert (E7 : core (swarmAgent s7) = core (swarmAgent s)) by (destruct Q7; congruence).
  assert (N7 : objects (ns s7) = objects (ns s)) by (destruct Q5 as (_ & ? & _), Q6 as (_ & ? & _), Q7 as (_ & ? & _); congruence).
  rewrite <- (planned_servers_core _ _ _ _ E7 N7).
  apply answer_bind; [unfold resolveMCPServers; quiet_op|apply runs_or_not_ready, servers_answer|].
  intros servers s8 _ _. done.
Qed.

(** *** The steps that change something *)
Definition same_agent (s s' : pass) : Prop := core (swarmAgent s') = core (swarmAgent s).

Lemma registry_step s : runs (ensureDefaultRegistry faults) s (λ _ s',
  same_agent s s' ∧ objects (ns s') = objects (ensure_registry (swarmAgent s) (ns s)) ∧ over s' = over s).
Proof.
  unfold ensureDefaultRegistry, ensure_registry, registry_ensured. repeat run1.
  destruct (registryEnsured (ns s)); repeat run1; [done|].
  destruct (find_registry "default" (ns s)) as [r|] eqn:E; simpl; repeat run1; [done|].
  split; [done|]. split; [|done]. simpl. rewrite E. done.
Qed.

(** The budget of the agent is this; nothing else has changed. *)
Definition sets_budget (b : bool) (s s' : pass) : Prop :=
  same_agent s s' ∧ objects (ns s') = objects (ns s) ∧ over s' = b.

Lemma exceeded_step r m s : runs (set_condition ConditionBudgetExceeded ConditionTrue r m) s
  (λ _ s', sets_budget true s s').
Proof.
  split; [done|]. split; [done|]. unfold over, condition_true. simpl. unfold setCondition.
  rewrite decide_False by done.
  pose proof (set_condition_find (agent_Conditions (agent_Status (swarmAgent s)))
    (mkCondition ConditionBudgetExceeded ConditionTrue (agent_Generation (swarmAgent s)) r m)) as E.
  simpl in E. by rewrite E.
Qed.
Lemma cleared_step s : runs (remove_condition ConditionBudgetExceeded) s (λ _ s', sets_budget false s s').
Proof.
  split; [done|]. split; [done|]. unfold over, condition_true. simpl. by rewrite remove_condition_find.
Qed.

Lemma daily_step s : runs (reconcileDailyBudget faults env) s (λ r s',
  is_Ok r = true ∧ sets_budget (daily_exceeded env (swarmAgent s)) s s').
Proof.
  unfold reconcileDailyBudget, daily_exceeded. repeat run1. set (u := daily_usage _ _ _).
  set (limit := daily_token_limit _). unfold changing_status. run1.
  destruct (Z.leb_spec limit 0) as [Hl|Hl]; [|destruct (Z.leb_spec limit (TotalTokens (window_tokens u))) as [Ht|Ht]];
    apply runs_then; (eapply runs_weaken; [apply cleared_step || apply exceeded_step|]); intros ? s' B; (split; [done|]).
  - by replace (0 <? limit) with false by (symmetry; apply Z.ltb_ge; lia).
  - by replace (0 <? limit) with true by (symmetry; apply Z.ltb_lt; lia).
  - by replace (0 <? limit) with true by (symmetry; apply Z.ltb_lt; lia).
Qed.

Lemma budget_step s : runs (reconcileBudgetRef faults env) s (λ _ s',
  sets_budget (over s || budget_exceeded env (swarmAgent s)) s s').
Proof.
  unfold reconcileBudgetRef, budget_exceeded. repeat run1. destruct (Guardrails _) as [g|]; simpl;
    [|repeat run1; by rewrite orb_false_r].
  destruct (guard_BudgetRef g) as [ref|]; simpl; repeat run1; [|by rewrite orb_false_r].
  destruct (budget_objects env !! ref) as [b|]; simpl; repeat run1; [|by rewrite orb_false_r].
  destruct (budget_HardStop _ && _); repeat run1; [|by rewrite orb_false_r].
  eapply runs_weaken; [apply exceeded_step|]. intros ? s' B. by rewrite orb_true_r.
Qed.

Lemma account_answer s : runs (reconcileAgentServiceAccount faults) s (λ r _, r = Ok tt).
Proof.
  assert (E : ∀ kind s, runs (ensure_rbac faults kind) s (λ r _, r = Ok tt)).
  { intros kind s1. unfold ensure_rbac. repeat run1. by destruct (has_rbac kind (ns s1)). }
  assert (A : ∀ s, runs (ensure_all_rbac faults) s (λ r _, r = Ok tt)).
  { intros s1. unfold ensure_all_rbac. do 3 (apply runs_ok; eapply runs_weaken; [apply E|]; intros ? ? ->).
    by repeat run1. }
  unfold reconcileAgentServiceAccount. repeat run1. destruct (saEnsured (ns s)); [|apply A].
  repeat run1. destruct (has_rbac _ _); repeat run1; [done|apply A].
Qed.

(** The objects have become these. *)
Definition leaves (n : namespace) (s s' : pass) : Prop :=
  same_agent s s' ∧ objects (ns s') = objects n ∧ over s' = over s.

Lemma prompt_step text s : runs (reconcilePromptConfigMap faults text) s (λ r s',
  r = Ok tt ∧ leaves (put_prompt (swarmAgent s) text (ns s)) s s').
Proof.
  unfold reconcilePromptConfigMap, put_prompt. repeat run1.
  destruct (configMaps (ns s) !! _) as [data|]; simpl; [case_decide|]; repeat run1; done.
Qed.

Lemma policy_answer s : runs (fetchEffectivePolicy faults env) s (λ r _, r = planned_policy env).
Proof. unfold fetchEffectivePolicy, planned_policy. repeat run1. by destruct (policy_objects env). Qed.

Lemma caps_answer s : runs (resolveGatewayCapsForReconcile faults env) s
  (λ r _, r = Ok (planned_caps env (swarmAgent s) (ns s))).
Proof.
  unfold resolveGatewayCapsForReconcile, resolveGatewayCapabilities, planned_caps. repeat run1.
  destruct (aspec_Gateway _) as [gw|]; repeat run1; [|done].
  destruct (find_registry _ _) as [reg|]; simpl; by repeat run1.
Qed.

Lemma planned_caps_core a b n n' : core a = core b → objects n = objects n' →
  planned_caps env a n = planned_caps env b n'.
Proof.
  intros Ha Hn. change (planned_caps env (core a) (objects n) = planned_caps env (core b) (objects n')).
  by rewrite Ha, Hn.
Qed.

(** A deployment is built from the core of the agent and its budget. *)
Lemma build_core a b inp : core a = core b →
  buildDeployment env a inp = (buildDeployment env b inp) <| dep_Replicas := desired_replicas_of a |>.
Proof.
  intros Ha.
  change ((buildDeployment env (core a) inp) <| dep_Replicas := desired_replicas_of a |> =
          (buildDeployment env (core b) inp) <| dep_Replicas := desired_replicas_of a |>). by rewrite Ha.
Qed.

Lemma put_deployment_core a b d n n' : core a = core b → objects n = objects n' →
  objects (put_deployment a d n) = objects (put_deployment b d n').
Proof.
  intros Ha Hn. change (put_deployment (core a) d (objects n) = put_deployment (core b) d (objects n')).
  by rewrite Ha, Hn.
Qed.

Lemma deployment_step i policy s : policy = planned_policy env →
  over s = planned_stop env (swarmAgent s) →
  runs (reconcileDeployment faults env (deployment_input env i policy)) s (λ r s',
    r = Ok tt ∧
    leaves (put_deployment (swarmAgent s) (planned_deployment env (swarmAgent s) (ns s) i) (ns s)) s s').
Proof.
  intros -> Hover. unfold reconcileDeployment. apply runs_ok.
  eapply runs_weaken; [exact (runs_both _ _ _ _ (quietly_caps _ _ s) (caps_answer s))|].
  intros r s1 [Q1 ->]. cbn beta iota. run1. run1. apply answer_after; [quiet_op|]. intros u s2 Q2.
  set (caps := planned_caps env (swarmAgent s) (ns s)).
  assert (D : buildDeployment env (swarmAgent s1) (deployment_input env i (planned_policy env) caps) =
              planned_deployment env (swarmAgent s) (ns s) i).
  { destruct Q1 as (E & _ & O). rewrite (build_core _ _ _ E). unfold planned_deployment, planned_input. f_equal.
    unfold desired_replicas_of. fold (over s1). rewrite O, Hover.
    by rewrite (f_equal agent_Spec E : agent_Spec (swarmAgent s1) = agent_Spec (swarmAgent s)). }
  rewrite D. pose proof (transitivity Q1 Q2) as (EA & EN & EO). clear D.
  set (d := planned_deployment env (swarmAgent s) (ns s) i).
  assert (N : deployment_name (swarmAgent s1) = deployment_name (swarmAgent s)).
  { unfold deployment_name. destruct Q1 as (E & _).
    by rewrite (f_equal agent_Name E : agent_Name (swarmAgent s1) = agent_Name (swarmAgent s)). }
  rewrite N. repeat run1.
  assert (L : ∀ s', same_agent s2 s' → over s' = over s2 →
    objects (ns s') = objects (put_deployment (swarmAgent s) d (ns s2)) →
    leaves (put_deployment (swarmAgent s) d (ns s)) s s').
  { intros s' A O Ho. split; [by etransitivity|]. split; [|by rewrite O].
    rewrite Ho. by apply put_deployment_core. }
  destruct (deployments (ns s2) !! deployment_name (swarmAgent s)) as [x|] eqn:X; simpl.
  - case_decide as Hx; repeat run1; (split; [done|]); apply L; try done; unfold put_deployment; rewrite X; [|done].
    rewrite Hx. unfold objects. simpl. by rewrite insert_id.
  - repeat run1. split; [done|]. apply L; try done. unfold put_deployment. by rewrite X.
Qed.

Lemma network_step servers s : runs (reconcileNetworkPolicy faults env servers) s (λ r s',
  match planned_network env (swarmAgent s) servers with
  | Some np => r = Ok tt ∧ leaves (put_network (swarmAgent s) np (ns s)) s s'
  | None => ∃ e, r = Err e
  end).
Proof.
  unfold reconcileNetworkPolicy, planned_network, put_network. repeat run1.
  set (npName := agent_Name (swarmAgent s) +:+ "-netpol").
  case_decide as Hm.
  - destruct (networkPolicies (ns s) !! npName) as [p|] eqn:E; simpl; repeat run1; [done|].
    split; [done|]. split; [done|]. split; [|done]. unfold objects. simpl. by rewrite delete_id.
  - destruct (buildNetworkPolicy _ _ _ _) as [np|e]; simpl; [|repeat run1; eauto].
    by destruct (networkPolicies (ns s) !! npName); simpl; repeat run1.
Qed.

Lemma sync_answer s d : deployments (ns s) !! deployment_name (swarmAgent s) = Some d →
  runs (syncStatus faults) s (λ r _, r = Ok tt).
Proof.
  intros E. unfold syncStatus. repeat run1. rewrite E. simpl. unfold changing_status. repeat run1.
  destruct (match FindStatusCondition _ _ with Some _ => _ | None => _ end); [done|].
  unfold set_condition. by repeat run1.
Qed.

Lemma scaler_step s : over s = planned_stop env (swarmAgent s) →
  runs (reconcileKEDA faults env) s (λ _ s', leaves (put_scaler env (swarmAgent s) (ns s)) s s').
Proof.
  intros O. unfold reconcileKEDA, put_scaler. repeat run1. fold (over s). rewrite O.
  assert (Del : runs (deleteScaledObjectIfExists faults) s (λ _ s',
    leaves ((ns s) <| scaledObjects ::= delete (agent_Name (swarmAgent s)) |>) s s')) by done.
  destruct (planned_stop env (swarmAgent s)); [done|]. simpl.
  destruct (runtime_Autoscaling _) as [auto|]; [|done]. rewrite bool_decide_eq_true_2 by done. simpl.
  case_decide; repeat run1; [done|].
  destruct (scaledObjects (ns s) !! agent_Name (swarmAgent s)) eqn:E; simpl; repeat run1; done.
Qed.

(** The effects, too, only look at the core of the agent and the objects. *)
Section congruence.
Variables (a b : SwarmAgent) (n n' : namespace).
Hypotheses (Ha : core a = core b) (Hn : objects n = objects n').

Lemma put_prompt_core text : objects (put_prompt a text n) = objects (put_prompt b text n').
Proof.
  assert (E : ∀ a n, objects (put_prompt a text n) = put_prompt (core a) text (objects n)).
  { intros x m. unfold put_prompt. simpl.
    by destruct (configMaps m !! _); [case_decide|]. }
  by rewrite !E, Ha, Hn.
Qed.
Lemma put_network_core np : objects (put_network a np n) = objects (put_network b np n').
Proof.
  change (put_network (core a) np (objects n) = put_network (core b) np (objects n')). by rewrite Ha, Hn.
Qed.
Lemma planned_stop_core : planned_stop env a = planned_stop env b.
Proof. change (planned_stop env (core a) = planned_stop env (core b)). by rewrite Ha. Qed.
Lemma put_scaler_core : objects (put_scaler env a n) = objects (put_scaler env b n').
Proof.
  assert (E : ∀ a n, objects (put_scaler env a n) = put_scaler env (core a) (objects n)).
  { intros x m. unfold put_scaler. change (planned_stop env (core x)) with (planned_stop env x).
    change (resolveRedisAddress env (core x)) with (resolveRedisAddress env x).
    change (aspec_Runtime (agent_Spec (core x))) with (aspec_Runtime (agent_Spec x)).
    by destruct (_ || _); [|case_decide]. }
  by rewrite !E, Ha, Hn.
Qed.
Lemma planned_network_core servers : planned_network env a servers = planned_network env b servers.
Proof. change (planned_network env (core a) servers = planned_network env (core b) servers). by rewrite Ha. Qed.
Lemma planned_deployment_core i : planned_deployment env a n i = planned_deployment env b n' i.
Proof.
  unfold planned_deployment, planned_input. rewrite planned_stop_core, (planned_caps_core a b n n') by done.
  rewrite (build_core a b) by done.
  by rewrite (f_equal agent_Spec Ha : agent_Spec a = agent_Spec b).
Qed.
End congruence.

Lemma find_registry_prompt name a text n : find_registry name (put_prompt a text n) = find_registry name n.
Proof. unfold put_prompt. destruct (configMaps n !! _); [|done]. by case_decide. Qed.

Lemma ready_with {A} reason (m : reconciling (result string A)) s a (P : pass → Prop) :
  runs m s (λ r s', r = Ok a ∧ P s') → runs (or_not_ready reason m) s (λ r s', r = Ok a ∧ P s').
Proof. intros Hm. apply runs_then. eapply runs_weaken; [exact Hm|]. by intros r s' [-> HP]. Qed.
Lemma ready_step {A} reason (m : reconciling (result string A)) s a :
  runs m s (λ r _, r = Ok a) → runs (or_not_ready reason m) s (λ r _, r = Ok a).
Proof. intros Hm. apply runs_then. eapply runs_weaken; [exact Hm|]. by intros r s' ->. Qed.

Lemma deploy_step i s : runs (deploy faults env i) s (λ r s',
  match planned_network env (swarmAgent s) (ing_servers i) with
  | Some np =>
      is_Ok r = true ∧ same_agent s s' ∧ over s' = planned_stop env (swarmAgent s) ∧
      objects (ns s') = objects (put_network (swarmAgent s) np
        (put_deployment (swarmAgent s) (planned_deployment env (swarmAgent s) (ns s) i)
          (put_prompt (swarmAgent s) (assembleSystemPrompt (ing_prompt i) (ing_settings i) (ing_servers i)) (ns s))))
  | None => is_Ok r = false
  end).
Proof.
  unfold deploy. set (text := assembleSystemPrompt _ _ _).
  apply answer_after; [apply quietly_registry_ref|]. intros u0 s1 (A1 & N1 & _).
  apply runs_ok. eapply runs_weaken; [apply daily_step|]. intros [z|e] s2 [Hz (A2 & N2 & O2)]; [|done].
  apply runs_then. eapply runs_weaken; [apply budget_step|]. intros u2 s3 (A3 & N3 & O3).
  assert (O : over s3 = planned_stop env (swarmAgent s)).
  { rewrite O3, O2. unfold planned_stop.
    change (daily_exceeded env (core (swarmAgent s1)) || budget_exceeded env (core (swarmAgent s2)) =
            daily_exceeded env (core (swarmAgent s)) || budget_exceeded env (core (swarmAgent s))).
    by rewrite A2, A1. }
  assert (E3 : core (swarmAgent s3) = core (swarmAgent s)) by (unfold same_agent in *; congruence).
  assert (M3 : objects (ns s3) = objects (ns s)) by congruence. clear A1 A2 A3 N1 N2 N3 O2 O3.
  apply runs_ok. eapply runs_weaken; [exact (runs_both _ _ _ _
    (quietly_or_not_ready _ _ (quietly_account _) s3) (ready_step _ _ _ _ (account_answer s3)))|].
  intros r s4 [Q4 ->]. cbn beta iota.
  apply runs_ok. eapply runs_weaken; [apply ready_with, prompt_step|].
  intros r s5 [-> (A5 & N5 & O5)]. cbn beta iota.
  apply (settled _ _ _ _ _ (quietly_policy _ _) (policy_answer s5)). intros policy s6 -> Q6.
  assert (Q46 : over s6 = over s3 ∧ core (swarmAgent s6) = core (swarmAgent s)).
  { destruct Q4 as (? & ? & ?), Q6 as (? & ? & ?). unfold same_agent in *. split; congruence. }
  destruct Q46 as [O6 E6].
  assert (M6 : objects (ns s6) = objects (put_prompt (swarmAgent s) text (ns s))).
  { destruct Q4 as (E4 & N4 & _), Q6 as (_ & N6 & _). rewrite N6, N5. apply put_prompt_core; congruence. }
  clear s4 s5 Q4 Q6 A5 N5 O5.
  apply runs_ok. eapply runs_weaken; [apply ready_with, deployment_step; [done|]|].
  { rewrite O6, O. by apply planned_stop_core. }
  intros r s7 [-> (A7 & N7 & O7)]. cbn beta iota.
  assert (E7 : core (swarmAgent s7) = core (swarmAgent s)) by (unfold same_agent in A7; congruence).
  assert (M7 : objects (ns s7) = objects (put_deployment (swarmAgent s)
    (planned_deployment env (swarmAgent s) (ns s) i) (put_prompt (swarmAgent s) text (ns s)))).
  { rewrite N7, (planned_deployment_core _ (swarmAgent s) _ (put_prompt (swarmAgent s) text (ns s))) by done.
    replace (planned_deployment env (swarmAgent s) (put_prompt _ text (ns s)) i)
      with (planned_deployment env (swarmAgent s) (ns s) i); [by apply put_deployment_core|].
    unfold planned_deployment, planned_input, planned_caps.
    destruct (aspec_Gateway _); simpl; by rewrite ?find_registry_prompt. }
  rewrite <- (planned_network_core _ _ E7).
  pose proof (network_step (ing_servers i) s7) as T. destruct (planned_network _ _ _) as [np|].
  - apply runs_ok. eapply runs_weaken; [apply ready_with, T|]. intros r s8 [-> (A8 & N8 & O8)]. repeat run1.
    split; [done|]. split; [unfold same_agent in *; congruence|]. split; [congruence|].
    rewrite N8. by apply put_network_core.
  - apply runs_ok, runs_then. eapply runs_weaken; [exact T|]. intros r s8 [e ->]. by repeat run1.
Qed.

Lemma observe_step i z s : over s = planned_stop env (swarmAgent s) →
  runs (observe faults env i z) s (λ _ s', objects (ns s') = objects (put_scaler env (swarmAgent s) (ns s))).
Proof.
  intros O. unfold observe. apply answer_after; [apply quietly_health|]. intros m s1 Q1.
  apply answer_after; [apply quietly_advisors|]. intros u s2 Q2.
  apply answer_after; [apply quietly_tools|]. intros u' s3 Q3. run1. run1.
  apply answer_after; [quiet_op|]. intros u'' s4 Q4.
  assert (Q : quiet s s4) by (do 3 (etransitivity; [eassumption|]); exact Q4).
  destruct Q as (E & N & O4). apply runs_then.
  eapply runs_weaken; [apply scaler_step; rewrite O4, O; symmetry; by apply planned_stop_core|].
  intros r s5 (_ & N5 & _). run1. rewrite N5. by apply put_scaler_core.
Qed.

Lemma reconcile_step s : runs (reconcile_agent faults env) s (λ r s',
  match plan env (swarmAgent s) (ns s) with
  | Some m => is_Ok r = true ∧ objects (ns s') = objects m
  | None => is_Ok r = false ∧
      (planned_ingredients env (swarmAgent s) (ensure_registry (swarmAgent s) (ns s)) = None →
       objects (ns s') = objects (ensure_registry (swarmAgent s) (ns s)))
  end).
Proof.
  unfold reconcile_agent, plan. apply runs_then. eapply runs_weaken; [apply registry_step|].
  intros u s1 (A1 & N1 & _). set (n1 := ensure_registry (swarmAgent s) (ns s)) in *.
  apply runs_ok. eapply runs_weaken; [exact (runs_both _ _ _ _ (quietly_gather _ _ s1) (gather_answer s1))|].
  intros r s2 [(E2 & N2 & _) Hi]. rewrite (planned_core _ (swarmAgent s) _ n1) in Hi by done.
  destruct (planned_ingredients env (swarmAgent s) n1) as [i|]; simpl in *; [subst r|].
  2:{ destruct Hi as [e ->]. split; [done|]. intros _. congruence. }
  assert (E : core (swarmAgent s2) = core (swarmAgent s)) by (unfold same_agent in A1; congruence).
  assert (N : objects (ns s2) = objects n1) by congruence.
  rewrite <- (planned_network_core _ _ E).
  apply runs_ok. eapply runs_weaken; [apply deploy_step|]. intros r s3 H3.
  destruct (planned_network env (swarmAgent s2) (ing_servers i)) as [np|]; simpl; [|by destruct r].
  destruct r as [z|e]; [|by destruct H3]. destruct H3 as (_ & A3 & O3 & N3).
  rewrite (planned_deployment_core (swarmAgent s2) (swarmAgent s) _ n1 E N) in N3.
  assert (E3 : core (swarmAgent s3) = core (swarmAgent s)) by (unfold same_agent in A3; congruence).
  apply runs_ok.
  pose proof (quietly_sync faults s3) as Qs.
  assert (X : ∃ d, deployments (ns s3) !! deployment_name (swarmAgent s3) = Some d).
  { change (∃ d, deployments (objects (ns s3)) !! deployment_name (core (swarmAgent s3)) = Some d).
    rewrite N3, A3. unfold put_network, put_deployment. simpl. eexists.
    change (deployment_name (core (swarmAgent s2))) with (deployment_name (swarmAgent s2)). by apply lookup_insert_eq. }
  destruct X as [d X].
  eapply runs_weaken; [exact (runs_both _ _ _ _ Qs (sync_answer s3 d X))|].
  intros r s4 [(E4 & N4 & O4) ->]. cbn beta iota. apply runs_then.
  eapply runs_weaken; [apply observe_step|].
  { rewrite O4, O3. rewrite <- (planned_stop_core _ _ A3). symmetry. by apply planned_stop_core. }
  intros z' s5 N5. run1. split; [done|]. rewrite N5. apply put_scaler_core; [congruence|].
  rewrite N4, N3. apply put_network_core; [done|]. apply put_deployment_core; [done|]. by apply put_prompt_core.
Qed.

(** C4: against an API server that answers every call a reconciliation of an agent carries out the
    plan: it succeeds exactly when everything the agent refers to is there (and, under a strict
    network policy, the names of its servers resolve), and then the prompt, the deployment, the
    network policy and the autoscaler are those of the plan; when an ingredient is missing nothing
    of the agent is touched. *)
Theorem Reconcile_plan a n :
  let '(r, n') := Reconcile faults env (Found (a, false)) n in
  match plan env a n with
  | Some m => is_Ok r = true ∧ objects n' = objects m
  | None => is_Ok r = false ∧
      (planned_ingredients env a (ensure_registry a n) = None → objects n' = objects (ensure_registry a n))
  end.
Proof.
  unfold Reconcile, with_status, and_then.
  pose proof (reconcile_step (mkPass a n 0)) as R. unfold runs in R. simpl in R.
  destruct (reconcile_agent faults env (mkPass a n 0)) as [r s]. simpl in R. unfold updateStatus, request. simpl.
  destruct (plan env a n); (destruct R as [R1 R2]; destruct r; try done); by split.
Qed.
End works.
