(* ===== verification/AgentControllerProps.v ===== *)
(** * AgentControllerProps: reconciling an agent twice.

    The plan of an agent (AgentPlan) depends on what is stored only through what the agent reads,
    so a second reconciliation changes no object, unless the prompt of the agent comes from the
    ConfigMap that the controller itself writes. *)
From Stdlib Require Import ZArith Lia Ascii.
From stdpp Require Import base tactics option list numbers strings gmap.
From S2P Require Import Prelude GoStd Guards Config Types AgentTypes Kube Api Template Policy Dispatch Runtime Webhooks Team Wire ConfigWire AgentEnv AgentEnvProps EnvWire PodConfig PodLoads AgentController AgentPlan.

(** ** Doing it twice *)
Section twice.
Context `{JT : JsonText} `{FA : FoldApi} `{U : UrlApi} `{NU : NetUrl} `{LA : LowerApi} `{C : ConditionApi}
        `{HA : HashApi} `{SS : SliceSort GatewayCapabilityEntry} {CL : ConditionLaws C}.
Variable env : agent_env.

(** The cache of the reconciler only holds what is there. *)
Definition cache_true (n : namespace) : Prop := registryEnsured n = true → is_Some (find_registry "default" n).

(** The prompt does not come from the ConfigMap that the controller writes. *)
Definition own_prompt (a : SwarmAgent) : Prop := prompt_config_map a ≠ Some (agent_Name a +:+ "-prompt").

Lemma find_appended r l :
  List.find (λ r, String.eqb (registry_Name r) "default") (l ++ [r]) =
    match List.find (λ r, String.eqb (registry_Name r) "default") l with
    | Some x => Some x
    | None => if String.eqb (registry_Name r) "default" then Some r else None
    end.
Proof.
  induction l as [|x l IH]; [done|]. simpl. by destruct (String.eqb (registry_Name x) "default").
Qed.

Lemma ensured_default a n : cache_true n → is_Some (find_registry "default" (ensure_registry a n)).
Proof.
  unfold ensure_registry. intros Hc. destruct (registryEnsured n) eqn:X; [by apply Hc|].
  destruct (find_registry "default" n) eqn:E; [rewrite ?E; eauto|].
  assert (A : find_registry "default" (n <| registries ::= λ l, l ++ [default_registry a] |>) = Some (default_registry a)).
  { unfold find_registry in *. change (registries (n <| registries ::= _ |>)) with (registries n ++ [default_registry a]).
    by rewrite find_appended, E. }
  rewrite A. eauto.
Qed.

Lemma ensure_again a n : is_Some (find_registry "default" n) → ensure_registry a n = n.
Proof. intros [r E]. unfold ensure_registry. rewrite E. by destruct (registryEnsured n). Qed.

Lemma copy_twice desired d : copy_deployment desired (copy_deployment desired d) = copy_deployment desired d.
Proof. destruct desired, d. unfold copy_deployment. simpl. by destruct Containers0, Containers. Qed.

Lemma copy_same d : copy_deployment d d = d.
Proof. destruct d. unfold copy_deployment. simpl. by destruct Containers. Qed.

(** *** The effects have fixed points *)
Lemma prompt_fixed a text m data :
  configMaps m !! (agent_Name a +:+ "-prompt") = Some data → default "" (data !! promptConfigMapKey) = text →
  put_prompt a text m = m.
Proof. intros E Ht. unfold put_prompt. by rewrite E, decide_True. Qed.

Lemma deployment_fixed a desired m d :
  deployments m !! deployment_name a = Some d → copy_deployment desired d = d → put_deployment a desired m = m.
Proof. intros E Hd. unfold put_deployment. rewrite E, Hd. destruct m. unfold set_field. simpl in *. by rewrite insert_id. Qed.

Lemma network_fixed a np m : networkPolicies m !! (agent_Name a +:+ "-netpol") = np → put_network a np m = m.
Proof.
  intros E. unfold put_network. destruct m. simpl in *.
  destruct np; unfold set_field; simpl; f_equal; [by apply insert_id|by apply delete_id].
Qed.

Lemma scaler_fixed a n : put_scaler env a (put_scaler env a n) = put_scaler env a n.
Proof.
  unfold put_scaler. destruct (_ || _).
  - destruct n. unfold set_field. simpl. f_equal. apply delete_id, lookup_delete_eq.
  - case_decide; [done|]. destruct n. unfold set_field. simpl. f_equal. rewrite lookup_insert_eq.
    rewrite insert_id; [done|]. rewrite lookup_insert_eq. f_equal.
    destruct (scaledObjects !! _) as [[]|]; reflexivity.
Qed.

Lemma written_prompt a text n : ∃ data,
  configMaps (put_prompt a text n) !! (agent_Name a +:+ "-prompt") = Some data ∧
  default "" (data !! promptConfigMapKey) = text.
Proof.
  unfold put_prompt. destruct (configMaps n !! _) as [data|] eqn:E; [case_decide|].
  - by exists data.
  - simpl. rewrite lookup_insert_eq. eexists. split; [done|]. by rewrite lookup_singleton_eq.
  - simpl. rewrite lookup_insert_eq. eexists. split; [done|]. by rewrite lookup_singleton_eq.
Qed.

Lemma other_config_maps a text n name : name ≠ agent_Name a +:+ "-prompt" →
  configMaps (put_prompt a text n) !! name = configMaps n !! name.
Proof.
  intros Hn. unfold put_prompt. destruct (configMaps n !! (_ +:+ "-prompt")); [case_decide|]; simpl;
    by rewrite ?lookup_insert_ne by done.
Qed.

Lemma scaler_rest a n : objects (put_scaler env a n) =
  mkNamespace (deployments n) (configMaps n) (networkPolicies n) (scaledObjects (put_scaler env a n)) (registries n)
    [] None false false.
Proof. unfold put_scaler. destruct (_ || _); [done|]. by case_decide. Qed.

Lemma prompt_rest a text n : objects (put_prompt a text n) =
  mkNamespace (deployments n) (configMaps (put_prompt a text n)) (networkPolicies n) (scaledObjects n) (registries n)
    [] None false false.
Proof. unfold put_prompt. destruct (configMaps n !! _); [case_decide|]; done. Qed.

(** Reading the same prompt and the same bindings. *)
Lemma planned_again a n m :
  registries m = registries n → (∀ ref, prompt_config_map a = Some ref → configMaps m !! ref = configMaps n !! ref) →
  planned_ingredients env a m = planned_ingredients env a n.
Proof.
  intros Hr Hc. unfold planned_ingredients. destruct (planned_settings env a); [simpl|done].
  replace (planned_servers a m) with (planned_servers a n) by (unfold planned_servers; by rewrite Hr).
  replace (planned_prompt env a m) with (planned_prompt env a n); [done|].
  unfold planned_prompt. unfold prompt_config_map, prompt_source in Hc.
  destruct (aspec_Prompt _) as [p|]; [|done]. simpl in Hc. destruct (prompt_From p) as [src|]; [|done]. simpl in Hc.
  destruct (ConfigMapKeyRef src) as [ref|]; [|done]. simpl in Hc. by rewrite (Hc _ eq_refl).
Qed.

Lemma planned_deployment_again a n m i : registries m = registries n →
  planned_deployment env a m i = planned_deployment env a n i.
Proof.
  intros Hr. unfold planned_deployment, planned_input. f_equal. f_equal. f_equal. unfold planned_caps, find_registry.
  by rewrite Hr.
Qed.

(** The plan for the objects it has made is those objects. *)
Lemma plan_twice a n m m' : cache_true n → own_prompt a →
  plan env a n = Some m → objects m' = objects m →
  ∃ m'', plan env a m' = Some m'' ∧ objects m'' = objects m.
Proof.
  intros Hc Hp Hm Ho. unfold plan in Hm. pose proof (ensured_default a n Hc) as Hdef.
  set (n1 := ensure_registry a n) in *. destruct (planned_ingredients env a n1) as [i|] eqn:Ei; [|done]. simpl in Hm.
  destruct (planned_network env a (ing_servers i)) as [np|] eqn:En; [|done]. simpl in Hm.
  set (text := assembleSystemPrompt _ _ _) in *. set (d := planned_deployment env a n1 i) in *.
  set (n2 := put_prompt a text n1) in *. set (n3 := put_deployment a d n2) in *. set (n4 := put_network a np n3) in *.
  injection Hm as <-.
  assert (R : registries (put_scaler env a n4) = registries n1).
  { change (registries (objects (put_scaler env a n4)) = registries n1). rewrite scaler_rest. simpl.
    change (registries (objects n2) = registries n1). unfold n2. by rewrite prompt_rest. }
  assert (R' : registries m' = registries n1).
  { change (registries (objects m') = registries n1). by rewrite Ho. }
  assert (M : configMaps (put_scaler env a n4) = configMaps n2).
  { change (configMaps (objects (put_scaler env a n4)) = configMaps n2). by rewrite scaler_rest. }
  unfold plan. rewrite ensure_again by (unfold find_registry in *; by rewrite R').
  rewrite (planned_again a n1 m') by (first [done|intros ref Hr;
    change (configMaps (objects m') !! ref = configMaps n1 !! ref); rewrite Ho; unfold objects; simpl; rewrite M;
    apply other_config_maps; intros ->; by apply Hp]).
  rewrite Ei. simpl. rewrite En. simpl. eexists. split; [done|]. fold text.
  rewrite (planned_deployment_again a n1 m') by done. fold d.
  set (m := put_scaler env a n4) in *.
  transitivity (objects (put_scaler env a (put_network a np (put_deployment a d (put_prompt a text m))))).
  { by apply put_scaler_core, put_network_core, put_deployment_core, put_prompt_core. }
  destruct (written_prompt a text n1) as (data & Hd & Ht).
  rewrite (prompt_fixed a text m data) by (rewrite ?M; done).
  assert (D : deployments m = deployments n3).
  { change (deployments (objects m) = deployments n3). unfold m. by rewrite scaler_rest. }
  assert (N : networkPolicies m = networkPolicies n4).
  { change (networkPolicies (objects m) = networkPolicies n4). unfold m. by rewrite scaler_rest. }
  erewrite (deployment_fixed a d m) by
    (first [rewrite D; unfold n3, put_deployment; simpl; apply lookup_insert_eq
           |destruct (deployments n2 !! deployment_name a); [apply copy_twice|apply copy_same]]).
  rewrite network_fixed; [unfold m; by rewrite scaler_fixed|].
  rewrite N. unfold n4, put_network. simpl. destruct np; [apply lookup_insert_eq|apply lookup_delete_eq].
Qed.

Lemma reconcile_makes a n z n' :
  Reconcile (λ _, Works) env (Found (a, false)) n = (Ok z, n') →
  ∃ m, plan env a n = Some m ∧ objects n' = objects m.
Proof.
  unfold Reconcile, with_status, and_then. pose proof (reconcile_step env (mkPass a n 0)) as R. unfold runs in R.
  simpl in R. destruct (reconcile_agent _ env (mkPass a n 0)) as [[z'|e] s]; simpl in *; [|done].
  destruct (plan env a n) as [m|]; [|by destruct R]. intros [= _ <-]. exists m. split; [done|]. by destruct R.
Qed.

Lemma reconcile_possible a n m : plan env a n = Some m → is_Ok (Reconcile (λ _, Works) env (Found (a, false)) n).1 = true.
Proof.
  intros E. unfold Reconcile, with_status, and_then. pose proof (reconcile_step env (mkPass a n 0)) as R. unfold runs in R.
  simpl in R. rewrite E in R. destruct (reconcile_agent _ env (mkPass a n 0)) as [[z'|e] s]; [done|by destruct R].
Qed.

Lemma plan_core a b n : core a = core b → plan env a n = plan env b n.
Proof. intros E. change (plan env (core a) n = plan env (core b) n). by rewrite E. Qed.

(** C12: reconciling an agent twice changes nothing the second time, as long as its prompt does not
    come from the ConfigMap the controller writes. *)
Theorem agent_settles a n st :
  cache_true n → own_prompt a →
  let first := Reconcile (λ _, Works) env (Found (a, false)) n in
  let second := Reconcile (λ _, Works) env (Found (a <| agent_Status := st |>, false)) first.2 in
  is_Ok first.1 = true → is_Ok second.1 = true ∧ objects second.2 = objects first.2.
Proof.
  intros Hc Hp first second Hr. destruct first as [[z|e] n1] eqn:E1; [|done].
  destruct (reconcile_makes _ _ _ _ E1) as (m & Hm & Ho). destruct (plan_twice a n m n1 Hc Hp Hm Ho) as (m' & Hm' & Ho').
  rewrite (plan_core a (a <| agent_Status := st |>)) in Hm' by reflexivity.
  pose proof (reconcile_possible _ _ _ Hm') as Hok. unfold second. cbn [fst snd].
  destruct (Reconcile _ env (Found (a <| agent_Status := st |>, false)) n1) as [[z2|e2] n2] eqn:E2; [|done].
  split; [done|]. destruct (reconcile_makes _ _ _ _ E2) as (m2 & Hm2 & Ho2). cbn [fst snd].
  rewrite Hm' in Hm2. injection Hm2 as <-. congruence.
Qed.
End twice.
