(* ===== verification/AgentStops.v ===== *)
(** * AgentStops: budgets, and what a failing API server does to them.

    The daily limit of an agent is enforced whatever calls fail: a reconciliation that finds it
    reached never starts a pod, and stops those that run as soon as it gets through.  The budget
    that an agent refers to is not: it is read without care. *)
From Stdlib Require Import ZArith Lia Ascii.
From stdpp Require Import base tactics option list numbers strings gmap.
From S2P Require Import Prelude GoStd Guards Types AgentTypes Kube Api Template Policy Dispatch Runtime Webhooks Team Wire AgentEnv AgentController AgentPlan.

Ltac chain R := match goal with
  | |- R ?a ?a => reflexivity
  | H : R ?a ?b |- R ?a _ => transitivity b; [exact H|clear H; chain R]
  end.

Section stops.
Context `{JT : JsonText} `{FA : FoldApi} `{U : UrlApi} `{NU : NetUrl} `{LA : LowerApi} `{C : ConditionApi}
        `{HA : HashApi} `{SS : SliceSort GatewayCapabilityEntry} {CL : ConditionLaws C}.
Variable faults : nat → fault.
Variable env : agent_env.

(** What runs the agents of a namespace. *)
Definition running (n : namespace) : gmap string Deployment * gmap string ScaledObject :=
  (deployments n, scaledObjects n).
Notation calmly := (quietly_on running).

Lemma running_objects n n' : objects n = objects n' → running n = running n'.
Proof. intros E. exact (f_equal running E). Qed.

Lemma calm {A} (m : reconciling A) : quietly m → calmly m.
Proof. apply quietly_coarser, running_objects. Qed.

(** A deployment without replicas. *)
Definition idle (n : namespace) (name : string) : Prop :=
  ∃ d, deployments n !! name = Some d ∧ dep_Replicas d = 0.

(** Nothing has been started: a deployment is as it was, or has no replicas; one that is idle stays
    so; a scaler is as it was, or gone. *)
Definition stopped (n n' : namespace) : Prop :=
  (∀ name d, deployments n' !! name = Some d → deployments n !! name = Some d ∨ dep_Replicas d = 0) ∧
  (∀ name, idle n name → idle n' name) ∧
  (∀ name so, scaledObjects n' !! name = Some so → scaledObjects n !! name = Some so).

#[export] Instance stopped_preorder : PreOrder stopped.
Proof.
  split; [intros n; repeat split; auto|]. intros n1 n2 n3 (A1 & A2 & A3) (B1 & B2 & B3). split; [|by split; auto].
  intros name d E. destruct (B1 _ _ E); auto.
Qed.

Lemma running_stopped n n' : running n' = running n → stopped n n'.
Proof.
  intros [= E1 E2]. split; [|split]; intros name; unfold idle; rewrite ?E1, ?E2; auto.
Qed.

(** A pass that starts nothing, for an agent out of its budget. *)
Definition halting (s s' : pass) : Prop :=
  core (swarmAgent s') = core (swarmAgent s) ∧ stopped (ns s) (ns s') ∧ (over s = true → over s' = true).

#[export] Instance halting_preorder : PreOrder halting.
Proof.
  split; [done|]. intros s1 s2 s3 (A1 & A2 & A3) (B1 & B2 & B3).
  split; [congruence|]. split; [by transitivity (ns s2)|auto].
Qed.

Lemma calm_halting s s' : quiet_on running s s' → halting s s'.
Proof. intros (? & ? & E). split; [done|]. split; [by apply running_stopped|by rewrite E]. Qed.

Lemma halts_after {A B} (m : reconciling A) (k : A → reconciling B) s Q :
  calmly m → (∀ a s', halting s s' → over s' = over s → runs (k a) s' Q) → runs (and_then m k) s Q.
Proof.
  intros Hm Hk. apply runs_then. eapply runs_weaken; [apply Hm|]. intros a s' Hs.
  apply Hk; [by apply calm_halting|by destruct Hs as (_ & _ & ?)].
Qed.

Lemma halts_ok {A B} (m : reconciling (result string A)) (k : A → reconciling (result string B)) s Q :
  calmly m → (∀ e s', halting s s' → Q (Err e) s') →
  (∀ a s', halting s s' → over s' = over s → runs (k a) s' Q) → runs (if_ok m k) s Q.
Proof. intros Hm He Hk. apply halts_after; [done|]. intros [a|e] s' Hs Ho; [by apply Hk|by apply He]. Qed.

Lemma calm_default : calmly (ensureDefaultRegistry faults).
Proof.
  unfold ensureDefaultRegistry, registry_ensured. quiet_op; try by apply quietly_ns.
  apply quietly_write. intros n. by destruct (find_registry "default" n).
Qed.
Lemma calm_prompt text : calmly (reconcilePromptConfigMap faults text).
Proof. unfold reconcilePromptConfigMap. quiet_op. Qed.
Lemma calm_network servers : calmly (reconcileNetworkPolicy faults env servers).
Proof. unfold reconcileNetworkPolicy. quiet_op. Qed.

(** *** The steps that read or act on the budget *)
Lemma daily_halts s : daily_exceeded env (swarmAgent s) = true →
  runs (reconcileDailyBudget faults env) s (λ r s', halting s s' ∧ (is_Ok r = true → over s' = true)).
Proof.
  unfold daily_exceeded. intros [Hl Ht]%andb_true_iff. apply Z.ltb_lt in Hl. unfold reconcileDailyBudget.
  apply runs_then, runs_read, runs_then. unfold list_objects, request, runs at 1.
  destruct (faults (requests s)); simpl; [|done|done].
  apply runs_then. unfold changing_status. apply runs_change.
  replace (daily_token_limit (swarmAgent s) <=? 0) with false by (symmetry; apply Z.leb_gt; lia). rewrite Ht.
  apply runs_then. eapply runs_weaken; [apply exceeded_step|]. intros u s' (E & N & O). apply runs_answer.
  split; [|done]. split; [done|]. split; [|done]. by apply running_stopped, running_objects.
Qed.

Lemma budget_halts s : over s = true →
  runs (reconcileBudgetRef faults env) s (λ _ s', halting s s' ∧ over s' = true).
Proof.
  intros O. unfold reconcileBudgetRef. apply runs_then, runs_read.
  destruct (Guardrails _ ≫= guard_BudgetRef) as [ref|]; [|by apply runs_answer].
  apply halts_after; [apply calm, quietly_get|]. intros b s1 H1 O1. rewrite O in O1.
  destruct b as [b| |e]; [|by apply runs_answer|by apply runs_answer].
  destruct (budget_HardStop _ && _); [|by apply runs_answer].
  apply runs_then. eapply runs_weaken; [apply exceeded_step|]. intros u s2 (E & N & O2). apply runs_answer.
  split; [|done]. transitivity s1; [done|]. split; [done|]. split; [|done].
  by apply running_stopped, running_objects.
Qed.

(** A write of a deployment without replicas. *)
Lemma write_halts name d s : dep_Replicas d = 0 →
  runs (write_object faults (λ n, n <| deployments ::= <[name := d]> |>)) s (λ r s', halting s s' ∧
    (is_Ok r = true → idle (ns s') name)).
Proof.
  intros Hd. unfold write_object, request, runs. destruct (faults (requests s)); [|done|done].
  split; [|intros _; exists d; split; [apply lookup_insert_eq|done]].
  split; [done|]. split; [|done]. split; [|split; [|done]]; intros x; unfold idle; simpl;
    (destruct (decide (name = x)) as [<-|Hne]; [rewrite lookup_insert_eq|rewrite lookup_insert_ne by done; auto]).
  - intros e [= <-]. by right.
  - intros _. by exists d.
Qed.

Lemma deployment_halts inp s : over s = true →
  runs (reconcileDeployment faults env inp) s (λ r s', halting s s' ∧
    (is_Ok r = true → idle (ns s') (deployment_name (swarmAgent s)))).
Proof.
  intros O. unfold reconcileDeployment. apply halts_ok; [apply calm, quietly_caps|done|]. intros caps s1 H1 O1.
  apply runs_then, runs_read. apply halts_after; [apply calm; quiet_op|]. intros u s2 H2 O2.
  assert (D : dep_Replicas (buildDeployment env (swarmAgent s1) (inp caps)) = 0).
  { simpl. unfold desired_replicas_of. fold (over s1). by rewrite O1, O. }
  set (d := buildDeployment _ _ _) in *.
  assert (N : deployment_name (swarmAgent s1) = deployment_name (swarmAgent s)).
  { unfold deployment_name. destruct H1 as (E & _).
    by rewrite (f_equal agent_Name E : agent_Name (swarmAgent s1) = agent_Name (swarmAgent s)). }
  rewrite N. apply runs_then. unfold runs at 1.
  assert (G : ∀ x s3, get_object faults (λ n, deployments n !! deployment_name (swarmAgent s)) s2 = (x, s3) →
    halting s s3 ∧ (∀ e, x = Found e → deployments (ns s3) !! deployment_name (swarmAgent s) = Some e)).
  { intros x s3. unfold get_object, request. intros [= <- <-].
    split; [transitivity s1; [done|by transitivity s2]|]. simpl. intros e.
    destruct (faults (requests s2)); [|done|done].
    destruct (deployments (ns s2) !! deployment_name (swarmAgent s)); [by intros [= <-]|done]. }
  destruct (get_object faults _ s2) as [x s3] eqn:X. destruct (G _ _ eq_refl) as [H3 Hx]. cbn [fst snd].
  assert (W : ∀ d, dep_Replicas d = 0 →
    runs (write_object faults (λ n, n <| deployments ::= <[deployment_name (swarmAgent s) := d]> |>)) s3
      (λ r s', halting s s' ∧ (is_Ok r = true → idle (ns s') (deployment_name (swarmAgent s))))).
  { intros d' Hd. eapply runs_weaken; [by apply write_halts|]. intros r s4 [? ?]. split; [by transitivity s3|done]. }
  destruct x as [e| |e]; [|by apply W|by apply runs_answer].
  case_decide as Hc; [|by apply W]. apply runs_answer. split; [done|]. intros _. exists e.
  split; [by apply Hx|]. by rewrite <- Hc.
Qed.

Lemma scaler_halts s : over s = true → runs (reconcileKEDA faults env) s (λ _ s', halting s s').
Proof.
  intros O. unfold reconcileKEDA. apply runs_then, runs_read. unfold over in O. rewrite O.
  unfold deleteScaledObjectIfExists. apply runs_then, runs_read, runs_then. unfold request, runs at 1.
  destruct (faults (requests s)); simpl; apply runs_answer; [|done|done].
  split; [done|]. split; [|done]. split; [auto|]. split; [auto|]. intros name so. simpl.
  intros [_ E]%lookup_delete_Some. done.
Qed.

(** *** The whole *)
Lemma calm_not_ready {A} reason (m : reconciling (result string A)) : calmly m → calmly (or_not_ready reason m).
Proof. apply quietly_or_not_ready. Qed.

Lemma daily_core a b : core a = core b → daily_exceeded env a = daily_exceeded env b.
Proof. intros E. change (daily_exceeded env (core a) = daily_exceeded env (core b)). by rewrite E. Qed.
Lemma name_core a b : core a = core b → deployment_name a = deployment_name b.
Proof. intros E. change (deployment_name (core a) = deployment_name (core b)). by rewrite E. Qed.

Lemma deploy_halts i s : daily_exceeded env (swarmAgent s) = true →
  runs (deploy faults env i) s (λ r s', halting s s' ∧ (is_Ok r = true → over s' = true ∧ idle (ns s') (deployment_name (swarmAgent s)))).
Proof.
  intros Hx. unfold deploy. set (text := assembleSystemPrompt _ _ _).
  apply halts_after; [apply calm, quietly_registry_ref|]. intros u0 s1 H1 _.
  assert (Hx1 : daily_exceeded env (swarmAgent s1) = true) by (rewrite <- Hx; apply daily_core; by destruct H1).
  apply runs_ok. eapply runs_weaken; [by apply daily_halts|]. intros [z|e] s2 [H2 O2];
    [specialize (O2 eq_refl)|split; [by transitivity s1|done]].
  apply runs_then. eapply runs_weaken; [by apply budget_halts|]. intros u2 s3 [H3 O3].
  assert (H03 : halting s s3) by chain halting.
  apply halts_ok; [apply calm_not_ready, calm, quietly_account|intros; split; [by transitivity s3|done]|].
  intros u4 s4 H4 O4. apply halts_ok; [apply calm_not_ready, calm_prompt
    |intros; split; [by transitivity s3; [|transitivity s4]|done]|].
  intros u5 s5 H5 O5. apply halts_after; [apply calm, quietly_policy|]. intros policy s6 H6 O6.
  assert (H06 : halting s s6) by chain halting.
  assert (T6 : over s6 = true) by congruence.
  apply runs_ok, runs_then. eapply runs_weaken; [by apply deployment_halts|]. intros [[]|e] s7 [H7 D7].
  - apply runs_answer. specialize (D7 eq_refl). rewrite (name_core _ (swarmAgent s)) in D7 by (by destruct H06).
    apply halts_ok; [apply calm_not_ready, calm_network|by intros; split; [chain halting|]|].
    intros r s8 H8 O8. apply runs_then, runs_read, runs_answer. split; [chain halting|]. intros _.
    destruct H7 as (_ & _ & O7). split; [rewrite O8; auto|]. by apply H8.
  - apply runs_then. unfold set_condition. apply runs_change, runs_answer. split; [|done].
    transitivity s6; [done|]. destruct H7 as (E7 & S7 & K7). split; [done|]. split; [done|]. intros _.
    destruct (quietly_set (view := running) ConditionReady ConditionFalse "ReconcileError" e
      ltac:(done) ltac:(done) s7) as (_ & _ & O7). simpl in O7. rewrite O7. auto.
Qed.

Lemma observe_halts i z s : over s = true → runs (observe faults env i z) s (λ _ s', halting s s').
Proof.
  intros O. unfold observe. apply halts_after; [apply calm, quietly_health|]. intros m s1 H1 O1.
  apply halts_after; [apply calm, quietly_advisors|]. intros u2 s2 H2 O2.
  apply halts_after; [apply calm, quietly_tools|]. intros u3 s3 H3 O3. apply runs_then, runs_read.
  apply halts_after; [apply calm; quiet_op|]. intros u4 s4 H4 O4. apply runs_then.
  eapply runs_weaken; [apply scaler_halts; congruence|]. intros r s5 H5. apply runs_answer.
  cbv beta in H5 |- *. chain halting.
Qed.

Lemma calm_gather : calmly (gather faults env).
Proof. apply calm, quietly_gather. Qed.
Lemma calm_sync : calmly (syncStatus faults).
Proof. apply calm, quietly_sync. Qed.

(** C10: whatever calls to the API server fail, a reconciliation of an agent whose tokens of the last
    day have reached its limit starts nothing: every deployment is as it was or has no replicas,
    and no scaler appears; if it gets through, the agent's deployment has no replicas. *)
Theorem daily_limit_stops a n :
  daily_exceeded env a = true →
  let '(r, n') := Reconcile faults env (Found (a, false)) n in
  stopped n n' ∧ (is_Ok r = true → idle n' (deployment_name a)).
Proof.
  intros Hx. assert (R : runs (reconcile_agent faults env) (mkPass a n 0) (λ r s',
    halting (mkPass a n 0) s' ∧ (is_Ok r = true → idle (ns s') (deployment_name a)))).
  { unfold reconcile_agent. apply halts_after; [apply calm_default|]. intros u1 s1 H1 _.
    apply halts_ok; [apply calm_gather|by intros; split; [chain halting|]|]. intros i s2 H2 _.
    assert (E2 : core (swarmAgent s2) = core a) by (destruct H1, H2; by etransitivity).
    apply runs_ok. eapply runs_weaken; [apply deploy_halts; by rewrite (daily_core _ _ E2)|].
    intros [z|e] s3 [H3 D3]; [|by split; [chain halting|]]. destruct (D3 eq_refl) as [O3 Y3].
    rewrite (name_core _ _ E2) in Y3.
    apply halts_ok; [apply calm_sync|by intros; split; [chain halting|]|]. intros u4 s4 H4 O4. apply runs_then.
    eapply runs_weaken; [apply observe_halts; congruence|]. intros z' s5 H5. apply runs_answer. cbv beta in H5 |- *.
    split; [chain halting|]. intros _. apply H5, H4, Y3. }
  unfold Reconcile, with_status, and_then. unfold runs in R.
  destruct (reconcile_agent faults env (mkPass a n 0)) as [r s]. cbn [fst snd] in R. destruct R as [(_ & R1 & _) R2].
  pose proof (quietly_update (view := running) faults ltac:(done) s) as (_ & RU & _). unfold runs in RU.
  destruct (updateStatus faults s) as [u s']. cbn [fst snd answer_with] in *.
  assert (R3 : stopped (ns s) (ns s')) by (by apply running_stopped).
  split; [by transitivity (ns s)|]. destruct r as [z|e]; [|done]. intros _. apply R3, R2. done.
Qed.
End stops.
