(* ===== verification/AgentNetwork.v ===== *)
(** * AgentNetwork: the traffic that the network policy of an agent admits.

    Kubernetes admits what some rule admits: a rule without ports is for every port, one without
    peers for every destination. *)
From Stdlib Require Import ZArith Lia Ascii.
From stdpp Require Import base tactics option list numbers strings gmap.
From S2P Require Import Prelude GoStd Guards Types AgentTypes Kube Api Template Policy Dispatch Runtime Webhooks Team Wire AgentEnv AgentController AgentPlan.

(** An address, as a number of 32 or 128 bits, and its text, which net.ParseIP reads. *)
Inductive ip_addr := IPv4 (z : Z) | IPv6 (z : Z).
Class IpText := ParseIP : string → option ip_addr.

(** The pods of a namespace, or an address. *)
Inductive destination := ToNamespace (name : string) | ToAddress (ip : ip_addr).

(** A block: the text of an address, a slash and a number of bits. *)
Fixpoint cut_last (c : ascii) (s : string) : option (string * string) :=
  match s with
  | "" => None
  | String d rest =>
      match cut_last c rest with
      | Some (before, after) => Some (String d before, after)
      | None => if Ascii.eqb d c then Some ("", rest) else None
      end
  end.

Definition ParseCIDR `{IpText} (cidr : string) : option (ip_addr * Z) :=
  '(text, bits) ← cut_last "/" cidr; a ← ParseIP text; n ← Atoi bits; Some (a, n).

(** The addresses agree in their first bits. *)
Definition same_network (bits : Z) (a b : ip_addr) : Prop :=
  match a, b with
  | IPv4 a, IPv4 b => Z.shiftr a (32 - bits) = Z.shiftr b (32 - bits)
  | IPv6 a, IPv6 b => Z.shiftr a (128 - bits) = Z.shiftr b (128 - bits)
  | _, _ => False
  end.

Section admission.
Context `{IT : IpText}.

Definition peer_admits (p : NetworkPolicyPeer) (d : destination) : Prop :=
  match p, d with
  | NamespacePeer x, ToNamespace y => x = y
  | IPBlockPeer cidr, ToAddress ip => ∃ a bits, ParseCIDR cidr = Some (a, bits) ∧ same_network bits a ip
  | _, _ => False
  end.

Definition rule_admits (r : EgressRule) (proto : Protocol) (port : Z) (d : destination) : Prop :=
  (egress_Ports r = [] ∨ (proto, port) ∈ egress_Ports r) ∧
  (egress_To r = [] ∨ ∃ p, p ∈ egress_To r ∧ peer_admits p d).

Definition admits (np : NetworkPolicy) (proto : Protocol) (port : Z) (d : destination) : Prop :=
  ∃ r, r ∈ np_Egress np ∧ rule_admits r proto port d.

(** The block that the controller makes of an address: of an IPv4 address that address alone, of an
    IPv6 address all addresses with the same first 32 bits. *)
Definition reached (text : string) (ip : ip_addr) : Prop :=
  match ParseIP text, ip with
  | Some (IPv4 a), IPv4 b => b = a
  | Some (IPv6 a), IPv6 b => Z.shiftr b 96 = Z.shiftr a 96
  | _, _ => False
  end.

Lemma cut_last_app text : cut_last "/" (text +:+ "/32") = Some (text, "32").
Proof. induction text as [|c text IH]; [done|]. simpl. simpl in IH. by rewrite IH. Qed.

Lemma block_admits text ip : peer_admits (IPBlockPeer (text +:+ "/32")) (ToAddress ip) ↔ reached text ip.
Proof.
  assert (E : ParseCIDR (text +:+ "/32") = (a ← ParseIP text; Some (a, 32))) by (unfold ParseCIDR; by rewrite cut_last_app).
  unfold reached. cbn [peer_admits]. rewrite E. clear E.
  destruct (ParseIP text) as [[a|a]|]; simpl.
  - destruct ip as [b|b]; simpl.
    + split; [intros (x & n & [= <- <-] & E)|intros ->; by exists (IPv4 a), 32]. simpl in E.
      by rewrite !Z.shiftr_0_r in E.
    + split; [by intros (x & n & [= <- <-] & E)|done].
  - destruct ip as [b|b]; simpl.
    + split; [by intros (x & n & [= <- <-] & E)|done].
    + split; [by intros (x & n & [= <- <-] & E)|]. intros E. exists (IPv6 a), 32. by split.
  - split; [by intros (x & n & [=] & _)|done].
Qed.
End admission.

Section network.
Context `{NU : NetUrl} `{IT : IpText}.
Variable env : agent_env.

(** *** The addresses of servers *)
Lemma add_addresses_spec addrs seen :
  let '(seen', peers) := add_addresses seen addrs in
  (∀ c, c ∈ seen' ↔ c ∈ seen ∨ IPBlockPeer c ∈ peers) ∧
  (∀ p, p ∈ peers → ∃ addr, addr ∈ addrs ∧ p = IPBlockPeer (addr +:+ "/32")) ∧
  (∀ addr, addr ∈ addrs → addr +:+ "/32" ∈ seen').
Proof.
  revert seen. induction addrs as [|addr addrs IH]; intros seen; simpl; [set_solver|].
  case_decide as Hs.
  - specialize (IH seen). destruct (add_addresses seen addrs) as [seen' peers]. destruct IH as (I1 & I2 & I3).
    split; [done|]. split; [set_solver|]. intros x [->|Hx]%elem_of_cons; [|by apply I3]. apply I1. by left.
  - specialize (IH ({[addr +:+ "/32"]} ∪ seen)). destruct (add_addresses _ addrs) as [seen' peers].
    destruct IH as (I1 & I2 & I3). split; [|split].
    + intros c. rewrite I1, elem_of_cons. split; [|intros [?|[[= ->]|?]]; set_solver]. set_solver.
    + intros p [->|Hp]%elem_of_cons; [|set_solver]. exists addr. set_solver.
    + intros x [->|Hx]%elem_of_cons; [|by apply I3]. apply I1. set_solver.
Qed.

(** An address of one of the hosts. *)
Definition resolved (hosts : list (string * string)) (ip : string) : Prop :=
  ∃ name host addrs, (name, host) ∈ hosts ∧ LookupHost env host = Ok addrs ∧ ip ∈ addrs.

Lemma collect_peers_spec hosts seen :
  match collect_peers env seen hosts with
  | Ok peers =>
      (∀ p, p ∈ peers → ∃ ip, resolved hosts ip ∧ p = IPBlockPeer (ip +:+ "/32")) ∧
      (∀ ip, resolved hosts ip → ip +:+ "/32" ∈ seen ∨ IPBlockPeer (ip +:+ "/32") ∈ peers)
  | Err _ => ∃ name host e, (name, host) ∈ hosts ∧ LookupHost env host = Err e
  end.
Proof.
  revert seen. induction hosts as [|[name host] hosts IH]; intros seen; cbn [collect_peers].
  { split; [set_solver|]. by intros ip (? & ? & ? & Hx%elem_of_nil & _). }
  destruct (LookupHost env host) as [addrs|e] eqn:E; [|exists name, host, e; set_solver].
  pose proof (add_addresses_spec addrs seen) as A. destruct (add_addresses seen addrs) as [seen' peers].
  destruct A as (A1 & A2 & A3). specialize (IH seen'). destruct (collect_peers env seen' hosts) as [more|e]; simpl.
  - destruct IH as [I1 I2]. split.
    + intros p [Hp|Hp]%elem_of_app.
      * destruct (A2 _ Hp) as (ip & Hip & ->). exists ip. split; [|done]. exists name, host, addrs. set_solver.
      * destruct (I1 _ Hp) as (ip & (n & h & l & ? & ? & ?) & ->). exists ip. split; [|done]. exists n, h, l. set_solver.
    + intros ip (n & h & l & [[= -> ->]|Hh]%elem_of_cons & Hl & Hip).
      * rewrite E in Hl. injection Hl as <-. destruct (proj1 (A1 _) (A3 _ Hip)); [by left|set_solver].
      * destruct (I2 ip) as [Hs|?]; [by exists n, h, l| |set_solver].
        destruct (proj1 (A1 _) Hs); [by left|set_solver].
  - destruct IH as (n & h & e' & ? & ?). exists n, h, e'. set_solver.
Qed.

Lemma mcp_hosts_spec servers host : (∃ name, (name, host) ∈ mcp_hosts servers) ↔
  host ≠ "" ∧ ∃ s u, s ∈ servers ∧ url_Parse (mcptool_URL s) = Some u ∧ url_Hostname u = host.
Proof.
  induction servers as [|s servers IH]; simpl; [set_solver|].
  destruct (url_Parse (mcptool_URL s)) as [u|] eqn:E; [case_decide as Hh|].
  - rewrite IH. split; [set_solver|]. intros (? & x & v & [->|?]%elem_of_cons & ? & ?); [congruence|]. eauto 10.
  - split.
    + intros [n [[= -> ->]|Hn]%elem_of_cons]; [split; [done|]; exists s, u; set_solver|].
      destruct (proj1 IH (ex_intro _ n Hn)) as (? & x & v & ? & ? & ?). split; [done|]. exists x, v. set_solver.
    + intros (? & x & v & [->|Hx]%elem_of_cons & Hv & <-).
      * rewrite E in Hv. injection Hv as <-. exists (mcptool_Name s). set_solver.
      * destruct (proj2 IH) as [n Hn]; [split; [done|]; by exists x, v|]. exists n. set_solver.
  - rewrite IH. split; [set_solver|]. intros (? & x & v & [->|?]%elem_of_cons & ? & ?); [congruence|]. eauto 10.
Qed.

(** The server has a name, whose lookup gives this. *)
Definition server_lookup (servers : list MCPToolSpec) (r : result string (list string)) : Prop :=
  ∃ s u, s ∈ servers ∧ url_Parse (mcptool_URL s) = Some u ∧ url_Hostname u ≠ "" ∧ LookupHost env (url_Hostname u) = r.

Lemma hosts_lookup servers r :
  (∃ name host, (name, host) ∈ mcp_hosts servers ∧ LookupHost env host = r) ↔ server_lookup servers r.
Proof.
  split.
  - intros (n & h & Hn & Hl). destruct (proj1 (mcp_hosts_spec servers h) (ex_intro _ n Hn)) as (? & s & u & ? & ? & <-).
    by exists s, u.
  - intros (s & u & Hs & Hu & Hh & Hl).
    destruct (proj2 (mcp_hosts_spec servers (url_Hostname u))) as [n Hn]; [split; [done|]; by exists s, u|].
    by exists n, (url_Hostname u).
Qed.

Definition operator_namespace : string := if decide (OperatorNamespace env = "") then "kubeswarm-system" else OperatorNamespace env.

(** What every policy admits: name servers, and the queue in the operator's namespace. *)
Definition base_traffic (proto : Protocol) (port : Z) (d : destination) : Prop :=
  port = 53 ∨ (proto, port) = (TCP, 6379) ∧ d = ToNamespace operator_namespace.

Lemma admits_base pol egress proto port d :
  admits (mkNetworkPolicy pol ([dnsEgress; redisEgress env] ++ egress)) proto port d ↔
    base_traffic proto port d ∨ ∃ r, r ∈ egress ∧ rule_admits r proto port d.
Proof.
  unfold admits, base_traffic. cbn [np_Egress]. setoid_rewrite elem_of_app. split.
  - intros (r & [Hr|Hr] & Ha); [|by right; exists r]. left.
    apply elem_of_cons in Hr as [->|Hr]; [|apply list_elem_of_singleton in Hr as ->]; destruct Ha as [[?|Hp] [?|(p & Hq & Ha)]];
      try done; simpl in *.
    + left. set_solver.
    + by apply elem_of_nil in Hq.
    + right. apply list_elem_of_singleton in Hp, Hq. subst p. split; [done|].
      destruct d as [x|ip]; [|done]. simpl in Ha. by subst x.
  - intros [[->|[[= -> ->] ->]]|(r & Hr & Ha)]; [| |by exists r; auto].
    + exists dnsEgress. split; [set_solver|]. split; [right; destruct proto; set_solver|by left].
    + exists (redisEgress env). split; [set_solver|]. split; [right; set_solver|]. right.
      exists (NamespacePeer operator_namespace). split; [set_solver|done].
Qed.

Definition https_rules (peers : list NetworkPolicyPeer) : list EgressRule :=
  match peers with [] => [] | _ => [mkEgressRule [(TCP, 443)] peers] end.

Lemma https_admits peers proto port d :
  (∃ r, r ∈ https_rules peers ∧ rule_admits r proto port d) ↔
    (proto, port) = (TCP, 443) ∧ ∃ p, p ∈ peers ∧ peer_admits p d.
Proof.
  destruct peers as [|p peers]; simpl.
  - split; [by intros (r & Hr%elem_of_nil & _)|]. by intros (_ & p & Hp%elem_of_nil & _).
  - split.
    + intros (r & ->%list_elem_of_singleton & [[?|Hp] [?|Hq]]); try done. simpl in *. split; [set_solver|done].
    + intros [[= -> ->] Hq]. eexists. split; [by apply list_elem_of_singleton|]. split; right; [set_solver|done].
Qed.

Lemma https_addresses servers peers :
  collect_peers env ∅ (mcp_hosts servers) = Ok peers → ∀ d,
  (∃ p, p ∈ peers ∧ peer_admits p d) ↔
    ∃ ip addrs text, d = ToAddress ip ∧ server_lookup servers (Ok addrs) ∧ text ∈ addrs ∧ reached text ip.
Proof.
  intros E d. pose proof (collect_peers_spec (mcp_hosts servers) ∅) as P. rewrite E in P. destruct P as [P1 P2]. split.
  - intros (p & Hp & Ha). destruct (P1 _ Hp) as (text & (n & h & addrs & Hn & Hl & Hip) & ->).
    destruct d as [x|ip]; [done|]. apply block_admits in Ha.
    exists ip, addrs, text. split; [done|]. split; [|done]. apply hosts_lookup. by exists n, h.
  - intros (ip & addrs & text & -> & (n & h & Hn & Hl)%hosts_lookup & Hip & Hr).
    destruct (P2 text) as [?|Hp]; [by exists n, h, addrs|set_solver|].
    exists (IPBlockPeer (text +:+ "/32")). split; [done|]. by apply block_admits.
Qed.

(** C11: the network policy of an agent selects the pods of the agent.  By default it admits all
    traffic out; a strict one admits exactly name lookups, the queue in the operator's namespace,
    and HTTPS to what the host names of the agent's MCP servers resolve to - for an IPv4 address
    that address, for an IPv6 address every address with its first 32 bits - and exists exactly when
    all of the names resolve; a disabled one does not exist. *)
Theorem network_policy_exact a servers :
  match network_mode a, planned_network env a servers with
  | NetworkPolicyModeDisabled, np => np = Some None
  | _, Some None => False
  | NetworkPolicyModeStrict, None => ∃ e, server_lookup servers (Err e)
  | _, None => False
  | mode, Some (Some np) =>
      np_PodSelector np = ("kubeswarm/deployment", agent_Name a) ∧
      ∀ proto port d, admits np proto port d ↔
        match mode with
        | NetworkPolicyModeStrict =>
            base_traffic proto port d ∨
            (proto, port) = (TCP, 443) ∧
              ∃ ip addrs text, d = ToAddress ip ∧ server_lookup servers (Ok addrs) ∧ text ∈ addrs ∧ reached text ip
        | _ => True
        end
  end.
Proof.
  unfold planned_network, buildNetworkPolicy.
  assert (All : ∀ pol, let np := mkNetworkPolicy pol ([dnsEgress; redisEgress env] ++ [mkEgressRule [] []]) in
    ∀ proto port d, admits np proto port d ↔ True).
  { intros pol np proto port d. unfold np. rewrite admits_base. split; [done|]. intros _. right.
    exists (mkEgressRule [] []). split; [set_solver|]. split; by left. }
  destruct (network_mode a) eqn:M; simpl; try (split; [done|apply All]); [|done].
  unfold resolveMCPIPs. destruct (collect_peers env ∅ (mcp_hosts servers)) as [peers|e] eqn:E.
  - assert (B : ∀ X, match peers with [] => Ok [] | _ :: _ => Ok [mkEgressRule [(TCP, 443)] peers] end =
      Ok (E := X) (https_rules peers)) by (by destruct peers).
    rewrite B. simpl. split; [done|]. intros proto port d.
    rewrite (admits_base _ (https_rules peers)), https_admits. by rewrite (https_addresses _ _ E).
  - pose proof (collect_peers_spec (mcp_hosts servers) ∅) as P. rewrite E in P. destruct P as (n & h & e' & Hn & Hl).
    exists e'. apply hosts_lookup. by exists n, h.
Qed.
End network.
