(* ===== verification/AgentPods.v ===== *)
(** * AgentPods: from an agent to the configuration of its pods.

    A pod of a deployment takes its environment from the container and its files from the volumes.
    After a reconciliation that succeeds, the runtime in such a pod loads the configuration that
    the agent, its settings, its servers and the policies describe, as long as the variables of the
    operator come from it alone. *)
From Stdlib Require Import ZArith Lia Ascii.
From stdpp Require Import base tactics option list numbers strings gmap.
From S2P Require Import Prelude GoStd Guards Config Types AgentTypes Kube Api Template Policy Dispatch Runtime Webhooks Team Wire ConfigWire AgentEnv AgentEnvProps EnvWire PodConfig PodLoads AgentController AgentPlan AgentControllerProps.

Section pods.
Context `{JT : JsonText} {JL : JsonTextLaws JT} `{FA : FoldApi} {FL : FoldLaws FA} `{U : UrlApi} `{NU : NetUrl}
        `{LA : LowerApi} `{C : ConditionApi} {CL : ConditionLaws C} `{HA : HashApi}
        `{SS : SliceSort GatewayCapabilityEntry} `{PE : PodEnv}.
Variables (env : agent_env) (from : string → string).
Hypothesis HP : PodEnvLaws PE from.

(** The environment of a pod of the deployment, and its files: those of the config maps mounted. *)
Definition pod_env (d : Deployment) : string → string :=
  pod_getenv (match Containers d with c :: _ => Env c | [] => [] end).

Definition volume_file (n : namespace) (v : Volume) (key : string) : option string :=
  match volume_Source v with
  | VolumeConfigMap cm => data ← configMaps n !! cm; data !! key
  | _ => None
  end.

Definition mounted (n : namespace) (d : Deployment) (path : string) : option string :=
  c ← head (Containers d);
  m ← List.find (λ m, HasPrefix path (MountPath m +:+ "/")) (VolumeMounts c);
  v ← List.find (λ v, String.eqb (volume_Name v) (mount_Name m)) (Volumes d);
  key ← CutPrefix path (MountPath m +:+ "/");
  volume_file n v key.

(** The prompt is where the pod looks for it. *)
Lemma mounted_prompt n d c rest a servers data text :
  Containers d = c :: rest → VolumeMounts c = buildVolumeMounts a servers → Volumes d = buildVolumes a servers →
  configMaps n !! (agent_Name a +:+ "-prompt") = Some data → data !! promptConfigMapKey = Some text →
  mounted n d promptFilePath = Some text.
Proof.
  intros Hc Hm Hv Hd Ht. unfold mounted. rewrite Hc. simpl. rewrite Hm, Hv. unfold buildVolumeMounts, buildVolumes.
  simpl. unfold volume_file. simpl. rewrite Hd. simpl. exact Ht.
Qed.

Lemma prompt_written a text n : text ≠ "" → ∃ data,
  configMaps (put_prompt a text n) !! (agent_Name a +:+ "-prompt") = Some data ∧ data !! promptConfigMapKey = Some text.
Proof.
  intros Hne. destruct (written_prompt a text n) as (data & Hd & Ht). exists data. split; [done|].
  destruct (data !! promptConfigMapKey); simpl in Ht; by subst.
Qed.

(** What a reconciliation leaves behind for the pods. *)
Lemma plan_pods a n m i :
  plan env a n = Some m → planned_ingredients env a (ensure_registry a n) = Some i →
  let text := assembleSystemPrompt (ing_prompt i) (ing_settings i) (ing_servers i) in
  let desired := planned_deployment env a (ensure_registry a n) i in
  ∃ d c rest data, deployments m !! deployment_name a = Some d ∧ Containers d = c :: rest ∧
    Env c = buildEnvVars a (dep_inputs (planned_input env a (ensure_registry a n) i)) ∧
    VolumeMounts c = buildVolumeMounts a (ing_servers i) ∧ Volumes d = buildVolumes a (ing_servers i) ∧
    dep_Replicas d = dep_Replicas desired ∧
    configMaps m !! (agent_Name a +:+ "-prompt") = Some data ∧ data !! promptConfigMapKey = Some text.
Proof.
  intros Hm Hi text desired. unfold plan in Hm. rewrite Hi in Hm. simpl in Hm.
  destruct (planned_network env a (ing_servers i)) as [np|]; [|done]. simpl in Hm. injection Hm as <-.
  set (n2 := put_prompt a _ _). set (n4 := put_network _ _ _).
  destruct (prompt_written a text (ensure_registry a n)) as (data & Hd & Ht).
  { intros E. by apply (assembled_not_blank (ing_prompt i) (ing_settings i) (ing_servers i)); unfold text in E; rewrite E. }
  assert (D : deployments (put_scaler env a n4) = deployments n4 ∧ configMaps (put_scaler env a n4) = configMaps n2).
  { split; [change (deployments (objects (put_scaler env a n4)) = deployments n4)
           |change (configMaps (objects (put_scaler env a n4)) = configMaps n2)]; by rewrite scaler_rest. }
  destruct D as [D1 D2]. rewrite D1, D2. unfold n4, put_network, put_deployment. simpl. rewrite lookup_insert_eq.
  destruct (deployments n2 !! deployment_name a) as [x|]; [destruct (Containers x) as [|c0 rest] eqn:X|].
  - eexists _, _, [], data. split; [reflexivity|]. unfold copy_deployment. simpl. by rewrite X.
  - eexists _, _, rest, data. split; [reflexivity|]. unfold copy_deployment. simpl. by rewrite X.
  - eexists _, _, [], data. by split.
Qed.

#[local] Existing Instance wire_config.

(** C3: a reconciliation that succeeds leaves a deployment whose pods start exactly when the agent
    has a model and a queue and its limits under the policies are within the ranges of the runtime, and
    then load, from the environment and the files that the deployment gives them, the
    configuration of the agent: its assembled prompt, limits, servers, tools, advisors, gateway,
    guards and reasoning.  This holds as long as the variables the operator writes come from it alone -
    no forwarded variable, no API key variable and no [envFrom] source has one of their names, which the
    code does not see to -, no value has a dollar sign, which the kubelet expands, the values that
    go through JSON are text and the routes of a team's annotation can be read. *)
Theorem reconciled_pod_configured a n i routes :
  planned_ingredients env a (ensure_registry a n) = Some i →
  let inp := dep_inputs (planned_input env a (ensure_registry a n) i) in
  deployable a inp from routes →
  let '(r, n') := Reconcile (λ _, Works) env (Found (a, false)) n in
  is_Ok r = true →
  ∃ d, deployments n' !! deployment_name a = Some d ∧
    if bool_decide (complete_spec a inp)
    then ∃ cfg, Load (pod_env d) (mounted n' d) = Ok cfg ∧ configured_as a inp (ing_prompt i) routes cfg
    else ∃ e, Load (pod_env d) (mounted n' d) = Err e.
Proof.
  intros Hi inp Hd. destruct (Reconcile _ env _ n) as [[z|e] n'] eqn:R; [intros _|done].
  destruct (reconcile_makes _ _ _ _ _ R) as (m & Hm & Ho).
  destruct (plan_pods _ _ _ _ Hm Hi) as (d & c & rest & data & D & HC & HE & HM & HV & _ & HD & HT).
  exists d. split; [change (deployments (objects n') !! deployment_name a = Some d); by rewrite Ho|].
  unfold pod_env. rewrite HC, HE. apply (pod_loads a inp from (mounted n' d) HP (ing_prompt i) routes Hd).
  eapply mounted_prompt; [exact HC|exact HM|exact HV| |exact HT].
  change (configMaps (objects n') !! (agent_Name a +:+ "-prompt") = Some data). by rewrite Ho.
Qed.
End pods.
