(* ===== verification/AgentSample.v ===== *)
(** * AgentSample: an agent controller at work, on which its theorems are evaluated.

    The agent of PodLoads in its namespace, with two agents for its gateway to route to, a policy,
    a budget, and the runs of the day. *)
From Stdlib Require Import ZArith Lia Ascii.
From stdpp Require Import base tactics option list numbers strings pretty gmap.
From S2P Require Import Prelude GoStd Guards Config Types AgentTypes Kube Api Template Policy Dispatch Runtime Webhooks Dag Team Wire ConfigWire AgentEnv AgentEnvProps EnvWire PodConfig PodLoads AgentController AgentPlan AgentControllerProps AgentStops AgentNetwork AgentPods.

#[local] Existing Instances toy_json_text toy_json_text_laws toy_fold_case toy_fold_case_laws toy_url wire_config toy_pod
  list_conditions list_conditions_laws lower_ascii merge_entries.
#[local] Instance plain_url : NetUrl := λ s, Some (mkParsedURL "http" s s (λ _, "") (λ _, s)).
#[local] Instance plain_hash : HashApi := λ s, s.

Definition member (name : string) (ready : Z) : SwarmAgent :=
  mkSwarmAgent name "prod" 1 ∅ ∅
    (mkSwarmAgentSpec "m" [mkAgentCapability name "" ["t"] false] None None
       (Some (mkAgentInfrastructure (Some "default") [] None NetworkPolicyModeUnset None)) None []
       (mkAgentRuntime None None None None None [] None) None [] None None)
    (ready_status ready).

(** A run of the agent that used so many tokens an hour ago. *)
Definition day_run (tokens : Z) : RunResource :=
  mkRunResource
    (sample_run [(new_step "draft" StepSucceeded) <| step_ResolvedAgent := "writer" |>
                   <| step_TokenUsage := Some (mkTokenUsage tokens 0 0 tokens "m") |>
                   <| step_CompletionTime := Some (99 * 3600 * second) |>]) ∅ ∅ 0 [].

Definition monthly (phase : BudgetStatus) : SwarmBudget :=
  mkSwarmBudget "monthly" "prod" 1 (mkSwarmBudgetSpec (mkSwarmBudgetSelector "" "") "monthly" "100" "USD" 80 true None)
    (mkSwarmBudgetStatus phase "120" "120" None None 1 []).

Definition sample_env (tokens : Z) (phase : BudgetStatus) : agent_env :=
  mkAgentEnv (100 * 3600 * second) pod_environ "agent:1" "" [] "" ∅ ∅ ∅ {["monthly" := monthly phase]}
    [mkSwarmPolicy "p" 1 (mkSwarmPolicySpec PolicyEnforcementAudit None None None None (mkPolicyRequirements false false false))
       (mkSwarmPolicyStatus 0 0 (Some pod_policy) 0 [])]
    [day_run tokens] [member "critic" 1; member "idle" 0] (λ _, Ok ["10.0.0.7"]) (λ _, None).

Definition empty_namespace : namespace := mkNamespace ∅ ∅ ∅ ∅ [] [] None false false.

Notation sample_pass faults tokens phase limit n := (Reconcile faults (sample_env tokens phase) (Found (pod_agent limit, false)) n).

Definition failing_call (k : nat) : nat → fault := λ i, if decide (i = k) then Broken "timeout" else Works.

(** The replicas of the deployment. *)
Definition replicas_of (n : namespace) (a : SwarmAgent) : option Z := dep_Replicas <$> deployments n !! deployment_name a.

Lemma daily_limit_stops_witness :
  let '(r, n') := sample_pass (failing_call 3) 6000 BudgetOK 1000 empty_namespace in
  replicas_of n' (pod_agent 1000) = Some 0 ∧
  stopped empty_namespace n' ∧ (is_Ok r = true → idle n' (deployment_name (pod_agent 1000))).
Proof.
  pose proof (daily_limit_stops (failing_call 3) (sample_env 6000 BudgetOK) (pod_agent 1000) empty_namespace
    ltac:(vm_compute; reflexivity)) as H.
  assert (E : replicas_of (sample_pass (failing_call 3) 6000 BudgetOK 1000 empty_namespace).2 (pod_agent 1000) = Some 0)
    by (vm_compute; reflexivity).
  destruct (sample_pass (failing_call 3) 6000 BudgetOK 1000 empty_namespace) as [r n']. exact (conj E H).
Defined.

Lemma Reconcile_plan_witness :
  let '(r, n') := sample_pass (λ _, Works) 100 BudgetOK 1000 empty_namespace in
  is_Ok r = true ∧ ∃ m, plan (sample_env 100 BudgetOK) (pod_agent 1000) empty_namespace = Some m ∧ objects n' = objects m.
Proof.
  pose proof (Reconcile_plan (sample_env 100 BudgetOK) (pod_agent 1000) empty_namespace) as H.
  assert (E : ∃ m, plan (sample_env 100 BudgetOK) (pod_agent 1000) empty_namespace = Some m)
    by (eexists; vm_compute; reflexivity).
  destruct E as [m E]. rewrite E in H |- *.
  destruct (sample_pass (λ _, Works) 100 BudgetOK 1000 empty_namespace) as [r n']. destruct H as [H1 H2].
  split; [exact H1|]. exists m. split; [reflexivity|exact H2].
Defined.

Lemma agent_settles_witness :
  let first := sample_pass (λ _, Works) 100 BudgetOK 1000 empty_namespace in
  let second := Reconcile (λ _, Works) (sample_env 100 BudgetOK)
                  (Found ((pod_agent 1000) <| agent_Status := ready_status 7 |>, false)) first.2 in
  is_Ok first.1 = true ∧ is_Ok second.1 = true ∧ objects second.2 = objects first.2.
Proof.
  split; [vm_compute; reflexivity|].
  apply (agent_settles (sample_env 100 BudgetOK) (pod_agent 1000) empty_namespace (ready_status 7));
    [discriminate|discriminate|vm_compute; reflexivity].
Defined.

Lemma reconciled_pod_configured_witness :
  ∃ d, deployments (sample_pass (λ _, Works) 100 BudgetOK 1000 empty_namespace).2 !! "writer-agent" = Some d ∧
    ∃ cfg, Load (pod_env d) (mounted (sample_pass (λ _, Works) 100 BudgetOK 1000 empty_namespace).2 d) = Ok cfg ∧
      configured_as (pod_agent 1000) (pod_inputs pod_environ) "Write." ∅ cfg.
Proof.
  assert (I : ∃ i, planned_ingredients (sample_env 100 BudgetOK) (pod_agent 1000)
      (ensure_registry (pod_agent 1000) empty_namespace) = Some i ∧ ing_prompt i = "Write." ∧
      dep_inputs (planned_input (sample_env 100 BudgetOK) (pod_agent 1000)
        (ensure_registry (pod_agent 1000) empty_namespace) i) = pod_inputs pod_environ).
  { eexists. repeat split; vm_compute; reflexivity. }
  destruct I as (i & Hi & Ht & Ei).
  pose proof (reconciled_pod_configured (sample_env 100 BudgetOK) (λ _, "") toy_pod_laws (pod_agent 1000)
    empty_namespace i ∅ Hi) as H. cbv zeta in H. rewrite Ei, Ht in H.
  specialize (H ltac:(apply pod_deployable; plain_sample)).
  rewrite bool_decide_eq_true_2 in H by (vm_compute; intuition discriminate).
  assert (E : is_Ok (sample_pass (λ _, Works) 100 BudgetOK 1000 empty_namespace).1 = true) by (vm_compute; reflexivity).
  destruct (sample_pass (λ _, Works) 100 BudgetOK 1000 empty_namespace) as [r n']. exact (H E).
Defined.

(** The budget an agent refers to is not enforced when it cannot be read: here, the reconciliation of
    an agent stopped by a hard budget that is still exceeded starts it again when that one call fails,
    and reports no error. *)
Theorem budget_ref_fails_open :
  let stop := sample_pass (λ _, Works) 100 BudgetExceeded 1000 empty_namespace in
  let again := sample_pass (failing_call 1) 100 BudgetExceeded 1000 stop.2 in
  replicas_of stop.2 (pod_agent 1000) = Some 0 ∧ is_Ok again.1 = true ∧ replicas_of again.2 (pod_agent 1000) = Some 1.
Proof. vm_compute. repeat split; reflexivity. Qed.

(** An agent whose prompt is in the ConfigMap that the controller takes for its own. *)
Definition own_agent : SwarmAgent :=
  (pod_agent 1000) <| agent_Spec ::= λ sp, mkSwarmAgentSpec (agent_Model sp) (Capabilities sp) (Guardrails sp)
    (Observability sp) (Infrastructure sp)
    (Some (mkAgentPrompt "" (Some (mkSystemPromptSource (Some (mkKeySelector "writer-prompt" "text")) None))))
    (aspec_Settings sp) (aspec_Runtime sp) (aspec_Tools sp) (aspec_Agents sp) (aspec_Gateway sp) (aspec_Reasoning sp) |>.

(** The prompt of a user is overwritten, and the next reconciliation does not find it. *)
Lemma prompt_source_overwritten :
  let n := empty_namespace <| configMaps := {["writer-prompt" := {["text" := "Write."]}]} |> in
  let first := Reconcile (λ _, Works) (sample_env 100 BudgetOK) (Found (own_agent, false)) n in
  let second := Reconcile (λ _, Works) (sample_env 100 BudgetOK) (Found (own_agent, false)) first.2 in
  is_Ok first.1 = true ∧ (configMaps first.2 !! "writer-prompt" ≫= lookup "text") = None ∧ is_Ok second.1 = false.
Proof. vm_compute. repeat split; reflexivity. Qed.

(** The scaler watches another stream and another group than those of the runtime's queue: by
    default its stream is [agent-tasks]. *)
Lemma scaler_defaults :
  resolveStreamName (sample_env 100 BudgetOK) (pod_agent 1000) = "agent-tasks" ∧
  scaler_Group (buildScaledObject (pod_agent 1000) "redis:6379" "agent-tasks") = "swarm-agents".
Proof. by split. Qed.
