(* ===== verification/RedisQueue.v ===== *)
(** * RedisQueue: the task queue and the stream channel on Redis
    (runtime/pkg/queue/redis/queue.go).

    The Redis server is an interface: its commands, and what its documentation says of them in
    terms of a view of the server (the entries of a stream, those the group has not been given,
    those pending, and the hashes).  A command that reports an error may or may not have been
    carried out.  A backend is modelled whole, an operation being the sequence of its commands. *)
From Stdlib Require Import ZArith Lia Ascii.
From stdpp Require Import base tactics option list numbers strings pretty gmap relations.
From S2P Require Import Prelude GoStd Types Queue Trigger Api Runtime Wire Runner AgentController.

(** ** Redis, through go-redis *)
Notation values := (gmap string string) (only parsing).
Record message := mkMessage { message_ID : string; message_Values : values }.

Class RedisApi (W : Type) := {
  XAdd : string → values → stateful W (result string string);
  (** [Count: 1], of the entries never delivered; [redis.Nil] and no message are one answer. *)
  XReadGroup : string → string → string → stateful W (result string (option message));
  XGroupCreateMkStream : string → string → string → stateful W ();
  (** [Count: 1]; an error counts as nothing to claim. *)
  XAutoClaim : string → string → string → Z → stateful W (option message);
  XAck : string → string → string → stateful W (result string ());
  XDel : string → string → stateful W (result string ());
  HSet : string → string → string → stateful W (result string ());
  (** An error and a missing field are one answer. *)
  HGet : string → string → stateful W (option string);
  HMGet : string → list string → stateful W (result string (list (option string)));
  LLen : string → stateful W (result string Z);
  RPush : string → string → stateful W (result string ());
  Expire : string → Z → stateful W (result string ());
  BLPop : string → Z → stateful W (result string (option string)) }.

(** ** The backend *)
Record backend := mkBackend {
  consumer : string;
  backend_maxRetries : Z;
  taskStream : string;
  resultsHash : string;
  deadStream : string }.

Definition redis_taskStream := "agent-tasks".
Definition workerGroup := "agent-workers".

Record resultEntry := mkResultEntry {
  entry_Result : string;
  entry_Error : string;
  entry_InputTokens : Z;
  entry_OutputTokens : Z;
  entry_ThinkingTokens : Z;
  entry_Artifacts : gmap string string }.

Section backend.
Context {W : Type} `{RedisApi W} `{JsonText} `{FoldApi} `{NetUrl}.
Open Scope api_scope.

Definition extractStreamParam (rawURL : string) : string * string :=
  match url_Parse rawURL with
  | None => (rawURL, redis_taskStream)
  | Some u =>
      let name := url_Query u "stream" in
      if decide (name = "") then (rawURL, redis_taskStream) else (url_Without u "stream", name)
  end.

(** Without the connection; [podName] is the name of the pod or a constant. *)
Definition newBackend (podName addr : string) (maxRetries : Z) : stateful W backend :=
  let '(_, streamName) := extractStreamParam addr in
  let b := mkBackend (if decide (podName = "") then "agent-local" else podName) maxRetries streamName
             (streamName +:+ "-results") (streamName +:+ "-dead") in
  _ <-- XGroupCreateMkStream (taskStream b) workerGroup "$";
  answer_with b.

(** *** Results as JSON *)
Definition strings_object (m : gmap string string) : json :=
  JObject ((λ k, (k, JString (default "" (m !! k)))) <$> sort_strings (keys_of m)).

Definition omit_map (m : gmap string string) : option json :=
  if decide (m = ∅) then None else Some (strings_object m).
Definition as_optional_map (o : option json) : option (gmap string string) :=
  match o with None => Some ∅ | Some j => as_string_map j end.

Definition entry_json (e : resultEntry) : json := struct_json [
  ("result", Some (JString (entry_Result e)));
  ("error", omit_string (entry_Error e));
  ("input_tokens", Some (JInt (entry_InputTokens e)));
  ("output_tokens", Some (JInt (entry_OutputTokens e)));
  ("thinking_tokens", omit_int (entry_ThinkingTokens e));
  ("artifacts", omit_map (entry_Artifacts e))].

Definition entry_tags := ["result"; "error"; "input_tokens"; "output_tokens"; "thinking_tokens"; "artifacts"].
Definition read_entry (get : string → option json) : option resultEntry :=
  result ← as_string (get "result");
  error ← as_string (get "error");
  input ← as_int 64 (get "input_tokens");
  output ← as_int 64 (get "output_tokens");
  thinking ← as_int 64 (get "thinking_tokens");
  artifacts ← as_optional_map (get "artifacts");
  Some (mkResultEntry result error input output thinking artifacts).

Definition marshal_entry (e : resultEntry) : string := json_text (entry_json e).
Definition unmarshal_entry (raw : string) : option resultEntry := j ← json_parse raw; as_struct entry_tags read_entry j.

Definition error_entry (reason : string) : resultEntry := mkResultEntry "" reason 0 0 0 ∅.

(** ** TaskQueue *)
Section queue.
Variable b : backend.

(** The values of the task: those of the caller before those of the trace context, which come
    before the prompt. *)
Definition task_values (enqueued_at prompt : string) (carrier meta : values) : values :=
  meta ∪ carrier ∪ {["prompt" := prompt; "enqueued_at" := enqueued_at]}.

Definition Submit (enqueued_at prompt : string) (carrier meta : values) : stateful W (result string string) :=
  id <-- XAdd (taskStream b) (task_values enqueued_at prompt carrier meta);
  answer_with (match id with Ok id => Ok id | Err e => Err ("XADD " +:+ taskStream b +:+ ": " +:+ e) end).

Definition claimIdleAfter : Z := 120 * second.

Definition msgToTask (msg : message) : Task :=
  mkTask (message_ID msg) (default "" (message_Values msg !! "prompt")) (delete "prompt" (message_Values msg)).

Definition claimStale : stateful W (option Task) :=
  res <-- XAutoClaim (taskStream b) workerGroup (consumer b) claimIdleAfter;
  answer_with (msgToTask <$> res).

Definition Poll : stateful W (result string (option Task)) :=
  stale <-- claimStale;
  match stale with
  | Some task => answer_with (Ok (Some task))
  | None =>
      results <-- XReadGroup (taskStream b) workerGroup (consumer b);
      match results with
      | Ok msg => answer_with (Ok (msgToTask <$> msg))
      | Err e =>
          if str_contains e "NOGROUP"
          then _ <-- XGroupCreateMkStream (taskStream b) workerGroup "0"; answer_with (Ok None)
          else answer_with (Err e)
      end
  end.

(** The id under which the result is stored: that of the first attempt. *)
Definition storeID (task : Task) : string :=
  let origID := default "" (task_Meta task !! "original_task_id") in
  if decide (origID = "") then task_ID task else origID.

Definition Ack (task : Task) (res : string) (usage : TokenUsage) (artifacts : gmap string string)
    : stateful W (result string ()) :=
  a <-- XAck (taskStream b) workerGroup (task_ID task);
  match a with
  | Err e => answer_with (Err ("XAck task " +:+ task_ID task +:+ ": " +:+ e))
  | Ok _ =>
      let entry := mkResultEntry res "" (InputTokens usage) (OutputTokens usage) (ThinkingTokens usage) artifacts in
      h <-- HSet (resultsHash b) (storeID task) (marshal_entry entry);
      answer_with (match h with
        | Ok _ => Ok tt
        | Err e => Err ("HSet result for task " +:+ storeID task +:+ ": " +:+ e)
        end)
  end.

Definition attempt_of (task : Task) : Z := default 0 (Atoi (default "" (task_Meta task !! "attempt"))).

Definition isNonRetriable (reason : string) : bool := HasPrefix reason "stale task" || IsPermanentFailure reason.

(** The values of the next attempt. *)
Definition retry_values (task : Task) : values :=
  delete "original_task_id" (delete "attempt" (task_Meta task)) ∪
  {["prompt" := task_Prompt task; "attempt" := itoa (wrap64 (attempt_of task + 1)); "original_task_id" := storeID task]}.

Definition dead_letter (task : Task) (reason : string) : stateful W (result string ()) :=
  d <-- XAdd (deadStream b) {["task_id" := task_ID task; "prompt" := task_Prompt task; "error" := reason;
                              "attempt" := itoa (attempt_of task)]};
  match d with
  | Err e => answer_with (Err ("XAdd dead-letter for task " +:+ task_ID task +:+ ": " +:+ e))
  | Ok _ =>
      h <-- HSet (resultsHash b) (storeID task) (marshal_entry (error_entry reason));
      answer_with (match h with
        | Ok _ => Ok tt
        | Err e => Err ("HSet error result for task " +:+ storeID task +:+ ": " +:+ e)
        end)
  end.

Definition was_cancelled (raw : option string) : bool :=
  match raw ≫= unmarshal_entry with
  | Some entry => bool_decide (entry_Error entry = "run cancelled")
  | None => false
  end.

Definition retry (task : Task) : stateful W (result string ()) :=
  raw <-- HGet (resultsHash b) (storeID task);
  if was_cancelled raw then answer_with (Ok tt)
  else
    r <-- XAdd (taskStream b) (retry_values task);
    answer_with (match r with Ok _ => Ok tt | Err e => Err ("XAdd retry for task " +:+ task_ID task +:+ ": " +:+ e) end).

Definition Nack (task : Task) (reason : string) : stateful W (result string ()) :=
  a <-- XAck (taskStream b) workerGroup (task_ID task);
  match a with
  | Err e => answer_with (Err ("XAck (nack) task " +:+ task_ID task +:+ ": " +:+ e))
  | Ok _ =>
      if (attempt_of task <? backend_maxRetries b) && negb (isNonRetriable reason)
      then retry task else dead_letter task reason
  end.

(** The results that are there and can be read. *)
Definition entry_result (taskID : string) (raw : option string) : option TaskResult :=
  s ← raw; e ← unmarshal_entry s;
  Some (mkTaskResult taskID (entry_Result e) (entry_Error e)
    (mkTokenUsage (entry_InputTokens e) (entry_OutputTokens e) (entry_ThinkingTokens e) 0 "") (entry_Artifacts e)).

Definition Results (taskIDs : list string) : stateful W (result string (list TaskResult)) :=
  match taskIDs with
  | [] => answer_with (Ok [])
  | _ =>
      vals <-- HMGet (resultsHash b) taskIDs;
      answer_with (match vals with
        | Err e => Err ("HMGet results: " +:+ e)
        | Ok vals => Ok (omap (λ p, entry_result p.1 p.2) (zip taskIDs vals))
        end)
  end.

(** The error reported is that of the last delete that failed, or the first of another command
    after it. *)
Fixpoint cancel_each (taskIDs : list string) (firstErr : option string) : stateful W (option string) :=
  match taskIDs with
  | [] => answer_with firstErr
  | id :: rest =>
      d <-- XDel (taskStream b) id;
      let err := match d with Err e => Some ("XDel task " +:+ id +:+ ": " +:+ e) | Ok _ => firstErr end in
      a <-- XAck (taskStream b) workerGroup id;
      let err := match a, err with Err e, None => Some ("XAck task " +:+ id +:+ ": " +:+ e) | _, _ => err end in
      h <-- HSet (resultsHash b) id (marshal_entry (error_entry "run cancelled"));
      let err := match h, err with
                 | Err e, None => Some ("HSet cancel result for task " +:+ id +:+ ": " +:+ e)
                 | _, _ => err
                 end in
      cancel_each rest err
  end.

Definition Cancel (taskIDs : list string) : stateful W (option string) := cancel_each taskIDs None.
End queue.

(** ** StreamChannel *)
Definition maxPublishDepth : Z := 10000.

Definition Publish (key chunk : string) : stateful W (result string ()) :=
  depth <-- LLen key;
  match depth with
  | Err e => answer_with (Err ("LLen stream " +:+ key +:+ ": " +:+ e))
  | Ok depth =>
      if maxPublishDepth <=? depth
      then answer_with (Err ("stream " +:+ key +:+ " is full (" +:+ itoa depth +:+ "/" +:+ itoa maxPublishDepth +:+
                             "); dropping chunk"))
      else
        r <-- RPush key chunk;
        answer_with (match r with Ok _ => Ok tt | Err e => Err ("RPush stream " +:+ key +:+ ": " +:+ e) end)
  end.

Definition Done (key : string) : stateful W (result string ()) :=
  r <-- RPush key StreamDone;
  match r with
  | Err e => answer_with (Err ("RPush EOF stream " +:+ key +:+ ": " +:+ e))
  | Ok _ =>
      x <-- Expire key (300 * second);
      answer_with (match x with Ok _ => Ok tt | Err e => Err ("expire stream " +:+ key +:+ ": " +:+ e) end)
  end.

Definition Read (key : string) : stateful W (result string string) :=
  v <-- BLPop key (1 * second);
  answer_with (match v with Ok v => Ok (default "" v) | Err e => Err e end).
End backend.
