(* ===== verification/RedisProps.v ===== *)
(** * RedisProps: no task of the queue is lost.

    A ledger notes, by who did what and without reading an entry, the task each entry of the queue
    belongs to and the retries before it.  Whatever workers and submitters do, the task whose id a
    submitter was given is in the queue, is held by a worker or has a result under that id, as long
    as the operations that settle tasks succeed; an entry may be handed out or settled more
    than once.  What a worker acknowledges is read under the id of the submission, also when calls
    failed before.  An [Ack] whose second command fails, or whose worker stops between the two,
    loses the task. *)
From Stdlib Require Import ZArith Lia Ascii.
From stdpp Require Import base tactics option list numbers strings pretty gmap relations infinite.
From S2P Require Import Prelude GoStd Types Queue Trigger Api Runtime Wire Runner AgentController RedisQueue.

(** ** Results survive the hash *)
Section entries.
Context `{JT : JsonText} {JL : JsonTextLaws JT} `{FA : FoldApi}.

Lemma as_string_map_object (keys : list string) (f : string → string) acc : NoDup keys →
  foldl (λ (acc : option (gmap string string)) (kv : string * json),
           acc ← acc; v ← as_string (Some kv.2); Some (<[kv.1 := v]> acc)) (Some acc)
    ((λ k, (k, JString (f k))) <$> keys) = Some ((list_to_map ((λ k, (k, f k)) <$> keys) : gmap string string) ∪ acc).
Proof.
  intros Hd. revert acc. induction keys as [|k keys IH]; intros acc.
  { simpl. by rewrite (left_id_L ∅ (∪)). }
  apply NoDup_cons in Hd as [Hk Hd]. simpl. rewrite IH by done. f_equal.
  rewrite <- insert_union_r, insert_union_l; [done|]. apply not_elem_of_list_to_map. rewrite <- list_fmap_compose.
  by rewrite list_fmap_id.
Qed.

Lemma strings_object_read m : as_string_map (strings_object m) = Some m.
Proof.
  unfold strings_object, as_string_map. set (keys := sort_strings (keys_of m)).
  assert (Hk : ∀ k, k ∈ keys ↔ is_Some (m !! k)).
  { intros k. unfold keys. rewrite sort_strings_elem. apply (range_order_keys m). }
  assert (Hd : NoDup keys).
  { unfold keys. rewrite sort_strings_perm. apply NoDup_fst_map_to_list. }
  rewrite as_string_map_object by done. f_equal. rewrite (right_id_L ∅ (∪)). apply map_eq. intros k.
  destruct (m !! k) as [x|] eqn:E.
  - apply elem_of_list_to_map; [by rewrite <- list_fmap_compose, list_fmap_id|]. apply list_elem_of_fmap. exists k.
    rewrite E. split; [done|]. apply Hk. eauto.
  - apply not_elem_of_list_to_map. rewrite <- list_fmap_compose, list_fmap_id. rewrite Hk, E. by intros [].
Qed.

Lemma as_optional_map_omit m : as_optional_map (non_null (omit_map m)) = Some m.
Proof. unfold omit_map. case_decide as E; [by subst|apply (strings_object_read m)]. Qed.

#[local] Hint Rewrite as_optional_map_omit : wire.

(** What survives: numbers of 64 bits, and text. *)
Definition storable (e : resultEntry) : Prop :=
  in_width_b 64 (entry_InputTokens e) = true ∧ in_width_b 64 (entry_OutputTokens e) = true ∧
  in_width_b 64 (entry_ThinkingTokens e) = true ∧ writable (entry_json e) = true.

Lemma entry_roundtrip e : storable e → unmarshal_entry (marshal_entry e) = Some e.
Proof.
  intros (Hi & Ho & Ht & Hw). unfold unmarshal_entry, marshal_entry. rewrite json_roundtrip by done.
  cbn [mbind option_bind]. unfold entry_json, read_entry. read_back. by destruct e.
Qed.
End entries.

(** ** What one sees of a server *)

(** All entries ever added, those not delivered to the group yet, those delivered and not
    acknowledged, and those deleted. *)
Record stream := mkStream {
  added : gmap string values;
  undelivered : list string;
  pending : gset string;
  deleted : gset string }.
#[export] Instance eta_stream : Settable stream := λ s, mkStream (added s) (undelivered s) (pending s) (deleted s).
Definition empty_stream : stream := mkStream ∅ [] ∅ ∅.

Record redis := mkRedis { streams : gmap string stream; hashes : gmap string (gmap string string) }.
#[export] Instance eta_redis : Settable redis := λ r, mkRedis (streams r) (hashes r).

Definition stream_of (v : redis) (s : string) : stream := default empty_stream (streams v !! s).
Definition on_stream (s : string) (f : stream → stream) (v : redis) : redis :=
  v <| streams ::= <[s := f (stream_of v s)]> |>.
Definition hash_of (v : redis) (key : string) : gmap string string := default ∅ (hashes v !! key).
Definition set_hash (key field x : string) (v : redis) : redis :=
  v <| hashes ::= <[key := <[field := x]> (hash_of v key)]> |>.

(** *** The commands *)
Definition appends (s : string) (vals : values) (id : string) (v v' : redis) : Prop :=
  id ≠ "" ∧ added (stream_of v s) !! id = None ∧
  v' = on_stream s (λ st, st <| added ::= <[id := vals]> |> <| undelivered ::= λ l, l ++ [id] |>) v.

Definition delivers (s : string) (o : option message) (v v' : redis) : Prop :=
  match o with
  | None => v' = v
  | Some m => ∃ rest,
      undelivered (stream_of v s) = message_ID m :: rest ∧
      added (stream_of v s) !! message_ID m = Some (message_Values m) ∧
      message_ID m ∉ deleted (stream_of v s) ∧
      v' = on_stream s (λ st, st <| undelivered := rest |> <| pending ::= λ p, {[message_ID m]} ∪ p |>) v
  end.

(** Entries that were deleted may be dropped on the way. *)
Definition claims (s : string) (o : option message) (v v' : redis) : Prop :=
  (∃ p, pending (stream_of v s) ∖ deleted (stream_of v s) ⊆ p ∧ p ⊆ pending (stream_of v s) ∧
        v' = on_stream s (λ st, st <| pending := p |>) v) ∧
  (∀ m, o = Some m → message_ID m ∈ pending (stream_of v s) ∧
                     added (stream_of v s) !! message_ID m = Some (message_Values m)).

Definition acknowledges (s id : string) (v : redis) : redis := on_stream s (λ st, st <| pending ::= λ p, p ∖ {[id]} |>) v.
Definition deletes (s id : string) (v : redis) : redis :=
  on_stream s (λ st, st <| undelivered ::= filter (λ x, x ≠ id) |> <| deleted ::= λ d, {[id]} ∪ d |>) v.

(** A command that failed may have been carried out. *)
Definition carried {A V} (r : result string A) (effect : A → V → V → Prop) (v v' : V) : Prop :=
  match r with
  | Ok a => effect a v v'
  | Err _ => v' = v ∨ ∃ a, effect a v v'
  end.

(** Documented behaviour.  A group made at the start of a stream is to be given every entry, which
    is how the view shows a stream without its group. *)
Class RedisLaws {W : Type} (R : RedisApi W) := {
  view : W → redis;
  XAdd_law : ∀ s vals w, runs (XAdd s vals) w (λ r w', carried r (appends s vals) (view w) (view w'));
  XReadGroup_law : ∀ s c w, runs (XReadGroup s workerGroup c) w (λ r w', carried r (delivers s) (view w) (view w'));
  XGroupCreate_law : ∀ s w, runs (XGroupCreateMkStream s workerGroup "0") w (λ _ w', view w' = view w);
  XAutoClaim_law : ∀ s c idle w, runs (XAutoClaim s workerGroup c idle) w (λ o w', claims s o (view w) (view w'));
  XAck_law : ∀ s id w, runs (XAck s workerGroup id) w
    (λ r w', carried r (λ _ v v', v' = acknowledges s id v) (view w) (view w'));
  XDel_law : ∀ s id w, runs (XDel s id) w (λ r w', carried r (λ _ v v', v' = deletes s id v) (view w) (view w'));
  HSet_law : ∀ key field x w, runs (HSet key field x) w
    (λ r w', carried r (λ _ v v', v' = set_hash key field x v) (view w) (view w'));
  HGet_law : ∀ key field w, runs (HGet key field) w
    (λ o w', view w' = view w ∧ ∀ x, o = Some x → hash_of (view w) key !! field = Some x);
  HMGet_law : ∀ key fields w, runs (HMGet key fields) w
    (λ r w', view w' = view w ∧ ∀ l, r = Ok l → l = (λ f, hash_of (view w) key !! f) <$> fields) }.

Lemma stream_of_eq s f v : stream_of (on_stream s f v) s = f (stream_of v s).
Proof. unfold stream_of at 1, on_stream. simpl. by rewrite lookup_insert_eq. Qed.
Lemma stream_of_ne s s' f v : s ≠ s' → stream_of (on_stream s f v) s' = stream_of v s'.
Proof. intros Hs. unfold stream_of, on_stream. simpl. by rewrite lookup_insert_ne. Qed.
Lemma hash_of_set key field x v key' :
  hash_of (set_hash key field x v) key' = if decide (key = key') then <[field := x]> (hash_of v key) else hash_of v key'.
Proof.
  unfold set_hash, hash_of. simpl. case_decide as E; [subst; by rewrite lookup_insert_eq|by rewrite lookup_insert_ne].
Qed.

(** ** The queue of some workers *)
Section queue.
Context {W : Type} `{R : RedisApi W} {RL : RedisLaws R} `{JT : JsonText} `{FA : FoldApi}.
Variables (tasks results dead : string).
Notation worker c m := (mkBackend c m tasks results dead).

Definition first_id (id : string) (vals : values) : string := storeID (msgToTask (mkMessage id vals)).

Definition live (v : redis) (id : string) : Prop :=
  id ∈ undelivered (stream_of v tasks) ∨
  id ∈ pending (stream_of v tasks) ∧ id ∉ deleted (stream_of v tasks).

(** By the values of the entries, the task or a retry of it is in the queue, or it has a result. *)
Definition kept (v : redis) (t : string) : Prop :=
  (∃ id vals, added (stream_of v tasks) !! id = Some vals ∧ first_id id vals = t ∧ live v id) ∨
  is_Some (hash_of v results !! t).

(** The task of a message of the queue. *)
Definition polled (v : redis) (task : Task) : Prop :=
  ∃ vals, added (stream_of v tasks) !! task_ID task = Some vals ∧ task = msgToTask (mkMessage (task_ID task) vals).

(** Nothing goes, apart from these messages, and nothing comes, apart from these. *)
Definition keeps (gone : string → Prop) (come : string → values → Prop) (v v' : redis) : Prop :=
  added (stream_of v tasks) ⊆ added (stream_of v' tasks) ∧
  (∀ id, live v id → ¬ gone id → live v' id) ∧
  (∀ t, is_Some (hash_of v results !! t) → is_Some (hash_of v' results !! t)) ∧
  (∀ id vals, added (stream_of v' tasks) !! id = Some vals →
     added (stream_of v tasks) !! id = Some vals ∨ come id vals).

Lemma keeps_refl gone come v : keeps gone come v v.
Proof. split; [done|]. split; [done|]. split; auto. Qed.
Lemma keeps_trans gone come v1 v2 v3 : keeps gone come v1 v2 → keeps gone come v2 v3 → keeps gone come v1 v3.
Proof.
  intros (A1 & A2 & A3 & A4) (B1 & B2 & B3 & B4). split; [by etransitivity|]. split; [auto|]. split; [auto|].
  intros id vals E. destruct (B4 _ _ E); auto.
Qed.
Lemma keeps_weaken (gone gone' : string → Prop) (come come' : string → values → Prop) v v' :
  (∀ id, gone id → gone' id) → (∀ id vals, come id vals → come' id vals) →
  keeps gone come v v' → keeps gone' come' v v'.
Proof.
  intros Hg Hc (A1 & A2 & A3 & A4). split; [done|]. split; [|split; [done|]].
  - intros id Hl Hn. apply A2; auto.
  - intros id vals E. destruct (A4 _ _ E); auto.
Qed.

Lemma keeps_kept (gone : string → Prop) `{∀ id, Decision (gone id)} come v v' t : keeps gone come v v' → kept v t →
  (∀ id vals, added (stream_of v tasks) !! id = Some vals → gone id → first_id id vals = t → kept v' t) → kept v' t.
Proof.
  intros (A1 & A2 & A3 & _) [(id & vals & Hid & Ht & Hl)|Hr] Hg; [|right; auto].
  destruct (decide (gone id)); [by eapply Hg|].
  left. exists id, vals. split; [by eapply lookup_weaken|]. auto.
Qed.

Lemma keeps_polled gone come v v' task : keeps gone come v v' → polled v task → polled v' task.
Proof. intros (A1 & _) (vals & E & Ht). exists vals. split; [by eapply lookup_weaken|done]. Qed.

Notation none := (λ _ : string, False).
Notation nothing := (λ (_ : string) (_ : values), False).

(** *** The commands *)
Ltac on_tasks s :=
  unfold keeps, live; destruct (decide (s = tasks)) as [->|?];
  [rewrite stream_of_eq; simpl|rewrite stream_of_ne by done; by auto].

Lemma append_keeps s vals id v v' (come : string → values → Prop) :
  (s = tasks → come id vals) → appends s vals id v v' → keeps none come v v'.
Proof.
  intros Hc (_ & Hf & ->). on_tasks s. split; [by apply insert_subseteq|]. split; [set_solver|]. split; [done|].
  intros x vs. destruct (decide (id = x)) as [<-|Hx]; [rewrite lookup_insert_eq; intros [= <-]; auto|].
  rewrite lookup_insert_ne by done. by left.
Qed.

Lemma deliver_keeps s o v v' : delivers s o v v' → keeps none nothing v v'.
Proof.
  destruct o as [m|]; [|intros ->; apply keeps_refl]. intros (rest & Hu & _ & Hd & ->). on_tasks s.
  rewrite Hu. split; [done|]. split; [set_solver|auto].
Qed.

Lemma claim_keeps s o v v' : claims s o v v' → keeps none nothing v v'.
Proof. intros [(p & Hp & _ & ->) _]. on_tasks s. split; [done|]. split; [set_solver|auto]. Qed.

Lemma acknowledge_keeps s id v : keeps (λ x, x = id) nothing v (acknowledges s id v).
Proof. unfold acknowledges. on_tasks s. split; [done|]. split; [set_solver|auto]. Qed.

Lemma delete_keeps s id v : keeps (λ x, x = id) nothing v (deletes s id v).
Proof.
  unfold deletes. on_tasks s. split; [done|]. split; [|auto].
  intros x [Hx|Hx] Hne; [left; by apply list_elem_of_filter|right; set_solver].
Qed.

Lemma set_keeps key field x v : keeps none nothing v (set_hash key field x v).
Proof.
  split; [done|]. split; [done|]. split; [|auto]. intros t. rewrite hash_of_set. case_decide; [subst|done].
  intros Ht. destruct (decide (field = t)) as [->|]; [rewrite lookup_insert_eq; eauto|by rewrite lookup_insert_ne].
Qed.

Lemma carried_keeps {A} (r : result string A) effect gone come v v' :
  (∀ a, effect a v v' → keeps gone come v v') → carried r effect v v' → keeps gone come v v'.
Proof. intros He. destruct r as [a|e]; simpl; [apply He|]. intros [->|[a Ha]]; [apply keeps_refl|by eapply He]. Qed.

(** *** Computations *)
Definition keeping {A} (gone : string → Prop) (come : string → values → Prop) (m : stateful W A) : Prop :=
  ∀ w, runs m w (λ _ w', keeps gone come (view w) (view w')).

Section keeping.
Context {gone : string → Prop} {come : string → values → Prop}.

Lemma keeps_any v v' : keeps none nothing v v' → keeps gone come v v'.
Proof. by apply keeps_weaken. Qed.

Lemma keeping_answer {A} (a : A) : keeping gone come (answer_with a).
Proof. intros w. apply keeps_refl. Qed.
Lemma keeping_then {A B} (m : stateful W A) (k : A → stateful W B) :
  keeping gone come m → (∀ a, keeping gone come (k a)) → keeping gone come (and_then m k).
Proof.
  intros Hm Hk w. apply runs_then. eapply runs_weaken; [apply Hm|]. intros a w1 K1.
  eapply runs_weaken; [apply Hk|]. intros c w2 K2. exact (keeps_trans _ _ _ _ _ K1 K2).
Qed.
Lemma keeping_add s vals : (∀ id, s = tasks → id ≠ "" → come id vals) → keeping gone come (XAdd s vals).
Proof.
  intros Hc w. eapply runs_weaken; [apply XAdd_law|]. intros r w'. apply carried_keeps. intros id Ha.
  apply (keeps_weaken none gone come come); [done|auto|]. eapply append_keeps; [|exact Ha].
  intros Hs. apply Hc; [done|by destruct Ha].
Qed.
Lemma keeping_ack s id : gone id → keeping gone come (XAck s workerGroup id).
Proof.
  intros Hg w. eapply runs_weaken; [apply XAck_law|]. intros r w'. apply carried_keeps. intros _ ->.
  eapply keeps_weaken, acknowledge_keeps; [by intros x ->|done].
Qed.
Lemma keeping_del s id : gone id → keeping gone come (XDel s id).
Proof.
  intros Hg w. eapply runs_weaken; [apply XDel_law|]. intros r w'. apply carried_keeps. intros _ ->.
  eapply keeps_weaken, delete_keeps; [by intros x ->|done].
Qed.
Lemma keeping_set key field x : keeping gone come (HSet key field x).
Proof.
  intros w. eapply runs_weaken; [apply HSet_law|]. intros r w'. apply carried_keeps. intros _ ->.
  apply keeps_any, set_keeps.
Qed.
Lemma keeping_get key field : keeping gone come (HGet key field).
Proof. intros w. eapply runs_weaken; [apply HGet_law|]. intros o w' [-> _]. apply keeps_refl. Qed.
Lemma keeping_mget key fields : keeping gone come (HMGet key fields).
Proof. intros w. eapply runs_weaken; [apply HMGet_law|]. intros o w' [-> _]. apply keeps_refl. Qed.
Lemma keeping_claim s c idle : keeping gone come (XAutoClaim s workerGroup c idle).
Proof.
  intros w. eapply runs_weaken; [apply XAutoClaim_law|]. intros o w' Hc. exact (keeps_any _ _ (claim_keeps _ _ _ _ Hc)).
Qed.
Lemma keeping_read s c : keeping gone come (XReadGroup s workerGroup c).
Proof.
  intros w. eapply runs_weaken; [apply XReadGroup_law|]. intros r w'. apply carried_keeps. intros o Ho.
  exact (keeps_any _ _ (deliver_keeps _ _ _ _ Ho)).
Qed.
Lemma keeping_create s : keeping gone come (XGroupCreateMkStream s workerGroup "0").
Proof. intros w. eapply runs_weaken; [apply XGroupCreate_law|]. intros _ w' ->. apply keeps_refl. Qed.
End keeping.

Ltac keep := repeat first
  [ apply keeping_answer | apply keeping_claim | apply keeping_read | apply keeping_create | apply keeping_get
  | apply keeping_mget | apply keeping_set | apply keeping_ack; reflexivity | apply keeping_del; reflexivity
  | apply keeping_then; [|intros ?]
  | match goal with |- keeping _ _ (match ?x with _ => _ end) => destruct x end ].

Lemma keeping_poll c m : keeping none nothing (Poll (worker c m)).
Proof. unfold Poll, claimStale. keep. Qed.
Lemma polled_of (v v' : redis) msg : keeps none nothing v v' →
  added (stream_of v tasks) !! message_ID msg = Some (message_Values msg) → polled v' (msgToTask msg).
Proof. intros (K & _) Ha. exists (message_Values msg). split; [by eapply lookup_weaken|]. by destruct msg. Qed.

(** A worker is given messages of the queue. *)
Lemma poll_polled c m w : runs (Poll (worker c m)) w (λ r w', ∀ task, r = Ok (Some task) → polled (view w') task).
Proof.
  unfold Poll, claimStale. apply runs_then. apply runs_then. eapply runs_weaken; [apply XAutoClaim_law|].
  intros o w1 Hc. apply runs_answer. cbv beta. destruct o as [msg|].
  { apply runs_answer. intros task [= <-]. eapply polled_of; [by eapply claim_keeps|]. by apply Hc. }
  apply runs_then. eapply runs_weaken; [apply XReadGroup_law|]. intros [[msg|]|e] w2 Hd; simpl.
  - apply runs_answer. intros task [= <-]. eapply polled_of; [exact (deliver_keeps _ _ _ _ Hd)|].
    by destruct Hd as (rest & _ & Ha & _).
  - by apply runs_answer.
  - destruct (str_contains e "NOGROUP"); [|by apply runs_answer].
    apply runs_then. eapply runs_weaken; [apply XGroupCreate_law|]. intros _ w3 _. by apply runs_answer.
Qed.

Lemma keeping_results b ids : keeping none nothing (Results b ids).
Proof. unfold Results. keep. Qed.

(** *** The operations *)
Lemma set_stored key field x w : runs (HSet key field x) w (λ r w',
  keeps none nothing (view w) (view w') ∧ (r = Ok tt → hash_of (view w') key !! field = Some x)).
Proof.
  eapply runs_weaken; [exact (runs_both _ _ _ _ (HSet_law key field x w)
    (keeping_set (gone := none) (come := nothing) key field x w))|].
  intros r w' [Hc Hk]. split; [exact Hk|]. intros ->. simpl in Hc. rewrite Hc, hash_of_set, decide_True by done.
  apply lookup_insert_eq.
Qed.

Lemma submit_queues c m at_ prompt carrier meta w : runs (Submit (worker c m) at_ prompt carrier meta) w (λ r w',
  keeps none (λ id vals, id ≠ "" ∧ vals = task_values at_ prompt carrier meta) (view w) (view w') ∧
  ∀ id, r = Ok id → id ≠ "" ∧ added (stream_of (view w') tasks) !! id = Some (task_values at_ prompt carrier meta) ∧
    live (view w') id).
Proof.
  unfold Submit. apply runs_then. eapply runs_weaken; [exact (runs_both _ _ _ _ (XAdd_law _ _ w)
    (keeping_add (gone := none) (come := λ id vals, id ≠ "" ∧ vals = task_values at_ prompt carrier meta) tasks
       (task_values at_ prompt carrier meta) (λ id _ Hne, conj Hne eq_refl) w))|].
  intros r w' [Hr Hk]. apply runs_answer. split; [exact Hk|]. destruct r as [id|e]; [|done]. intros ? [= <-].
  simpl in Hr. destruct Hr as (Hne & _ & ->). unfold live. rewrite stream_of_eq. simpl. split; [done|].
  split; [apply lookup_insert_eq|]. left. set_solver.
Qed.

Lemma ack_settles c m task res usage arts w : runs (Ack (worker c m) task res usage arts) w (λ r w',
  keeps (λ id, id = task_ID task) nothing (view w) (view w') ∧
  (r = Ok tt → hash_of (view w') results !! storeID task =
     Some (marshal_entry (mkResultEntry res "" (InputTokens usage) (OutputTokens usage) (ThinkingTokens usage) arts)))).
Proof.
  unfold Ack. apply runs_then. eapply runs_weaken; [apply (keeping_ack (gone := λ id, id = task_ID task) (come := nothing)); done|].
  intros [u|e] w1 K1; [|by apply runs_answer].
  apply runs_then. eapply runs_weaken; [apply set_stored|]. intros r w2 [K2 Hr]. apply runs_answer. split.
  - eapply keeps_trans; [exact K1|]. by apply keeps_any.
  - destruct r as [[]|e]; [by intros _; apply Hr|done].
Qed.

(** *** Results *)
Lemma entry_result_id id raw x : entry_result id raw = Some x → res_TaskID x = id.
Proof.
  unfold entry_result. destruct raw as [s|]; [|done]. simpl. by destruct (unmarshal_entry s); intros [= <-].
Qed.

Lemma listed_results f ids x :
  x ∈ omap (λ p, entry_result p.1 p.2) (zip ids (f <$> ids)) ↔ ∃ id, id ∈ ids ∧ entry_result id (f id) = Some x.
Proof.
  rewrite list_elem_of_omap. induction ids as [|i ids IH]; [set_solver|]. simpl. split.
  - intros (p & [->|Hp]%elem_of_cons & Hx); [exists i; split; [apply list_elem_of_here|done]|].
    destruct IH as [IH _]. destruct IH as (id & ? & ?); [by exists p|]. exists id. split; [by apply list_elem_of_further|done].
  - intros (id & [->|Hid]%elem_of_cons & Hx); [exists (i, f i); split; [apply list_elem_of_here|done]|].
    destruct IH as [_ IH]. destruct IH as (p & ? & ?); [by exists id|]. exists p. split; [by apply list_elem_of_further|done].
Qed.

Lemma results_listed b ids w : resultsHash b = results →
  runs (Results b ids) w (λ r w', view w' = view w ∧ ∀ l, r = Ok l →
    Forall (λ x, res_TaskID x ∈ ids) l ∧
    ∀ id x, id ∈ ids → entry_result id (hash_of (view w) results !! id) = Some x → x ∈ l).
Proof.
  intros Hb. assert (Hin : ∀ l, l = omap (λ p, entry_result p.1 p.2) (zip ids ((λ f, hash_of (view w) results !! f) <$> ids)) →
    Forall (λ x, res_TaskID x ∈ ids) l ∧
    ∀ id x, id ∈ ids → entry_result id (hash_of (view w) results !! id) = Some x → x ∈ l).
  { intros l ->. split; [|intros id x ? ?; apply listed_results; eauto]. apply Forall_forall.
    intros x (id & Hid & Hx)%listed_results. by rewrite (entry_result_id _ _ _ Hx). }
  unfold Results. destruct ids as [|i ids]; [apply runs_answer; split; [done|]; intros l [= <-]; by apply Hin|].
  rewrite Hb. apply runs_then. eapply runs_weaken; [apply HMGet_law|]. intros r w' [Hw Hl]. apply runs_answer.
  split; [done|]. destruct r as [vals|e]; [|done]. intros l [= <-]. apply Hin. by rewrite (Hl _ eq_refl).
Qed.

(** What a retry adds to the queue: the next attempt at the task. *)
Definition next_attempt (m : Z) (task : Task) (id : string) (vals : values) : Prop :=
  id ≠ "" ∧ vals = retry_values task ∧ attempt_of task < m.

Lemma retry_first task id : storeID task ≠ "" → first_id id (retry_values task) = storeID task.
Proof.
  intros Hne. assert (E : delete "prompt" (retry_values task) !! "original_task_id" = Some (storeID task)).
  { rewrite lookup_delete_ne by done. unfold retry_values. rewrite lookup_union_r by apply lookup_delete_eq.
    rewrite lookup_insert_ne, lookup_insert_ne by done. apply lookup_singleton_eq. }
  unfold first_id, msgToTask. unfold storeID at 1. cbn [task_Meta task_ID message_ID message_Values].
  rewrite E. simpl. by rewrite decide_False.
Qed.

Hypothesis dead_apart : dead ≠ tasks.

Lemma nack_settles c m task reason w : storeID task ≠ "" →
  runs (Nack (worker c m) task reason) w (λ r w',
    keeps (λ id, id = task_ID task) (next_attempt m task) (view w) (view w') ∧
    (r = Ok tt → kept (view w') (storeID task))).
Proof.
  intros Hne. unfold Nack. apply runs_then.
  eapply runs_weaken; [apply (keeping_ack (gone := λ id, id = task_ID task) (come := next_attempt m task)); done|].
  intros [u|e] w1 K1; [|by apply runs_answer]. cbn [backend_maxRetries].
  destruct ((attempt_of task <? m) && negb (isNonRetriable reason)) eqn:Ha.
  - apply andb_true_iff in Ha as [Ha _]. apply Z.ltb_lt in Ha. unfold retry. apply runs_then.
    eapply runs_weaken; [apply HGet_law|]. intros raw w2 [E2 Hraw]. cbv beta. destruct (was_cancelled raw) eqn:Hc.
    + apply runs_answer. rewrite E2. split; [done|]. intros _. right. destruct raw as [x|]; [|done].
      exists x. exact (Hraw x eq_refl).
    + apply runs_then. eapply runs_weaken; [exact (runs_both _ _ _ _ (XAdd_law _ _ w2)
        (keeping_add (gone := none) (come := next_attempt m task) tasks (retry_values task)
           (λ id _ Hid, conj Hid (conj eq_refl Ha)) w2))|].
      intros r w3 [Hr Hk]. apply runs_answer. split.
      * eapply keeps_trans; [exact K1|]. rewrite <- E2. by eapply keeps_weaken; [|done|exact Hk].
      * destruct r as [id|e]; [|done]. intros _. left. destruct Hr as (Hid & _ & ->). exists id, (retry_values task).
        unfold live. cbn [taskStream]. rewrite stream_of_eq. simpl. split; [apply lookup_insert_eq|].
        split; [by apply retry_first|]. left. set_solver.
  - unfold dead_letter. apply runs_then.
    eapply runs_weaken; [apply (keeping_add (gone := λ id, id = task_ID task) (come := next_attempt m task)); intros id E; destruct (dead_apart E)|].
    intros [id|e] w2 K2; [|apply runs_answer; split; [by eapply keeps_trans|done]].
    apply runs_then. eapply runs_weaken; [apply set_stored|]. intros r w3 [K3 Hr]. apply runs_answer. split.
    + eapply keeps_trans; [exact K1|]. eapply keeps_trans; [exact K2|]. by apply keeps_any.
    + destruct r as [[]|e]; [|done]. intros _. right. cbn [resultsHash] in Hr. rewrite Hr; eauto.
Qed.

Lemma cancel_settles b ids err w : taskStream b = tasks → resultsHash b = results →
  runs (cancel_each b ids err) w (λ r w',
    keeps (λ id, id ∈ ids) nothing (view w) (view w') ∧
    (r = None → err = None ∧ ∀ id, id ∈ ids → is_Some (hash_of (view w') results !! id))).
Proof.
  intros Hb Hr. revert err w. induction ids as [|id ids IH]; intros err w; simpl.
  { apply runs_answer. split; [apply keeps_refl|]. intros ->. split; [done|]. by intros id ?%elem_of_nil. }
  rewrite Hb, Hr. pose (gone := λ x, x ∈ id :: ids). assert (Hg : gone id) by (unfold gone; set_solver).
  apply runs_then. eapply runs_weaken; [apply (keeping_del (gone := gone) (come := nothing)); done|]. intros d w1 K1.
  apply runs_then. eapply runs_weaken; [apply (keeping_ack (gone := gone) (come := nothing)); done|]. intros a w2 K2.
  apply runs_then. eapply runs_weaken; [apply set_stored|]. intros h w3 [K3 Hh].
  eapply runs_weaken; [apply IH|]. intros r w4 [K4 Hi]. split.
  - eapply keeps_trans; [exact K1|]. eapply keeps_trans; [exact K2|]. eapply keeps_trans; [by apply keeps_any|].
    apply (keeps_weaken (λ x, x ∈ ids) gone nothing nothing); [unfold gone; set_solver|done|exact K4].
  - intros Hnone. destruct (Hi Hnone) as [He Hids].
    assert (err = None ∧ h = Ok tt) as [-> ->] by (destruct d, a, h as [[]|], err; done).
    split; [done|]. intros x [->|Hx]%elem_of_cons; [|auto]. destruct K4 as (_ & _ & K4 & _). apply K4. rewrite Hh; eauto.
Qed.

(** ** Whatever happens *)
Definition clean (vals : values) : Prop := vals !! "original_task_id" = None ∧ vals !! "attempt" = None.

(** What is known to one who watches the queue and never reads the values of an entry: of each
    entry, the task that was submitted, by the id its submitter was given, and how many retries of
    it came before; and the ids that submitters were given. *)
Record ledger := mkLedger { attempts : gmap string (string * nat); given : gset string }.
Definition empty_ledger : ledger := mkLedger ∅ ∅.

(** The entries that have come are noted. *)
Definition enroll (f : string → string * nat) (v : redis) (l : gmap string (string * nat)) : gmap string (string * nat) :=
  l ∪ map_imap (λ id _, Some (f id)) (added (stream_of v tasks)).
Definition note_submit (v : redis) (r : result string string) (h : ledger) : ledger :=
  mkLedger (enroll (λ id, (id, 0%nat)) v (attempts h)) (match r with Ok id => {[id]} ∪ given h | Err _ => given h end).
Definition note_nack (v : redis) (task : Task) (h : ledger) : ledger :=
  match attempts h !! task_ID task with
  | Some (t, n) => mkLedger (enroll (λ _, (t, S n)) v (attempts h)) (given h)
  | None => h
  end.

(** A step of some submitter, worker or controller.  Workers settle tasks they were given, at any
    time and as often as they like, and stop whenever they want; runs are cancelled with the ids of
    their tasks.  Submitters leave the two keys alone that a retry writes.  In a [strict] history the
    operations that settle a task report no error. *)
Inductive queue_step (strict : bool) (M : Z) : W * ledger → W * ledger → Prop :=
| step_submit c m at_ prompt carrier meta w h r w' :
    clean carrier → clean meta → Submit (worker c m) at_ prompt carrier meta w = (r, w') →
    queue_step strict M (w, h) (w', note_submit (view w') r h)
| step_poll c m w h r w' : Poll (worker c m) w = (r, w') → queue_step strict M (w, h) (w', h)
| step_ack c m task res usage arts w h r w' :
    polled (view w) task → Ack (worker c m) task res usage arts w = (r, w') → (strict = true → r = Ok tt) →
    queue_step strict M (w, h) (w', h)
| step_nack c m task reason w h r w' :
    m ≤ M → polled (view w) task → Nack (worker c m) task reason w = (r, w') → (strict = true → r = Ok tt) →
    queue_step strict M (w, h) (w', note_nack (view w') task h)
| step_results c m ids w h r w' : Results (worker c m) ids w = (r, w') → queue_step strict M (w, h) (w', h)
| step_cancel c m ids w h r w' :
    (∀ id, id ∈ ids → id ∈ given h) → Cancel (worker c m) ids w = (r, w') → (strict = true → r = None) →
    queue_step strict M (w, h) (w', h).

(** An attempt at the task is in the queue or held by a worker, or the task has a result. *)
Definition tracked (v : redis) (h : ledger) (t : string) : Prop :=
  (∃ id n, attempts h !! id = Some (t, n) ∧ live v id) ∨ is_Some (hash_of v results !! t).

Definition attempt_number (id : string) (vals : values) : Z := attempt_of (msgToTask (mkMessage id vals)).

(** The values of the entries tell what the ledger does. *)
Record recorded (M : Z) (v : redis) (h : ledger) : Prop := {
  rec_added : ∀ id vals, added (stream_of v tasks) !! id = Some vals →
    id ≠ "" ∧ ∃ n, attempts h !! id = Some (first_id id vals, n) ∧ attempt_number id vals = Z.of_nat n ∧ Z.of_nat n ≤ M;
  rec_only : ∀ id x, attempts h !! id = Some x → is_Some (added (stream_of v tasks) !! id);
  rec_given : ∀ t, t ∈ given h → attempts h !! t = Some (t, 0%nat) }.

Lemma clean_values at_ prompt carrier meta key : clean carrier → clean meta → key ∈ ["original_task_id"; "attempt"] →
  delete "prompt" (task_values at_ prompt carrier meta) !! key = None.
Proof.
  intros [C1 C2] [M1 M2] Hk. assert (K : key = "original_task_id" ∨ key = "attempt") by set_solver.
  unfold task_values. destruct K as [->| ->]; rewrite lookup_delete_ne by done;
    (rewrite lookup_union_None; split; [by rewrite lookup_union_None|done]).
Qed.

Lemma clean_first at_ prompt carrier meta id : clean carrier → clean meta →
  first_id id (task_values at_ prompt carrier meta) = id.
Proof.
  intros Hc Hm. unfold first_id, storeID, msgToTask. simpl. by rewrite clean_values by (done || set_solver).
Qed.
Lemma clean_attempts at_ prompt carrier meta id : clean carrier → clean meta →
  attempt_number id (task_values at_ prompt carrier meta) = 0.
Proof.
  intros Hc Hm. unfold attempt_number, attempt_of, msgToTask. simpl. by rewrite clean_values by (done || set_solver).
Qed.

Lemma retry_attempts task id : 0 ≤ attempt_of task < max_int 64 → attempt_number id (retry_values task) = attempt_of task + 1.
Proof.
  intros Ha. assert (E : delete "prompt" (retry_values task) !! "attempt" = Some (itoa (attempt_of task + 1))).
  { rewrite lookup_delete_ne by done. unfold retry_values. rewrite lookup_union_r.
    - rewrite lookup_insert_ne, lookup_insert_eq by done. rewrite wrap_id; [done|done|].
      unfold in_width, min_int in *. lia.
    - rewrite lookup_delete_ne by done. apply lookup_delete_eq. }
  unfold attempt_number, msgToTask. unfold attempt_of at 1. cbn [task_Meta message_Values]. rewrite E. simpl.
  rewrite Atoi_itoa; [done|]. unfold in_width, min_int in *. lia.
Qed.

Section steps.
Variable M : Z.
Hypothesis HM : 0 ≤ M ≤ max_int 64.

Lemma recorded_quiet (gone : string → Prop) v v' h : recorded M v h → keeps gone nothing v v' → recorded M v' h.
Proof.
  intros [R1 R2 R3] (K1 & _ & _ & K4). split; [| |done].
  - intros id vals E. destruct (K4 _ _ E); [by apply R1|done].
  - intros id x E. destruct (R2 id x E) as [vals Hv]. exists vals. by eapply lookup_weaken.
Qed.

Lemma recorded_enroll (gone : string → Prop) come f v v' h G :
  recorded M v h → keeps gone come v v' →
  (∀ id vals, come id vals → id ≠ "" ∧ ∃ n, f id = (first_id id vals, n) ∧ attempt_number id vals = Z.of_nat n ∧ Z.of_nat n ≤ M) →
  (∀ t, t ∈ G → t ∈ given h ∨ ∃ vals, added (stream_of v' tasks) !! t = Some vals ∧ first_id t vals = t ∧ attempt_number t vals = 0) →
  recorded M v' (mkLedger (enroll f v' (attempts h)) G).
Proof.
  intros [R1 R2 R3] (K1 & _ & _ & K4) Hc HG.
  assert (Hin : ∀ id vals, added (stream_of v' tasks) !! id = Some vals →
    id ≠ "" ∧ ∃ n, enroll f v' (attempts h) !! id = Some (first_id id vals, n) ∧ attempt_number id vals = Z.of_nat n ∧ Z.of_nat n ≤ M).
  { intros id vals E. unfold enroll. destruct (K4 _ _ E) as [Eo|Hn].
    - destruct (R1 _ _ Eo) as (Hne & n & En & Hn). split; [done|]. exists n. by rewrite (lookup_union_Some_l _ _ _ _ En).
    - destruct (added (stream_of v tasks) !! id) as [vals'|] eqn:Eo.
      + rewrite (lookup_weaken _ _ _ _ Eo K1) in E. injection E as ->.
        destruct (R1 _ _ Eo) as (Hne & n & En & Ha). split; [done|]. exists n. by rewrite (lookup_union_Some_l _ _ _ _ En).
      + destruct (Hc _ _ Hn) as (Hne & n & Ef & Ha). split; [done|]. exists n.
        assert (En : attempts h !! id = None).
        { destruct (attempts h !! id) as [x|] eqn:Ex; [|done]. destruct (R2 _ _ Ex) as [? E']. by rewrite Eo in E'. }
        rewrite lookup_union_r, map_lookup_imap, E by done. simpl. by rewrite Ef. }
  split; cbn [attempts given]; [done| |].
  - intros id x. unfold enroll. rewrite lookup_union_Some_raw, map_lookup_imap. intros [E|[_ E]].
    + destruct (R2 _ _ E) as [vals Hv]. exists vals. by eapply lookup_weaken.
    + by destruct (added (stream_of v' tasks) !! id).
  - intros t Ht. destruct (HG t Ht) as [Hg|(vals & E & Hf & Ha)].
    + unfold enroll. by rewrite (lookup_union_Some_l _ _ _ _ (R3 t Hg)).
    + destruct (Hin _ _ E) as (_ & n & -> & Hn & _). rewrite Hf. repeat f_equal. lia.
Qed.

(** What is known of a task that a worker holds. *)
Lemma polled_first v h task : recorded M v h → polled v task →
  storeID task ≠ "" ∧
  (∃ n, attempts h !! task_ID task = Some (storeID task, n) ∧ attempt_of task = Z.of_nat n ∧ Z.of_nat n ≤ M) ∧
  ∀ vals, added (stream_of v tasks) !! task_ID task = Some vals → first_id (task_ID task) vals = storeID task.
Proof.
  intros HR (vals & E & Ht). destruct (rec_added _ _ _ HR _ _ E) as (Hne & n & En & Hn & HnM). split; [|split].
  - unfold storeID. by case_decide.
  - exists n. rewrite En, Ht. done.
  - intros vals' E'. rewrite E in E'. injection E' as <-. unfold first_id. by rewrite <- Ht.
Qed.

Lemma submit_recorded c m at_ prompt carrier meta w h :
  clean carrier → clean meta → recorded M (view w) h →
  runs (Submit (worker c m) at_ prompt carrier meta) w (λ r w',
    recorded M (view w') (note_submit (view w') r h) ∧
    ((∀ t, t ∈ given h → kept (view w) t) → ∀ t, t ∈ given (note_submit (view w') r h) → kept (view w') t)).
Proof.
  intros Hc Hm HR. eapply runs_weaken; [apply submit_queues|]. intros r w' [K Hr]. split.
  - eapply recorded_enroll; [exact HR|exact K| |].
    + intros id vals [Hne ->]. split; [done|]. exists 0%nat. rewrite clean_first, clean_attempts by done. split; [done|]. split; [done|lia].
    + intros t. destruct r as [id|e]; [|by left]. intros [->%elem_of_singleton|Ht]%elem_of_union; [right|by left].
      destruct (Hr id eq_refl) as (_ & E & _). exists (task_values at_ prompt carrier meta).
      split; [done|]. split; [by apply clean_first|by apply clean_attempts].
  - intros HK t Ht. destruct (decide (t ∈ given h)) as [Ho|Hn].
    { apply (keeps_kept none _ _ _ t K); [by apply HK|done]. }
    destruct r as [id|e]; [|done]. simpl in Ht. apply elem_of_union in Ht as [->%elem_of_singleton|]; [|done].
    destruct (Hr id eq_refl) as (_ & E & Hl). left. exists id, (task_values at_ prompt carrier meta).
    split; [done|]. split; [by apply clean_first|done].
Qed.

Lemma nack_recorded c m task reason w h : m ≤ M → polled (view w) task → recorded M (view w) h →
  runs (Nack (worker c m) task reason) w (λ _ w', recorded M (view w') (note_nack (view w') task h)).
Proof.
  intros Hm Hp HR. destruct (polled_first _ _ _ HR Hp) as (Hne & (n & En & Hn & HnM) & _).
  eapply runs_weaken; [by apply nack_settles|]. intros r w' [K _]. unfold note_nack. rewrite En.
  eapply recorded_enroll; [exact HR|exact K| |by left]. intros id vals (Hid & -> & Hlt). split; [done|]. exists (S n).
  rewrite retry_first by done. rewrite retry_attempts by lia. split; [done|]. lia.
Qed.

(** What is known of a computation that ran. *)
Ltac ran op known :=
  pose proof known as P; unfold runs in P;
  match goal with H : context[op] |- _ => match type of H with _ = (_, _) => rewrite H in P; cbn [fst snd] in P end end.

Lemma step_recorded strict w h w' h' : queue_step strict M (w, h) (w', h') → recorded M (view w) h → recorded M (view w') h'.
Proof.
  intros Hstep HR. inversion Hstep; subst; clear Hstep.
  - ran Submit (submit_recorded c m at_ prompt carrier meta w h). by apply P.
  - ran Poll (keeping_poll c m w). by eapply recorded_quiet.
  - ran Ack (ack_settles c m task res usage arts w). destruct P as [K _]. by eapply recorded_quiet.
  - ran Nack (nack_recorded c m task reason w h). by apply P.
  - ran Results (keeping_results (worker c m) ids w). by eapply recorded_quiet.
  - unfold Cancel in *. ran cancel_each (cancel_settles (worker c m) ids None w eq_refl eq_refl). destruct P as [K _].
    by eapply recorded_quiet.
Qed.

Lemma step_conserves w h w' h' : queue_step true M (w, h) (w', h') → recorded M (view w) h →
  (∀ t, t ∈ given h → kept (view w) t) → ∀ t, t ∈ given h' → kept (view w') t.
Proof.
  intros Hstep HR HK t Ht. inversion Hstep; subst; clear Hstep.
  - ran Submit (submit_recorded c m at_ prompt carrier meta w h). exact (proj2 (P ltac:(done) ltac:(done) HR) HK t Ht).
  - ran Poll (keeping_poll c m w). apply (keeps_kept none _ _ _ t P); [by apply HK|done].
  - match goal with H : polled _ _ |- _ => destruct (polled_first _ _ _ HR H) as (_ & _ & Hf) end.
    ran Ack (ack_settles c m task res usage arts w). destruct P as [K Hr].
    apply (keeps_kept _ _ _ _ t K); [by apply HK|]. intros id vals E -> <-. rewrite (Hf _ E). right. rewrite Hr by auto. eauto.
  - match goal with H : polled _ _ |- _ => destruct (polled_first _ _ _ HR H) as (Hne & (n & En & _) & Hf) end.
    ran Nack (nack_settles c m task reason w Hne). destruct P as [K Hr]. unfold note_nack in Ht. rewrite En in Ht.
    apply (keeps_kept _ _ _ _ t K); [by apply HK|]. intros id vals E -> <-. rewrite (Hf _ E). auto.
  - ran Results (keeping_results (worker c m) ids w). apply (keeps_kept none _ _ _ t P); [by apply HK|done].
  - unfold Cancel in *. ran cancel_each (cancel_settles (worker c m) ids None w eq_refl eq_refl). destruct P as [K Hr].
    apply (keeps_kept _ _ _ _ t K); [by apply HK|]. intros id vals E Hid <-.
    match goal with H : ∀ id, id ∈ ids → _, Hs : true = true → _ |- _ =>
      pose proof (rec_given _ _ _ HR _ (H _ Hid)) as Eg; destruct (Hr (Hs eq_refl)) as [_ Hids] end.
    destruct (rec_added _ _ _ HR _ _ E) as (_ & n & En & _). rewrite Eg in En. injection En as <- _. right. auto.
Qed.

Lemma recorded_empty v : stream_of v tasks = empty_stream → recorded M v empty_ledger.
Proof. intros E. split; [intros id vals; by rewrite E|done|set_solver]. Qed.

Lemma steps_recorded strict x y : rtc (queue_step strict M) x y → recorded M (view x.1) x.2 → recorded M (view y.1) y.2.
Proof. induction 1 as [x|[w1 h1] [w2 h2] z Hxy _ IH]; [done|]. intros HR. apply IH. by eapply step_recorded. Qed.

Lemma steps_conserve x y : rtc (queue_step true M) x y → recorded M (view x.1) x.2 →
  (∀ t, t ∈ given x.2 → kept (view x.1) t) → ∀ t, t ∈ given y.2 → kept (view y.1) t.
Proof.
  induction 1 as [x|[w1 h1] [w2 h2] z Hxy _ IH]; [done|]. intros HR HK. apply IH; [by eapply step_recorded|].
  by eapply step_conserves.
Qed.
End steps.

(** C5: starting from an empty queue, whatever submitters, workers and controllers do, whatever reads
    and submissions fail and however often an entry is handed out again, a task whose id its
    submitter was given is never lost: an attempt at it is in the queue or held by a worker, or it has
    a result under that id, as long as every operation that settles a task succeeds.  No entry
    of the queue has more retries before it than the retries allow; the same entry may be run more
    than once, when it is handed out again or settled twice. *)
Theorem tasks_conserved M w0 w h :
  0 ≤ M ≤ max_int 64 → stream_of (view w0) tasks = empty_stream → rtc (queue_step true M) (w0, empty_ledger) (w, h) →
  (∀ t, t ∈ given h → tracked (view w) h t) ∧
  (∀ id vals, added (stream_of (view w) tasks) !! id = Some vals →
     ∃ t n, attempts h !! id = Some (t, n) ∧ attempt_number id vals = Z.of_nat n ∧ Z.of_nat n ≤ M).
Proof.
  intros HM H0 Hs.
  pose proof (steps_recorded M HM _ _ _ Hs (recorded_empty M _ H0)) as HR.
  pose proof (steps_conserve M HM _ _ Hs (recorded_empty M _ H0)) as HK. simpl in HR, HK. split.
  - intros t Ht. destruct (HK ltac:(set_solver) t Ht) as [(id & vals & E & <- & Hl)|Hr]; [|by right].
    destruct (rec_added _ _ _ HR _ _ E) as (_ & n & En & _). left. eauto.
  - intros id vals E. destruct (rec_added _ _ _ HR _ _ E) as (_ & n & En & Ha). eauto.
Qed.

(** C13: whatever submitters, workers and controllers did before, failed calls included: when a
    worker that holds an attempt at a task acknowledges it, be it the first attempt or a retry, what
    is read next under the id that was given for the submission is the text, the tokens and the
    artifacts of that worker, unless a command reports an error; and only ids that were asked for are
    answered. *)
Theorem acknowledged_result_read `{!JsonTextLaws JT} strict M w0 w h c m c' m' task t n res usage arts ids :
  0 ≤ M ≤ max_int 64 → stream_of (view w0) tasks = empty_stream → rtc (queue_step strict M) (w0, empty_ledger) (w, h) →
  polled (view w) task → attempts h !! task_ID task = Some (t, n) → t ∈ ids →
  storable (mkResultEntry res "" (InputTokens usage) (OutputTokens usage) (ThinkingTokens usage) arts) →
  runs (a <-- Ack (worker c m) task res usage arts; r <-- Results (worker c' m') ids; answer_with (a, r))%api w
    (λ o _, ∀ l, o = (Ok tt, Ok l) →
      mkTaskResult t res "" (mkTokenUsage (InputTokens usage) (OutputTokens usage) (ThinkingTokens usage) 0 "") arts ∈ l ∧
      Forall (λ x, res_TaskID x ∈ ids) l).
Proof.
  intros HM H0 Hs Hp Et Hid He. pose proof (steps_recorded M HM _ _ _ Hs (recorded_empty M _ H0)) as HR.
  destruct (polled_first _ _ _ _ HR Hp) as (_ & (n' & E & _) & _). cbn [snd] in E. rewrite Et in E. injection E as -> _.
  apply runs_then. eapply runs_weaken; [apply ack_settles|]. intros a w1 [_ Ha].
  apply runs_then. eapply runs_weaken; [by apply results_listed|]. intros r w2 [_ Hl]. apply runs_answer.
  intros l [= -> ->]. destruct (Hl l eq_refl) as [Hall Hread]. split; [|done].
  apply (Hread (storeID task)); [done|]. rewrite Ha by done. simpl. by rewrite entry_roundtrip.
Qed.
End queue.

(** ** The queue on a concrete Redis: a server that keeps its view as its state and carries out every
    command but those whose numbers are on a list, which do nothing and report an error.  It keeps the
    laws, so what is proved of the queue is not vacuous, and it shows what an [Ack] that stops half-way
    does. *)
Record server := mkServer { calls : nat; failing : list nat; contents : redis }.

(** ** The commands *)
(** A command that may fail, counted. *)
Definition command {A} (f : redis → option A * redis) : stateful server (result string A) := λ w,
  let n := S (calls w) in
  if decide (n ∈ failing w) then (Err "connection refused", mkServer n (failing w) (contents w))
  else match f (contents w) with
       | (Some a, v) => (Ok a, mkServer n (failing w) v)
       | (None, _) => (Err "no answer", mkServer n (failing w) (contents w))
       end.
Definition query {A} (f : redis → A * redis) : stateful server A := λ w,
  let '(a, v) := f (contents w) in (a, mkServer (calls w) (failing w) v).

Definition next_id (v : redis) (s : string) : string := fresh (keys_of (added (stream_of v s))).

Definition append_entry (s : string) (vals : values) (v : redis) : option string * redis :=
  let id := next_id v s in
  if decide (id = "") then (None, v)
  else (Some id, on_stream s (λ st, st <| added ::= <[id := vals]> |> <| undelivered ::= λ l, l ++ [id] |>) v).

Definition give (s : string) (v : redis) : option (option message) * redis :=
  match undelivered (stream_of v s) with
  | [] => (Some None, v)
  | id :: rest =>
      match added (stream_of v s) !! id with
      | Some vals =>
          if decide (id ∈ deleted (stream_of v s)) then (Some None, v)
          else (Some (Some (mkMessage id vals)),
                on_stream s (λ st, st <| undelivered := rest |> <| pending ::= λ p, {[id]} ∪ p |>) v)
      | None => (Some None, v)
      end
  end.

(** Whatever is pending is taken to be idle. *)
Definition take_over (s : string) (v : redis) : option message * redis :=
  (match elements (pending (stream_of v s)) with
   | [] => None
   | id :: _ => vals ← added (stream_of v s) !! id; Some (mkMessage id vals)
   end,
   on_stream s (λ st, st <| pending := pending (stream_of v s) |>) v).

#[export] Instance sample_redis : RedisApi server := {|
  XAdd s vals := command (append_entry s vals);
  XReadGroup s _ _ := command (give s);
  XGroupCreateMkStream _ _ _ := query (λ v, ((), v));
  XAutoClaim s _ _ _ := query (take_over s);
  XAck s _ id := command (λ v, (Some (), acknowledges s id v));
  XDel s id := command (λ v, (Some (), deletes s id v));
  HSet key field x := command (λ v, (Some (), set_hash key field x v));
  HGet key field := query (λ v, (hash_of v key !! field, v));
  HMGet key fields := command (λ v, (Some ((λ f, hash_of v key !! f) <$> fields), v));
  LLen _ := command (λ v, (Some 0, v));
  RPush _ _ := command (λ v, (Some (), v));
  Expire _ _ := command (λ v, (Some (), v));
  BLPop _ _ := command (λ v, (Some None, v)) |}.

Lemma command_carried {A} f (effect : A → redis → redis → Prop) w :
  (∀ a v, f (contents w) = (Some a, v) → effect a (contents w) v) →
  runs (command f) w (λ r w', carried r effect (contents w) (contents w')).
Proof.
  intros Hf. unfold runs, command. case_decide; [by left|]. destruct (f (contents w)) as [[a|] v]; [by apply Hf|by left].
Qed.

#[export, refine] Instance sample_laws : RedisLaws sample_redis := {| view := contents |}.
Proof.
  - intros s vals w. apply command_carried. intros a v. unfold append_entry. case_decide as Hne; [done|].
    intros [= <- <-]. split; [done|]. split; [|done]. apply eq_None_not_Some. intros Hid%(range_order_keys (added (stream_of (contents w) s))).
    by apply (infinite_is_fresh (keys_of (added (stream_of (contents w) s)))).
  - intros s c w. apply command_carried. intros o v. unfold give.
    destruct (undelivered _) as [|id rest] eqn:E; [by intros [= <- <-]|].
    destruct (added _ !! id) as [vals|] eqn:Ea; [|by intros [= <- <-]].
    case_decide; intros [= <- <-]; [done|]. exists rest. simpl. done.
  - done.
  - intros s c idle w. unfold runs. simpl. split; [eexists; split; [|split; reflexivity]; set_solver|].
    intros m. destruct (elements _) as [|id l] eqn:E; [done|]. destruct (added _ !! id) eqn:Ea; [|done].
    intros [= <-]. split; [|done]. apply elem_of_elements. rewrite E. apply list_elem_of_here.
  - intros s id w. apply command_carried. by intros [] v [= <-].
  - intros s id w. apply command_carried. by intros [] v [= <-].
  - intros key field x w. apply command_carried. by intros [] v [= <-].
  - done.
  - intros key fields w. unfold runs. simpl. unfold command. case_decide; [done|]. simpl. split; [done|]. by intros l [= <-].
Defined.

(** ** A run of the queue *)
#[local] Existing Instances toy_json_text toy_json_text_laws toy_fold_case.

Definition sample_worker : backend := mkBackend "worker-0" 3 "agent-tasks" "agent-tasks-results" "agent-tasks-dead".
Definition empty_server (failing : list nat) : server := mkServer 0 failing (mkRedis ∅ ∅).
Definition polled_task (w : server) : Task :=
  match (Poll sample_worker w).1 with Ok (Some task) => task | _ => mkTask "" "" ∅ end.
Definition gave (w : server) : bool := match (Poll sample_worker w).1 with Ok (Some _) => true | _ => false end.
Definition tokens : TokenUsage := mkTokenUsage 12 34 0 0 "".

(** A task is submitted and given to a worker, fails, is retried and given to a worker again, and
    then is done. *)
Section run.
Variable f : list nat.
Definition submitted : server := (Submit sample_worker "now" "Write." ∅ ∅ (empty_server f)).2.
Definition held : server := (Poll sample_worker submitted).2.
Definition retried : server := (Nack sample_worker (polled_task submitted) "timeout" held).2.
Definition held_again : server := (Poll sample_worker retried).2.
Definition settling : result string () * server := Ack sample_worker (polled_task retried) "Done." tokens ∅ held_again.
End run.

Notation sample_step strict := (queue_step "agent-tasks" "agent-tasks-results" "agent-tasks-dead" strict 3).

Definition first_ledger (f : list nat) : ledger :=
  note_submit "agent-tasks" (contents (submitted f)) (Ok "0") empty_ledger.
Definition last_ledger (f : list nat) : ledger :=
  note_nack "agent-tasks" (contents (retried f)) (polled_task (submitted f)) (first_ledger f).

Lemma sample_apart : "agent-tasks-dead" ≠ "agent-tasks".
Proof. done. Qed.
Lemma sample_polled w : gave w = true → polled "agent-tasks" (contents (Poll sample_worker w).2) (polled_task w).
Proof.
  intros Hg.
  pose proof (poll_polled "agent-tasks" "agent-tasks-results" "agent-tasks-dead" "worker-0" 3 w) as P.
  apply P. fold sample_worker. revert Hg. unfold gave, polled_task. by destruct (Poll sample_worker w).1 as [[task|]|e].
Qed.

(** Up to there nothing fails, if at all. *)
Lemma sample_steps strict f : f = [] ∨ f = [7%nat] →
  rtc (sample_step strict) (empty_server f, empty_ledger) (held_again f, last_ledger f).
Proof.
  intros Hf. apply (rtc_l _ _ (submitted f, first_ledger f)).
  { apply (step_submit (RL := sample_laws) _ _ _ _ _ "worker-0" 3 "now" "Write." ∅ ∅ _ _ (Ok "0")); [done|done|].
    apply injective_projections; [|done]. destruct Hf as [-> | ->]; vm_compute; reflexivity. }
  apply (rtc_l _ _ (held f, first_ledger f)).
  { apply (step_poll (RL := sample_laws) _ _ _ _ _ "worker-0" 3 (submitted f) _ (Poll sample_worker (submitted f)).1), surjective_pairing. }
  apply (rtc_l _ _ (retried f, last_ledger f)).
  { apply (step_nack (RL := sample_laws) _ _ _ _ _ "worker-0" 3 (polled_task (submitted f)) "timeout" (held f) _ (Ok tt)); [done| | |done].
    - apply sample_polled. destruct Hf as [-> | ->]; vm_compute; reflexivity.
    - apply injective_projections; [|done]. destruct Hf as [-> | ->]; vm_compute; reflexivity. }
  apply rtc_once.
  apply (step_poll (RL := sample_laws) _ _ _ _ _ "worker-0" 3 (retried f) _ (Poll sample_worker (retried f)).1), surjective_pairing.
Qed.

Lemma settling_polled f : f = [] ∨ f = [7%nat] →
  polled "agent-tasks" (contents (held_again f)) (polled_task (retried f)).
Proof. intros Hf. apply sample_polled. destruct Hf as [-> | ->]; vm_compute; reflexivity. Qed.

Lemma sample_bound : 0 ≤ 3 ≤ max_int 64.
Proof. split; vm_compute; discriminate. Qed.

Lemma sample_empty f : stream_of (contents (empty_server f)) "agent-tasks" = empty_stream.
Proof. vm_compute. reflexivity. Qed.

Lemma tasks_conserved_witness : ∃ w h,
  rtc (sample_step true) (empty_server [], empty_ledger) (w, h) ∧ "0" ∈ given h ∧
  tracked "agent-tasks" "agent-tasks-results" (view w) h "0" ∧
  ∀ id vals, added (stream_of (view w) "agent-tasks") !! id = Some vals →
    ∃ t n, attempts h !! id = Some (t, n) ∧ attempt_number id vals = Z.of_nat n ∧ Z.of_nat n ≤ 3.
Proof.
  exists (settling []).2, (last_ledger []).
  assert (Hs : rtc (sample_step true) (empty_server [], empty_ledger) ((settling []).2, last_ledger [])).
  { eapply rtc_r; [apply sample_steps; by left|].
    apply (step_ack (RL := sample_laws) _ _ _ _ _ "worker-0" 3 (polled_task (retried [])) "Done." tokens ∅ _ _ (Ok tt)); [apply settling_polled; by left| |done].
    apply injective_projections; [|done]. vm_compute. reflexivity. }
  assert (H0 : "0" ∈ given (last_ledger [])).
  { assert (E : elements (given (last_ledger [])) = ["0"]) by (vm_compute; reflexivity).
    apply elem_of_elements. rewrite E. apply list_elem_of_here. }
  split; [exact Hs|]. split; [exact H0|].
  destruct (tasks_conserved (RL := sample_laws) "agent-tasks" "agent-tasks-results" "agent-tasks-dead" sample_apart 3 (empty_server []) (settling []).2 _
    sample_bound (sample_empty _) Hs) as [Ht Ha].
  split; [exact (Ht _ H0)|exact Ha].
Defined.

(** An acknowledgement whose second command fails has taken the task from the queue and left no
    result: nothing in the server tells of the task any more. *)
Theorem ack_failure_loses :
  rtc (sample_step false) (empty_server [7%nat], empty_ledger) ((settling [7%nat]).2, last_ledger [7%nat]) ∧
  given (last_ledger [7%nat]) = {["0"]} ∪ ∅ ∧
  (settling [7%nat]).1 = Err "HSet result for task 0: connection refused" ∧
  ~ tracked "agent-tasks" "agent-tasks-results" (contents (settling [7%nat]).2) (last_ledger [7%nat]) "0".
Proof.
  split.
  { eapply rtc_r; [apply sample_steps; by right|].
    apply (step_ack (RL := sample_laws) _ _ _ _ _ "worker-0" 3 (polled_task (retried [7%nat])) "Done." tokens ∅ _ _ (settling [7%nat]).1);
      [apply settling_polled; by right|apply surjective_pairing|done]. }
  split; [vm_compute; reflexivity|]. split; [vm_compute; reflexivity|].
  intros [(id & n & _ & [Hu|[Hp _]])|[x Hx]].
  - assert (E : undelivered (stream_of (contents (settling [7%nat]).2) "agent-tasks") = []) by (vm_compute; reflexivity).
    rewrite E in Hu. exact (not_elem_of_nil _ Hu).
  - assert (E : elements (pending (stream_of (contents (settling [7%nat]).2) "agent-tasks")) = []) by (vm_compute; reflexivity).
    apply elem_of_elements in Hp. rewrite E in Hp. exact (not_elem_of_nil _ Hp).
  - assert (E : hash_of (contents (settling [7%nat]).2) "agent-tasks-results" !! "0" = None) by (vm_compute; reflexivity).
    rewrite E in Hx. discriminate Hx.
Qed.

(** The worker holds the retry, entry 1, of the task that was submitted as 0. *)
Lemma acknowledged_result_read_witness :
  task_ID (polled_task (retried [])) = "1" ∧ (settling []).1 = Ok tt ∧
  ∀ l, (Results sample_worker ["0"] (settling []).2).1 = Ok l →
    mkTaskResult "0" "Done." "" (mkTokenUsage 12 34 0 0 "") ∅ ∈ l ∧ Forall (λ x, res_TaskID x ∈ ["0"]) l.
Proof.
  split; [vm_compute; reflexivity|].
  assert (Ha : (settling []).1 = Ok tt) by (vm_compute; reflexivity). split; [exact Ha|]. intros l Hl.
  pose proof (acknowledged_result_read (RL := sample_laws) "agent-tasks" "agent-tasks-results" "agent-tasks-dead" sample_apart true 3
    (empty_server []) (held_again []) (last_ledger []) "worker-0" 3 "worker-0" 3
    (polled_task (retried [])) "0" 1%nat "Done." tokens ∅ ["0"] sample_bound (sample_empty _)
    (sample_steps _ _ (or_introl eq_refl)) (settling_polled _ (or_introl eq_refl)) ltac:(vm_compute; reflexivity)
    (list_elem_of_here _ _)) as R.
  apply R; [repeat split; vm_compute; reflexivity|].
  rewrite <- Ha, <- Hl. unfold and_then, answer_with, settling, sample_worker.
  destruct (Ack _ _ _ _ _ _) as [a w]. cbn [fst snd]. by destruct (Results (mkBackend _ _ _ _ _) _ w).
Defined.
