(* ===== verification/Worker.v ===== *)
(** * Worker: the loop of the agent runtime (runtime/cmd/kubeswarm-runtime/main.go).

    What the command wires together - the queue, the runner, the budget, the artifact store, the
    file system, the clock and the spend store - is one interface over a state; the run of a task is
    [Runner.RunTask], seen from outside.  Metrics, events and log lines are left out.  The calls
    that a task makes are recorded by an interface that adds them to a list.

    Whatever the calls answer, exactly one call settles a task, chosen by the last thing that happened
    to it.  Tokens and spend are recorded after a call of [queue_Ack] and not otherwise, but also when
    that call reports an error, which is only logged. *)
From Stdlib Require Import ZArith Lia Ascii.
From stdpp Require Import base tactics option list numbers strings pretty gmap relations.
From S2P Require Import Prelude GoStd Config Types Costs Queue Runtime Api Runner.

Class WorkerApi (W : Type) := {
  time_now : stateful W Z;
  budget_Check : stateful W (result string ());
  budget_Record : string → Z → stateful W (result string ());
  run_task : Task → stateful W (string * TokenUsage * option string);
  stream_Done : string → stateful W (result string ());
  queue_Ack : Task → string → TokenUsage → gmap string string → stateful W (result string ());
  queue_Nack : Task → string → stateful W (result string ());
  ArtifactStore : Type;
  store_NewFromURL : string → stateful W (result string ArtifactStore);
  (** Run, step, name and data; the URL of the artifact. *)
  store_Put : ArtifactStore → string → string → string → string → stateful W (result string string);
  store_Close : ArtifactStore → stateful W ();
  (** Names, and whether they are directories. *)
  os_ReadDir : string → stateful W (result string (list (string * bool)));
  (** A file of a directory. *)
  os_ReadFile : string → string → stateful W (result string string);
  spend_Record : SpendEntry → stateful W (result string ()) }.

(** ** What the command makes of its configuration *)
Definition queue_url (cfg : Config) : string :=
  if decide (ExternalQueueAddr cfg = "") then TaskQueueURL cfg else "grpc://" +:+ ExternalQueueAddr cfg.

(** The text before a character, if it is there. *)
Fixpoint before (sep : ascii) (s : string) : option string :=
  match s with
  | "" => None
  | String c s' => if decide (c = sep) then Some "" else String c <$> before sep s'
  end.

Definition spend_store_url (env : string) (cfg : Config) : string :=
  if decide (env = "") then default (TaskQueueURL cfg) (before "?" (TaskQueueURL cfg)) else env.

Section worker.
Context {W : Type} `{WorkerApi W}.
Variable cfg : Config.
Open Scope api_scope.

(** ** One task *)
(** The time at which the first attempt was added to the queue, from its id. *)
Definition age_id (t : Task) : string :=
  let origID := default "" (task_Meta t !! "original_task_id") in
  if decide (origID = "") then task_ID t else origID.
Definition enqueued_ms (t : Task) : option Z := before "-" (age_id t) ≫= Atoi.

Definition is_stale (t : Task) : stateful W bool :=
  if 0 <? TaskTimeout cfg
  then match enqueued_ms t with
       | Some ms =>
           now <-- time_now;
           answer_with (wrap64 (TaskTimeout cfg * 3) <? time_Sub now (ms * 1000000))
       | None => answer_with false
       end
  else answer_with false.

Definition run_name (t : Task) : string :=
  let n := default "" (task_Meta t !! "run_name") in if decide (n = "") then task_ID t else n.
Definition step_name (t : Task) : string :=
  let n := default "" (task_Meta t !! "step_name") in if decide (n = "") then TeamRole cfg else n.

Fixpoint upload_each (store : ArtifactStore) (t : Task) (entries : list (string * bool)) (acc : gmap string string)
    : stateful W (gmap string string) :=
  match entries with
  | [] => answer_with acc
  | (name, true) :: rest => upload_each store t rest acc
  | (name, false) :: rest =>
      data <-- os_ReadFile (ArtifactDir cfg) name;
      match data with
      | Err _ => upload_each store t rest acc
      | Ok data =>
          url <-- store_Put store (run_name t) (step_name t) name data;
          upload_each store t rest (match url with Ok url => <[name := url]> acc | Err _ => acc end)
      end
  end.

Definition collectArtifacts (t : Task) : stateful W (gmap string string) :=
  if decide (ArtifactStoreURL cfg = "" ∨ ArtifactDir cfg = "") then answer_with ∅
  else
    store <-- store_NewFromURL (ArtifactStoreURL cfg);
    match store with
    | Err _ => answer_with ∅
    | Ok store =>
        entries <-- os_ReadDir (ArtifactDir cfg);
        urls <-- match entries with Err _ => answer_with ∅ | Ok entries => upload_each store t entries ∅ end;
        _ <-- store_Close store;
        answer_with urls
    end.

Definition saveOutputArtifact (t : Task) (output : string) : stateful W (gmap string string) :=
  if decide (ArtifactSaveOutput cfg = false ∨ ArtifactStoreURL cfg = "" ∨ output = "") then answer_with ∅
  else
    store <-- store_NewFromURL (ArtifactStoreURL cfg);
    match store with
    | Err _ => answer_with ∅
    | Ok store =>
        let fileName := "output" +:+ ArtifactSaveExtension cfg in
        url <-- store_Put store (run_name t) (step_name t) fileName output;
        _ <-- store_Close store;
        answer_with (match url with Ok url => {[fileName := url]} | Err _ => ∅ end)
    end.

Definition spend_entry (t : Task) (now : Z) (usage : TokenUsage) : SpendEntry :=
  mkSpendEntry now (cfg_Namespace cfg) (TeamName cfg) (task_ID t) (TeamRole cfg) (cfg_Model cfg)
    (InputTokens usage) (OutputTokens usage)
    (Cost (cfg_Model cfg) (InputTokens usage) (OutputTokens usage) (ThinkingTokens usage)).

Definition record_spend (t : Task) (usage : TokenUsage) : stateful W () :=
  if decide (TeamName cfg ≠ "" ∧ (0 < InputTokens usage ∨ 0 < OutputTokens usage))
  then now <-- time_now; _ <-- spend_Record (spend_entry t now usage); answer_with ()
  else answer_with ().

(** A failed call that settles the task is logged. *)
Definition processTask (t : Task) : stateful W () :=
  old <-- is_stale t;
  if (old : bool) then _ <-- queue_Nack t "stale task: age exceeds timeout"; answer_with ()
  else
    budget <-- budget_Check;
    match budget with
    | Err _ => _ <-- queue_Nack t "daily token budget exceeded"; answer_with ()
    | Ok _ =>
        ran <-- run_task t;
        let '(res, usage, err) := ran in
        let key := default "" (task_Meta t !! "stream_key") in
        _ <-- (if decide (key = "") then answer_with (Ok ()) else stream_Done key);
        match err with
        | Some e => _ <-- queue_Nack t e; answer_with ()
        | None =>
            collected <-- collectArtifacts t;
            saved <-- saveOutputArtifact t res;
            _ <-- queue_Ack t res usage (saved ∪ collected);
            _ <-- budget_Record (task_ID t) (wrap64 (InputTokens usage + OutputTokens usage));
            record_spend t usage
        end
    end.
End worker.

(** ** The calls of a task *)
Inductive call :=
| Read_clock (now : Z)
| Asked_budget (r : result string ())
| Charged (tokens : Z)
| Ran (res : string) (usage : TokenUsage) (err : option string)
| Ended_stream (key : string)
| Acked (res : string) (usage : TokenUsage) (arts : gmap string string) (r : result string ())
| Nacked (reason : string) (r : result string ())
| Stored (run step name data : string) (url : result string string)
| Spent (e : SpendEntry).

Definition with_call {W A} (note : A → list call) (m : stateful W A) : stateful (W * list call) A :=
  λ s, let '(a, w) := m s.1 in (a, (w, s.2 ++ note a)).

Definition traced {W} (api : WorkerApi W) : WorkerApi (W * list call) := {|
  time_now := with_call (λ n, [Read_clock n]) time_now;
  budget_Check := with_call (λ r, [Asked_budget r]) budget_Check;
  budget_Record id n := with_call (λ _, [Charged n]) (budget_Record id n);
  run_task t := with_call (λ '(res, usage, err), [Ran res usage err]) (run_task t);
  stream_Done key := with_call (λ _, [Ended_stream key]) (stream_Done key);
  queue_Ack t res usage arts := with_call (λ r, [Acked res usage arts r]) (queue_Ack t res usage arts);
  queue_Nack t reason := with_call (λ r, [Nacked reason r]) (queue_Nack t reason);
  ArtifactStore := ArtifactStore;
  store_NewFromURL url := with_call (λ _, []) (store_NewFromURL url);
  store_Put store run step name data := with_call (λ r, [Stored run step name data r]) (store_Put store run step name data);
  store_Close store := with_call (λ _, []) (store_Close store);
  os_ReadDir dir := with_call (λ _, []) (os_ReadDir dir);
  os_ReadFile dir name := with_call (λ _, []) (os_ReadFile dir name);
  spend_Record e := with_call (λ _, [Spent e]) (spend_Record e) |}.

(** ** Several tasks at a time *)

(** What the loop holds: the tasks being processed, one that waits for a place, those that are
    done, and whether the loop has ended.  The main goroutine ends the process after that. *)
Record pool := mkPool {
  running : list Task;
  waiting : option Task;
  finished : list Task;
  ended : bool }.

Inductive pool_step (cfg : Config) : pool → pool → Prop :=
| pool_nothing r f : pool_step cfg (mkPool r None f false) (mkPool r None f false)
| pool_poll r f t : pool_step cfg (mkPool r None f false) (mkPool r (Some t) f false)
| pool_start r f t : Z.of_nat (length r) < MaxConcurrentTasks cfg →
    pool_step cfg (mkPool r (Some t) f false) (mkPool (t :: r) None f false)
| pool_finish r1 t r2 o f e : pool_step cfg (mkPool (r1 ++ t :: r2) o f e) (mkPool (r1 ++ r2) o (t :: f) e)
| pool_shut_down r o f : pool_step cfg (mkPool r o f false) (mkPool r o f true).

(** ** What a computation records *)
Definition records {W A} (m : stateful (W * list call) A) (Q : A → list call → Prop) : Prop :=
  ∀ w l, runs m (w, l) (λ a s, ∃ l', s.2 = l ++ l' ∧ Q a l').

Section records.
Context {W : Type}.

Lemma records_answer {A} (a : A) (Q : A → list call → Prop) : Q a [] → records (W := W) (answer_with a) Q.
Proof. intros HQ w l. apply runs_answer. exists []. by rewrite (right_id_L [] (++)). Qed.

Lemma records_call {A} note (m : stateful W A) (Q : A → list call → Prop) :
  (∀ a, Q a (note a)) → records (with_call note m) Q.
Proof. intros HQ w l. unfold runs, with_call. simpl. destruct (m w) as [a w']. simpl. eauto. Qed.

Lemma records_then {A B} (m : stateful (W * list call) A) (k : A → stateful (W * list call) B) P Q :
  records m P → (∀ a l, P a l → records (k a) (λ b l', Q b (l ++ l'))) → records (and_then m k) Q.
Proof.
  intros Hm Hk w l. apply runs_then. eapply runs_weaken; [apply Hm|]. intros a [w1 l1] (l' & E & HP). simpl in E. subst l1.
  eapply runs_weaken; [by apply (Hk a l')|]. intros b s (l2 & E2 & HQ). exists (l' ++ l2). by rewrite (assoc_L (++)).
Qed.

Lemma records_weaken {A} (m : stateful (W * list call) A) (P Q : A → list call → Prop) :
  records m P → (∀ a l, P a l → Q a l) → records m Q.
Proof. intros Hm HPQ w l. eapply runs_weaken; [apply Hm|]. intros a s (l' & E & HP). eauto. Qed.
End records.

(** ** The history of a task *)
Definition settles (c : call) : bool := match c with Acked _ _ _ _ | Nacked _ _ => true | _ => false end.

Section history.
Variables (cfg : Config) (t : Task).

Definition too_old (now ms : Z) : bool := wrap64 (TaskTimeout cfg * 3) <? time_Sub now (ms * 1000000).

(** The clock is read when the age of the task counts and can be told. *)
Inductive looked : list call → bool → Prop :=
| looked_not : (0 < TaskTimeout cfg → enqueued_ms t = None) → looked [] false
| looked_at now ms : 0 < TaskTimeout cfg → enqueued_ms t = Some ms → looked [Read_clock now] (too_old now ms).

Definition stream_end : list call :=
  let key := default "" (task_Meta t !! "stream_key") in if decide (key = "") then [] else [Ended_stream key].

Definition stores (c : call) : Prop := ∃ name data url, c = Stored (run_name t) (step_name cfg t) name data url.
Definition stored_url (acc : gmap string string) (c : call) : gmap string string :=
  match c with Stored _ _ name _ (Ok url) => <[name := url]> acc | _ => acc end.
(** The artifacts that were stored, a later one in place of an earlier one of its name. *)
Definition urls_of (stored : list call) : gmap string string := foldl stored_url ∅ stored.

Inductive billed (usage : TokenUsage) : list call → Prop :=
| billed_not : (TeamName cfg = "" ∨ InputTokens usage ≤ 0 ∧ OutputTokens usage ≤ 0) → billed usage []
| billed_at now : TeamName cfg ≠ "" → (0 < InputTokens usage ∨ 0 < OutputTokens usage) →
    billed usage [Read_clock now; Spent (mkSpendEntry now (cfg_Namespace cfg) (TeamName cfg) (task_ID t) (TeamRole cfg)
      (cfg_Model cfg) (InputTokens usage) (OutputTokens usage)
      (Cost (cfg_Model cfg) (InputTokens usage) (OutputTokens usage) (ThinkingTokens usage)))].

(** Whatever the call that settles the task reports in [r]. *)
Inductive history : list call → Prop :=
| history_stale l r : looked l true → history (l ++ [Nacked "stale task: age exceeds timeout" r])
| history_refused l e r : looked l false →
    history (l ++ [Asked_budget (Err e); Nacked "daily token budget exceeded" r])
| history_failed l res usage e r : looked l false →
    history (l ++ [Asked_budget (Ok ()); Ran res usage (Some e)] ++ stream_end ++ [Nacked e r])
| history_done l res usage stored r bill : looked l false → Forall stores stored → billed usage bill →
    history (l ++ [Asked_budget (Ok ()); Ran res usage None] ++ stream_end ++ stored ++
      [Acked res usage (urls_of stored) r; Charged (wrap64 (InputTokens usage + OutputTokens usage))] ++ bill).

Lemma no_settle_looked l b : looked l b → filter settles l = [].
Proof. by destruct 1. Qed.
Lemma no_settle_stream : filter settles stream_end = [].
Proof. unfold stream_end. by case_decide. Qed.
Lemma no_settle_stored l : Forall stores l → filter settles l = [].
Proof. induction 1 as [|c l (name & data & url & ->) _ IH]; [done|]. by rewrite filter_cons_False by auto. Qed.
Lemma no_settle_billed usage l : billed usage l → filter settles l = [].
Proof. by destruct 1. Qed.

Lemma history_settles_once l : history l → length (filter settles l) = 1%nat.
Proof.
  destruct 1 as [l r Hl|l e r Hl|l res usage e r Hl|l res usage stored r bill Hl Hs Hb];
    rewrite ?filter_app, (no_settle_looked _ _ Hl), ?no_settle_stream, ?(no_settle_stored stored),
      ?(no_settle_billed usage bill) by done; done.
Qed.
End history.

(** ** The worker keeps to it *)
Section worker.
Context {W : Type} (api : WorkerApi W) (cfg : Config) (t : Task).
#[local] Existing Instance traced.

Lemma is_stale_records : records (is_stale cfg t) (λ b l, looked cfg t l b).
Proof.
  unfold is_stale. destruct (0 <? TaskTimeout cfg) eqn:Ht.
  - apply Z.ltb_lt in Ht. destruct (enqueued_ms t) as [ms|] eqn:E; [|by apply records_answer; constructor].
    eapply records_then; [by apply (records_call _ _ (λ now l, l = [Read_clock now]))|]. intros now l ->.
    apply records_answer. by constructor.
  - apply Z.ltb_ge in Ht. apply records_answer. constructor. lia.
Qed.

Lemma stream_records : records (if decide (default "" (task_Meta t !! "stream_key") = "") then answer_with (Ok ())
  else stream_Done (default "" (task_Meta t !! "stream_key"))) (λ _ l, l = stream_end t).
Proof. unfold stream_end. case_decide; [by apply records_answer|by apply records_call]. Qed.

Lemma foldl_stored acc l : foldl stored_url acc l = urls_of l ∪ acc.
Proof.
  unfold urls_of. induction l as [|c l IH] using rev_ind; simpl; [by rewrite (left_id_L ∅ (∪))|].
  rewrite !foldl_app, IH. simpl. destruct c as [| | | | | | |run step name data [url|e]|]; simpl; try done.
  apply insert_union_l.
Qed.

Lemma upload_records store entries acc : records (upload_each cfg store t entries acc)
  (λ urls l, Forall (stores cfg t) l ∧ urls = foldl stored_url acc l).
Proof.
  revert acc. induction entries as [|[name [|]] rest IH]; intros acc; simpl; [by apply records_answer|apply IH|].
  eapply records_then; [by apply (records_call _ _ (λ _ l, l = []))|]. intros [data|e] l ->; [|apply IH].
  eapply records_then; [by apply (records_call _ _ (λ r l, l = [Stored (run_name t) (step_name cfg t) name data r]))|].
  intros url l ->. eapply records_weaken; [apply IH|]. intros urls l [Hl ->]. split.
  - simpl. apply Forall_cons. split; [by exists name, data, url|done].
  - simpl. by destruct url.
Qed.

Lemma collect_records : records (collectArtifacts cfg t) (λ urls l, Forall (stores cfg t) l ∧ urls = urls_of l).
Proof.
  unfold collectArtifacts. case_decide; [by apply records_answer|].
  eapply records_then; [by apply (records_call _ _ (λ _ l, l = []))|]. intros [store|e] l ->; [|by apply records_answer].
  eapply records_then; [by apply (records_call _ _ (λ _ l, l = []))|]. intros entries l ->.
  apply (records_then _ _ (λ urls l, Forall (stores cfg t) l ∧ urls = urls_of l)).
  - destruct entries as [entries|e]; [apply upload_records|by apply records_answer].
  - intros urls l [Hl ->]. eapply records_then; [by apply (records_call _ _ (λ _ l, l = []))|]. intros _ l' ->.
    apply records_answer. simpl. by rewrite (right_id_L [] (++)).
Qed.

Lemma save_records output : records (saveOutputArtifact cfg t output)
  (λ urls l, Forall (stores cfg t) l ∧ urls = urls_of l).
Proof.
  unfold saveOutputArtifact. case_decide; [by apply records_answer|].
  eapply records_then; [by apply (records_call _ _ (λ _ l, l = []))|]. intros [store|e] l ->; [|by apply records_answer].
  eapply records_then; [apply (records_call _ _ (λ r l, l = [Stored (run_name t) (step_name cfg t)
    ("output" +:+ ArtifactSaveExtension cfg) output r])); done|]. intros url l ->.
  eapply records_then; [by apply (records_call _ _ (λ _ l, l = []))|]. intros _ l' ->. apply records_answer. split.
  - apply Forall_singleton. by eexists _, _, _.
  - by destruct url.
Qed.

Lemma spend_records usage : records (record_spend cfg t usage) (λ _ l, billed cfg t usage l).
Proof.
  unfold record_spend. case_decide as E.
  - destruct E as [Hn Hu]. eapply records_then; [by apply (records_call _ _ (λ now l, l = [Read_clock now]))|].
    intros now l ->. eapply records_then; [by apply (records_call _ _ (λ _ l, l = [Spent (spend_entry cfg t now usage)]))|].
    intros r l' ->. apply records_answer. by apply billed_at.
  - apply records_answer. apply billed_not. destruct (decide (TeamName cfg = "")); [by left|right]. split; apply Z.nlt_ge; tauto.
Qed.

Lemma settle_records reason : records (and_then (queue_Nack t reason) (λ _, answer_with ()))
  (λ _ l, ∃ r, l = [Nacked reason r]).
Proof.
  eapply records_then; [by apply (records_call _ _ (λ r l, l = [Nacked reason r]))|]. intros r l ->.
  apply records_answer. by exists r.
Qed.

Lemma done_records res usage : records
  (collected <-- collectArtifacts cfg t;
   saved <-- saveOutputArtifact cfg t res;
   _ <-- queue_Ack t res usage (saved ∪ collected);
   _ <-- budget_Record (task_ID t) (wrap64 (InputTokens usage + OutputTokens usage));
   record_spend cfg t usage)%api
  (λ _ l, ∃ stored r bill, Forall (stores cfg t) stored ∧ billed cfg t usage bill ∧
    l = stored ++ [Acked res usage (urls_of stored) r; Charged (wrap64 (InputTokens usage + OutputTokens usage))] ++ bill).
Proof.
  eapply records_then; [apply collect_records|]. intros collected l1 [H1 ->].
  eapply records_then; [apply save_records|]. intros saved l2 [H2 ->].
  assert (Hu : urls_of l2 ∪ urls_of l1 = urls_of (l1 ++ l2)).
  { unfold urls_of at 3. rewrite foldl_app. symmetry. apply foldl_stored. }
  rewrite Hu.
  eapply records_then; [by apply (records_call _ _ (λ r l, l = [Acked res usage (urls_of (l1 ++ l2)) r]))|]. intros r l3 ->.
  eapply records_then; [by apply (records_call _ _ (λ _ l, l = [Charged (wrap64 (InputTokens usage + OutputTokens usage))]))|].
  intros _ l4 ->. eapply records_weaken; [apply spend_records|]. intros u bill Hb. exists (l1 ++ l2), r, bill.
  split; [by apply Forall_app|]. split; [done|]. by rewrite <- !(assoc_L (++)).
Qed.

Lemma processTask_records : records (processTask cfg t) (λ _ l, history cfg t l).
Proof.
  unfold processTask. eapply records_then; [apply is_stale_records|]. intros [|] l0 H0.
  { eapply records_weaken; [apply settle_records|]. intros _ l [r ->].
    by constructor. }
  eapply records_then; [by apply (records_call _ _ (λ r l, l = [Asked_budget r]))|]. intros [[]|e] l ->.
  2: { eapply records_weaken; [apply settle_records|]. intros _ l [r ->].
       by constructor. }
  eapply records_then; [apply (records_call _ _ (λ '(res, usage, err) l, l = [Ran res usage err])); by intros [[??]?]|].
  intros [[res usage] err] l ->. eapply records_then; [apply stream_records|]. intros _ l ->. destruct err as [e|].
  - eapply records_weaken; [apply settle_records|]. intros _ l [r ->]. by apply history_failed.
  - eapply records_weaken; [apply done_records|]. intros u l (stored & r & bill & Hs & Hb & ->). by apply history_done.
Qed.

(** C14: whatever its calls answer, a worker makes exactly one call that settles a task: a stale task
    is refused without a run or a look at the budget, one beyond the budget without a run, one whose
    run failed is refused with that error, and for one whose run succeeded [Ack] is called with the
    answer, the usage and the URLs of exactly the artifacts that were stored for it, a later one
    in place of an earlier one of its name; the stream of a task that ran is ended before that call.
    Tokens are charged and spend is recorded exactly after a call of [Ack], whether that call
    succeeds or reports an error, and never after a refusal. *)
Theorem task_settled_once w :
  let l := (processTask (H := traced api) cfg t (w, [])).2.2 in
  history cfg t l ∧ length (filter settles l) = 1%nat.
Proof.
  destruct (processTask_records w []) as (l & E & Hl). simpl in E. cbv zeta. rewrite E.
  split; [exact Hl|]. by eapply history_settles_once.
Qed.
End worker.

(** ** The loop *)
Definition pool_tasks (p : pool) : list Task := running p ++ option_list (waiting p) ++ finished p.

(** A worker processes at most as many tasks at a time as it is configured to, and forgets none of
    those it was given. *)
Theorem pool_bounded cfg p : 0 ≤ MaxConcurrentTasks cfg → rtc (pool_step cfg) (mkPool [] None [] false) p →
  Z.of_nat (length (running p)) ≤ MaxConcurrentTasks cfg.
Proof.
  intros HM. remember (mkPool [] None [] false) as p0 eqn:E0.
  assert (H0 : Z.of_nat (length (running p0)) ≤ MaxConcurrentTasks cfg) by (by subst).
  clear E0. induction 1 as [p|p p' q Hstep _ IH]; [done|]. apply IH. clear IH.
  destruct Hstep; simpl in *; rewrite ?length_app in *; simpl in *; lia.
Qed.

(** ** A worker at work *)

(** The clock ticks; the model answers; one of the two files cannot be read. *)
#[local] Instance toy_worker : WorkerApi Z := {|
  time_now := λ n, (n, n + 1);
  budget_Check := answer_with (Ok tt);
  budget_Record _ _ := answer_with (Ok tt);
  run_task t := answer_with ("Answer to " +:+ task_Prompt t, mkTokenUsage 12 34 0 0 "", None);
  stream_Done _ := answer_with (Ok tt);
  queue_Ack _ _ _ _ := answer_with (Err "connection refused");
  queue_Nack _ _ := answer_with (Ok tt);
  ArtifactStore := ();
  store_NewFromURL _ := answer_with (Ok tt);
  store_Put _ run step name _ := answer_with (Ok (run +:+ "/" +:+ step +:+ "/" +:+ name));
  store_Close _ := answer_with tt;
  os_ReadDir _ := answer_with (Ok [("a.txt", false); ("sub", true); ("b.txt", false)]);
  os_ReadFile _ name := answer_with (if decide (name = "b.txt") then Err "denied" else Ok "A");
  spend_Record _ := answer_with (Ok tt) |}.

Definition toy_worker_config : Config :=
  mkConfig "" "claude-sonnet-4-6" "hi" [] 8000 300 "redis://q" "redis://q" "" 3 5 [] ∅ "ns" "agent" "writer" "team" 0
    "" "" "s3://bucket" "" "/artifacts" "" "" 0 0 0 [] "" None None [] [] None [] None false false false false false "" "".
Definition toy_worker_task : Task := mkTask "5-0" "Write." {["stream_key" := "k"]}.

(** [Ack] is called once and reports an error; the task is charged all the same. *)
Lemma task_settled_once_witness :
  let l := (processTask (H := traced toy_worker) toy_worker_config toy_worker_task (0, [])).2.2 in
  history toy_worker_config toy_worker_task l ∧ length (filter settles l) = 1%nat ∧
  firstn 6 l = [Read_clock 0; Asked_budget (Ok ()); Ran "Answer to Write." (mkTokenUsage 12 34 0 0 "") None;
    Ended_stream "k"; Stored "5-0" "writer" "a.txt" "A" (Ok "5-0/writer/a.txt");
    Acked "Answer to Write." (mkTokenUsage 12 34 0 0 "") {["a.txt" := "5-0/writer/a.txt"]} (Err "connection refused")].
Proof.
  destruct (task_settled_once toy_worker toy_worker_config toy_worker_task 0) as [Hh Hl].
  split; [exact Hh|]. split; [exact Hl|]. vm_compute. reflexivity.
Defined.

(** A task whose id is a time long past is not run. *)
Example stale_task :
  (processTask (H := traced toy_worker) toy_worker_config toy_worker_task (1000000 * Second, [])).2.2 =
  [Read_clock (1000000 * Second); Nacked "stale task: age exceeds timeout" (Ok tt)].
Proof. vm_compute. reflexivity. Qed.
