(* ===== verification/RedisStores.v ===== *)
(** * RedisStores: the token budget and the spend history on Redis
    (runtime/pkg/budget/redisstore/store.go, runtime/pkg/costs/redisstore/spend.go).

    Both keep sorted sets: members with scores.  The server is an interface with the commands they
    use; encoding/json of a spend entry is one too.  The time of an operation is its argument, in
    nanoseconds. *)
From Stdlib Require Import ZArith Lia Ascii.
From stdpp Require Import base tactics option list numbers strings pretty gmap relations.
From S2P Require Import Prelude GoStd Types Costs Guards Queue Trigger Api.

Class SortedSets (W : Type) := {
  ZAdd : string → string → Z → stateful W (result string ());
  (** [ZRemRangeByScore key -inf max]. *)
  ZRemBelow : string → Z → stateful W (result string ());
  (** [ZRange key 0 -1]. *)
  ZMembers : string → stateful W (result string (list string));
  (** [ZRange key min +inf BYSCORE LIMIT 0 count]. *)
  ZFrom : string → Z → nat → stateful W (result string (list string));
  ZExpire : string → Z → stateful W (result string ());
  (** Some keys of a pattern, and the next cursor. *)
  ZScan : N → string → stateful W (result string (list string * N)) }.

(** [t.UnixMilli()]. *)
Definition UnixMilli (t : Z) : Z := t / 1000000.

(** ** The token budget *)
Module Budget.
Record redisStore := mkRedisStore { key : string; limit : Z }.

Section budget.
Context {W : Type} `{SortedSets W}.
Open Scope api_scope.

(** The connection left out. *)
Definition factory (limit : Z) (namespace agentName : string) : redisStore :=
  mkRedisStore ("swarm:budget:" +:+ namespace +:+ ":" +:+ agentName +:+ ":usage") limit.

Definition budget_day : Z := 24 * 3600 * second.

Definition total_of (members : list string) : Z := foldl (λ total m, wrap64 (total + ParseTokens m)) 0 members.

(** [None]: the task may run. *)
Definition Check_ (s : redisStore) (now : Z) : stateful W (option string) :=
  _ <-- ZRemBelow (key s) (UnixMilli (now - budget_day) - 1);
  members <-- ZMembers (key s);
  answer_with (match members with
    | Err _ => None
    | Ok members =>
        let total := total_of members in
        if limit s <=? total
        then Some ("daily token budget exceeded: used " +:+ itoa total +:+ " of " +:+ itoa (limit s) +:+ " tokens in the last 24h")
        else None
    end).

Definition usage_member (taskID : string) (totalTokens : Z) : string := taskID +:+ ":" +:+ itoa totalTokens.

Definition Record_usage (s : redisStore) (now : Z) (taskID : string) (totalTokens : Z) : stateful W (result string ()) :=
  if totalTokens <=? 0 then answer_with (Ok ())
  else
    r <-- ZAdd (key s) (usage_member taskID totalTokens) (UnixMilli now);
    match r with
    | Err e => answer_with (Err ("budget record: " +:+ e))
    | Ok _ => _ <-- ZExpire (key s) (25 * 3600 * second); answer_with (Ok ())
    end.
End budget.
End Budget.

(** ** The spend history *)
Module Spend.
Class SpendJson := {
  marshal_spend : SpendEntry → option string;
  unmarshal_spend : string → option SpendEntry }.

Definition keyPrefix := "swarm:spend:".
Definition globalKey := "swarm:spend:_all".
Definition maxEntries : nat := Z.to_nat 100000.

Section spend.
Context {W : Type} `{SortedSets W} `{SpendJson} `{FoldApi}.
Open Scope api_scope.

Definition team_key (namespace team : string) : string := keyPrefix +:+ namespace +:+ "." +:+ team.

(** The two commands go to the server together; the first error is reported. *)
Definition Record_spend (entry : SpendEntry) : stateful W (result string ()) :=
  match marshal_spend entry with
  | None => answer_with (Err "redisstore: marshal entry: unsupported value")
  | Some data =>
      let score := UnixMilli (Timestamp entry) in
      r1 <-- ZAdd (team_key (entry_Namespace entry) (entry_Team entry)) data score;
      r2 <-- ZAdd globalKey data score;
      answer_with (match r1, r2 with
        | Err e, _ | Ok _, Err e => Err ("redisstore: record: " +:+ e)
        | Ok _, Ok _ => Ok ()
        end)
  end.

(** [None]: no end within the fuel. *)
Fixpoint scan_keys (fuel : nat) (cursor : N) (pattern : string) (keys : list string)
    : stateful W (option (result string (list string))) :=
  match fuel with
  | O => answer_with None
  | S fuel =>
      r <-- ZScan cursor pattern;
      match r with
      | Err e => answer_with (Some (Err ("redisstore: scan keys: " +:+ e)))
      | Ok (batch, next) =>
          if decide (next = 0%N) then answer_with (Some (Ok (keys ++ batch)))
          else scan_keys fuel next pattern (keys ++ batch)
      end
  end.

Definition scope_keys (fuel : nat) (scope : SpendScope) : stateful W (option (result string (list string))) :=
  if decide (scope_Namespace scope ≠ "" ∧ scope_Team scope ≠ "")
  then answer_with (Some (Ok [team_key (scope_Namespace scope) (scope_Team scope)]))
  else if decide (scope_Namespace scope ≠ "") then scan_keys fuel 0 (keyPrefix +:+ scope_Namespace scope +:+ ".*") []
  else answer_with (Some (Ok [globalKey])).

(** The entries that can be read and are of the model, if one is asked for. *)
Definition wanted_entry (scope : SpendScope) (v : string) : option SpendEntry :=
  e ← unmarshal_spend v;
  if decide (scope_Model scope ≠ "" ∧ strings_EqualFold (entry_Model e) (scope_Model scope) = false) then None else Some e.

Fixpoint fetch_keys (scope : SpendScope) (minScore : Z) (keys : list string) (all : list SpendEntry)
    : stateful W (result string (list SpendEntry)) :=
  match keys with
  | [] => answer_with (Ok all)
  | key :: rest =>
      vals <-- ZFrom key minScore maxEntries;
      match vals with
      | Err e => answer_with (Err ("redisstore: zrangebyscore " +:+ Quote key +:+ ": " +:+ e))
      | Ok vals => fetch_keys scope minScore rest (all ++ omap (wanted_entry scope) vals)
      end
  end.

Definition fetchEntries (fuel : nat) (scope : SpendScope) (since : Z)
    : stateful W (option (result string (list SpendEntry))) :=
  keys <-- scope_keys fuel scope;
  match keys with
  | None => answer_with None
  | Some (Err e) => answer_with (Some (Err e))
  | Some (Ok keys) => r <-- fetch_keys scope (UnixMilli since) keys []; answer_with (Some r)
  end.

Definition total_cost (entries : list SpendEntry) : f64 := foldl (λ total e, f64_add total (CostUSD e)) f64_zero entries.

Definition Total_spend (fuel : nat) (scope : SpendScope) (since : Z) : stateful W (option (result string f64)) :=
  entries <-- fetchEntries fuel scope since;
  answer_with (match entries with
    | None => None
    | Some (Err e) => Some (Err e)
    | Some (Ok entries) => Some (Ok (total_cost entries))
    end).

Definition add_to_bucket (period : Period) (buckets : gmap roll_key RollupEntry) (e : SpendEntry)
    : gmap roll_key RollupEntry :=
  let k := key_of period e in <[k := roll_add e (default (empty_bucket k) (buckets !! k))]> buckets.

(** In the order in which the buckets are ranged over. *)
Definition aggregate_spend (entries : list SpendEntry) (period : Period) (order : list roll_key) : list RollupEntry :=
  omap (λ k, foldl (add_to_bucket period) ∅ entries !! k) order.

Definition Rollup_spend (fuel : nat) (scope : SpendScope) (period : Period) (since : Z) (order : list roll_key)
    : stateful W (option (result string (list RollupEntry))) :=
  entries <-- fetchEntries fuel scope since;
  answer_with (match entries with
    | None => None
    | Some (Err e) => Some (Err e)
    | Some (Ok entries) => Some (Ok (aggregate_spend entries period order))
    end).
End spend.
End Spend.
