(* ===== verification/RedisStoreProps.v ===== *)
(** * RedisStoreProps: the stores on Redis answer for what was recorded.

    The token budget is the tokens of the last day of what was recorded, whatever was pruned, the same
    task with the same tokens once;
    the spend history gives every entry of a scope since a time, as long as there are not more
    than it reads at once: past that the newest entries are missing. *)
From Stdlib Require Import ZArith Lia Ascii.
From stdpp Require Import base tactics option list numbers strings pretty gmap relations sorting.
From S2P Require Import Prelude GoStd Types Costs Guards Queue Trigger Api Runtime Wire Runner AgentController RedisQueue RedisProps RedisStores.

(** ** What one sees of the sorted sets *)
Notation zset := (gmap string Z) (only parsing).
Definition updates (key : string) (f : zset → zset) (v v' : string → zset) : Prop :=
  v' key = f (v key) ∧ ∀ k, k ≠ key → v' k = v k.
Definition members_from (min : Z) (z : zset) : zset := filter (λ kv, min ≤ kv.2) z.
Definition names (z : zset) : list string := fst <$> map_to_list z.

Class SortedSetLaws {W : Type} (R : SortedSets W) := {
  zsets : W → string → zset;
  ZAdd_law : ∀ key m s w, runs (ZAdd key m s) w
    (λ r w', carried r (λ _, updates key <[m := s]>) (zsets w) (zsets w'));
  ZRemBelow_law : ∀ key max w, runs (ZRemBelow key max) w
    (λ r w', carried r (λ _, updates key (members_from (max + 1))) (zsets w) (zsets w'));
  ZMembers_law : ∀ key w, runs (ZMembers key) w
    (λ r w', zsets w' = zsets w ∧ ∀ l, r = Ok l → l ≡ₚ names (zsets w key));
  (** In the order of the scores. *)
  ZFrom_law : ∀ key min n w, runs (ZFrom key min n) w
    (λ r w', zsets w' = zsets w ∧ ∀ l, r = Ok l → ∃ all, l = take n all ∧ all ≡ₚ names (members_from min (zsets w key)) ∧
       Sorted (λ a b, default 0 (zsets w key !! a) ≤ default 0 (zsets w key !! b)) all);
  ZExpire_law : ∀ key d w, runs (ZExpire key d) w (λ _ w', zsets w' = zsets w);
  ZScan_law : ∀ cursor pattern w, runs (ZScan cursor pattern) w (λ _ w', zsets w' = zsets w) }.

(** ** The token budget *)
Section budget.
Import Budget.
Context {W : Type} `{R : SortedSets W} {RL : SortedSetLaws R}.
Variable s : redisStore.

(** What was recorded: the time in nanoseconds, the task and its tokens; and when each pair of a task
    and an amount was recorded last. *)
Notation record := (Z * string * Z)%type.



Definition members_tokens (members : list string) : Z := foldr (λ m total, ParseTokens m + total) 0 members.



#[export] Instance members_tokens_perm : Proper ((≡ₚ) ==> (=)) members_tokens.
Proof. induction 1; simpl; lia. Qed.




















End budget.

(** ** The spend history *)
Class SpendJsonLaws (J : Spend.SpendJson) : Prop :=
  unmarshal_marshal : ∀ e data, Spend.marshal_spend e = Some data → Spend.unmarshal_spend data = Some e.

Section spend.
Import Spend.
Context {W : Type} `{R : SortedSets W} {RL : SortedSetLaws R} `{J : SpendJson} {JL : SpendJsonLaws J} `{FA : FoldApi}.

Inductive spend_step : W * list SpendEntry → W * list SpendEntry → Prop :=
| spend_record w log e w' : Record_spend e w = (Ok (), w') → spend_step (w, log) (w', log ++ [e])
| spend_read w log fuel scope since r w' : fetchEntries fuel scope since w = (r, w') → spend_step (w, log) (w', log).

(** A key holds the entries that belong to it. *)
Definition holds (belongs : SpendEntry → Prop) (z : zset) (log : list SpendEntry) : Prop :=
  ∀ data t, z !! data = Some t ↔ ∃ e, e ∈ log ∧ belongs e ∧ marshal_spend e = Some data ∧ t = UnixMilli (Timestamp e).
Definition of_key (key : string) (e : SpendEntry) : Prop := team_key (entry_Namespace e) (entry_Team e) = key ∨ key = globalKey.

Lemma marshal_inj e e' data : marshal_spend e = Some data → marshal_spend e' = Some data → e = e'.
Proof. intros E%unmarshal_marshal E'%unmarshal_marshal. rewrite E in E'. by injection E'. Qed.

Lemma holds_add belongs z log e data : belongs e → marshal_spend e = Some data →
  holds belongs z log → holds belongs (<[data := UnixMilli (Timestamp e)]> z) (log ++ [e]).
Proof.
  intros Hb Hm H d t. destruct (decide (data = d)) as [<-|Hd].
  - rewrite lookup_insert_eq. split; [intros [= <-]; exists e; set_solver|].
    intros (e' & _ & _ & Hm' & ->). by rewrite (marshal_inj _ _ _ Hm Hm').
  - rewrite lookup_insert_ne, (H d t) by done. split; [intros (e' & ? & ?); exists e'; set_solver|].
    intros (e' & [Hin| ->%list_elem_of_singleton]%elem_of_app & Hb' & Hm' & Ht); [by exists e'|congruence].
Qed.
Lemma holds_skip belongs z log e : ¬ belongs e → holds belongs z log → holds belongs z (log ++ [e]).
Proof.
  intros Hb H d t. rewrite (H d t). split; [intros (e' & ? & ?); exists e'; set_solver|].
  intros (e' & [Hin| ->%list_elem_of_singleton]%elem_of_app & Hb' & ?); [by exists e'|done].
Qed.

Definition kept_spend (w : W) (log : list SpendEntry) : Prop := ∀ key, holds (of_key key) (zsets w key) log.

Lemma record_holds w log e : kept_spend w log → runs (Record_spend e) w (λ r w', r = Ok () → kept_spend w' (log ++ [e])).
Proof.
  intros K. unfold Record_spend. destruct (marshal_spend e) as [data|] eqn:Em; [|by apply runs_answer].
  apply runs_then. eapply runs_weaken; [apply ZAdd_law|]. intros r1 w1 H1.
  apply runs_then. eapply runs_weaken; [apply ZAdd_law|]. intros r2 w2 H2. apply runs_answer.
  destruct r1 as [[]|], r2 as [[]|]; try done. intros _. destruct H1 as [A1 B1], H2 as [A2 B2]. intros key.
  set (tk := team_key (entry_Namespace e) (entry_Team e)) in *. set (t := UnixMilli (Timestamp e)) in *.
  destruct (decide (of_key key e)) as [Hk|Hk].
  - assert (zsets w2 key = <[data := t]> (zsets w key)) as ->; [|by apply holds_add].
    destruct (decide (key = globalKey)) as [->|Hg].
    + rewrite A2. destruct (decide (globalKey = tk)) as [E|E]; [|by rewrite (B1 _ E)].
      by rewrite <- E in A1; rewrite A1, insert_insert_eq.
    + destruct Hk as [<-|]; [|done]. by rewrite (B2 _ Hg).
  - assert (key ≠ globalKey ∧ key ≠ tk) as [Hg Ht] by (unfold of_key in Hk; naive_solver).
    rewrite (B2 _ Hg), (B1 _ Ht). by apply holds_skip.
Qed.

Lemma scan_same fuel cursor pattern keys w : runs (scan_keys fuel cursor pattern keys) w (λ _ w', zsets w' = zsets w).
Proof.
  revert cursor keys w. induction fuel as [|fuel IH]; intros cursor keys w; simpl; [done|].
  apply runs_then. eapply runs_weaken; [apply ZScan_law|]. intros [[batch next]|e] w1 E; cbv beta; [|by apply runs_answer].
  case_decide; [by apply runs_answer|]. eapply runs_weaken; [apply IH|]. intros a w2 E2. by rewrite E2.
Qed.
Lemma fetch_same scope min keys all w : runs (fetch_keys scope min keys all) w (λ _ w', zsets w' = zsets w).
Proof.
  revert all w. induction keys as [|key keys IH]; intros all w; simpl; [done|].
  apply runs_then. eapply runs_weaken; [apply ZFrom_law|]. intros [vals|e] w1 [E _]; [|by apply runs_answer].
  eapply runs_weaken; [apply IH|]. intros a w2 E2. by rewrite E2.
Qed.
Lemma fetchEntries_same fuel scope since w : runs (fetchEntries fuel scope since) w (λ _ w', zsets w' = zsets w).
Proof.
  unfold fetchEntries. apply runs_then. apply (runs_weaken _ _ (λ _ w', zsets w' = zsets w)).
  - unfold scope_keys. repeat case_decide; [done|apply scan_same|done].
  - intros [[keys|e]|] w1 E; [|by apply runs_answer..]. apply runs_then. eapply runs_weaken; [apply fetch_same|].
    intros r w2 E2. apply runs_answer. by rewrite E2.
Qed.

Lemma spend_step_kept x y : spend_step x y → kept_spend x.1 x.2 → kept_spend y.1 y.2.
Proof.
  destruct 1 as [w log e w' E|w log fuel scope since r w' E]; simpl; intros K.
  - pose proof (record_holds w log e K) as P. unfold runs in P. rewrite E in P. by apply P.
  - pose proof (fetchEntries_same fuel scope since w) as P. unfold runs in P. rewrite E in P. simpl in P.
    unfold kept_spend. by rewrite P.
Qed.

(** *** Reading a key *)
Definition model_ok (scope : SpendScope) (e : SpendEntry) : Prop :=
  scope_Model scope = "" ∨ strings_EqualFold (entry_Model e) (scope_Model scope) = true.
Lemma wanted_entry_spec scope data e e' : marshal_spend e = Some data →
  wanted_entry scope data = Some e' ↔ e' = e ∧ model_ok scope e.
Proof.
  intros E%unmarshal_marshal. unfold wanted_entry, model_ok. rewrite E. cbn [mbind option_bind].
  destruct (decide (scope_Model scope = "")), (strings_EqualFold _ _) eqn:Ef; case_decide; naive_solver.
Qed.

(** What was recorded under a key from a time on. *)
Definition since_under (key : string) (min : Z) (log : list SpendEntry) : list SpendEntry :=
  filter (λ e, of_key key e ∧ min ≤ UnixMilli (Timestamp e)) log.

Lemma names_elem z d : d ∈ names z ↔ is_Some (z !! d).
Proof.
  unfold names. rewrite list_elem_of_fmap. split.
  - intros ([k t] & -> & Hin%elem_of_map_to_list). eauto.
  - intros [t Ht]. exists (d, t). split; [done|by apply elem_of_map_to_list].
Qed.
Lemma names_NoDup z : NoDup (names z).
Proof. apply NoDup_fst_map_to_list. Qed.

Lemma names_from key min w log d : kept_spend w log →
  d ∈ names (members_from min (zsets w key)) ↔ ∃ e, e ∈ since_under key min log ∧ marshal_spend e = Some d.
Proof.
  intros K. rewrite names_elem. unfold members_from, since_under. split.
  - intros [t [E Ht]%map_lookup_filter_Some]. apply K in E as (e & Hin & Hk & Hm & ->). exists e.
    split; [by apply list_elem_of_filter|done].
  - intros (e & [[Hk Hm] Hin]%list_elem_of_filter & Hd). exists (UnixMilli (Timestamp e)). apply map_lookup_filter_Some.
    split; [apply K; by exists e|done].
Qed.

Lemma NoDup_omap_marshal {f : string → option SpendEntry} l : NoDup l →
  (∀ d e, d ∈ l → f d = Some e → marshal_spend e = Some d) → NoDup (omap f l).
Proof.
  induction 1 as [|d l Hd Hn IH]; intros Hf; simpl; [constructor|].
  destruct (f d) as [e|] eqn:E; [|apply IH; set_solver]. constructor; [|apply IH; set_solver].
  intros (d' & Hd' & E')%list_elem_of_omap. assert (marshal_spend e = Some d) by (apply Hf; [left|done]).
  assert (marshal_spend e = Some d') by (apply Hf; [by right|done]). congruence.
Qed.
Lemma length_omap_le {A B} (f : A → option B) l : (length (omap f l) ≤ length l)%nat.
Proof.
  induction l as [|x l IH]; [done|]. change (omap f (x :: l)) with (match f x with Some y => y :: omap f l | None => omap f l end).
  destruct (f x); simpl; lia.
Qed.

Lemma score_of key w log e d min : kept_spend w log → e ∈ since_under key min log → marshal_spend e = Some d →
  default 0 (zsets w key !! d) = UnixMilli (Timestamp e).
Proof.
  intros K [[Hk Hm] Hin]%list_elem_of_filter Hd.
  assert (zsets w key !! d = Some (UnixMilli (Timestamp e))) as -> by (apply K; by exists e). done.
Qed.

(** What is read of a key: nothing else, everything if it is not too much, and otherwise the oldest. *)
Lemma read_key scope key min w log vals w' : kept_spend w log → ZFrom key min maxEntries w = (Ok vals, w') →
  let l := omap (wanted_entry scope) vals in
  NoDup l ∧ (∀ e, e ∈ l → e ∈ since_under key min log ∧ model_ok scope e) ∧
  (∀ e, e ∈ since_under key min log → model_ok scope e → is_Some (marshal_spend e) → e ∉ l →
     (maxEntries < length (since_under key min log))%nat ∧
     ∀ e', e' ∈ l → UnixMilli (Timestamp e') ≤ UnixMilli (Timestamp e)).
Proof.
  intros K E l. pose proof (ZFrom_law key min maxEntries w) as P. unfold runs in P. rewrite E in P. simpl in P.
  destruct P as [_ P]. destruct (P vals eq_refl) as (all & Hv & Hp & Hs). clear P E.
  assert (Hl : ∀ e, e ∈ l ↔ ∃ d, d ∈ vals ∧ marshal_spend e = Some d ∧ e ∈ since_under key min log ∧ model_ok scope e).
  { intros e. unfold l. rewrite list_elem_of_omap. split; intros (d & Hd & Hx).
    - assert (Hin : d ∈ all) by (rewrite <- (take_drop maxEntries all); subst vals; set_solver). rewrite Hp in Hin.
      apply (names_from _ _ _ _ _ K) in Hin as (e0 & He & Hm). destruct (proj1 (wanted_entry_spec _ _ _ _ Hm) Hx) as [He0 Ho]; subst e0.
      by exists d.
    - exists d. split; [done|]. destruct Hx as (Hm & _ & Ho). by apply (wanted_entry_spec scope d e e Hm). }
  assert (Hall : NoDup all) by (rewrite Hp; apply names_NoDup).
  split; [|split].
  - unfold l. apply NoDup_omap_marshal; [subst vals; rewrite <- (take_drop maxEntries all) in Hall; by apply NoDup_app in Hall as [? _]|].
    intros d e Hd Hx. assert (Hin : d ∈ all) by (rewrite <- (take_drop maxEntries all); subst vals; set_solver).
    rewrite Hp in Hin. apply (names_from _ _ _ _ _ K) in Hin as (e0 & He & Hm).
    by destruct (proj1 (wanted_entry_spec _ _ _ _ Hm) Hx) as [He0 Ho]; subst e0.
  - intros e (d & _ & _ & H)%Hl. exact H.
  - intros e He Ho [d Hm] Hnot. assert (Hd : d ∈ all) by (rewrite Hp; apply (names_from _ _ _ _ _ K); by exists e).
    rewrite <- (take_drop maxEntries all) in Hd. apply elem_of_app in Hd as [Hd|Hd].
    { destruct Hnot. apply Hl. exists d. by subst vals. }
    split.
    + assert (length all ≤ length (since_under key min log))%nat.
      { etransitivity; [apply (submseteq_length _ (omap marshal_spend (since_under key min log)))|apply length_omap_le].
        apply NoDup_submseteq; [done|]. intros x Hx. rewrite Hp in Hx. apply (names_from _ _ _ _ _ K) in Hx.
        by apply list_elem_of_omap. }
      assert (0 < length (drop maxEntries all))%nat by (destruct (drop maxEntries all); [by apply elem_of_nil in Hd|simpl; lia]).
      rewrite length_drop in *. lia.
    + intros e' (d' & Hd' & Hm' & He' & _)%Hl. subst vals.
      apply Sorted_StronglySorted in Hs; [|intros x y z; lia]. rewrite <- (take_drop maxEntries all) in Hs.
      apply StronglySorted_app in Hs as (Hs & _). specialize (Hs d' d Hd' Hd).
      by rewrite (score_of key w log e' d' min), (score_of key w log e d min) in Hs.
Qed.

Lemma fetch_one scope key min w : runs (fetch_keys scope min [key] []) w (λ r _, ∀ l, r = Ok l →
  ∃ vals w', ZFrom key min maxEntries w = (Ok vals, w') ∧ l = omap (wanted_entry scope) vals).
Proof.
  simpl. unfold runs, and_then. destruct (ZFrom key min maxEntries w) as [[vals|e] w'] eqn:E; simpl; [|done].
  intros l [= <-]. by exists vals, w'.
Qed.

(** A team has a key of its own: namespaces have no dots. *)
Definition dotless (s : string) : Prop := str_all (λ c, negb (Ascii.eqb c ".")) s = true.
Lemma team_key_inj ns team ns' team' : dotless ns → dotless ns' → team_key ns team = team_key ns' team' → ns = ns' ∧ team = team'.
Proof.
  unfold team_key, keyPrefix. intros H H' E%(inj (String.append _)). revert ns' H' E.
  induction ns as [|c ns IH]; intros [|c' ns'] H' E; simpl in E.
  - by injection E.
  - injection E as <- _. discriminate H'.
  - injection E as -> _. discriminate H.
  - injection E as <- E. apply andb_true_iff in H as [_ H], H' as [_ H'].
    by destruct (IH H ns' H' E) as [-> ->].
Qed.
Lemma team_key_global ns team : team_key ns team ≠ globalKey.
Proof.
  unfold team_key, globalKey, keyPrefix. change "swarm:spend:_all" with ("swarm:spend:" +:+ "_all").
  intros E%(inj (String.append _)). by destruct ns as [|? [|? [|? [|? [|? ns]]]]].
Qed.
Lemma filter_on {A} (P Q : A → Prop) `{∀ x, Decision (P x), ∀ x, Decision (Q x)} (l : list A) :
  (∀ x, x ∈ l → P x ↔ Q x) → filter P l = filter Q l.
Proof.
  induction l as [|x l IH]; intros Hl; [done|]. rewrite !filter_cons. rewrite IH by set_solver.
  assert (P x ↔ Q x) by (apply Hl; left). do 2 case_decide; naive_solver.
Qed.

Definition of_team (scope : SpendScope) (since : Z) (e : SpendEntry) : Prop :=
  entry_Namespace e = scope_Namespace scope ∧ entry_Team e = scope_Team scope ∧
  UnixMilli since ≤ UnixMilli (Timestamp e).

(** C16: the spend history of a team, whatever was recorded and read before: what is read since a time
    is entries of the team that were recorded and are not older than the millisecond of that time, of
    the model that was asked for, each once; it is all of them unless there are more than 100000, and
    then the newest are missing. *)
Theorem spend_of_team fuel scope since w0 w log :
  (∀ key, zsets w0 key = ∅) → rtc spend_step (w0, []) (w, log) →
  scope_Namespace scope ≠ "" → scope_Team scope ≠ "" → dotless (scope_Namespace scope) →
  Forall (λ e, dotless (entry_Namespace e) ∧ is_Some (marshal_spend e)) log →
  runs (fetchEntries fuel scope since) w (λ r _, ∀ l, r = Some (Ok l) →
    NoDup l ∧ (∀ e, e ∈ l → e ∈ log ∧ of_team scope since e ∧ model_ok scope e) ∧
    ∀ e, e ∈ log → of_team scope since e → model_ok scope e → e ∉ l →
      (maxEntries < length (filter (of_team scope since) log))%nat ∧
      ∀ e', e' ∈ l → UnixMilli (Timestamp e') ≤ UnixMilli (Timestamp e)).
Proof.
  intros H0 Hsteps Hn Ht Hd Hlog.
  assert (I : ∀ x y, rtc spend_step x y → kept_spend x.1 x.2 → kept_spend y.1 y.2).
  { induction 1 as [|x y z Hxy _ IH]; [done|]. intros K. apply IH. by eapply spend_step_kept. }
  assert (K : kept_spend w log).
  { apply (I _ _ Hsteps). intros key data t. simpl. rewrite H0, lookup_empty. split; [done|].
    intros (e & []%elem_of_nil & _). }
  set (key := team_key (scope_Namespace scope) (scope_Team scope)).
  assert (Hu : ∀ e, e ∈ log → of_key key e ∧ UnixMilli since ≤ UnixMilli (Timestamp e) ↔ of_team scope since e).
  { intros e He. rewrite Forall_forall in Hlog. destruct (Hlog e He) as [He' _]. unfold of_key, of_team. split.
    - intros [[E|E] Hm]; [|by apply team_key_global in E]. by destruct (team_key_inj _ _ _ _ He' Hd E).
    - intros (-> & -> & Hm). auto. }
  assert (Ef : since_under key (UnixMilli since) log = filter (of_team scope since) log).
  { unfold since_under. by apply filter_on. }
  unfold fetchEntries, scope_keys. rewrite decide_True by done. simpl.
  apply runs_then, runs_answer. cbv beta iota. apply runs_then. eapply runs_weaken; [apply fetch_one|].
  intros r w' Hr. apply runs_answer. intros l [= ->]. destruct (Hr l eq_refl) as (vals & w1 & E & ->).
  destruct (read_key scope key (UnixMilli since) w log vals w1 K E) as (R1 & R2 & R3). split; [exact R1|]. split.
  - intros e He. destruct (R2 e He) as [[Hk Hin]%list_elem_of_filter Ho]. split; [done|]. split; [by apply Hu|done].
  - intros e He Hs Ho Hnot. rewrite <- Ef. apply R3; [|done| |done].
    + rewrite Ef. by apply list_elem_of_filter.
    + rewrite Forall_forall in Hlog. by apply Hlog.
Qed.
End spend.

(** ** The stores on concrete sorted sets *)
Notation sets := (gmap string (gmap string Z)) (only parsing).
Definition set_of (w : sets) (key : string) : gmap string Z := default ∅ (w !! key).
Definition by_score (z : gmap string Z) (a b : string) : Prop := default 0 (z !! a) ≤ default 0 (z !! b).
#[local] Instance by_score_dec z a b : Decision (by_score z a b).
Proof. unfold by_score. apply _. Defined.
#[local] Instance by_score_total z : base.Total (by_score z).
Proof. intros a b. unfold by_score. lia. Qed.

#[local] Instance sample_sets : SortedSets sets := {|
  ZAdd key m s w := (Ok (), <[key := <[m := s]> (set_of w key)]> w);
  ZRemBelow key max w := (Ok (), <[key := members_from (max + 1) (set_of w key)]> w);
  ZMembers key w := (Ok (names (set_of w key)), w);
  ZFrom key min n w := (Ok (take n (merge_sort (by_score (set_of w key)) (names (members_from min (set_of w key))))), w);
  ZExpire _ _ w := (Ok (), w);
  ZScan _ pattern w :=
    (Ok (filter (λ k, HasPrefix k (str_take (String.length pattern - 1) pattern) = true) (keys_of w), 0%N), w) |}.

Lemma sets_updated (w : sets) key f : updates key f (set_of w) (set_of (<[key := f (set_of w key)]> w)).
Proof.
  split; unfold set_of; [by rewrite lookup_insert_eq|]. intros k Hk. by rewrite lookup_insert_ne.
Qed.

#[local, refine] Instance sample_set_laws : SortedSetLaws sample_sets := {| zsets := set_of |}.
Proof.
  - intros key m s w. apply sets_updated.
  - intros key max w. apply sets_updated.
  - intros key w. split; [done|]. by intros l [= <-].
  - intros key min n w. split; [done|]. intros l [= <-]. eexists. split; [done|]. split; [apply merge_sort_Permutation|].
    exact (Sorted_merge_sort (by_score (set_of w key)) _).
  - done.
  - done.
Defined.



(** ** The spend history *)
#[local] Existing Instances toy_json_text toy_json_text_laws toy_fold_case.

(** Entries without a price, as lists. *)
Definition spend_json (e : SpendEntry) : json :=
  JArray [JInt (Timestamp e); JString (entry_Namespace e); JString (entry_Team e); JString (RunName e);
          JString (StepName e); JString (entry_Model e); JInt (Costs.entry_InputTokens e); JInt (Costs.entry_OutputTokens e)].
Definition unpriced (e : SpendEntry) : bool := match CostUSD e with SpecFloat.S754_zero false => true | _ => false end.
Definition spend_text (e : SpendEntry) : option string :=
  if unpriced e && writable (spend_json e) then Some (json_text (spend_json e)) else None.
Definition read_spend (s : string) : option SpendEntry :=
  match json_parse s with
  | Some (JArray [JInt t; JString ns; JString team; JString run; JString step; JString model; JInt i; JInt o]) =>
      Some (mkSpendEntry t ns team run step model i o f64_zero)
  | _ => None
  end.
#[local] Instance sample_spend_json : Spend.SpendJson := {|
  Spend.marshal_spend := spend_text;
  Spend.unmarshal_spend := read_spend |}.
#[local] Instance sample_spend_laws : SpendJsonLaws sample_spend_json.
Proof.
  intros e data. change (spend_text e = Some data → read_spend data = Some e). unfold spend_text, read_spend.
  destruct (unpriced e) eqn:Eu; [|done]. destruct (writable (spend_json e)) eqn:Ew; [|done]. cbn [andb]. intros <-%(inj Some).
  rewrite (json_roundtrip (spend_json e) Ew). unfold spend_json. destruct e as [? ? ? ? ? ? ? ? c]. unfold unpriced in Eu.
  simpl in *. by destruct c as [[]| | |].
Qed.

Definition sample_spend (t : Z) (team : string) : SpendEntry :=
  mkSpendEntry t "ns" team "run" "step" "model" 10 20 f64_zero.
Definition spent_one : sets := (Spend.Record_spend (sample_spend (10 * second) "writers") ∅).2.
Definition spent_two : sets := (Spend.Record_spend (sample_spend (20 * second) "readers") spent_one).2.

Lemma spend_of_team_witness :
  let scope := mkSpendScope "ns" "writers" "" in
  (Spend.fetchEntries 1 scope second spent_two).1 = Some (Ok [sample_spend (10 * second) "writers"]) ∧
  ∀ e, e ∈ [sample_spend (10 * second) "writers"] →
    e ∈ [sample_spend (10 * second) "writers"; sample_spend (20 * second) "readers"] ∧ of_team scope second e ∧ model_ok scope e.
Proof.
  intros scope. assert (E : (Spend.fetchEntries 1 scope second spent_two).1 = Some (Ok [sample_spend (10 * second) "writers"]))
    by (vm_compute; reflexivity).
  split; [exact E|].
  assert (Hs : rtc spend_step (∅, []) (spent_two, [sample_spend (10 * second) "writers"; sample_spend (20 * second) "readers"])).
  { apply (rtc_l _ _ (spent_one, [sample_spend (10 * second) "writers"])).
    - apply (spend_record ∅ [] (sample_spend (10 * second) "writers")). reflexivity.
    - apply rtc_once. apply (spend_record spent_one [_] (sample_spend (20 * second) "readers")). reflexivity. }
  assert (Hl : Forall (λ e, dotless (entry_Namespace e) ∧ is_Some (Spend.marshal_spend e))
    [sample_spend (10 * second) "writers"; sample_spend (20 * second) "readers"])
    by (repeat apply Forall_cons_2; [split; [reflexivity|eexists; vm_compute; reflexivity]..|apply Forall_nil_2]).
  assert (Hn : scope_Namespace scope ≠ "") by (vm_compute; discriminate).
  assert (Ht : scope_Team scope ≠ "") by (vm_compute; discriminate).
  exact (proj1 (proj2 (spend_of_team (RL := sample_set_laws) 1 scope second ∅ _ _ (λ _, eq_refl) Hs Hn Ht eq_refl Hl _ E))).
Defined.
