(* ===== verification/McpGateway.v ===== *)
(** * McpGateway: agents as MCP tools (internal/mcpgateway/gateway.go, handler.go).

    The paths, the JSON-RPC methods, the listing and the calls of tools with their polling, and the
    sessions of the event streams.  Time, contexts and queues are those of the runtime's world;
    reading an agent, opening a queue, encoding/json and the input schema of a capability, which is
    free JSON, are interfaces.  Sessions run concurrently and are a step relation, with a step for
    each access to what they share; what HTTP does with an answer is left out. *)
From Stdlib Require Import ZArith Lia Ascii.
From stdpp Require Import base tactics option list numbers strings pretty gmap relations.
From S2P Require Import Prelude GoStd Types AgentTypes Kube Queue Runtime Trigger AgentEnv.

Definition errCodeTimeout : Z := -32001.
Definition errCodeNoReplicas : Z := -32002.
Definition errCodeNotFound : Z := -32601.
Definition errCodeInternal : Z := -32603.
Definition defaultToolTimeout : Z := 120 * Second.
Definition pollInterval : Z := 500000000.
Definition maxSSESessions : nat := 50.

(** ** Paths *)
Definition GatewayURL (baseURL namespace agentName : string) : string :=
  baseURL +:+ "/namespaces/" +:+ namespace +:+ "/agents/" +:+ agentName.

Definition parsePath (path : string) : option (string * string * string) :=
  match split_byte slash (TrimSlash path) with
  | a :: ns :: b :: name :: ep :: rest =>
      if bool_decide (a ≠ "namespaces" ∨ b ≠ "agents" ∨ ns = "" ∨ name = "" ∨ ep = "") then None
      else match rest with
           | [] => Some (ns, name, ep)
           | [ep2] => if decide (ep2 = "") then None else Some (ns, name, ep +:+ "/" +:+ ep2)
           | _ => None
           end
  | _ => None
  end.

Inductive route_answer :=
| Healthy
| RouteSSE (ns name : string)
| RouteMessage (ns name : string)
| RouteToolsList (ns name : string)
| RouteToolsCall (ns name : string)
| RouteNotFound.

(** [ServeHTTP]. *)
Definition serve (method path : string) : route_answer :=
  if decide (path = "/healthz") then Healthy
  else match parsePath path with
       | None => RouteNotFound
       | Some (ns, name, ep) =>
           if bool_decide (method = "GET" ∧ ep = "sse") then RouteSSE ns name
           else if bool_decide (method = "POST" ∧ ep = "message") then RouteMessage ns name
           else if bool_decide (method = "POST" ∧ ep = "tools/list") then RouteToolsList ns name
           else if bool_decide (method = "POST" ∧ ep = "tools/call") then RouteToolsCall ns name
           else RouteNotFound
       end.

(** ** JSON-RPC *)
Record mcpTool := mkMcpTool { tool_Name : string; tool_Description : string; tool_InputSchema : string }.

Inductive rpc_result :=
| Initialized
| Ponged
| ToolsListed (tools : list mcpTool)
| ToolCalled (text : string) (isError : bool).

Record jsonRPCError := mkRPCError { rpc_Code : Z; rpc_Message : string }.
Notation jsonRPCResponse := (result jsonRPCError rpc_result) (only parsing).
Definition errResponse (code : Z) (msg : string) : jsonRPCResponse := Err (mkRPCError code msg).

Class GatewayApi `{World} := {
  get_agent : string → string → world → result string SwarmAgent * world;
  NewQueue : string → world → result string TaskQueue * world;
  (** The name and the arguments of a call, as they were written. *)
  unmarshal_call : string → option (string * string);
  (** The bytes of the schema; empty without one. *)
  input_schema : AgentCapability → string;
  duration_String : Z → string }.

Section gateway.
Context `{W : World} `{GA : !GatewayApi}.
Variable taskQueueURL : string.

Definition buildToolList (agent : SwarmAgent) : list mcpTool :=
  (λ c, mkMcpTool (cap_Name c) (cap_Description c)
          (if decide (input_schema c = "") then "{" +:+ Quote "type" +:+ ":" +:+ Quote "object" +:+ "}" else input_schema c)) <$>
  filter (λ c, ExposeMCP c = true) (Capabilities (agent_Spec agent)).

Definition findCapability (agent : SwarmAgent) (toolName : string) : option AgentCapability :=
  List.find (λ c, ExposeMCP c && String.eqb (cap_Name c) toolName) (Capabilities (agent_Spec agent)).

Definition nl : string := String (ascii_of_nat 10) "".

Definition buildPrompt (c : AgentCapability) (args : string) : string :=
  let argsStr := if decide (args = "" ∨ args = "null") then "{}" else args in
  if decide (cap_Description c = "")
  then "Tool: " +:+ cap_Name c +:+ nl +:+ "Arguments: " +:+ argsStr
  else "Tool: " +:+ cap_Name c +:+ nl +:+ "Description: " +:+ cap_Description c +:+ nl +:+ "Arguments: " +:+ argsStr.

Definition agentTimeout (agent : SwarmAgent) : Z :=
  match Guardrails (agent_Spec agent) ≫= guard_Limits with
  | Some l => if 0 <? limits_TimeoutSeconds l then wrap64 (limits_TimeoutSeconds l * Second) else defaultToolTimeout
  | None => defaultToolTimeout
  end.

Definition call_queue_url (agent : SwarmAgent) : string :=
  let url := agent_annotation agent AnnotationTeamQueueURL in
  if decide (url = "") then taskQueueURL else url.

(** The queues that are open, by their URLs. *)
Notation queues := (gmap string TaskQueue) (only parsing).

Definition queueFor (url : string) (qs : queues) (w : world) : result string TaskQueue * queues * world :=
  match qs !! url with
  | Some tq => (Ok tq, qs, w)
  | None =>
      let '(r, w) := NewQueue url w in
      match r with
      | Err e => (Err ("opening queue for " +:+ Quote url +:+ ": " +:+ e), qs, w)
      | Ok tq => (Ok tq, <[url := tq]> qs, w)
      end
  end.

Definition call_answer (r : TaskResult) : rpc_result :=
  if decide (res_Error r = "") then ToolCalled (res_Output r) false else ToolCalled (res_Error r) true.

(** [None] when the fuel runs out. *)
Fixpoint poll_call (fuel : nat) (ctx : Ctx) (tq : TaskQueue) (taskID : string) (timeout deadline : Z) (w : world)
    : option (jsonRPCResponse * world) :=
  match fuel with
  | O => None
  | S fuel =>
      let '(now, w) := time_Now w in
      if deadline <? now
      then Some (errResponse errCodeTimeout ("agent tool call timed out after " +:+ duration_String timeout), w)
      else
        let '(r, w) := q_Results ctx tq [taskID] w in
        match r with
        | Ok (r :: _) => Some (Ok (call_answer r), w)
        | Ok [] | Err _ =>
            let w := wait ctx pollInterval w in
            match ctx_Err ctx w with
            | Some _ => Some (errResponse errCodeInternal "request cancelled", w)
            | None => poll_call fuel ctx tq taskID timeout deadline w
            end
        end
  end.

(** A pass every half second of the timeout, and three more. *)
Definition call_fuel (timeout : Z) : nat := Z.to_nat (timeout / pollInterval) + 3.

Definition call_meta (ns agentName tool : string) : gmap string string :=
  {["source" := "mcp-gateway"; "agent" := agentName; "namespace" := ns; "tool" := tool]}.

Definition handleToolsCall (ctx : Ctx) (params ns agentName : string) (qs : queues) (w : world)
    : option (jsonRPCResponse * queues * world) :=
  let refuse code msg qs w := Some (errResponse code msg, qs, w) in
  match unmarshal_call params with
  | None => refuse errCodeInternal "invalid tools/call params" qs w
  | Some (tool, args) =>
      let '(r, w) := get_agent ns agentName w in
      match r with
      | Err e => refuse errCodeInternal ("agent " +:+ Quote agentName +:+ " not found: " +:+ e) qs w
      | Ok agent =>
          if decide (ReadyReplicas (agent_Status agent) = 0)
          then refuse errCodeNoReplicas ("agent " +:+ Quote agentName +:+ " has no ready replicas") qs w
          else match findCapability agent tool with
          | None => refuse errCodeNotFound
                      ("agent " +:+ Quote agentName +:+ " does not expose capability " +:+ Quote tool) qs w
          | Some c =>
              let url := call_queue_url agent in
              if decide (url = "") then refuse errCodeInternal "no task queue URL configured" qs w
              else
                let '(r, qs, w) := queueFor url qs w in
                match r with
                | Err e => refuse errCodeInternal ("queue unavailable: " +:+ e) qs w
                | Ok tq =>
                    let '(r, w) := q_Submit ctx tq (buildPrompt c args) (call_meta ns agentName tool) w in
                    match r with
                    | Err e => refuse errCodeInternal ("task submission failed: " +:+ e) qs w
                    | Ok taskID =>
                        let timeout := agentTimeout agent in
                        let '(now, w) := time_Now w in
                        '(r, w) ← poll_call (call_fuel timeout) ctx tq taskID timeout (now + timeout) w;
                        Some (r, qs, w)
                    end
                end
          end
      end
  end.

Definition handleToolsList (ns agentName : string) (w : world) : jsonRPCResponse * world :=
  let '(r, w) := get_agent ns agentName w in
  (match r with
   | Err e => errResponse errCodeInternal ("agent " +:+ Quote agentName +:+ " not found: " +:+ e)
   | Ok agent => Ok (ToolsListed (buildToolList agent))
   end, w).

Definition dispatch (ctx : Ctx) (method params ns agentName : string) (qs : queues) (w : world)
    : option (jsonRPCResponse * queues * world) :=
  if decide (method = "initialize") then Some (Ok Initialized, qs, w)
  else if decide (method = "ping") then Some (Ok Ponged, qs, w)
  else if decide (method = "tools/list") then let '(r, w) := handleToolsList ns agentName w in Some (r, qs, w)
  else if decide (method = "tools/call") then handleToolsCall ctx params ns agentName qs w
  else Some (errResponse errCodeNotFound ("unknown method " +:+ Quote method), qs, w).
End gateway.

(** ** Sessions *)

(** A channel of eight answers; the handler of the stream that reads it closes it. *)
Record channel := mkChannel { buffered : list string; closed : bool }.

(** Where the handler of a stream is: in its loop, after [sessions.Delete], or after the close of the
    channel with its slot still to be given back. *)
Inductive stage := Serving | Unregistered | Closed.
#[export] Instance stage_eq : EqDecision stage.
Proof. solve_decision. Defined.

(** [slotsC] and [sessions] of the gateway, the channels, and the goroutines of requests: handlers with
    a slot and no session yet, those with a session, and posted messages whose channel was
    looked up and whose answer is being made. *)
Record sessions := mkSessions {
  slots : nat;
  registered : gset string;
  channels : gmap string channel;
  entering : nat;
  handlers : gmap string stage;
  pending_posts : list string;
  (** Sends on a closed channel, which end the request with a panic. *)
  panics : nat }.
#[export] Instance eta_sessions : Settable sessions := λ s,
  mkSessions (slots s) (registered s) (channels s) (entering s) (handlers s) (pending_posts s) (panics s).
Definition respCh_size : nat := 8.
Definition no_sessions : sessions := mkSessions 0 ∅ ∅ 0 ∅ [] 0.

(** The non-blocking send of [handleMessage]. *)
Definition push_answer (ch : channel) (msg : string) : option channel :=
  if closed ch then None
  else if decide (length (buffered ch) < respCh_size)%nat then Some (mkChannel (buffered ch ++ [msg]) false) else Some ch.

Inductive session_step (s : sessions) : sessions → Prop :=
(** [handleSSE]: a slot; no stream, and the slot back; a new id with a channel. *)
| session_slot : (slots s < maxSSESessions)%nat → session_step s (s <| slots ::= S |> <| entering ::= S |>)
| session_no_stream n : entering s = S n → session_step s (s <| slots ::= pred |> <| entering := n |>)
| session_open id n : entering s = S n → channels s !! id = None →
    session_step s (s <| entering := n |> <| registered ::= λ r, {[id]} ∪ r |>
      <| channels ::= <[id := mkChannel [] false]> |> <| handlers ::= <[id := Serving]> |>)
(** The loop. *)
| session_forward id msg rest : handlers s !! id = Some Serving → channels s !! id = Some (mkChannel (msg :: rest) false) →
    session_step s (s <| channels ::= <[id := mkChannel rest false]> |>)
(** The client goes away: the deferred calls, one after the other. *)
| session_delete id : handlers s !! id = Some Serving →
    session_step s (s <| registered ::= λ r, r ∖ {[id]} |> <| handlers ::= <[id := Unregistered]> |>)
| session_close id ch : handlers s !! id = Some Unregistered → channels s !! id = Some ch →
    session_step s (s <| channels ::= <[id := mkChannel (buffered ch) true]> |> <| handlers ::= <[id := Closed]> |>)
| session_leave id : handlers s !! id = Some Closed →
    session_step s (s <| slots ::= pred |> <| handlers ::= delete id |>)
(** [handleMessage] until the channel is found, and after it: no answer, an answer that is sent or
    dropped, or a send on a closed channel. *)
| session_post id : id ∈ registered s → session_step s (s <| pending_posts ::= cons id |>)
| session_silent id ps1 ps2 : pending_posts s = ps1 ++ id :: ps2 → session_step s (s <| pending_posts := ps1 ++ ps2 |>)
| session_answer id msg ch ch' ps1 ps2 : pending_posts s = ps1 ++ id :: ps2 →
    channels s !! id = Some ch → push_answer ch msg = Some ch' →
    session_step s (s <| channels ::= <[id := ch']> |> <| pending_posts := ps1 ++ ps2 |>)
| session_late id msg ch ps1 ps2 : pending_posts s = ps1 ++ id :: ps2 →
    channels s !! id = Some ch → push_answer ch msg = None →
    session_step s (s <| pending_posts := ps1 ++ ps2 |> <| panics ::= S |>).
