(* ===== verification/McpGatewayProps.v ===== *)
(** * McpGatewayProps: what the MCP gateway lets through, and that its calls end.

    A tool is callable exactly when it is listed; the URL of an agent leads to it; a call always
    returns, and answers with what the queue said of the task it submitted, and it submits nothing
    for an agent that is not ready or does not expose the tool.  Sessions are bounded, and a registered one
    is open; a stream that ends while an answer is being made makes the request that makes it panic. *)
From Stdlib Require Import ZArith Lia Ascii.
From stdpp Require Import base tactics option list numbers strings pretty gmap relations.
From S2P Require Import Prelude GoStd Types AgentTypes Kube Queue Runtime Trigger TriggerProps AgentEnv McpGateway.

(** ** Tools *)
Section tools.
Context `{W : World} `{GA : !GatewayApi}.

Lemma findCapability_spec agent tool c : findCapability agent tool = Some c →
  c ∈ Capabilities (agent_Spec agent) ∧ ExposeMCP c = true ∧ cap_Name c = tool.
Proof.
  intros [Hin [Hx Hn]%andb_true_iff]%List.find_some. rewrite list_elem_of_In. split; [done|]. split; [done|].
  by apply String.eqb_eq.
Qed.

(** A tool can be called exactly when it is listed. *)
Lemma listed_tools_callable agent tool :
  tool ∈ tool_Name <$> buildToolList agent ↔ is_Some (findCapability agent tool).
Proof.
  unfold buildToolList. rewrite <- list_fmap_compose, list_elem_of_fmap. split.
  - intros (c & -> & [Hx Hin]%list_elem_of_filter). simpl. destruct (findCapability agent (cap_Name c)) eqn:E; [eauto|].
    apply list_elem_of_In in Hin. apply (List.find_none _ _ E) in Hin. by rewrite Hx, String.eqb_refl in Hin.
  - intros [c (Hin & Hx & Hn)%findCapability_spec]. exists c. split; [done|]. by apply list_elem_of_filter.
Qed.

(** *** A call returns *)
Context {WL : WorldLaws W} {QL : QueueLaws W}.

Definition call_passes (deadline : Z) (w : world) : nat := S (Z.to_nat ((deadline - clock w) / pollInterval + 1)).

(** What a call was answered with, if it was. *)
Definition answered (ctx : Ctx) (tq : TaskQueue) (id : string) (res : rpc_result) : Prop :=
  ∃ w tr rs w', q_Results ctx tq [id] w = (Ok (tr :: rs), w') ∧ res_TaskID tr = id ∧ res = call_answer tr.

Lemma call_passes_less deadline w w1 w2 ctx : later w w1 → clock w1 ≤ deadline → later w1 w2 →
  ctx_Err ctx (wait ctx pollInterval w2) = None →
  (call_passes deadline (wait ctx pollInterval w2) < call_passes deadline w)%nat.
Proof.
  intros H1 Hd H2 He. apply wait_elapses in He. apply later_clock in H1, H2. unfold call_passes.
  assert (∃ d, d = deadline - clock w) as [d Ed] by eauto. rewrite <- Ed.
  assert (deadline - clock (wait ctx pollInterval w2) ≤ d + (-1) * pollInterval) by lia.
  assert ((deadline - clock (wait ctx pollInterval w2)) / pollInterval ≤ d / pollInterval - 1).
  { replace (d / pollInterval - 1) with ((d + (-1) * pollInterval) / pollInterval)
      by (rewrite Z.div_add by (unfold pollInterval; lia); lia). apply Z.div_le_mono; [unfold pollInterval; lia|done]. }
  assert (0 ≤ d / pollInterval) by (apply Z.div_pos; unfold pollInterval; lia). lia.
Qed.

Lemma poll_call_returns ctx tq id timeout deadline fuel w : (call_passes deadline w ≤ fuel)%nat →
  ∃ r w', poll_call fuel ctx tq id timeout deadline w = Some (r, w') ∧ ∀ res, r = Ok res → answered ctx tq id res.
Proof.
  revert w. induction fuel as [|fuel IH]; intros w Hf; [unfold call_passes in Hf; lia|]. simpl.
  destruct (time_Now w) as [now w1] eqn:En. apply now_later in En as [Hl1 ->].
  destruct (deadline <? clock w1) eqn:Ed; [by eexists _, _|]. apply Z.ltb_ge in Ed.
  destruct (q_Results ctx tq [id] w1) as [r w2] eqn:Er. pose proof (Results_later _ _ _ _ _ _ Er) as Hl2.
  assert (Hagain : ∃ r w', match ctx_Err ctx (wait ctx pollInterval w2) with
    | Some _ => Some (errResponse errCodeInternal "request cancelled", wait ctx pollInterval w2)
    | None => poll_call fuel ctx tq id timeout deadline (wait ctx pollInterval w2)
    end = Some (r, w') ∧ ∀ res, r = Ok res → answered ctx tq id res).
  { destruct (ctx_Err ctx (wait ctx pollInterval w2)) eqn:Ee; [by eexists _, _|]. apply IH.
    pose proof (call_passes_less deadline w w1 w2 ctx Hl1 Ed Hl2 Ee). lia. }
  destruct r as [[|tr rs]|e]; [exact Hagain| |exact Hagain].
  eexists _, _. split; [done|]. intros res [= <-]. exists w1, tr, rs, w2. split; [done|]. split; [|done].
  pose proof (Results_asked _ _ _ _ _ _ Er) as Ha. apply Forall_cons in Ha as [Ha _]. by apply list_elem_of_singleton in Ha.
Qed.

Variable taskQueueURL : string.

(** A call that went through. *)
Definition called (ctx : Ctx) (params ns name : string) (w : world) (res : rpc_result) : Prop :=
  ∃ tool args agent w1 c tq id w2 w3,
    unmarshal_call params = Some (tool, args) ∧ get_agent ns name w = (Ok agent, w1) ∧
    ReadyReplicas (agent_Status agent) ≠ 0 ∧ findCapability agent tool = Some c ∧
    q_Submit ctx tq (buildPrompt c args) (call_meta ns name tool) w2 = (Ok id, w3) ∧ answered ctx tq id res.

(** C18: a call of a tool returns, whatever the queue answers and however long it takes.  An answer is
    that of the queue for the task that was submitted for this agent and this tool, which is one the
    agent exposes; for an agent without ready replicas, or a tool it does not expose, nothing
    happens but that the agent is read. *)
Theorem tools_call_returns ctx params ns name qs w :
  ∃ r qs' w', handleToolsCall taskQueueURL ctx params ns name qs w = Some (r, qs', w') ∧
    (∀ res, r = Ok res → called ctx params ns name w res) ∧
    (∀ tool args agent w1, unmarshal_call params = Some (tool, args) → get_agent ns name w = (Ok agent, w1) →
       ReadyReplicas (agent_Status agent) = 0 ∨ tool ∉ tool_Name <$> buildToolList agent →
       (∃ e, r = Err e) ∧ qs' = qs ∧ w' = w1).
Proof.
  unfold handleToolsCall. destruct (unmarshal_call params) as [[tool args]|] eqn:Ep; [|by eexists _, _, _].
  destruct (get_agent ns name w) as [[agent|e] w1] eqn:Eg; [|by eexists _, _, _].
  destruct (decide _) as [E0|E0].
  { eexists _, _, _. split; [done|]. split; [done|]. intros ? ? ? ? [= <- <-] [= <- <-] _. eauto. }
  destruct (findCapability agent tool) as [c|] eqn:Ec.
  2: { eexists _, _, _. split; [done|]. split; [done|]. intros ? ? ? ? [= <- <-] [= <- <-] _. eauto. }
  assert (Hno : ∀ (tool' args' : string) agent' w1', Some (tool, args) = Some (tool', args') →
    (Ok (E := string) agent, w1) = (Ok agent', w1') →
    ReadyReplicas (agent_Status agent') = 0 ∨ tool' ∉ tool_Name <$> buildToolList agent' → False).
  { intros ? ? ? ? [= <- <-] [= <- <-] [?|Hx]; [done|]. apply Hx, listed_tools_callable. by rewrite Ec. }
  case_decide; [eexists _, _, _; split; [done|]; split; [done|]; intros; exfalso; eauto|].
  destruct (queueFor _ qs w1) as [[[tq|e] qs2] w2];
    [|eexists _, _, _; split; [done|]; split; [done|]; intros; exfalso; eauto].
  destruct (q_Submit ctx tq _ _ w2) as [[id|e] w3] eqn:Es;
    [|eexists _, _, _; split; [done|]; split; [done|]; intros; exfalso; eauto].
  destruct (time_Now w3) as [now w4] eqn:En. apply now_later in En as [_ ->].
  destruct (poll_call_returns ctx tq id (agentTimeout agent) (clock w4 + agentTimeout agent)
    (call_fuel (agentTimeout agent)) w4) as (r & w5 & E & Hr).
  { unfold call_passes, call_fuel. replace (clock w4 + agentTimeout agent - clock w4) with (agentTimeout agent) by lia. lia. }
  rewrite E. eexists _, _, _. split; [done|]. split; [|intros; exfalso; eauto].
  intros res Hres. by exists tool, args, agent, w1, c, tq, id, w2, w3; eauto 10.
Qed.
End tools.

(** ** Paths *)

Lemma agent_path_parts ns name rest : no_slash ns = true → no_slash name = true →
  split_byte slash (TrimSlash (GatewayURL "" ns name +:+ String slash rest)) =
  ["namespaces"; ns; "agents"; name] ++ split_byte slash rest.
Proof.
  intros Hns Hn. assert (TrimSlash (GatewayURL "" ns name +:+ String slash rest) =
    "namespaces" +:+ String slash (ns +:+ String slash ("agents" +:+ String slash (name +:+ String slash rest)))) as ->.
  { unfold GatewayURL. simpl. rewrite !str_app_assoc. done. }
  by rewrite !split_byte_app.
Qed.

Lemma parse_agent_path ns name rest : no_slash ns = true → no_slash name = true → ns ≠ "" → name ≠ "" →
  parsePath (GatewayURL "" ns name +:+ String slash rest) =
  match split_byte slash rest with
  | [ep] => if decide (ep = "") then None else Some (ns, name, ep)
  | [ep; ep2] => if decide (ep = "" ∨ ep2 = "") then None else Some (ns, name, ep +:+ "/" +:+ ep2)
  | _ => None
  end.
Proof.
  intros Hns Hn Ens En. unfold parsePath. rewrite agent_path_parts by done. simpl.
  destruct (split_byte slash rest) as [|ep [|ep2 [|? ?]]]; [done|..]; case_bool_decide; repeat case_decide; naive_solver.
Qed.

(** the URL of an agent leads to it: below it the listing, the calls, the stream and the messages of
    exactly that agent are served. *)
Theorem agent_url_served ns name : no_slash ns = true → no_slash name = true → ns ≠ "" → name ≠ "" →
  let url := GatewayURL "" ns name in
  serve "POST" (url +:+ "/tools/list") = RouteToolsList ns name ∧
  serve "POST" (url +:+ "/tools/call") = RouteToolsCall ns name ∧
  serve "GET" (url +:+ "/sse") = RouteSSE ns name ∧ serve "POST" (url +:+ "/message") = RouteMessage ns name.
Proof.
  intros Hns Hn Ens En url. unfold serve, url.
  change "/tools/list" with (String slash "tools/list"). change "/tools/call" with (String slash "tools/call").
  change "/sse" with (String slash "sse"). change "/message" with (String slash "message").
  rewrite !(parse_agent_path ns name) by done. by rewrite !decide_False by (by destruct ns).
Qed.

(** ** Sessions *)

(** Each slot that is taken belongs to a handler, and what is registered and open is told by where the
    handlers are. *)
Record orderly (s : sessions) : Prop := {
  orderly_slots : slots s = (entering s + size (handlers s))%nat ∧ (slots s ≤ maxSSESessions)%nat;
  orderly_registered : ∀ id, id ∈ registered s ↔ handlers s !! id = Some Serving;
  orderly_open : ∀ id, (∃ ch, channels s !! id = Some ch ∧ closed ch = false) ↔
    handlers s !! id = Some Serving ∨ handlers s !! id = Some Unregistered;
  orderly_known : ∀ id, is_Some (handlers s !! id) ∨ id ∈ pending_posts s → is_Some (channels s !! id);
  orderly_buffers : map_Forall (λ _ ch, (length (buffered ch) ≤ respCh_size)%nat) (channels s) }.

Lemma send_orderly ch msg ch' : push_answer ch msg = Some ch' → (length (buffered ch) ≤ respCh_size)%nat →
  closed ch = false ∧ closed ch' = false ∧ (length (buffered ch') ≤ respCh_size)%nat.
Proof.
  unfold push_answer. destruct (closed ch) eqn:E; [done|]. case_decide; intros [= <-] Hl; simpl; [|done].
  rewrite length_app. simpl. split; [done|]. split; [done|lia].
Qed.

(** A channel that stays as open as it was. *)
Lemma open_update (chs : gmap string channel) id ch ch' x : chs !! id = Some ch → closed ch = closed ch' →
  (∃ c, <[id := ch']> chs !! x = Some c ∧ closed c = false) ↔ (∃ c, chs !! x = Some c ∧ closed c = false).
Proof.
  intros E Hc. destruct (decide (id = x)) as [<-|Hx]; [|by rewrite lookup_insert_ne].
  rewrite lookup_insert_eq, E. split; intros (c & [= <-] & H); eexists; (split; [done|congruence]).
Qed.

(** A handler that goes on keeps its slot. *)
Lemma size_update (m : gmap string stage) id st st' : m !! id = Some st → size (<[id := st']> m) = size m.
Proof. intros E. rewrite map_size_insert_Some; eauto. Qed.

Lemma orderly_send s id ch ch' ps : orderly s → channels s !! id = Some ch → closed ch = closed ch' →
  (length (buffered ch') ≤ respCh_size)%nat → (∀ x, x ∈ ps → x ∈ pending_posts s) →
  orderly (s <| channels ::= <[id := ch']> |> <| pending_posts := ps |>).
Proof.
  intros [O1 O2 O3 O4 O5] E Hc Hl Hp. split; simpl; [done|done| | |].
  - intros x. by rewrite (open_update _ _ ch).
  - intros x Hx. rewrite lookup_insert_is_Some'. right. apply O4. naive_solver.
  - by apply map_Forall_insert_2.
Qed.

Lemma step_orderly s s' : session_step s s' → orderly s → orderly s'.
Proof.
  intros Hstep O. pose proof O as [[O1 O1'] O2 O3 O4 O5].
  destruct Hstep as [Hs|n En|id n En Ef|id msg rest Hh Hc|id Hh|id ch Hh Hc|id Hh|id Hr|id ps1 ps2 Ep|
    id msg ch ch' ps1 ps2 Ep Hc Hsend|id msg ch ps1 ps2 Ep Hc Hsend]; simpl.
  - split; simpl; try done. lia.
  - split; simpl; try done. lia.
  - assert (Eh : handlers s !! id = None).
    { destruct (handlers s !! id) eqn:E; [|done]. destruct (O4 id) as [? E']; [left; by eexists|]. by rewrite Ef in E'. }
    split; simpl.
    + rewrite map_size_insert_None by done. lia.
    + intros x. destruct (decide (id = x)) as [<-|Hx]; [rewrite lookup_insert_eq; set_solver|].
      rewrite lookup_insert_ne by done. rewrite <- O2. set_solver.
    + intros x. destruct (decide (id = x)) as [<-|Hx]; [rewrite !lookup_insert_eq; naive_solver|].
      by rewrite !lookup_insert_ne by done.
    + intros x Hx. destruct (decide (id = x)) as [<-|Hne]; [by rewrite lookup_insert_eq|].
      rewrite lookup_insert_ne by done. apply O4. by rewrite lookup_insert_ne in Hx.
    + apply map_Forall_insert_2; [simpl; lia|done].
  - pose proof (O5 _ _ Hc) as Hl. simpl in Hl.
    apply (orderly_send s id _ (mkChannel rest false) (pending_posts s)) in Hc; [by destruct s|done|done|simpl; lia|done].
  - split; simpl; [by rewrite (size_update _ _ Serving)| | | |done].
    + intros x. destruct (decide (id = x)) as [<-|Hx]; [rewrite lookup_insert_eq; set_solver|].
      rewrite lookup_insert_ne by done. rewrite <- O2. set_solver.
    + intros x. rewrite O3. destruct (decide (id = x)) as [<-|Hx]; [rewrite lookup_insert_eq; naive_solver|].
      by rewrite lookup_insert_ne.
    + intros x Hx. apply O4. destruct Hx as [Hx|]; [|by right]. left. revert Hx. rewrite lookup_insert_is_Some'.
      intros [<-|]; [by eexists|done].
  - split; simpl; [by rewrite (size_update _ _ Unregistered)| | | |].
    + intros x. rewrite O2. destruct (decide (id = x)) as [<-|Hx]; [rewrite lookup_insert_eq; naive_solver|].
      by rewrite lookup_insert_ne.
    + intros x. destruct (decide (id = x)) as [<-|Hx]; [rewrite !lookup_insert_eq; naive_solver|].
      by rewrite !lookup_insert_ne by done.
    + intros x Hx. rewrite lookup_insert_is_Some'. destruct (decide (id = x)) as [|Hne]; [by left|right].
      apply O4. by rewrite lookup_insert_ne in Hx.
    + apply map_Forall_insert_2; [exact (O5 _ _ Hc)|done].
  - split; simpl; [| | | |done].
    + rewrite map_size_delete, Hh. assert (size (handlers s) ≠ 0)%nat; [|lia].
      intros E%map_size_empty_iff. by rewrite E in Hh.
    + intros x. rewrite O2. destruct (decide (id = x)) as [<-|Hx]; [rewrite lookup_delete_eq; naive_solver|].
      by rewrite lookup_delete_ne.
    + intros x. rewrite O3. destruct (decide (id = x)) as [<-|Hx]; [rewrite lookup_delete_eq; naive_solver|].
      by rewrite lookup_delete_ne.
    + intros x Hx. apply O4. destruct Hx as [[st E]|]; [left|by right]. apply lookup_delete_Some in E as [_ E]. by eexists.
  - split; simpl; try done. intros x [Hx|[->|Hx]%elem_of_cons]; [by apply O4; left| |by apply O4; right].
    apply O4. left. apply O2 in Hr. by eexists.
  - split; simpl; try done. intros x Hx. apply O4. rewrite Ep. set_solver.
  - destruct (send_orderly _ _ _ Hsend (O5 _ _ Hc)) as (E & E' & Hl).
    apply (orderly_send s id ch); [done|done|congruence|done|]. rewrite Ep. set_solver.
  - split; simpl; try done. intros x Hx. apply O4. rewrite Ep. set_solver.
Qed.

Lemma no_sessions_orderly : orderly no_sessions.
Proof.
  split; cbn [no_sessions slots registered channels entering handlers pending_posts];
    [split; [by rewrite map_size_empty|unfold maxSSESessions; lia]| | | |apply map_Forall_empty];
    intros id; rewrite lookup_empty.
  - set_solver.
  - rewrite lookup_empty. naive_solver.
  - rewrite lookup_empty. intros [[? ?]|?%elem_of_nil]; done.
Qed.

(** C19: however requests interleave, their steps one at a time, there are at most fifty sessions, of
    at most eight waiting answers each; every registered session has an open channel, an open
    channel that is no longer registered is one its handler is about to close, and a slot is held for
    each until then; ids are new. *)
Theorem sessions_bounded s : rtc session_step no_sessions s →
  (size (registered s) ≤ maxSSESessions)%nat ∧
  (∀ id ch, channels s !! id = Some ch → (length (buffered ch) ≤ respCh_size)%nat) ∧
  (∀ id, id ∈ registered s → ∃ ch, channels s !! id = Some ch ∧ closed ch = false) ∧
  (∀ id ch, channels s !! id = Some ch → closed ch = false → id ∈ registered s ∨ handlers s !! id = Some Unregistered) ∧
  slots s = (entering s + size (handlers s))%nat ∧ (slots s ≤ maxSSESessions)%nat.
Proof.
  intros Hs. assert (I : ∀ x y, rtc session_step x y → orderly x → orderly y).
  { induction 1 as [|x y z Hxy _ IH]; [done|]. intros O. apply IH. by eapply step_orderly. }
  destruct (I _ _ Hs no_sessions_orderly) as [[O1 O1'] O2 O3 O4 O5]. split; [|split; [exact O5|split; [|split]]].
  - assert (size (registered s) ≤ size (dom (handlers s)))%nat as Hd.
    { apply subseteq_size. intros id Hid%O2. by apply elem_of_dom_2 in Hid. }
    rewrite size_dom in Hd. lia.
  - intros id Hid%O2. apply O3. by left.
  - intros id ch E Hc. destruct (proj1 (O3 id)) as [Hh|Hh]; [by exists ch|left; by apply O2|by right].
  - done.
Qed.

(** A client that posts a call and goes away before it is answered makes the gateway send on a closed
    channel. *)
Definition one_session : sessions := mkSessions 1 ({["s"]} ∪ ∅) (<["s" := mkChannel [] false]> ∅) 0 (<["s" := Serving]> ∅) [] 0.
Lemma one_session_reached : rtc session_step no_sessions one_session.
Proof.
  eapply rtc_l; [apply session_slot; unfold maxSSESessions; simpl; lia|].
  apply rtc_once. exact (session_open (mkSessions 1 ∅ ∅ 1 ∅ [] 0) "s" 0 eq_refl eq_refl).
Qed.

Theorem late_answer_panics : ∃ s, rtc session_step no_sessions s ∧ panics s = 1%nat ∧ registered s = ∅.
Proof.
  set (posted := one_session <| pending_posts := ["s"] |>).
  set (deleted := posted <| registered ::= λ r, r ∖ {["s"]} |> <| handlers ::= <["s" := Unregistered]> |>).
  set (gone := deleted <| channels ::= <["s" := mkChannel [] true]> |> <| handlers ::= <["s" := Closed]> |>).
  exists (gone <| pending_posts := [] |> <| panics ::= S |>). split; [|split; [done|simpl; set_solver]].
  etransitivity; [apply one_session_reached|].
  eapply rtc_l; [apply (session_post one_session "s"); simpl; set_solver|].
  eapply rtc_l; [by apply (session_delete posted "s")|].
  eapply rtc_l; [by apply (session_close deleted "s" (mkChannel [] false))|].
  apply rtc_once. by apply (session_late gone "s" "answer" (mkChannel [] true) [] []).
Qed.

(** ** The gateway at concrete inputs *)
Lemma agent_url_served_witness :
  serve "POST" "/namespaces/ns/agents/writer/tools/list" = RouteToolsList "ns" "writer" ∧
  serve "POST" "/namespaces/ns/agents/writer/tools/call" = RouteToolsCall "ns" "writer" ∧
  serve "GET" "/namespaces/ns/agents/writer/sse" = RouteSSE "ns" "writer" ∧
  serve "POST" "/namespaces/ns/agents/writer/message" = RouteMessage "ns" "writer".
Proof. apply (agent_url_served "ns" "writer"); done. Defined.

(** A session whose handler has unregistered it and not closed its channel yet. *)
Lemma sessions_bounded_witness : ∃ s, rtc session_step no_sessions s ∧
  (size (registered s) ≤ maxSSESessions)%nat ∧ channels s !! "s" = Some (mkChannel [] false) ∧ "s" ∉ registered s ∧
  handlers s !! "s" = Some Unregistered.
Proof.
  assert (H : rtc session_step no_sessions
    (mkSessions 1 (({["s"]} ∪ ∅) ∖ {["s"]}) (<["s" := mkChannel [] false]> ∅) 0 (<["s" := Unregistered]> (<["s" := Serving]> ∅)) [] 0)).
  { eapply rtc_r; [apply one_session_reached|]. by apply (session_delete one_session "s"). }
  eexists. split; [exact H|]. destruct (sessions_bounded _ H) as (Hn & _ & _ & Ho & _). simpl in Hn, Ho.
  assert (Hnot : "s" ∉ (({["s"]} ∪ ∅) ∖ {["s"]} : gset string)) by set_solver.
  split; [exact Hn|]. split; [done|]. split; [exact Hnot|].
  destruct (Ho "s" (mkChannel [] false) eq_refl eq_refl) as [Hr|Hh]; [by destruct Hnot|exact Hh].
Defined.

(** ** A call *)
Definition exposing (replicas : Z) : SwarmAgent :=
  mkSwarmAgent "writer" "ns" 1 ∅ ∅
    (mkSwarmAgentSpec "gpt-5" [mkAgentCapability "draft" "Writes." [] true] None None None None [] no_runtime None [] None None)
    (ready_status replicas).

#[local] Existing Instances toy_world toy_world_laws toy_queue_laws.
#[local] Instance sample_gateway : @GatewayApi toy_world := {|
  get_agent ns name w := (if String.eqb name "writer" then Ok (exposing 1) else Ok (exposing 0), w);
  NewQueue url w := (Ok url, w);
  unmarshal_call s := Some (s, "{}");
  input_schema _ := "";
  duration_String _ := "2m0s" |}.

Lemma tools_call_returns_witness :
  ∃ r qs' w', @handleToolsCall toy_world sample_gateway "redis://q" None "draft" "ns" "writer" ∅ 7 = Some (r, qs', w') ∧
    r = Ok (ToolCalled ("done task-redis://q-" +:+ buildPrompt (mkAgentCapability "draft" "Writes." [] true) "{}") false) ∧
    @called toy_world sample_gateway None "draft" "ns" "writer" 7 (ToolCalled ("done task-redis://q-" +:+
      buildPrompt (mkAgentCapability "draft" "Writes." [] true) "{}") false).
Proof.
  destruct (@tools_call_returns toy_world sample_gateway toy_world_laws toy_queue_laws "redis://q" None "draft" "ns" "writer" ∅ 7) as (r & qs & w & E & Hc & _).
  exists r, qs, w. split; [exact E|].
  assert (Er : r = Ok (ToolCalled ("done task-redis://q-" +:+
    buildPrompt (mkAgentCapability "draft" "Writes." [] true) "{}") false)).
  { assert (E' := E). vm_compute in E'. injection E' as <- _ _. reflexivity. }
  split; [exact Er|]. exact (Hc _ Er).
Defined.

(** An agent without replicas is refused, and nothing else happens. *)
Example not_ready :
  ∃ e, @handleToolsCall toy_world sample_gateway "redis://q" None "draft" "ns" "idle" ∅ 7 = Some (Err (mkRPCError errCodeNoReplicas e), ∅, 7).
Proof. eexists. vm_compute. reflexivity. Qed.
