(* ===== verification/AuditTrail.v ===== *)
(** * AuditTrail: audit records before they reach a sink (pkg/audit/config.go, redaction.go, truncation.go,
    emitter.go, and applyAuditDetail of pkg/agent/runner/runner.go).

    The configuration of the three levels, the redaction and truncation of the detail of a record,
    and the emitter, whose producers and consumer run concurrently and are a step relation.  The
    sinks and the assembly of records are left out.

    A field is hidden exactly when its path or that of a map around it matches; truncated fields
    keep within their bound, but a bound below the length of the mark panics; and every event that
    was emitted is waiting, was given to the sink, or is counted as dropped. *)
From Stdlib Require Import ZArith Lia Ascii.
From stdpp Require Import base tactics option list numbers strings pretty gmap relations.
From S2P Require Import Prelude GoStd.

(** ** Configuration *)
Definition DefaultMaxDetailBytes : Z := 8192.
Record AuditConfig := mkAuditConfig {
  audit_mode : string;
  audit_sink : string;
  audit_MaxDetailBytes : Z;
  audit_Redactions : list string;
  audit_ExcludeActions : list string }.

Fixpoint merge_into (seen merged : list string) (l : list string) : list string * list string :=
  match l with
  | [] => (seen, merged)
  | s :: rest =>
      if decide (s ∈ seen) then merge_into seen merged rest else merge_into (s :: seen) (merged ++ [s]) rest
  end.
Definition mergeStringSlices (slices : list (list string)) : list string :=
  (foldl (λ acc l, merge_into acc.1 acc.2 l) ([], []) slices).2.

Definition applyConfig (dst src : AuditConfig) : AuditConfig :=
  mkAuditConfig (if decide (audit_mode src = "") then audit_mode dst else audit_mode src)
    (if decide (audit_sink src = "") then audit_sink dst else audit_sink src)
    (if decide (audit_MaxDetailBytes src = 0) then audit_MaxDetailBytes dst else audit_MaxDetailBytes src)
    (audit_Redactions dst) (audit_ExcludeActions dst).

Definition ResolveConfig (cluster namespace agent : AuditConfig) : AuditConfig :=
  let resolved := mkAuditConfig "off" "stdout" DefaultMaxDetailBytes [] [] in
  let resolved := applyConfig (applyConfig (applyConfig resolved cluster) namespace) agent in
  mkAuditConfig (audit_mode resolved) (audit_sink resolved) (audit_MaxDetailBytes resolved)
    (mergeStringSlices [audit_Redactions cluster; audit_Redactions namespace; audit_Redactions agent])
    (mergeStringSlices [audit_ExcludeActions cluster; audit_ExcludeActions namespace; audit_ExcludeActions agent]).

(** ** Redaction *)
Definition RedactedValue := "[REDACTED]".

Fixpoint dotToSlash (s : string) : string :=
  match s with
  | "" => ""
  | String c s' => String (if decide (c = "."%char) then slash else c) (dotToSlash s')
  end.

Definition matchesAny (patterns : list string) (dotPath : string) : bool :=
  existsb (λ pattern, bool_decide (path_Match (dotToSlash pattern) (dotToSlash dotPath) = Some true)) patterns.

(** The value of a field, at its path; [redactMap] below does the same to each field of a map. *)
Fixpoint redact_value (patterns : list string) (fullPath : string) (v : any) : any :=
  if matchesAny patterns fullPath then AString RedactedValue
  else match v with
       | AMap m =>
           AMap ((fix fields (m : list (string * any)) : list (string * any) :=
                    match m with
                    | [] => []
                    | (key, v) :: rest => (key, redact_value patterns (fullPath +:+ "." +:+ key) v) :: fields rest
                    end) m)
       | v => v
       end.
Definition redactMap (patterns : list string) (prefix : string) (m : list (string * any)) : list (string * any) :=
  (λ kv, (kv.1, redact_value patterns (prefix +:+ "." +:+ kv.1) kv.2)) <$> m.

Definition Redact (patterns : list string) (detail : list (string * any)) : list (string * any) :=
  if decide (patterns = []) then detail else redactMap patterns "detail" detail.

(** ** Truncation *)
Definition truncatedSuffix := "[truncated]".

Fixpoint amap_replace (m : list (string * any)) (k : string) (v : any) : list (string * any) :=
  match m with
  | [] => []
  | (k', v') :: rest => if decide (k = k') then (k, v) :: rest else (k', v') :: amap_replace rest k v
  end.

Section truncate.
Context `{JsonApi}.

(** The text of a value; [None] leaves the field as it is. *)
Definition detail_text (v : any) : option string :=
  match v with
  | AString s => Some s
  | v => match json_Marshal v with Ok s => Some s | Err _ => None end
  end.

(** [None] is a panic: the bound of the slice is negative. *)
Definition truncate_field (maxBytes : Z) (detail : list (string * any)) (field : string)
    : option (list (string * any) * bool) :=
  match amap_get detail field ≫= detail_text with
  | None => Some (detail, false)
  | Some s =>
      if maxBytes <? str_len s
      then
        let bound := maxBytes - str_len truncatedSuffix in
        if bound <? 0 then None
        else Some (amap_replace detail field (AString (str_take (Z.to_nat bound) s +:+ truncatedSuffix)), true)
      else Some (detail, false)
  end.

Definition Truncate (maxBytes : Z) (detail : list (string * any)) : option (list (string * any) * bool) :=
  if maxBytes <=? 0 then Some (detail, false)
  else
    '(detail, t1) ← truncate_field maxBytes detail "input";
    '(detail, t2) ← truncate_field maxBytes detail "output";
    Some (detail, t1 || t2).

(** The detail of a record; a map that cannot be encoded leaves none. *)
Definition applyAuditDetail (patterns : option (list string)) (maxBytes : option Z) (detail : list (string * any))
    : option (option string) :=
  let detail := match patterns with Some p => Redact p detail | None => detail end in
  '(detail, truncated) ← match maxBytes with Some n => Truncate n detail | None => Some (detail, false) end;
  let detail := if (truncated : bool)
                then match amap_get detail "truncated" with
                     | Some _ => amap_replace detail "truncated" (ABool true)
                     | None => detail ++ [("truncated", ABool true)]
                     end
                else detail in
  Some (match json_Marshal (AMap detail) with Ok s => Some s | Err _ => None end).
End truncate.

(** ** The emitter *)
Definition DefaultBufferSize : nat := 1024.
Definition maxBatchSize : nat := 64.
Definition buffer_size (n : Z) : nat := if n <=? 0 then DefaultBufferSize else Z.to_nat n.

(** Where a call of [Emit] that found the buffer full is. *)
Inductive emit_phase := Evicting | Retrying.

Section emitter.
Context {Event : Type}.

Record emitter := mkEmitter {
  capacity : nat;
  buffer : list Event;
  emitting : list (Event * emit_phase);
  batch : list Event;
  (** What the sink was given, whatever it made of it. *)
  sunk : list Event;
  dropped : list Event;
  (** Every event of a call that was not refused by the mode. *)
  emitted : list Event }.
Definition new_emitter (bufferSize : Z) : emitter := mkEmitter (buffer_size bufferSize) [] [] [] [] [] [].

Inductive emit_step : emitter → emitter → Prop :=
| emit_room c b es bt sk d em e : (length b < c)%nat →
    emit_step (mkEmitter c b es bt sk d em) (mkEmitter c (b ++ [e]) es bt sk d (em ++ [e]))
| emit_full c b es bt sk d em e : (c ≤ length b)%nat →
    emit_step (mkEmitter c b es bt sk d em) (mkEmitter c b (es ++ [(e, Evicting)]) bt sk d (em ++ [e]))
| emit_evict c o b es1 e es2 bt sk d em :
    emit_step (mkEmitter c (o :: b) (es1 ++ (e, Evicting) :: es2) bt sk d em)
              (mkEmitter c b (es1 ++ (e, Retrying) :: es2) bt sk (d ++ [o]) em)
| emit_nothing_to_evict c es1 e es2 bt sk d em :
    emit_step (mkEmitter c [] (es1 ++ (e, Evicting) :: es2) bt sk d em)
              (mkEmitter c [] (es1 ++ (e, Retrying) :: es2) bt sk d em)
| emit_retried c b es1 e es2 bt sk d em : (length b < c)%nat →
    emit_step (mkEmitter c b (es1 ++ (e, Retrying) :: es2) bt sk d em) (mkEmitter c (b ++ [e]) (es1 ++ es2) bt sk d em)
| emit_given_up c b es1 e es2 bt sk d em : (c ≤ length b)%nat →
    emit_step (mkEmitter c b (es1 ++ (e, Retrying) :: es2) bt sk d em) (mkEmitter c b (es1 ++ es2) bt sk (d ++ [e]) em)
(** The loop takes an event, fills the batch as long as there are more, and gives it to the sink. *)
| emit_take c e b es bt sk d em : (length bt < maxBatchSize)%nat →
    emit_step (mkEmitter c (e :: b) es bt sk d em) (mkEmitter c b es (bt ++ [e]) sk d em)
| emit_flush c b es bt sk d em : bt ≠ [] → b = [] ∨ length bt = maxBatchSize →
    emit_step (mkEmitter c b es bt sk d em) (mkEmitter c b es [] (sk ++ bt) d em).
End emitter.
Arguments emitter : clear implicits.

(** ** Redaction *)
(** The value at a path of keys. *)
Fixpoint value_at (v : any) (keys : list string) : option any :=
  match keys with
  | [] => Some v
  | k :: keys => match v with AMap m => x ← amap_get m k; value_at x keys | _ => None end
  end.

(** The path, or that of a map on the way, matches. *)
Fixpoint hidden (patterns : list string) (path : string) (keys : list string) : bool :=
  matchesAny patterns path || match keys with [] => false | k :: keys => hidden patterns (path +:+ "." +:+ k) keys end.

(** What is left of a value that is not hidden: a map with its fields redacted, or the value. *)
Lemma amap_get_redact patterns prefix m k :
  amap_get (redactMap patterns prefix m) k = redact_value patterns (prefix +:+ "." +:+ k) <$> amap_get m k.
Proof. induction m as [|[k' v] m IH]; [done|]. simpl. by case_decide; [subst|]. Qed.

Lemma redact_value_map patterns path m : matchesAny patterns path = false →
  redact_value patterns path (AMap m) = AMap (redactMap patterns path m).
Proof. intros Hm. simpl. rewrite Hm. f_equal. induction m as [|[k v] m IH]; [done|]. simpl. by rewrite IH. Qed.
Lemma redact_value_leaf patterns path v : matchesAny patterns path = false → (∀ m, v ≠ AMap m) →
  redact_value patterns path v = v.
Proof. intros Hm Hv. destruct v; simpl; rewrite Hm; try done. by edestruct Hv. Qed.

Lemma redact_value_at patterns keys path v x : value_at v keys = Some x →
  (hidden patterns path keys = false →
     value_at (redact_value patterns path v) keys = Some (redact_value patterns (foldl (λ p k, p +:+ "." +:+ k) path keys) x)) ∧
  (hidden patterns path keys = true →
     value_at (redact_value patterns path v) keys = None ∨
     value_at (redact_value patterns path v) keys = Some (AString RedactedValue)).
Proof.
  revert path v. induction keys as [|k keys IH]; intros path v E; simpl in E.
  - injection E as ->. simpl. rewrite orb_false_r. split; [done|]. intros Hm. right. f_equal. destruct x; simpl; by rewrite Hm.
  - destruct v as [| | | | |m]; try done. destruct (amap_get m k) as [y|] eqn:Ey; [|done]. simpl in E.
    destruct (matchesAny patterns path) eqn:Hm.
    + split; [simpl; by rewrite Hm|]. intros _. left. simpl. by rewrite Hm.
    + rewrite redact_value_map by done. simpl. rewrite Hm, amap_get_redact, Ey. exact (IH _ _ E).
Qed.

Lemma hidden_last patterns path keys : hidden patterns path keys = false →
  matchesAny patterns (foldl (λ p k, p +:+ "." +:+ k) path keys) = false.
Proof.
  revert path. induction keys as [|k keys IH]; intros path [H1 H2]%orb_false_iff; [done|]. by apply IH.
Qed.
Lemma value_at_map m k keys : value_at (AMap m) (k :: keys) = amap_get m k ≫= λ x, value_at x keys.
Proof. done. Qed.

Definition detail_path (keys : list string) : string := foldl (λ p k, p +:+ "." +:+ k) "detail" keys.

(** C20: a redacted detail shows nothing at a path when the path, or that of a map around it, matches a
    pattern: the mark is there, or nothing.  A value that is not a map and is not hidden is
    unchanged. *)
Theorem redaction_exact patterns detail k keys x :
  patterns ≠ [] → value_at (AMap detail) (k :: keys) = Some x →
  (hidden patterns (detail_path [k]) keys = true →
     value_at (AMap (Redact patterns detail)) (k :: keys) = None ∨
     value_at (AMap (Redact patterns detail)) (k :: keys) = Some (AString RedactedValue)) ∧
  (hidden patterns (detail_path [k]) keys = false → (∀ m, x ≠ AMap m) →
     value_at (AMap (Redact patterns detail)) (k :: keys) = Some x).
Proof.
  intros Hp E. unfold Redact. rewrite decide_False by done. rewrite value_at_map in E. rewrite !value_at_map, amap_get_redact.
  destruct (amap_get detail k) as [y|] eqn:Ey; [|done]. cbn [fmap option_fmap option_map mbind option_bind] in E |- *.
  destruct (redact_value_at patterns keys (detail_path [k]) y x E) as [H1 H2]. split; [exact H2|].
  intros Hh Hx. etransitivity; [exact (H1 Hh)|]. f_equal. apply redact_value_leaf; [|done]. by apply hidden_last.
Qed.

(** ** Truncation *)
Section truncate.
Context `{JsonApi}.

Lemma amap_get_replace m k k' v : amap_get (amap_replace m k v) k' =
  if decide (k = k') then (if amap_get m k then Some v else None) else amap_get m k'.
Proof.
  induction m as [|[k0 v0] m IH]; simpl; [by case_decide|].
  destruct (decide (k = k0)) as [<-|Hk]; simpl.
  - destruct (decide (k' = k)) as [->|]; [by rewrite decide_True|by rewrite decide_False].
  - rewrite IH. destruct (decide (k' = k0)) as [->|]; [by rewrite decide_False|done].
Qed.

Definition field_ok (maxBytes : Z) (detail : list (string * any)) (field : string) : Prop :=
  ∀ s, amap_get detail field ≫= detail_text = Some s → str_len s ≤ maxBytes.

Lemma truncate_field_spec maxBytes detail field : str_len truncatedSuffix ≤ maxBytes →
  ∃ detail' t, truncate_field maxBytes detail field = Some (detail', t) ∧ field_ok maxBytes detail' field ∧
    (∀ k, k ≠ field → amap_get detail' k = amap_get detail k) ∧ (t = false → detail' = detail) ∧
    (t = true ↔ ¬ field_ok maxBytes detail field).
Proof.
  intros Hm. unfold truncate_field, field_ok. destruct (amap_get detail field ≫= detail_text) as [s|] eqn:E.
  2: { exists detail, false. rewrite E. split; [done|]. split; [done|]. split; [done|]. split; [done|]. split; [done|].
       intros Hn. by destruct Hn. }
  destruct (maxBytes <? str_len s) eqn:El.
  - apply Z.ltb_lt in El. destruct (maxBytes - str_len truncatedSuffix <? 0) eqn:Eb; [apply Z.ltb_lt in Eb; lia|].
    eexists _, true. split; [done|]. split; [|split; [|split; [done|]]].
    + intros s'. rewrite amap_get_replace, decide_True by done.
      destruct (amap_get detail field) as [v|] eqn:Ev; [|done]. simpl. intros [= <-].
      unfold str_len in *. rewrite str_app_length, str_take_length by lia. lia.
    + intros k Hk. by rewrite amap_get_replace, decide_False.
    + split; [|done]. intros _ Hn. specialize (Hn s eq_refl). lia.
  - apply Z.ltb_ge in El. exists detail, false. rewrite E. split; [done|]. split; [by intros s' [= <-]|].
    split; [done|]. split; [done|]. split; [done|]. intros Hn. destruct Hn. by intros s' [= <-].
Qed.

(** with a bound that leaves room for the mark truncation always answers: both fields are within the
    bound, nothing else is changed, and it says so exactly when a field was too long. *)
Theorem Truncate_bounds maxBytes detail : str_len truncatedSuffix ≤ maxBytes →
  ∃ detail' t, Truncate maxBytes detail = Some (detail', t) ∧
    field_ok maxBytes detail' "input" ∧ field_ok maxBytes detail' "output" ∧
    (∀ k, k ∉ ["input"; "output"] → amap_get detail' k = amap_get detail k) ∧
    (t = false → detail' = detail) ∧
    (t = true ↔ ¬ (field_ok maxBytes detail "input" ∧ field_ok maxBytes detail "output")).
Proof.
  intros Hm. unfold Truncate. destruct (maxBytes <=? 0) eqn:E0; [change (str_len truncatedSuffix) with 11 in Hm; lia|].
  destruct (truncate_field_spec maxBytes detail "input" Hm) as (d1 & t1 & E1 & O1 & K1 & S1 & T1). rewrite E1. simpl.
  destruct (truncate_field_spec maxBytes d1 "output" Hm) as (d2 & t2 & E2 & O2 & K2 & S2 & T2). rewrite E2. simpl.
  exists d2, (t1 || t2). split; [done|].
  assert (Hi : ∀ d, amap_get d "input" = amap_get d1 "input" → field_ok maxBytes d "input")
    by (intros d Ed; unfold field_ok; by rewrite Ed).
  assert (Ho : field_ok maxBytes d1 "output" ↔ field_ok maxBytes detail "output")
    by (unfold field_ok; by rewrite K1).
  split; [apply Hi, K2; done|]. split; [done|]. split; [intros k Hk; rewrite K2, K1; set_solver|]. split.
  - intros [-> ->]%orb_false_iff. by rewrite S2, S1.
  - rewrite orb_true_iff, T1, T2, Ho. destruct t1, t2; naive_solver.
Qed.

(** A smaller bound panics on a field that is too long. *)
Lemma Truncate_panics maxBytes detail s : 0 < maxBytes < str_len truncatedSuffix →
  amap_get detail "input" = Some (AString s) → maxBytes < str_len s → Truncate maxBytes detail = None.
Proof.
  intros [H0 Hm] E Hs. unfold Truncate, truncate_field. rewrite E. cbn [mbind option_bind detail_text].
  rewrite (proj2 (Z.leb_gt _ _)), (proj2 (Z.ltb_lt _ _) Hs), (proj2 (Z.ltb_lt _ _)) by lia. done.
Qed.
End truncate.

(** ** The emitter *)
Section emitter.
Context {Event : Type}.

(** What passed through the buffer and what did not, in the order of the buffer. *)
Record tidy (s : emitter Event) : Prop := {
  tidy_events : emitted s ≡ₚ sunk s ++ batch s ++ buffer s ++ (emitting s).*1 ++ dropped s;
  tidy_buffer : (length (buffer s) ≤ capacity s)%nat;
  tidy_batch : (length (batch s) ≤ maxBatchSize)%nat }.

Lemma step_tidy s s' : emit_step s s' → tidy s → tidy s'.
Proof.
  destruct 1; intros [T1 T2 T3]; split; simpl in *;
    rewrite ?fmap_app, ?fmap_cons, ?length_app in *; simpl in *; try lia; try (rewrite T1; solve_Permutation).
  all: try done.
Qed.

(** C21: whatever producers and the loop do, and however they interleave, every event that was emitted
    is with its producer, waits, is in the batch, was given to the sink or is counted as dropped,
    exactly once; the buffer keeps within its capacity and a batch within its size. *)
Theorem emitter_conserves n s : rtc emit_step (new_emitter n) s → tidy s.
Proof.
  intros Hs. assert (I : ∀ x y, rtc emit_step x y → tidy x → tidy y).
  { induction 1 as [|x y z Hxy _ IH]; [done|]. intros T. apply IH. by eapply step_tidy. }
  apply (I _ _ Hs). split; simpl; [done|lia|lia].
Qed.
End emitter.

(** ** At concrete inputs *)
Definition sample_detail : list (string * any) :=
  [("input", AMap [("token", AString "s3cr3t"); ("text", AString "hello")]); ("tool", AString "search")].

Lemma redaction_exact_witness :
  (value_at (AMap (Redact ["detail.*.token"] sample_detail)) ["input"; "token"] = None ∨
   value_at (AMap (Redact ["detail.*.token"] sample_detail)) ["input"; "token"] = Some (AString RedactedValue)) ∧
  value_at (AMap (Redact ["detail.*.token"] sample_detail)) ["input"; "text"] = Some (AString "hello").
Proof.
  split.
  - apply (redaction_exact ["detail.*.token"] sample_detail "input" ["token"] (AString "s3cr3t")); [done|reflexivity|].
    vm_compute. reflexivity.
  - apply (redaction_exact ["detail.*.token"] sample_detail "input" ["text"] (AString "hello")); [done|reflexivity| |done].
    vm_compute. reflexivity.
Defined.

(** A list is not looked into. *)
Example lists_not_redacted :
  let detail := [("calls", AList [AMap [("token", AString "s3cr3t")]])] in
  Redact ["detail.*.token"; "detail.calls.*.token"; "detail.token"] detail = detail.
Proof. vm_compute. reflexivity. Qed.

#[local] Instance sample_json : JsonApi := {|
  json_Unmarshal _ := Err "none"; json_Marshal _ := Ok "{}"; json_type_error _ := "" |}.

Lemma Truncate_bounds_witness :
  str_len truncatedSuffix ≤ 16 ∧
  ∃ detail' t, Truncate 16 [("input", AString "a text of some length")] = Some (detail', t) ∧
    field_ok 16 detail' "input" ∧ field_ok 16 detail' "output" ∧
    (∀ k, k ∉ ["input"; "output"] → amap_get detail' k = amap_get [("input", AString "a text of some length")] k) ∧
    (t = false → detail' = [("input", AString "a text of some length")]) ∧
    (t = true ↔ ¬ (field_ok 16 [("input", AString "a text of some length")] "input" ∧
                   field_ok 16 [("input", AString "a text of some length")] "output")).
Proof.
  assert (H : str_len truncatedSuffix ≤ 16) by (vm_compute; discriminate). split; [exact H|].
  exact (Truncate_bounds 16 [("input", AString "a text of some length")] H).
Defined.

Lemma emitter_conserves_witness : ∃ s : emitter Z, buffer s = [2] ∧ dropped s = [1] ∧ tidy s.
Proof.
  assert (H : rtc emit_step (new_emitter (Event := Z) 1) (mkEmitter 1 [2] [] [] [] [1] [1; 2])).
  { eapply rtc_l; [apply (emit_room 1 [] [] [] [] [] [] 1); simpl; lia|].
    eapply rtc_l; [apply (emit_full 1 [1] [] [] [] [] [1] 2); simpl; lia|].
    eapply rtc_l; [apply (emit_evict 1 1 [] [] 2 [] [] [] [] [1; 2])|].
    apply rtc_once, (emit_retried 1 [] [] 2 [] [] [] [1] [1; 2]). simpl. lia. }
  eexists. split; [|split; [|exact (emitter_conserves 1 _ H)]]; done.
Defined.
